(* ===== verification/_CoqProject ===== *)
-Q . S2P
Prelude.v
KvCells.v
Memory.v
Batch.v
KvCache.v
KvOps.v
KvSlot.v
KvPrepare.v
KvWindow.v
KvBatch.v
KvIswa.v
KvIswaOk.v
KvInputs.v
GgmlHash.v
GgmlGraph.v
GgmlGraphOk.v
GgmlFuse.v
Sampler.v
SamplerOk.v
SamplerDry.v
SamplerTopK.v
Bytes.v
Utf8.v
Grammar.v
GrammarLang.v
GrammarRun.v
GrammarSample.v
GrammarChar.v
GrammarParse.v
GrammarText.v
GrammarRepeat.v
Vocab.v
VocabOk.v
MergeChain.v
SpmTok.v
BpeTok.v
Tokenize.v
TokenizeOk.v
Trie.v
UgmTok.v
UgmOk.v
UgmNorm.v
UgmMap.v
TensorAlloc.v
TensorAllocOk.v
LinearAlloc.v
GgmlTensor.v
GgmlTensorOk.v
GgmlPool.v
GgmlViews.v
KvState.v
KvSave.v
KvConsume.v
KvRestore.v
KvReload.v
KvRoundtrip.v
KvSeqState.v
KvIswaState.v
