(* ===== verification/Prelude.v ===== *)
(** A verification development for the C++ inference engine of Smol: the copy of
    llama.cpp and ggml under [src/llama_cpp_repo/].  Paths below are relative to
    that directory.

    * The program

    Smol serves language models on a NAS: a Python application ([NAS/]) starts
    the server of llama.cpp, which does the work.  A request goes through these
    parts.

    - The vocabulary ([src/llama-vocab.cpp]) cuts the prompt at its special
      tokens and turns the rest into tokens, by merging (SPM, BPE) or by a search
      for the best segmentation (UGM); it turns tokens back into text.
    - The user's batch of tokens is checked and completed by the batch allocator
      ([src/llama-batch.cpp]), which also cuts it into ubatches.
    - A memory module ([src/llama-memory.h]) keeps what the model remembers; the
      main one is the key/value cache ([src/llama-kv-cache.cpp]), a set of
      streams of cells ([src/llama-kv-cells.h]).  It finds cells for all
      ubatches of a batch, places them one after the other, and computes the
      inputs of the compute graph, among them the attention mask.  Two such
      caches make the one for models with interleaved sliding windows
      ([src/llama-kv-cache-iswa.cpp]).  The state of a sequence, or of the whole
      cache, is written to a buffer and read back ([src/llama-context.cpp]).
    - The model's computation is a graph of tensors ([ggml/src/ggml.c]): the
      tensors and their views are cut from the memory pool of a context, the
      graph is built by a depth-first visit with a hash set of visited tensors
      ([ggml/src/ggml-impl.h]), and a dynamic allocator ([ggml/src/ggml-alloc.c])
      gives the tensors overlapping life times in one buffer.
    - The sampler ([src/llama-sampler.cpp]) chooses the next token from the
      logits; a grammar ([src/llama-grammar.cpp]) restricts it to a language
      given as text, which involves UTF-8 sequences cut at any byte
      ([src/unicode.cpp]).

    * The files

    [Prelude]      build modes, assertions, machine integers, the option and the
                   outcome monad with their loops, [FloatOps], list lemmas,
                   tactics and hints.

    The memory of the model:

    [KvCells]      [llama_kv_cells]: every method; the invariant of its parallel
                   vectors and counts; refinement of an abstract map from cells
                   to positions and sequence sets.
    [Memory]       [llama_memory_i] as a class of operations with the laws a
                   memory promises; [llama_memory_status] and its combination.
    [Batch]        [llama_batch_allocr]: [init], [split_simple], [split_equal],
                   [split_seq], [ubatch_add]; what an accepted batch satisfies,
                   relative to the interface of [Memory], and what each way of
                   splitting produces.
    [KvCache]      [llama_kv_cache]: the model (sequence operations,
                   [find_slot], [apply_ubatch], [prepare], [update],
                   [init_batch] and the batch contexts).
    [KvOps]        the invariant of the cache; the sequence operations refine
                   their effect on the abstract content, and the cache is an
                   instance of the interface.
    [KvSlot]       slot search and placement: [find_slot] answers exactly when
                   there are usable cells; [apply_ubatch] writes the tokens.
    [KvPrepare]    [prepare] with its save and restore of cells, and the loop
                   that applies the prepared slots.
    [KvWindow]     [prepare] with a sliding window: it may drop positions that
                   the window no longer needs.
    [KvBatch]      decoding a batch end to end: [Batch.init], the splits,
                   [init_batch] and the contexts together.
    [KvIswa], [KvIswaOk]
                   [llama_kv_cache_iswa]: the two caches; after any sequence
                   operations, prepared batches, applied ubatches and updates
                   the base cache has what the window cache has.
    [KvInputs]     [set_input_k_idxs], [set_input_v_idxs], [set_input_k_shift]
                   and [set_input_kq_mask]; the mask is the attention relation.
    [KvState]      [state_write] and [state_read] with the byte streams, and the
                   functions of the context that save and restore a sequence.
    [KvSave]       the bytes that are written, the same for the stream that
                   counts and the one that fills a buffer.
    [KvConsume]    reading counts the bytes it takes.
    [KvRestore], [KvReload]
                   reading back rows and transposed rows; cells and layers.
    [KvRoundtrip], [KvSeqState]
                   the round trips of a whole cache and of a sequence.
    [KvIswaState]  [state_write] and [state_read] of the two caches with the
                   flag that restores the window cache only; an example where
                   the window cache then has more than the base cache.

    Tensors:

    [GgmlTensor]   the table of types, layouts, the pool of a context, the
                   constructors of tensors and views.
    [GgmlTensorOk], [GgmlPool], [GgmlViews]
                   layouts in bounds; the pool and its views in every run; the
                   contiguity test and the renamings of elements.
    [GgmlHash]     the bit sets and [ggml_hash_set]: linear probing implements a
                   finite set.
    [GgmlGraph]    [ggml_cgraph]: visiting, building, copying, clearing and
                   querying graphs, and the fusion tests.
    [GgmlGraphOk]  building a graph: a topological order with exact use counts.
    [GgmlFuse]     what a successful fusion test guarantees.
    [TensorAlloc], [TensorAllocOk], [LinearAlloc]
                   [ggml_dyn_tallocr] and [ggml_tallocr]: the model, and that
                   the ranges handed out are aligned, in bounds and disjoint.

    Choosing tokens:

    [Sampler]      the ring buffer, the repetition penalties, the DRY sampler and
                   top-k, over the class [FloatOps] of floating-point operations.
    [SamplerOk], [SamplerDry], [SamplerTopK]
                   the ring buffer is a queue and the penalties count its window;
                   DRY finds the longest repetitions; top-k selects the best.
    [Bytes]        bytes, C strings and exceptions as values.
    [Utf8]         [unicode_cpt_to_utf8], [unicode_cpt_from_utf8], the two
                   decoders of the grammar, the byte-level alphabet.
    [Grammar]      the pushdown machine of [llama-grammar.cpp].
    [GrammarLang]  the language of a set of rules, as a derivation relation.
    [GrammarRun]   the stacks of the machine generate the language; the
                   left-recursion check.
    [GrammarSample] rejecting candidates and accepting tokens agree, for pieces
                   that end on a character boundary.
    [GrammarChar]  characters whose last bytes are not there yet.
    [GrammarParse] the parser of grammar texts: [llama_grammar_parser].
    [GrammarText]  the parser is total and its rules are well-formed.
    [GrammarRepeat] the rules synthesized for repetitions.

    The vocabulary:

    [Vocab], [VocabOk]
                   the token tables, their look-ups, pieces, detokenization.
    [MergeChain]   the doubly linked symbols both merging tokenizers work on, and
                   greedy merging as a specification.
    [SpmTok], [BpeTok]
                   the two merging tokenizers with their queues of outdated
                   pairs: they compute the greedy merging.
    [Tokenize], [TokenizeOk]
                   the search for special tokens in a text.
    [Trie]         [naive_trie].
    [UgmTok], [UgmOk], [UgmNorm], [UgmMap]
                   the UGM tokenizer: the search finds a best segmentation;
                   normalization with the precompiled map of replacements
                   replaces the longest keys and treats the spaces.

    * How code becomes definitions

    An operation is a function from states to [option] of states: [None] is a
    failed assertion, an access out of range or through a null pointer, or a
    signed overflow, that is, whatever the program must not do.  Every theorem
    about an operation says that it returns [Some].  Where the code throws, the
    result is an [outcome]: [Done], [Throw] with the exception, or [Undefined]
    for what the program must not do.  Returned errors are values:
    [None] inside [Some] for a slot search that finds nothing, [false] for a
    rejected batch, a constructor of [parse_error] for an exception.
    [assert] depends on the build ([ndebug]), [GGML_ASSERT] does not.
    A 32-bit signed result goes through [i32_chk], an unsigned one through
    [u32_wrap] or [u64_wrap].  Loops over an index are [foldM] or [foldO] over
    [seq]; other loops are functions with fuel, and each use gives a fuel that
    the theorems show to be enough: the length of the text for the decoders, the
    grammar parser and the cuts at special tokens, the number of cells for the
    slot search, the size of the table plus one for probing, the number of
    symbols and of queued pairs for the merging tokenizers.  Recursion through
    the grammar takes a depth, and the theorems say that some depth is enough and
    that more does not change the result.  A tensor of the cache is its bytes
    where they are copied, and an argument where they are computed.

    * What the theorems show

    The cache: every operation preserves the invariant and has the effect on the
    positions of the sequences that the definitions of [KvOps] state, which is the
    one the interface documents except in the cases named there; slots are found
    whenever there is room; preparing leaves the cells as they were, without a
    window; the mask
    computed with shortcuts is the attention relation; an accepted batch is
    decoded completely when there is room.  Saved states: the size is exact, and
    restoring gives back the cells with their keys and values.  Batches: an
    accepted batch continues the memory without a gap, and each split partitions
    the batch.  Grammars: an accepted text gives a machine that accepts exactly
    the language of the text, and the tokens kept by the sampler are those the
    machine can accept, for texts without token elements and pieces that are
    whole characters.  UTF-8: round trips and decoding in pieces.  Tokenizers:
    they always end, the merging ones compute the greedy merging and keep the
    text, the search finds a best segmentation, special tokens are cut out
    completely.  Tensors: the assertion on the size of a view is what keeps the elements of
    views in the bytes of their owner, and tensors do not overlap; the hash set is a set; a graph is a topological order
    of what its tensors depend on; fused nodes are used by nobody else;
    allocations are aligned, in bounds and disjoint.  Samplers: the window of
    penalties, the repetitions DRY penalises, the candidates top-k keeps.

    * What is not modelled

    Floating-point numbers (the samplers and the UGM scores are proved for any
    operations on them, and the samplers that only compute with probabilities
    are left out), device code and the numeric kernels with the constructors of
    their operators; the construction of the model's compute graphs and their
    backward pass; the graph allocator above the allocators of ranges;
    recurrent and hybrid memory; the WPM, RWKV and PLaMo-2 tokenizers;
    the metadata of the model file;
    threads; files, the network and the HTTP server; text templates and regular
    expressions; the data tables of Unicode.  What these give to the modelled
    code is an argument of the definitions: the computation on the tensors of the
    cache, the words a pre-tokenizer cuts, the tokens a grammar looks up, the
    matcher of trigger patterns. *)

From stdpp Require Export base tactics numbers list gmap fin_sets.

Set Default Goal Selector "!".

(** * Build mode and assertions

    [assert] of the C++ code is compiled out when NDEBUG is set, [GGML_ASSERT]
    never is.  Every operation that contains an [assert] takes the build mode
    as a class argument, and every theorem quantifies over it. *)

Class BuildMode := { ndebug : bool }.

Definition debug_build : BuildMode := {| ndebug := false |}.
Definition release_build : BuildMode := {| ndebug := true |}.

Declare Scope llama_scope.
Delimit Scope llama_scope with llama.
Open Scope llama_scope.

Definition c_assert `{BM : BuildMode} (b : bool) : option unit :=
  if ndebug || b then Some tt else None.

Definition ggml_assert (b : bool) : option unit := if b then Some tt else None.

Notation "'ASSERT' b ; k" := (mbind (fun _ : unit => k) (c_assert b))
  (at level 100, b at level 99, k at level 200, right associativity) : llama_scope.
Notation "'GGML_ASSERT' b ; k" := (mbind (fun _ : unit => k) (ggml_assert b))
  (at level 100, b at level 99, k at level 200, right associativity) : llama_scope.

Lemma c_assert_true `{BM : BuildMode} b : b = true -> c_assert b = Some tt.
Proof. intros ->. unfold c_assert. by rewrite orb_true_r. Qed.

Lemma ggml_assert_true b : b = true -> ggml_assert b = Some tt.
Proof. by intros ->. Qed.

Lemma c_assert_bd `{BM : BuildMode} (P : Prop) `{Decision P} :
  P -> c_assert (bool_decide P) = Some tt.
Proof. intros. apply c_assert_true. by apply bool_decide_true. Qed.

Lemma ggml_assert_bd (P : Prop) `{Decision P} :
  P -> ggml_assert (bool_decide P) = Some tt.
Proof. intros. apply ggml_assert_true. by apply bool_decide_true. Qed.

Lemma ggml_assert_inv b r : ggml_assert b = Some r -> b = true.
Proof. by destruct b. Qed.

(** * Machine integers *)

Definition INT32_MAX : Z := 2147483647.
Definition INT32_MIN : Z := -2147483648.
Definition i32_ok (z : Z) : bool := bool_decide (INT32_MIN <= z <= INT32_MAX)%Z.

(** Signed overflow is undefined behaviour: the checked operation has no value. *)
Definition i32_chk (z : Z) : option Z := if i32_ok z then Some z else None.

Lemma i32_chk_Some z : (INT32_MIN <= z <= INT32_MAX)%Z -> i32_chk z = Some z.
Proof. intros H. unfold i32_chk, i32_ok. by rewrite bool_decide_true. Qed.

Lemma i32_chk_inv z x : i32_chk z = Some x -> x = z /\ (INT32_MIN <= z <= INT32_MAX)%Z.
Proof. unfold i32_chk, i32_ok. case_bool_decide; [|done]. by intros [= ->]. Qed.

(** Unsigned arithmetic wraps. *)
Definition u32_wrap (z : Z) : Z := (z mod 4294967296)%Z.
Definition u64_wrap (z : Z) : Z := (z mod 18446744073709551616)%Z.

(** * Arrays

    [v[i] = x]; an index out of range is undefined behaviour. *)

Definition set_at {A} (i : nat) (x : A) (l : list A) : option (list A) :=
  if bool_decide (i < length l) then Some (<[i := x]> l) else None.

Lemma set_at_ok {A} i (x : A) l : i < length l -> set_at i x l = Some (<[i:=x]> l).
Proof. intros H. unfold set_at. by rewrite bool_decide_true. Qed.

Lemma set_at_inv {A} i (x : A) l l' : set_at i x l = Some l' -> i < length l /\ l' = <[i:=x]> l.
Proof. unfold set_at. case_bool_decide; [|done]. by intros [= <-]. Qed.

(** * Loops

    A C++ [for] over a fixed index list whose body updates a state and may
    fail is [foldM]. *)

Fixpoint foldM {A S} (f : A -> S -> option S) (l : list A) (s : S) : option S :=
  match l with
  | [] => Some s
  | a :: l => s' ← f a s; foldM f l s'
  end.

Lemma foldM_app {A S} (f : A -> S -> option S) l1 l2 s :
  foldM f (l1 ++ l2) s = (s' ← foldM f l1 s; foldM f l2 s').
Proof.
  revert s. induction l1 as [|a l1 IH]; intros s; simpl; [done|].
  destruct (f a s); simpl; [apply IH | done].
Qed.

(** The loop rule: an invariant indexed by the list of iterations done. *)
Lemma foldM_prefix {A S} (f : A -> S -> option S) (P : list A -> S -> Prop) l s0 :
  P [] s0 ->
  (forall pre a s, (pre ++ [a]) `prefix_of` l -> P pre s ->
     exists s', f a s = Some s' /\ P (pre ++ [a]) s') ->
  exists s', foldM f l s0 = Some s' /\ P l s'.
Proof.
  intros H0 Hstep. induction l as [|a l IH] using rev_ind; [by eauto|].
  destruct IH as (s1 & Hs1 & HP).
  { intros pre b s Hpre. apply Hstep. by apply prefix_app_r. }
  destruct (Hstep l a s1) as (s2 & Hs2 & HP2); [done|done|].
  exists s2. by rewrite foldM_app, Hs1; simpl; rewrite Hs2.
Qed.

(** The same with a plain invariant. *)
Lemma foldM_inv {A S} (f : A -> S -> option S) (I : S -> Prop) l s0 :
  I s0 ->
  (forall a s, a ∈ l -> I s -> exists s', f a s = Some s' /\ I s') ->
  exists s', foldM f l s0 = Some s' /\ I s'.
Proof.
  intros H0 Hstep. apply (foldM_prefix f (fun _ => I)); [done|].
  intros pre a s [k ->] HI. apply Hstep; [|done]. set_solver.
Qed.

Lemma foldM_fmap {A B S} (f : B -> S -> option S) (h : A -> B) l s : foldM f (h <$> l) s = foldM (fun a => f (h a)) l s.
Proof. revert s. induction l as [|a l IH]; intros s; simpl; [done|]. destruct (f (h a) s); simpl; [apply IH|done]. Qed.

(** Two nested loops as one loop over the pairs. *)
Lemma foldM_nested {A B S} (g : A -> B -> S -> option S) (l : A -> list B) L s :
  foldM (fun a s => foldM (g a) (l a) s) L s = foldM (fun e => g (fst e) (snd e)) (concat ((fun a => pair a <$> l a) <$> L)) s.
Proof.
  revert s. induction L as [|a L IH]; intros s; simpl; [done|]. rewrite foldM_app, foldM_fmap. simpl.
  destruct (foldM (g a) (l a) s); simpl; [apply IH|done].
Qed.

(** The pairs [(s, j)] with [s < k] and [j < m], in order. *)
Definition coords (k m : nat) : list (nat * nat) := concat ((fun s => pair s <$> seq 0 m) <$> seq 0 k).

Lemma elem_of_coords k m s j : (s, j) ∈ coords k m <-> s < k /\ j < m.
Proof.
  unfold coords. rewrite list_elem_of_In, in_concat. split.
  - intros (l & Hl%list_elem_of_In & Hj%list_elem_of_In). apply list_elem_of_fmap in Hl as (s' & -> & Hs).
    apply list_elem_of_fmap in Hj as (j' & [= -> ->] & Hj). rewrite elem_of_seq in *. lia.
  - intros [Hs Hj]. exists (pair s <$> seq 0 m). rewrite <- !list_elem_of_In. split; apply list_elem_of_fmap; eexists; (split; [done|]);
      apply elem_of_seq; lia.
Qed.

Lemma NoDup_coords k m : NoDup (coords k m).
Proof.
  unfold coords. generalize 0 at 2. induction k as [|k IH]; intros b; simpl; [constructor|]. apply NoDup_app. split_and!.
  - apply (NoDup_fmap_2 _), NoDup_seq.
  - intros [s j] (j' & [= -> ->] & _)%list_elem_of_fmap Hin%list_elem_of_In. apply in_concat in Hin as (l & Hl%list_elem_of_In & Hx%list_elem_of_In).
    apply list_elem_of_fmap in Hl as (s' & -> & Hs). apply list_elem_of_fmap in Hx as (? & [= -> _] & _).
    apply elem_of_seq in Hs. lia.
  - apply IH.
Qed.

(** From a successful run: an invariant indexed by the iterations done. *)
Lemma foldM_prefix_sound {A S} (f : A -> S -> option S) (P : list A -> S -> Prop) l s s' :
  P [] s ->
  (forall pre a t t', (pre ++ [a]) `prefix_of` l -> P pre t -> f a t = Some t' -> P (pre ++ [a]) t') ->
  foldM f l s = Some s' -> P l s'.
Proof.
  intros H0. revert s'. induction l as [|a l IH] using rev_ind; intros s' Hstep Hrun; [by injection Hrun as <-|].
  rewrite foldM_app in Hrun. destruct (foldM f l s) as [t|] eqn:Ht; [|done]. simpl in Hrun.
  destruct (f a t) as [t'|] eqn:Hf; [|done]. injection Hrun as <-. apply (Hstep l a t); [done| |done].
  apply IH; [|done]. intros pre b u u' Hpre. apply Hstep. by apply prefix_app_r.
Qed.

Lemma foldM_sound {A S} (f : A -> S -> option S) (P : list A -> S -> Prop) l s s' :
  P [] s ->
  (forall pre a t t', a ∈ l -> P pre t -> f a t = Some t' -> P (pre ++ [a]) t') ->
  foldM f l s = Some s' -> P l s'.
Proof.
  intros H0 Hstep. apply foldM_prefix_sound; [done|]. intros pre a t t' [rest ->]. apply Hstep. set_solver.
Qed.

(** From a successful run: what every iteration preserves holds at the end. *)
Lemma foldM_preserves {A S} (f : A -> S -> option S) (I : S -> Prop) l s s' :
  (forall a t t', a ∈ l -> I t -> f a t = Some t' -> I t') ->
  I s -> foldM f l s = Some s' -> I s'.
Proof.
  revert s. induction l as [|a l IH]; intros s Hstep HI Hrun; simpl in Hrun.
  - by simplify_eq.
  - destruct (f a s) as [s1|] eqn:Hf; [|done]. simpl in Hrun.
    eapply (IH s1); [| |done].
    + intros b t t' Hb. apply Hstep. by right.
    + eapply Hstep; [by left|done|done].
Qed.

(** * Lists *)

Lemma prefix_seq_inv m n pre (a : nat) :
  (pre ++ [a]) `prefix_of` seq m n -> a = m + length pre /\ pre = seq m (length pre) /\ length pre < n.
Proof.
  revert m n. induction pre as [|b pre IH]; intros m n [k Hk]; destruct n as [|n]; simpl in *; try done.
  - injection Hk as -> _. split_and!; [lia|done|lia].
  - injection Hk as <- Hk. destruct (IH (S m) n) as (-> & Hp & ?); [by exists k|].
    split_and!; [lia| |lia]. by rewrite <- Hp.
Qed.

Lemma seq_snoc m n : seq m n ++ [m + n] = seq m (S n).
Proof. by rewrite seq_S. Qed.

(** [for (i = m; i < m + n; ++i)] with an invariant on the counter. *)
Lemma foldM_seq {S} (f : nat -> S -> option S) (P : nat -> S -> Prop) m n s0 :
  P m s0 ->
  (forall i s, m <= i < m + n -> P i s -> exists s', f i s = Some s' /\ P (i + 1) s') ->
  exists s', foldM f (seq m n) s0 = Some s' /\ P (m + n) s'.
Proof.
  intros H0 Hstep.
  destruct (foldM_prefix f (fun l s => P (m + length l) s) (seq m n) s0) as (s' & Hs & HP).
  - by rewrite Nat.add_0_r.
  - intros pre a s Hpre HP.
    destruct (prefix_seq_inv _ _ _ _ Hpre) as (-> & _ & Hlt).
    destruct (Hstep (m + length pre) s) as (s' & ? & ?); [lia|done|].
    exists s'. split; [done|]. rewrite length_app. simpl. by rewrite Nat.add_assoc.
  - exists s'. by rewrite length_seq in HP.
Qed.

(** From a successful counted loop. *)
Lemma foldM_seq_sound {S} (f : nat -> S -> option S) (P : nat -> S -> Prop) n s s' :
  P 0 s ->
  (forall i t t', i < n -> P i t -> f i t = Some t' -> P (i + 1) t') ->
  foldM f (seq 0 n) s = Some s' -> P n s'.
Proof.
  intros H0. revert s'. induction n as [|n IH]; intros s' Hstep Hrun; [by injection Hrun as <-|].
  rewrite seq_S, foldM_app in Hrun. destruct (foldM f (seq 0 n) s) as [t|] eqn:Ht; [|done]. simpl in Hrun.
  destruct (f n t) as [t'|] eqn:Hf; [|done]. injection Hrun as <-.
  rewrite <- Nat.add_1_r. apply (Hstep n t); [lia| |done]. apply IH; [|done]. intros i u u' Hi. apply Hstep. lia.
Qed.

Lemma list_lookup_insert_dec {A} (l : list A) i j x y :
  <[i:=x]> l !! j = Some y -> (i = j /\ y = x) \/ (i <> j /\ l !! j = Some y).
Proof.
  destruct (decide (i = j)) as [->|Hne].
  - intros H. left. split; [done|].
    assert (j < length l) by (apply lookup_lt_Some in H; by rewrite length_insert in H).
    rewrite list_lookup_insert_eq in H by done. congruence.
  - intros H. right. by rewrite list_lookup_insert_ne in H.
Qed.

Lemma filter_all {A} (P : A -> Prop) `{!forall x, Decision (P x)} (l : list A) :
  Forall P l -> filter P l = l.
Proof.
  induction 1 as [|x l Hx _ IH]; [done|]. rewrite filter_cons, decide_True by done. by rewrite IH.
Qed.

Lemma filter_agree {A} (P Q : A -> Prop) `{!forall x, Decision (P x), !forall x, Decision (Q x)} (l : list A) :
  (forall x, x ∈ l -> P x <-> Q x) -> filter P l = filter Q l.
Proof.
  induction l as [|x l IH]; intros Hpq; [done|]. rewrite !filter_cons, IH by (intros y Hy; apply Hpq; by right).
  pose proof (Hpq x ltac:(by left)). repeat case_decide; tauto.
Qed.

Lemma NoDup_omap_inj {A B} (f : A -> option B) (l : list A) : NoDup l ->
  (forall i j x, i ∈ l -> j ∈ l -> f i = Some x -> f j = Some x -> i = j) -> NoDup (omap f l).
Proof.
  induction 1 as [|a l Ha _ IH]; intros Hinj; [constructor|]. assert (NoDup (omap f l)) as Hnd.
  { apply IH. intros i j x Hi Hj. apply Hinj; by right. }
  cbn. destruct (f a) as [y|] eqn:Hy; [|done]. apply NoDup_cons. split; [|done].
  intros (b & Hb & Hfb)%list_elem_of_omap. assert (a = b) as -> by (apply (Hinj a b y); [by left|by right|done..]). done.
Qed.

Lemma length_omap_all {A B} (f : A -> option B) (l : list A) : (forall i, i ∈ l -> is_Some (f i)) -> length (omap f l) = length l.
Proof.
  induction l as [|a l IH]; intros H; [done|]. cbn. destruct (H a ltac:(by left)) as [x ->]. simpl.
  rewrite IH; [done|]. intros j Hj. apply H. by right.
Qed.

(** * Powers of two *)

(** [n & (n - 1)] is zero only for powers of two. *)
Lemma land_pred_pow2 n : (0 < n)%Z -> Z.land n (n - 1) = 0%Z -> exists k, (0 <= k)%Z /\ n = (2 ^ k)%Z.
Proof.
  intros Hn Hl. exists (Z.log2 n). pose proof (Z.log2_nonneg n) as Hk. split; [done|].
  pose proof (Z.log2_spec n Hn) as [H1 H2]. destruct (decide (n = 2 ^ Z.log2 n)%Z) as [|Hne]; [done|]. exfalso.
  assert (Z.log2 (n - 1) = Z.log2 n) as Hlog by (apply Z.log2_unique; lia).
  assert (0 < 2 ^ Z.log2 n)%Z by (apply Z.pow_pos_nonneg; lia).
  assert (Z.testbit (Z.land n (n - 1)) (Z.log2 n) = true) as Hb; [|by rewrite Hl, Z.bits_0 in Hb].
  rewrite Z.land_spec, Z.bit_log2 by done. rewrite <- Hlog at 1. rewrite Z.bit_log2 by lia. done.
Qed.

(** Clearing the low [k] bits of a [w]-bit number. *)
Lemma land_high w m k : (0 <= k <= w -> 0 <= m < 2 ^ w -> Z.land m (2 ^ w - 2 ^ k) = m - m mod 2 ^ k)%Z.
Proof.
  intros Hk Hm. assert (0 < 2 ^ k)%Z as Hp by (apply Z.pow_pos_nonneg; lia).
  assert (2 ^ w - 2 ^ k = Z.ldiff (Z.ones w) (Z.ones k))%Z as ->.
  { rewrite Z.ldiff_ones_r, Z.shiftl_mul_pow2, Z.shiftr_div_pow2, Z.ones_equiv by lia.
    replace (2 ^ w)%Z with (2 ^ (w - k) * 2 ^ k)%Z by (rewrite <- Z.pow_add_r by lia; f_equal; lia).
    replace (Z.pred (2 ^ (w - k) * 2 ^ k))%Z with ((2 ^ (w - k) - 1) * 2 ^ k + (2 ^ k - 1))%Z by lia.
    rewrite Z.div_add_l by lia. rewrite (Z.div_small (2 ^ k - 1)) by lia. lia. }
  rewrite Z.ldiff_land, Z.land_assoc, Z.land_ones, Z.mod_small, <- Z.ldiff_land by lia.
  rewrite Z.ldiff_ones_r, Z.shiftl_mul_pow2, Z.shiftr_div_pow2 by lia. rewrite (Z.mod_eq m) by lia. lia.
Qed.

(** [(x + n - 1) & ~(n - 1)] in [w] bits rounds up to a multiple of a power of
    two. *)
Lemma pad_up w x k : (0 <= k <= w -> 0 <= x -> x + 2 ^ k <= 2 ^ w ->
  let r := Z.land (x + 2 ^ k - 1) (2 ^ w - 2 ^ k) in (2 ^ k | r) /\ x <= r < x + 2 ^ k)%Z.
Proof.
  intros Hk Hx Hle r. assert (0 < 2 ^ k)%Z as Hp by (apply Z.pow_pos_nonneg; lia).
  unfold r. rewrite land_high by lia. pose proof (Z.mod_pos_bound (x + 2 ^ k - 1) (2 ^ k) Hp). split; [|lia].
  exists ((x + 2 ^ k - 1) / 2 ^ k)%Z. rewrite (Z.mod_eq (x + 2 ^ k - 1)) by lia. lia.
Qed.

(** * Outcomes

    A call returns, throws an exception, or does what it must not do: undefined
    behaviour or an abort. *)

Inductive outcome (E A : Type) :=
  | Done (a : A)
  | Throw (e : E)
  | Undefined.
Arguments Done {E A} a.
Arguments Throw {E A} e.
Arguments Undefined {E A}.

#[global] Instance outcome_ret {E} : MRet (outcome E) := fun A a => Done a.
#[global] Instance outcome_bind {E} : MBind (outcome E) := fun A B f m =>
  match m with Done a => f a | Throw e => Throw e | Undefined => Undefined end.

Definition of_option {E A} (o : option A) : outcome E A := match o with Some a => Done a | None => Undefined end.

(** [GGML_ASSERT] in a computation that may throw. *)
Definition must {E} (b : bool) : outcome E unit := of_option (ggml_assert b).

Lemma must_true {E} b : b = true -> must b = @Done E unit tt.
Proof. by intros ->. Qed.

Lemma must_bd {E} (P : Prop) `{Decision P} : P -> must (bool_decide P) = @Done E unit tt.
Proof. intros. apply must_true. by apply bool_decide_true. Qed.

(** A loop over a list whose body may throw. *)
Fixpoint foldO {E A S} (f : A -> S -> outcome E S) (l : list A) (s : S) : outcome E S :=
  match l with
  | [] => Done s
  | a :: l => s ← f a s; foldO f l s
  end.

Lemma foldO_app {E A S} (f : A -> S -> outcome E S) l1 l2 s : foldO f (l1 ++ l2) s = (s' ← foldO f l1 s; foldO f l2 s').
Proof. revert s. induction l1 as [|a l1 IH]; intros s; cbn [app foldO mbind outcome_bind]; [done|]. destruct (f a s); cbn [mbind outcome_bind]; [apply IH|done|done]. Qed.

(** The loop rule for a range. *)
Lemma foldO_seq {E A} (f : nat -> A -> outcome E A) (P : nat -> A -> Prop) m : forall k s0, P m s0 ->
  (forall i s, m <= i < m + k -> P i s -> exists s', f i s = Done s' /\ P (i + 1) s') -> exists s', foldO f (seq m k) s0 = Done s' /\ P (m + k) s'.
Proof.
  induction k as [|k IH]; intros s0 H0 Hstep; [exists s0; by rewrite Nat.add_0_r|].
  destruct (IH s0 H0) as (s1 & Hrun & H1); [intros i s Hi; apply Hstep; lia|]. destruct (Hstep (m + k) s1) as (s2 & Hs2 & H2); [lia|done|].
  exists s2. rewrite <- seq_snoc, foldO_app, Hrun. cbn [mbind outcome_bind foldO]. rewrite Hs2. split; [done|]. by replace (m + S k) with (m + k + 1) by lia.
Qed.

(** * Floating-point arithmetic

    The operations are an argument of what uses them. *)

Class FloatOps := {
  float    : Type;
  fzero    : float;
  fone     : float;
  of_int   : Z -> float;
  fadd     : float -> float -> float;
  fsub     : float -> float -> float;
  fmul     : float -> float -> float;
  fdiv     : float -> float -> float;
  fpow     : float -> Z -> float;
  fle      : float -> float -> bool;
  flt      : float -> float -> bool;
  feq      : float -> float -> bool;
}.

(** Integers in place of floating-point numbers, to evaluate with. *)
Definition demo_floats : FloatOps := {|
  float := Z; fzero := 0%Z; fone := 1%Z; of_int := fun z => z; fadd := Z.add; fsub := Z.sub; fmul := Z.mul; fdiv := Z.div; fpow := Z.pow;
  fle := Z.leb; flt := Z.ltb; feq := Z.eqb |}.

(** * Tactics *)

(** Discharge the assertions of a computation whose conditions are in context
    or are arithmetic. *)
Ltac solve_assert :=
  first [done | apply bool_decide_true; (done || lia || naive_solver) | lia].
Ltac assert_step :=
  lazymatch goal with
  | |- ex (fun _ => mbind _ (c_assert ?b) = _ /\ _) => rewrite (c_assert_true b) by solve_assert
  | |- ex (fun _ => mbind _ (ggml_assert ?b) = _ /\ _) => rewrite (ggml_assert_true b) by solve_assert
  | |- mbind _ (c_assert ?b) = _ => rewrite (c_assert_true b) by solve_assert
  | |- mbind _ (ggml_assert ?b) = _ => rewrite (ggml_assert_true b) by solve_assert
  end; simpl.

(** Case split on the option binds of a hypothesis [m = Some _]. *)
Ltac inv_opt H :=
  repeat (simpl in H;
          match type of H with
          | mbind _ ?m = Some _ => let E := fresh "E" in destruct m eqn:E; [|discriminate H]
          | None = Some _ => discriminate H
          | Some _ = Some _ => injection H as H
          end); simpl in H.

(** Run a computation whose intermediate results are known from the context. *)
Ltac run_opt :=
  simpl in *;
  repeat (match goal with E : ?m = Some _ |- context [?m] => rewrite E end; simpl).

(** Decide a closed proposition by evaluation. *)
Ltac by_eval :=
  lazymatch goal with |- ?P => refine (bool_decide_unpack P _); vm_compute; exact I end.

Create HintDb llama discriminated.
#[export] Hint Resolve c_assert_true ggml_assert_true c_assert_bd ggml_assert_bd : llama.
#[export] Hint Rewrite @length_insert @length_replicate @length_app @length_seq : llama.
