(* ===== verification/KvCells.v ===== *)
(** The metadata of the KV cells: class [llama_kv_cells] of
    [llama_cpp_repo/src/llama-kv-cells.h].  The four parallel vectors, the
    index set [used] and the per-sequence position multisets [seq_pos] are the
    fields of the class; every method is a definition in the option monad
    ([None]: a failed assertion, an out-of-range access or a signed overflow). *)

From S2P Require Import Prelude.

Module Cells.

Definition LLAMA_MAX_SEQ : Z := 256.
#[global] Arguments LLAMA_MAX_SEQ : simpl never.

(** The range of the loops [for (s = 0; s < LLAMA_MAX_SEQ; ++s)]. *)
Definition all_seq : list Z := seqZ 0 LLAMA_MAX_SEQ.

Lemma elem_of_all_seq s : s ∈ all_seq <-> (0 <= s < LLAMA_MAX_SEQ)%Z.
Proof. unfold all_seq. rewrite elem_of_seqZ. lia. Qed.

Lemma NoDup_all_seq : NoDup all_seq.
Proof. apply NoDup_seqZ. Qed.

#[global] Opaque all_seq.

Record llama_kv_cell_ext := Ext { ext_x : Z; ext_y : Z }.

#[global] Instance ext_eq_dec : EqDecision llama_kv_cell_ext.
Proof. solve_decision. Defined.

Definition ext0 : llama_kv_cell_ext := Ext 0 0.

Definition is_2d_gt (e : llama_kv_cell_ext) (ox oy : Z) : bool :=
  bool_decide (ext_y e > oy)%Z || (bool_decide (ext_y e = oy) && bool_decide (ext_x e > ox)%Z).

(** [seqs] is the vector [seq] of bitsets; a bitset is the set of its ones. *)
Record llama_kv_cells := mkCells {
  has_shift : bool;
  used      : gset nat;
  pos       : list Z;
  ext       : list llama_kv_cell_ext;
  shift     : list Z;
  seqs      : list (gset Z);
  seq_pos   : list (gmap Z Z);
}.

#[global] Instance cells_eq_dec : EqDecision llama_kv_cells.
Proof. solve_decision. Defined.

Definition with_has_shift b c := mkCells b (used c) (pos c) (ext c) (shift c) (seqs c) (seq_pos c).
Definition with_used u c := mkCells (has_shift c) u (pos c) (ext c) (shift c) (seqs c) (seq_pos c).
Definition with_pos p c := mkCells (has_shift c) (used c) p (ext c) (shift c) (seqs c) (seq_pos c).
Definition with_ext e c := mkCells (has_shift c) (used c) (pos c) e (shift c) (seqs c) (seq_pos c).
Definition with_shift s c := mkCells (has_shift c) (used c) (pos c) (ext c) s (seqs c) (seq_pos c).
Definition with_seqs q c := mkCells (has_shift c) (used c) (pos c) (ext c) (shift c) q (seq_pos c).
Definition with_seq_pos m c := mkCells (has_shift c) (used c) (pos c) (ext c) (shift c) (seqs c) m.

(** [v[i] = x] on the vectors of the fields. *)
Definition set_pos i p c := l ← set_at i p (pos c); Some (with_pos l c).
Definition set_ext i e c := l ← set_at i e (ext c); Some (with_ext l c).
Definition set_shift i s c := l ← set_at i s (shift c); Some (with_shift l c).
Definition set_seqs i q c := l ← set_at i q (seqs c); Some (with_seqs l c).
Definition used_insert (i : nat) c := with_used ({[i]} ∪ used c) c.
Definition used_erase (i : nat) c := with_used (used c ∖ {[i]}) c.

(** [std::bitset<LLAMA_MAX_SEQ>::test], [set] and [reset] throw out of range. *)
Definition bs_ok (s : Z) : bool := bool_decide (0 <= s < LLAMA_MAX_SEQ)%Z.
Definition bs_test (b : gset Z) (s : Z) : option bool :=
  if bs_ok s then Some (bool_decide (s ∈ b)) else None.
Definition bs_set (b : gset Z) (s : Z) : option (gset Z) :=
  if bs_ok s then Some ({[s]} ∪ b) else None.
Definition bs_reset (b : gset Z) (s : Z) : option (gset Z) :=
  if bs_ok s then Some (b ∖ {[s]}) else None.

(** The ids [s] with [q.test(s)], in the order of the scanning loops. *)
Definition bs_ones (q : gset Z) : list Z := filter (fun s => s ∈ q) all_seq.

Section Ops.
Context `{BM : BuildMode}.

Definition reset (c : llama_kv_cells) : llama_kv_cells :=
  let n := length (pos c) in
  mkCells false ∅ (replicate n (-1)%Z) (replicate n ext0) (replicate n 0%Z) (replicate n ∅)
    (replicate (Z.to_nat LLAMA_MAX_SEQ) ∅).

Definition reset_shift (c : llama_kv_cells) : llama_kv_cells :=
  with_has_shift false (with_shift (replicate (length (shift c)) 0%Z) c).

Definition size (c : llama_kv_cells) : nat := length (pos c).

(** The default-constructed object: empty vectors, an array of empty maps. *)
Definition cells_new : llama_kv_cells :=
  mkCells false ∅ [] [] [] [] (replicate (Z.to_nat LLAMA_MAX_SEQ) ∅).

(** [std::vector::resize] on the four vectors, then [reset]. *)
Definition resize (n : nat) (c : llama_kv_cells) : llama_kv_cells :=
  reset (mkCells (has_shift c) (used c)
    (list.resize n 0%Z (pos c)) (list.resize n ext0 (ext c))
    (list.resize n 0%Z (shift c)) (list.resize n ∅ (seqs c)) (seq_pos c)).

Definition is_empty (i : nat) (c : llama_kv_cells) : option bool :=
  ASSERT bool_decide (i < length (pos c));
  p ← pos c !! i;
  ASSERT (bool_decide (p < 0 /\ p = -1) || bool_decide (p >= 0))%Z;
  Some (bool_decide (p = -1)%Z).

Definition get_used (c : llama_kv_cells) : nat := base.size (used c).

(** First and last element of an ordered set of indices. *)
Definition set_min (u : gset nat) : option nat :=
  match elements u with
  | [] => None
  | x :: l => Some (foldr Nat.min x l)
  end.
Definition set_max (u : gset nat) : option nat :=
  match elements u with
  | [] => None
  | x :: l => Some (foldr Nat.max x l)
  end.
Definition used_min (c : llama_kv_cells) : nat :=
  match set_min (used c) with None => 0 | Some m => m end.
Definition used_max_p1 (c : llama_kv_cells) : nat :=
  match set_max (used c) with None => 0 | Some m => m + 1 end.

Definition get_has_shift (c : llama_kv_cells) : bool := has_shift c.

(** The ordered map [seq_pos[s]] and its updates. *)
Definition seq_pos_at (s : Z) (c : llama_kv_cells) : option (gmap Z Z) :=
  if bool_decide (0 <= s)%Z then seq_pos c !! Z.to_nat s else None.
Definition set_seq_pos (s : Z) (m : gmap Z Z) (c : llama_kv_cells) : llama_kv_cells :=
  with_seq_pos (<[Z.to_nat s := m]> (seq_pos c)) c.

(** [find] returning [end()] is asserted against; dereferencing it anyway has
    no value. *)
Definition seq_pos_dec (s p : Z) (c : llama_kv_cells) : option llama_kv_cells :=
  m ← seq_pos_at s c;
  ASSERT bool_decide (is_Some (m !! p));
  n ← m !! p;
  n' ← i32_chk (n - 1)%Z;
  Some (set_seq_pos s (if bool_decide (n' = 0)%Z then delete p m else <[p := n']> m) c).

Definition seq_pos_inc (s p : Z) (c : llama_kv_cells) : option llama_kv_cells :=
  m ← seq_pos_at s c;
  n' ← i32_chk (default 0%Z (m !! p) + 1)%Z;
  Some (set_seq_pos s (<[p := n']> m) c).

Definition seq_pos_rm (i : nat) (c : llama_kv_cells) : option llama_kv_cells :=
  q ← seqs c !! i;
  p ← pos c !! i;
  foldM (fun s c =>
    t ← bs_test q s;
    if (t : bool) then seq_pos_dec s p c else Some c) all_seq c.

Definition seq_pos_add (i : nat) (c : llama_kv_cells) : option llama_kv_cells :=
  q ← seqs c !! i;
  p ← pos c !! i;
  foldM (fun s c =>
    t ← bs_test q s;
    if (t : bool) then seq_pos_inc s p c else Some c) all_seq c.

(** [res.pos[j] = pos[idx]; res.ext[j] = ext[idx]; res.seq[j] = seq[idx];
    assert(shift[idx] == 0)]: the body of both [cp] loops. *)
Definition cp_cell (c : llama_kv_cells) (j idx : nat) (res : llama_kv_cells) : option llama_kv_cells :=
  p ← pos c !! idx;
  res ← set_pos j p res;
  e ← ext c !! idx;
  res ← set_ext j e res;
  q ← seqs c !! idx;
  res ← set_seqs j q res;
  sh ← shift c !! idx;
  ASSERT bool_decide (sh = 0)%Z;
  Some res.

Definition cp (i n : nat) (c : llama_kv_cells) : option llama_kv_cells :=
  ASSERT bool_decide (i + n <= length (pos c));
  foldM (fun j res => cp_cell c j (i + j) res) (seq 0 n) (resize n cells_new).

Definition cp_idxs (idxs : list nat) (c : llama_kv_cells) : option llama_kv_cells :=
  foldM (fun j res => idx ← idxs !! j; cp_cell c j idx res)
    (seq 0 (length idxs)) (resize (length idxs) cells_new).

(** The body of both [set] loops: cell [idx] takes the state of cell [j] of
    [other]. *)
Definition set_cell (other : llama_kv_cells) (idx j : nat) (c : llama_kv_cells) : option llama_kv_cells :=
  p0 ← pos c !! idx;
  p ← pos other !! j;
  let c := if bool_decide (p0 = -1 /\ p <> -1)%Z then used_insert idx c else c in
  let c := if bool_decide (p0 <> -1 /\ p = -1)%Z then used_erase idx c else c in
  c ← (if bool_decide (p0 <> -1)%Z then seq_pos_rm idx c else Some c);
  c ← set_pos idx p c;
  e ← ext other !! j;
  c ← set_ext idx e c;
  q ← seqs other !! j;
  c ← set_seqs idx q c;
  c ← (if bool_decide (p <> -1)%Z then seq_pos_add idx c else Some c);
  sh ← shift c !! idx;
  ASSERT bool_decide (sh = 0)%Z;
  Some c.

Definition set (i : nat) (other c : llama_kv_cells) : option llama_kv_cells :=
  ASSERT bool_decide (i + length (pos other) <= length (pos c));
  foldM (fun j c => set_cell other (i + j) j c) (seq 0 (length (pos other))) c.

Definition set_idxs (idxs : list nat) (other c : llama_kv_cells) : option llama_kv_cells :=
  ASSERT bool_decide (length idxs = length (pos other));
  foldM (fun j c => idx ← idxs !! j; set_cell other idx j c) (seq 0 (length (pos other))) c.

Definition rm (i : nat) (c : llama_kv_cells) : option llama_kv_cells :=
  ASSERT bool_decide (i < length (pos c));
  p ← pos c !! i;
  ASSERT bool_decide (p <> -1)%Z;
  c ← seq_pos_rm i c;
  c ← set_seqs i ∅ c;
  c ← set_pos i (-1)%Z c;
  c ← set_ext i ext0 c;
  c ← set_shift i 0%Z c;
  Some (used_erase i c).

Definition seq_rm (i : nat) (seq_id : Z) (c : llama_kv_cells) : option (llama_kv_cells * bool) :=
  ASSERT bool_decide (i < length (pos c));
  q ← seqs c !! i;
  t ← bs_test q seq_id;
  ASSERT t;
  p ← pos c !! i;
  ASSERT bool_decide (p <> -1)%Z;
  ASSERT bool_decide (seq_id >= 0)%Z;
  q ← bs_reset q seq_id;
  c ← set_seqs i q c;
  c ← seq_pos_dec seq_id p c;
  if bool_decide (q = (∅ : gset Z)) then
    c ← set_pos i (-1)%Z c;
    c ← set_ext i ext0 c;
    c ← set_shift i 0%Z c;
    Some (used_erase i c, true)
  else Some (c, false).

Definition seq_keep (i : nat) (seq_id : Z) (c : llama_kv_cells) : option (llama_kv_cells * bool) :=
  ASSERT bool_decide (i < length (pos c));
  q ← seqs c !! i;
  t ← bs_test q seq_id;
  if (t : bool) then
    c ← seq_pos_rm i c;
    q ← bs_set ∅ seq_id;
    c ← set_seqs i q c;
    p ← pos c !! i;
    c ← seq_pos_inc seq_id p c;
    Some (c, false)
  else if bool_decide (q <> (∅ : gset Z)) then
    c ← seq_pos_rm i c;
    c ← set_seqs i ∅ c;
    c ← set_pos i (-1)%Z c;
    c ← set_ext i ext0 c;
    c ← set_shift i 0%Z c;
    Some (used_erase i c, true)
  else
    p ← pos c !! i;
    ASSERT bool_decide (p = -1)%Z;
    Some (c, false).

Definition seq_count (i : nat) (c : llama_kv_cells) : option nat :=
  ASSERT bool_decide (i < length (pos c));
  p ← pos c !! i;
  ASSERT bool_decide (p <> -1)%Z;
  q ← seqs c !! i;
  Some (base.size q).

Definition seq_has (i : nat) (seq_id : Z) (c : llama_kv_cells) : option bool :=
  ASSERT bool_decide (i < length (pos c));
  ASSERT bool_decide (seq_id >= 0)%Z;
  q ← seqs c !! i;
  bs_test q seq_id.

Definition seq_add (i : nat) (seq_id : Z) (c : llama_kv_cells) : option llama_kv_cells :=
  ASSERT bool_decide (i < length (pos c));
  p ← pos c !! i;
  ASSERT bool_decide (p <> -1)%Z;
  q ← seqs c !! i;
  t ← bs_test q seq_id;
  ASSERT negb t;
  q ← bs_set q seq_id;
  c ← set_seqs i q c;
  seq_pos_inc seq_id p c.

Definition seq_get (i : nat) (c : llama_kv_cells) : option Z :=
  q ← seqs c !! i;
  ASSERT bool_decide (base.size q = 1);
  Some (match bs_ones q with
        | [] => -1
        | s :: _ => s
        end)%Z.

(** [m.begin()->first] and [m.rbegin()->first]. *)
Definition map_min (m : gmap Z Z) : option Z :=
  match (map_to_list m).*1 with
  | [] => None
  | x :: l => Some (foldr Z.min x l)
  end.
Definition map_max (m : gmap Z Z) : option Z :=
  match (map_to_list m).*1 with
  | [] => None
  | x :: l => Some (foldr Z.max x l)
  end.

Definition seq_pos_min (seq_id : Z) (c : llama_kv_cells) : option Z :=
  ASSERT bool_decide (seq_id >= 0)%Z;
  ASSERT bool_decide (seq_id < LLAMA_MAX_SEQ)%Z;
  m ← seq_pos_at seq_id c;
  match map_min m with
  | None => Some (-1)%Z
  | Some p => ASSERT bool_decide (default 0 (m !! p) > 0)%Z; Some p
  end.

Definition seq_pos_max (seq_id : Z) (c : llama_kv_cells) : option Z :=
  ASSERT bool_decide (seq_id >= 0)%Z;
  ASSERT bool_decide (seq_id < LLAMA_MAX_SEQ)%Z;
  m ← seq_pos_at seq_id c;
  match map_max m with
  | None => Some (-1)%Z
  | Some p => ASSERT bool_decide (default 0 (m !! p) > 0)%Z; Some p
  end.

(** The three getters that require a non-empty cell. *)
Definition pos_get (i : nat) (c : llama_kv_cells) : option Z :=
  ASSERT bool_decide (i < length (pos c));
  p ← pos c !! i;
  ASSERT bool_decide (p <> -1)%Z;
  Some p.
Definition ext_get (i : nat) (c : llama_kv_cells) : option llama_kv_cell_ext :=
  ASSERT bool_decide (i < length (pos c));
  p ← pos c !! i;
  ASSERT bool_decide (p <> -1)%Z;
  ext c !! i.
Definition get_shift (i : nat) (c : llama_kv_cells) : option Z :=
  ASSERT bool_decide (i < length (pos c));
  p ← pos c !! i;
  ASSERT bool_decide (p <> -1)%Z;
  shift c !! i.

Definition pos_in (i : nat) (p0 p1 : Z) (c : llama_kv_cells) : option bool :=
  ASSERT bool_decide (i < length (pos c));
  p ← pos c !! i;
  Some (bool_decide (p >= p0)%Z && bool_decide (p < p1)%Z).

Definition pos_set (i : nat) (p : Z) (c : llama_kv_cells) : option llama_kv_cells :=
  ASSERT bool_decide (i < length (pos c));
  p0 ← pos c !! i;
  ASSERT bool_decide (p0 = -1)%Z;
  q ← seqs c !! i;
  ASSERT bool_decide (q = (∅ : gset Z));
  c ← set_pos i p c;
  Some (used_insert i c).

Definition ext_set (i : nat) (e : llama_kv_cell_ext) (c : llama_kv_cells) : option llama_kv_cells :=
  ASSERT bool_decide (i < length (ext c));
  set_ext i e c.

Definition pos_add (i : nat) (d : Z) (c : llama_kv_cells) : option (llama_kv_cells * bool) :=
  ASSERT bool_decide (i < length (pos c));
  p ← pos c !! i;
  ASSERT bool_decide (p <> -1)%Z;
  c ← seq_pos_rm i c;
  p' ← i32_chk (p + d);
  c ← set_pos i p' c;
  s ← shift c !! i;
  s' ← i32_chk (s + d);
  c ← set_shift i s' c;
  let c := with_has_shift true c in
  if bool_decide (p' < 0)%Z then
    c ← set_seqs i ∅ c;
    c ← set_pos i (-1)%Z c;
    c ← set_shift i 0%Z c;
    Some (used_erase i c, true)
  else
    c ← seq_pos_add i c;
    Some (c, false).

Definition pos_div (i : nat) (d : Z) (c : llama_kv_cells) : option llama_kv_cells :=
  ASSERT bool_decide (i < length (pos c));
  p_old ← pos c !! i;
  ASSERT bool_decide (p_old <> -1)%Z;
  c ← seq_pos_rm i c;
  p' ← (if bool_decide (d = 0)%Z then None else i32_chk (Z.quot p_old d));
  c ← set_pos i p' c;
  s ← shift c !! i;
  s' ← i32_chk (s + (p_old - p'));
  c ← set_shift i s' c;
  c ← seq_pos_add i c;
  Some (with_has_shift true c).

End Ops.
(** * The invariant

    [occ s p ps qs] is how many cells hold position [p] and belong to sequence
    [s]: what the multiset [seq_pos[s]] has to say about [p]. *)

Definition hit (s p p' : Z) (q : gset Z) : nat := if bool_decide (p' = p /\ s ∈ q) then 1 else 0.

Fixpoint occ (s p : Z) (ps : list Z) (qs : list (gset Z)) : nat :=
  match ps, qs with
  | p' :: ps, q :: qs => hit s p p' q + occ s p ps qs
  | _, _ => 0
  end.

Definition of_count (n : nat) : option Z := if decide (n = 0) then None else Some (Z.of_nat n).

Definition seq_pos_ok (ps : list Z) (qs : list (gset Z)) (sp : list (gmap Z Z)) : Prop :=
  length sp = Z.to_nat LLAMA_MAX_SEQ /\
  forall s p m, (0 <= s < LLAMA_MAX_SEQ)%Z -> sp !! Z.to_nat s = Some m -> m !! p = of_count (occ s p ps qs).

Record wf (c : llama_kv_cells) : Prop := {
  wf_ext    : length (ext c) = length (pos c);
  wf_shift  : length (shift c) = length (pos c);
  wf_seqs   : length (seqs c) = length (pos c);
  wf_size   : (Z.of_nat (length (pos c)) <= INT32_MAX)%Z;
  wf_pos    : forall i p, pos c !! i = Some p -> (-1 <= p <= INT32_MAX)%Z;
  wf_used   : forall i, i ∈ used c <-> exists p, pos c !! i = Some p /\ p <> (-1)%Z;
  wf_bits   : forall i q s, seqs c !! i = Some q -> s ∈ q -> (0 <= s < LLAMA_MAX_SEQ)%Z;
  wf_empty  : forall i, pos c !! i = Some (-1)%Z -> seqs c !! i = Some ∅;
  wf_counts : seq_pos_ok (pos c) (seqs c) (seq_pos c);
}.

(** The abstract content: what a cell holds, as its clients see it. *)
Definition view (c : llama_kv_cells) (i : nat) : option (Z * gset Z) :=
  p ← pos c !! i; q ← seqs c !! i;
  if bool_decide (p = -1)%Z then None else Some (p, q).

(** ** Counting *)

Lemma occ_length s p ps qs : occ s p ps qs <= length ps.
Proof.
  revert qs. induction ps as [|p' ps IH]; intros [|q qs]; simpl; try lia.
  specialize (IH qs). unfold hit. case_bool_decide; lia.
Qed.

Lemma occ_insert s p ps qs i p0 q0 p1 q1 :
  ps !! i = Some p0 -> qs !! i = Some q0 ->
  occ s p (<[i:=p1]> ps) (<[i:=q1]> qs) + hit s p p0 q0 = occ s p ps qs + hit s p p1 q1.
Proof.
  revert qs i. induction ps as [|p' ps IH]; intros [|q qs] [|i] Hp Hq; simplify_eq/=; try lia.
  specialize (IH _ _ Hp Hq). lia.
Qed.

Lemma occ_insert_q s p ps qs i p0 q0 q1 :
  ps !! i = Some p0 -> qs !! i = Some q0 ->
  occ s p ps (<[i:=q1]> qs) + hit s p p0 q0 = occ s p ps qs + hit s p p0 q1.
Proof.
  intros Hp Hq. rewrite <- (occ_insert s p ps qs i p0 q0 p0 q1 Hp Hq).
  by rewrite (list_insert_id ps i p0).
Qed.

Lemma occ_insert_p s p ps qs i p1 :
  qs !! i = Some ∅ -> occ s p (<[i:=p1]> ps) qs = occ s p ps qs.
Proof.
  revert qs i. induction ps as [|p' ps IH]; intros [|q qs] [|i] Hq; simplify_eq/=; try done.
  - unfold hit. rewrite !bool_decide_false by set_solver. done.
  - by rewrite IH.
Qed.

Lemma occ_hit s p ps qs i q :
  ps !! i = Some p -> qs !! i = Some q -> s ∈ q -> 0 < occ s p ps qs.
Proof.
  revert qs i. induction ps as [|p' ps IH]; intros [|q' qs] [|i] Hp Hq Hs; simplify_eq/=.
  - unfold hit. rewrite bool_decide_true by done. lia.
  - specialize (IH _ _ Hp Hq Hs). lia.
Qed.

Lemma occ_pos_inv s p ps qs :
  0 < occ s p ps qs -> exists i q, ps !! i = Some p /\ qs !! i = Some q /\ s ∈ q.
Proof.
  revert qs. induction ps as [|p' ps IH]; intros [|q qs] H; simpl in H; try lia.
  unfold hit in H. case_bool_decide as Hd.
  - destruct Hd as [-> ?]. by exists 0, q.
  - destruct (IH qs H) as (i & q' & ? & ? & ?). by exists (S i), q'.
Qed.

Lemma occ_replicate s p n p0 : occ s p (replicate n p0) (replicate n ∅) = 0.
Proof.
  induction n as [|n IH]; simpl; [done|]. rewrite IH. unfold hit.
  rewrite bool_decide_false by set_solver. done.
Qed.

(** ** The position multisets *)

Lemma seq_pos_ok_at ps qs c s :
  seq_pos_ok ps qs (seq_pos c) -> (0 <= s < LLAMA_MAX_SEQ)%Z ->
  exists m, seq_pos_at s c = Some m /\ seq_pos c !! Z.to_nat s = Some m /\
    forall p, m !! p = of_count (occ s p ps qs).
Proof.
  intros [Hlen H] Hs. unfold seq_pos_at. rewrite bool_decide_true by lia.
  destruct (lookup_lt_is_Some_2 (seq_pos c) (Z.to_nat s)) as [m Hm]; [lia|].
  exists m. split_and!; [done..|]. eauto.
Qed.

(** Updating one map of the array. *)
Lemma seq_pos_ok_set ps qs ps' qs' sp s m :
  seq_pos_ok ps qs sp -> (0 <= s < LLAMA_MAX_SEQ)%Z ->
  (forall p, m !! p = of_count (occ s p ps' qs')) ->
  (forall s' p, s' <> s -> occ s' p ps' qs' = occ s' p ps qs) ->
  seq_pos_ok ps' qs' (<[Z.to_nat s := m]> sp).
Proof.
  intros [Hlen H] Hs Hm Hoth. split; [by rewrite length_insert|].
  intros s' p m' Hs' Hm'. apply list_lookup_insert_dec in Hm' as [[Heq ->]|[Hne Hm']].
  - assert (s' = s) as -> by lia. done.
  - rewrite Hoth by (intros ->; done). eauto.
Qed.

Lemma hit_other s s' p p0 q q' : s' <> s -> (forall x, x <> s -> x ∈ q <-> x ∈ q') ->
  hit s' p p0 q = hit s' p p0 q'.
Proof. intros Hne Hq. unfold hit. specialize (Hq s' Hne). erewrite bool_decide_ext; [done|]. tauto. Qed.

(** In-range assignments to the vectors. *)
Ltac use_set :=
  unfold set_pos, set_ext, set_shift, set_seqs;
  repeat (rewrite set_at_ok by (simpl; rewrite ?length_insert; lia); simpl).

Section Proofs.
Context `{BM : BuildMode}.
Implicit Types (c : llama_kv_cells) (ps : list Z) (qs : list (gset Z)).

Lemma i32_chk_count ps qs s p :
  (Z.of_nat (length ps) <= INT32_MAX)%Z -> forall d, (-1 <= d <= 0)%Z ->
  i32_chk (Z.of_nat (occ s p ps qs) + d) = Some (Z.of_nat (occ s p ps qs) + d)%Z.
Proof.
  intros Hlen d Hd. apply i32_chk_Some. pose proof (occ_length s p ps qs).
  unfold INT32_MIN, INT32_MAX in *. lia.
Qed.

Lemma seq_pos_dec_spec c ps qs i p q s :
  seq_pos_ok ps qs (seq_pos c) -> (Z.of_nat (length ps) <= INT32_MAX)%Z ->
  ps !! i = Some p -> qs !! i = Some q -> s ∈ q -> (0 <= s < LLAMA_MAX_SEQ)%Z ->
  exists sp, seq_pos_dec s p c = Some (with_seq_pos sp c) /\
    seq_pos_ok ps (<[i := q ∖ {[s]}]> qs) sp.
Proof.
  intros Hok Hlen Hp Hq Hs Hrng. unfold seq_pos_dec.
  destruct (seq_pos_ok_at _ _ _ _ Hok Hrng) as (m & -> & Hm & Hcnt). simpl.
  pose proof (occ_hit _ _ _ _ _ _ Hp Hq Hs) as Hocc.
  assert (m !! p = Some (Z.of_nat (occ s p ps qs))) as Hmp.
  { rewrite Hcnt. unfold of_count. by rewrite decide_False by lia. }
  rewrite Hmp, c_assert_bd by done. simpl.
  pose proof (i32_chk_count ps qs s p Hlen (-1)%Z ltac:(lia)) as Hchk.
  change (Z.of_nat (occ s p ps qs) - 1)%Z with (Z.of_nat (occ s p ps qs) + -1)%Z.
  rewrite Hchk. simpl.
  eexists. split; [reflexivity|].
  eapply seq_pos_ok_set; [done|done| |].
  - intros p'. pose proof (occ_insert_q s p' ps qs i p q (q ∖ {[s]}) Hp Hq) as Hi.
    unfold hit in Hi. rewrite (bool_decide_false (p = p' /\ s ∈ q ∖ {[s]})) in Hi by set_solver.
    destruct (decide (p = p')) as [<-|Hne].
    + rewrite (bool_decide_true (p = p /\ s ∈ q)) in Hi by done.
      unfold of_count. case_bool_decide as Hz.
      * rewrite lookup_delete_eq. by rewrite decide_True by lia.
      * rewrite lookup_insert_eq. rewrite decide_False by lia. f_equal. lia.
    + rewrite (bool_decide_false (p = p' /\ s ∈ q)) in Hi by tauto.
      replace (occ s p' ps (<[i:=q ∖ {[s]}]> qs)) with (occ s p' ps qs) by lia.
      rewrite <- Hcnt. case_bool_decide; [by rewrite lookup_delete_ne|by rewrite lookup_insert_ne].
  - intros s' p' Hne. pose proof (occ_insert_q s' p' ps qs i p q (q ∖ {[s]}) Hp Hq) as Hi.
    rewrite (hit_other s s' p' p q (q ∖ {[s]})) in Hi by (done || set_solver). lia.
Qed.

Lemma seq_pos_inc_spec c ps qs i p q s :
  seq_pos_ok ps qs (seq_pos c) -> (Z.of_nat (length ps) <= INT32_MAX)%Z ->
  ps !! i = Some p -> qs !! i = Some q -> s ∉ q -> (0 <= s < LLAMA_MAX_SEQ)%Z ->
  exists sp, seq_pos_inc s p c = Some (with_seq_pos sp c) /\
    seq_pos_ok ps (<[i := {[s]} ∪ q]> qs) sp.
Proof.
  intros Hok Hlen Hp Hq Hs Hrng. unfold seq_pos_inc.
  destruct (seq_pos_ok_at _ _ _ _ Hok Hrng) as (m & -> & Hm & Hcnt). simpl.
  pose proof (occ_insert_q s p ps qs i p q ({[s]} ∪ q) Hp Hq) as Hi0.
  unfold hit in Hi0. rewrite (bool_decide_true (p = p /\ s ∈ {[s]} ∪ q)) in Hi0 by set_solver.
  rewrite (bool_decide_false (p = p /\ s ∈ q)) in Hi0 by set_solver.
  assert (default 0%Z (m !! p) = Z.of_nat (occ s p ps qs)) as Hmp.
  { rewrite Hcnt. unfold of_count. case_decide; simpl; lia. }
  assert (i32_chk (default 0%Z (m !! p) + 1) = Some (Z.of_nat (occ s p ps qs) + 1)%Z) as ->.
  { rewrite Hmp. apply i32_chk_Some. pose proof (occ_length s p ps (<[i:={[s]} ∪ q]> qs)).
    unfold INT32_MIN, INT32_MAX in *. lia. }
  simpl. eexists. split; [reflexivity|].
  eapply seq_pos_ok_set; [done|done| |].
  - intros p'. destruct (decide (p = p')) as [<-|Hne].
    + rewrite lookup_insert_eq. unfold of_count. rewrite decide_False by lia. f_equal. lia.
    + pose proof (occ_insert_q s p' ps qs i p q ({[s]} ∪ q) Hp Hq) as Hi. unfold hit in Hi.
      rewrite !bool_decide_false in Hi by tauto.
      rewrite lookup_insert_ne by done. rewrite Hcnt. f_equal. lia.
  - intros s' p' Hne. pose proof (occ_insert_q s' p' ps qs i p q ({[s]} ∪ q) Hp Hq) as Hi.
    rewrite (hit_other s s' p' p q ({[s]} ∪ q)) in Hi by (done || set_solver). lia.
Qed.

(** The iterations of the two loops over all sequence ids. *)
Lemma all_seq_prefix pre a :
  ((pre ++ [a]) `prefix_of` all_seq) -> a ∉ pre /\ (0 <= a < LLAMA_MAX_SEQ)%Z.
Proof.
  intros [k Hk]. pose proof (NoDup_all_seq) as Hnd. split.
  - rewrite Hk in Hnd. rewrite <- app_assoc in Hnd. apply NoDup_app in Hnd as (_ & Hd & _).
    intros Hin. apply (Hd a Hin). simpl. by left.
  - assert (a ∈ all_seq) as Ha by (rewrite Hk; set_solver).
    by apply elem_of_all_seq.
Qed.

Lemma bs_test_ok q s : (0 <= s < LLAMA_MAX_SEQ)%Z -> bs_test q s = Some (bool_decide (s ∈ q)).
Proof. intros H. unfold bs_test, bs_ok. by rewrite bool_decide_true. Qed.
Lemma bs_set_ok q s : (0 <= s < LLAMA_MAX_SEQ)%Z -> bs_set q s = Some ({[s]} ∪ q).
Proof. intros H. unfold bs_set, bs_ok. by rewrite bool_decide_true. Qed.
Lemma bs_reset_ok q s : (0 <= s < LLAMA_MAX_SEQ)%Z -> bs_reset q s = Some (q ∖ {[s]}).
Proof. intros H. unfold bs_reset, bs_ok. by rewrite bool_decide_true. Qed.

Definition bits_ok (q : gset Z) : Prop := forall s, s ∈ q -> (0 <= s < LLAMA_MAX_SEQ)%Z.

Lemma all_seq_diff q : bits_ok q -> q ∖ list_to_set all_seq = ∅.
Proof.
  intros H. apply elem_of_equiv_empty_L. intros s [Hs Hn]%elem_of_difference.
  apply Hn, elem_of_list_to_set, elem_of_all_seq. by apply H.
Qed.

Lemma all_seq_inter q : bits_ok q -> q ∩ list_to_set all_seq = q.
Proof.
  intros H. apply set_eq. intros s. rewrite elem_of_intersection, elem_of_list_to_set, elem_of_all_seq.
  specialize (H s). tauto.
Qed.

Lemma seq_pos_rm_spec c i p q :
  seq_pos_ok (pos c) (seqs c) (seq_pos c) -> (Z.of_nat (length (pos c)) <= INT32_MAX)%Z ->
  pos c !! i = Some p -> seqs c !! i = Some q -> bits_ok q ->
  exists sp, seq_pos_rm i c = Some (with_seq_pos sp c) /\
    seq_pos_ok (pos c) (<[i := ∅]> (seqs c)) sp.
Proof.
  intros Hok Hlen Hp Hq Hb. unfold seq_pos_rm. rewrite Hp, Hq. simpl.
  match goal with |- context [foldM ?F ?L c] => destruct (foldM_prefix F
    (fun l t => exists sp, t = with_seq_pos sp c /\
       seq_pos_ok (pos c) (<[i := q ∖ list_to_set l]> (seqs c)) sp) L c) as (t & -> & sp & -> & Hsp) end.
  - exists (seq_pos c). split; [by destruct c|].
    rewrite list_to_set_nil, difference_empty_L, list_insert_id by done. done.
  - intros pre s t Hpre (sp & -> & Hsp). destruct (all_seq_prefix _ _ Hpre) as [Hnew Hrng].
    rewrite bs_test_ok by done. simpl.
    assert (i < length (seqs c)) as Hi by (by eapply lookup_lt_Some).
    rewrite list_to_set_app_L, list_to_set_cons, list_to_set_nil, union_empty_r_L, <- difference_difference_l_L.
    case_bool_decide as Hin.
    + destruct (seq_pos_dec_spec (with_seq_pos sp c) (pos c) _ i p (q ∖ list_to_set pre) s Hsp Hlen Hp)
        as (sp' & -> & Hsp'); [by apply list_lookup_insert_eq|set_solver|done|].
      rewrite list_insert_insert_eq in Hsp'. eexists. split; [reflexivity|]. exists sp'. by destruct c.
    + eexists. split; [reflexivity|]. exists sp. split; [done|].
      by replace (q ∖ list_to_set pre ∖ {[s]}) with (q ∖ list_to_set pre) by set_solver.
  - rewrite all_seq_diff in Hsp by done. eauto.
Qed.

Lemma seq_pos_add_spec c i p q :
  seq_pos_ok (pos c) (<[i := ∅]> (seqs c)) (seq_pos c) -> (Z.of_nat (length (pos c)) <= INT32_MAX)%Z ->
  pos c !! i = Some p -> seqs c !! i = Some q -> bits_ok q ->
  exists sp, seq_pos_add i c = Some (with_seq_pos sp c) /\
    seq_pos_ok (pos c) (seqs c) sp.
Proof.
  intros Hok Hlen Hp Hq Hb. unfold seq_pos_add. rewrite Hp, Hq. simpl.
  match goal with |- context [foldM ?F ?L c] => destruct (foldM_prefix F
    (fun l t => exists sp, t = with_seq_pos sp c /\
       seq_pos_ok (pos c) (<[i := q ∩ list_to_set l]> (seqs c)) sp) L c) as (t & -> & sp & -> & Hsp) end.
  - exists (seq_pos c). split; [by destruct c|].
    by rewrite list_to_set_nil, intersection_empty_r_L.
  - intros pre s t Hpre (sp & -> & Hsp). destruct (all_seq_prefix _ _ Hpre) as [Hnew Hrng].
    rewrite bs_test_ok by done. simpl.
    assert (i < length (seqs c)) as Hi by (by eapply lookup_lt_Some).
    rewrite list_to_set_app_L, list_to_set_cons, list_to_set_nil, union_empty_r_L.
    case_bool_decide as Hin.
    + destruct (seq_pos_inc_spec (with_seq_pos sp c) (pos c) _ i p (q ∩ list_to_set pre) s Hsp Hlen Hp)
        as (sp' & -> & Hsp'); [by apply list_lookup_insert_eq|set_solver|done|].
      rewrite list_insert_insert_eq in Hsp'. eexists. split; [reflexivity|]. exists sp'. split; [by destruct c|].
      by replace (q ∩ (list_to_set pre ∪ {[s]})) with ({[s]} ∪ (q ∩ list_to_set pre)) by set_solver.
    + eexists. split; [reflexivity|]. exists sp. split; [done|].
      by replace (q ∩ (list_to_set pre ∪ {[s]})) with (q ∩ list_to_set pre) by set_solver.
  - rewrite all_seq_inter, list_insert_id in Hsp by done. eauto.
Qed.

(** ** One-cell updates

    [updated c i o c']: [c'] is well formed and differs from [c] in cell [i]
    only, whose content is now [o]. *)

Record updated (c : llama_kv_cells) (i : nat) (o : option (Z * gset Z)) (c' : llama_kv_cells) : Prop := {
  upd_wf    : wf c';
  upd_size  : size c' = size c;
  upd_view  : forall j, view c' j = if decide (j = i) then o else view c j;
  upd_frame : forall j, j <> i -> shift c' !! j = shift c !! j /\ ext c' !! j = ext c !! j;
}.

Lemma view_Some c i p q :
  view c i = Some (p, q) <-> pos c !! i = Some p /\ seqs c !! i = Some q /\ p <> (-1)%Z.
Proof.
  unfold view. destruct (pos c !! i) as [p'|], (seqs c !! i) as [q'|]; simpl; try (split; naive_solver).
  case_bool_decide; split; naive_solver.
Qed.

Lemma view_None c i : wf c -> i < size c -> view c i = None <-> pos c !! i = Some (-1)%Z /\ seqs c !! i = Some ∅.
Proof.
  intros Hwf Hi. unfold view.
  destruct (lookup_lt_is_Some_2 (pos c) i Hi) as [p Hp].
  destruct (lookup_lt_is_Some_2 (seqs c) i) as [q Hq]; [by rewrite (wf_seqs _ Hwf)|].
  rewrite Hp, Hq. simpl. case_bool_decide as Hb.
  - subst. rewrite (wf_empty _ Hwf i Hp) in Hq. naive_solver.
  - naive_solver.
Qed.

Lemma view_bits c i p q : wf c -> view c i = Some (p, q) -> bits_ok q.
Proof. intros Hwf (Hp & Hq & _)%view_Some s. by apply (wf_bits _ Hwf i). Qed.

Lemma view_range c i p q : wf c -> view c i = Some (p, q) -> (0 <= p <= INT32_MAX)%Z.
Proof. intros Hwf (Hp & Hq & ?)%view_Some. pose proof (wf_pos _ Hwf i p Hp). lia. Qed.

Lemma view_size c i p q : view c i = Some (p, q) -> i < size c.
Proof. intros (Hp & _)%view_Some. by eapply lookup_lt_Some. Qed.

Lemma seq_pos_ok_pos ps qs sp i p :
  qs !! i = Some ∅ -> seq_pos_ok ps qs sp -> seq_pos_ok (<[i:=p]> ps) qs sp.
Proof.
  intros Hq [Hlen H]. split; [done|]. intros s p' m Hs Hm.
  rewrite occ_insert_p by done. eauto.
Qed.

Lemma updated_intro c c' i p q :
  wf c -> i < size c -> (-1 <= p <= INT32_MAX)%Z -> bits_ok q -> (p = (-1)%Z -> q = ∅) ->
  pos c' = <[i:=p]> (pos c) -> seqs c' = <[i:=q]> (seqs c) ->
  (exists e, ext c' = <[i:=e]> (ext c)) -> (exists h, shift c' = <[i:=h]> (shift c)) ->
  (forall j, j ∈ used c' <-> if decide (j = i) then p <> (-1)%Z else j ∈ used c) ->
  seq_pos_ok (pos c') (seqs c') (seq_pos c') ->
  updated c i (if decide (p = -1)%Z then None else Some (p, q)) c'.
Proof.
  intros Hwf Hi Hp Hb Hpq Ep Eq [e Ee] [h Eh] Hu Hsp. unfold size in Hi.
  pose proof (wf_seqs _ Hwf) as Hlq.
  split; [split| | |].
  - rewrite Ee, Ep, !length_insert. apply Hwf.
  - rewrite Eh, Ep, !length_insert. apply Hwf.
  - rewrite Eq, Ep, !length_insert. apply Hwf.
  - rewrite Ep, length_insert. apply Hwf.
  - intros j p'. rewrite Ep. intros [[? ->]|[? Hj]]%list_lookup_insert_dec; [done|]. by apply (wf_pos _ Hwf j).
  - intros j. rewrite Hu, Ep. case_decide as Hd.
    + subst j. rewrite list_lookup_insert_eq by done. naive_solver.
    + rewrite list_lookup_insert_ne by done. apply (wf_used _ Hwf).
  - intros j q' s. rewrite Eq. intros [[? ->]|[? Hj]]%list_lookup_insert_dec; [apply Hb|by apply (wf_bits _ Hwf j)].
  - intros j. rewrite Ep, Eq. intros [[<- Hj]|[? Hj]]%list_lookup_insert_dec.
    + rewrite list_lookup_insert_eq by (by rewrite Hlq). by rewrite Hpq.
    + rewrite list_lookup_insert_ne by done. by apply (wf_empty _ Hwf).
  - done.
  - unfold size. by rewrite Ep, length_insert.
  - intros j. unfold view. rewrite Ep, Eq. case_decide as Hd.
    + subst j. rewrite !list_lookup_insert_eq by lia. simpl. case_bool_decide; case_decide; naive_solver.
    + by rewrite !list_lookup_insert_ne.
  - intros j Hne. rewrite Ee, Eh. by rewrite !list_lookup_insert_ne.
Qed.

(** Vectors of the same length: in-range assignments succeed, and an
    assignment of the old value changes nothing. *)
Lemma wf_lens c i : wf c -> i < size c ->
  i < length (ext c) /\ i < length (shift c) /\ i < length (seqs c).
Proof. intros [] ?. unfold size in *. lia. Qed.

Lemma insert_self {A} (l : list A) i : i < length l -> exists x, l = <[i:=x]> l.
Proof. intros [x Hx]%lookup_lt_is_Some. exists x. by rewrite list_insert_id. Qed.

(** [seq_pos_dec] and [seq_pos_inc] read and write [seq_pos] only. *)
Lemma seq_pos_inc_frame c s p sp f :
  (forall sp c, f (with_seq_pos sp c) = with_seq_pos sp (f c)) ->
  (seq_pos (f c) = seq_pos c) ->
  seq_pos_inc s p c = Some (with_seq_pos sp c) ->
  seq_pos_inc s p (f c) = Some (with_seq_pos sp (f c)).
Proof.
  intros Hf Hsp Hinc. unfold seq_pos_inc, seq_pos_at, set_seq_pos in *. rewrite Hsp.
  inv_opt Hinc. run_opt.
  by simplify_eq/=.
Qed.

Lemma seq_pos_dec_frame c s p sp f :
  (forall sp c, f (with_seq_pos sp c) = with_seq_pos sp (f c)) ->
  (seq_pos (f c) = seq_pos c) ->
  seq_pos_dec s p c = Some (with_seq_pos sp c) ->
  seq_pos_dec s p (f c) = Some (with_seq_pos sp (f c)).
Proof.
  intros Hf Hsp Hdec. unfold seq_pos_dec, seq_pos_at, set_seq_pos in *. rewrite Hsp.
  inv_opt Hdec. run_opt.
  by simplify_eq/=.
Qed.

Lemma rm_spec c i p q :
  wf c -> view c i = Some (p, q) -> exists c', rm i c = Some c' /\ updated c i None c'.
Proof.
  intros Hwf Hv. pose proof (view_size _ _ _ _ Hv) as Hi. pose proof (view_bits _ _ _ _ Hwf Hv) as Hb.
  destruct (wf_lens c i Hwf Hi) as (He & Hh & Hq').
  apply view_Some in Hv as (Hp & Hq & Hne). unfold rm. unfold size in Hi.
  assert_step. rewrite Hp. simpl. assert_step.
  destruct (seq_pos_rm_spec c i p q (wf_counts _ Hwf) (wf_size _ Hwf) Hp Hq Hb) as (sp & -> & Hsp).
  simpl. use_set. eexists. split; [reflexivity|].
  apply (updated_intro c _ i (-1)%Z ∅); simpl; try done; try (by eexists).
  - intros j. case_decide; set_solver.
  - apply seq_pos_ok_pos; [by apply list_lookup_insert_eq|done].
Qed.

Lemma seq_rm_spec c i s p q :
  wf c -> view c i = Some (p, q) -> s ∈ q ->
  exists c', seq_rm i s c = Some (c', bool_decide (q ∖ {[s]} = ∅)) /\
    updated c i (if decide (q ∖ {[s]} = ∅) then None else Some (p, q ∖ {[s]})) c'.
Proof.
  intros Hwf Hv Hs. pose proof (view_size _ _ _ _ Hv) as Hi. pose proof (view_bits _ _ _ _ Hwf Hv) as Hb.
  pose proof (view_range _ _ _ _ Hwf Hv) as Hr.
  destruct (wf_lens c i Hwf Hi) as (He & Hh & Hq').
  apply view_Some in Hv as (Hp & Hq & Hne). unfold seq_rm. unfold size in Hi.
  assert_step. rewrite Hq. simpl. rewrite bs_test_ok by auto. simpl.
  assert_step. rewrite Hp. simpl. assert_step.
  specialize (Hb s Hs) as Hrng. assert_step. rewrite bs_reset_ok by done. simpl. use_set.
  destruct (seq_pos_dec_spec c (pos c) (seqs c) i p q s (wf_counts _ Hwf) (wf_size _ Hwf) Hp Hq Hs Hrng)
    as (sp & Hdec & Hsp).
  rewrite (seq_pos_dec_frame c s p sp (with_seqs (<[i:=q ∖ {[s]}]> (seqs c)))) by done.
  simpl. assert (i ∈ used c) as Hu by (apply (wf_used _ Hwf); eauto).
  case_bool_decide as Hz; [rewrite decide_True by done|rewrite decide_False by done].
  - use_set. eexists. split; [reflexivity|].
    apply (updated_intro c _ i (-1)%Z ∅); simpl; try done; try (by eexists).
    + by rewrite Hz.
    + intros j. case_decide; set_solver.
    + rewrite Hz in *. apply seq_pos_ok_pos; [by apply list_lookup_insert_eq|done].
  - eexists. split; [reflexivity|].
    replace (Some (p, q ∖ {[s]})) with (if decide (p = -1)%Z then None else Some (p, q ∖ {[s]})) by (by rewrite decide_False).
    apply (updated_intro c); simpl; try done; try (by apply insert_self).
    + lia.
    + intros x Hx. apply Hb. set_solver.
    + by rewrite list_insert_id.
    + intros j. case_decide; naive_solver.
Qed.

Lemma seq_add_spec c i s p q :
  wf c -> view c i = Some (p, q) -> s ∉ q -> (0 <= s < LLAMA_MAX_SEQ)%Z ->
  exists c', seq_add i s c = Some c' /\ updated c i (Some (p, {[s]} ∪ q)) c'.
Proof.
  intros Hwf Hv Hs Hrng. pose proof (view_size _ _ _ _ Hv) as Hi. pose proof (view_bits _ _ _ _ Hwf Hv) as Hb.
  pose proof (view_range _ _ _ _ Hwf Hv) as Hr.
  destruct (wf_lens c i Hwf Hi) as (He & Hh & Hq').
  apply view_Some in Hv as (Hp & Hq & Hne). unfold seq_add. unfold size in Hi.
  assert_step. rewrite Hp. simpl. assert_step.
  rewrite Hq. simpl. rewrite bs_test_ok by auto. simpl.
  rewrite (bool_decide_false (s ∈ q)) by done. assert_step.
  rewrite bs_set_ok by done. simpl. use_set.
  destruct (seq_pos_inc_spec c (pos c) (seqs c) i p q s (wf_counts _ Hwf) (wf_size _ Hwf) Hp Hq Hs Hrng)
    as (sp & Hinc & Hsp).
  rewrite (seq_pos_inc_frame c s p sp (with_seqs (<[i:={[s]} ∪ q]> (seqs c)))) by done.
  eexists. split; [reflexivity|].
  replace (Some (p, {[s]} ∪ q)) with (if decide (p = -1)%Z then None else Some (p, {[s]} ∪ q)) by (by rewrite decide_False).
  assert (i ∈ used c) as Hu by (apply (wf_used _ Hwf); eauto).
  apply (updated_intro c); simpl; try done; try (by apply insert_self).
  - lia.
  - intros x [->%elem_of_singleton|Hx]%elem_of_union; [done|by apply Hb].
  - by rewrite list_insert_id.
  - intros j. case_decide; naive_solver.
Qed.

Lemma seq_keep_spec c i s :
  wf c -> i < size c -> (0 <= s < LLAMA_MAX_SEQ)%Z -> (forall p, view c i <> Some (p, ∅)) ->
  exists c', seq_keep i s c = Some (c', match view c i with Some (_, q) => bool_decide (s ∉ q) | None => false end) /\
    updated c i (match view c i with Some (p, q) => if decide (s ∈ q) then Some (p, {[s]}) else None | None => None end) c'.
Proof.
  intros Hwf Hi Hrng Hne0. destruct (wf_lens c i Hwf Hi) as (He & Hh & Hq').
  unfold seq_keep. pose proof Hi as Hi'. unfold size in Hi'. assert_step.
  destruct (view c i) as [[p q]|] eqn:Hv.
  - pose proof (view_bits _ _ _ _ Hwf Hv) as Hb. pose proof (view_range _ _ _ _ Hwf Hv) as Hr.
    pose proof Hv as (Hp & Hq & Hne)%view_Some. rewrite Hq. simpl. rewrite bs_test_ok by done. simpl.
    assert (i ∈ used c) as Hu by (apply (wf_used _ Hwf); eauto).
    destruct (seq_pos_rm_spec c i p q (wf_counts _ Hwf) (wf_size _ Hwf) Hp Hq Hb) as (sp & -> & Hsp).
    simpl. destruct (decide (s ∈ q)) as [Hs|Hs].
    + rewrite (bool_decide_true (s ∈ q)), (bool_decide_false (s ∉ q)) by tauto.
      rewrite bs_set_ok by done. simpl. use_set. rewrite Hp. simpl.
      destruct (seq_pos_inc_spec (with_seq_pos sp c) (pos c) (<[i:=∅]> (seqs c)) i p ∅ s Hsp (wf_size _ Hwf) Hp)
        as (sp' & Hinc & Hsp'); [by apply list_lookup_insert_eq|set_solver|done|].
      rewrite (seq_pos_inc_frame _ s p sp' (with_seqs (<[i:={[s]} ∪ ∅]> (seqs c)))) by done.
      rewrite list_insert_insert_eq in Hsp'. rewrite union_empty_r_L in *.
      simpl. eexists. split; [reflexivity|].
      replace (Some (p, {[s]})) with (if decide (p = -1)%Z then None else Some (p, {[s]} : gset Z)) by (by rewrite decide_False).
      apply (updated_intro c); simpl; try done; try (by apply insert_self).
      * lia.
      * by intros x ->%elem_of_singleton.
      * by rewrite list_insert_id.
      * intros j. case_decide; naive_solver.
    + rewrite (bool_decide_false (s ∈ q)), (bool_decide_true (s ∉ q)) by done.
      rewrite bool_decide_true by (intros ->; by apply (Hne0 p)).
      use_set. eexists. split; [reflexivity|].
      apply (updated_intro c _ i (-1)%Z ∅); simpl; try done; try (by eexists).
      * intros j. case_decide; set_solver.
      * apply seq_pos_ok_pos; [by apply list_lookup_insert_eq|done].
  - pose proof (proj1 (view_None c i Hwf Hi) Hv) as [Hp Hq]. rewrite Hq. simpl.
    rewrite bs_test_ok by done. simpl. rewrite (bool_decide_false (s ∈ ∅)) by set_solver.
    rewrite bool_decide_false by tauto. rewrite Hp. simpl. assert_step.
    eexists. split; [reflexivity|].
    split; [done|done| |done]. intros j. case_decide; by subst.
Qed.

Lemma pos_set_spec c i p :
  wf c -> i < size c -> view c i = None -> (0 <= p <= INT32_MAX)%Z ->
  exists c', pos_set i p c = Some c' /\ updated c i (Some (p, ∅)) c'.
Proof.
  intros Hwf Hi Hv Hp. destruct (wf_lens c i Hwf Hi) as (He & Hh & Hq').
  pose proof (proj1 (view_None c i Hwf Hi) Hv) as [Hp0 Hq]. unfold pos_set. unfold size in Hi.
  assert_step. rewrite Hp0. simpl. assert_step. rewrite Hq. simpl. assert_step. use_set.
  eexists. split; [reflexivity|].
  replace (Some (p, ∅)) with (if decide (p = -1)%Z then None else Some (p, ∅ : gset Z)) by (by rewrite decide_False by lia).
  apply (updated_intro c); simpl; try done; try (by apply insert_self).
  - lia.
  - by rewrite list_insert_id.
  - intros j. case_decide; [|set_solver]. subst. split; [lia|set_solver].
  - apply seq_pos_ok_pos; [done|apply Hwf].
Qed.

(** Cell [i] is detached from the position index, moved to [p'], and attached
    again: the common part of [pos_add] and [pos_div]. *)
Lemma move_ok c i p q p' sp :
  wf c -> pos c !! i = Some p -> seqs c !! i = Some q ->
  seq_pos_ok (pos c) (<[i:=∅]> (seqs c)) sp ->
  seq_pos_ok (<[i:=p']> (pos c)) (<[i:=∅]> (seqs c)) sp.
Proof.
  intros Hwf Hp Hq. apply seq_pos_ok_pos. apply list_lookup_insert_eq. by eapply lookup_lt_Some.
Qed.

Lemma pos_add_spec c i d p q h :
  wf c -> view c i = Some (p, q) -> shift c !! i = Some h ->
  (INT32_MIN <= p + d <= INT32_MAX)%Z -> (INT32_MIN <= h + d <= INT32_MAX)%Z ->
  exists c', pos_add i d c = Some (c', bool_decide (p + d < 0)%Z) /\
    updated c i (if decide (p + d < 0)%Z then None else Some ((p + d)%Z, q)) c'.
Proof.
  intros Hwf Hv Hsh Hr1 Hr2. pose proof (view_size _ _ _ _ Hv) as Hi. pose proof (view_bits _ _ _ _ Hwf Hv) as Hb.
  destruct (wf_lens c i Hwf Hi) as (He & Hh & Hq').
  pose proof Hv as (Hp & Hq & Hne)%view_Some. unfold pos_add. unfold size in Hi.
  assert_step. rewrite Hp. simpl. assert_step.
  destruct (seq_pos_rm_spec c i p q (wf_counts _ Hwf) (wf_size _ Hwf) Hp Hq Hb) as (sp & -> & Hsp).
  simpl. rewrite i32_chk_Some by done. simpl. use_set. rewrite Hsh. simpl.
  rewrite i32_chk_Some by done. simpl. use_set.
  apply (move_ok c i p q (p + d)%Z) in Hsp; [|done..].
  assert (i ∈ used c) as Hu by (apply (wf_used _ Hwf); eauto).
  case_bool_decide as Hz; [rewrite decide_True by done|rewrite decide_False by done].
  - use_set. rewrite !list_insert_insert_eq. eexists. split; [reflexivity|].
    apply (updated_intro c _ i (-1)%Z ∅); simpl; try done; try (by eexists).
    + by apply insert_self.
    + intros j. case_decide; set_solver.
    + rewrite <- (list_insert_insert_eq (pos c) i (-1)%Z (p + d)%Z).
      apply seq_pos_ok_pos; [by apply list_lookup_insert_eq|done].
  - match goal with |- context [seq_pos_add i ?t] => set (c1 := t) end.
    destruct (seq_pos_add_spec c1 i (p + d)%Z q) as (sp' & -> & Hsp'); subst c1; simpl; try done.
    + rewrite length_insert. apply Hwf.
    + by apply list_lookup_insert_eq.
    + simpl. eexists. split; [reflexivity|].
      replace (Some ((p + d)%Z, q)) with (if decide (p + d = -1)%Z then None else Some ((p + d)%Z, q))
        by (by rewrite decide_False by lia).
      apply (updated_intro c); simpl; try done; try (by apply insert_self); try (by eexists); try lia.
      * by rewrite list_insert_id.
      * intros j. case_decide; [|done]. subst. split; [lia|done].
Qed.

Lemma pos_div_spec c i d p q h :
  wf c -> view c i = Some (p, q) -> shift c !! i = Some h -> (0 < d)%Z ->
  (INT32_MIN <= h <= INT32_MAX - p)%Z ->
  exists c', pos_div i d c = Some c' /\ updated c i (Some ((p / d)%Z, q)) c'.
Proof.
  intros Hwf Hv Hsh Hd Hr2. pose proof (view_size _ _ _ _ Hv) as Hi. pose proof (view_bits _ _ _ _ Hwf Hv) as Hb.
  pose proof (view_range _ _ _ _ Hwf Hv) as Hr.
  destruct (wf_lens c i Hwf Hi) as (He & Hh & Hq').
  pose proof Hv as (Hp & Hq & Hne)%view_Some. unfold pos_div. unfold size in Hi.
  assert_step. rewrite Hp. simpl. assert_step.
  destruct (seq_pos_rm_spec c i p q (wf_counts _ Hwf) (wf_size _ Hwf) Hp Hq Hb) as (sp & -> & Hsp).
  simpl. rewrite (bool_decide_false (d = 0)%Z) by lia.
  rewrite Z.quot_div_nonneg by lia.
  assert (0 <= p / d <= p)%Z as Hdiv.
  { split; [apply Z.div_pos; lia|apply Z.div_le_upper_bound; nia]. }
  rewrite i32_chk_Some by (unfold INT32_MIN, INT32_MAX in *; lia). simpl. use_set. rewrite Hsh. simpl.
  rewrite i32_chk_Some by (unfold INT32_MIN, INT32_MAX in *; lia). simpl. use_set.
  apply (move_ok c i p q (p / d)%Z) in Hsp; [|done..].
  assert (i ∈ used c) as Hu by (apply (wf_used _ Hwf); eauto).
  match goal with |- context [seq_pos_add i ?t] => set (c1 := t) end.
  destruct (seq_pos_add_spec c1 i (p / d)%Z q) as (sp' & -> & Hsp'); subst c1; simpl; try done.
  - rewrite length_insert. apply Hwf.
  - by apply list_lookup_insert_eq.
  - simpl. eexists. split; [reflexivity|].
    replace (Some ((p / d)%Z, q)) with (if decide (p / d = -1)%Z then None else Some ((p / d)%Z, q))
      by (by rewrite decide_False by lia).
    apply (updated_intro c); simpl; try done; try (by apply insert_self); try (by eexists); try lia.
    + by rewrite list_insert_id.
    + intros j. case_decide; [|done]. subst. split; [lia|done].
Qed.

Lemma ext_set_spec c i e :
  wf c -> i < size c -> exists c', ext_set i e c = Some c' /\ updated c i (view c i) c'.
Proof.
  intros Hwf Hi. destruct (wf_lens c i Hwf Hi) as (He & Hh & Hq').
  unfold ext_set. assert_step. use_set. eexists. split; [reflexivity|].
  split; [|done| |].
  - destruct Hwf. split; simpl; rewrite ?length_insert; done.
  - intros j. by case_decide; subst.
  - intros j Hj. simpl. by rewrite list_lookup_insert_ne.
Qed.

(** The effect of [set_cell] on [used]. *)
Definition used_toggle (i : nat) (p0 p : Z) (u : gset nat) : gset nat :=
  let u := if bool_decide (p0 = -1 /\ p <> -1)%Z then {[i]} ∪ u else u in
  if bool_decide (p0 <> -1 /\ p = -1)%Z then u ∖ {[i]} else u.

Lemma used_toggle_spec i p0 p u :
  (i ∈ u <-> p0 <> (-1)%Z) ->
  forall k, k ∈ used_toggle i p0 p u <-> if decide (k = i) then p <> (-1)%Z else k ∈ u.
Proof.
  intros Hin k. unfold used_toggle.
  destruct (decide (p0 = -1)%Z), (decide (p = -1)%Z), (decide (k = i)) as [->|];
    repeat (case_bool_decide; try tauto);
    rewrite ?elem_of_union, ?elem_of_difference, ?elem_of_singleton; tauto.
Qed.

Lemma set_cell_spec c other i j p e q :
  wf c -> i < size c -> pos other !! j = Some p -> ext other !! j = Some e -> seqs other !! j = Some q ->
  (-1 <= p <= INT32_MAX)%Z -> bits_ok q -> (p = (-1)%Z -> q = ∅) -> shift c !! i = Some 0%Z ->
  exists c', set_cell other i j c = Some c' /\
    updated c i (if decide (p = -1)%Z then None else Some (p, q)) c'.
Proof.
  intros Hwf Hi Hpo Heo Hqo Hr Hb Hpq Hsh. destruct (wf_lens c i Hwf Hi) as (He & Hh & Hq').
  unfold set_cell. unfold size in Hi.
  destruct (lookup_lt_is_Some_2 (pos c) i Hi) as [p0 Hp0].
  destruct (lookup_lt_is_Some_2 (seqs c) i Hq') as [q0 Hq0].
  rewrite Hp0, Hpo. simpl.
  match goal with |- context [seq_pos_rm i ?t] => set (c1 := t) end.
  assert (exists u sp, c1 = with_used u c /\
    (if bool_decide (p0 <> -1)%Z then seq_pos_rm i c1 else Some c1) = Some (with_seq_pos sp c1) /\
    seq_pos_ok (pos c) (<[i:=∅]> (seqs c)) sp /\
    (forall k, k ∈ u <-> if decide (k = i) then p <> (-1)%Z else k ∈ used c)) as (u & sp & Hc1 & -> & Hsp & Hu).
  { assert (c1 = with_used (used_toggle i p0 p (used c)) c) as Hc1.
    { subst c1. unfold used_toggle, used_insert, used_erase. repeat case_bool_decide; by destruct c. }
    clearbody c1. subst c1. exists (used_toggle i p0 p (used c)).
    assert (forall k, k ∈ used_toggle i p0 p (used c) <-> if decide (k = i) then p <> (-1)%Z else k ∈ used c) as Hu.
    { apply used_toggle_spec. rewrite (wf_used _ Hwf), Hp0. naive_solver. }
    case_bool_decide as Hz.
    - assert (bits_ok q0) as Hb0 by (intros s; by apply (wf_bits _ Hwf i)).
      destruct (seq_pos_rm_spec (with_used (used_toggle i p0 p (used c)) c) i p0 q0) as (sp & ? & Hsp);
        try done; try apply Hwf. by exists sp.
    - exists (seq_pos c). assert (p0 = -1)%Z as -> by tauto.
      pose proof (wf_empty _ Hwf i Hp0) as Hq00. split_and!; [done|by destruct c| |done].
      rewrite list_insert_id by done. apply Hwf. }
  clearbody c1. subst c1. simpl. use_set. rewrite Heo. simpl. use_set. rewrite Hqo. simpl. use_set.
  apply (move_ok c i p0 q0 p) in Hsp; [|done..].
  match goal with |- context [seq_pos_add i ?t] => set (c1 := t) end.
  assert (exists sp', (if bool_decide (p <> -1)%Z then seq_pos_add i c1 else Some c1) = Some (with_seq_pos sp' c1) /\
    seq_pos_ok (<[i:=p]> (pos c)) (<[i:=q]> (seqs c)) sp') as (sp' & -> & Hsp').
  { case_bool_decide as Hz.
    - destruct (seq_pos_add_spec c1 i p q) as (sp' & ? & ?); subst c1; simpl in *; rewrite ?list_insert_insert_eq, ?length_insert; eauto.
      + apply Hwf.
      + by apply list_lookup_insert_eq.
      + by apply list_lookup_insert_eq.
    - exists sp. split; [done|]. by rewrite (Hpq ltac:(tauto)). }
  subst c1. simpl. rewrite Hsh. simpl. assert_step. eexists. split; [reflexivity|].
  apply (updated_intro c); simpl; try done; try (by eexists); try (by apply insert_self).
Qed.

Lemma occ_all_empty s p ps qs : (forall i q, qs !! i = Some q -> q = ∅) -> occ s p ps qs = 0.
Proof.
  revert qs. induction ps as [|p' ps IH]; intros [|q qs] H; simpl; try done.
  rewrite IH by (intros i; apply (H (S i))). unfold hit.
  rewrite (H 0 q) by done. by rewrite bool_decide_false by set_solver.
Qed.

Lemma seq_pos_ok_empty ps qs :
  (forall i q, qs !! i = Some q -> q = ∅) -> seq_pos_ok ps qs (replicate (Z.to_nat LLAMA_MAX_SEQ) ∅).
Proof.
  intros H. split; [apply length_replicate|]. intros s p m Hs Hm.
  apply lookup_replicate in Hm as [-> _]. by rewrite occ_all_empty.
Qed.

Lemma reset_wf c : (Z.of_nat (size c) <= INT32_MAX)%Z -> wf (reset c).
Proof.
  intros Hsz. unfold reset. split; simpl; rewrite ?length_replicate; try done.
  - intros i p [-> ?]%lookup_replicate. unfold INT32_MAX. lia.
  - intros i. split; [set_solver|]. intros (p & [-> ?]%lookup_replicate & ?). done.
  - intros i q s [-> ?]%lookup_replicate. set_solver.
  - intros i [_ ?]%lookup_replicate. by apply lookup_replicate.
  - apply seq_pos_ok_empty. by intros i q [-> _]%lookup_replicate.
Qed.

Lemma reset_view c i : view (reset c) i = None.
Proof.
  unfold view, reset. simpl. destruct (replicate _ (-1)%Z !! i) as [p|] eqn:E; simpl; [|done].
  apply lookup_replicate in E as [-> _]. destruct (replicate _ ∅ !! i); done.
Qed.

Lemma reset_size c : size (reset c) = size c.
Proof. unfold size, reset. simpl. by rewrite length_replicate. Qed.

Lemma resize_size n c : size (resize n c) = n.
Proof. unfold resize. rewrite reset_size. unfold size. simpl. by rewrite length_resize. Qed.

Lemma resize_wf n c : (Z.of_nat n <= INT32_MAX)%Z -> wf (resize n c).
Proof. intros H. apply reset_wf. unfold size. simpl. by rewrite length_resize. Qed.

Lemma reset_shift_wf c : wf c -> wf (reset_shift c).
Proof. intros []. unfold reset_shift. split; simpl; rewrite ?length_replicate; done. Qed.

(** ** Queries *)

Lemma is_empty_spec c i :
  wf c -> i < size c -> is_empty i c = Some (bool_decide (view c i = None)).
Proof.
  intros Hwf Hi. unfold is_empty. assert_step.
  destruct (lookup_lt_is_Some_2 (pos c) i Hi) as [p Hp]. rewrite Hp. simpl.
  pose proof (wf_pos _ Hwf i p Hp) as Hr.
  rewrite c_assert_true.
  2: { destruct (decide (p = -1)%Z) as [->|]; [done|].
       rewrite (bool_decide_true (p >= 0)%Z) by lia. apply orb_true_r. }
  simpl. f_equal. apply bool_decide_ext. rewrite view_None by done. rewrite Hp.
  split; [intros ->; by split; [|apply (wf_empty _ Hwf)]|by intros [[= ->] _]].
Qed.

Lemma pos_in_spec c i p0 p1 :
  wf c -> i < size c -> (0 <= p0)%Z ->
  pos_in i p0 p1 c = Some (match view c i with Some (p, _) => bool_decide (p0 <= p < p1)%Z | None => false end).
Proof.
  intros Hwf Hi Hp0. unfold pos_in. assert_step.
  destruct (lookup_lt_is_Some_2 (pos c) i Hi) as [p Hp]. rewrite Hp. simpl. f_equal.
  destruct (view c i) as [[p' q]|] eqn:Hv.
  - apply view_Some in Hv as (? & _). simplify_eq. repeat case_bool_decide; simpl; lia.
  - apply view_None in Hv as [? _]; [|done..]. simplify_eq. repeat case_bool_decide; simpl; lia.
Qed.

Lemma seq_has_spec c i s :
  wf c -> i < size c -> (0 <= s < LLAMA_MAX_SEQ)%Z ->
  seq_has i s c = Some (match view c i with Some (_, q) => bool_decide (s ∈ q) | None => false end).
Proof.
  intros Hwf Hi Hs. unfold seq_has. assert_step. assert_step.
  destruct (view c i) as [[p' q]|] eqn:Hv.
  - apply view_Some in Hv as (_ & -> & _). simpl. by apply bs_test_ok.
  - apply view_None in Hv as [_ ->]; [|done..]. simpl. rewrite bs_test_ok by done.
    by rewrite bool_decide_false by set_solver.
Qed.

Lemma pos_get_spec c i p q : view c i = Some (p, q) -> pos_get i c = Some p.
Proof.
  intros Hv. pose proof (view_size _ _ _ _ Hv) as Hi. apply view_Some in Hv as (Hp & _ & ?).
  unfold pos_get. assert_step. rewrite Hp. simpl. by assert_step.
Qed.

Lemma seq_count_spec c i p q : view c i = Some (p, q) -> seq_count i c = Some (base.size q).
Proof.
  intros Hv. pose proof (view_size _ _ _ _ Hv) as Hi. apply view_Some in Hv as (Hp & Hq & ?).
  unfold seq_count. assert_step. rewrite Hp. simpl. assert_step. by rewrite Hq.
Qed.

Lemma get_shift_spec c i p q : wf c -> view c i = Some (p, q) -> exists h, get_shift i c = Some h /\ shift c !! i = Some h.
Proof.
  intros Hwf Hv. pose proof (view_size _ _ _ _ Hv) as Hi. pose proof (wf_lens c i Hwf Hi) as (He & Hh & _).
  apply view_Some in Hv as (Hp & _ & ?).
  unfold get_shift. apply lookup_lt_is_Some in Hh as [h Hh]. exists h. split; [|done].
  assert_step. rewrite Hp. simpl. by assert_step.
Qed.

Lemma ext_get_spec c i p q : wf c -> view c i = Some (p, q) -> exists e, ext_get i c = Some e /\ ext c !! i = Some e.
Proof.
  intros Hwf Hv. pose proof (view_size _ _ _ _ Hv) as Hi. pose proof (wf_lens c i Hwf Hi) as (He & Hh & _).
  apply view_Some in Hv as (Hp & _ & ?).
  unfold ext_get. apply lookup_lt_is_Some in He as [e He]. exists e. split; [|done].
  assert_step. rewrite Hp. simpl. by assert_step.
Qed.

Lemma elem_of_bs_ones q s : s ∈ bs_ones q <-> s ∈ q /\ (0 <= s < LLAMA_MAX_SEQ)%Z.
Proof. unfold bs_ones. by rewrite list_elem_of_filter, elem_of_all_seq. Qed.

Lemma seq_get_spec c i p s :
  (0 <= s < LLAMA_MAX_SEQ)%Z -> view c i = Some (p, {[s]}) -> seq_get i c = Some s.
Proof.
  intros Hs Hv. apply view_Some in Hv as (Hp & Hq & ?).
  unfold seq_get. rewrite Hq. cbn [mbind option_bind].
  assert (base.size ({[s]} : gset Z) = 1) as Hsz by apply size_singleton.
  rewrite c_assert_bd by done. cbn [mbind option_bind]. f_equal.
  assert (s ∈ bs_ones {[s]}) as Hin by (apply elem_of_bs_ones; set_solver).
  destruct (bs_ones _) as [|x l] eqn:E; [by apply not_elem_of_nil in Hin|].
  assert (x ∈ bs_ones {[s]}) as Hx by (rewrite E; by left).
  apply elem_of_bs_ones in Hx as [Hx%elem_of_singleton _]. by subst.
Qed.

(** [size q = 1] pins the only sequence of a cell. *)
Lemma seq_single c i p q :
  wf c -> view c i = Some (p, q) -> base.size q = 1 -> exists s, q = {[s]} /\ (0 <= s < LLAMA_MAX_SEQ)%Z.
Proof.
  intros Hwf Hv [s ->%leibniz_equiv]%size_1_elem_of. exists s. split; [done|].
  apply (view_bits c i p {[s]} Hwf Hv). set_solver.
Qed.

Lemma foldr_min x (l : list Z) :
  foldr Z.min x l ∈ x :: l /\ forall y, y ∈ x :: l -> (foldr Z.min x l <= y)%Z.
Proof.
  induction l as [|a l [IHin IHle]]; simpl.
  - split; [by left|]. intros y ->%list_elem_of_singleton. done.
  - split.
    + destruct (Z.min_dec a (foldr Z.min x l)) as [->| ->]; [by right; left|].
      apply elem_of_cons in IHin as [->|Hin]; [by left|by right; right].
    + intros y [->|[->|Hy]%elem_of_cons]%elem_of_cons.
      * specialize (IHle x ltac:(by left)). lia.
      * lia.
      * specialize (IHle y ltac:(by right)). lia.
Qed.

Lemma foldr_max x (l : list Z) :
  foldr Z.max x l ∈ x :: l /\ forall y, y ∈ x :: l -> (y <= foldr Z.max x l)%Z.
Proof.
  induction l as [|a l [IHin IHle]]; simpl.
  - split; [by left|]. intros y ->%list_elem_of_singleton. done.
  - split.
    + destruct (Z.max_dec a (foldr Z.max x l)) as [->| ->]; [by right; left|].
      apply elem_of_cons in IHin as [->|Hin]; [by left|by right; right].
    + intros y [->|[->|Hy]%elem_of_cons]%elem_of_cons.
      * specialize (IHle x ltac:(by left)). lia.
      * lia.
      * specialize (IHle y ltac:(by right)). lia.
Qed.

Lemma elem_of_keys (m : gmap Z Z) x : x ∈ (map_to_list m).*1 <-> is_Some (m !! x).
Proof.
  rewrite list_elem_of_fmap. split.
  - intros ([k v] & -> & Hin%elem_of_map_to_list). by exists v.
  - intros [v Hv]. exists (x, v). split; [done|by apply elem_of_map_to_list].
Qed.

Lemma map_min_spec m :
  match map_min m with
  | None => forall x, m !! x = None
  | Some x => is_Some (m !! x) /\ forall y, is_Some (m !! y) -> (x <= y)%Z
  end.
Proof.
  unfold map_min. pose proof (elem_of_keys m) as Hk. destruct ((map_to_list m).*1) as [|x l].
  - intros x. apply eq_None_not_Some. rewrite <- Hk. apply not_elem_of_nil.
  - destruct (foldr_min x l) as [Hin Hle]. split; [by apply Hk|]. intros y Hy%Hk. by apply Hle.
Qed.

Lemma map_max_spec m :
  match map_max m with
  | None => forall x, m !! x = None
  | Some x => is_Some (m !! x) /\ forall y, is_Some (m !! y) -> (y <= x)%Z
  end.
Proof.
  unfold map_max. pose proof (elem_of_keys m) as Hk. destruct ((map_to_list m).*1) as [|x l].
  - intros x. apply eq_None_not_Some. rewrite <- Hk. apply not_elem_of_nil.
  - destruct (foldr_max x l) as [Hin Hle]. split; [by apply Hk|]. intros y Hy%Hk. by apply Hle.
Qed.

(** Sequence [s] occupies position [p] in some cell. *)
Definition holds_pos (c : llama_kv_cells) (s p : Z) : Prop :=
  exists i q, view c i = Some (p, q) /\ s ∈ q.

Lemma seq_pos_holds c s m p :
  wf c -> (0 <= s < LLAMA_MAX_SEQ)%Z -> seq_pos_at s c = Some m ->
  is_Some (m !! p) <-> holds_pos c s p.
Proof.
  intros Hwf Hs Hm. destruct (seq_pos_ok_at _ _ _ _ (wf_counts _ Hwf) Hs) as (m' & Hm' & _ & Hcnt).
  simplify_eq. rewrite Hcnt. unfold of_count. split.
  - case_decide as Hz; [by intros [? ?]|]. intros _.
    destruct (occ_pos_inv s p (pos c) (seqs c)) as (i & q & Hp & Hq & Hin); [lia|].
    exists i, q. split; [|done]. apply view_Some. split_and!; [done..|].
    intros ->. apply (wf_empty _ Hwf) in Hp. simplify_eq; set_solver.
  - intros (i & q & (Hp & Hq & _)%view_Some & Hin). pose proof (occ_hit _ _ _ _ _ _ Hp Hq Hin).
    rewrite decide_False by lia. done.
Qed.

Lemma seq_pos_count_pos c s m p :
  wf c -> (0 <= s < LLAMA_MAX_SEQ)%Z -> seq_pos_at s c = Some m -> is_Some (m !! p) -> (default 0 (m !! p) > 0)%Z.
Proof.
  intros Hwf Hs Hm. destruct (seq_pos_ok_at _ _ _ _ (wf_counts _ Hwf) Hs) as (m' & Hm' & _ & Hcnt).
  simplify_eq. rewrite Hcnt. unfold of_count. case_decide; [by intros [? ?]|]. intros _. simpl. lia.
Qed.

(** What [seq_pos_min] and [seq_pos_max] promise to their clients. *)
Definition is_pos_min (c : llama_kv_cells) (s m : Z) : Prop :=
  (m = (-1)%Z /\ forall p, ~ holds_pos c s p) \/
  (holds_pos c s m /\ forall p, holds_pos c s p -> (m <= p)%Z).
Definition is_pos_max (c : llama_kv_cells) (s m : Z) : Prop :=
  (m = (-1)%Z /\ forall p, ~ holds_pos c s p) \/
  (holds_pos c s m /\ forall p, holds_pos c s p -> (p <= m)%Z).

Lemma seq_pos_min_ok c s :
  wf c -> (0 <= s < LLAMA_MAX_SEQ)%Z -> exists m, seq_pos_min s c = Some m /\ is_pos_min c s m.
Proof.
  intros Hwf Hs. unfold seq_pos_min, is_pos_min. assert_step. assert_step.
  destruct (seq_pos_ok_at _ _ _ _ (wf_counts _ Hwf) Hs) as (m & Hm & _ & _). rewrite Hm. simpl.
  pose proof (map_min_spec m) as Hspec. pose proof (fun p => seq_pos_holds c s m p Hwf Hs Hm) as Hh. destruct (map_min m) as [x|].
  - destruct Hspec as [Hx Hle]. pose proof (seq_pos_count_pos c s m x Hwf Hs Hm Hx). assert_step.
    exists x. split; [done|]. right. split; [by apply Hh|]. intros p Hp%Hh. by apply Hle.
  - exists (-1)%Z. split; [done|]. left. split; [done|]. intros p Hp%Hh.
    rewrite Hspec in Hp. by destruct Hp.
Qed.

Lemma seq_pos_max_ok c s :
  wf c -> (0 <= s < LLAMA_MAX_SEQ)%Z -> exists m, seq_pos_max s c = Some m /\ is_pos_max c s m.
Proof.
  intros Hwf Hs. unfold seq_pos_max, is_pos_max. assert_step. assert_step.
  destruct (seq_pos_ok_at _ _ _ _ (wf_counts _ Hwf) Hs) as (m & Hm & _ & _). rewrite Hm. simpl.
  pose proof (map_max_spec m) as Hspec. pose proof (fun p => seq_pos_holds c s m p Hwf Hs Hm) as Hh. destruct (map_max m) as [x|].
  - destruct Hspec as [Hx Hle]. pose proof (seq_pos_count_pos c s m x Hwf Hs Hm Hx). assert_step.
    exists x. split; [done|]. right. split; [by apply Hh|]. intros p Hp%Hh. by apply Hle.
  - exists (-1)%Z. split; [done|]. left. split; [done|]. intros p Hp%Hh.
    rewrite Hspec in Hp. by destruct Hp.
Qed.

Lemma foldr_nat_max x (l : list nat) :
  foldr Nat.max x l ∈ x :: l /\ forall y, y ∈ x :: l -> y <= foldr Nat.max x l.
Proof.
  induction l as [|a l [IHin IHle]]; simpl.
  - split; [by left|]. intros y ->%list_elem_of_singleton. done.
  - split.
    + destruct (Nat.max_dec a (foldr Nat.max x l)) as [->| ->]; [by right; left|].
      apply elem_of_cons in IHin as [->|Hin]; [by left|by right; right].
    + intros y [->|[->|Hy]%elem_of_cons]%elem_of_cons.
      * specialize (IHle x ltac:(by left)). lia.
      * lia.
      * specialize (IHle y ltac:(by right)). lia.
Qed.

Lemma used_view c i : wf c -> i ∈ used c <-> view c i <> None.
Proof.
  intros Hwf. rewrite (wf_used _ Hwf). split.
  - intros (p & Hp & Hne). pose proof (lookup_lt_Some _ _ _ Hp) as Hi. rewrite view_None by done. naive_solver.
  - intros Hv. destruct (view c i) as [[p q]|] eqn:E; [|done]. apply view_Some in E as (? & _ & ?). eauto.
Qed.

Lemma used_max_p1_ok c :
  wf c ->
  (forall i, used_max_p1 c <= i -> view c i = None) /\
  (0 < used_max_p1 c -> view c (used_max_p1 c - 1) <> None).
Proof.
  intros Hwf. unfold used_max_p1, set_max.
  pose proof (fun i => elem_of_elements (used c) i) as He. destruct (elements (used c)) as [|x l].
  - split; [|lia]. intros i _. apply dec_stable. rewrite <- used_view by done. rewrite <- He. apply not_elem_of_nil.
  - destruct (foldr_nat_max x l) as [Hin Hle]. split.
    + intros i Hi. apply dec_stable. rewrite <- used_view by done. intros Hu%He%Hle. lia.
    + intros _. rewrite Nat.add_sub. apply used_view; [done|]. by apply He.
Qed.

(** ** The state is determined by its content *)

Lemma view_ext_pos c c' : wf c -> wf c' -> size c' = size c -> (forall i, view c' i = view c i) ->
  pos c' = pos c /\ seqs c' = seqs c.
Proof.
  intros Hwf Hwf' Hsz Hv.
  assert (forall i, i < size c -> pos c' !! i = pos c !! i /\ seqs c' !! i = seqs c !! i) as H.
  { intros i Hi. specialize (Hv i). destruct (view c i) as [[p q]|] eqn:E.
    - apply view_Some in E as (? & ? & _). apply view_Some in Hv as (? & ? & _). split; congruence.
    - apply view_None in E as [? ?]; [|done..]. apply view_None in Hv as [? ?]; [|done|by rewrite Hsz].
      split; congruence. }
  unfold size in *. split; apply list_eq; intros i; (destruct (decide (i < length (pos c))) as [Hi|Hi]; [by apply H|]).
  - by rewrite !lookup_ge_None_2 by lia.
  - rewrite !lookup_ge_None_2; [done|rewrite (wf_seqs _ Hwf); lia|rewrite (wf_seqs _ Hwf'); lia].
Qed.

Lemma seq_pos_unique ps qs sp sp' : seq_pos_ok ps qs sp -> seq_pos_ok ps qs sp' -> sp = sp'.
Proof.
  intros [Hl H] [Hl' H']. apply (list_eq_same_length _ _ (Z.to_nat LLAMA_MAX_SEQ)); [done|done|].
  intros i m m' Hi Hm Hm'. apply map_eq. intros p.
  rewrite (H (Z.of_nat i) p m) by (rewrite ?Nat2Z.id; done || lia).
  by rewrite (H' (Z.of_nat i) p m') by (rewrite ?Nat2Z.id; done || lia).
Qed.

Lemma view_canonical c c' : wf c -> wf c' -> size c' = size c -> (forall i, view c' i = view c i) ->
  pos c' = pos c /\ seqs c' = seqs c /\ used c' = used c /\ seq_pos c' = seq_pos c.
Proof.
  intros Hwf Hwf' Hsz Hv. destruct (view_ext_pos c c') as [Hp Hq]; [done..|].
  split_and!; [done|done| |].
  - apply set_eq. intros i. by rewrite !used_view, Hv by done.
  - apply (seq_pos_unique (pos c) (seqs c)); [|apply Hwf]. rewrite <- Hp, <- Hq. apply Hwf'.
Qed.

End Proofs.

(** * Specification: operations on the abstract content *)

Definition upd {A} (i : nat) (o : A) (v : nat -> A) : nat -> A :=
  fun j => if decide (j = i) then o else v j.

Inductive cells_op :=
  | OpRm (i : nat)
  | OpSeqRm (i : nat) (s : Z)
  | OpSeqKeep (i : nat) (s : Z)
  | OpSeqAdd (i : nat) (s : Z)
  | OpPosSet (i : nat) (p : Z)
  | OpPosAdd (i : nat) (d : Z)
  | OpPosDiv (i : nat) (d : Z)
  | OpExtSet (i : nat) (e : llama_kv_cell_ext)
  | OpResetShift
  | OpReset.

Definition content := nat -> option (Z * gset Z).

(** The notes "call only if ..." of the header, as preconditions. *)
Definition op_pre (o : cells_op) (c : llama_kv_cells) : Prop :=
  match o with
  | OpRm i => view c i <> None
  | OpSeqRm i s => exists p q, view c i = Some (p, q) /\ s ∈ q
  | OpSeqKeep i s => i < size c /\ (0 <= s < LLAMA_MAX_SEQ)%Z /\ forall p, view c i <> Some (p, ∅)
  | OpSeqAdd i s => (exists p q, view c i = Some (p, q) /\ s ∉ q) /\ (0 <= s < LLAMA_MAX_SEQ)%Z
  | OpPosSet i p => i < size c /\ view c i = None /\ (0 <= p <= INT32_MAX)%Z
  | OpPosAdd i d => exists p q h, view c i = Some (p, q) /\ shift c !! i = Some h /\
      (INT32_MIN <= p + d <= INT32_MAX)%Z /\ (INT32_MIN <= h + d <= INT32_MAX)%Z
  | OpPosDiv i d => exists p q h, view c i = Some (p, q) /\ shift c !! i = Some h /\
      (0 < d)%Z /\ (INT32_MIN <= h <= INT32_MAX - p)%Z
  | OpExtSet i _ => i < size c
  | OpResetShift | OpReset => True
  end.

Definition exec_op `{BM : BuildMode} (o : cells_op) (c : llama_kv_cells) : option llama_kv_cells :=
  match o with
  | OpRm i => rm i c
  | OpSeqRm i s => '(c', _) ← seq_rm i s c; Some c'
  | OpSeqKeep i s => '(c', _) ← seq_keep i s c; Some c'
  | OpSeqAdd i s => seq_add i s c
  | OpPosSet i p => pos_set i p c
  | OpPosAdd i d => '(c', _) ← pos_add i d c; Some c'
  | OpPosDiv i d => pos_div i d c
  | OpExtSet i e => ext_set i e c
  | OpResetShift => Some (reset_shift c)
  | OpReset => Some (reset c)
  end.

Definition spec_op (o : cells_op) (v : content) : content :=
  match o with
  | OpRm i => upd i None v
  | OpSeqRm i s => upd i ('(p, q) ← v i; if decide (q ∖ {[s]} = ∅) then None else Some (p, q ∖ {[s]})) v
  | OpSeqKeep i s => upd i ('(p, q) ← v i; if decide (s ∈ q) then Some (p, {[s]}) else None) v
  | OpSeqAdd i s => upd i ('(p, q) ← v i; Some (p, {[s]} ∪ q)) v
  | OpPosSet i p => upd i (Some (p, ∅)) v
  | OpPosAdd i d => upd i ('(p, q) ← v i; if decide (p + d < 0)%Z then None else Some ((p + d)%Z, q)) v
  | OpPosDiv i d => upd i ('(p, q) ← v i; Some ((p / d)%Z, q)) v
  | OpExtSet _ _ | OpResetShift => v
  | OpReset => fun _ => None
  end.

Section Refinement.
Context `{BM : BuildMode}.

Lemma updated_refines c i o c' v :
  updated c i o c' -> (forall j, v j = view c j) -> wf c' /\ size c' = size c /\ forall j, view c' j = upd i o v j.
Proof. intros [] Hv. split_and!; [done..|]. intros j. unfold upd. rewrite Hv. auto. Qed.

Lemma exec_op_refines o c :
  wf c -> op_pre o c ->
  exists c', exec_op o c = Some c' /\ wf c' /\ size c' = size c /\ forall i, view c' i = spec_op o (view c) i.
Proof.
  intros Hwf Hpre. destruct o as [i|i s|i s|i s|i p|i d|i d|i e| |]; simpl in *.
  - destruct (view c i) as [[p q]|] eqn:Hv; [|done].
    destruct (rm_spec c i p q) as (c' & -> & Hu); [done..|]. exists c'. split; [done|]. by eapply updated_refines.
  - destruct Hpre as (p & q & Hv & Hs). destruct (seq_rm_spec c i s p q) as (c' & -> & Hu); [done..|].
    exists c'. split; [done|]. rewrite Hv. simpl. by eapply updated_refines.
  - destruct Hpre as (Hi & Hs & Hne). destruct (seq_keep_spec c i s) as (c' & -> & Hu); [done..|].
    exists c'. split; [done|]. destruct (view c i) as [[p q]|]; by eapply updated_refines.
  - destruct Hpre as ((p & q & Hv & Hs) & Hr). destruct (seq_add_spec c i s p q) as (c' & -> & Hu); [done..|].
    exists c'. split; [done|]. rewrite Hv. simpl. by eapply updated_refines.
  - destruct Hpre as (Hi & Hv & Hr). destruct (pos_set_spec c i p) as (c' & -> & Hu); [done..|].
    exists c'. split; [done|]. by eapply updated_refines.
  - destruct Hpre as (p & q & h & Hv & Hh & ? & ?). destruct (pos_add_spec c i d p q h) as (c' & -> & Hu); [done..|].
    exists c'. split; [done|]. rewrite Hv. simpl. by eapply updated_refines.
  - destruct Hpre as (p & q & h & Hv & Hh & ? & ?). destruct (pos_div_spec c i d p q h) as (c' & -> & Hu); [done..|].
    exists c'. split; [done|]. rewrite Hv. simpl. by eapply updated_refines.
  - destruct (ext_set_spec c i e) as (c' & -> & Hu); [done..|]. exists c'. split; [done|].
    destruct Hu. split_and!; [done..|]. intros j. rewrite upd_view0. by case_decide; subst.
  - eexists. split; [done|]. split_and!; [by apply reset_shift_wf|done|done].
  - eexists. split; [done|]. split_and!; [apply reset_wf, Hwf|apply reset_size|apply reset_view].
Qed.

(** Runs: each call satisfies its precondition in the state it is made in. *)
Inductive cells_run : llama_kv_cells -> list cells_op -> llama_kv_cells -> Prop :=
  | run_nil c : cells_run c [] c
  | run_cons c o c1 os c2 : op_pre o c -> exec_op o c = Some c1 -> cells_run c1 os c2 -> cells_run c (o :: os) c2.

Fixpoint spec_run (os : list cells_op) (v : content) : content :=
  match os with [] => v | o :: os => spec_run os (spec_op o v) end.

Lemma spec_op_ext o v v' : (forall i, v i = v' i) -> forall i, spec_op o v i = spec_op o v' i.
Proof. intros H i. destruct o; simpl; unfold upd; rewrite ?H; try done; case_decide; by rewrite ?H. Qed.

Lemma spec_run_ext os v v' : (forall i, v i = v' i) -> forall i, spec_run os v i = spec_run os v' i.
Proof. revert v v'. induction os as [|o os IH]; intros v v' H i; simpl; [done|]. by apply IH, spec_op_ext. Qed.

Lemma cells_run_sim c0 os c :
  cells_run c0 os c -> wf c0 ->
  wf c /\ size c = size c0 /\ forall i, view c i = spec_run os (view c0) i.
Proof.
  induction 1 as [c0|c0 o c1 os c2 Hpre Hex Hrun IH]; intros Hwf; [done|].
  destruct (exec_op_refines o c0 Hwf Hpre) as (c1' & Hex' & Hw & Hs & Hv). simplify_eq.
  destruct (IH Hw) as (? & ? & Hv2). split_and!; [done|lia|]. intros i. rewrite Hv2. simpl.
  by apply spec_run_ext.
Qed.

End Refinement.

(** * Saving and restoring cells *)

Section SaveRestore.
Context `{BM : BuildMode}.

(** The snapshot [r] holds cell [idxs[j]] of [c] at index [j], for [j < k]. *)
Definition snapshot (c : llama_kv_cells) (idxs : list nat) (k : nat) (r : llama_kv_cells) : Prop :=
  (length (pos r) = length idxs /\ length (ext r) = length idxs /\ length (seqs r) = length idxs) /\
  forall j i, j < k -> idxs !! j = Some i ->
    pos r !! j = pos c !! i /\ ext r !! j = ext c !! i /\ seqs r !! j = seqs c !! i.

Lemma cp_cell_ok c idxs j i r :
  wf c -> snapshot c idxs j r -> idxs !! j = Some i -> i < size c -> shift c !! i = Some 0%Z ->
  exists r', cp_cell c j i r = Some r' /\ snapshot c idxs (S j) r'.
Proof.
  intros Hwf [(Hp & He & Hq) Hs] Hj Hi Hsh. pose proof (lookup_lt_Some _ _ _ Hj) as Hlt.
  destruct (wf_lens c i Hwf Hi) as (He' & _ & Hq').
  apply lookup_lt_is_Some in He' as [e E1]. apply lookup_lt_is_Some in Hq' as [q E2].
  destruct (lookup_lt_is_Some_2 (pos c) i Hi) as [p E3].
  unfold cp_cell. rewrite E3. simpl. use_set. rewrite E1. simpl. use_set. rewrite E2. simpl. use_set.
  rewrite Hsh. simpl. assert_step. eexists. split; [reflexivity|].
  split; [simpl; rewrite !length_insert; done|].
  intros k i' Hk Hi'. simpl. destruct (decide (k = j)) as [->|Hne].
  - simplify_eq. rewrite !list_lookup_insert_eq by lia. by rewrite E1, E2, E3.
  - rewrite !list_lookup_insert_ne by done. apply Hs; [lia|done].
Qed.

Lemma cp_idxs_ok c idxs :
  wf c -> (forall i, i ∈ idxs -> i < size c /\ shift c !! i = Some 0%Z) ->
  exists r, cp_idxs idxs c = Some r /\ snapshot c idxs (length idxs) r.
Proof.
  intros Hwf Hin. unfold cp_idxs.
  apply (foldM_seq _ (fun k r => snapshot c idxs k r) 0 (length idxs)).
  - split; [|lia]. unfold resize, reset. simpl. by rewrite !length_replicate, length_resize.
  - intros j r [_ Hj] Hs. apply lookup_lt_is_Some in Hj as [i Hj]. rewrite Hj. simpl.
    destruct (Hin i) as [? ?]; [by eapply list_elem_of_lookup_2|]. rewrite Nat.add_1_r.
    eapply cp_cell_ok; eauto.
Qed.

(** Restoring the snapshot of [c0] into [c] gives back the content of [c0] at
    the saved indices and leaves the other cells alone. *)
Lemma set_idxs_ok c0 c idxs r :
  wf c0 -> wf c -> size c = size c0 -> NoDup idxs -> snapshot c0 idxs (length idxs) r ->
  (forall i, i ∈ idxs -> i < size c0 /\ shift c !! i = Some 0%Z) ->
  exists c', set_idxs idxs r c = Some c' /\ wf c' /\ size c' = size c0 /\
    forall i, view c' i = if decide (i ∈ idxs) then view c0 i else view c i.
Proof.
  intros Hwf0 Hwf Hsz Hnd [(Hp & He & Hq) Hs] Hin. unfold set_idxs.
  rewrite (c_assert_true _) by (apply bool_decide_true; done). simpl. rewrite Hp.
  edestruct (foldM_seq (fun j c => idx ← idxs !! j; set_cell r idx j c)
    (fun k t => wf t /\ size t = size c0 /\
       (forall i, view t i = if decide (i ∈ take k idxs) then view c0 i else view c i) /\
       (forall i, i ∈ drop k idxs -> shift t !! i = shift c !! i)) 0 (length idxs) c) as (c' & -> & Hwf' & Hsz' & Hv & _).
  - split_and!; done.
  - intros j t [_ Hj] (Ht & Hst & Hv & Hsh). apply lookup_lt_is_Some in Hj as [i Hj]. rewrite Hj. simpl.
    destruct (Hin i) as [Hi Hz]; [by eapply list_elem_of_lookup_2|].
    pose proof (lookup_lt_Some _ _ _ Hj) as Hlt. destruct (Hs j i Hlt Hj) as (E1 & E2 & E3).
    destruct (wf_lens c0 i Hwf0 Hi) as (He' & _ & Hq').
    apply lookup_lt_is_Some in He' as [e Ee]. apply lookup_lt_is_Some in Hq' as [q Eq].
    destruct (lookup_lt_is_Some_2 (pos c0) i Hi) as [p Ep].
    destruct (set_cell_spec t r i j p e q) as (t' & -> & [Hw' Hs' Hv' Hf']); try congruence.
    + by apply (wf_pos _ Hwf0 i).
    + intros s. by apply (wf_bits _ Hwf0 i).
    + intros ->. apply (wf_empty _ Hwf0) in Ep. congruence.
    + rewrite Hsh; [done|]. apply list_elem_of_lookup. exists 0. by rewrite lookup_drop, Nat.add_0_r.
    + exists t'. split; [done|]. rewrite Nat.add_1_r. split_and!; [done|lia| |].
      * intros k. rewrite Hv', Hv, (take_S_r _ _ _ Hj). unfold view. destruct (decide (k = i)) as [->|Hne].
        -- rewrite (decide_True (P := i ∈ _)) by set_solver. rewrite Ep, Eq. simpl. case_decide; case_bool_decide; done.
        -- destruct (decide (k ∈ take j idxs)); [rewrite decide_True by set_solver|rewrite decide_False by set_solver]; done.
      * intros k Hk. rewrite (drop_S _ _ _ Hj) in Hsh. destruct (decide (k = i)) as [->|Hne].
        -- exfalso. pose proof Hnd as Hnd'. rewrite <- (take_drop_middle idxs j i Hj) in Hnd'.
           apply NoDup_app in Hnd' as (_ & _ & Hnd'). apply NoDup_cons in Hnd' as [? _]. done.
        -- rewrite (proj1 (Hf' k Hne)). apply Hsh. by right.
  - exists c'. split; [done|]. split_and!; [done..|]. intros i. rewrite Hv.
    simpl. by rewrite take_ge by lia.
Qed.

End SaveRestore.

(** * Properties *)

Section Properties.
Context `{BM : BuildMode}.

(** Every method of [llama_kv_cells] that changes the object, called where
    the notes of the header allow it on a well-formed object, runs to the end in
    debug and in release builds (no assertion fires, no vector, bitset or map is
    accessed out of range, no counter overflows), keeps the object well formed
    and has exactly the effect of the abstract operation on the cells' content. *)
Theorem cells_op_refines (o : cells_op) (c : llama_kv_cells) :
  wf c -> op_pre o c ->
  exists c', exec_op o c = Some c' /\ wf c' /\ size c' = size c /\
    forall i, view c' i = spec_op o (view c) i.
Proof. apply exec_op_refines. Qed.

(** C1: after [resize(n)] and any sequence of permitted calls the object is well
    formed, has [n] cells, and its content is what the abstract operations
    produce from the empty table: the concrete class simulates the
    specification. *)
Theorem cells_run_refines (n : nat) (os : list cells_op) (c : llama_kv_cells) :
  (Z.of_nat n <= INT32_MAX)%Z -> cells_run (resize n cells_new) os c ->
  wf c /\ size c = n /\ forall i, view c i = spec_run os (fun _ => None) i.
Proof.
  intros Hn Hrun.
  destruct (cells_run_sim _ _ _ Hrun (resize_wf n cells_new Hn)) as (? & Hs & Hv). rewrite resize_size in Hs.
  split_and!; [done..|]. intros i. rewrite Hv. apply spec_run_ext. intros j. apply reset_view.
Qed.

(** On a well-formed object, [seq_pos_min] and [seq_pos_max] answer the least
    and the greatest position that sequence [s] occupies in any cell, and -1
    exactly when it occupies none. *)
Theorem seq_pos_bounds (c : llama_kv_cells) (s : Z) :
  wf c -> (0 <= s < LLAMA_MAX_SEQ)%Z ->
  exists lo hi, seq_pos_min s c = Some lo /\ seq_pos_max s c = Some hi /\
    is_pos_min c s lo /\ is_pos_max c s hi.
Proof.
  intros Hwf Hs. destruct (seq_pos_min_ok c s) as (lo & ? & ?); [done..|].
  destruct (seq_pos_max_ok c s) as (hi & ? & ?); [done..|]. by exists lo, hi.
Qed.

(** [cp(idxs)] followed by [set(idxs, ...)] on an object that was changed only
    at [idxs] gives back the position, sequence, usage and index data of the
    original, for distinct in-range indices without a pending shift. *)
Theorem cp_set_restores (c0 c : llama_kv_cells) (idxs : list nat) :
  wf c0 -> wf c -> size c = size c0 -> NoDup idxs ->
  (forall i, i ∈ idxs -> i < size c0 /\ shift c0 !! i = Some 0%Z /\ shift c !! i = Some 0%Z) ->
  (forall i, i ∉ idxs -> view c i = view c0 i) ->
  exists r c', cp_idxs idxs c0 = Some r /\ set_idxs idxs r c = Some c' /\
    pos c' = pos c0 /\ seqs c' = seqs c0 /\ used c' = used c0 /\ seq_pos c' = seq_pos c0.
Proof.
  intros Hwf0 Hwf Hsz Hnd Hin Hv.
  destruct (cp_idxs_ok c0 idxs) as (r & Hr & Hsnap); [done|naive_solver|].
  destruct (set_idxs_ok c0 c idxs r) as (c' & Hc' & Hw' & Hs' & Hv'); [done..|naive_solver|].
  exists r, c'. split; [done|]. split; [done|]. apply view_canonical; [done..|].
  intros i. rewrite Hv'. case_decide; [done|by apply Hv].
Qed.

(** [used_max_p1] is one past the last used cell (0 when there is none), and
    [used] holds the non-empty cells. *)
Theorem used_bounds (c : llama_kv_cells) :
  wf c ->
  (forall i, i ∈ used c <-> view c i <> None) /\
  (forall i, used_max_p1 c <= i -> view c i = None) /\
  (0 < used_max_p1 c -> view c (used_max_p1 c - 1) <> None).
Proof.
  intros Hwf. split; [intros i; by apply used_view|]. by apply used_max_p1_ok.
Qed.

End Properties.

(** ** Witnesses *)

(** The preconditions as a boolean, to evaluate runs. *)
Definition op_preb (o : cells_op) (c : llama_kv_cells) : bool :=
  match o with
  | OpRm i => bool_decide (view c i <> None)
  | OpSeqRm i s => match view c i with Some (_, q) => bool_decide (s ∈ q) | None => false end
  | OpSeqKeep i s => bool_decide (i < size c /\ (0 <= s < LLAMA_MAX_SEQ)%Z) &&
      match view c i with Some (_, q) => bool_decide (q <> ∅) | None => true end
  | OpSeqAdd i s => bool_decide (0 <= s < LLAMA_MAX_SEQ)%Z &&
      match view c i with Some (_, q) => bool_decide (s ∉ q) | None => false end
  | OpPosSet i p => bool_decide (i < size c /\ view c i = None /\ (0 <= p <= INT32_MAX)%Z)
  | OpPosAdd i d =>
      match view c i, shift c !! i with
      | Some (p, _), Some h => bool_decide ((INT32_MIN <= p + d <= INT32_MAX)%Z /\ (INT32_MIN <= h + d <= INT32_MAX)%Z)
      | _, _ => false
      end
  | OpPosDiv i d =>
      match view c i, shift c !! i with
      | Some (p, _), Some h => bool_decide ((0 < d)%Z /\ (INT32_MIN <= h <= INT32_MAX - p)%Z)
      | _, _ => false
      end
  | OpExtSet i _ => bool_decide (i < size c)
  | OpResetShift | OpReset => true
  end.

Lemma op_preb_sound o c : op_preb o c = true -> op_pre o c.
Proof.
  destruct o as [i|i s|i s|i s|i p|i d|i d|i e| |]; simpl; try done;
    try (destruct (view c i) as [[p0 q]|]; try done);
    try (destruct (shift c !! i) as [h|]; try done);
    rewrite ?andb_true_iff, ?bool_decide_eq_true; naive_solver.
Qed.

Fixpoint runb `{BM : BuildMode} (os : list cells_op) (c : llama_kv_cells) : option llama_kv_cells :=
  match os with
  | [] => Some c
  | o :: os => if op_preb o c then c ← exec_op o c; runb os c else None
  end.

Lemma runb_sound `{BM : BuildMode} os c c' : runb os c = Some c' -> cells_run c os c'.
Proof.
  revert c. induction os as [|o os IH]; intros c H; simpl in H; [simplify_eq; constructor|].
  destruct (op_preb o c) eqn:Hpre; [|done]. destruct (exec_op o c) as [c1|] eqn:Hex; [|done].
  econstructor; [by apply op_preb_sound|done|by apply IH].
Qed.

Definition demo_ops : list cells_op :=
  [OpPosSet 0 5; OpSeqAdd 0 1; OpSeqAdd 0 2; OpPosSet 1 6; OpSeqAdd 1 1; OpSeqRm 0 1; OpPosAdd 1 (-4)].

(** The object after [demo_ops] on four cells. *)
Definition demo_cells : llama_kv_cells := default cells_new (runb (BM := debug_build) demo_ops (resize 4 cells_new)).

Lemma demo_run : cells_run (BM := debug_build) (resize 4 cells_new) demo_ops demo_cells.
Proof. apply runb_sound. vm_compute. reflexivity. Qed.

Lemma demo_wf : wf demo_cells.
Proof. by destruct (cells_run_sim _ _ _ demo_run (resize_wf 4 cells_new ltac:(done))). Qed.

Lemma cells_op_refines_witness :
  exists c', exec_op (BM := debug_build) (OpSeqRm 1 1) demo_cells = Some c' /\ wf c' /\ size c' = size demo_cells /\
    forall i, view c' i = spec_op (OpSeqRm 1 1) (view demo_cells) i.
Proof.
  apply (cells_op_refines (BM := debug_build) (OpSeqRm 1 1) demo_cells); [apply demo_wf|].
  apply op_preb_sound. vm_compute. reflexivity.
Defined.

Lemma cells_run_refines_witness :
  wf demo_cells /\ size demo_cells = 4 /\ forall i, view demo_cells i = spec_run demo_ops (fun _ => None) i.
Proof. apply (cells_run_refines (BM := debug_build) 4 demo_ops demo_cells); [done|apply demo_run]. Defined.

Lemma seq_pos_bounds_witness :
  exists lo hi, seq_pos_min (BM := release_build) 1 demo_cells = Some lo /\
    seq_pos_max (BM := release_build) 1 demo_cells = Some hi /\
    is_pos_min demo_cells 1 lo /\ is_pos_max demo_cells 1 hi.
Proof. apply (seq_pos_bounds (BM := release_build) demo_cells 1); [apply demo_wf|done]. Defined.

Lemma used_bounds_witness :
  (forall i, i ∈ used demo_cells <-> view demo_cells i <> None) /\
  (forall i, used_max_p1 demo_cells <= i -> view demo_cells i = None) /\
  (0 < used_max_p1 demo_cells -> view demo_cells (used_max_p1 demo_cells - 1) <> None).
Proof. apply (used_bounds demo_cells). apply demo_wf. Defined.

(** Cell 3 is filled and then restored to its empty state. *)
Definition demo_filled : llama_kv_cells :=
  default cells_new (runb (BM := debug_build) [OpPosSet 3 9; OpSeqAdd 3 0] demo_cells).

Lemma demo_filled_wf : wf demo_filled.
Proof.
  assert (cells_run (BM := debug_build) demo_cells [OpPosSet 3 9; OpSeqAdd 3 0] demo_filled) as Hrun
    by (apply runb_sound; vm_compute; reflexivity).
  by destruct (cells_run_sim _ _ _ Hrun demo_wf).
Qed.

Lemma cp_set_restores_witness :
  exists r c', cp_idxs (BM := debug_build) [3] demo_cells = Some r /\ set_idxs (BM := debug_build) [3] r demo_filled = Some c' /\
    pos c' = pos demo_cells /\ seqs c' = seqs demo_cells /\ used c' = used demo_cells /\
    seq_pos c' = seq_pos demo_cells.
Proof.
  apply (cp_set_restores (BM := debug_build) demo_cells demo_filled [3]).
  - apply demo_wf.
  - apply demo_filled_wf.
  - vm_compute. reflexivity.
  - apply NoDup_singleton.
  - intros i ->%list_elem_of_singleton. split; [|split]; [by_eval|reflexivity|reflexivity].
  - intros i Hi. assert (i <> 3) by (intros ->; apply Hi; by left).
    do 4 (destruct i as [|i]; [by vm_compute|]).
    unfold view. rewrite !lookup_ge_None_2; [done|vm_compute; lia..].
Defined.

End Cells.
