(* ===== verification/Memory.v ===== *)
(** The interface between the batch splitter and the memory modules:
    [llama_memory_i] and [llama_memory_status] of
    [llama_cpp_repo/src/llama-memory.h] and [llama-memory.cpp].  A memory
    implements the operations over its own state; [MemoryLaws] is what it
    promises about them, and what the batch theorems rely on. *)

From S2P Require Import Prelude.
From S2P Require Import KvCells.

Module Memory.

Inductive llama_memory_status :=
  | LLAMA_MEMORY_STATUS_SUCCESS
  | LLAMA_MEMORY_STATUS_NO_UPDATE
  | LLAMA_MEMORY_STATUS_FAILED_PREPARE
  | LLAMA_MEMORY_STATUS_FAILED_COMPUTE.

#[global] Instance status_eq_dec : EqDecision llama_memory_status.
Proof. solve_decision. Defined.

(** One [switch] of [llama_memory_status_combine]: the new [has_update], or the
    status returned at once. *)
Definition combine_switch (s : llama_memory_status) (has_update : bool) : llama_memory_status + bool :=
  match s with
  | LLAMA_MEMORY_STATUS_SUCCESS => inr true
  | LLAMA_MEMORY_STATUS_NO_UPDATE => inr has_update
  | LLAMA_MEMORY_STATUS_FAILED_PREPARE | LLAMA_MEMORY_STATUS_FAILED_COMPUTE => inl s
  end.

Definition llama_memory_status_combine (s0 s1 : llama_memory_status) : llama_memory_status :=
  match combine_switch s0 false with
  | inl s => s
  | inr has_update =>
      match combine_switch s1 has_update with
      | inl s => s
      | inr has_update =>
          if has_update then LLAMA_MEMORY_STATUS_SUCCESS else LLAMA_MEMORY_STATUS_NO_UPDATE
      end
  end.

Definition llama_memory_status_is_fail (status : llama_memory_status) : bool :=
  match status with
  | LLAMA_MEMORY_STATUS_SUCCESS | LLAMA_MEMORY_STATUS_NO_UPDATE => false
  | LLAMA_MEMORY_STATUS_FAILED_PREPARE | LLAMA_MEMORY_STATUS_FAILED_COMPUTE => true
  end.

(** The sequence operations of [llama_memory_i], over the state [M] of an
    implementation ([None]: an assertion failed). *)
Class llama_memory_i (M : Type) := {
  mem_clear       : M -> option M;
  mem_seq_rm      : Z -> Z -> Z -> M -> option (M * bool);
  mem_seq_cp      : Z -> Z -> Z -> Z -> M -> option M;
  mem_seq_keep    : Z -> M -> option M;
  mem_seq_add     : Z -> Z -> Z -> Z -> M -> option M;
  mem_seq_div     : Z -> Z -> Z -> Z -> M -> option M;
  mem_seq_pos_min : Z -> M -> option Z;
  mem_seq_pos_max : Z -> M -> option Z;
}.

(** The operations as data, and their execution through the interface. *)
Inductive mem_op :=
  | MClear
  | MSeqRm (s p0 p1 : Z)
  | MSeqCp (src dst p0 p1 : Z)
  | MSeqKeep (s : Z)
  | MSeqAdd (s p0 p1 shift : Z)
  | MSeqDiv (s p0 p1 d : Z).

Definition exec_mem_op {M : Type} `{llama_memory_i M} (o : mem_op) (m : M) : option M :=
  match o with
  | MClear => mem_clear m
  | MSeqRm s p0 p1 => fst <$> mem_seq_rm s p0 p1 m
  | MSeqCp src dst p0 p1 => mem_seq_cp src dst p0 p1 m
  | MSeqKeep s => mem_seq_keep s m
  | MSeqAdd s p0 p1 shift => mem_seq_add s p0 p1 shift m
  | MSeqDiv s p0 p1 d => mem_seq_div s p0 p1 d m
  end.

(** What a memory promises: a set of good states, the positions a sequence has
    in a state, and that [seq_pos_min] and [seq_pos_max] answer their extremes. *)
Class MemoryLaws (M : Type) `{llama_memory_i M} := {
  mem_ok    : M -> Prop;
  mem_seqs  : M -> Z;
  mem_holds : M -> Z -> Z -> Prop;
  mem_pos_nonneg : forall m s p, mem_ok m -> mem_holds m s p -> (0 <= p)%Z;
  mem_min_ok : forall m s, mem_ok m -> (0 <= s < mem_seqs m)%Z -> exists p, mem_seq_pos_min s m = Some p /\
    ((p = (-1)%Z /\ forall p', ~ mem_holds m s p') \/ (mem_holds m s p /\ forall p', mem_holds m s p' -> (p <= p')%Z));
  mem_max_ok : forall m s, mem_ok m -> (0 <= s < mem_seqs m)%Z -> exists p, mem_seq_pos_max s m = Some p /\
    ((p = (-1)%Z /\ forall p', ~ mem_holds m s p') \/ (mem_holds m s p /\ forall p', mem_holds m s p' -> (p' <= p)%Z));
}.

Section Laws.
Context {M : Type} `{MemoryLaws M}.

Lemma mem_max_total m s : mem_ok m -> (0 <= s < mem_seqs m)%Z ->
  exists p, mem_seq_pos_max s m = Some p /\ (-1 <= p)%Z.
Proof.
  intros Hok Hs. destruct (mem_max_ok m s Hok Hs) as (p & ? & Hp). exists p. split; [done|].
  destruct Hp as [[-> _]|[Hh _]].
  - lia.
  - pose proof (mem_pos_nonneg m s p Hok Hh). lia.
Qed.

Lemma mem_min_total m s : mem_ok m -> (0 <= s < mem_seqs m)%Z ->
  exists p, mem_seq_pos_min s m = Some p.
Proof. intros Hok Hs. destruct (mem_min_ok m s Hok Hs) as (p & ? & _). eauto. Qed.

End Laws.

(** Combining the statuses of two memories fails exactly when one of them
    fails, reports the first failure in order, and otherwise asks for an update
    exactly when one of them does: the operation is associative, and
    [NO_UPDATE] is its unit. *)
Lemma status_combine_laws (s0 s1 s2 : llama_memory_status) :
  llama_memory_status_is_fail (llama_memory_status_combine s0 s1) =
    llama_memory_status_is_fail s0 || llama_memory_status_is_fail s1 /\
  (llama_memory_status_is_fail s0 = true -> llama_memory_status_combine s0 s1 = s0) /\
  llama_memory_status_combine s0 (llama_memory_status_combine s1 s2) =
    llama_memory_status_combine (llama_memory_status_combine s0 s1) s2 /\
  llama_memory_status_combine LLAMA_MEMORY_STATUS_NO_UPDATE s0 = s0 /\
  llama_memory_status_combine s0 LLAMA_MEMORY_STATUS_NO_UPDATE = s0.
Proof. destruct s0, s1, s2; repeat split; done. Qed.

End Memory.
