(* ===== verification/Batch.v ===== *)
(** Sanitizing and splitting input batches: [llama_batch], [llama_ubatch] and
    class [llama_batch_allocr] of [llama_cpp_repo/src/llama-batch.cpp] and
    [llama-batch.h].  A nullable array is an option of a list; [None] as the
    result of an operation is a failed [GGML_ASSERT] or an out-of-range or null
    access.  Floats are only copied: an embedding value is its bit pattern. *)

From Stdlib Require Import Sorted.
From S2P Require Import Prelude.
From S2P Require Import KvCells.
From S2P Require Import Memory.
Import KvCells.Cells Memory.Memory.

Module Batch.

(** * Data *)

Record llama_batch := mkBatch {
  b_n_tokens : nat;
  b_token    : option (list Z);
  b_embd     : option (list Z);
  b_pos      : option (list Z);
  b_n_seq_id : option (list Z);
  b_seq_id   : option (list (list Z));
  b_logits   : option (list Z);
}.

Definition batch_empty : llama_batch := mkBatch 0 None None None None None None.

Record llama_ubatch := mkUbatch {
  u_equal_seqs   : bool;
  u_n_tokens     : nat;
  u_n_seq_tokens : nat;
  u_n_seqs       : nat;
  u_n_seqs_unq   : nat;
  u_n_pos        : nat;
  u_token        : option (list Z);
  u_embd         : option (list Z);
  u_pos          : list Z;
  u_n_seq_id     : list Z;
  u_seq_id       : list (list Z);
  u_seq_id_unq   : list Z;
  u_seq_idx      : list Z;
  u_output       : list Z;
}.

(** [return {}]. *)
Definition ubatch_empty : llama_ubatch :=
  mkUbatch false 0 0 0 0 0 None None [] [] [] [] [] [].

Definition is_pos_2d (u : llama_ubatch) : bool := bool_decide (3 <= u_n_pos u).

(** The arrays [pos], [n_seq_id], [seq_id] and [output] of the class only back
    the corresponding fields of [batch]; [seq_cpl] is the set of its ones. *)
Record llama_batch_allocr := mkAllocr {
  batch          : llama_batch;
  n_pos_per_embd : nat;
  n_embd         : nat;
  n_seq_max      : Z;
  n_outputs      : nat;
  seq_id_unq     : list Z;
  seq_idx        : list Z;
  has_cpl        : bool;
  a_seq_pos      : list (gset Z);
  seq_cpl        : gset (Z * Z);
  seq_set        : list (gset Z);
  seq_set_map    : gmap (gset Z) (list nat);
  out_ids        : list nat;
  n_used         : nat;
  a_used         : list bool;
}.

Definition with_batch b a := mkAllocr b (n_pos_per_embd a) (n_embd a) (n_seq_max a) (n_outputs a)
  (seq_id_unq a) (seq_idx a) (has_cpl a) (a_seq_pos a) (seq_cpl a) (seq_set a) (seq_set_map a)
  (out_ids a) (n_used a) (a_used a).
Definition with_split ids nu us a := mkAllocr (batch a) (n_pos_per_embd a) (n_embd a) (n_seq_max a) (n_outputs a)
  (seq_id_unq a) (seq_idx a) (has_cpl a) (a_seq_pos a) (seq_cpl a) (seq_set a) (seq_set_map a)
  ids nu us.
Definition with_used_tokens nu us a := with_split (out_ids a) nu us a.

(** [seq_idx.resize(LLAMA_MAX_SEQ, -1)]. *)
Definition seq_idx0 : list Z := replicate (Z.to_nat LLAMA_MAX_SEQ) (-1)%Z.

Lemma length_seq_idx0 : length seq_idx0 = Z.to_nat LLAMA_MAX_SEQ.
Proof. apply length_replicate. Qed.

Definition new_allocr (n_pos : nat) : llama_batch_allocr :=
  mkAllocr batch_empty n_pos 0 0 0 [] seq_idx0 false
    (replicate (Z.to_nat LLAMA_MAX_SEQ) ∅) ∅ [] ∅ [] 0 [].

(** [seq_pos], [seq_cpl] and [seq_idx] keep their length; [out_ids], [used] and
    [has_cpl] are not touched. *)
Definition clear (a : llama_batch_allocr) : llama_batch_allocr :=
  mkAllocr batch_empty (n_pos_per_embd a) (n_embd a) (n_seq_max a) 0 []
    seq_idx0 (has_cpl a)
    (replicate (length (a_seq_pos a)) ∅) ∅ [] ∅ (out_ids a) (n_used a) (a_used a).

Definition get_n_tokens (a : llama_batch_allocr) : nat := b_n_tokens (batch a).
Definition get_n_outputs (a : llama_batch_allocr) : nat := n_outputs a.
Definition get_n_used (a : llama_batch_allocr) : nat := n_used a.
Definition get_out_ids (a : llama_batch_allocr) : list nat := out_ids a.

Definition split_reset (a : llama_batch_allocr) : llama_batch_allocr :=
  with_split [] 0 (replicate (get_n_tokens a) false) a.

(** Smallest and largest element of an ordered set of positions. *)
Definition zset_min (u : gset Z) : option Z :=
  match elements u with [] => None | x :: l => Some (foldr Z.min x l) end.
Definition zset_max (u : gset Z) : option Z :=
  match elements u with [] => None | x :: l => Some (foldr Z.max x l) end.

Definition seq_pos_of (s : Z) (a : llama_batch_allocr) : option (gset Z) :=
  if bool_decide (0 <= s)%Z then a_seq_pos a !! Z.to_nat s else None.
Definition seq_pos_min (s : Z) (a : llama_batch_allocr) : option Z :=
  u ← seq_pos_of s a; Some (default (-1)%Z (zset_min u)).
Definition seq_pos_max (s : Z) (a : llama_batch_allocr) : option Z :=
  u ← seq_pos_of s a; Some (default (-1)%Z (zset_max u)).

(** * Accesses to the batch arrays *)

Definition batch_pos (i : nat) (b : llama_batch) : option Z := l ← b_pos b; l !! i.
Definition batch_n_seq_id (i : nat) (b : llama_batch) : option Z := l ← b_n_seq_id b; l !! i.
Definition batch_seq_id (i : nat) (b : llama_batch) : option (list Z) := l ← b_seq_id b; l !! i.
Definition batch_logits (i : nat) (b : llama_batch) : option Z := l ← b_logits b; l !! i.

(** The ids visited by [for (s = 0; s < n_seq_id[i]; ++s) ... seq_id[i][s]]. *)
Definition batch_ids (i : nat) (b : llama_batch) : option (list Z) :=
  n ← batch_n_seq_id i b;
  l ← batch_seq_id i b;
  if bool_decide (n <= Z.of_nat (length l))%Z then Some (take (Z.to_nat n) l) else None.

(** [seq_id[i][0]]. *)
Definition batch_id0 (i : nat) (b : llama_batch) : option Z :=
  l ← batch_seq_id i b; l !! 0.

(** A loop that returns at the first iteration whose check fails. *)
Fixpoint checkM {A} (f : A -> option bool) (l : list A) : option bool :=
  match l with
  | [] => Some true
  | x :: l => b ← f x; if (b : bool) then checkM f l else Some false
  end.

(** * [init] *)

Definition check_tokens (b : llama_batch) (n_vocab : Z) : option bool :=
  match b_token b with
  | None => Some true
  | Some tk => checkM (fun i => t ← tk !! i; Some (bool_decide (0 <= t < n_vocab)%Z)) (seq 0 (b_n_tokens b))
  end.

Definition check_seq_ids (b : llama_batch) (n_seq_max : Z) : option bool :=
  match b_seq_id b with
  | None => Some true
  | Some _ => checkM (fun i =>
      ids ← batch_ids i b;
      checkM (fun s => Some (bool_decide (0 <= s < n_seq_max)%Z)) ids) (seq 0 (b_n_tokens b))
  end.

Definition gen_n_seq_id (b : llama_batch) : llama_batch :=
  match b_n_seq_id b with
  | Some _ => b
  | None => mkBatch (b_n_tokens b) (b_token b) (b_embd b) (b_pos b)
      (Some (replicate (b_n_tokens b) 1%Z)) (b_seq_id b) (b_logits b)
  end.

Definition gen_seq_id (b : llama_batch) : llama_batch :=
  match b_seq_id b with
  | Some _ => b
  | None => mkBatch (b_n_tokens b) (b_token b) (b_embd b) (b_pos b) (b_n_seq_id b)
      (Some (replicate (b_n_tokens b) [0%Z])) (b_logits b)
  end.

Definition batch_with_pos p b :=
  mkBatch (b_n_tokens b) (b_token b) (b_embd b) (Some p) (b_n_seq_id b) (b_seq_id b) (b_logits b).
Definition batch_with_logits o b :=
  mkBatch (b_n_tokens b) (b_token b) (b_embd b) (b_pos b) (b_n_seq_id b) (b_seq_id b) (Some o).

Section Init.
Context {M : Type} `{llama_memory_i M}.

(** [p0[s]] for [s < n_seq_max]; the rest of the C array is not initialised. *)
Definition init_p0 (memory : option M) (n_seq_max : Z) : option (list Z) :=
  mapM (fun s => match memory with
                 | None => Some 0%Z
                 | Some m => p ← mem_seq_pos_max s m; i32_chk (p + 1)
                 end) (seqZ 0 n_seq_max).

(** One iteration of the position loop: [pos[i] = p0[seq_id[i][0]]], then every
    sequence of the token starts after it; [p0] is indexed by the ids. *)
Definition gen_pos_step (b : llama_batch) (i : nat) (st : list Z * list Z) : option (list Z * list Z) :=
  let '(p0, pos) := st in
  s0 ← batch_id0 i b;
  if bool_decide (s0 < 0)%Z then None else
  p ← p0 !! Z.to_nat s0;
  ids ← batch_ids i b;
  if negb (forallb (fun s => bool_decide (0 <= s)%Z) ids) then None else
  p' ← (match ids with [] => Some p | _ => i32_chk (p + 1) end);
  p0 ← foldM (fun s p0 => set_at (Z.to_nat s) p' p0) ids p0;
  Some (p0, pos ++ [p]).

Definition gen_pos (memory : option M) (n_seq_max : Z) (b : llama_batch) : option llama_batch :=
  match b_pos b with
  | Some _ => Some b
  | None =>
      p0 ← init_p0 memory n_seq_max;
      '(_, pos) ← foldM (gen_pos_step b) (seq 0 (b_n_tokens b)) (p0, []);
      Some (batch_with_pos pos b)
  end.

(** [output[n - 1] = true] after filling with [false]. *)
Definition gen_logits (output_all : bool) (b : llama_batch) : option llama_batch :=
  let n := b_n_tokens b in
  match b_logits b with
  | None =>
      if output_all then Some (batch_with_logits (replicate n 1%Z) b)
      else o ← set_at (n - 1) 1%Z (replicate n 0%Z); Some (batch_with_logits o b)
  | Some lg =>
      if output_all then
        warn ← checkM (fun i => x ← lg !! i; Some (bool_decide (x <> 0)%Z)) (seq 0 n);
        if (warn : bool) then Some b else Some (batch_with_logits (replicate n 1%Z) b)
      else Some b
  end.

(** [seq_pos[s1].insert(p)]. *)
Definition seq_pos_insert (s p : Z) (sp : list (gset Z)) : option (list (gset Z)) :=
  u ← sp !! Z.to_nat s; set_at (Z.to_nat s) ({[p]} ∪ u) sp.

(** The stats loop over the ids of token [i]: positions per sequence, pairs of
    coupled sequences, and whether there is any. *)
Definition stats_step (b : llama_batch) (i : nat)
    (st : list (gset Z) * gset (Z * Z) * bool) : option (list (gset Z) * gset (Z * Z) * bool) :=
  s0 ← batch_id0 i b;
  ids ← batch_ids i b;
  foldM (fun (e : nat * Z) '(sp, cpl, hc) =>
    p ← batch_pos i b;
    sp ← seq_pos_insert (snd e) p sp;
    if bool_decide (0 < fst e) then Some (sp, {[(snd e, s0)]} ∪ cpl, true) else Some (sp, cpl, hc))
    (imap pair ids) st.

Definition bits_of (ids : list Z) : option (gset Z) := foldM (fun s q => bs_set q s) ids ∅.

Definition sets_step (b : llama_batch) (i : nat)
    (st : list (gset Z) * gmap (gset Z) (list nat) * gset Z)
    : option (list (gset Z) * gmap (gset Z) (list nat) * gset Z) :=
  let '(ss, mp, unq) := st in
  ids ← batch_ids i b;
  cur ← bits_of ids;
  unq ← foldM (fun s q => bs_set q s) ids unq;
  Some (ss ++ [cur], <[cur := default [] (mp !! cur) ++ [i]]> mp, unq).

(** [seq_idx] and [seq_id_unq] of a set of participating sequences. *)
Definition unq_step (unq : gset Z) (s : Z) (st : list Z * list Z) : option (list Z * list Z) :=
  let '(idx, ids) := st in
  t ← bs_test unq s;
  if (t : bool) then idx ← set_at (Z.to_nat s) (Z.of_nat (length ids)) idx; Some (idx, ids ++ [s])
  else Some (idx, ids).

(** The consistency checks of one sequence against the memory. *)
Definition check_seq_mrope (memory : option M) (a : llama_batch_allocr) (s : Z) : option bool :=
  u ← seq_pos_of s a;
  if bool_decide (u = ∅) then Some true else
  p0 ← (match memory with None => Some (-1)%Z | Some m => mem_seq_pos_max s m end);
  lo ← seq_pos_min s a;
  Some (match b_token (batch a) with
        | Some _ => negb (bool_decide (p0 >= 0 /\ p0 >= lo)%Z)
        | None => negb (bool_decide (p0 >= 0 /\ p0 > lo)%Z)
        end).

Definition check_seq_plain (memory : option M) (a : llama_batch_allocr) (s : Z) : option bool :=
  u ← seq_pos_of s a;
  if bool_decide (u = ∅) then Some true else
  p0 ← (match memory with None => Some (-1)%Z | Some m => mem_seq_pos_max s m end);
  lo ← seq_pos_min s a;
  hi ← seq_pos_max s a;
  ok ← (if bool_decide (0 <= p0)%Z then q ← i32_chk (p0 + 1); Some (bool_decide (lo = q)) else Some true);
  if negb ok then Some false else
  d ← i32_chk (hi - lo);
  d ← i32_chk (d + 1);
  Some (negb (bool_decide (Z.of_nat (base.size u) < d)%Z)).

Definition check_positions (memory : option M) (a : llama_batch_allocr) : option bool :=
  if bool_decide (1 < n_pos_per_embd a)
  then checkM (check_seq_mrope memory a) (seqZ 0 (n_seq_max a))
  else checkM (check_seq_plain memory a) (seqZ 0 (n_seq_max a)).

(** Coupled sequences must not have diverged in the memory. *)
Definition check_coupled (memory : option M) (a : llama_batch_allocr) : option bool :=
  match memory with
  | None => Some true
  | Some m =>
      checkM (fun s0 => checkM (fun s1 =>
        if bool_decide ((s0, s1) ∈ seq_cpl a) then
          lo0 ← mem_seq_pos_min s0 m; lo1 ← mem_seq_pos_min s1 m;
          if bool_decide (lo0 <> lo1) then Some false else
          hi0 ← mem_seq_pos_max s0 m; hi1 ← mem_seq_pos_max s1 m;
          Some (bool_decide (hi0 = hi1))
        else Some true) (seqZ 0 (n_seq_max a))) (seqZ 0 (n_seq_max a))
  end.

(** The last loop narrows [cur_seq_set[s]] and compares the position with
    [cur_seq_pos[s]], which stays at its initial value. *)
Definition subset_token (b : llama_batch) (set_i : gset Z) (p : Z) (ids : list Z)
    (st : list (gset Z) * list Z) : option (list (gset Z) * list Z + bool) :=
  (fix go ids (st : list (gset Z) * list Z) :=
    match ids with
    | [] => Some (inl st)
    | s :: ids =>
        let '(cur, cpos) := st in
        c ← cur !! Z.to_nat s;
        let c := c ∩ set_i in
        cur ← set_at (Z.to_nat s) c cur;
        if bool_decide (c = ∅) then Some (inr false) else
        q ← cpos !! Z.to_nat s;
        if bool_decide (p < q)%Z then Some (inr false) else go ids (cur, cpos)
    end) ids st.

Fixpoint check_subsets (a : llama_batch_allocr) (l : list nat) (st : list (gset Z) * list Z) : option bool :=
  match l with
  | [] => Some true
  | i :: l =>
      p ← batch_pos i (batch a);
      ids ← batch_ids i (batch a);
      set_i ← seq_set a !! i;
      r ← subset_token (batch a) set_i p ids st;
      match r with
      | inl st => check_subsets a l st
      | inr b => Some b
      end
  end.

(** All ones: [cur_seq_set[s].set()]. *)
Definition bs_all : gset Z := list_to_set all_seq.

Definition init (a : llama_batch_allocr) (batch_inp : llama_batch) (n_vocab : Z) (memory : option M)
    (n_embd : nat) (n_seq_max : Z) (output_all : bool) : option (bool * llama_batch_allocr) :=
  let a := with_batch batch_inp (clear a) in
  let b := batch a in
  GGML_ASSERT bool_decide (0 < b_n_tokens b);
  if bool_decide (n_seq_max > LLAMA_MAX_SEQ)%Z then Some (false, a) else
  ok ← check_tokens b n_vocab;
  if negb ok then Some (false, a) else
  ok ← check_seq_ids b n_seq_max;
  if negb ok then Some (false, a) else
  let b := gen_seq_id (gen_n_seq_id b) in
  b ← gen_pos memory n_seq_max b;
  b ← gen_logits output_all b;
  lg ← b_logits b;
  marks ← mapM (fun i => lg !! i) (seq 0 (b_n_tokens b));
  '(sp, cpl, hc) ← foldM (stats_step b) (seq 0 (b_n_tokens b)) (a_seq_pos a, seq_cpl a, false);
  '(ss, mp, unq) ← foldM (sets_step b) (seq 0 (b_n_tokens b)) (seq_set a, seq_set_map a, ∅);
  '(idx, ids) ← foldM (unq_step unq) (seqZ 0 n_seq_max) (seq_idx a, seq_id_unq a);
  let a := mkAllocr b (n_pos_per_embd a) n_embd n_seq_max
             (n_outputs a + length (filter (fun x => x <> 0%Z) marks)) ids idx hc sp cpl ss mp
             (out_ids a) (n_used a) (a_used a) in
  ok ← check_positions memory a;
  if negb ok then Some (false, a) else
  ok ← check_coupled memory a;
  if negb ok then Some (false, a) else
  ok ← check_subsets a (seq 0 (b_n_tokens b))
         (replicate (Z.to_nat n_seq_max) bs_all, replicate (Z.to_nat n_seq_max) (-1)%Z);
  if negb ok then Some (false, a) else
  Some (true, split_reset a).

End Init.

(** * Building a ubatch from batch indices *)

(** [memcpy(dst + i*n_embd, embd + idx*n_embd, n_embd)]. *)
Definition embd_row (n : nat) (embd : list Z) (idx : nat) : option (list Z) :=
  let row := take n (drop (idx * n) embd) in
  if bool_decide (length row = n) then Some row else None.

(** [assert(n_tokens%n_seqs == 0)] is checked in every build: the remainder by
    zero, and a failed assertion, have no value. *)
Definition ubatch_add (idxs : list nat) (n_seqs : nat) (equal_seqs : bool) (a : llama_batch_allocr)
    : option (llama_ubatch * llama_batch_allocr) :=
  let b := batch a in
  let n_tokens := length idxs in
  if bool_decide (n_seqs = 0 \/ n_tokens mod n_seqs <> 0) then None else
  token ← (match b_token b with
           | None => Some None
           | Some tk => l ← mapM (fun i => tk !! i) idxs; Some (Some l)
           end);
  embd ← (match b_embd b with
          | None => Some None
          | Some e => l ← mapM (embd_row (n_embd a) e) idxs; Some (Some (concat l))
          end);
  pos ← mapM (fun j =>
    let src_off := match b_token b with Some _ => 0 | None => j * b_n_tokens b end in
    mapM (fun i => batch_pos (src_off + i) b) idxs) (seq 0 (n_pos_per_embd a));
  n_seq_id ← mapM (fun i => batch_n_seq_id i b) idxs;
  output ← mapM (fun i => batch_logits i b) idxs;
  ids ← mapM (fun i => batch_ids i b) idxs;
  unq ← foldM (fun l q => foldM (fun s q => bs_set q s) l q) ids ∅;
  '(idx, id_unq) ← foldM (unq_step unq) (seqZ 0 (n_seq_max a))
                     (seq_idx0, []);
  let res := mkUbatch equal_seqs n_tokens (n_tokens / n_seqs) n_seqs (length id_unq) (n_pos_per_embd a)
               token embd (concat pos) n_seq_id ids id_unq idx output in
  let outs := filter (fun e : nat * Z => snd e <> 0%Z) (zip idxs output) in
  Some (res, with_split (out_ids a ++ outs.*1) (n_used a) (a_used a) a).

Definition ubatch_reserve (n_seq_tokens n_seqs : nat) (a : llama_batch_allocr)
    : option (llama_ubatch * llama_batch_allocr) :=
  let n_tokens := n_seq_tokens * n_seqs in
  let a := split_reset (clear a) in
  idx ← foldM (fun s idx => set_at s (Z.of_nat s) idx) (seq 0 n_seqs) seq_idx0;
  Some (mkUbatch true n_tokens n_seq_tokens n_seqs n_seqs (n_pos_per_embd a)
          (Some (replicate n_tokens 0%Z)) None (replicate n_tokens 0%Z) (replicate n_tokens 0%Z)
          (replicate n_tokens []) (Z.of_nat <$> seq 0 n_seqs) idx (replicate n_tokens 0%Z), a).

(** * Splitting

    Each split first picks the batch indices of the next ubatch, marking them
    used, and then builds it. *)

(** [while (cur_idx < used.size() && used[cur_idx]) ++cur_idx]. *)
Fixpoint skip_used (used : list bool) : nat :=
  match used with
  | true :: used => S (skip_used used)
  | _ => 0
  end.

Fixpoint simple_loop (fuel n_ubatch cur_idx : nat) (idxs : list nat) (used : list bool) (nu : nat)
    : option (list nat * list bool * nat) :=
  match fuel with
  | 0 => None
  | S fuel =>
      let idxs := idxs ++ [cur_idx] in
      used ← set_at cur_idx true used;
      let nu := S nu in
      let cur_idx := S cur_idx in
      if bool_decide (length used <= cur_idx) then Some (idxs, used, nu) else
      if bool_decide (n_ubatch <= length idxs) then Some (idxs, used, nu) else
      simple_loop fuel n_ubatch cur_idx idxs used nu
  end.

Definition split_simple (n_ubatch : nat) (a : llama_batch_allocr) : option (llama_ubatch * llama_batch_allocr) :=
  let cur_idx := skip_used (a_used a) in
  if bool_decide (length (a_used a) <= cur_idx) then Some (ubatch_empty, a) else
  '(idxs, us, nu) ← simple_loop (S (length (a_used a))) n_ubatch cur_idx [] (a_used a) (n_used a);
  ubatch_add idxs (length idxs) false (with_used_tokens nu us a).

(** The non-overlapping sequence sets of the next ubatch ([last_seq_id] and the
    sets picked so far are the loop state; [inr] is the [break]). *)
Fixpoint pick_sets (a : llama_batch_allocr) (n_ubatch : nat) (sequential : bool) (l : list nat)
    (cur : list (gset Z)) (last : Z) : option (list (gset Z)) :=
  match l with
  | [] => Some cur
  | i :: l =>
      u ← a_used a !! i;
      if (u : bool) then pick_sets a n_ubatch sequential l cur last else
      q ← seq_set a !! i;
      let add := forallb (fun c : gset Z => bool_decide (c ∩ q = ∅)) cur in
      add ← (if sequential then
               match add, cur with
               | true, _ :: _ => s0 ← batch_id0 i (batch a); Some (bool_decide (s0 = last + 1)%Z)
               | _, _ => Some add
               end
             else Some add);
      if (add : bool) then
        let cur := cur ++ [q] in
        last ← batch_id0 i (batch a);
        if bool_decide (n_ubatch < length cur) then Some cur
        else pick_sets a n_ubatch sequential l cur last
      else pick_sets a n_ubatch sequential l cur last
  end.

Definition set_idxs_of (a : llama_batch_allocr) (q : gset Z) : list nat := default [] (seq_set_map a !! q).

(** [while (used[seq_set_map[set][cur_idx]]) ++cur_idx]: the offset of the first
    unused index ([None]: ran past the vector). *)
Fixpoint first_unused (used : list bool) (l : list nat) : option nat :=
  match l with
  | [] => None
  | i :: l => u ← used !! i; if (u : bool) then S <$> first_unused used l else Some 0
  end.

(** The body of one round: the next index of every set is taken. *)
Definition equal_take (a : llama_batch_allocr) (sets : list (gset Z)) (cur_idx : list nat)
    (st : list (list nat) * list bool * nat) : option (list (list nat) * list bool * nat) :=
  foldM (fun s '(per, us, nu) =>
    q ← sets !! s;
    k ← cur_idx !! s;
    idx ← set_idxs_of a q !! k;
    p ← per !! s;
    per ← set_at s (p ++ [idx]) per;
    us ← set_at idx true us;
    Some (per, us, S nu)) (seq 0 (length sets)) st.

Fixpoint equal_loop (fuel : nat) (a : llama_batch_allocr) (n_ubatch : nat) (sets : list (gset Z))
    (cur_idx : list nat) (st : list (list nat) * list bool * nat) : option (list (list nat) * list bool * nat) :=
  match fuel with
  | 0 => None
  | S fuel =>
      let can_expand := forallb (fun '(q, k) => bool_decide (k < length (set_idxs_of a q))) (zip sets cur_idx) in
      if negb can_expand then Some st else
      st ← equal_take a sets cur_idx st;
      let cur_idx := S <$> cur_idx in
      row0 ← st.1.1 !! 0;
      if bool_decide (n_ubatch < (length row0 + 1) * length sets) then Some st
      else equal_loop fuel a n_ubatch sets cur_idx st
  end.

Definition split_equal (n_ubatch : nat) (sequential : bool) (a : llama_batch_allocr)
    : option (llama_ubatch * llama_batch_allocr) :=
  if sequential && has_cpl a then Some (ubatch_empty, a) else
  sets ← pick_sets a n_ubatch sequential (seq 0 (b_n_tokens (batch a))) [] (-1)%Z;
  let n_seqs := length sets in
  if bool_decide (n_seqs = 0) then Some (ubatch_empty, a) else
  cur_idx ← mapM (fun q => first_unused (a_used a) (set_idxs_of a q)) sets;
  '(per, us, nu) ← equal_loop (S (length (a_used a))) a n_ubatch sets cur_idx
                     (replicate n_seqs [], a_used a, n_used a);
  ubatch_add (concat per) n_seqs true (with_used_tokens nu us a).

(** The [do ... while] of [split_seq]: the next index after [cur_idx] that is
    unused and whose set is included in the current one ([n_tokens] if none). *)
Fixpoint next_subset (fuel : nat) (a : llama_batch_allocr) (us : list bool) (cur : gset Z) (i : nat) : option nat :=
  match fuel with
  | 0 => None
  | S fuel =>
      let i := S i in
      if bool_decide (get_n_tokens a <= i) then Some i else
      u ← us !! i;
      if (u : bool) then next_subset fuel a us cur i else
      q ← seq_set a !! i;
      if bool_decide (cur ∩ q <> q) then next_subset fuel a us cur i else Some i
  end.

Fixpoint seq_loop (fuel : nat) (a : llama_batch_allocr) (n_ubatch cur_idx : nat) (cur : gset Z)
    (idxs : list nat) (us : list bool) (nu : nat) : option (list nat * list bool * nat) :=
  match fuel with
  | 0 => None
  | S fuel =>
      let idxs := idxs ++ [cur_idx] in
      us ← set_at cur_idx true us;
      let nu := S nu in
      if bool_decide (n_ubatch <= length idxs) then Some (idxs, us, nu) else
      i ← next_subset (S (get_n_tokens a)) a us cur cur_idx;
      if bool_decide (i = get_n_tokens a) then Some (idxs, us, nu) else
      q ← seq_set a !! i;
      seq_loop fuel a n_ubatch i q idxs us nu
  end.

Definition split_seq (n_ubatch : nat) (a : llama_batch_allocr) : option (llama_ubatch * llama_batch_allocr) :=
  let cur_idx := skip_used (a_used a) in
  if bool_decide (length (a_used a) <= cur_idx) then Some (ubatch_empty, a) else
  q ← seq_set a !! cur_idx;
  '(idxs, us, nu) ← seq_loop (S (length (a_used a))) a n_ubatch cur_idx q [] (a_used a) (n_used a);
  ubatch_add idxs 1 true (with_used_tokens nu us a).

(** * The C interface *)

Definition llama_batch_get_one (tokens : list Z) (n_tokens : nat) : llama_batch :=
  mkBatch n_tokens (Some tokens) None None None None None.

(** The loop of the callers: split until an empty ubatch comes back. *)
Fixpoint split_all (fuel : nat) (split : llama_batch_allocr -> option (llama_ubatch * llama_batch_allocr))
    (a : llama_batch_allocr) : option (list llama_ubatch * llama_batch_allocr) :=
  match fuel with
  | 0 => None
  | S fuel =>
      '(u, a) ← split a;
      if bool_decide (u_n_tokens u = 0) then Some ([], a) else
      '(us, a) ← split_all fuel split a;
      Some (u :: us, a)
  end.

(** * The state after a successful [init] *)

Definition seq_set_at (a : llama_batch_allocr) (i : nat) : gset Z := default ∅ (seq_set a !! i).

(** All arrays cover the batch, every token has valid ids, and the sequence sets
    and their index lists describe the ids. *)
Record ready (a : llama_batch_allocr) : Prop := {
  r_token  : forall tk, b_token (batch a) = Some tk -> get_n_tokens a <= length tk;
  r_embd   : forall e, b_embd (batch a) = Some e -> get_n_tokens a * n_embd a <= length e;
  r_pos    : exists p, b_pos (batch a) = Some p /\
               (match b_token (batch a) with Some _ => 1 | None => Nat.max 1 (n_pos_per_embd a) end) * get_n_tokens a <= length p;
  r_nseq   : forall i, i < get_n_tokens a -> is_Some (batch_n_seq_id i (batch a));
  r_logits : forall i, i < get_n_tokens a -> is_Some (batch_logits i (batch a));
  r_ids    : forall i, i < get_n_tokens a -> exists s0 ids, batch_ids i (batch a) = Some (s0 :: ids) /\
               batch_id0 i (batch a) = Some s0 /\ seq_set a !! i = Some (list_to_set (s0 :: ids)) /\
               Forall (fun s => 0 <= s < n_seq_max a)%Z (s0 :: ids);
  r_map    : forall q, set_idxs_of a q = filter (fun i => seq_set a !! i = Some q) (seq 0 (get_n_tokens a));
  r_max    : (n_seq_max a <= LLAMA_MAX_SEQ)%Z;
}.

(** [a'] is [a] up to the bookkeeping of the split. *)
Definition same_batch (a a' : llama_batch_allocr) : Prop :=
  exists ids nu us, a' = with_split ids nu us a.

Lemma same_batch_refl a : same_batch a a.
Proof. exists (out_ids a), (n_used a), (a_used a). by destruct a. Qed.

Lemma same_batch_trans a1 a2 a3 : same_batch a1 a2 -> same_batch a2 a3 -> same_batch a1 a3.
Proof. intros (i & n & u & ->) (i' & n' & u' & ->). by exists i', n', u'. Qed.

Lemma ready_same a a' : same_batch a a' -> ready a -> ready a'.
Proof. intros (i & n & u & ->) []. split; done. Qed.

(** ** Reading the batch at a list of indices *)

Lemma mapM_total {A B} (f : A -> option B) (l : list A) :
  (forall x, x ∈ l -> is_Some (f x)) -> exists l', mapM f l = Some l' /\ Forall2 (fun x y => f x = Some y) l l'.
Proof.
  intros H. destruct (mapM f l) as [l'|] eqn:E.
  - exists l'. split; [done|]. by apply mapM_Some.
  - apply mapM_None in E. apply Exists_exists in E as (x & Hx & Hn). destruct (H x Hx). congruence.
Qed.

Lemma bs_fold_ok ids q :
  Forall (fun s => 0 <= s < LLAMA_MAX_SEQ)%Z ids ->
  foldM (fun s q => bs_set q s) ids q = Some (list_to_set ids ∪ q).
Proof.
  revert q. induction ids as [|s ids IH]; intros q Hf; simpl.
  - by rewrite union_empty_l_L.
  - apply Forall_cons in Hf as [Hs Hf]. unfold bs_set, bs_ok. rewrite bool_decide_true by done. simpl.
    rewrite IH by done. f_equal. set_solver.
Qed.

Lemma bs_fold2_ok ids q :
  Forall (Forall (fun s => 0 <= s < LLAMA_MAX_SEQ)%Z) ids ->
  exists r, foldM (fun l q => foldM (fun s q => bs_set q s) l q) ids q = Some r /\
    forall s, s ∈ r <-> s ∈ q \/ exists l, l ∈ ids /\ s ∈ l.
Proof.
  revert q. induction ids as [|l ids IH]; intros q Hf; simpl.
  - exists q. split; [done|]. intros s. split; [by left|]. intros [?|(l & Hl & _)]; [done|by apply not_elem_of_nil in Hl].
  - apply Forall_cons in Hf as [Hs Hf]. rewrite bs_fold_ok by done. simpl. destruct (IH (list_to_set l ∪ q) Hf) as (r & -> & Hr).
    exists r. split; [done|]. intros s. rewrite Hr, elem_of_union, elem_of_list_to_set. split.
    + intros [[Hl|Hq]|(l' & Hl' & Hs')]; [right; exists l; split; [by left|done]|by left|right; exists l'; split; [by right|done]].
    + intros [Hq|(l' & [->|Hl']%elem_of_cons & Hs')]; [by left; right|by left; left|right; by exists l'].
Qed.

Lemma unq_step_ok unq s idx ids : (0 <= s < LLAMA_MAX_SEQ)%Z -> length idx = Z.to_nat LLAMA_MAX_SEQ ->
  unq_step unq s (idx, ids) = Some (if decide (s ∈ unq) then (<[Z.to_nat s := Z.of_nat (length ids)]> idx, ids ++ [s]) else (idx, ids)).
Proof.
  intros Hs Hl. unfold unq_step, bs_test, bs_ok. rewrite (bool_decide_true (0 <= s < LLAMA_MAX_SEQ)%Z) by done. simpl. case_decide as Hin.
  - rewrite bool_decide_true by done. rewrite set_at_ok by (unfold LLAMA_MAX_SEQ in *; lia). done.
  - by rewrite bool_decide_false by done.
Qed.

Lemma unq_fold_ok unq l : Forall (fun s => 0 <= s < LLAMA_MAX_SEQ)%Z l -> forall idx0 ids0, length idx0 = Z.to_nat LLAMA_MAX_SEQ ->
  exists idx, foldM (unq_step unq) l (idx0, ids0) = Some (idx, ids0 ++ filter (fun s => s ∈ unq) l).
Proof.
  induction 1 as [|s l Hs _ IH]; intros idx0 ids0 Hlen; cbn [foldM]; [exists idx0; by rewrite app_nil_r|].
  rewrite unq_step_ok by done. rewrite filter_cons. cbn [mbind option_bind]. case_decide as Hin; [|by apply IH].
  destruct (IH (<[Z.to_nat s := Z.of_nat (length ids0)]> idx0) (ids0 ++ [s])) as (idx & ->); [by rewrite length_insert|]. exists idx. by rewrite <- app_assoc.
Qed.

(** The fields of ubatch [u] are those of the batch at [idxs]. *)
Definition built (a : llama_batch_allocr) (u : llama_ubatch) (idxs : list nat) : Prop :=
  u_n_tokens u = length idxs /\
  (match b_token (batch a), u_token u with
   | Some tk, Some l => Forall2 (fun i t => tk !! i = Some t) idxs l
   | None, None => True
   | _, _ => False
   end) /\
  Forall2 (fun i ids => batch_ids i (batch a) = Some ids) idxs (u_seq_id u) /\
  Forall2 (fun i o => batch_logits i (batch a) = Some o) idxs (u_output u) /\
  Forall2 (fun i n => batch_n_seq_id i (batch a) = Some n) idxs (u_n_seq_id u) /\
  u_n_pos u = n_pos_per_embd a /\
  (NoDup (u_seq_id_unq u) /\ forall s, s ∈ u_seq_id_unq u <-> exists ids, ids ∈ u_seq_id u /\ s ∈ ids) /\
  (n_pos_per_embd a = 1 -> Forall2 (fun i p => batch_pos i (batch a) = Some p) idxs (u_pos u)).

(** The marked ones among [idxs]. *)
Definition outs_of (a : llama_batch_allocr) (idxs : list nat) : list nat :=
  filter (fun i => default 0%Z (batch_logits i (batch a)) <> 0%Z) idxs.

Lemma outs_of_app a l1 l2 : outs_of a (l1 ++ l2) = outs_of a l1 ++ outs_of a l2.
Proof. apply filter_app. Qed.

Lemma outs_zip a idxs out :
  Forall2 (fun i o => batch_logits i (batch a) = Some o) idxs out ->
  (filter (fun e : nat * Z => snd e <> 0%Z) (zip idxs out)).*1 = outs_of a idxs.
Proof.
  induction 1 as [|i o idxs out Ho _ IH]; [done|]. unfold outs_of in *. simpl.
  rewrite !filter_cons, Ho, <- IH. simpl. by case_decide.
Qed.

Lemma embd_row_ok n embd idx : (idx + 1) * n <= length embd -> is_Some (embd_row n embd idx).
Proof.
  intros H. unfold embd_row. rewrite bool_decide_true; [done|].
  rewrite length_take, length_drop. nia.
Qed.

Lemma ubatch_add_ok a idxs n_seqs eq :
  ready a -> (forall i, i ∈ idxs -> i < get_n_tokens a) -> n_seqs <> 0 -> length idxs mod n_seqs = 0 ->
  exists u, ubatch_add idxs n_seqs eq a = Some (u, with_split (out_ids a ++ outs_of a idxs) (n_used a) (a_used a) a) /\
    built a u idxs /\ u_n_seqs u = n_seqs /\ u_equal_seqs u = eq /\ u_n_seq_tokens u = length idxs / n_seqs.
Proof.
  intros Hr Hin Hns Hmod. unfold ubatch_add. rewrite bool_decide_false by (intros [?|?]; done).
  assert (exists tok, (match b_token (batch a) with
    | None => Some None
    | Some tk => l ← mapM (fun i => tk !! i) idxs; Some (Some l) end) = Some tok /\
    match b_token (batch a), tok with
    | Some tk, Some l => Forall2 (fun i t => tk !! i = Some t) idxs l
    | None, None => True | _, _ => False end) as (tok & -> & Htok).
  { destruct (b_token (batch a)) as [tk|] eqn:E; [|by eexists].
    destruct (mapM_total (fun i => tk !! i) idxs) as (l & -> & ?); [|by eexists].
    intros i Hi. apply lookup_lt_is_Some. pose proof (r_token a Hr tk E). specialize (Hin i Hi). lia. }
  simpl.
  assert (exists em, (match b_embd (batch a) with
    | None => Some None
    | Some e => l ← mapM (embd_row (n_embd a) e) idxs; Some (Some (concat l)) end) = Some em) as (em & ->).
  { destruct (b_embd (batch a)) as [e|] eqn:E; [|by eexists].
    destruct (mapM_total (embd_row (n_embd a) e) idxs) as (l & -> & ?); [|by eexists].
    intros i Hi. apply embd_row_ok. pose proof (r_embd a Hr e E). specialize (Hin i Hi). nia. }
  simpl.
  assert (forall j i, i ∈ idxs -> j < n_pos_per_embd a ->
    is_Some (batch_pos (match b_token (batch a) with Some _ => 0 | None => j * b_n_tokens (batch a) end + i) (batch a))) as Hpos.
  { intros j i Hi Hj. destruct (r_pos a Hr) as (p & Hp & Hlen). unfold batch_pos. rewrite Hp. simpl.
    apply lookup_lt_is_Some. specialize (Hin i Hi). unfold get_n_tokens in *.
    revert Hlen. destruct (b_token (batch a)); intros Hlen; [lia|].
    assert (j + 1 <= Nat.max 1 (n_pos_per_embd a)) as Hj' by lia.
    apply (Nat.mul_le_mono_r _ _ (b_n_tokens (batch a))) in Hj'. lia. }
  match goal with |- context [mapM ?f (seq 0 (n_pos_per_embd a))] =>
    destruct (mapM_total f (seq 0 (n_pos_per_embd a))) as (pos & -> & HFpos) end.
  { intros j [_ Hj]%elem_of_seq.
    edestruct (mapM_total (fun i => batch_pos (match b_token (batch a) with Some _ => 0 | None => j * b_n_tokens (batch a) end + i) (batch a)) idxs)
      as (l & -> & _); [|done]. intros i Hi. by apply Hpos. }
  simpl.
  destruct (mapM_total (fun i => batch_n_seq_id i (batch a)) idxs) as (ns & -> & Hns').
  { intros i Hi. apply (r_nseq a Hr). auto. }
  simpl. destruct (mapM_total (fun i => batch_logits i (batch a)) idxs) as (out & -> & Hout).
  { intros i Hi. apply (r_logits a Hr). auto. }
  simpl. destruct (mapM_total (fun i => batch_ids i (batch a)) idxs) as (ids & -> & Hids).
  { intros i Hi. destruct (r_ids a Hr i) as (? & ? & -> & _); [auto|done]. }
  assert (Forall (Forall (fun s => 0 <= s < n_seq_max a)%Z) ids) as Hrange.
  { rewrite Forall_forall. intros l Hl. apply list_elem_of_lookup in Hl as [k Hk].
    destruct (Forall2_lookup_r _ _ _ _ _ Hids Hk) as (i & Hi & Hb). apply list_elem_of_lookup_2 in Hi.
    destruct (r_ids a Hr i) as (s0 & l' & Hb' & _ & _ & Hf); [auto|]. by simplify_eq. }
  pose proof (r_max a Hr) as Hmax. simpl. destruct (bs_fold2_ok ids ∅) as (unq & -> & Hunq).
  { eapply Forall_impl; [exact Hrange|]. intros l Hf. eapply Forall_impl; [exact Hf|]. intros s Hs. simpl in Hs. lia. }
  simpl. destruct (unq_fold_ok unq (seqZ 0 (n_seq_max a))) with (idx0 := seq_idx0) (ids0 := @nil Z) as (idx & ->);
    [apply Forall_forall; intros s Hs%elem_of_seqZ; lia|apply length_seq_idx0|]. simpl.
  eexists. split; [by rewrite (outs_zip a idxs out Hout)|]. split; [|done].
  unfold built. simpl. split_and!; [done|done|done|done|done|done| | |].
  { apply NoDup_filter, NoDup_seqZ. }
  { intros s. rewrite list_elem_of_filter, Hunq, elem_of_seqZ. split; [intros [[?%not_elem_of_empty|?] _]; done|].
    intros (l & Hl & Hs). split; [right; by exists l|]. rewrite Forall_forall in Hrange. specialize (Hrange l Hl). rewrite Forall_forall in Hrange. specialize (Hrange s Hs). simpl in Hrange. lia. }
  intros H1. rewrite H1 in HFpos. simpl in HFpos. inversion HFpos as [|? y ? ? Hy Hnil]; subst. inversion Hnil; subst.
  simpl. rewrite app_nil_r. apply mapM_Some in Hy. eapply Forall2_impl; [exact Hy|]. intros i p Hp.
  by destruct (b_token (batch a)).
Qed.

(** * Runs of a split *)

(** [us'] is [us] with the indices [idxs] set. *)
Definition marked (us : list bool) (idxs : list nat) (us' : list bool) : Prop :=
  length us' = length us /\
  forall i, us' !! i = if decide (i ∈ idxs) then const true <$> us !! i else us !! i.

Lemma marked_nil us : marked us [] us.
Proof. split; [done|]. intros i. by rewrite decide_False by apply not_elem_of_nil. Qed.

Lemma marked_app us l1 us1 l2 us2 : marked us l1 us1 -> marked us1 l2 us2 -> marked us (l1 ++ l2) us2.
Proof.
  intros [Hl1 H1] [Hl2 H2]. split; [congruence|]. intros i. rewrite H2, H1.
  pose proof (elem_of_app l1 l2 i) as Happ.
  destruct (decide (i ∈ l1)), (decide (i ∈ l2)), (decide (i ∈ l1 ++ l2)); try tauto; by destruct (us !! i).
Qed.

Lemma marked_one us i : i < length us -> set_at i true us = Some (<[i:=true]> us) /\ marked us [i] (<[i:=true]> us).
Proof.
  intros Hi. rewrite set_at_ok by done. split; [done|]. split; [apply length_insert|].
  intros j. case_decide as Hd.
  - apply list_elem_of_singleton in Hd as ->. rewrite list_lookup_insert_eq by done.
    by apply lookup_lt_is_Some in Hi as [x ->].
  - rewrite list_lookup_insert_ne; [done|]. intros ->. apply Hd. by left.
Qed.

Definition unused (us : list bool) : list nat :=
  filter (fun i => us !! i = Some false) (seq 0 (length us)).

Lemma elem_of_unused us i : i ∈ unused us <-> us !! i = Some false.
Proof.
  unfold unused. rewrite list_elem_of_filter, elem_of_seq. split; [by intros [? _]|].
  intros H. split; [done|]. apply lookup_lt_Some in H. lia.
Qed.

Lemma NoDup_unused us : NoDup (unused us).
Proof. apply NoDup_filter, NoDup_seq. Qed.

Lemma unused_marked us idxs us' :
  NoDup idxs -> (forall i, i ∈ idxs -> us !! i = Some false) -> marked us idxs us' ->
  unused us ≡ₚ idxs ++ unused us'.
Proof.
  intros Hnd Hin [_ Hm]. apply NoDup_Permutation; [apply NoDup_unused| |].
  - apply NoDup_app. split_and!; [done| |apply NoDup_unused].
    intros i Hi. rewrite elem_of_unused, Hm, decide_True by done. rewrite Hin by done. done.
  - intros i. rewrite elem_of_app, !elem_of_unused, Hm. case_decide as Hd; [|tauto].
    specialize (Hin i Hd). rewrite Hin. naive_solver.
Qed.

(** The same tokens, in the same order if [ordered]. *)
Definition same_tokens (ordered : bool) (l l' : list nat) : Prop := if ordered then l = l' else l ≡ₚ l'.

Lemma same_tokens_perm o l l' : same_tokens o l l' -> l ≡ₚ l'.
Proof. destruct o; [by intros ->|done]. Qed.

Lemma same_tokens_app o l l1 l1' l2 : same_tokens o l (l1 ++ l1') -> same_tokens o l1' l2 -> same_tokens o l (l1 ++ l2).
Proof. destruct o; simpl; [by intros -> ->|by intros -> ->]. Qed.

(** What one call of a split promises: it ends the run when every token is used,
    and otherwise hands out fresh tokens, at most [bound] of them, in the
    [shape] of the split. *)
Definition step_spec (o : bool) (I : llama_batch_allocr -> Prop) (bound : nat)
    (shape : llama_batch_allocr -> llama_ubatch -> list nat -> Prop)
    (split : llama_batch_allocr -> option (llama_ubatch * llama_batch_allocr)) : Prop :=
  forall a, ready a -> length (a_used a) = get_n_tokens a -> I a ->
  (unused (a_used a) = [] /\ split a = Some (ubatch_empty, a)) \/
  exists idxs u a', split a = Some (u, a') /\ idxs <> [] /\ length idxs <= bound /\ NoDup idxs /\
    (forall i, i ∈ idxs -> a_used a !! i = Some false) /\ marked (a_used a) idxs (a_used a') /\
    same_tokens o (unused (a_used a)) (idxs ++ unused (a_used a')) /\
    n_used a' = n_used a + length idxs /\ out_ids a' = out_ids a ++ outs_of a idxs /\
    same_batch a a' /\ built a u idxs /\ shape a u idxs /\ I a'.

(** What a whole run promises. *)
Definition run_ok (o : bool) (a : llama_batch_allocr) (bound : nat)
    (shape : llama_batch_allocr -> llama_ubatch -> list nat -> Prop)
    (us : list llama_ubatch) (a' : llama_batch_allocr) (idxss : list (list nat)) : Prop :=
  Forall2 (built a) us idxss /\ Forall2 (shape a) us idxss /\ same_tokens o (unused (a_used a)) (concat idxss) /\
  Forall (fun l => l <> [] /\ length l <= bound) idxss /\
  n_used a' = n_used a + length (unused (a_used a)) /\
  out_ids a' = out_ids a ++ outs_of a (concat idxss) /\ same_batch a a' /\ unused (a_used a') = [].

Lemma built_same a a' u idxs : same_batch a a' -> built a' u idxs -> built a u idxs.
Proof. by intros (i & n & us & ->). Qed.

Lemma outs_same a a' idxs : same_batch a a' -> outs_of a' idxs = outs_of a idxs.
Proof. by intros (i & n & us & ->). Qed.

Lemma split_all_ok o I bound shape split : step_spec o I bound shape split ->
  (forall a ids nu us u l, shape (with_split ids nu us a) u l -> shape a u l) -> forall fuel a,
  ready a -> length (a_used a) = get_n_tokens a -> I a -> length (unused (a_used a)) < fuel ->
  exists us a' idxss, split_all fuel split a = Some (us, a') /\ run_ok o a bound shape us a' idxss.
Proof.
  intros Hstep Hshape. induction fuel as [|fuel IH]; intros a Hr Hlen HI Hf; [lia|]. simpl.
  destruct (Hstep a Hr Hlen HI)
    as [[Hu ->]|(idxs & u & a1 & -> & Hne & Hb & Hnd & Hfree & Hm & Hst & Hnu & Ho & Hs & Hbu & Hsh & HI1)].
  - simpl. eexists [], a, []. split; [done|]. split_and!; try done.
    + rewrite Hu. by destruct o.
    + rewrite Hu. simpl. lia.
    + simpl. unfold outs_of. simpl. by rewrite app_nil_r.
    + apply same_batch_refl.
  - simpl. rewrite bool_decide_false by (destruct Hbu as [-> _]; destruct idxs; done).
    assert (length (unused (a_used a)) = length idxs + length (unused (a_used a1))) as Hcount.
    { by rewrite (same_tokens_perm _ _ _ Hst), length_app. }
    destruct (IH a1) as (us & a2 & idxss & -> & H1 & H1' & H2 & H3 & H4 & H5 & H6 & H7).
    + by apply (ready_same a).
    + destruct Hm as [-> _]. destruct Hs as (? & ? & ? & ->). done.
    + done.
    + destruct idxs; [done|]. simpl in *. lia.
    + simpl. eexists _, _, (idxs :: idxss). split; [reflexivity|]. split_and!.
      * constructor; [done|]. eapply Forall2_impl; [exact H1|]. intros u' l. by apply built_same.
      * constructor; [done|]. eapply Forall2_impl; [exact H1'|]. intros u' l.
        destruct Hs as (? & ? & ? & ->). apply Hshape.
      * simpl. by eapply same_tokens_app.
      * by constructor.
      * lia.
      * rewrite H5, Ho. simpl. rewrite outs_of_app, app_assoc. by rewrite (outs_same a a1).
      * by eapply same_batch_trans.
      * done.
Qed.

(** After [split_reset] every token is unused. *)
Lemma unused_reset a : unused (a_used (split_reset a)) = seq 0 (get_n_tokens a).
Proof.
  unfold split_reset, unused. simpl. rewrite length_replicate.
  apply filter_all. apply Forall_forall. intros i [_ Hi]%elem_of_seq. apply lookup_replicate. split; [done|lia].
Qed.

(** ** [split_simple] *)

(** Exactly the first [k] of [n] flags are set. *)
Definition pfx (us : list bool) (n k : nat) : Prop :=
  length us = n /\ k <= n /\ forall i, i < n -> us !! i = Some (bool_decide (i < k)).

Lemma skip_used_pfx us n k : pfx us n k -> skip_used us = k.
Proof.
  revert n k. induction us as [|u us IH]; intros n k (Hl & Hk & H); simpl in *.
  - lia.
  - pose proof (H 0 ltac:(lia)) as H0. simpl in H0. injection H0 as ->.
    destruct k as [|k]; [done|]. rewrite bool_decide_true by lia. f_equal.
    apply (IH (n - 1)). split_and!; [lia|lia|]. intros i Hi. specialize (H (S i) ltac:(lia)). simpl in H. rewrite H.
    f_equal. apply bool_decide_ext. lia.
Qed.

Lemma pfx_next us n k : pfx us n k -> k < n -> pfx (<[k:=true]> us) n (S k).
Proof.
  intros (Hl & Hk & H) Hlt. split_and!; [by rewrite length_insert|lia|]. intros i Hi.
  destruct (decide (i = k)) as [->|Hne].
  - rewrite list_lookup_insert_eq by lia. by rewrite bool_decide_true by lia.
  - rewrite list_lookup_insert_ne, H by done. f_equal. apply bool_decide_ext. lia.
Qed.

Lemma pfx_unused us n k : pfx us n k -> unused us = [] <-> n <= k.
Proof.
  intros (Hl & Hk & H). split.
  - intros Hu. destruct (decide (n <= k)) as [|Hlt]; [done|]. exfalso.
    assert (k ∈ unused us) as Hin.
    { apply elem_of_unused. rewrite H by lia. by rewrite bool_decide_false by lia. }
    rewrite Hu in Hin. by apply not_elem_of_nil in Hin.
  - intros Hle. apply elem_of_nil_inv. intros i Hi%elem_of_unused.
    pose proof (lookup_lt_Some _ _ _ Hi) as Hlt. rewrite H in Hi by lia. rewrite bool_decide_true in Hi by lia. done.
Qed.

Lemma simple_loop_ok n n_ubatch : forall fuel k idxs us nu, pfx us n k -> k < n -> n - k < fuel ->
  exists m us', simple_loop fuel n_ubatch k idxs us nu = Some (idxs ++ seq k m, us', nu + m) /\
    pfx us' n (k + m) /\ marked us (seq k m) us' /\
    0 < m /\ length idxs + m <= Nat.max (length idxs + 1) n_ubatch.
Proof.
  induction fuel as [|fuel IH]; intros k idxs us nu Hp Hk Hf; [lia|]. simpl.
  pose proof Hp as (Hl & _ & _). destruct (marked_one us k) as [-> Hm]; [lia|]. cbn [mbind option_bind].
  pose proof (pfx_next us n k Hp Hk) as Hp1. pose proof Hp1 as (Hl1 & _ & _).
  case_bool_decide as Hend; [|case_bool_decide as Hub].
  - exists 1. eexists. rewrite !Nat.add_1_r. simpl. split_and!; [done|done|done|lia|lia].
  - exists 1. eexists. rewrite !Nat.add_1_r. simpl. split_and!; [done|done|done|lia|lia].
  - destruct (IH (S k) (idxs ++ [k]) _ (S nu) Hp1) as (m & us' & Heq & Hp' & Hm' & Hpos & Hb); [lia|lia|].
    rewrite length_app in *. simpl in *. exists (S m), us'. split_and!; [|by rewrite Nat.add_succ_r| |lia|lia].
    + rewrite Heq, <- app_assoc. simpl. by rewrite Nat.add_succ_r.
    + simpl. apply (marked_app _ [k] _ (seq (S k) m) _ Hm Hm').
Qed.

(** The common end of the three splits: fresh tokens [idxs] were marked, the
    ubatch is built from them. *)
Lemma finish_step o I bound (shape : _ -> _ -> _ -> Prop) a idxs us n_seqs eq :
  ready a -> length (a_used a) = get_n_tokens a -> n_seqs <> 0 -> length idxs mod n_seqs = 0 ->
  idxs <> [] -> length idxs <= bound -> NoDup idxs ->
  (forall i, i ∈ idxs -> a_used a !! i = Some false) -> marked (a_used a) idxs us ->
  (o = true -> unused (a_used a) = idxs ++ unused us) ->
  (forall u, u_n_seqs u = n_seqs -> u_equal_seqs u = eq -> u_n_seq_tokens u = length idxs / n_seqs -> shape a u idxs) ->
  I (with_split (out_ids a ++ outs_of a idxs) (n_used a + length idxs) us a) ->
  exists u a', ubatch_add idxs n_seqs eq (with_used_tokens (n_used a + length idxs) us a) = Some (u, a') /\
    idxs <> [] /\ length idxs <= bound /\ NoDup idxs /\
    (forall i, i ∈ idxs -> a_used a !! i = Some false) /\ marked (a_used a) idxs (a_used a') /\
    same_tokens o (unused (a_used a)) (idxs ++ unused (a_used a')) /\
    n_used a' = n_used a + length idxs /\ out_ids a' = out_ids a ++ outs_of a idxs /\
    same_batch a a' /\ built a u idxs /\ shape a u idxs /\ I a'.
Proof.
  intros Hr Hlen Hns Hmod Hne Hb Hnd Hfree Hm Ho Hsh HI.
  destruct (ubatch_add_ok (with_used_tokens (n_used a + length idxs) us a) idxs n_seqs eq)
    as (u & -> & Hbu & ? & ? & ?); [| |done|done|].
  - apply (ready_same a); [|done]. by eexists _, _, _.
  - intros i Hi%Hfree. apply lookup_lt_Some in Hi. change (i < get_n_tokens a). lia.
  - eexists _, _. split; [reflexivity|]. split_and!; try done; [|by eexists _, _, _|by apply Hsh].
    destruct o; simpl; [by apply Ho|by apply unused_marked].
Qed.

(** One ubatch of [split_simple] has a sequence set per token. *)
Definition simple_shape (a : llama_batch_allocr) (u : llama_ubatch) (idxs : list nat) : Prop :=
  u_equal_seqs u = false /\ u_n_seqs u = length idxs /\ u_n_seq_tokens u = 1.

Lemma pfx_unused_seq us n k : pfx us n k -> unused us = seq k (n - k).
Proof.
  intros (Hl & Hk & H). unfold unused. rewrite Hl. replace n with (k + (n - k)) at 1 by lia.
  rewrite seq_app, filter_app. simpl.
  assert (filter (fun i => us !! i = Some false) (seq 0 k) = []) as ->.
  { apply elem_of_nil_inv. intros i [Hu [_ Hi]%elem_of_seq]%list_elem_of_filter.
    rewrite H in Hu by lia. by rewrite bool_decide_true in Hu by lia. }
  apply filter_all, Forall_forall. intros i [? ?]%elem_of_seq. rewrite H by lia. by rewrite bool_decide_false by lia.
Qed.

Lemma split_simple_step n_ubatch :
  step_spec true (fun a => exists k, pfx (a_used a) (get_n_tokens a) k) (Nat.max 1 n_ubatch) simple_shape (split_simple n_ubatch).
Proof.
  intros a Hr Hlen [k Hp]. unfold split_simple. rewrite (skip_used_pfx _ _ _ Hp), Hlen.
  case_bool_decide as Hend; [left; split; [by eapply pfx_unused|done]|].
  right. destruct (simple_loop_ok (get_n_tokens a) n_ubatch (S (get_n_tokens a)) k [] (a_used a) (n_used a) Hp)
    as (m & us' & -> & Hp' & Hm & Hpos & Hb); [lia|lia|]. simpl.
  pose proof Hp' as (_ & Hkm & _). pose proof Hp as (_ & _ & Hlk).
  destruct (finish_step true (fun a => exists k, pfx (a_used a) (get_n_tokens a) k) (Nat.max 1 n_ubatch) simple_shape
    a (seq k m) us' (length (seq k m)) false) as (u & a' & Hadd & Hrest); try done.
  - rewrite length_seq. lia.
  - by apply Nat.Div0.mod_same.
  - destruct m; done || lia.
  - rewrite length_seq. simpl in Hb. lia.
  - apply NoDup_seq.
  - intros i [? ?]%elem_of_seq. rewrite Hlk by lia. by rewrite bool_decide_false by lia.
  - intros _. rewrite (pfx_unused_seq _ _ _ Hp), (pfx_unused_seq _ _ _ Hp'), <- seq_app. f_equal. lia.
  - intros u H1 H2 H3. split_and!; [done..|]. rewrite H3, Nat.div_same; [done|]. rewrite length_seq. lia.
  - by exists (k + m).
  - rewrite !length_seq in *. exists (seq k m), u, a'. rewrite !length_seq. by split.
Qed.

(** ** [split_seq] *)

Lemma skip_used_spec us :
  (forall i, i < skip_used us -> us !! i = Some true) /\
  (skip_used us < length us -> us !! skip_used us = Some false).
Proof.
  induction us as [|[] us [IH1 IH2]]; simpl.
  - split; [lia|lia].
  - split; [intros [|i] Hi; [done|apply IH1; lia]|intros H; apply IH2; lia].
  - split; [lia|done].
Qed.

Lemma unused_nil us : (forall i, i < length us -> us !! i = Some true) -> unused us = [].
Proof.
  intros H. apply elem_of_nil_inv. intros i Hi%elem_of_unused.
  rewrite (H i) in Hi by (by eapply lookup_lt_Some). done.
Qed.

Lemma next_subset_ok a us cur : ready a -> length us = get_n_tokens a -> forall fuel i,
  i < get_n_tokens a -> get_n_tokens a - i < fuel ->
  exists j, next_subset fuel a us cur i = Some j /\ i < j <= get_n_tokens a /\
    (j < get_n_tokens a -> us !! j = Some false /\ exists q, seq_set a !! j = Some q /\ q ⊆ cur).
Proof.
  intros Hr Hlen. induction fuel as [|fuel IH]; intros i Hi Hf; [lia|]. cbn [next_subset].
  case_bool_decide as Hend; [exists (S i); split_and!; [done|lia..]|].
  destruct (lookup_lt_is_Some_2 us (S i)) as [u Hu]; [lia|]. rewrite Hu. cbn [mbind option_bind].
  destruct u.
  - destruct (IH (S i)) as (j & -> & ? & ?); [lia|lia|]. exists j. split_and!; [done|lia|lia|done].
  - destruct (r_ids a Hr (S i)) as (s0 & ids & _ & _ & Hq & _); [lia|]. rewrite Hq. cbn [mbind option_bind].
    case_bool_decide as Hsub.
    + destruct (IH (S i)) as (j & -> & ? & ?); [lia|lia|]. exists j. split_and!; [done|lia|lia|done].
    + exists (S i). split_and!; [done|lia|lia|]. intros _. split; [done|]. eexists. split; [done|].
      apply subseteq_intersection_2_L. by rewrite (comm_L (∩)).
Qed.

(** From one token to the next the index grows and the sequence set shrinks. *)
Definition narrows (a : llama_batch_allocr) (i j : nat) : Prop := i < j /\ seq_set_at a j ⊆ seq_set_at a i.

Definition seq_shape (a : llama_batch_allocr) (u : llama_ubatch) (idxs : list nat) : Prop :=
  u_equal_seqs u = true /\ u_n_seqs u = 1 /\ u_n_seq_tokens u = length idxs /\ Sorted (narrows a) idxs.

Lemma seq_loop_ok a n_ubatch : ready a -> forall fuel i cur idxs us nu,
  length us = get_n_tokens a -> us !! i = Some false -> seq_set a !! i = Some cur -> length (unused us) < fuel ->
  exists l us', seq_loop fuel a n_ubatch i cur idxs us nu = Some (idxs ++ i :: l, us', nu + length (i :: l)) /\
    NoDup (i :: l) /\ (forall j, j ∈ i :: l -> us !! j = Some false) /\ marked us (i :: l) us' /\
    length idxs + length (i :: l) <= Nat.max (length idxs + 1) n_ubatch /\ Sorted (narrows a) (i :: l).
Proof.
  intros Hr. induction fuel as [|fuel IH]; intros i cur idxs us nu Hlen Hi Hcur Hf; [lia|]. cbn [seq_loop].
  pose proof (lookup_lt_Some _ _ _ Hi) as Hlt.
  destruct (marked_one us i Hlt) as [-> Hm]. cbn [mbind option_bind].
  assert (length (<[i:=true]> us) = get_n_tokens a) as Hlen1 by (by rewrite length_insert).
  assert (unused us ≡ₚ [i] ++ unused (<[i:=true]> us)) as Hperm.
  { apply unused_marked; [apply NoDup_singleton| |done]. by intros j ->%list_elem_of_singleton. }
  assert (exists l us', Some (idxs ++ [i], <[i:=true]> us, S nu) = Some (idxs ++ i :: l, us', nu + length (i :: l)) /\
    NoDup (i :: l) /\ (forall j, j ∈ i :: l -> us !! j = Some false) /\ marked us (i :: l) us' /\
    length idxs + length (i :: l) <= Nat.max (length idxs + 1) n_ubatch /\ Sorted (narrows a) (i :: l)) as Hstop.
  { exists [], (<[i:=true]> us). simpl. rewrite Nat.add_1_r.
    split_and!; [done|apply NoDup_singleton| |done|lia|by repeat constructor].
    by intros j ->%list_elem_of_singleton. }
  case_bool_decide as Hub; [done|].
  destruct (next_subset_ok a (<[i:=true]> us) cur Hr Hlen1 (S (get_n_tokens a)) i) as (j & -> & Hij & Hj); [lia|lia|].
  cbn [mbind option_bind]. case_bool_decide as Hend; [done|].
  destruct Hj as (Hfree & q & Hq & Hsub); [lia|]. rewrite Hq. cbn [mbind option_bind].
  destruct (IH j q (idxs ++ [i]) (<[i:=true]> us) (S nu)) as (l & us' & -> & Hnd & Hl & Hm' & Hb & Hs); [done|done|done| |].
  { rewrite Hperm in Hf. simpl in Hf. lia. }
  rewrite length_app in *. cbn [length] in *.
  assert (i ∉ j :: l) as Hil.
  { intros H. specialize (Hl i H). rewrite list_lookup_insert_eq in Hl by done. done. }
  exists (j :: l), us'. split_and!.
  - rewrite <- app_assoc. cbn [length app]. by rewrite (Nat.add_succ_r nu).
  - by constructor.
  - intros k [->|Hk]%elem_of_cons; [done|]. specialize (Hl k Hk).
    rewrite list_lookup_insert_ne in Hl; [done|]. by intros ->.
  - apply (marked_app _ [i] _ (j :: l) _ Hm Hm').
  - cbn [length]. lia.
  - constructor; [done|]. constructor. split; [lia|]. unfold seq_set_at. by rewrite Hq, Hcur.
Qed.

Lemma split_seq_step n_ubatch : step_spec false (fun _ => True) (Nat.max 1 n_ubatch) seq_shape (split_seq n_ubatch).
Proof.
  intros a Hr Hlen _. unfold split_seq. destruct (skip_used_spec (a_used a)) as [Hall Hfirst].
  case_bool_decide as Hend.
  - left. split; [|done]. apply unused_nil. intros i Hi. apply Hall. lia.
  - right. set (k := skip_used (a_used a)) in *.
    destruct (r_ids a Hr k) as (s0 & ids & _ & _ & Hset & _); [lia|]. rewrite Hset. cbn [mbind option_bind].
    destruct (seq_loop_ok a n_ubatch Hr (S (length (a_used a))) k (list_to_set (s0 :: ids)) []
      (a_used a) (n_used a)) as (l & us' & Heq & Hnd & Hl & Hm & Hb & Hs); [done|by apply Hfirst; lia|done| |].
    { unfold unused. pose proof (length_filter (fun i => a_used a !! i = Some false) (seq 0 (length (a_used a)))) as Hf.
      rewrite length_seq in Hf. lia. }
    rewrite Heq. simpl app.
    destruct (finish_step false (fun _ => True) (Nat.max 1 n_ubatch) seq_shape a (k :: l) us' 1 true)
      as (u & a' & Hadd & Hrest); try done.
    { intros u H1 H2 H3. split_and!; [done..| |done]. by rewrite H3, Nat.div_1_r. }
    by exists (k :: l), u, a'.
Qed.

(** ** [split_equal] *)

Lemma elem_set_idxs a q i : ready a ->
  i ∈ set_idxs_of a q <-> i < get_n_tokens a /\ seq_set a !! i = Some q.
Proof.
  intros Hr. rewrite (r_map a Hr), list_elem_of_filter, elem_of_seq. split; [intros [? [_ ?]]; split; [lia|done]|].
  intros [? ?]. split; [done|lia].
Qed.

Lemma NoDup_set_idxs a q : ready a -> NoDup (set_idxs_of a q).
Proof. intros Hr. rewrite (r_map a Hr). apply NoDup_filter, NoDup_seq. Qed.

(** The used tokens of sequence set [q] are the first [k] of its index list. *)
Definition mono (a : llama_batch_allocr) (us : list bool) (q : gset Z) (k : nat) : Prop :=
  k <= length (set_idxs_of a q) /\
  forall j i, set_idxs_of a q !! j = Some i -> us !! i = Some (bool_decide (j < k)).

Definition all_mono (a : llama_batch_allocr) : Prop := forall q, exists k, mono a (a_used a) q k.

Definition disjoint_sets (sets : list (gset Z)) : Prop :=
  forall j k q q', sets !! j = Some q -> sets !! k = Some q' -> j <> k -> q ∩ q' = ∅.

Lemma disjoint_snoc sets q : disjoint_sets sets -> (forall c, c ∈ sets -> c ∩ q = ∅) -> disjoint_sets (sets ++ [q]).
Proof.
  intros Hd Hq j k x y Hj Hk Hne. rewrite lookup_app in Hj, Hk.
  destruct (sets !! j) as [x'|] eqn:Ej, (sets !! k) as [y'|] eqn:Ek.
  - simplify_eq. eauto.
  - simplify_eq. apply list_lookup_singleton_Some in Hk as [_ ->]. apply Hq. by eapply list_elem_of_lookup_2.
  - simplify_eq. apply list_lookup_singleton_Some in Hj as [_ ->]. rewrite (comm_L (∩)). apply Hq. by eapply list_elem_of_lookup_2.
  - apply list_lookup_singleton_Some in Hj as [Hj _]. apply list_lookup_singleton_Some in Hk as [Hk _].
    apply lookup_ge_None in Ej. apply lookup_ge_None in Ek. lia.
Qed.

(** A set picked for the next ubatch still has an unused token. *)
Definition has_unused (a : llama_batch_allocr) (q : gset Z) : Prop :=
  exists i, i < get_n_tokens a /\ a_used a !! i = Some false /\ seq_set a !! i = Some q.

Lemma pick_sets_ok a n_ubatch sequential : ready a -> length (a_used a) = get_n_tokens a ->
  forall l cur last, (forall i, i ∈ l -> i < get_n_tokens a) ->
  length cur <= n_ubatch -> disjoint_sets cur -> Forall (has_unused a) cur ->
  exists sets, pick_sets a n_ubatch sequential l cur last = Some sets /\
    length sets <= n_ubatch + 1 /\ disjoint_sets sets /\ Forall (has_unused a) sets /\ cur `prefix_of` sets /\
    (cur = [] -> (exists i, i ∈ l /\ a_used a !! i = Some false) -> sets <> []).
Proof.
  intros Hr Hlen. induction l as [|i l IH]; intros cur last Hl Hc Hd Hh; cbn [pick_sets].
  - exists cur. split_and!; [done|lia|done|done|done|]. intros _ (i & Hi & _). by apply not_elem_of_nil in Hi.
  - assert (i < get_n_tokens a) as Hi by (apply Hl; by left).
    assert (forall i', i' ∈ l -> i' < get_n_tokens a) as Hl' by (intros i' ?; apply Hl; by right).
    destruct (lookup_lt_is_Some_2 (a_used a) i) as [u Hu]; [lia|]. rewrite Hu. cbn [mbind option_bind].
    destruct u.
    + destruct (IH cur last Hl' Hc Hd Hh) as (sets & -> & H1 & H2 & H3 & H4 & H5).
      exists sets. split_and!; try done. intros Hnil (i' & Hi' & Hf). apply (H5 Hnil).
      apply elem_of_cons in Hi' as [->|Hi']; [congruence|by exists i'].
    + destruct (r_ids a Hr i Hi) as (s0 & ids & _ & Hid0 & Hset & _). rewrite Hset. cbn [mbind option_bind].
      set (q := list_to_set (s0 :: ids) : gset Z) in *.
      set (add0 := forallb (fun c : gset Z => bool_decide (c ∩ q = ∅)) cur).
      assert (exists add : bool, (if sequential then
               match add0, cur with
               | true, _ :: _ => s0 ← batch_id0 i (batch a); Some (bool_decide (s0 = last + 1)%Z)
               | _, _ => Some add0 end else Some add0) = Some add /\
               (add = true -> forall c, c ∈ cur -> c ∩ q = ∅) /\ (cur = [] -> add = true)) as (add & -> & Hadd & Hnil).
      { assert (add0 = true -> forall c, c ∈ cur -> c ∩ q = ∅) as Hf.
        { intros H c Hc'%list_elem_of_In. unfold add0 in H. rewrite forallb_forall in H.
          specialize (H c Hc'). by apply bool_decide_eq_true in H. }
        rewrite Hid0. destruct sequential, add0 eqn:Ea, cur as [|c0 cur']; simpl; eexists; (split; [reflexivity|]); split; try done;
          try (intros _; by apply Hf). }
      cbn [mbind option_bind]. destruct add.
      * rewrite Hid0. cbn [mbind option_bind].
        assert (has_unused a q) as Hq by (by exists i).
        assert (disjoint_sets (cur ++ [q])) as Hd' by (apply disjoint_snoc; auto).
        assert (Forall (has_unused a) (cur ++ [q])) as Hh' by (apply Forall_app; split; [done|by constructor]).
        case_bool_decide as Hub.
        -- exists (cur ++ [q]). rewrite length_app in *. simpl in *. split_and!; [done|lia|done|done|by eexists|]. by destruct cur.
        -- destruct (IH (cur ++ [q]) s0 Hl') as (sets & -> & H1 & H2 & H3 & H4 & H5); [lia|done|done|].
           exists sets. split_and!; try done.
           ++ etransitivity; [by apply prefix_app_r|done].
           ++ intros _ _ ->. apply prefix_nil_inv in H4. by destruct cur.
      * destruct (IH cur last Hl' Hc Hd Hh) as (sets & -> & H1 & H2 & H3 & H4 & H5).
        exists sets. split_and!; try done. intros ->. by specialize (Hnil eq_refl).
Qed.

Lemma first_unused_ok us L k :
  (forall j i, L !! j = Some i -> us !! i = Some (bool_decide (j < k))) -> k < length L -> first_unused us L = Some k.
Proof.
  revert k. induction L as [|i L IH]; intros k H Hk; simpl in *; [lia|].
  rewrite (H 0 i) by done. simpl. destruct k as [|k]; [done|]. rewrite bool_decide_true by lia.
  rewrite (IH k); [done| |lia]. intros j i' Hj. rewrite (H (S j) i') by done. f_equal. apply bool_decide_ext. lia.
Qed.

Lemma mono_unused a q k : ready a -> mono a (a_used a) q k -> has_unused a q -> k < length (set_idxs_of a q).
Proof.
  intros Hr [Hk H] (i & Hi & Hf & Hq).
  assert (i ∈ set_idxs_of a q) as Hin by (by apply elem_set_idxs).
  apply list_elem_of_lookup in Hin as [j Hj]. rewrite (H j i Hj) in Hf. apply lookup_lt_Some in Hj.
  case_bool_decide; [done|lia].
Qed.

Lemma marked_perm us l l' us' : (forall i, i ∈ l <-> i ∈ l') -> marked us l us' -> marked us l' us'.
Proof.
  intros Hp [Hl H]. split; [done|]. intros i. rewrite H. specialize (Hp i).
  destruct (decide (i ∈ l)), (decide (i ∈ l')); tauto.
Qed.

Lemma equal_take_ok a sets cur row us nu :
  length cur = length sets -> length row = length sets ->
  (forall s q k, sets !! s = Some q -> cur !! s = Some k -> set_idxs_of a q !! k = row !! s) ->
  (forall i, i ∈ row -> i < length us) -> forall per, length per = length sets ->
  exists us', equal_take a sets cur (per, us, nu) = Some (zip_with (fun p i => p ++ [i]) per row, us', nu + length row) /\
    marked us row us'.
Proof.
  intros Hc Hrow Hidx Hin per Hper. unfold equal_take.
  match goal with |- context [foldM ?F _ _] => destruct (foldM_seq F
    (fun s '(per', us', nu') => per' = zip_with (fun p i => p ++ [i]) (take s per) (take s row) ++ drop s per /\
       marked us (take s row) us' /\ nu' = nu + s) 0 (length sets) (per, us, nu)) as ([[per' us'] nu'] & Heq & -> & Hm & ->) end.
  - split_and!; [done|apply marked_nil|lia].
  - intros s [[per' us'] nu'] [_ Hs] (-> & Hm & ->).
    destruct (lookup_lt_is_Some_2 sets s Hs) as [q Hq]. destruct (lookup_lt_is_Some_2 cur s) as [k Hk]; [lia|].
    destruct (lookup_lt_is_Some_2 row s) as [i Hi]; [lia|]. destruct (lookup_lt_is_Some_2 per s) as [p Hp]; [lia|].
    rewrite Hq. simpl. rewrite Hk. simpl. rewrite (Hidx s q k Hq Hk), Hi. simpl.
    assert (length (zip_with (fun p i => p ++ [i]) (take s per) (take s row)) = s) as Hlz.
    { rewrite length_zip_with, !length_take. lia. }
    rewrite (drop_S _ _ _ Hp). rewrite lookup_app_r, Hlz, Nat.sub_diag by lia. simpl.
    match goal with |- context [set_at s ?x ?l] => rewrite (set_at_ok s x l) end.
    2:{ rewrite length_app, Hlz. simpl. lia. }
    simpl. destruct (marked_one us' i) as [-> Hm1]; [destruct Hm as [-> _]; apply Hin; by eapply list_elem_of_lookup_2|]. simpl.
    eexists. split; [reflexivity|]. simpl. rewrite Nat.add_1_r. split_and!.
    + rewrite insert_app_r_alt by lia. rewrite Hlz, Nat.sub_diag. simpl.
      rewrite (take_S_r _ _ _ Hp), (take_S_r _ _ _ Hi), zip_with_app by (rewrite !length_take; lia).
      simpl. by rewrite <- app_assoc.
    + rewrite (take_S_r _ _ _ Hi). by eapply marked_app.
    + lia.
  - simpl in *. exists us'. rewrite Heq, Hrow. rewrite !take_ge, drop_ge, app_nil_r in * by lia. done.
Qed.

(** A set that some token carries is picked only once. *)
Lemma sets_inj a sets s s' q i : ready a -> disjoint_sets sets -> i ∈ set_idxs_of a q ->
  sets !! s = Some q -> sets !! s' = Some q -> s = s'.
Proof.
  intros Hr Hd Hi Hs Hs'. destruct (decide (s = s')) as [|Hne]; [done|exfalso].
  apply elem_set_idxs in Hi as [Hlt Hq]; [|done].
  destruct (r_ids a Hr i Hlt) as (s0 & ids & _ & _ & Hq' & _). pose proof (Hd s s' q q Hs Hs' Hne) as He.
  rewrite Hq' in Hq. injection Hq as <-. set_solver.
Qed.

Section Round.
Variables (a : llama_batch_allocr) (sets : list (gset Z)) (cur row : list nat) (us us' : list bool).
Hypotheses (Hr : ready a) (Hd : disjoint_sets sets)
  (Hrow : forall s i, row !! s = Some i -> exists q k, sets !! s = Some q /\ cur !! s = Some k /\ set_idxs_of a q !! k = Some i)
  (Hm : marked us row us').

Lemma row_set s i q : row !! s = Some i -> i ∈ set_idxs_of a q -> sets !! s = Some q.
Proof.
  intros (q' & k & Hs & _ & Hk)%Hrow Hi. apply list_elem_of_lookup_2 in Hk.
  apply (elem_set_idxs _ _ _ Hr) in Hi as [_ Hi]. apply (elem_set_idxs _ _ _ Hr) in Hk as [_ Hk]. congruence.
Qed.

Lemma row_NoDup : NoDup row.
Proof.
  apply NoDup_alt. intros s s' i Hs Hs'. destruct (Hrow s i Hs) as (q & k & Hq & _ & Hk).
  apply list_elem_of_lookup_2 in Hk. apply (sets_inj a sets s s' q i); [done..|]. by apply (row_set s' i).
Qed.

Lemma row_mono s q k : sets !! s = Some q -> cur !! s = Some k -> k < length (set_idxs_of a q) ->
  s < length row -> mono a us q k -> mono a us' q (S k).
Proof.
  intros Hq Hc Hk Hs [_ H]. split; [lia|]. intros j i Hj. destruct Hm as [_ Hm']. rewrite Hm', (H j i Hj).
  apply lookup_lt_is_Some in Hs as [i' Hi']. destruct (Hrow s i' Hi') as (q' & k' & Hq2 & Hc2 & Hi'k).
  assert (q' = q) as -> by congruence. assert (k' = k) as -> by congruence. clear Hq2 Hc2.
  case_decide as Hin; simpl; f_equal; symmetry; [apply bool_decide_eq_true|apply bool_decide_ext].
  - apply list_elem_of_lookup in Hin as [s' Hs'].
    pose proof (row_set s' i q Hs' (list_elem_of_lookup_2 _ _ _ Hj)) as Hq'.
    assert (s = s') as <-. { apply (sets_inj a sets _ _ q i); [done..|by eapply list_elem_of_lookup_2|done|done]. }
    assert (i' = i) as -> by congruence. assert (j = k) as ->; [|lia].
    by apply (NoDup_lookup (set_idxs_of a q) j k i (NoDup_set_idxs a q Hr)).
  - assert (j <> k); [|lia]. intros ->. simplify_eq. apply Hin. by eapply list_elem_of_lookup_2.
Qed.
End Round.

Lemma concat_zip_cons (row : list nat) ext : length row = length ext ->
  concat (zip_with cons row ext) ≡ₚ row ++ concat ext.
Proof.
  revert ext. induction row as [|i row IH]; intros [|l ext] Hl; simplify_eq/=; [done|].
  rewrite IH by done. by rewrite !(assoc_L (++)), (comm (++) l row).
Qed.

Lemma zip_with_snoc_cons (per : list (list nat)) row ext : length per = length row -> length row = length ext ->
  zip_with (++) (zip_with (fun p i => p ++ [i]) per row) ext = zip_with (++) per (zip_with cons row ext).
Proof.
  revert row ext. induction per as [|p per IH]; intros [|i row] [|l ext] H1 H2; simplify_eq/=; [done|].
  by rewrite <- (assoc_L (++)), IH.
Qed.

(** The rows [ext] that a run of the loop appends to [per]: the same number of
    fresh tokens of every set, in the order of its index list. *)
Record expands (a : llama_batch_allocr) (sets : list (gset Z)) (cur : list nat) (us : list bool)
    (m : nat) (ext : list (list nat)) (us' : list bool) : Prop := {
  ex_len  : length ext = length sets;
  ex_rows : Forall (fun l => length l = m) ext;
  ex_nd   : NoDup (concat ext);
  ex_free : forall i, i ∈ concat ext -> us !! i = Some false;
  ex_mark : marked us (concat ext) us';
  ex_mono : forall s q k, sets !! s = Some q -> cur !! s = Some k -> mono a us' q (k + m);
  ex_take : forall s q k l, sets !! s = Some q -> cur !! s = Some k -> ext !! s = Some l ->
              l = take m (drop k (set_idxs_of a q));
}.

Lemma concat_replicate_nil n : concat (replicate n (@nil nat)) = [].
Proof. by induction n. Qed.

Lemma zip_with_nil_rows (per : list (list nat)) n : n = length per -> zip_with (++) per (replicate n []) = per.
Proof.
  intros ->. induction per as [|p per IH]; simpl; [done|]. by rewrite app_nil_r, IH.
Qed.

Lemma expands_nil a sets cur us :
  (forall s q k, sets !! s = Some q -> cur !! s = Some k -> mono a us q k) ->
  expands a sets cur us 0 (replicate (length sets) []) us.
Proof.
  intros Hmono. pose proof (concat_replicate_nil (length sets)) as Hc.
  split; rewrite ?Hc.
  - apply length_replicate.
  - by apply Forall_replicate.
  - constructor.
  - intros i Hi. by apply not_elem_of_nil in Hi.
  - apply marked_nil.
  - intros s q k Hs Hk. rewrite Nat.add_0_r. eauto.
  - intros s q k l _ _ [-> _]%lookup_replicate. done.
Qed.


(** [row] takes token number [cur[s]] of every set [s]. *)
Definition row_of (a : llama_batch_allocr) (sets : list (gset Z)) (cur row : list nat) : Prop :=
  length row = length sets /\
  forall s i, row !! s = Some i -> exists q k, sets !! s = Some q /\ cur !! s = Some k /\ set_idxs_of a q !! k = Some i.

Lemma expands_cons a sets cur us row us1 m ext us' :
  ready a -> disjoint_sets sets -> row_of a sets cur row ->
  (forall i, i ∈ row -> us !! i = Some false) -> marked us row us1 ->
  expands a sets (S <$> cur) us1 m ext us' -> expands a sets cur us (S m) (zip_with cons row ext) us'.
Proof.
  intros Hr Hd [Hl Hrow] Hfree Hm [Hel Hrows Hnd Hf Hmk Hmo Htk].
  assert (concat (zip_with cons row ext) ≡ₚ row ++ concat ext) as Hp by (apply concat_zip_cons; congruence).
  split.
  - rewrite length_zip_with. lia.
  - apply Forall_lookup_2. intros s l (i & l' & -> & _ & Hl')%lookup_zip_with_Some. simpl.
    rewrite Forall_lookup in Hrows. by rewrite (Hrows _ _ Hl').
  - rewrite Hp. apply NoDup_app. split_and!; [by eapply row_NoDup| |done].
    intros i Hi Hi'. specialize (Hf i Hi'). destruct Hm as [_ Hm]. rewrite Hm, decide_True, (Hfree i Hi) in Hf by done. done.
  - intros i. rewrite Hp. intros [Hi|Hi]%elem_of_app; [by apply Hfree|].
    specialize (Hf i Hi). destruct Hm as [_ Hm]. rewrite Hm in Hf. case_decide; [|done]. by destruct (us !! i).
  - eapply marked_perm; [|by eapply marked_app]. intros i. by rewrite Hp.
  - intros s q k Hs Hk. rewrite Nat.add_succ_r, <- Nat.add_succ_l. eapply Hmo; [done|].
    by rewrite list_lookup_fmap, Hk.
  - intros s q k l Hs Hk (i & l' & -> & Hi & Hl')%lookup_zip_with_Some.
    rewrite (Htk s q (S k) l') by (try done; by rewrite list_lookup_fmap, Hk).
    destruct (Hrow s i Hi) as (q' & k' & Hq' & Hk' & Hik).
    assert (q' = q) as -> by congruence. assert (k' = k) as -> by congruence.
    by rewrite (drop_S _ _ _ Hik).
Qed.

(** If every set can expand, the next row exists. *)
Lemma row_exists a sets cur us : ready a -> length cur = length sets ->
  (forall s q k, sets !! s = Some q -> cur !! s = Some k -> mono a us q k) ->
  (forall s q k, sets !! s = Some q -> cur !! s = Some k -> k < length (set_idxs_of a q)) ->
  exists row, row_of a sets cur row /\ (forall i, i ∈ row -> us !! i = Some false) /\
    (forall s q k, sets !! s = Some q -> cur !! s = Some k -> set_idxs_of a q !! k = row !! s).
Proof.
  intros Hr Hlen Hmono Hcan. exists (zip_with (fun q k => default 0 (set_idxs_of a q !! k)) sets cur).
  assert (forall s q k, sets !! s = Some q -> cur !! s = Some k ->
    exists i, set_idxs_of a q !! k = Some i /\ us !! i = Some false) as Hat.
  { intros s q k Hs Hk. pose proof (Hcan s q k Hs Hk) as Hlt. apply lookup_lt_is_Some in Hlt as [i Hi].
    exists i. split; [done|]. destruct (Hmono s q k Hs Hk) as [_ H]. rewrite (H k i Hi). by rewrite bool_decide_false by lia. }
  split_and!.
  - split; [rewrite length_zip_with; lia|]. intros s i (q & k & -> & Hs & Hk)%lookup_zip_with_Some.
    exists q, k. split_and!; [done..|]. destruct (Hat s q k Hs Hk) as (i & -> & _). done.
  - intros i Hi. apply list_elem_of_lookup in Hi as (s & (q & k & -> & Hs & Hk)%lookup_zip_with_Some).
    by destruct (Hat s q k Hs Hk) as (i & -> & ?).
  - intros s q k Hs Hk. rewrite lookup_zip_with, Hs. simpl. rewrite Hk. simpl. by destruct (Hat s q k Hs Hk) as (i & -> & _).
Qed.

Lemma can_expand_ok a sets cur : length cur = length sets ->
  forallb (fun '(q, k) => bool_decide (k < length (set_idxs_of a q))) (zip sets cur) = true <->
  (forall s q k, sets !! s = Some q -> cur !! s = Some k -> k < length (set_idxs_of a q)).
Proof.
  intros Hlen. rewrite forallb_forall. split.
  - intros H s q k Hs Hk. assert ((q, k) ∈ zip sets cur) as Hin.
    { apply list_elem_of_lookup. exists s. rewrite lookup_zip_with, Hs. simpl. by rewrite Hk. }
    apply list_elem_of_In in Hin. specialize (H _ Hin). simpl in H. by apply bool_decide_eq_true in H.
  - intros H [q k] Hin%list_elem_of_In. apply list_elem_of_lookup in Hin as (s & (q' & k' & ? & Hs & Hk)%lookup_zip_with_Some).
    simplify_eq. apply bool_decide_eq_true. eauto.
Qed.

Lemma equal_loop_ok a n_ubatch sets : ready a -> disjoint_sets sets -> sets <> [] ->
  forall fuel cur per us nu r, length cur = length sets -> length per = length sets -> length us = get_n_tokens a ->
  (forall s q k, sets !! s = Some q -> cur !! s = Some k -> mono a us q k) ->
  (exists p, per !! 0 = Some p /\ length p = r) ->
  (exists q k, sets !! 0 = Some q /\ cur !! 0 = Some k /\ length (set_idxs_of a q) < k + fuel) ->
  exists m ext us', equal_loop fuel a n_ubatch sets cur (per, us, nu) =
      Some (zip_with (++) per ext, us', nu + length (concat ext)) /\ expands a sets cur us m ext us' /\
    (r + m) * length sets <= Nat.max n_ubatch ((r + 1) * length sets) /\
    ((forall s q k, sets !! s = Some q -> cur !! s = Some k -> k < length (set_idxs_of a q)) -> 0 < m).
Proof.
  intros Hr Hd Hne. induction fuel as [|fuel IH]; intros cur per us nu r Hlc Hlp Hlu Hmono (p0 & Hp0 & Hp0r) (q0 & k0 & Hq0 & Hk0 & Hf).
  { destruct (Hmono 0 q0 k0 Hq0 Hk0) as [? _]. lia. }
  cbn [equal_loop].
  destruct (forallb _ (zip sets cur)) eqn:Hcan; simpl.
  2:{ exists 0, (replicate (length sets) []), us. split_and!.
      - rewrite concat_replicate_nil. simpl. by rewrite Nat.add_0_r, zip_with_nil_rows by lia.
      - by apply expands_nil.
      - rewrite Nat.add_0_r. nia.
      - intros H. apply (can_expand_ok a sets cur Hlc) in H. congruence. }
  rewrite (can_expand_ok a sets cur Hlc) in Hcan.
  destruct (row_exists a sets cur us Hr Hlc Hmono Hcan) as (row & Hrow & Hfree & Hat). pose proof Hrow as [Hlr Hrow'].
  destruct (equal_take_ok a sets cur row us nu Hlc Hlr Hat) with (per := per) as (us1 & -> & Hm); [|done|].
  { intros i Hi%Hfree. by eapply lookup_lt_Some. }
  assert (length us1 = get_n_tokens a) as Hlu1 by (destruct Hm as [-> _]; done).
  destruct (lookup_lt_is_Some_2 row 0) as [i0 Hi0]; [destruct sets; simpl in *; [done|lia]|].
  assert (zip_with (fun p i => p ++ [i]) per row !! 0 = Some (p0 ++ [i0])) as Hrow0.
  { rewrite lookup_zip_with, Hp0. simpl. by rewrite Hi0. }
  cbn [mbind option_bind fst]. rewrite Hrow0. cbn [mbind option_bind].
  assert (forall s q k, sets !! s = Some q -> (S <$> cur) !! s = Some k -> mono a us1 q k) as Hmono1.
  { intros s q k Hs Hk. rewrite list_lookup_fmap in Hk. destruct (cur !! s) as [k'|] eqn:Hc; simplify_eq/=.
    eapply (row_mono a sets cur row us us1 Hr Hd Hrow' Hm); eauto. rewrite Hlr. by eapply lookup_lt_Some. }
  assert (forall m ext us', expands a sets (S <$> cur) us1 m ext us' ->
    expands a sets cur us (S m) (zip_with cons row ext) us' /\
    zip_with (++) (zip_with (fun p i => p ++ [i]) per row) ext = zip_with (++) per (zip_with cons row ext) /\
    length (concat (zip_with cons row ext)) = length row + length (concat ext)) as Hcons.
  { intros m ext us' He. pose proof (ex_len _ _ _ _ _ _ _ He) as Hle. split_and!.
    - by eapply expands_cons.
    - apply zip_with_snoc_cons; congruence.
    - rewrite concat_zip_cons, length_app by congruence. done. }
  case_bool_decide as Hstop.
  - destruct (Hcons 0 (replicate (length sets) []) us1) as (He & Hz & Hn); [by apply expands_nil|].
    eexists 1, _, us1. split_and!; [|exact He| |lia].
    + rewrite <- Hz, Hn. assert (concat (replicate (length sets) (@nil nat)) = []) as -> by apply concat_replicate_nil.
      simpl. rewrite Nat.add_0_r. do 3 f_equal. symmetry. apply zip_with_nil_rows. rewrite length_zip_with. lia.
    + lia.
  - rewrite length_app in Hstop. simpl in Hstop.
    destruct (IH (S <$> cur) (zip_with (fun p i => p ++ [i]) per row) us1 (nu + length row) (r + 1))
      as (m & ext & us' & -> & He & Hb & _); [by rewrite length_fmap|rewrite length_zip_with; lia|done|done| | |].
    + exists (p0 ++ [i0]). split; [done|]. rewrite length_app. simpl. lia.
    + exists q0, (S k0). split_and!; [done|by rewrite list_lookup_fmap, Hk0|lia].
    + destruct (Hcons m ext us' He) as (He' & Hz & Hn). exists (S m), (zip_with cons row ext), us'. split_and!; [|done| |lia].
      * by rewrite Hz, Hn, Nat.add_assoc.
      * nia.
Qed.


(** One ubatch of [split_equal]: rows of [n_seq_tokens] consecutive tokens of
    pairwise disjoint sequence sets. *)
Definition equal_shape (a : llama_batch_allocr) (u : llama_ubatch) (idxs : list nat) : Prop :=
  u_equal_seqs u = true /\ exists sets rows, disjoint_sets sets /\ idxs = concat rows /\
    length sets = u_n_seqs u /\
    Forall2 (fun q row => length row = u_n_seq_tokens u /\
      exists l1 l2, filter (fun i => seq_set a !! i = Some q) (seq 0 (get_n_tokens a)) = l1 ++ row ++ l2) sets rows.

Lemma expands_length a sets cur us m ext us' : expands a sets cur us m ext us' ->
  length (concat ext) = length sets * m.
Proof.
  intros He. rewrite <- (ex_len _ _ _ _ _ _ _ He). pose proof (ex_rows _ _ _ _ _ _ _ He) as Hrows. clear -Hrows.
  induction Hrows as [|l ext Hlm _ IH]; simpl; [done|]. rewrite length_app, IH. lia.
Qed.

Lemma expands_shape a sets cur us m ext us' u : ready a -> disjoint_sets sets -> length cur = length sets ->
  expands a sets cur us m ext us' -> sets <> [] ->
  u_n_seqs u = length sets -> u_equal_seqs u = true -> u_n_seq_tokens u = length (concat ext) / length sets ->
  equal_shape a u (concat ext).
Proof.
  intros Hr Hd Hlc He Hne Hs Heq Ht. pose proof (ex_len _ _ _ _ _ _ _ He) as Hl.
  pose proof (expands_length _ _ _ _ _ _ _ He) as Hlen.
  rewrite Hlen, Nat.mul_comm, Nat.div_mul in Ht by (destruct sets; done).
  split; [done|]. exists sets, ext. split_and!; [done..|].
  apply Forall2_same_length_lookup_2; [done|]. intros s q row Hq Hrow.
  pose proof (ex_rows _ _ _ _ _ _ _ He) as Hrows. rewrite Forall_lookup in Hrows.
  split; [by rewrite Ht, (Hrows s row)|].
  destruct (lookup_lt_is_Some_2 cur s) as [k Hk]; [rewrite Hlc; by eapply lookup_lt_Some|].
  rewrite (ex_take _ _ _ _ _ _ _ He s q k row Hq Hk Hrow), <- (r_map a Hr).
  exists (take k (set_idxs_of a q)), (drop m (drop k (set_idxs_of a q))). by rewrite !take_drop.
Qed.

Lemma expands_all_mono a sets cur m ext us' : ready a -> length cur = length sets ->
  expands a sets cur (a_used a) m ext us' -> all_mono a ->
  forall q, exists k, mono a us' q k.
Proof.
  intros Hr Hlc He Hall q. destruct (decide (q ∈ sets)) as [[s Hs]%list_elem_of_lookup|Hn].
  - destruct (lookup_lt_is_Some_2 cur s) as [k Hk]; [rewrite Hlc; by eapply lookup_lt_Some|].
    exists (k + m). by apply (ex_mono _ _ _ _ _ _ _ He s).
  - destruct (Hall q) as (k & Hk & H). exists k. split; [done|]. intros j i Hj.
    destruct (ex_mark _ _ _ _ _ _ _ He) as [_ ->]. rewrite decide_False; [by apply H|].
    intros Hi. apply list_elem_of_In, in_concat in Hi as (row & Hrow%list_elem_of_In & Hi%list_elem_of_In).
    apply list_elem_of_lookup in Hrow as [s Hrow]. pose proof (lookup_lt_Some _ _ _ Hrow) as Hlt.
    rewrite (ex_len _ _ _ _ _ _ _ He) in Hlt.
    destruct (lookup_lt_is_Some_2 sets s Hlt) as [q' Hq']. destruct (lookup_lt_is_Some_2 cur s) as [k' Hk']; [lia|].
    rewrite (ex_take _ _ _ _ _ _ _ He s q' k' row Hq' Hk' Hrow) in Hi.
    apply elem_of_take in Hi as (x & Hx & _). rewrite lookup_drop in Hx. apply list_elem_of_lookup_2 in Hx.
    apply list_elem_of_lookup_2 in Hj. apply (elem_set_idxs _ _ _ Hr) in Hx as [_ Hx].
    apply (elem_set_idxs _ _ _ Hr) in Hj as [_ Hj]. assert (q = q') as -> by congruence.
    apply Hn. by eapply list_elem_of_lookup_2.
Qed.

Lemma split_equal_step n_ubatch sequential :
  step_spec false (fun a => all_mono a /\ (sequential && has_cpl a = false)) (n_ubatch + 1) equal_shape (split_equal n_ubatch sequential).
Proof.
  intros a Hr Hlen [Hall Hcpl]. unfold split_equal. rewrite Hcpl.
  destruct (pick_sets_ok a n_ubatch sequential Hr Hlen (seq 0 (b_n_tokens (batch a))) [] (-1)%Z)
    as (sets & -> & Hns & Hd & Hun & _ & Hnil); [by intros i [_ Hi]%elem_of_seq|simpl; lia|by intros ? ? ? ? ?|done|].
  cbn [mbind option_bind]. case_bool_decide as Hemp.
  { left. split; [|done]. apply elem_of_nil_inv. intros i Hi%elem_of_unused.
    apply (Hnil eq_refl); [|by apply nil_length_inv]. exists i. split; [|done].
    apply elem_of_seq. apply lookup_lt_Some in Hi. change (b_n_tokens (batch a)) with (get_n_tokens a). lia. }
  right. assert (sets <> []) as Hne by (by intros ->).
  destruct (mapM_total (fun q => first_unused (a_used a) (set_idxs_of a q)) sets) as (cur & -> & Hcur).
  { intros q Hq. destruct (Hall q) as [k Hk]. rewrite Forall_forall in Hun.
    rewrite (first_unused_ok (a_used a) (set_idxs_of a q) k); [done|by apply Hk|]. apply (mono_unused a); auto. }
  cbn [mbind option_bind]. pose proof (Forall2_length _ _ _ Hcur) as Hlc.
  assert (forall s q k, sets !! s = Some q -> cur !! s = Some k -> mono a (a_used a) q k /\ k < length (set_idxs_of a q)) as Hmono.
  { intros s q k Hs Hk. pose proof (Forall2_lookup_lr _ _ _ _ _ _ Hcur Hs Hk) as Hfu. simpl in Hfu.
    destruct (Hall q) as [k' Hk']. rewrite Forall_lookup in Hun. pose proof (mono_unused a q k' Hr Hk' (Hun s q Hs)) as Hlt.
    rewrite (first_unused_ok _ _ k') in Hfu by (done || apply Hk'). by injection Hfu as <-. }
  destruct (lookup_lt_is_Some_2 sets 0) as [q0 Hq0]; [destruct sets; simpl; [done|lia]|].
  destruct (lookup_lt_is_Some_2 cur 0) as [k0 Hk0]; [rewrite <- Hlc; by eapply lookup_lt_Some|].
  destruct (equal_loop_ok a n_ubatch sets Hr Hd Hne (S (length (a_used a))) cur (replicate (length sets) []) (a_used a) (n_used a) 0)
    as (m & ext & us' & -> & He & Hb & Hpos); [done|by rewrite length_replicate|done| | | |].
  { intros s q k Hs Hk. by apply (Hmono s). }
  { exists []. split; [|done]. apply lookup_replicate_2. destruct sets; simpl; [done|lia]. }
  { exists q0, k0. split_and!; [done..|]. rewrite (r_map a Hr), Hlen.
    pose proof (length_filter (fun i => seq_set a !! i = Some q0) (seq 0 (get_n_tokens a))) as Hf. rewrite length_seq in Hf. lia. }
  cbn [mbind option_bind]. pose proof (ex_len _ _ _ _ _ _ _ He) as Hle.
  assert (zip_with (++) (replicate (length sets) []) ext = ext) as ->.
  { rewrite <- Hle. clear. induction ext as [|l ext IH]; simpl; [done|]. by rewrite IH. }
  pose proof (expands_length _ _ _ _ _ _ _ He) as Hlce.
  assert (0 < m) as Hm by (apply Hpos; intros s q k Hs Hk; by apply (Hmono s)).
  destruct (finish_step false (fun a => all_mono a /\ (sequential && has_cpl a = false)) (n_ubatch + 1) equal_shape
    a (concat ext) us' (length sets) true) as (u & a' & Hadd & Hrest); try done.
  - rewrite Hlce. apply Nat.Div0.mod_mul || (rewrite Nat.mul_comm; apply Nat.Div0.mod_mul).
  - intros H. rewrite H in Hlce. simpl in Hlce. nia.
  - rewrite Hlce. lia.
  - apply He.
  - apply He.
  - apply He.
  - intros u H1 H2 H3. by apply (expands_shape a sets cur (a_used a) m ext us').
  - split; [|done]. intros q. destruct (expands_all_mono a sets cur m ext us' Hr (eq_sym Hlc) He Hall q) as [k Hk]. by exists k.
  - by exists (concat ext), u, a'.
Qed.


(** * [init] *)

Lemma checkM_true {A} (f : A -> option bool) l : checkM f l = Some true -> forall x, x ∈ l -> f x = Some true.
Proof.
  induction l as [|y l IH]; simpl; intros H x Hx; [by apply not_elem_of_nil in Hx|].
  destruct (f y) as [[]|] eqn:Ey; [|done..]. simpl in H. apply elem_of_cons in Hx as [->|Hx]; [done|by apply IH].
Qed.

(** What [init] relies on and does not check: the caller's arrays are as long as
    [n_tokens] says, every token has an id, and M-RoPE embeddings come with
    their positions. *)
Record batch_contract (b : llama_batch) (n_embd n_pos : nat) : Prop := {
  bc_token : forall tk, b_token b = Some tk -> b_n_tokens b <= length tk;
  bc_embd  : forall e, b_embd b = Some e -> b_n_tokens b * n_embd <= length e;
  bc_pos   : forall p, b_pos b = Some p ->
    (match b_token b with Some _ => 1 | None => Nat.max 1 n_pos end) * b_n_tokens b <= length p;
  bc_gen   : b_pos b = None -> b_token b = None -> n_pos <= 1;
  bc_nseq  : forall l, b_n_seq_id b = Some l -> Forall (fun n => 1 <= n)%Z l;
}.

(** [b'] is [b] with its missing arrays generated. *)
Record generated (b b' : llama_batch) : Prop := {
  g_n     : b_n_tokens b' = b_n_tokens b;
  g_token : b_token b' = b_token b;
  g_embd  : b_embd b' = b_embd b;
  g_pos   : exists p, b_pos b' = Some p /\ (b_pos b = None -> length p = b_n_tokens b) /\ (b_pos b <> None -> b_pos b = Some p);
  g_nseq  : b_n_seq_id b' = b_n_seq_id (gen_seq_id (gen_n_seq_id b));
  g_seq   : b_seq_id b' = b_seq_id (gen_seq_id (gen_n_seq_id b));
}.

Section InitProofs.
Context {M : Type} `{llama_memory_i M}.

Lemma gen_pos_ok memory n_seq_max b b' : gen_pos memory n_seq_max b = Some b' ->
  exists p, b' = batch_with_pos p b /\ (b_pos b = None -> length p = b_n_tokens b) /\ (b_pos b <> None -> b_pos b = Some p).
Proof.
  unfold gen_pos. destruct (b_pos b) as [p|] eqn:Hp; intros Hg.
  - injection Hg as <-. exists p. split_and!; [|done|done]. destruct b; simpl in *. by rewrite Hp.
  - destruct (init_p0 memory n_seq_max) as [p0|]; [|done]. simpl in Hg.
    destruct (foldM (gen_pos_step b) (seq 0 (b_n_tokens b)) (p0, [])) as [[p0' pos]|] eqn:Hf; [|done].
    injection Hg as <-. exists pos. split_and!; [done| |done]. intros _.
    apply (foldM_sound _ (fun l st => length st.2 = length l)) in Hf; [by rewrite length_seq in Hf|done|].
    intros pre i [q pos1] [q' pos2] _ Hl Hs. simpl in *.
    destruct (batch_id0 i b) as [s0|]; [|done]. simpl in Hs. case_bool_decide; [done|]. destruct (q !! Z.to_nat s0) as [x|]; [|done]. simpl in Hs.
    destruct (batch_ids i b) as [ids|]; [|done]. simpl in Hs. destruct (forallb _ ids); [|done]. simpl in Hs.
    match type of Hs with mbind _ ?m = _ => destruct m as [x'|]; [|done] end. simpl in Hs.
    match type of Hs with mbind _ ?m = _ => destruct m as [q2|]; [|done] end. simpl in Hs.
    injection Hs as <- <-. rewrite !length_app. simpl. lia.
Qed.

Lemma gen_logits_ok output_all b b' : gen_logits output_all b = Some b' -> exists o, b' = batch_with_logits o b.
Proof.
  unfold gen_logits. intros Hg. destruct (b_logits b) as [lg|] eqn:Hl.
  - destruct output_all.
    + match type of Hg with mbind _ ?m = _ => destruct m as [[]|]; [| |done] end; injection Hg as <-; [|by eexists].
      exists lg. destruct b; simpl in *. by rewrite Hl.
    + injection Hg as <-. exists lg. destruct b; simpl in *. by rewrite Hl.
  - destruct output_all; [injection Hg as <-; by eexists|].
    match type of Hg with mbind _ ?m = _ => destruct m; [|done] end. injection Hg as <-. by eexists.
Qed.

Lemma generated_ok memory n_seq_max output_all b b1 b2 :
  gen_pos memory n_seq_max (gen_seq_id (gen_n_seq_id b)) = Some b1 -> gen_logits output_all b1 = Some b2 -> generated b b2.
Proof.
  intros (p & -> & Hp1 & Hp2)%gen_pos_ok (o & ->)%gen_logits_ok.
  assert (b_pos (gen_seq_id (gen_n_seq_id b)) = b_pos b /\ b_n_tokens (gen_seq_id (gen_n_seq_id b)) = b_n_tokens b /\
    b_token (gen_seq_id (gen_n_seq_id b)) = b_token b /\ b_embd (gen_seq_id (gen_n_seq_id b)) = b_embd b) as (E1 & E2 & E3 & E4).
  { unfold gen_seq_id, gen_n_seq_id. destruct b as [n tk em ps [?|] [?|] lg]; done. }
  rewrite E1, E2 in *. split; simpl; try done. by exists p.
Qed.
End InitProofs.

(** The ids of every token are those of the caller, or sequence 0. *)
Lemma generated_ids b b' n_seq_max i ids : generated b b' -> check_seq_ids b n_seq_max = Some true ->
  (0 < n_seq_max)%Z -> i < b_n_tokens b -> batch_ids i b' = Some ids -> Forall (fun s => 0 <= s < n_seq_max)%Z ids.
Proof.
  intros [_ _ _ _ Hn Hs] Hck Hpos Hi. unfold batch_ids, batch_n_seq_id, batch_seq_id. rewrite Hn, Hs. clear Hn Hs.
  unfold check_seq_ids in Hck. destruct (b_seq_id b) as [sq|] eqn:Esq.
  - pose proof (checkM_true _ _ Hck i (proj2 (elem_of_seq _ _ _) (conj (Nat.le_0_l i) Hi))) as Hc. simpl in Hc.
    unfold batch_ids, batch_n_seq_id, batch_seq_id in Hc.
    unfold gen_seq_id, gen_n_seq_id. destruct (b_n_seq_id b) as [ns|] eqn:Ens; [|done]. rewrite Esq, Ens. simpl.
    intros Hids. simpl in Hids, Hc. rewrite Esq in Hc, Hids. rewrite Hids in Hc. simpl in Hc.
    apply Forall_forall. intros s Hin. pose proof (checkM_true _ _ Hc s Hin) as Hv. simpl in Hv.
    injection Hv as Hv. by apply bool_decide_eq_true in Hv.
  - unfold gen_seq_id, gen_n_seq_id. intros Hids.
    assert (exists n, (if bool_decide (n <= 1)%Z then Some (take (Z.to_nat n) [0%Z]) else None) = Some ids) as [n Hn].
    { destruct (b_n_seq_id b) as [ns|] eqn:Ens; rewrite Esq in Hids; simpl in Hids.
      - rewrite Ens in Hids. destruct ((Some ns ≫= fun l => l !! i)) as [n|]; [|done]. simpl in Hids.
        rewrite lookup_replicate_2 in Hids by done. by exists n.
      - rewrite !lookup_replicate_2 in Hids by done. by exists 1%Z. }
    case_bool_decide; [|done]. injection Hn as <-. apply Forall_take. constructor; [lia|constructor].
Qed.

Lemma generated_cons b b' n_embd n_pos i ids : generated b b' -> batch_contract b n_embd n_pos ->
  batch_ids i b' = Some ids -> exists s0 tl, ids = s0 :: tl /\ batch_id0 i b' = Some s0.
Proof.
  intros [_ _ _ _ Hn _] Hc Hids. unfold batch_ids in Hids.
  destruct (batch_n_seq_id i b') as [n|] eqn:En; [|done]. simpl in Hids.
  unfold batch_id0. destruct (batch_seq_id i b') as [l|] eqn:El; [|done]. simpl in *.
  case_bool_decide as Hle; [|done]. injection Hids as <-.
  assert (1 <= n)%Z as Hn1.
  { unfold batch_n_seq_id in En. rewrite Hn in En.
    unfold gen_seq_id, gen_n_seq_id in En. destruct (b_n_seq_id b) as [ns|] eqn:Ens.
    - assert (ns !! i = Some n) as Hlk by (destruct (b_seq_id b); rewrite Ens in En || simpl in En; rewrite ?Ens in En; done).
      pose proof (bc_nseq _ _ _ Hc ns Ens) as Hf. rewrite Forall_lookup in Hf. by apply (Hf i).
    - assert (replicate (b_n_tokens b) 1%Z !! i = Some n) as Hlk by (simpl in En; destruct (b_seq_id b); done).
      apply lookup_replicate in Hlk as [-> _]. lia. }
  destruct l as [|s0 l]; simpl in *; [lia|]. destruct (Z.to_nat n) as [|k] eqn:Ek; [lia|]. simpl. by eexists _, _.
Qed.


(** ** The statistics *)

Lemma seq_pos_insert_ok s p sp sp' : (0 <= s)%Z -> seq_pos_insert s p sp = Some sp' ->
  length sp' = length sp /\
  forall j u', sp' !! j = Some u' -> exists u, sp !! j = Some u /\ forall x, x ∈ u' <-> x ∈ u \/ (s = Z.of_nat j /\ x = p).
Proof.
  intros Hs Hi. unfold seq_pos_insert in Hi. destruct (sp !! Z.to_nat s) as [u|] eqn:Eu; [|done]. simpl in Hi.
  rewrite set_at_ok in Hi by (by eapply lookup_lt_Some). injection Hi as <-. split; [apply length_insert|].
  intros j u' [[<- ->]|[Hne Hj]]%list_lookup_insert_dec.
  - exists u. split; [done|]. intros x. rewrite Z2Nat.id by done. set_solver.
  - exists u'. split; [done|]. intros x. split; [by left|]. intros [?|[-> ->]]; [done|]. by rewrite Nat2Z.id in Hne.
Qed.

(** The case analyses of the inner loop: one more position, one more pair. *)
Lemma pos_insert_or (A B : Prop) (s j x p : Z) :
  (A \/ (s = j /\ x = p)) \/ (B /\ Some p = Some x) <-> A \/ ((j = s \/ B) /\ Some p = Some x).
Proof. naive_solver. Qed.

Lemma cpl_insert_or (A : Prop) (es : list (nat * Z)) (k : nat) (s s0 : Z) (x : Z * Z) : 0 < k ->
  (x = (s, s0) \/ A) \/ (exists k' s', (k', s') ∈ es /\ 0 < k' /\ x = (s', s0)) <->
  A \/ exists k' s', (k', s') ∈ (k, s) :: es /\ 0 < k' /\ x = (s', s0).
Proof.
  intros Hk. setoid_rewrite elem_of_cons. split.
  - intros [[->|?]|(k' & s' & ? & ? & ?)]; [right; exists k, s|by left|right; exists k', s']; auto.
  - intros [?|(k' & s' & [[= -> ->]|?] & ? & ->)]; [auto..|]. right. by exists k', s'.
Qed.

(** [pairs i] is the list of (rank, id) pairs of the inner loop. *)
Lemma stats_inner_ok b s0 i es : forall sp cpl hc sp' cpl' hc', Forall (fun e : nat * Z => 0 <= snd e)%Z es ->
  foldM (fun (e : nat * Z) '(sp, cpl, hc) =>
    p ← batch_pos i b;
    sp ← seq_pos_insert (snd e) p sp;
    if bool_decide (0 < fst e) then Some (sp, {[(snd e, s0)]} ∪ cpl, true) else Some (sp, cpl, hc)) es (sp, cpl, hc)
    = Some (sp', cpl', hc') ->
  length sp' = length sp /\
  (forall j u', sp' !! j = Some u' -> exists u, sp !! j = Some u /\
     forall x, x ∈ u' <-> x ∈ u \/ (Z.of_nat j ∈ es.*2 /\ batch_pos i b = Some x)) /\
  (forall x, x ∈ cpl' <-> x ∈ (cpl : gset (Z * Z)) \/ exists k s, (k, s) ∈ es /\ 0 < k /\ x = (s, s0)) /\
  (hc' = true <-> hc = true \/ exists k s, (k, s) ∈ es /\ 0 < k).
Proof.
  induction es as [|[k s] es IH]; intros sp cpl hc sp' cpl' hc' Hf Hrun; simpl in Hrun.
  - injection Hrun as <- <- <-. split_and!; [done| | |].
    + intros j u' Hj. exists u'. split; [done|]. intros x. split; [by left|]. intros [?|[H _]]; [done|]. by apply not_elem_of_nil in H.
    + intros x. split; [by left|]. intros [?|(k & s & H & _)]; [done|]. by apply not_elem_of_nil in H.
    + split; [by left|]. intros [?|(k & s & H & _)]; [done|]. by apply not_elem_of_nil in H.
  - apply Forall_cons in Hf as [Hs Hf]. simpl in Hs.
    destruct (batch_pos i b) as [p|]; [|done]. simpl in Hrun.
    destruct (seq_pos_insert s p sp) as [sp1|] eqn:Hi; [|done]. simpl in Hrun.
    destruct (seq_pos_insert_ok _ _ _ _ Hs Hi) as [Hl1 Hsp1].
    case_bool_decide as Hk; simpl in Hrun; destruct (IH _ _ _ _ _ _ Hf Hrun) as (Hl & Hsp & Hc & Hh);
      (split_and!; [congruence| | |]).
    + intros j u' (u1 & (u & Hu & Hx1)%Hsp1 & Hx)%Hsp. exists u. split; [done|]. intros x. rewrite Hx, Hx1. simpl. rewrite elem_of_cons. apply pos_insert_or.
    + intros x. rewrite Hc, elem_of_union, elem_of_singleton. by apply cpl_insert_or.
    + rewrite Hh. split; [|by left]. intros _. right. exists k, s. split; [by left|done].
    + intros j u' (u1 & (u & Hu & Hx1)%Hsp1 & Hx)%Hsp. exists u. split; [done|]. intros x. rewrite Hx, Hx1. simpl. rewrite elem_of_cons. apply pos_insert_or.
    + intros x. rewrite Hc. split.
      * intros [?|(k' & s' & ? & ?)]; [by left|]. right. exists k', s'. split; [by right|done].
      * intros [?|(k' & s' & [?|?]%elem_of_cons & ? & ?)]; [by left|simplify_eq; lia|]. right. by exists k', s'.
    + rewrite Hh. split.
      * intros [?|(k' & s' & ? & ?)]; [by left|]. right. exists k', s'. split; [by right|done].
      * intros [?|(k' & s' & [?|?]%elem_of_cons & ?)]; [by left|simplify_eq; lia|]. right. by exists k', s'.
Qed.

Lemma imap_pair_snd {A} (l : list A) : (imap pair l).*2 = l.
Proof. rewrite fmap_imap. unfold compose. simpl. by rewrite imap_const, list_fmap_id || (rewrite <- (list_fmap_id l) at 2; apply imap_const). Qed.

Lemma imap_pair_elem {A} (l : list A) k x : (k, x) ∈ imap pair l <-> l !! k = Some x.
Proof.
  rewrite list_elem_of_lookup. split.
  - intros [j Hj]. rewrite list_lookup_imap in Hj. destruct (l !! j) eqn:E; simplify_eq/=. done.
  - intros H. exists k. by rewrite list_lookup_imap, H.
Qed.

(** Token [i] carries id [s]. *)
Definition has_id (b : llama_batch) (i : nat) (s : Z) : Prop := exists ids, batch_ids i b = Some ids /\ s ∈ ids.

(** The loop over all tokens, from an empty table. *)
Lemma stats_ok b n sp0 sp cpl hc :
  (forall i ids, i < n -> batch_ids i b = Some ids -> Forall (fun s => 0 <= s)%Z ids) ->
  foldM (stats_step b) (seq 0 n) (sp0, ∅, false) = Some (sp, cpl, hc) ->
  Forall (eq ∅) sp0 ->
  length sp = length sp0 /\
  (forall i, i < n -> is_Some (batch_id0 i b) /\ is_Some (batch_ids i b)) /\
  (forall j u, sp !! j = Some u -> forall x, x ∈ u <-> exists i, i < n /\ has_id b i (Z.of_nat j) /\ batch_pos i b = Some x) /\
  (forall x, x ∈ cpl <-> exists i ids k s s0, i < n /\ batch_ids i b = Some ids /\ batch_id0 i b = Some s0 /\
     ids !! k = Some s /\ 0 < k /\ x = (s, s0)) /\
  (hc = true <-> exists i ids k s, i < n /\ batch_ids i b = Some ids /\ ids !! k = Some s /\ 0 < k).
Proof.
  intros Hids Hrun Hempty.
  pose (P := fun (pre : list nat) (st : list (gset Z) * gset (Z * Z) * bool) =>
    length st.1.1 = length sp0 /\
    (forall i, i ∈ pre -> is_Some (batch_id0 i b) /\ is_Some (batch_ids i b)) /\
    (forall j u, st.1.1 !! j = Some u -> forall x, x ∈ u <-> exists i, i ∈ pre /\ has_id b i (Z.of_nat j) /\ batch_pos i b = Some x) /\
    (forall x, x ∈ st.1.2 <-> exists i ids k s s0, i ∈ pre /\ batch_ids i b = Some ids /\ batch_id0 i b = Some s0 /\
       ids !! k = Some s /\ 0 < k /\ x = (s, s0)) /\
    (st.2 = true <-> exists i ids k s, i ∈ pre /\ batch_ids i b = Some ids /\ ids !! k = Some s /\ 0 < k)).
  assert (P (seq 0 n) (sp, cpl, hc)) as (H1 & H2 & H3 & H4 & H5).
  { refine (foldM_sound _ P _ _ _ _ _ Hrun).
    - unfold P. simpl. split_and!; [done| | | |].
      + intros i Hi. by apply not_elem_of_nil in Hi.
      + intros j u Hj x. rewrite Forall_lookup in Hempty. rewrite <- (Hempty j u Hj).
        split; [by intros ?%not_elem_of_empty|]. intros (i & Hi & _). by apply not_elem_of_nil in Hi.
      + intros x. split; [by intros ?%not_elem_of_empty|]. intros (i & ? & ? & ? & ? & Hi & _). by apply not_elem_of_nil in Hi.
      + split; [done|]. intros (i & ? & ? & ? & Hi & _). by apply not_elem_of_nil in Hi.
    - intros pre i [[sp1 cpl1] hc1] [[sp2 cpl2] hc2] [_ Hi]%elem_of_seq (HL & HA & HS & HC & HH) Hs. simpl in *.
      unfold stats_step in Hs.
      destruct (batch_id0 i b) as [s0|] eqn:E0; [|done]. simpl in Hs.
      destruct (batch_ids i b) as [ids|] eqn:Eids; [|done]. simpl in Hs.
      assert (Forall (fun e : nat * Z => 0 <= snd e)%Z (imap pair ids)) as Hnn.
      { apply Forall_forall. intros [k s] Hin%imap_pair_elem. specialize (Hids i ids Hi Eids). rewrite Forall_lookup in Hids. by apply (Hids k). }
      destruct (stats_inner_ok b s0 i (imap pair ids) sp1 cpl1 hc1 sp2 cpl2 hc2 Hnn Hs) as (L & S & C & Hh).
      rewrite imap_pair_snd in S. unfold P. simpl. split_and!; [congruence| | | |].
      + intros j [?| ->%list_elem_of_singleton]%elem_of_app; [by apply HA|]. rewrite E0, Eids. done.
      + intros j u2 (u1 & Hu1 & Hx)%S x. rewrite Hx, (HS j u1 Hu1). split.
        * intros [(i' & ? & ? & ?)|[? ?]]; [exists i'|exists i]; rewrite elem_of_app, list_elem_of_singleton;
            (split_and!; [tauto| |done]); [done|].
          exists ids. done.
        * intros (i' & [?| ->%list_elem_of_singleton]%elem_of_app & Hh' & ?); [left; by exists i'|right].
          destruct Hh' as (ids' & ? & ?). by simplify_eq.
      + intros x. rewrite C, HC. setoid_rewrite elem_of_app. setoid_rewrite list_elem_of_singleton. split.
        * intros [(i' & ids' & k & s & s' & ? & ?)|(k & s & ?%imap_pair_elem & ? & ?)]; [exists i', ids', k, s, s'; tauto|].
          exists i, ids, k, s, s0. split_and!; [tauto|done..].
        * intros (i' & ids' & k & s & s' & [?| ->] & ?); [left; by exists i', ids', k, s, s'|right].
          destruct_and!. simplify_eq. exists k, s. by rewrite imap_pair_elem.
      + rewrite Hh, HH. setoid_rewrite elem_of_app. setoid_rewrite list_elem_of_singleton. split.
        * intros [(i' & ids' & k & s & ? & ?)|(k & s & ?%imap_pair_elem & ?)]; [exists i', ids', k, s; tauto|].
          exists i, ids, k, s. split_and!; [tauto|done..].
        * intros (i' & ids' & k & s & [?| ->] & ?); [left; by exists i', ids', k, s|right].
          destruct_and!. simplify_eq. exists k, s. by rewrite imap_pair_elem. }
  simpl in *. setoid_rewrite elem_of_seq in H2. setoid_rewrite elem_of_seq in H3. setoid_rewrite elem_of_seq in H4.
  setoid_rewrite elem_of_seq in H5. split_and!; [done| | | |].
  - intros i Hi. apply H2. lia.
  - intros j u Hj x. rewrite (H3 j u Hj). split; intros (i & ? & ?); exists i; (split; [lia|done]).
  - intros x. rewrite H4. split; intros (i & ids & k & s & s0 & ? & ?); exists i, ids, k, s, s0; (split; [lia|done]).
  - rewrite H5. split; intros (i & ids & k & s & ? & ?); exists i, ids, k, s; (split; [lia|done]).
Qed.


(** ** The sequence sets *)

Lemma sets_ok b n ss mp unq :
  (forall i ids, i < n -> batch_ids i b = Some ids -> Forall (fun s => 0 <= s < LLAMA_MAX_SEQ)%Z ids) ->
  foldM (sets_step b) (seq 0 n) ([], ∅, ∅) = Some (ss, mp, unq) ->
  length ss = n /\
  (forall i, i < n -> exists ids, batch_ids i b = Some ids /\ ss !! i = Some (list_to_set ids)) /\
  (forall q, default [] (mp !! q) = filter (fun i => ss !! i = Some q) (seq 0 n)).
Proof.
  intros Hids Hrun.
  apply (foldM_seq_sound _ (fun k st =>
    length st.1.1 = k /\
    (forall i, i < k -> exists ids, batch_ids i b = Some ids /\ st.1.1 !! i = Some (list_to_set ids)) /\
    (forall q, default [] (st.1.2 !! q) = filter (fun i => st.1.1 !! i = Some q) (seq 0 k)))) in Hrun; [done| |].
  - simpl. split_and!; [done|lia|]. intros q. by rewrite lookup_empty.
  - intros k [[ss1 mp1] unq1] [[ss2 mp2] unq2] Hk (HL & HS & HM) Hs. simpl in *. unfold sets_step in Hs.
    destruct (batch_ids k b) as [ids|] eqn:Eids; [|done]. simpl in Hs. unfold bits_of in Hs.
    rewrite (bs_fold_ok ids ∅) in Hs by (by apply (Hids k)). simpl in Hs. rewrite union_empty_r_L in Hs.
    destruct (foldM _ ids unq1) as [u|]; [|done]. simpl in Hs. injection Hs as <- <- <-.
    assert (forall i, i < k -> (ss1 ++ [list_to_set ids]) !! i = ss1 !! i) as Hold.
    { intros i Hi. apply lookup_app_l. lia. }
    assert ((ss1 ++ [list_to_set ids]) !! k = Some (list_to_set ids : gset Z)) as Hnew.
    { rewrite lookup_app_r, HL, Nat.sub_diag by lia. done. }
    split_and!.
    + rewrite length_app. simpl. lia.
    + intros i Hi. destruct (decide (i = k)) as [->|Hne]; [by exists ids|]. rewrite Hold by lia. apply HS. lia.
    + intros q. rewrite Nat.add_1_r, seq_S, filter_app. simpl.
      rewrite (filter_agree _ (fun i => ss1 !! i = Some q) (seq 0 k)).
      2:{ intros i [_ Hi]%elem_of_seq. by rewrite Hold by lia. }
      rewrite <- HM. rewrite filter_cons, Hnew. destruct (decide (list_to_set ids = q)) as [<-|Hne].
      * rewrite decide_True by done. by rewrite lookup_insert_eq.
      * rewrite decide_False by congruence. rewrite lookup_insert_ne by done. by rewrite app_nil_r.
Qed.

(** ** What a successful [init] establishes *)

(** The positions of sequence [s] in the batch. *)
Definition batch_holds (b : llama_batch) (s p : Z) : Prop :=
  exists i, i < b_n_tokens b /\ has_id b i s /\ batch_pos i b = Some p.

Lemma zset_min_spec u : u <> ∅ -> exists lo, zset_min u = Some lo /\ lo ∈ u /\ forall x, x ∈ u -> (lo <= x)%Z.
Proof.
  intros Hne. unfold zset_min. pose proof (elem_of_elements u) as Hel.
  destruct (elements u) as [|x l] eqn:E; [by apply elements_empty_inv, leibniz_equiv in E|].
  assert (forall l : list Z, forall x, let m := foldr Z.min x l in m ∈ x :: l /\ forall y, y ∈ x :: l -> (m <= y)%Z) as Hm.
  { clear. induction l as [|y l IH]; intros x; simpl.
    - split; [by left|]. by intros y ->%list_elem_of_singleton.
    - destruct (IH x) as [Hin Hle]. split.
      + destruct (Z.min_spec y (foldr Z.min x l)) as [[_ ->]|[_ ->]]; [by right; left|].
        apply elem_of_cons in Hin as [Hin|Hin]; [rewrite Hin; by left|by right; right].
      + intros z [->|[->|Hz]%elem_of_cons]%elem_of_cons; [|lia|].
        * specialize (Hle x ltac:(by left)). lia.
        * specialize (Hle z ltac:(by right)). lia. }
  destruct (Hm l x) as [Hin Hle]. eexists. split; [reflexivity|]. split; [by apply Hel|]. intros y Hy. by apply Hle, Hel.
Qed.

Lemma zset_max_spec u : u <> ∅ -> exists hi, zset_max u = Some hi /\ hi ∈ u /\ forall x, x ∈ u -> (x <= hi)%Z.
Proof.
  intros Hne. unfold zset_max. pose proof (elem_of_elements u) as Hel.
  destruct (elements u) as [|x l] eqn:E; [by apply elements_empty_inv, leibniz_equiv in E|].
  assert (forall l : list Z, forall x, let m := foldr Z.max x l in m ∈ x :: l /\ forall y, y ∈ x :: l -> (y <= m)%Z) as Hm.
  { clear. induction l as [|y l IH]; intros x; simpl.
    - split; [by left|]. by intros y ->%list_elem_of_singleton.
    - destruct (IH x) as [Hin Hle]. split.
      + destruct (Z.max_spec y (foldr Z.max x l)) as [[_ ->]|[_ ->]]; [|by right; left].
        apply elem_of_cons in Hin as [Hin|Hin]; [rewrite Hin; by left|by right; right].
      + intros z [->|[->|Hz]%elem_of_cons]%elem_of_cons; [|lia|].
        * specialize (Hle x ltac:(by left)). lia.
        * specialize (Hle z ltac:(by right)). lia. }
  destruct (Hm l x) as [Hin Hle]. eexists. split; [reflexivity|]. split; [by apply Hel|]. intros y Hy. by apply Hle, Hel.
Qed.

(** A set that spans no more positions than it has elements has no gap. *)
Lemma dense_range (u : gset Z) lo hi : (forall x, x ∈ u -> lo <= x <= hi)%Z ->
  (hi - lo + 1 <= Z.of_nat (base.size u))%Z -> (forall x, lo <= x <= hi -> x ∈ u)%Z.
Proof.
  intros Hin Hsz x Hx. set (r := list_to_set (seqZ lo (hi - lo + 1)) : gset Z).
  assert (base.size r = Z.to_nat (hi - lo + 1)) as Hr.
  { unfold r. rewrite size_list_to_set by apply NoDup_seqZ. by rewrite length_seqZ. }
  assert (u ⊆ r) as Hsub by (intros y Hy%Hin; unfold r; apply elem_of_list_to_set, elem_of_seqZ; lia).
  assert (u ≡ r) as Heq by (apply set_subseteq_size_equiv; [done|lia]).
  rewrite Heq. unfold r. apply elem_of_list_to_set, elem_of_seqZ. lia.
Qed.


Section InitSound.
Context {M : Type} `{llama_memory_i M}.

(** The state a successful [init] leaves, before the split state is reset, and
    the checks it passed. *)
Record init_facts (memory : option M) (inp : llama_batch) (n_vocab : Z) (nmax : Z) (a : llama_batch_allocr) : Prop := {
  if_gen    : generated inp (batch a);
  if_max    : n_seq_max a = nmax /\ (nmax <= LLAMA_MAX_SEQ)%Z;
  if_tokens : check_tokens inp n_vocab = Some true;
  if_ids    : forall i, i < b_n_tokens inp -> exists s0 ids, batch_ids i (batch a) = Some (s0 :: ids) /\
                batch_id0 i (batch a) = Some s0 /\ seq_set a !! i = Some (list_to_set (s0 :: ids)) /\
                Forall (fun s => 0 <= s < nmax)%Z (s0 :: ids);
  if_nseq   : forall i, i < b_n_tokens inp -> is_Some (batch_n_seq_id i (batch a));
  if_logits : forall i, i < b_n_tokens inp -> is_Some (batch_logits i (batch a));
  if_outs   : n_outputs a = length (outs_of a (seq 0 (b_n_tokens inp)));
  if_map    : forall q, set_idxs_of a q = filter (fun i => seq_set a !! i = Some q) (seq 0 (b_n_tokens inp));
  if_pos    : forall j u, a_seq_pos a !! j = Some u -> forall x, x ∈ u <-> batch_holds (batch a) (Z.of_nat j) x;
  if_cpl    : forall s1 s0, (s1, s0) ∈ seq_cpl a <-> exists i ids, i < b_n_tokens inp /\
                batch_ids i (batch a) = Some (s0 :: ids) /\ s1 ∈ ids;
  if_has    : has_cpl a = true <-> exists i ids, i < b_n_tokens inp /\ batch_ids i (batch a) = Some ids /\ 1 < length ids;
  if_check  : check_positions memory a = Some true /\ check_coupled memory a = Some true;
}.

Lemma marks_outs b l marks :
  mapM (fun i => (l : list Z) !! i) (seq 0 (b_n_tokens b)) = Some marks -> b_logits b = Some l ->
  length (filter (fun x => x <> 0%Z) marks) =
    length (filter (fun i => default 0%Z (batch_logits i b) <> 0%Z) (seq 0 (b_n_tokens b))).
Proof.
  intros Hm Hl. apply mapM_Some in Hm. revert Hm. generalize (seq 0 (b_n_tokens b)). intros idx Hm.
  induction Hm as [|i x idx marks Hx _ IH]; [done|]. rewrite !filter_cons.
  assert (batch_logits i b = Some x) as Hbl by (unfold batch_logits; by rewrite Hl).
  repeat case_decide; simpl; rewrite Hbl in *; simpl in *; try done. by rewrite IH.
Qed.

Lemma init_inv a inp n_vocab (memory : option M) ne nmax out a' :
  init a inp n_vocab memory ne nmax out = Some (true, a') -> (0 < nmax)%Z ->
  batch_contract inp ne (n_pos_per_embd a) ->
  exists a2, a' = split_reset a2 /\ n_embd a2 = ne /\ n_pos_per_embd a2 = n_pos_per_embd a /\
    0 < b_n_tokens inp /\ init_facts memory inp n_vocab nmax a2.
Proof.
  intros Hrun Hmax Hc. unfold init in Hrun. cbn [batch with_batch clear] in Hrun.
  destruct (ggml_assert _) eqn:Hn; [|done]. cbn [mbind option_bind] in Hrun. apply ggml_assert_inv in Hn.
  case_bool_decide as Hms; [done|].
  destruct (check_tokens inp n_vocab) as [[]|] eqn:Htok; [|done..]. cbn [mbind option_bind negb] in Hrun.
  destruct (check_seq_ids inp nmax) as [[]|] eqn:Hsid; [|done..]. cbn [mbind option_bind negb] in Hrun.
  destruct (gen_pos memory nmax (gen_seq_id (gen_n_seq_id inp))) as [b1|] eqn:Hb1; [|done]. cbn [mbind option_bind] in Hrun.
  destruct (gen_logits out b1) as [b|] eqn:Hb; [|done]. cbn [mbind option_bind] in Hrun.
  pose proof (generated_ok _ _ _ _ _ _ Hb1 Hb) as Hg. clear b1 Hb1 Hb. pose proof (g_n _ _ Hg) as Hgn.
  destruct (b_logits b) as [lg|] eqn:Hlg; [|done]. cbn [mbind option_bind] in Hrun.
  destruct (mapM (fun i => lg !! i) _) as [marks|] eqn:Hmarks; [|done]. cbn [mbind option_bind] in Hrun.
  match type of Hrun with mbind _ ?m = _ => destruct m as [[[sp cpl] hc]|] eqn:Hstats; [|done] end. cbn [mbind option_bind] in Hrun.
  match type of Hrun with mbind _ ?m = _ => destruct m as [[[ss mp] unq]|] eqn:Hsets; [|done] end. cbn [mbind option_bind] in Hrun.
  match type of Hrun with mbind _ ?m = _ => destruct m as [[idx ids]|] eqn:Hunq; [|done] end. cbn [mbind option_bind] in Hrun.
  match type of Hrun with context [split_reset ?x] => set (a2 := x) in Hrun end.
  destruct (check_positions memory a2) as [[]|] eqn:Hcp; [|done..]. cbn [mbind option_bind negb] in Hrun.
  destruct (check_coupled memory a2) as [[]|] eqn:Hcc; [|done..]. cbn [mbind option_bind negb] in Hrun.
  match type of Hrun with mbind _ ?m = _ => destruct m as [[]|]; [|done..] end. cbn [mbind option_bind negb] in Hrun.
  injection Hrun as <-. exists a2. rewrite Hgn in *.
  assert (forall i l, i < b_n_tokens inp -> batch_ids i b = Some l -> Forall (fun s => 0 <= s < nmax)%Z l) as Hids
    by (intros i l Hi; by apply (generated_ids inp b nmax)).
  apply stats_ok in Hstats as (_ & Hst1 & Hst2 & Hst3 & Hst4);
    [|intros i l Hi Hl; eapply Forall_impl; [by apply (Hids i)|simpl; lia]|by apply Forall_replicate].
  apply sets_ok in Hsets as (Hss1 & Hss2 & Hss3);
    [|intros i l Hi Hl; eapply Forall_impl; [by apply (Hids i)|simpl; lia]].
  assert (forall i, i < b_n_tokens inp -> exists s0 l, batch_ids i b = Some (s0 :: l) /\ batch_id0 i b = Some s0 /\
    ss !! i = Some (list_to_set (s0 :: l)) /\ Forall (fun s => 0 <= s < nmax)%Z (s0 :: l)) as Hall.
  { intros i Hi. destruct (Hss2 i Hi) as (l & Hl & Hset). destruct (generated_cons inp b _ _ i l Hg Hc Hl) as (s0 & tl & -> & H0).
    exists s0, tl. split_and!; [done..|]. by apply (Hids i). }
  split_and!; [done..| |]; [by apply bool_decide_eq_true in Hn|]. split; simpl; try done.
  - intros i Hi. destruct (Hall i Hi) as (s0 & l & Hl & _). unfold batch_ids in Hl. by destruct (batch_n_seq_id i b).
  - intros i Hi. unfold batch_logits. rewrite Hlg. simpl. apply mapM_Some in Hmarks.
    destruct (Forall2_lookup_l _ _ _ i i Hmarks) as (y & _ & Hy); [by apply lookup_seq_lt|]. by exists y.
  - unfold outs_of. simpl. rewrite <- Hgn. eapply marks_outs; [|done]. by rewrite Hgn.
  - intros j v Hj x. unfold batch_holds. rewrite Hgn. by rewrite (Hst2 j v Hj).
  - intros s1 s0. rewrite Hst3. split.
    + intros (i & l & k & s & s0' & Hi & Hl & H0 & Hk & Hpos & ?). simplify_eq.
      destruct (Hall i Hi) as (s0 & tl & Hl' & H0' & _). simplify_eq. exists i, tl. split_and!; [done..|].
      destruct k as [|k]; [lia|]. by eapply list_elem_of_lookup_2.
    + intros (i & tl & Hi & Hl & Hin). destruct (Hall i Hi) as (s0' & tl' & Hl' & H0' & _).
      rewrite Hl in Hl'. injection Hl' as <- <-.
      apply list_elem_of_lookup in Hin as [k Hk]. exists i, (s0 :: tl), (S k), s1, s0. split_and!; done || lia.
  - rewrite Hst4. split.
    + intros (i & l & k & s & Hi & Hl & Hk & Hpos). exists i, l. split_and!; [done..|]. apply lookup_lt_Some in Hk. lia.
    + intros (i & l & Hi & Hl & Hlen). destruct l as [|s0 [|s1 l]]; simpl in *; [lia..|]. exists i, (s0 :: s1 :: l), 1, s1.
      split_and!; done || lia.
Qed.

Lemma facts_ready memory inp n_vocab nmax a ne : init_facts memory inp n_vocab nmax a ->
  batch_contract inp ne (n_pos_per_embd a) -> n_embd a = ne -> ready a.
Proof.
  intros [Hg [Hm1 Hm2] _ Hi Hns Hl _ Hmap _ _ _ _] Hc Hne. pose proof (g_n _ _ Hg) as Hn. unfold get_n_tokens in *.
  split; rewrite ?Hn.
  - intros tk. rewrite (g_token _ _ Hg). unfold get_n_tokens. rewrite Hn. apply Hc.
  - intros e. rewrite (g_embd _ _ Hg). unfold get_n_tokens. rewrite Hn, Hne. apply Hc.
  - destruct (g_pos _ _ Hg) as (p & Hp & Hp1 & Hp2). exists p. split; [done|]. unfold get_n_tokens.
    rewrite Hn, (g_token _ _ Hg). destruct (b_pos inp) as [p'|] eqn:Ep.
    + rewrite (Hp2 ltac:(done)) in *. injection (Hp2 ltac:(done)) as ->. by apply (bc_pos _ _ _ Hc).
    + rewrite (Hp1 eq_refl). destruct (b_token inp) eqn:Et; [lia|]. pose proof (bc_gen _ _ _ Hc Ep Et). nia.
  - unfold get_n_tokens. rewrite Hn. done.
  - unfold get_n_tokens. rewrite Hn. done.
  - unfold get_n_tokens. rewrite Hn, Hm1. done.
  - unfold get_n_tokens. rewrite Hn. done.
  - by rewrite Hm1.
Qed.
End InitSound.


(** * What is proved of [init] and of the splits *)

Lemma with_split_self a : with_split (out_ids a) (n_used a) (a_used a) a = a.
Proof. by destruct a. Qed.

Section InitSpec.
Context {M : Type} `{MemoryLaws M}.

Lemma check_positions_plain memory a s : check_positions memory a = Some true -> n_pos_per_embd a <= 1 ->
  (0 <= s < n_seq_max a)%Z -> check_seq_plain memory a s = Some true.
Proof.
  intros Hc Hp Hs. unfold check_positions in Hc. rewrite bool_decide_false in Hc by lia.
  apply (checkM_true _ _ Hc). apply elem_of_seqZ. lia.
Qed.

Lemma plain_range memory a s u : check_seq_plain memory a s = Some true -> (0 <= s)%Z ->
  a_seq_pos a !! Z.to_nat s = Some u -> u <> ∅ ->
  exists lo hi, (forall x, x ∈ u <-> lo <= x <= hi)%Z /\
    forall m p0, memory = Some m -> mem_seq_pos_max s m = Some p0 -> (0 <= p0 -> lo = p0 + 1)%Z.
Proof.
  intros Hc Hs Hu Hne. unfold check_seq_plain, seq_pos_min, seq_pos_max, seq_pos_of in Hc.
  rewrite bool_decide_true, Hu in Hc by done. simpl in Hc. rewrite bool_decide_false in Hc by done.
  destruct (zset_min_spec u Hne) as (lo & Hlo & Hloin & Hlole). destruct (zset_max_spec u Hne) as (hi & Hhi & Hhiin & Hhile).
  rewrite Hlo, Hhi in Hc. simpl in Hc.
  match type of Hc with mbind _ ?m = _ => destruct m as [p0|] eqn:Ep0; [|done] end. simpl in Hc.
  match type of Hc with mbind _ ?m = _ => destruct m as [[]|] eqn:Eok; [|done..] end. simpl in Hc.
  destruct (i32_chk (hi - lo)) as [d|] eqn:Ed; [|done]. apply i32_chk_inv in Ed as [-> _]. simpl in Hc.
  destruct (i32_chk (hi - lo + 1)) as [d|] eqn:Ed; [|done]. apply i32_chk_inv in Ed as [-> _]. simpl in Hc.
  injection Hc as Hc. apply negb_true_iff, bool_decide_eq_false in Hc.
  exists lo, hi. split.
  - intros x. split; [intros Hx; specialize (Hlole x Hx); specialize (Hhile x Hx); lia|].
    apply (dense_range u lo hi); [|lia]. intros y Hy. specialize (Hlole y Hy). specialize (Hhile y Hy). lia.
  - intros m q -> Hq Hq0. rewrite Hq in Ep0. injection Ep0 as <-. rewrite bool_decide_true in Eok by done.
    destruct (i32_chk (q + 1)) as [d|] eqn:Ed; [|done]. apply i32_chk_inv in Ed as [-> _]. simpl in Eok.
    injection Eok as Eok. by apply bool_decide_eq_true in Eok.
Qed.

(** C24: a successful [init] leaves a batch in which every token of the caller has
    its arrays, at least one valid sequence id, a vocabulary token and its
    sequence set indexed, with the outputs counted and no token used yet: the
    state from which the splits are proved. *)
Theorem init_ready a inp n_vocab (memory : option M) ne nmax out a' :
  init a inp n_vocab memory ne nmax out = Some (true, a') -> (0 < nmax)%Z ->
  batch_contract inp ne (n_pos_per_embd a) ->
  ready a' /\ generated inp (batch a') /\ a' = split_reset a' /\
  get_n_outputs a' = length (outs_of a' (seq 0 (b_n_tokens inp))) /\
  (forall tk i t, b_token (batch a') = Some tk -> i < get_n_tokens a' -> tk !! i = Some t -> (0 <= t < n_vocab)%Z) /\
  (has_cpl a' = false -> forall i, i < get_n_tokens a' -> exists s, batch_ids i (batch a') = Some [s]).
Proof.
  intros Hrun Hmax Hc. destruct (init_inv _ _ _ _ _ _ _ _ Hrun Hmax Hc) as (a2 & -> & Hne & Hnp & Hpos & Hf).
  assert (ready a2) as Hr by (eapply facts_ready; [done|by rewrite Hnp|done]).
  pose proof (g_n _ _ (if_gen _ _ _ _ _ Hf)) as Hn. unfold get_n_tokens.
  split_and!.
  - apply (ready_same a2); [|done]. by eexists _, _, _.
  - apply (if_gen _ _ _ _ _ Hf).
  - done.
  - apply (if_outs _ _ _ _ _ Hf).
  - intros tk i t Htk Hi Ht. pose proof (if_tokens _ _ _ _ _ Hf) as Hck. unfold check_tokens in Hck.
    rewrite <- (g_token _ _ (if_gen _ _ _ _ _ Hf)), <- Hn in Hck. simpl in Htk, Hi. rewrite Htk in Hck.
    pose proof (checkM_true _ _ Hck i) as Hv. simpl in Hv. rewrite Ht in Hv. simpl in Hv.
    assert (Some (bool_decide (0 <= t < n_vocab)%Z) = Some true) as Hv' by (apply Hv, elem_of_seq; lia).
    injection Hv' as Hv'. by apply bool_decide_eq_true in Hv'.
  - intros Hcpl i Hi. simpl in *. rewrite Hn in Hi. destruct (if_ids _ _ _ _ _ Hf i Hi) as (s0 & l & Hl & _).
    exists s0. destruct l as [|s1 l]; [done|]. exfalso. apply not_true_iff_false in Hcpl. apply Hcpl.
    apply (if_has _ _ _ _ _ Hf). exists i, (s0 :: s1 :: l). split_and!; [done..|]. simpl. lia.
Qed.

(** The positions of a sequence in an accepted batch are a range that continues
    the memory. *)
Lemma init_ranges a inp n_vocab (memory : option M) ne nmax out a' :
  init a inp n_vocab memory ne nmax out = Some (true, a') -> (0 < nmax)%Z ->
  batch_contract inp ne (n_pos_per_embd a) -> n_pos_per_embd a <= 1 ->
  forall s p, (0 <= s < nmax)%Z -> batch_holds (batch a') s p ->
     exists lo hi, (forall q, batch_holds (batch a') s q <-> lo <= q <= hi)%Z /\
       forall m q, memory = Some m -> mem_ok m -> (nmax <= mem_seqs m)%Z -> mem_holds m s q ->
         mem_holds m s (lo - 1) /\ (q < lo)%Z.
Proof.
  intros Hrun Hmax Hc Hplain. destruct (init_inv _ _ _ _ _ _ _ _ Hrun Hmax Hc) as (a2 & -> & Hne & Hnp & Hpos & Hf).
  pose proof (if_check _ _ _ _ _ Hf) as [Hcp Hcc]. destruct (if_max _ _ _ _ _ Hf) as [Hm1 Hm2].
  pose proof (g_n _ _ (if_gen _ _ _ _ _ Hf)) as Hn. simpl.
  intros s p Hs Hp. pose proof (check_positions_plain memory a2 s Hcp) as Hck. rewrite Hnp, Hm1 in Hck. specialize (Hck Hplain Hs).
  destruct (a_seq_pos a2 !! Z.to_nat s) as [u|] eqn:Hu.
  2:{ unfold check_seq_plain, seq_pos_of in Hck. rewrite Hu in Hck. by destruct (bool_decide (0 <= s)%Z). }
  pose proof (if_pos _ _ _ _ _ Hf _ u Hu) as Hx. rewrite Z2Nat.id in Hx by lia.
  destruct (plain_range memory a2 s u Hck) as (lo & hi & Hr & Hlo); [lia|done| |].
  { intros ->. apply Hx in Hp. by apply not_elem_of_empty in Hp. }
  exists lo, hi. split; [intros q; by rewrite <- Hx, Hr|]. intros m q -> Hok Hseqs Hq.
  destruct (mem_max_ok m s Hok) as (p0 & Hp0 & [[-> Hno]|[Hh Hall]]); [lia|by apply Hno in Hq|].
  pose proof (mem_pos_nonneg m s p0 Hok Hh). rewrite (Hlo m p0) by done.
  replace (p0 + 1 - 1)%Z with p0 by lia. split; [done|]. specialize (Hall q Hq). lia.
Qed.

(** C23: with one position per token, the batch accepted by [init] holds for each
    of its sequences a gapless range of positions that starts right after the
    last position the memory has for the sequence, so decoding the batch
    continues the memory, and sequences coupled by a token end at the same
    position in the memory. *)
Theorem init_continues_memory a inp n_vocab (memory : option M) ne nmax out a' :
  init a inp n_vocab memory ne nmax out = Some (true, a') -> (0 < nmax)%Z ->
  batch_contract inp ne (n_pos_per_embd a) -> n_pos_per_embd a <= 1 ->
  (forall s p, (0 <= s < nmax)%Z -> batch_holds (batch a') s p ->
     exists lo hi, (forall q, batch_holds (batch a') s q <-> lo <= q <= hi)%Z /\
       forall m q, memory = Some m -> mem_ok m -> (nmax <= mem_seqs m)%Z -> mem_holds m s q ->
         mem_holds m s (lo - 1) /\ (q < lo)%Z) /\
  (forall m i ids s0 s1, memory = Some m -> i < get_n_tokens a' ->
     batch_ids i (batch a') = Some (s0 :: ids) -> s1 ∈ ids ->
     mem_seq_pos_min s0 m = mem_seq_pos_min s1 m /\ mem_seq_pos_max s0 m = mem_seq_pos_max s1 m).
Proof.
  intros Hrun Hmax Hc Hplain. split; [by eapply init_ranges|]. destruct (init_inv _ _ _ _ _ _ _ _ Hrun Hmax Hc) as (a2 & -> & Hne & Hnp & Hpos & Hf).
  pose proof (if_check _ _ _ _ _ Hf) as [Hcp Hcc]. destruct (if_max _ _ _ _ _ Hf) as [Hm1 Hm2].
  pose proof (g_n _ _ (if_gen _ _ _ _ _ Hf)) as Hn. simpl.
  intros m i ids s0 s1 -> Hi Hids Hs1. assert ((s1, s0) ∈ seq_cpl a2) as Hin.
  { apply (if_cpl _ _ _ _ _ Hf). exists i, ids. change (i < b_n_tokens (batch a2)) in Hi. split_and!; [lia|done|done]. }
  change (i < b_n_tokens (batch a2)) in Hi. rewrite Hn in Hi.
  destruct (if_ids _ _ _ _ _ Hf i Hi) as (s0' & l & Hl & _ & _ & Hv). simplify_eq.
  apply Forall_cons in Hv as [Hv0 Hv]. rewrite Forall_forall in Hv. specialize (Hv s1 Hs1). simpl in Hv, Hv0.
  unfold check_coupled in Hcc. pose proof (checkM_true _ _ Hcc s1) as Hc1. simpl in Hc1.
  pose proof (checkM_true _ _ (Hc1 ltac:(apply elem_of_seqZ; lia)) s0) as Hc0. simpl in Hc0.
  specialize (Hc0 ltac:(apply elem_of_seqZ; lia)). rewrite bool_decide_true in Hc0 by done.
  destruct (mem_seq_pos_min s1 m) as [x|]; [|done]. simpl in Hc0. destruct (mem_seq_pos_min s0 m) as [y|]; [|done]. simpl in Hc0.
  case_bool_decide as Hxy; [done|].
  destruct (mem_seq_pos_max s1 m) as [z|]; [|done]. simpl in Hc0. destruct (mem_seq_pos_max s0 m) as [w|]; [|done]. simpl in Hc0.
  injection Hc0 as Hc0. apply bool_decide_eq_true in Hc0. by subst.
Qed.
End InitSpec.


(** A run from a fresh split state, in terms of the batch. *)
Lemma run_same_batch o I bound shape split a :
  step_spec o I bound shape split ->
  (forall a ids nu us u l, shape (with_split ids nu us a) u l -> shape a u l) ->
  ready a -> I (split_reset a) ->
  exists us a' idxss, split_all (S (get_n_tokens a)) split (split_reset a) = Some (us, a') /\
    Forall2 (fun u l => built a u l /\ shape a u l /\ l <> [] /\ length l <= bound) us idxss /\
    same_tokens o (seq 0 (get_n_tokens a)) (concat idxss) /\
    get_n_used a' = get_n_tokens a /\ get_out_ids a' = outs_of a (concat idxss) /\ same_batch a a'.
Proof.
  intros Hstep Hsh Hr HI.
  assert (ready (split_reset a)) as Hr' by (apply (ready_same a); [by eexists _, _, _|done]).
  destruct (split_all_ok o I bound shape split Hstep Hsh (S (get_n_tokens a)) (split_reset a) Hr')
    as (us & a' & idxss & Hrun & H1 & H2 & H3 & H4 & H5 & H6 & H7 & H8); [by apply length_replicate|done| |].
  { rewrite unused_reset, length_seq. lia. }
  rewrite unused_reset in *. rewrite length_seq in H5. exists us, a', idxss. split_and!; [done| |done|done|done|destruct H7 as (i0 & n0 & u0 & ->); by exists i0, n0, u0].
  clear -H1 H2 H4 Hsh. revert H2 H4. induction H1 as [|u l us idxss Hb _ IH]; intros H2 H4; constructor.
  - inversion H2; inversion H4; subst. split_and!; [done|by eapply Hsh|naive_solver..].
  - inversion H2; inversion H4; subst. by apply IH.
Qed.

Lemma run_from_reset o I bound shape split a :
  step_spec o I bound shape split ->
  (forall a ids nu us u l, shape (with_split ids nu us a) u l -> shape a u l) ->
  ready a -> I (split_reset a) ->
  exists us a' idxss, split_all (S (get_n_tokens a)) split (split_reset a) = Some (us, a') /\
    Forall2 (fun u l => built a u l /\ shape a u l /\ l <> [] /\ length l <= bound) us idxss /\
    same_tokens o (seq 0 (get_n_tokens a)) (concat idxss) /\
    get_n_used a' = get_n_tokens a /\ get_out_ids a' = outs_of a (concat idxss) /\ get_n_tokens a' = get_n_tokens a.
Proof.
  intros Hstep Hsh Hr HI. destruct (run_same_batch o I bound shape split a Hstep Hsh Hr HI) as (us & a' & idxss & H1 & H2 & H3 & H4 & H5 & H6).
  exists us, a', idxss. split_and!; try done. by destruct H6 as (? & ? & ? & ->).
Qed.

(** The ubatches of both ways of splitting carry tokens of the batch. *)
Lemma split_tokens a n_ubatch split : ready a -> (split = split_simple n_ubatch \/ split = split_equal n_ubatch false) ->
  exists us a', split_all (S (get_n_tokens a)) split (split_reset a) = Some (us, a') /\ same_batch a a' /\
    forall u, u ∈ us -> exists l, built a u l /\ l <> [] /\ forall i, i ∈ l -> i < get_n_tokens a.
Proof.
  intros Hr Hsplit. assert (exists o I bound shape, step_spec o I bound shape split /\ (forall a ids nu us u l, shape (with_split ids nu us a) u l -> shape a u l) /\ I (split_reset a)) as (o & I & bound & shape & H1 & H2 & H3).
  { destruct Hsplit as [->| ->].
    - eexists _, _, _, _. split; [apply split_simple_step|]. split; [done|].
      exists 0. split_and!; [apply length_replicate|lia|]. intros i Hi. rewrite bool_decide_false by lia. by apply lookup_replicate_2.
    - eexists _, _, _, _. split; [apply (split_equal_step n_ubatch false)|]. split; [done|].
      split; [|done]. intros q. exists 0. split; [lia|]. intros j i Hi. rewrite bool_decide_false by lia.
      apply lookup_replicate_2. apply list_elem_of_lookup_2 in Hi. by apply (elem_set_idxs a q i Hr) in Hi as [? _]. }
  destruct (run_same_batch o I bound shape split a H1 H2 Hr H3) as (us & a' & idxss & Hrun & HF & Hst & _ & _ & Hs). exists us, a'. split; [done|]. split; [done|].
  intros u [k Hk]%list_elem_of_lookup_1. destruct (Forall2_lookup_l _ _ _ _ _ HF Hk) as (l & Hl & Hb & _ & Hne & _). exists l. split_and!; [done..|].
  intros i Hi. assert (i ∈ concat idxss) as Hin.
  { apply list_elem_of_In, in_concat. exists l. split; [by eapply list_elem_of_In, list_elem_of_lookup_2|by apply list_elem_of_In]. }
  assert (i ∈ seq 0 (get_n_tokens a)) as H; [|by apply elem_of_seq in H as [_ ?]]. destruct o; cbn in Hst; by rewrite Hst.
Qed.

(** The run of [split_simple], for the callers. *)
Lemma split_simple_all a n_ubatch : ready a ->
  exists us a' idxss, split_all (S (get_n_tokens a)) (split_simple n_ubatch) (split_reset a) = Some (us, a') /\
    Forall2 (fun u l => built a u l /\ simple_shape a u l /\ l <> [] /\ length l <= Nat.max 1 n_ubatch) us idxss /\
    concat idxss = seq 0 (get_n_tokens a) /\
    get_n_used a' = get_n_tokens a /\ get_out_ids a' = outs_of a (seq 0 (get_n_tokens a)) /\ get_n_tokens a' = get_n_tokens a.
Proof.
  intros Hr. destruct (run_from_reset _ _ _ _ _ a (split_simple_step n_ubatch)) as (us & a' & idxss & Hrun & HF & Hst & Hu & Ho & Hn);
    [done|done| |].
  - exists 0. split_and!; [apply length_replicate|lia|]. intros i Hi. rewrite bool_decide_false by lia. by apply lookup_replicate_2.
  - simpl in Hst. rewrite <- Hst in Ho. by exists us, a', idxss.
Qed.

(** Splitting a batch with [split_simple] until it returns an empty ubatch
    terminates, hands out every token of the batch exactly once and in order,
    each ubatch carrying the batch's data for its tokens and at most [n_ubatch]
    of them (one if [n_ubatch] is 0), and lists the output tokens in order. *)
Theorem split_simple_run a n_ubatch : ready a ->
  exists us a' idxss, split_all (S (get_n_tokens a)) (split_simple n_ubatch) (split_reset a) = Some (us, a') /\
    Forall2 (fun u l => built a u l /\ simple_shape a u l /\ l <> [] /\ length l <= Nat.max 1 n_ubatch) us idxss /\
    concat idxss = seq 0 (get_n_tokens a) /\
    get_n_used a' = get_n_tokens a /\ get_out_ids a' = outs_of a (seq 0 (get_n_tokens a)).
Proof. intros Hr. destruct (split_simple_all a n_ubatch Hr) as (us & a' & idxss & ? & ? & ? & ? & ? & _). by exists us, a', idxss. Qed.

(** Splitting with [split_seq] terminates and hands out every token exactly
    once; the tokens of a ubatch form one sequence whose token indices grow and
    whose sequence sets only shrink, at most [n_ubatch] of them. *)
Theorem split_seq_run a n_ubatch : ready a ->
  exists us a' idxss, split_all (S (get_n_tokens a)) (split_seq n_ubatch) (split_reset a) = Some (us, a') /\
    Forall2 (fun u l => built a u l /\ seq_shape a u l /\ l <> [] /\ length l <= Nat.max 1 n_ubatch) us idxss /\
    concat idxss ≡ₚ seq 0 (get_n_tokens a) /\
    get_n_used a' = get_n_tokens a /\ get_out_ids a' = outs_of a (concat idxss).
Proof.
  intros Hr. destruct (run_from_reset _ _ _ _ _ a (split_seq_step n_ubatch)) as (us & a' & idxss & Hrun & HF & Hst & Hu & Ho & _);
    [done|done|done|]. exists us, a', idxss. by split_and!.
Qed.

(** C25: splitting with [split_equal] terminates and hands out every token exactly
    once; a ubatch consists of rows of equally many consecutive tokens of
    pairwise disjoint sequence sets, and has at most [n_ubatch + 1] tokens.  In
    sequential mode the batch must have no coupled sequences. *)
Theorem split_equal_run a n_ubatch sequential : ready a -> sequential && has_cpl a = false ->
  exists us a' idxss, split_all (S (get_n_tokens a)) (split_equal n_ubatch sequential) (split_reset a) = Some (us, a') /\
    Forall2 (fun u l => built a u l /\ equal_shape a u l /\ l <> [] /\ length l <= n_ubatch + 1) us idxss /\
    concat idxss ≡ₚ seq 0 (get_n_tokens a) /\
    get_n_used a' = get_n_tokens a /\ get_out_ids a' = outs_of a (concat idxss).
Proof.
  intros Hr Hc. destruct (run_from_reset _ _ _ _ _ a (split_equal_step n_ubatch sequential))
    as (us & a' & idxss & Hrun & HF & Hst & Hu & Ho & _); [done|done| |exists us, a', idxss; by split_and!].
  split; [|done]. intros q. exists 0. split; [lia|]. intros j i Hi. rewrite bool_decide_false by lia.
  apply lookup_replicate_2. apply list_elem_of_lookup_2 in Hi. by apply (elem_set_idxs a q i Hr) in Hi as [? _].
Qed.

(** * Concrete batches *)

(** A fixed memory in which every sequence holds the positions [0 .. last]. *)
#[local] Instance ramp_memory : llama_memory_i Z := {
  mem_clear _ := None;
  mem_seq_rm _ _ _ _ := None;
  mem_seq_cp _ _ _ _ _ := None;
  mem_seq_keep _ _ := None;
  mem_seq_add _ _ _ _ _ := None;
  mem_seq_div _ _ _ _ _ := None;
  mem_seq_pos_min s last := Some 0%Z;
  mem_seq_pos_max s last := Some last;
}.

#[local] Program Instance ramp_laws : MemoryLaws Z := {
  mem_ok last := (0 <= last)%Z;
  mem_seqs last := LLAMA_MAX_SEQ;
  mem_holds last s p := (0 <= p <= last)%Z;
}.
Next Obligation. simpl. lia. Qed.
Next Obligation. simpl. intros m s Hm _. exists 0%Z. split; [done|]. right. split; [lia|]. intros p' Hp. lia. Qed.
Next Obligation. simpl. intros m s Hm _. exists m. split; [done|]. right. split; [lia|]. intros p' Hp. lia. Qed.

(** Two interleaved sequences, positions 3 and 4, output for the last token. *)
Definition demo_inp : llama_batch :=
  mkBatch 4 (Some [5; 6; 7; 8]%Z) None (Some [3; 3; 4; 4]%Z) (Some [1; 1; 1; 1]%Z)
    (Some [[0]; [1]; [0]; [1]]%Z) None.

Definition demo_init : option (bool * llama_batch_allocr) :=
  init (new_allocr 1) demo_inp 100 (Some 2%Z) 0 2 false.
Definition demo_state : llama_batch_allocr := default (new_allocr 1) (snd <$> demo_init).

Lemma demo_init_ok : init (new_allocr 1) demo_inp 100 (Some 2%Z) 0 2 false = Some (true, demo_state).
Proof.
  change (demo_init = Some (true, demo_state)).
  assert (fst <$> demo_init = Some true) as H by (vm_compute; reflexivity). unfold demo_state.
  destruct demo_init as [[b a]|]; [|done]. simpl in *. by injection H as ->.
Qed.

Lemma demo_contract : batch_contract demo_inp 0 1.
Proof.
  split; simpl.
  - intros tk [= <-]. simpl. lia.
  - done.
  - intros p [= <-]. simpl. lia.
  - done.
  - intros l [= <-]. repeat constructor; lia.
Qed.

Lemma demo_is_ready : ready demo_state.
Proof.
  destruct (init_inv _ _ _ _ _ _ _ _ demo_init_ok) as (a2 & Heq & Hne & Hnp & _ & Hf); [lia|apply demo_contract|].
  rewrite Heq. apply (ready_same a2); [by eexists _, _, _|].
  eapply facts_ready; [done|rewrite Hnp; apply demo_contract|done].
Qed.

Lemma init_ready_witness : ready demo_state /\ has_cpl demo_state = false.
Proof.
  pose proof (init_ready _ _ _ _ _ _ _ _ demo_init_ok ltac:(lia) demo_contract) as Hr.
  split; [apply Hr|vm_compute; reflexivity].
Defined.

Lemma init_continues_memory_witness :
  exists lo hi, (forall q, batch_holds (batch demo_state) 0 q <-> lo <= q <= hi)%Z /\ lo = 3%Z.
Proof.
  destruct (init_continues_memory _ _ _ _ _ _ _ _ demo_init_ok ltac:(lia) demo_contract ltac:(simpl; lia)) as [Hr _].
  assert (batch_holds (batch demo_state) 0 3) as H3.
  { exists 0. vm_compute. split; [lia|]. split; [|done]. exists [0%Z]. split; [done|]. by left. }
  destruct (Hr 0 3 ltac:(lia) H3)%Z as (lo & hi & Hq & Hm). exists lo, hi. split; [done|].
  destruct (Hm 2 2 eq_refl)%Z as [Hl Hlt]; simpl in *; [lia|unfold LLAMA_MAX_SEQ; lia|lia|lia].
Defined.

Lemma split_simple_run_witness :
  exists us a' idxss, split_all 5 (split_simple 3) (split_reset demo_state) = Some (us, a') /\
    Forall2 (fun u l => built demo_state u l /\ simple_shape demo_state u l /\ l <> [] /\ length l <= 3) us idxss /\
    concat idxss = [0; 1; 2; 3].
Proof.
  destruct (split_simple_run demo_state 3 demo_is_ready) as (us & a' & idxss & H1 & H2 & H3 & _).
  exists us, a', idxss. by split_and!.
Defined.

Lemma split_seq_run_witness :
  exists us a' idxss, split_all 5 (split_seq 3) (split_reset demo_state) = Some (us, a') /\
    Forall2 (fun u l => built demo_state u l /\ seq_shape demo_state u l /\ l <> [] /\ length l <= 3) us idxss /\
    concat idxss ≡ₚ [0; 1; 2; 3].
Proof.
  destruct (split_seq_run demo_state 3 demo_is_ready) as (us & a' & idxss & H1 & H2 & H3 & _).
  exists us, a', idxss. by split_and!.
Defined.

Lemma split_equal_run_witness :
  exists us a' idxss, split_all 5 (split_equal 4 true) (split_reset demo_state) = Some (us, a') /\
    Forall2 (fun u l => built demo_state u l /\ equal_shape demo_state u l /\ l <> [] /\ length l <= 5) us idxss /\
    concat idxss ≡ₚ [0; 1; 2; 3].
Proof.
  destruct (split_equal_run demo_state 4 true demo_is_ready) as (us & a' & idxss & H1 & H2 & H3 & _);
    [vm_compute; reflexivity|]. exists us, a', idxss. by split_and!.
Defined.

(** The bound of [split_equal_run] is attained: with [n_ubatch = 1] the two
    sequences of the batch give a ubatch of two tokens. *)
Lemma split_equal_exceeds_n_ubatch :
  (fun r => u_n_tokens (fst r)) <$> split_equal 1 false demo_state = Some 2.
Proof. vm_compute. reflexivity. Qed.

(** The positions of a sequence may decrease within an accepted batch: the last
    position seen is never recorded. *)
Lemma init_accepts_decreasing_positions :
  fst <$> init (M := Z) (new_allocr 1) (mkBatch 2 (Some [5; 6]%Z) None (Some [1; 0]%Z) (Some [1; 1]%Z) (Some [[0]; [0]]%Z) None)
    100 None 0 1 false = Some true.
Proof. vm_compute. reflexivity. Qed.

End Batch.
