(* ===== verification/KvCache.v ===== *)
(** The unified key/value cache: class [llama_kv_cache] of
    [llama_cpp_repo/src/llama-kv-cache.cpp] and [llama-kv-cache.h], with
    [llama_hparams::is_masked_swa] of [llama-hparams.h].  This file holds the
    model: the streams of cells, the sequence operations, slot search, placing a
    ubatch, the graph inputs, and the batch and update contexts.  The tensors
    themselves are data of the backend: their copies go through a parameter. *)

From S2P Require Import Prelude.
From S2P Require Import KvCells.
From S2P Require Import Memory.
From S2P Require Import Batch.
Import KvCells.Cells Memory.Memory.

Module B := Batch.Batch.

Module Kv.

(** * 32-bit unsigned arithmetic on sizes *)

Definition u32_add (a b : nat) : nat := Z.to_nat (u32_wrap (Z.of_nat a + Z.of_nat b)).
Definition u32_sub (a b : nat) : nat := Z.to_nat (u32_wrap (Z.of_nat a - Z.of_nat b)).

(** [(int32_t) n] of an unsigned value. *)
Definition i32_of_u32 (n : Z) : Z := if bool_decide (n <= INT32_MAX)%Z then n else (n - 4294967296)%Z.

(** * Sliding windows *)

Inductive llama_swa_type :=
  | LLAMA_SWA_TYPE_NONE
  | LLAMA_SWA_TYPE_STANDARD
  | LLAMA_SWA_TYPE_CHUNKED
  | LLAMA_SWA_TYPE_SYMMETRIC.

#[global] Instance swa_type_eq_dec : EqDecision llama_swa_type.
Proof. solve_decision. Defined.

(** Integer division by zero has no value. *)
Definition is_masked_swa `{BuildMode} (n_swa : Z) (swa_type : llama_swa_type) (p0 p1 : Z) : option bool :=
  ASSERT bool_decide (0 <= p0 /\ 0 <= p1)%Z;
  match swa_type with
  | LLAMA_SWA_TYPE_NONE => Some false
  | LLAMA_SWA_TYPE_STANDARD =>
      d ← i32_chk (p1 - p0); Some (bool_decide (i32_of_u32 n_swa <= d)%Z)
  | LLAMA_SWA_TYPE_CHUNKED =>
      if bool_decide (n_swa = 0)%Z then None else
      let pos_chunk_start := i32_of_u32 (u32_wrap (u32_wrap p1 / n_swa * n_swa)) in
      Some (bool_decide (p0 < pos_chunk_start)%Z)
  | LLAMA_SWA_TYPE_SYMMETRIC =>
      let half_n_swa := Z.quot (i32_of_u32 n_swa) 2 in
      pos_diff ← i32_chk (p1 - p0);
      Some (bool_decide (pos_diff < - half_n_swa \/ half_n_swa < pos_diff)%Z)
  end.

(** * The cache *)

Record stream_copy_info := mkCopyInfo { ssrc : list nat; sdst : list nat }.

Definition copy_info_empty `{BuildMode} (i : stream_copy_info) : option bool :=
  ASSERT bool_decide (length (ssrc i) = length (sdst i));
  Some (bool_decide (length (ssrc i) = 0)).

Record slot_info := mkSlot { si_s0 : nat; si_s1 : nat; strm : list nat; idxs : list (list nat) }.

Definition slot_head (si : slot_info) : option nat :=
  GGML_ASSERT bool_decide (length (idxs si) = 1);
  l ← idxs si !! 0; l !! 0.
Definition slot_size (si : slot_info) : option nat :=
  GGML_ASSERT bool_decide (length (idxs si) = length (strm si));
  length <$> idxs si !! 0.
Definition slot_n_stream (si : slot_info) : nat := length (strm si).
Definition slot_empty (si : slot_info) : bool := bool_decide (length (idxs si) = 0).
Definition slot_is_contiguous (si : slot_info) : bool :=
  match idxs si with
  | [] | [] :: _ => true
  | [h :: l] => forallb (fun '(i, x) => bool_decide (x = h + i)) (imap pair (h :: l))
  | _ :: _ :: _ => false
  end.

(** [return { }]. *)
Definition slot_none : slot_info := mkSlot 0 0 [] [].

(** [n_pos] is [hparams.n_pos_per_embd()], [can_shift] the answer of
    [get_can_shift] for the architecture, [rope_none] whether [rope_type] is
    [LLAMA_ROPE_TYPE_NONE], [n_embd_v_gqa] is [hparams.n_embd_v_gqa_max()]. *)
Record llama_kv_cache := mkKv {
  n_stream      : nat;
  n_pad         : nat;
  n_swa         : Z;
  swa_type      : llama_swa_type;
  n_pos         : nat;
  can_shift     : bool;
  rope_none     : bool;
  v_trans       : bool;
  n_embd_v_gqa  : nat;
  v_heads       : list nat;
  v_cells       : list llama_kv_cells;
  seq_to_stream : list nat;
  sc_info       : stream_copy_info;
}.

Definition with_heads h c := mkKv (n_stream c) (n_pad c) (n_swa c) (swa_type c) (n_pos c) (can_shift c) (rope_none c)
  (v_trans c) (n_embd_v_gqa c) h (v_cells c) (seq_to_stream c) (sc_info c).
Definition with_cells l c := mkKv (n_stream c) (n_pad c) (n_swa c) (swa_type c) (n_pos c) (can_shift c) (rope_none c)
  (v_trans c) (n_embd_v_gqa c) (v_heads c) l (seq_to_stream c) (sc_info c).
Definition with_sc i c := mkKv (n_stream c) (n_pad c) (n_swa c) (swa_type c) (n_pos c) (can_shift c) (rope_none c)
  (v_trans c) (n_embd_v_gqa c) (v_heads c) (v_cells c) (seq_to_stream c) i.

Definition set_head (s h : nat) (c : llama_kv_cache) : option llama_kv_cache :=
  l ← set_at s h (v_heads c); Some (with_heads l c).
Definition set_cells (s : nat) (x : llama_kv_cells) (c : llama_kv_cache) : option llama_kv_cache :=
  l ← set_at s x (v_cells c); Some (with_cells l c).

(** The part of the constructor that builds the cell state. *)
Definition new_cache (unified : bool) (kv_size n_seq_max pad : nat) (swa : Z) (ty : llama_swa_type)
    (npos : nat) (shiftable no_rope trans : bool) (n_embd_v : nat) : option llama_kv_cache :=
  let ns := if unified then 1 else n_seq_max in
  if bool_decide (pad = 0) then None else
  GGML_ASSERT bool_decide (kv_size `mod` pad = 0);
  GGML_ASSERT bool_decide (ns = 1 \/ ns = n_seq_max);
  let heads := replicate ns 0 in
  let cells := replicate ns (resize kv_size cells_new) in
  let s2s := replicate (Z.to_nat LLAMA_MAX_SEQ) 0 in
  let s2s := if bool_decide (1 < ns) then seq 0 ns else s2s in
  Some (mkKv ns pad swa ty npos shiftable no_rope trans n_embd_v heads cells s2s (mkCopyInfo [] [])).

Definition clear (c : llama_kv_cache) : llama_kv_cache :=
  with_heads (const 0 <$> v_heads c) (with_cells (reset <$> v_cells c) c).

(** ** Sequence operations *)

(** [GGML_ASSERT(seq_id >= 0 && seq_id < seq_to_stream.size())] and the stream. *)
Definition stream_of (seq_id : Z) (c : llama_kv_cache) : option nat :=
  GGML_ASSERT bool_decide (0 <= seq_id < Z.of_nat (length (seq_to_stream c)))%Z;
  seq_to_stream c !! Z.to_nat seq_id.

Definition from_p0 (p0 : Z) : Z := if bool_decide (p0 < 0)%Z then 0%Z else p0.
Definition to_p1 (p1 : Z) : Z := if bool_decide (p1 < 0)%Z then INT32_MAX else p1.

(** [if (new_head == cells.size()) new_head = i]. *)
Definition note_head (size i new_head : nat) : nat := if bool_decide (new_head = size) then i else new_head.

(** [if (new_head != cells.size() && new_head < head) head = new_head]. *)
Definition lower_head (size new_head head : nat) : nat :=
  if bool_decide (new_head <> size /\ new_head < head) then new_head else head.

Section Ops.
Context `{BM : BuildMode}.

Definition seq_rm_cell (seq_id p0 p1 : Z) (n i : nat) (st : llama_kv_cells * nat) : option (llama_kv_cells * nat) :=
  let '(cells, nh) := st in
  b ← pos_in i p0 p1 cells;
  if negb b then Some (cells, nh) else
  h ← seq_has i seq_id cells;
  if negb h then Some (cells, nh) else
  '(cells, freed) ← Cells.seq_rm i seq_id cells;
  Some (cells, if (freed : bool) then note_head n i nh else nh).

Definition rm_cell (p0 p1 : Z) (n i : nat) (st : llama_kv_cells * nat) : option (llama_kv_cells * nat) :=
  let '(cells, nh) := st in
  b ← pos_in i p0 p1 cells;
  if negb b then Some (cells, nh) else
  cells ← rm i cells;
  Some (cells, note_head n i nh).

(** One stream of a removal: sweep the cells, then lower the head. *)
Definition sweep_rm (f : nat -> nat -> llama_kv_cells * nat -> option (llama_kv_cells * nat)) (s : nat)
    (c : llama_kv_cache) : option llama_kv_cache :=
  cells ← v_cells c !! s;
  head ← v_heads c !! s;
  '(cells', nh) ← foldM (f (size cells)) (seq 0 (size cells)) (cells, size cells);
  c ← set_cells s cells' c;
  set_head s (lower_head (size cells) nh head) c.

Definition seq_rm (seq_id p0 p1 : Z) (c : llama_kv_cache) : option (llama_kv_cache * bool) :=
  GGML_ASSERT bool_decide (seq_id = -1 \/ (0 <= seq_id < Z.of_nat (length (seq_to_stream c))))%Z;
  let p0 := from_p0 p0 in
  let p1 := to_p1 p1 in
  if bool_decide (0 <= seq_id)%Z then
    s ← seq_to_stream c !! Z.to_nat seq_id;
    c ← sweep_rm (seq_rm_cell seq_id p0 p1) s c;
    Some (c, true)
  else
    c ← foldM (fun s c => sweep_rm (rm_cell p0 p1) s c) (seq 0 (n_stream c)) c;
    Some (c, true).

Definition seq_cp_cell (src dst p0 p1 : Z) (i : nat) (cells : llama_kv_cells) : option llama_kv_cells :=
  b ← pos_in i p0 p1 cells;
  if negb b then Some cells else
  h ← seq_has i src cells;
  if negb h then Some cells else Cells.seq_add i dst cells.

(** Copy one cell of [src] into the same cell of the destination stream. *)
Definition seq_cp_stream_cell (from : llama_kv_cells) (src dst : Z) (i : nat) (to : llama_kv_cells) : option llama_kv_cells :=
  h ← seq_has i src from;
  if negb h then Some to else
  pos ← pos_get i from;
  shift ← get_shift i from;
  ext ← ext_get i from;
  pos ← (if bool_decide (shift <> 0)%Z then
           pos ← i32_chk (pos - shift); ASSERT bool_decide (0 <= pos)%Z; Some pos
         else Some pos);
  to ← pos_set i pos to;
  to ← Cells.seq_add i dst to;
  to ← (if bool_decide (shift <> 0)%Z then '(to, _) ← pos_add i shift to; Some to else Some to);
  ext_set i ext to.

Definition get_size (c : llama_kv_cache) : option nat :=
  s ← seq_to_stream c !! 0; size <$> v_cells c !! s.

Definition seq_cp (src dst p0 p1 : Z) (c : llama_kv_cache) : option llama_kv_cache :=
  s0 ← stream_of src c;
  s1 ← stream_of dst c;
  if bool_decide (s0 = s1) then
    if bool_decide (src = dst) then Some c else
    let p0 := from_p0 p0 in
    let p1 := to_p1 p1 in
    cells ← v_cells c !! s0;
    cells ← foldM (seq_cp_cell src dst p0 p1) (seq 0 (size cells)) cells;
    set_cells s0 cells c
  else
    n ← get_size c;
    q0 ← (if bool_decide (0 < p0)%Z then q ← i32_chk (p0 + 1); Some (bool_decide (q < Z.of_nat n)%Z) else Some false);
    q1 ← (if bool_decide (0 < p1)%Z then q ← i32_chk (p1 + 1); Some (bool_decide (q < Z.of_nat n)%Z) else Some false);
    GGML_ASSERT negb ((q0 : bool) || (q1 : bool));
    let c := with_sc (mkCopyInfo (ssrc (sc_info c) ++ [s0]) (sdst (sc_info c) ++ [s1])) c in
    from ← v_cells c !! s0;
    to ← v_cells c !! s1;
    to ← foldM (seq_cp_stream_cell from src dst) (seq 0 (size from)) (reset to);
    c ← set_cells s1 to c;
    h ← v_heads c !! s0;
    set_head s1 h c.

Definition seq_keep_cell (seq_id : Z) (n i : nat) (st : llama_kv_cells * nat) : option (llama_kv_cells * nat) :=
  let '(cells, nh) := st in
  '(cells, freed) ← Cells.seq_keep i seq_id cells;
  Some (cells, if (freed : bool) then note_head n i nh else nh).

Definition seq_keep (seq_id : Z) (c : llama_kv_cache) : option llama_kv_cache :=
  s ← stream_of seq_id c;
  sweep_rm (seq_keep_cell seq_id) s c.

Definition seq_add_cell (seq_id p0 p1 shift : Z) (n i : nat) (st : llama_kv_cells * nat) : option (llama_kv_cells * nat) :=
  let '(cells, nh) := st in
  b ← pos_in i p0 p1 cells;
  if negb b then Some (cells, nh) else
  h ← seq_has i seq_id cells;
  if negb h then Some (cells, nh) else
  '(cells, freed) ← pos_add i shift cells;
  Some (cells, if (freed : bool) then note_head n i nh else nh).

Definition seq_add (seq_id p0 p1 shift : Z) (c : llama_kv_cache) : option llama_kv_cache :=
  s ← stream_of seq_id c;
  GGML_ASSERT bool_decide (n_pos c = 1);
  cells ← v_cells c !! s;
  if bool_decide (shift = 0)%Z then Some c else
  let p0 := from_p0 p0 in
  let p1 := to_p1 p1 in
  if bool_decide (p0 = p1) then Some c else
  '(cells', nh) ← foldM (seq_add_cell seq_id p0 p1 shift (size cells)) (seq 0 (size cells)) (cells, size cells);
  c ← set_cells s cells' c;
  set_head s (if bool_decide (nh <> size cells) then nh else 0) c.

Definition seq_div_cell (seq_id p0 p1 d : Z) (i : nat) (cells : llama_kv_cells) : option llama_kv_cells :=
  b ← pos_in i p0 p1 cells;
  if negb b then Some cells else
  h ← seq_has i seq_id cells;
  if negb h then Some cells else pos_div i d cells.

Definition seq_div (seq_id p0 p1 d : Z) (c : llama_kv_cache) : option llama_kv_cache :=
  s ← stream_of seq_id c;
  GGML_ASSERT bool_decide (n_pos c = 1);
  cells ← v_cells c !! s;
  if bool_decide (d = 1)%Z then Some c else
  let p0 := from_p0 p0 in
  let p1 := to_p1 p1 in
  if bool_decide (p0 = p1) then Some c else
  cells ← foldM (seq_div_cell seq_id p0 p1 d) (seq 0 (size cells)) cells;
  set_cells s cells c.

Definition seq_pos_min (seq_id : Z) (c : llama_kv_cache) : option Z :=
  s ← stream_of seq_id c; cells ← v_cells c !! s; Cells.seq_pos_min seq_id cells.
Definition seq_pos_max (seq_id : Z) (c : llama_kv_cache) : option Z :=
  s ← stream_of seq_id c; cells ← v_cells c !! s; Cells.seq_pos_max seq_id cells.

#[global] Instance kv_memory : llama_memory_i llama_kv_cache := {
  mem_clear c := Some (clear c);
  mem_seq_rm := seq_rm;
  mem_seq_cp := seq_cp;
  mem_seq_keep := seq_keep;
  mem_seq_add := seq_add;
  mem_seq_div := seq_div;
  mem_seq_pos_min := seq_pos_min;
  mem_seq_pos_max := seq_pos_max;
}.

Definition get_n_stream (c : llama_kv_cache) : nat := n_stream c.

Definition get_has_shift (c : llama_kv_cache) : option bool :=
  foldM (fun s r => cells ← v_cells c !! s; Some (r || get_has_shift cells)) (seq 0 (n_stream c)) false.

(** ** Finding a slot *)

(** Can the cell be used: it is empty, or its only sequence has it outside of
    the window of that sequence's next position. *)
Definition can_use (c : llama_kv_cache) (cells : llama_kv_cells) (idx : nat) : option bool :=
  e ← is_empty idx cells;
  if (e : bool) then Some true else
  n ← seq_count idx cells;
  if negb (bool_decide (n = 1)) then Some false else
  pos_cell ← pos_get idx cells;
  seq_id_cell ← seq_get idx cells;
  mx ← Cells.seq_pos_max seq_id_cell cells;
  mx ← i32_chk (mx + 1);
  is_masked_swa (n_swa c) (swa_type c) pos_cell mx.

(** The inner [for (i = 0; i < n_test; i++)]: [head_cur], [n_tested] and the
    indices found. *)
Fixpoint test_run (c : llama_kv_cache) (cells : llama_kv_cells) (cont : bool) (n_test : nat)
    (st : nat * nat * list nat) : option (nat * nat * list nat) :=
  match n_test with
  | 0 => Some st
  | S n_test =>
      let '(head_cur, n_tested, l) := st in
      u ← can_use c cells head_cur;
      let head_cur' := u32_add head_cur 1 in
      let n_tested := u32_add n_tested 1 in
      if (u : bool) then test_run c cells cont n_test (head_cur', n_tested, l ++ [head_cur])
      else if cont then Some (head_cur', n_tested, l)
      else test_run c cells cont n_test (head_cur', n_tested, l)
  end.

(** The [while (true)]; [Some None] is [return { }]. *)
Fixpoint slot_loop (fuel : nat) (c : llama_kv_cache) (cells : llama_kv_cells) (cont : bool) (n_tokens : nat)
    (st : nat * nat * list nat) : option (option (list nat)) :=
  match fuel with
  | 0 => None
  | S fuel =>
      let '(head_cur, n_tested, l) := st in
      let n_test := if cont then n_tokens else 1 in
      if bool_decide (size cells < u32_add head_cur n_test) then
        slot_loop fuel c cells cont n_tokens (0, u32_add n_tested (u32_sub (size cells) head_cur), l)
      else
        '(head_cur, n_tested, l) ← test_run c cells cont n_test (head_cur, n_tested, l);
        if bool_decide (length l = n_tokens) then Some (Some l) else
        let l := if cont then [] else l in
        if bool_decide (size cells <= n_tested) then Some None
        else slot_loop fuel c cells cont n_tokens (head_cur, n_tested, l)
  end.

(** The search of one sequence. *)
Definition find_cells (c : llama_kv_cache) (cells : llama_kv_cells) (head : nat) (cont : bool) (n_tokens : nat)
    : option (option (list nat)) :=
  let head_cur := if bool_decide (u32_add (get_used cells) (u32_add n_tokens n_tokens) < head) then 0 else head in
  if bool_decide (size cells < n_tokens) then Some None else
  r ← slot_loop (2 * size cells + 3) c cells cont n_tokens (head_cur, 0, []);
  match r with
  | None => Some None
  | Some l => if bool_decide (length l < n_tokens) then Some None else Some (Some l)
  end.

(** [for (s = 0; s < n_seqs; ++s)]: [inr] is [return { }]. *)
Fixpoint find_streams (c : llama_kv_cache) (u : B.llama_ubatch) (cont : bool) (n_tokens : nat)
    (l : list nat) (res : slot_info) : option (slot_info + slot_info) :=
  match l with
  | [] => Some (inl res)
  | s :: l =>
      seq_id ← B.u_seq_id_unq u !! s;
      ok ← (if bool_decide (1 < n_stream c) then
              n ← B.u_n_seq_id u !! (s * n_tokens);
              GGML_ASSERT bool_decide (n = 1)%Z;
              ids ← B.u_seq_id u !! (s * n_tokens);
              id0 ← ids !! 0;
              GGML_ASSERT bool_decide (id0 = seq_id);
              Some tt
            else Some tt);
      if bool_decide (seq_id < 0)%Z then None else
      st ← seq_to_stream c !! Z.to_nat seq_id;
      cells ← v_cells c !! st;
      head ← v_heads c !! st;
      r ← find_cells c cells head cont n_tokens;
      match r with
      | None => Some (inr slot_none)
      | Some ix => find_streams c u cont n_tokens l
          (mkSlot (si_s0 res `min` st) (si_s1 res `max` st) (strm res ++ [st]) (idxs res ++ [ix]))
      end
  end.

Definition find_slot (c : llama_kv_cache) (u : B.llama_ubatch) (cont : bool) : option slot_info :=
  let n_tokens := B.u_n_tokens u in
  let n_unq := B.u_n_seqs_unq u in
  '(n_seqs, n_tokens) ← (if bool_decide (1 < n_stream c) then
       if bool_decide (n_unq = 0) then None else
       GGML_ASSERT bool_decide (n_tokens `mod` n_unq = 0);
       Some (n_unq, n_tokens / n_unq)
     else Some (1, n_tokens));
  r ← find_streams c u cont n_tokens (seq 0 n_seqs) (mkSlot (Z.to_nat LLAMA_MAX_SEQ) 0 [] []);
  match r with
  | inr none => Some none
  | inl res => ASSERT bool_decide (si_s0 res <= si_s1 res); Some res
  end.

(** ** Placing a ubatch *)

(** One token: free the cell if it is occupied, then write position, 2D extent
    and sequences. [mx] is [seq_pos_max_rm]. *)
Definition place_token (u : B.llama_ubatch) (i idx : nat) (st : llama_kv_cells * list Z) : option (llama_kv_cells * list Z) :=
  let '(cells, mx) := st in
  e ← is_empty idx cells;
  '(cells, mx) ← (if negb e then
      n ← seq_count idx cells;
      ASSERT bool_decide (n = 1);
      seq_id ← seq_get idx cells;
      pos ← pos_get idx cells;
      if bool_decide (seq_id < 0)%Z then None else
      m ← mx !! Z.to_nat seq_id;
      mx ← set_at (Z.to_nat seq_id) (Z.max m pos) mx;
      cells ← rm idx cells;
      Some (cells, mx)
    else Some (cells, mx));
  p ← B.u_pos u !! i;
  cells ← pos_set idx p cells;
  cells ← (if B.is_pos_2d u then
             x ← B.u_pos u !! (i + B.u_n_tokens u * 2);
             y ← B.u_pos u !! (i + B.u_n_tokens u);
             ext_set idx (Ext x y) cells
           else Some cells);
  n ← B.u_n_seq_id u !! i;
  ids ← B.u_seq_id u !! i;
  if bool_decide (Z.of_nat (length ids) < n)%Z then None else
  cells ← foldM (fun s cells => Cells.seq_add idx s cells) (take (Z.to_nat n) ids) cells;
  Some (cells, mx).

Definition place_stream (si : slot_info) (u : B.llama_ubatch) (sz s : nat) (st : llama_kv_cache * list Z)
    : option (llama_kv_cache * list Z) :=
  foldM (fun ii '(c, mx) =>
    str ← strm si !! s;
    cells ← v_cells c !! str;
    row ← idxs si !! s;
    idx ← row !! ii;
    '(cells, mx) ← place_token u (s * sz + ii) idx (cells, mx);
    c ← set_cells str cells c;
    Some (c, mx)) (seq 0 sz) st.

(** Purge the positions of sequence [s] up to [seq_pos_max_rm[s]]. *)
Definition purge_seq (mx : list Z) (s : nat) (c : llama_kv_cache) : option llama_kv_cache :=
  m ← mx !! s;
  if bool_decide (m = -1)%Z then Some c else
  GGML_ASSERT bool_decide (s < length (seq_to_stream c));
  str ← seq_to_stream c !! s;
  cells ← v_cells c !! str;
  lo ← Cells.seq_pos_min (Z.of_nat s) cells;
  if bool_decide (lo <= m)%Z then
    m1 ← i32_chk (m + 1);
    '(c, _) ← seq_rm (Z.of_nat s) lo m1 c; Some c
  else Some c.

Definition move_head (si : slot_info) (s : nat) (c : llama_kv_cache) : option llama_kv_cache :=
  str ← strm si !! s;
  row ← idxs si !! s;
  b ← last row;
  set_head str (S b) c.

Definition apply_ubatch (si : slot_info) (u : B.llama_ubatch) (c : llama_kv_cache) : option llama_kv_cache :=
  sz ← slot_size si;
  ASSERT bool_decide (B.u_n_tokens u = slot_n_stream si * sz);
  '(c, mx) ← foldM (place_stream si u sz) (seq 0 (slot_n_stream si)) (c, B.seq_idx0);
  c ← foldM (purge_seq mx) (seq 0 (Z.to_nat LLAMA_MAX_SEQ)) c;
  foldM (move_head si) (seq 0 (slot_n_stream si)) c.

(** ** Preparing the slots of a batch *)

Record state_t := mkState { st_sinfo : slot_info; st_heads : list nat; st_cells : list llama_kv_cells }.

Definition save_state (si : slot_info) (c : llama_kv_cache) : option state_t :=
  l ← foldM (fun s acc =>
        str ← strm si !! s;
        cells ← v_cells c !! str;
        row ← idxs si !! s;
        x ← cp_idxs row cells;
        Some (acc ++ [x])) (seq 0 (slot_n_stream si)) [];
  Some (mkState si (v_heads c) l).

(** The loop over the ubatches: slots found, saved states, and whether all were
    placed. *)
Fixpoint place_all (us : list B.llama_ubatch) (res : list slot_info) (states : list state_t) (c : llama_kv_cache)
    : option (list slot_info * list state_t * bool * llama_kv_cache) :=
  match us with
  | [] => Some (res, states, true, c)
  | u :: us =>
      si ← find_slot c u false;
      if slot_empty si then Some (res, states, false, c) else
      st ← save_state si c;
      c ← apply_ubatch si u c;
      place_all us (res ++ [si]) (states ++ [st]) c
  end.

(** The head is taken from [v_heads_old[s]], with [s] the index within the slot. *)
Definition restore_state (st : state_t) (c : llama_kv_cache) : option llama_kv_cache :=
  foldM (fun s c =>
    str ← strm (st_sinfo st) !! s;
    cells ← v_cells c !! str;
    row ← idxs (st_sinfo st) !! s;
    saved ← st_cells st !! s;
    cells ← set_idxs row saved cells;
    c ← set_cells str cells c;
    h ← st_heads st !! s;
    set_head str h c) (seq 0 (slot_n_stream (st_sinfo st))) c.

Definition prepare (us : list B.llama_ubatch) (c : llama_kv_cache) : option (list slot_info * llama_kv_cache) :=
  '(res, states, success, c) ← place_all us [] [] c;
  GGML_ASSERT (negb (bool_decide (length states = 0)) || negb success);
  c ← foldM restore_state (rev states) c;
  if (success : bool) then Some (res, c) else Some ([], c).

(** ** The batch and update contexts *)

Record llama_kv_cache_context := mkCtx {
  c_status   : llama_memory_status;
  c_do_shift : bool;
  c_sc_info  : stream_copy_info;
  c_i_cur    : nat;
  c_sinfos   : list slot_info;
  c_ubatches : list B.llama_ubatch;
  c_n_kv     : nat;
}.

Definition ctx_failed (st : llama_memory_status) : llama_kv_cache_context :=
  mkCtx st false (mkCopyInfo [] []) 0 [] [] 0.

Definition ctx_full (c : llama_kv_cache) : option llama_kv_cache_context :=
  n ← get_size c;
  Some (mkCtx LLAMA_MEMORY_STATUS_SUCCESS false (mkCopyInfo [] []) 0
    [mkSlot 0 (u32_sub (n_stream c) 1) (seq 0 (n_stream c)) (replicate (n_stream c) [0])] [] n).

Definition ctx_update (do_shift : bool) (i : stream_copy_info) : option llama_kv_cache_context :=
  e ← (if do_shift then Some false else copy_info_empty i);
  Some (mkCtx (if (e : bool) then LLAMA_MEMORY_STATUS_NO_UPDATE else LLAMA_MEMORY_STATUS_SUCCESS) do_shift i 0 [] [] 0).

Definition ctx_batch (sis : list slot_info) (us : list B.llama_ubatch) : llama_kv_cache_context :=
  mkCtx LLAMA_MEMORY_STATUS_SUCCESS false (mkCopyInfo [] []) 0 sis us 0.

(** The split used by the cache: in order for one stream, by equal sequences for
    several. *)
Definition split_for (c : llama_kv_cache) (n_ubatch : nat) (b : B.llama_batch_allocr)
    : option (B.llama_ubatch * B.llama_batch_allocr) :=
  if bool_decide (n_stream c = 1) then B.split_simple n_ubatch b else B.split_equal n_ubatch true b.

Definition init_batch (b : B.llama_batch_allocr) (n_ubatch : nat) (c : llama_kv_cache)
    : option (llama_kv_cache_context * B.llama_batch_allocr * llama_kv_cache) :=
  let b := B.split_reset b in
  '(us, b) ← B.split_all (S (B.get_n_tokens b)) (split_for c n_ubatch) b;
  if bool_decide (B.get_n_used b < B.get_n_tokens b) then
    Some (ctx_failed LLAMA_MEMORY_STATUS_FAILED_PREPARE, b, c)
  else
    '(sis, c) ← prepare us c;
    if bool_decide (length sis = 0) then Some (ctx_failed LLAMA_MEMORY_STATUS_FAILED_PREPARE, b, c)
    else Some (ctx_batch sis us, b, c).

(** [std::move(sc_info)] leaves the cache without pending copies. *)
Definition init_update (c : llama_kv_cache) : option (llama_kv_cache_context * llama_kv_cache) :=
  do_shift ← get_has_shift c;
  ctx ← ctx_update do_shift (sc_info c);
  Some (ctx, with_sc (mkCopyInfo [] []) c).

Section Update.
(** The tensors [D] of the device: [copy_stream src dst] copies the K and V data
    of a stream in every layer, [run_shift] allocates and runs the K-shift graph
    ([None]: it failed). *)
Context {D : Type} (copy_stream : nat -> nat -> D -> D) (run_shift : llama_kv_cache -> D -> option D).

Definition copy_step (c : llama_kv_cache) (i : stream_copy_info) (k : nat) (d : D) : option D :=
  src ← ssrc i !! k;
  dst ← sdst i !! k;
  ASSERT bool_decide (src < n_stream c);
  ASSERT bool_decide (dst < n_stream c);
  ASSERT bool_decide (src <> dst);
  Some (copy_stream src dst d).

Definition update (do_shift : bool) (i : stream_copy_info) (c : llama_kv_cache) (d : D)
    : option (bool * llama_kv_cache * D) :=
  e ← copy_info_empty i;
  d ← (if (e : bool) then Some d else
         ASSERT bool_decide (1 < n_stream c);
         foldM (copy_step c i) (seq 0 (length (ssrc i))) d);
  if negb do_shift then Some (false, c, d) else
  GGML_ASSERT can_shift c;
  if rope_none c then Some (false, with_cells (reset_shift <$> v_cells c) c, d) else
  match run_shift c d with
  | None => Some (false, c, d)
  | Some d => Some (true, with_cells (reset_shift <$> v_cells c) c, d)
  end.

(** [GGML_PAD(x, n)] is [((x + n - 1) & ~(n - 1))]. *)
Definition GGML_PAD (x n : nat) : nat :=
  Z.to_nat (Z.land (u32_wrap (Z.of_nat x + Z.of_nat n - 1)) (u32_wrap (Z.lnot (Z.of_nat n - 1)))).

Definition get_n_kv (si : slot_info) (c : llama_kv_cache) : option nat :=
  let n_pad_cur := n_pad c `max` 256 in
  foldM (fun s result =>
    str ← strm si !! s;
    cells ← v_cells c !! str;
    Some ((size cells `min` (n_pad_cur `max` GGML_PAD (used_max_p1 cells) n_pad_cur)) `max` result))
    (seq 0 (slot_n_stream si)) 0.

Definition ctx_next (x : llama_kv_cache_context) : option (bool * llama_kv_cache_context) :=
  ASSERT bool_decide (c_status x = LLAMA_MEMORY_STATUS_SUCCESS);
  let i := S (c_i_cur x) in
  let x := mkCtx (c_status x) (c_do_shift x) (c_sc_info x) i (c_sinfos x) (c_ubatches x) (c_n_kv x) in
  Some (negb (bool_decide (length (c_ubatches x) <= i)), x).

Definition ctx_apply (x : llama_kv_cache_context) (c : llama_kv_cache) (d : D)
    : option (llama_kv_cache_context * llama_kv_cache * D) :=
  ASSERT negb (llama_memory_status_is_fail (c_status x));
  match c_ubatches x with
  | [] => '(_, c, d) ← update (c_do_shift x) (c_sc_info x) c d; Some (x, c, d)
  | us =>
      si ← c_sinfos x !! c_i_cur x;
      u ← us !! c_i_cur x;
      c ← apply_ubatch si u c;
      n ← get_n_kv si c;
      Some (mkCtx (c_status x) (c_do_shift x) (c_sc_info x) (c_i_cur x) (c_sinfos x) us n, c, d)
  end.

Definition ctx_get_ubatch (x : llama_kv_cache_context) : option B.llama_ubatch :=
  ASSERT bool_decide (c_status x = LLAMA_MEMORY_STATUS_SUCCESS);
  c_ubatches x !! c_i_cur x.

(** The caller's loop: apply, compute, next. *)
Fixpoint process (fuel : nat) (x : llama_kv_cache_context) (c : llama_kv_cache) (d : D)
    : option (llama_kv_cache * D) :=
  match fuel with
  | 0 => None
  | S fuel =>
      '(x, c, d) ← ctx_apply x c d;
      '(more, x) ← ctx_next x;
      if (more : bool) then process fuel x c d else Some (c, d)
  end.

End Update.
End Ops.
End Kv.
