(* ===== verification/KvOps.v ===== *)
(** The sequence operations of the key/value cache: the invariant of
    [llama_kv_cache], its abstract content, and that every operation of the
    memory interface has its effect on the content. *)

From S2P Require Import Prelude.
From S2P Require Import KvCells.
From S2P Require Import Memory.
From S2P Require Import KvCache.
Import KvCells.Cells Memory.Memory KvCache.Kv.

Module KvOps.

(** * Invariant and content *)

(** The stream that holds sequence [s]. *)
Definition home (c : llama_kv_cache) (s : Z) : option nat :=
  if bool_decide (0 <= s)%Z then seq_to_stream c !! Z.to_nat s else None.

Definition cell := option (Z * gset Z).

(** The content of cell [i] of stream [st]. *)
Definition kv_view (c : llama_kv_cache) (st i : nat) : cell := cells ← v_cells c !! st; view cells i.

(** Every sequence of a used cell lives in the stream of the cell. *)
Definition owned (c : llama_kv_cache) (st : nat) (o : cell) : Prop :=
  forall p q, o = Some (p, q) -> q <> ∅ /\ forall s, s ∈ q -> home c s = Some st.

(** [n] is the number of cells of a stream. *)
Record wf_kv (n : nat) (c : llama_kv_cache) : Prop := {
  kw_cells : length (v_cells c) = n_stream c;
  kw_heads : length (v_heads c) = n_stream c;
  kw_map   : (n_stream c = 1 /\ seq_to_stream c = replicate (Z.to_nat LLAMA_MAX_SEQ) 0) \/
             (1 < n_stream c <= Z.to_nat LLAMA_MAX_SEQ /\ seq_to_stream c = seq 0 (n_stream c));
  kw_wf    : forall st cells, v_cells c !! st = Some cells -> wf cells /\ size cells = n;
  kw_head  : forall st h, v_heads c !! st = Some h -> h <= n;
  kw_own   : forall st i, owned c st (kv_view c st i);
}.

(** [c'] is [c] up to its cells, heads and pending copies. *)
Definition same_config (c c' : llama_kv_cache) : Prop :=
  exists h l i, c' = with_sc i (with_heads h (with_cells l c)).

Lemma same_config_refl c : same_config c c.
Proof. exists (v_heads c), (v_cells c), (sc_info c). by destruct c. Qed.

Lemma same_config_trans c1 c2 c3 : same_config c1 c2 -> same_config c2 c3 -> same_config c1 c3.
Proof. intros (h & l & i & ->) (h' & l' & i' & ->). by exists h', l', i'. Qed.

Lemma home_config c c' s : same_config c c' -> home c' s = home c s.
Proof. by intros (h & l & i & ->). Qed.

Lemma owned_config c c' st o : same_config c c' -> owned c' st o <-> owned c st o.
Proof. by intros (h & l & i & ->). Qed.

Section Facts.
Context {n : nat} {c : llama_kv_cache} (Hwf : wf_kv n c).

Lemma home_range s st : home c s = Some st -> (0 <= s < LLAMA_MAX_SEQ)%Z /\ st < n_stream c /\
  (0 <= s < Z.of_nat (length (seq_to_stream c)))%Z.
Proof.
  unfold home. case_bool_decide as Hs; [|done]. intros Hst. pose proof (lookup_lt_Some _ _ _ Hst) as Hlt.
  destruct (kw_map _ _ Hwf) as [[Hn Hm]|[Hn Hm]]; rewrite Hm in Hst, Hlt |- *.
  - apply lookup_replicate in Hst as [-> Hst]. rewrite length_replicate in *. unfold LLAMA_MAX_SEQ in *. lia.
  - apply lookup_seq in Hst as [-> Hst]. rewrite length_seq in *. lia.
Qed.

(** With several streams, a stream has one sequence. *)
Lemma home_inj s s' st : home c s = Some st -> home c s' = Some st -> n_stream c <> 1 -> s = s'.
Proof.
  intros H1 H2 Hn. destruct (home_range _ _ H1) as [? _]. destruct (home_range _ _ H2) as [? _].
  unfold home in *. do 2 (case_bool_decide; [|done]).
  destruct (kw_map _ _ Hwf) as [[? _]|[_ Hm]]; [done|]. rewrite Hm in *.
  apply lookup_seq in H1 as [-> _]. apply lookup_seq in H2 as [? _]. lia.
Qed.

Lemma stream_of_home s st : home c s = Some st -> stream_of s c = Some st.
Proof.
  intros H. pose proof (home_range s st H) as (_ & _ & ?). unfold stream_of.
  rewrite (ggml_assert_true _) by (apply bool_decide_true; lia). simpl.
  unfold home in H. by case_bool_decide.
Qed.

Lemma stream_cells st : st < n_stream c -> exists cells h, v_cells c !! st = Some cells /\ v_heads c !! st = Some h /\
  wf cells /\ size cells = n /\ h <= n.
Proof.
  intros Hst. destruct (lookup_lt_is_Some_2 (v_cells c) st) as [cells Hc]; [by rewrite (kw_cells _ _ Hwf)|].
  destruct (lookup_lt_is_Some_2 (v_heads c) st) as [h Hh]; [by rewrite (kw_heads _ _ Hwf)|].
  exists cells, h. destruct (kw_wf _ _ Hwf _ _ Hc). pose proof (kw_head _ _ Hwf _ _ Hh). done.
Qed.

Lemma view_kv st cells i : v_cells c !! st = Some cells -> kv_view c st i = view cells i.
Proof. unfold kv_view. by intros ->. Qed.

(** Writing back one stream. *)
Lemma put_cells st x : st < n_stream c -> wf x -> size x = n -> (forall i, owned c st (view x i)) ->
  exists c', set_cells st x c = Some c' /\ wf_kv n c' /\ same_config c c' /\ v_heads c' = v_heads c /\
    v_cells c' = <[st:=x]> (v_cells c) /\ forall st' i, kv_view c' st' i = if decide (st' = st) then view x i else kv_view c st' i.
Proof.
  intros Hst Hx Hsz Hown. unfold set_cells. rewrite set_at_ok by (by rewrite (kw_cells _ _ Hwf)). simpl.
  eexists. split; [reflexivity|].
  assert (forall st' i, kv_view (with_cells (<[st:=x]> (v_cells c)) c) st' i =
    if decide (st' = st) then view x i else kv_view c st' i) as Hv.
  { intros st' i. unfold kv_view. simpl. case_decide as Hd.
    - subst. by rewrite list_lookup_insert_eq by (by rewrite (kw_cells _ _ Hwf)).
    - by rewrite list_lookup_insert_ne. }
  split_and!; [|exists (v_heads c), (<[st:=x]> (v_cells c)), (sc_info c); by destruct c|done|done|exact Hv].
  split; simpl.
  - rewrite length_insert. apply Hwf.
  - apply Hwf.
  - apply Hwf.
  - intros st' cells [[<- ->]|[_ H]]%list_lookup_insert_dec; [done|]. by apply (kw_wf _ _ Hwf st').
  - apply Hwf.
  - intros st' i. change (owned (with_cells (<[st:=x]> (v_cells c)) c) st') with (owned c st'). rewrite Hv.
    case_decide; [by subst|apply Hwf].
Qed.

Lemma put_head st h : st < n_stream c -> h <= n ->
  exists c', set_head st h c = Some c' /\ wf_kv n c' /\ same_config c c' /\ v_heads c' = <[st:=h]> (v_heads c) /\
    v_cells c' = v_cells c.
Proof.
  intros Hst Hh. unfold set_head. rewrite set_at_ok by (by rewrite (kw_heads _ _ Hwf)). simpl.
  eexists. split; [reflexivity|]. split_and!; [|exists (<[st:=h]> (v_heads c)), (v_cells c), (sc_info c); by destruct c|done|done].
  destruct Hwf as [H1 H2 H3 H4 H5 H6]. split; simpl; try done.
  - by rewrite length_insert.
  - intros st' h' [[<- ->]|[_ H]]%list_lookup_insert_dec; [done|]. by apply (H5 st').
Qed.

Lemma set_head_sc st h c' c1 : set_head st h c1 = Some c' -> sc_info c' = sc_info c1.
Proof. unfold set_head. intros H. inv_opt H. by subst. Qed.

Lemma put_sc i : wf_kv n (with_sc i c).
Proof. destruct Hwf. by split. Qed.
End Facts.

(** * Sweeps over the cells of a stream *)

Lemma updated_same c i : wf c -> updated c i (view c i) c.
Proof. intros Hwf. split; [done|done| |done]. intros j. case_decide; by subst. Qed.

Lemma note_head_le n i nh : i <= n -> nh <= n -> note_head n i nh <= n.
Proof. unfold note_head. case_bool_decide; lia. Qed.

Lemma lower_head_le n nh h : nh <= n -> h <= n -> lower_head n nh h <= n.
Proof. unfold lower_head. case_bool_decide; lia. Qed.

(** Cell [i] of [c] is still that of [c0]. *)
Definition untouched (c0 c : llama_kv_cells) (i : nat) : Prop :=
  wf c /\ size c = size c0 /\ view c i = view c0 i /\ shift c !! i = shift c0 !! i /\ ext c !! i = ext c0 !! i.

(** A loop whose iteration [i] turns cell [i] into [g i]. *)
Lemma sweep1_ok (f : nat -> llama_kv_cells -> option llama_kv_cells) (g : nat -> cell) c0 : wf c0 ->
  (forall i c, i < size c0 -> untouched c0 c i -> exists c', f i c = Some c' /\ updated c i (g i) c') ->
  exists c', foldM f (seq 0 (size c0)) c0 = Some c' /\ wf c' /\ size c' = size c0 /\
    forall i, view c' i = if decide (i < size c0) then g i else None.
Proof.
  intros Hwf Hf. destruct (foldM_seq f (fun k c => wf c /\ size c = size c0 /\
      (forall i, i < k -> view c i = g i) /\ (forall i, k <= i -> view c i = view c0 i /\ shift c !! i = shift c0 !! i /\ ext c !! i = ext c0 !! i))
    0 (size c0) c0) as (c' & Hrun & Hwf' & Hsz & Hv & Hrest).
  - split_and!; [done|done|lia|done].
  - intros i c [_ Hi] (Hw & Hs & Hlt & Hge). destruct (Hge i ltac:(lia)) as (Hvi & Hsi & Hei).
    destruct (Hf i c Hi) as (c' & Hf' & [Hw' Hs' Hv' Hfr]); [by split_and!|]. exists c'. split; [done|]. rewrite Nat.add_1_r.
    split_and!; [done|by rewrite Hs'| |].
    + intros j Hj. rewrite Hv'. case_decide; [by subst|]. apply Hlt. lia.
    + intros j Hj. rewrite Hv', decide_False by lia. destruct (Hfr j) as [-> ->]; [lia|]. apply Hge. lia.
  - exists c'. split_and!; [done..|]. intros i. case_decide as Hi; [by apply Hv|].
    destruct (view c' i) as [[p q]|] eqn:E; [|done]. apply view_size in E. lia.
Qed.

(** The same for the loops that also track the first freed cell. *)
Lemma sweep_ok (f : nat -> llama_kv_cells * nat -> option (llama_kv_cells * nat)) (g : nat -> cell) c0 : wf c0 ->
  (forall i c nh, i < size c0 -> untouched c0 c i -> exists c' fr, f i (c, nh) = Some (c', if (fr : bool) then note_head (size c0) i nh else nh) /\
     updated c i (g i) c') ->
  exists c' nh, foldM f (seq 0 (size c0)) (c0, size c0) = Some (c', nh) /\ wf c' /\ size c' = size c0 /\ nh <= size c0 /\
    forall i, view c' i = if decide (i < size c0) then g i else None.
Proof.
  intros Hwf Hf. destruct (foldM_seq f (fun k '(c, nh) => wf c /\ size c = size c0 /\ nh <= size c0 /\
      (forall i, i < k -> view c i = g i) /\ (forall i, k <= i -> view c i = view c0 i /\ shift c !! i = shift c0 !! i /\ ext c !! i = ext c0 !! i))
    0 (size c0) (c0, size c0)) as ([c' nh] & Hrun & Hwf' & Hsz & Hnh & Hv & Hrest).
  - split_and!; [done|done|done|lia|done].
  - intros i [c nh] [_ Hi] (Hw & Hs & Hn & Hlt & Hge). destruct (Hge i ltac:(lia)) as (Hvi & Hsi & Hei).
    destruct (Hf i c nh Hi) as (c' & fr & Hf' & [Hw' Hs' Hv' Hfr]); [by split_and!|]. eexists. split; [exact Hf'|]. rewrite Nat.add_1_r.
    split_and!; [done|by rewrite Hs'| | |].
    + destruct fr; [|done]. apply note_head_le; lia.
    + intros j Hj. rewrite Hv'. case_decide; [by subst|]. apply Hlt. lia.
    + intros j Hj. rewrite Hv', decide_False by lia. destruct (Hfr j) as [-> ->]; [lia|]. apply Hge. lia.
  - exists c', nh. split_and!; [done..|]. intros i. case_decide as Hi; [by apply Hv|].
    destruct (view c' i) as [[p q]|] eqn:E; [|done]. apply view_size in E. lia.
Qed.

(** * The effect on one cell *)

Definition in_range (p0 p1 p : Z) : Prop := (p0 <= p < p1)%Z.
#[global] Instance in_range_dec p0 p1 p : Decision (in_range p0 p1 p).
Proof. unfold in_range. apply _. Defined.

Definition cell_rm (s p0 p1 : Z) (o : cell) : cell :=
  '(p, q) ← o;
  if decide (in_range p0 p1 p /\ s ∈ q) then if decide (q ∖ {[s]} = ∅) then None else Some (p, q ∖ {[s]}) else Some (p, q).
Definition cell_purge (p0 p1 : Z) (o : cell) : cell :=
  '(p, q) ← o; if decide (in_range p0 p1 p) then None else Some (p, q).
Definition cell_cp (src dst p0 p1 : Z) (o : cell) : cell :=
  '(p, q) ← o; if decide (in_range p0 p1 p /\ src ∈ q) then Some (p, {[dst]} ∪ q) else Some (p, q).
Definition cell_move (src dst : Z) (o : cell) : cell :=
  '(p, q) ← o; if decide (src ∈ q) then Some (p, {[dst]}) else None.
Definition cell_keep (s : Z) (o : cell) : cell :=
  '(p, q) ← o; if decide (s ∈ q) then Some (p, {[s]}) else None.
Definition cell_add (s p0 p1 d : Z) (o : cell) : cell :=
  '(p, q) ← o;
  if decide (in_range p0 p1 p /\ s ∈ q) then if decide (p + d < 0)%Z then None else Some ((p + d)%Z, q) else Some (p, q).
Definition cell_div (s p0 p1 d : Z) (o : cell) : cell :=
  '(p, q) ← o; if decide (in_range p0 p1 p /\ s ∈ q) then Some ((p / d)%Z, q) else Some (p, q).

Section Cells.
Context `{BM : BuildMode}.

(** The common test [pos_in && seq_has] of the loops. *)
Lemma test_cell {A} c i s p0 p1 (no : option A) yes : wf c -> i < size c -> (0 <= p0)%Z -> (0 <= s < LLAMA_MAX_SEQ)%Z ->
  (b ← pos_in i p0 p1 c; if negb b then no else h ← seq_has i s c; if negb h then no else yes) =
  match view c i with
  | Some (p, q) => if decide (in_range p0 p1 p /\ s ∈ q) then yes else no
  | None => no
  end.
Proof.
  intros Hwf Hi Hp Hs. rewrite pos_in_spec by done. cbn [mbind option_bind].
  destruct (view c i) as [[p q]|] eqn:Hv; [|done].
  destruct (decide (in_range p0 p1 p /\ s ∈ q)) as [[Hr Hin]|Hn]; unfold in_range in *.
  - rewrite bool_decide_true by done. cbn [negb]. rewrite seq_has_spec, Hv by done. cbn [mbind option_bind].
    by rewrite bool_decide_true.
  - case_bool_decide as Hr; [|done]. cbn [negb]. rewrite seq_has_spec, Hv by done. cbn [mbind option_bind].
    rewrite bool_decide_false by tauto. done.
Qed.

Lemma seq_rm_cell_ok s p0 p1 n i c nh : wf c -> i < size c -> (0 <= p0)%Z -> (0 <= s < LLAMA_MAX_SEQ)%Z ->
  exists c' fr, seq_rm_cell s p0 p1 n i (c, nh) = Some (c', if (fr : bool) then note_head n i nh else nh) /\
    updated c i (cell_rm s p0 p1 (view c i)) c'.
Proof.
  intros Hwf Hi Hp Hs. unfold seq_rm_cell. rewrite (test_cell c i s p0 p1) by done. unfold cell_rm.
  pose proof (updated_same c i Hwf) as Hsame.
  destruct (view c i) as [[p q]|] eqn:Hv; simpl; [case_decide as Hd|]; try (exists c, false; done).
  destruct (seq_rm_spec c i s p q) as (c' & -> & Hu); [done|done|tauto|]. simpl. by eexists _, _.
Qed.

Lemma rm_cell_ok p0 p1 n i c nh : wf c -> i < size c -> (0 <= p0)%Z ->
  exists c' fr, rm_cell p0 p1 n i (c, nh) = Some (c', if (fr : bool) then note_head n i nh else nh) /\
    updated c i (cell_purge p0 p1 (view c i)) c'.
Proof.
  intros Hwf Hi Hp. unfold rm_cell. rewrite pos_in_spec by done. unfold cell_purge, in_range. cbn [mbind option_bind].
  pose proof (updated_same c i Hwf) as Hsame.
  destruct (view c i) as [[p q]|] eqn:Hv; simpl; [|exists c, false; done].
  case_decide as Hd; [|rewrite bool_decide_false by done; exists c, false; done].
  rewrite bool_decide_true by done. simpl.
  destruct (rm_spec c i p q) as (c' & -> & Hu); [done..|]. simpl. by exists c', true.
Qed.

Lemma seq_cp_cell_ok src dst p0 p1 i c : wf c -> i < size c -> (0 <= p0)%Z -> (0 <= src < LLAMA_MAX_SEQ)%Z ->
  (0 <= dst < LLAMA_MAX_SEQ)%Z ->
  (forall p q, view c i = Some (p, q) -> in_range p0 p1 p -> src ∈ q -> dst ∉ q) ->
  exists c', seq_cp_cell src dst p0 p1 i c = Some c' /\ updated c i (cell_cp src dst p0 p1 (view c i)) c'.
Proof.
  intros Hwf Hi Hp Hs Hd Hnew. unfold seq_cp_cell. rewrite (test_cell c i src p0 p1) by done. unfold cell_cp.
  pose proof (updated_same c i Hwf) as Hsame.
  destruct (view c i) as [[p q]|] eqn:Hv; simpl; [case_decide as Hdec|]; try (exists c; done).
  destruct Hdec. destruct (seq_add_spec c i dst p q) as (c' & -> & Hu); [done|done|by apply (Hnew p q)|done|]. by exists c'.
Qed.

Lemma seq_keep_cell_ok s n i c nh : wf c -> i < size c -> (0 <= s < LLAMA_MAX_SEQ)%Z -> (forall p, view c i <> Some (p, ∅)) ->
  exists c' fr, seq_keep_cell s n i (c, nh) = Some (c', if (fr : bool) then note_head n i nh else nh) /\
    updated c i (cell_keep s (view c i)) c'.
Proof.
  intros Hwf Hi Hs Hne. unfold seq_keep_cell. destruct (seq_keep_spec c i s) as (c' & -> & Hu); [done..|].
  simpl. eexists _, _. split; [reflexivity|]. unfold cell_keep. by destruct (view c i) as [[p q]|].
Qed.

(** [d] can be added to position [p] and to the pending shift [h]. *)
Definition add_room (p h d : Z) : Prop := (INT32_MIN <= p + d <= INT32_MAX)%Z /\ (INT32_MIN <= h + d <= INT32_MAX)%Z.

Lemma seq_add_cell_ok s p0 p1 d n i c nh : wf c -> i < size c -> (0 <= p0)%Z -> (0 <= s < LLAMA_MAX_SEQ)%Z ->
  (forall p q h, view c i = Some (p, q) -> in_range p0 p1 p -> s ∈ q -> shift c !! i = Some h -> add_room p h d) ->
  exists c' fr, seq_add_cell s p0 p1 d n i (c, nh) = Some (c', if (fr : bool) then note_head n i nh else nh) /\
    updated c i (cell_add s p0 p1 d (view c i)) c'.
Proof.
  intros Hwf Hi Hp Hs Hroom. unfold seq_add_cell. rewrite (test_cell c i s p0 p1) by done. unfold cell_add.
  pose proof (updated_same c i Hwf) as Hsame.
  destruct (view c i) as [[p q]|] eqn:Hv; simpl; [case_decide as Hd|]; try (exists c, false; done).
  destruct Hd as [Hr Hin]. destruct (wf_lens c i Hwf Hi) as (_ & [h Hh]%lookup_lt_is_Some & _).
  destruct (Hroom p q h eq_refl Hr Hin Hh).
  destruct (pos_add_spec c i d p q h) as (c' & -> & Hu); [done..|]. simpl. by eexists _, _.
Qed.

Lemma seq_div_cell_ok s p0 p1 d i c : wf c -> i < size c -> (0 <= p0)%Z -> (0 <= s < LLAMA_MAX_SEQ)%Z -> (0 < d)%Z ->
  (forall p q h, view c i = Some (p, q) -> in_range p0 p1 p -> s ∈ q -> shift c !! i = Some h -> (INT32_MIN <= h <= INT32_MAX - p)%Z) ->
  exists c', seq_div_cell s p0 p1 d i c = Some c' /\ updated c i (cell_div s p0 p1 d (view c i)) c'.
Proof.
  intros Hwf Hi Hp Hs Hpos Hroom. unfold seq_div_cell. rewrite (test_cell c i s p0 p1) by done. unfold cell_div.
  pose proof (updated_same c i Hwf) as Hsame.
  destruct (view c i) as [[p q]|] eqn:Hv; simpl; [case_decide as Hd|]; try (exists c; done).
  destruct Hd as [Hr Hin]. destruct (wf_lens c i Hwf Hi) as (_ & [h Hh]%lookup_lt_is_Some & _).
  destruct (pos_div_spec c i d p q h) as (c' & -> & Hu); [done..|by apply (Hroom p q)|]. by exists c'.
Qed.

Lemma updated_trans c i o c1 o' c2 : updated c i o c1 -> updated c1 i o' c2 -> updated c i o' c2.
Proof.
  intros [W1 S1 V1 F1] [W2 S2 V2 F2]. split; [done|congruence| |].
  - intros j. rewrite V2, V1. by case_decide.
  - intros j Hj. destruct (F2 j Hj) as [-> ->]. by apply F1.
Qed.

Lemma pos_set_shift i p c c' : pos_set i p c = Some c' -> shift c' = shift c.
Proof. unfold pos_set. intros H. inv_opt H. unfold set_pos in *. inv_opt E4. by simplify_eq. Qed.

Lemma seq_add_shift i s c c' : Cells.seq_add i s c = Some c' -> shift c' = shift c.
Proof.
  unfold Cells.seq_add. intros H. inv_opt H. unfold set_seqs, seq_pos_inc in *.
  repeat match goal with E : mbind _ _ = Some _ |- _ => let H' := fresh in rename E into H'; inv_opt H' end. by simplify_eq.
Qed.

(** Copying a cell of [from] into the empty cell of another stream. *)
Lemma seq_cp_stream_cell_ok from src dst i c : wf from -> wf c -> i < size from -> size c = size from ->
  view c i = None -> shift c !! i = Some 0%Z -> (0 <= src < LLAMA_MAX_SEQ)%Z -> (0 <= dst < LLAMA_MAX_SEQ)%Z ->
  (forall p q h, view from i = Some (p, q) -> src ∈ q -> shift from !! i = Some h -> (0 <= p - h <= INT32_MAX)%Z /\ (INT32_MIN <= h <= INT32_MAX)%Z) ->
  exists c', seq_cp_stream_cell from src dst i c = Some c' /\ updated c i (cell_move src dst (view from i)) c'.
Proof.
  intros Hwf Hc Hi Hsz Hv Hsh Hs Hd Hroom. unfold seq_cp_stream_cell, cell_move. rewrite seq_has_spec by done.
  cbn [mbind option_bind]. pose proof (updated_same c i Hc) as Hsame. rewrite Hv in Hsame.
  destruct (view from i) as [[p q]|] eqn:Hf; simpl; [case_decide as Hin|]; rewrite ?bool_decide_true, ?bool_decide_false by done;
    simpl; try (exists c; done).
  rewrite (pos_get_spec from i p q) by done. simpl.
  destruct (get_shift_spec from i p q) as (h & -> & Hh); [done..|]. simpl.
  destruct (ext_get_spec from i p q) as (e & -> & _); [done..|]. simpl.
  destruct (Hroom p q h eq_refl Hin Hh) as [Hr1 Hr2]. pose proof (view_range from i p q Hwf Hf) as Hpr.
  assert (exists p', (if bool_decide (h <> 0)%Z then
           pos ← i32_chk (p - h); ASSERT bool_decide (0 <= pos)%Z; Some pos else Some p) = Some p' /\ p' = (p - h)%Z) as (p' & -> & ->).
  { case_bool_decide as Hz; [|exists p; split; [done|lia]]. rewrite i32_chk_Some by (unfold INT32_MIN, INT32_MAX in *; lia). simpl.
    rewrite (c_assert_true _) by (apply bool_decide_true; lia). simpl. by eexists. }
  cbn [mbind option_bind].
  destruct (pos_set_spec c i (p - h)) as (c1 & Hc1 & U1); [done|lia|done|lia|]. rewrite Hc1. cbn [mbind option_bind].
  pose proof (upd_view _ _ _ _ U1 i) as Hv1. rewrite decide_True in Hv1 by done.
  destruct (seq_add_spec c1 i dst (p - h) ∅) as (c2 & Hc2 & U2); [by apply (upd_wf _ _ _ _ U1)|done|set_solver|done|].
  rewrite Hc2. cbn [mbind option_bind]. rewrite union_empty_r_L in U2.
  pose proof (upd_view _ _ _ _ U2 i) as Hv2. rewrite decide_True in Hv2 by done.
  assert (shift c2 !! i = Some 0%Z) as Hsh2 by (by rewrite (seq_add_shift _ _ _ _ Hc2), (pos_set_shift _ _ _ _ Hc1)).
  assert (exists c3, (if bool_decide (h <> 0)%Z then '(to, _) ← pos_add i h c2; Some to else Some c2) = Some c3 /\
    updated c2 i (Some (p, {[dst]})) c3) as (c3 & -> & U3).
  { case_bool_decide as Hz.
    - destruct (pos_add_spec c2 i h (p - h) {[dst]} 0) as (c3 & -> & U3);
        [by apply (upd_wf _ _ _ _ U2)|done|done|unfold INT32_MIN, INT32_MAX in *; lia|lia|].
      rewrite decide_False in U3 by lia. replace (p - h + h)%Z with p in U3 by lia. simpl. by exists c3.
    - exists c2. split; [done|]. replace p with (p - h)%Z by lia. rewrite <- Hv2. apply updated_same, (upd_wf _ _ _ _ U2). }
  cbn [mbind option_bind]. pose proof (updated_trans _ _ _ _ _ _ U1 U2) as U12.
  pose proof (updated_trans _ _ _ _ _ _ U12 U3) as U. pose proof (upd_view _ _ _ _ U i) as Hv3. rewrite decide_True in Hv3 by done.
  destruct (ext_set_spec c3 i e) as (c4 & -> & U4); [by apply (upd_wf _ _ _ _ U)|rewrite (upd_size _ _ _ _ U); lia|].
  exists c4. split; [done|]. rewrite Hv3 in U4. by eapply updated_trans.
Qed.
End Cells.


(** * Specification of the operations *)

(** The effect of an operation on the content, given the home stream of every
    sequence.  The early returns of the code do not show here: an empty range, a
    zero shift, a divisor of one and a copy onto itself change nothing. *)
Definition spec_mem_op (hm : Z -> option nat) (o : mem_op) (v : nat -> nat -> cell) (st i : nat) : cell :=
  match o with
  | MClear => None
  | MSeqRm s p0 p1 =>
      if decide (s = -1)%Z then cell_purge (from_p0 p0) (to_p1 p1) (v st i)
      else if decide (hm s = Some st) then cell_rm s (from_p0 p0) (to_p1 p1) (v st i) else v st i
  | MSeqCp src dst p0 p1 =>
      if decide (hm dst = Some st) then
        if decide (hm src = Some st) then cell_cp src dst (from_p0 p0) (to_p1 p1) (v st i)
        else s0 ← hm src; cell_move src dst (v s0 i)
      else v st i
  | MSeqKeep s => if decide (hm s = Some st) then cell_keep s (v st i) else v st i
  | MSeqAdd s p0 p1 d => if decide (hm s = Some st) then cell_add s (from_p0 p0) (to_p1 p1) d (v st i) else v st i
  | MSeqDiv s p0 p1 d => if decide (hm s = Some st) then cell_div s (from_p0 p0) (to_p1 p1) d (v st i) else v st i
  end.

(** The pending shift of a cell. *)
Definition kv_shift (c : llama_kv_cache) (st i : nat) : option Z := cells ← v_cells c !! st; shift cells !! i.

(** Whether [seq_cp] takes the range for the whole buffer. *)
Definition is_full (n : nat) (p0 p1 : Z) : Prop :=
  (p0 < INT32_MAX)%Z /\ (p1 < INT32_MAX)%Z /\
  ~ (0 < p0 /\ p0 + 1 < Z.of_nat n)%Z /\ ~ (0 < p1 /\ p1 + 1 < Z.of_nat n)%Z.

(** When an operation may be called: valid sequences, no position or pending
    shift out of range, a copy within a stream to a sequence that is not in the
    copied cells, a copy across streams of the whole buffer. *)
Definition mem_op_pre (n : nat) (c : llama_kv_cache) (o : mem_op) : Prop :=
  match o with
  | MClear => True
  | MSeqRm s _ _ => s = (-1)%Z \/ is_Some (home c s)
  | MSeqCp src dst p0 p1 => exists s0 s1, home c src = Some s0 /\ home c dst = Some s1 /\
      (s0 = s1 -> src <> dst -> forall i p q, kv_view c s0 i = Some (p, q) ->
         in_range (from_p0 p0) (to_p1 p1) p -> src ∈ q -> dst ∉ q) /\
      (s0 <> s1 -> is_full n p0 p1 /\ forall i p q h, kv_view c s0 i = Some (p, q) -> src ∈ q -> kv_shift c s0 i = Some h ->
         (0 <= p - h <= INT32_MAX)%Z /\ (INT32_MIN <= h <= INT32_MAX)%Z)
  | MSeqKeep s => is_Some (home c s)
  | MSeqAdd s p0 p1 d => exists st, home c s = Some st /\ n_pos c = 1 /\
      forall i p q h, kv_view c st i = Some (p, q) -> in_range (from_p0 p0) (to_p1 p1) p -> s ∈ q ->
        kv_shift c st i = Some h -> add_room p h d
  | MSeqDiv s p0 p1 d => exists st, home c s = Some st /\ n_pos c = 1 /\ (0 < d)%Z /\
      forall i p q h, kv_view c st i = Some (p, q) -> in_range (from_p0 p0) (to_p1 p1) p -> s ∈ q ->
        kv_shift c st i = Some h -> (INT32_MIN <= h <= INT32_MAX - p)%Z
  end.

Lemma from_p0_nonneg p0 : (0 <= from_p0 p0)%Z.
Proof. unfold from_p0. case_bool_decide; lia. Qed.

(** Cell effects only ever keep or add what is allowed. *)
Lemma owned_rm c st s p0 p1 o : owned c st o -> owned c st (cell_rm s p0 p1 o).
Proof.
  intros H p q. unfold cell_rm. destruct o as [[p' q']|]; simpl; [|done]. destruct (H p' q' eq_refl) as [Hne Hh].
  repeat case_decide; intros [= <- <-]; split; try done. intros s' Hs'. apply Hh. set_solver.
Qed.
Lemma owned_purge c st p0 p1 o : owned c st o -> owned c st (cell_purge p0 p1 o).
Proof.
  intros H p q. unfold cell_purge. destruct o as [[p' q']|]; simpl; [|done]. case_decide; [done|]. intros [= <- <-]. by apply (H p').
Qed.
Lemma owned_cp c st src dst p0 p1 o : home c dst = Some st -> owned c st o -> owned c st (cell_cp src dst p0 p1 o).
Proof.
  intros Hd H p q. unfold cell_cp. destruct o as [[p' q']|]; simpl; [|done]. destruct (H p' q' eq_refl) as [Hne Hh].
  case_decide; intros [= <- <-]; [|done]. split; [set_solver|]. intros s [->%elem_of_singleton|Hs]%elem_of_union; [done|by apply Hh].
Qed.
Lemma owned_move c st src dst o : home c dst = Some st -> owned c st (cell_move src dst o).
Proof.
  intros Hd p q. unfold cell_move. destruct o as [[p' q']|]; simpl; [|done]. case_decide; [|done]. intros [= <- <-].
  split; [set_solver|]. by intros s ->%elem_of_singleton.
Qed.
Lemma owned_keep c st s o : home c s = Some st -> owned c st (cell_keep s o).
Proof. intros Hs. unfold cell_keep. change (owned c st (cell_move s s o)). by apply owned_move. Qed.
Lemma owned_add c st s p0 p1 d o : owned c st o -> owned c st (cell_add s p0 p1 d o).
Proof.
  intros H p q. unfold cell_add. destruct o as [[p' q']|]; simpl; [|done].
  repeat case_decide; intros [= <- <-]; by apply (H p').
Qed.
Lemma owned_div c st s p0 p1 d o : owned c st o -> owned c st (cell_div s p0 p1 d o).
Proof.
  intros H p q. unfold cell_div. destruct o as [[p' q']|]; simpl; [|done].
  repeat case_decide; intros [= <- <-]; by apply (H p').
Qed.

(** What an operation on one stream does: effect [G] on the cells of stream [s]. *)
Definition stream_effect (n : nat) (c : llama_kv_cache) (s : nat) (G : cell -> cell) (c' : llama_kv_cache) : Prop :=
  wf_kv n c' /\ same_config c c' /\
  forall st i, kv_view c' st i = if decide (st = s) then G (kv_view c st i) else kv_view c st i.

Section Streams.
Context `{BM : BuildMode}.

Lemma put_stream n c s x G h : wf_kv n c -> s < n_stream c -> wf x -> size x = n -> G None = None ->
  (forall i, owned c s (G (kv_view c s i))) -> h <= n ->
  (forall i, view x i = if decide (i < n) then G (kv_view c s i) else None) ->
  exists c', (c ← set_cells s x c; set_head s h c) = Some c' /\ stream_effect n c s G c'.
Proof.
  intros Hwf Hs Hx Hsz HG Hown Hh Hv.
  assert (forall i, view x i = G (kv_view c s i)) as Hv'.
  { intros i. rewrite Hv. case_decide as Hi; [done|]. destruct (stream_cells Hwf s Hs) as (cells & _ & Hc & _ & _ & Hn & _).
    rewrite (view_kv s cells) by done. destruct (view cells i) as [[p q]|] eqn:E; [apply view_size in E; lia|done]. }
  destruct (put_cells Hwf s x Hs Hx Hsz) as (c1 & -> & W1 & C1 & H1 & _ & V1); [intros i; rewrite Hv'; apply Hown|].
  cbn [mbind option_bind]. destruct (put_head W1 s h) as (c2 & -> & W2 & C2 & _ & V2).
  { destruct C1 as (? & ? & ? & ->). done. }
  { done. }
  exists c2. split; [done|]. split_and!; [done|by eapply same_config_trans|]. intros st i. unfold kv_view at 1. rewrite V2.
  fold (kv_view c1 st i). rewrite V1. case_decide; [|done]. subst. apply Hv'.
Qed.

Lemma sweep_rm_ok n c s f G : wf_kv n c -> s < n_stream c -> G None = None -> (forall i, owned c s (G (kv_view c s i))) ->
  (forall cells i x nh, v_cells c !! s = Some cells -> i < n -> untouched cells x i ->
     exists x' fr, f n i (x, nh) = Some (x', if (fr : bool) then note_head n i nh else nh) /\ updated x i (G (kv_view c s i)) x') ->
  exists c', sweep_rm f s c = Some c' /\ stream_effect n c s G c'.
Proof.
  intros Hwf Hs HG Hown Hf. destruct (stream_cells Hwf s Hs) as (cells & h & Hc & Hhd & Hwc & Hn & Hh).
  unfold sweep_rm. rewrite Hc, Hhd. cbn [mbind option_bind].
  destruct (sweep_ok (f (size cells)) (fun i => G (kv_view c s i)) cells Hwc) as (x & nh & -> & Hx & Hsz & Hnh & Hv).
  { intros i c1 nh Hi Hu. rewrite Hn in *. by apply (Hf cells). }
  cbn [mbind option_bind]. rewrite Hn in *. apply put_stream; try done. by apply lower_head_le.
Qed.

Lemma kv_seq_rm_ok n c s p0 p1 st : wf_kv n c -> home c s = Some st ->
  exists c', seq_rm s p0 p1 c = Some (c', true) /\ stream_effect n c st (cell_rm s (from_p0 p0) (to_p1 p1)) c'.
Proof.
  intros Hwf Hst. destruct (home_range Hwf s st Hst) as (Hs & Hlt & Hl). unfold seq_rm.
  rewrite (ggml_assert_true _) by (apply bool_decide_true; lia). cbn [mbind option_bind]. rewrite bool_decide_true by lia.
  unfold home in Hst. rewrite bool_decide_true in Hst by lia. rewrite Hst. cbn [mbind option_bind].
  destruct (sweep_rm_ok n c st (seq_rm_cell s (from_p0 p0) (to_p1 p1)) (cell_rm s (from_p0 p0) (to_p1 p1)) Hwf Hlt)
    as (c' & -> & He); [done| | |by exists c'].
  - intros i. apply owned_rm, Hwf.
  - intros cells i x nh Hc Hi (Hw & Hsz & Hv & _). rewrite (view_kv st cells), <- Hv by done.
    destruct (kw_wf _ _ Hwf _ _ Hc). apply seq_rm_cell_ok; try done; [lia|apply from_p0_nonneg].
Qed.

Lemma kv_purge_ok n c p0 p1 : wf_kv n c ->
  exists c', seq_rm (-1) p0 p1 c = Some (c', true) /\ wf_kv n c' /\ same_config c c' /\
    forall st i, kv_view c' st i = cell_purge (from_p0 p0) (to_p1 p1) (kv_view c st i).
Proof.
  intros Hwf. unfold seq_rm. rewrite (ggml_assert_true _) by done. cbn [mbind option_bind].
  rewrite bool_decide_false by lia. cbn [mbind option_bind].
  destruct (foldM_seq (fun s c => sweep_rm (rm_cell (from_p0 p0) (to_p1 p1)) s c)
    (fun k c' => wf_kv n c' /\ same_config c c' /\ forall st i, kv_view c' st i =
       if decide (st < k) then cell_purge (from_p0 p0) (to_p1 p1) (kv_view c st i) else kv_view c st i) 0 (n_stream c) c)
    as (c' & -> & Hwf' & Hcfg & Hv).
  - split_and!; [done|apply same_config_refl|]. intros st i. by rewrite decide_False by lia.
  - intros s c1 [_ Hs] (W & C & V). destruct (sweep_rm_ok n c1 s (rm_cell (from_p0 p0) (to_p1 p1)) (cell_purge (from_p0 p0) (to_p1 p1)) W)
      as (c2 & -> & W2 & C2 & V2); [by destruct C as (? & ? & ? & ->)|done|intros i; apply owned_purge, W| |].
    + intros cells i x nh Hc Hi (Hw & Hsz & Hvx & _). rewrite (view_kv s cells), <- Hvx by done.
      destruct (kw_wf _ _ W _ _ Hc). apply rm_cell_ok; try done; [lia|apply from_p0_nonneg].
    + exists c2. split; [done|]. split_and!; [done|by eapply same_config_trans|]. intros st i. rewrite V2, V.
      repeat case_decide; try done; lia.
  - exists c'. split; [done|]. split_and!; [done..|]. intros st i. rewrite Hv. case_decide as Hd; [done|].
    simpl in Hd. unfold kv_view. rewrite lookup_ge_None_2; [done|]. rewrite (kw_cells _ _ Hwf). lia.
Qed.

Lemma kv_seq_keep_ok n c s st : wf_kv n c -> home c s = Some st ->
  exists c', seq_keep s c = Some c' /\ stream_effect n c st (cell_keep s) c'.
Proof.
  intros Hwf Hst. destruct (home_range Hwf s st Hst) as (Hs & Hlt & _). unfold seq_keep.
  rewrite (stream_of_home Hwf s st) by done. cbn [mbind option_bind].
  apply sweep_rm_ok; [done..|intros i; by apply owned_keep|].
  intros cells i x nh Hc Hi (Hw & Hsz & Hv & _). rewrite (view_kv st cells), <- Hv by done.
  destruct (kw_wf _ _ Hwf _ _ Hc). apply seq_keep_cell_ok; try done; [lia|].
  intros p Hp. rewrite Hv in Hp. destruct (kw_own _ _ Hwf st i p ∅) as [Hne _]; [by rewrite (view_kv st cells)|done].
Qed.
End Streams.


Lemma stream_effect_id n c s G : wf_kv n c -> (forall i, G (kv_view c s i) = kv_view c s i) -> stream_effect n c s G c.
Proof.
  intros Hwf HG. split_and!; [done|apply same_config_refl|]. intros st i. case_decide; [subst; by rewrite HG|done].
Qed.

(** A range that is empty, a zero shift or a unit divisor leave a cell alone. *)
Lemma cell_add_id n c s st i p0 p1 d : wf_kv n c -> d = 0%Z \/ p0 = p1 -> cell_add s p0 p1 d (kv_view c st i) = kv_view c st i.
Proof.
  intros Hwf Hd. unfold cell_add. destruct (kv_view c st i) as [[p q]|] eqn:Hv; simpl; [|done].
  case_decide as Hr; [|done]. unfold in_range in Hr. destruct Hd as [->|?]; [|lia].
  unfold kv_view in Hv. destruct (v_cells c !! st) as [cells|] eqn:Hc; [|done]. simpl in Hv.
  destruct (kw_wf _ _ Hwf _ _ Hc) as [Hw _]. pose proof (view_range _ _ _ _ Hw Hv). rewrite Z.add_0_r. by rewrite decide_False by lia.
Qed.

Lemma cell_div_id s p0 p1 d o : d = 1%Z \/ p0 = p1 -> cell_div s p0 p1 d o = o.
Proof.
  intros Hd. unfold cell_div. destruct o as [[p q]|]; simpl; [|done].
  case_decide as Hr; [|done]. unfold in_range in Hr. destruct Hd as [->|?]; [by rewrite Z.div_1_r|lia].
Qed.

Section Streams2.
Context `{BM : BuildMode}.

Lemma kv_seq_add_ok n c s p0 p1 d st : wf_kv n c -> home c s = Some st -> n_pos c = 1 ->
  (forall i p q h, kv_view c st i = Some (p, q) -> in_range (from_p0 p0) (to_p1 p1) p -> s ∈ q ->
     kv_shift c st i = Some h -> add_room p h d) ->
  exists c', seq_add s p0 p1 d c = Some c' /\ stream_effect n c st (cell_add s (from_p0 p0) (to_p1 p1) d) c'.
Proof.
  intros Hwf Hst Hnp Hroom. destruct (home_range Hwf s st Hst) as (Hs & Hlt & _). unfold seq_add.
  rewrite (stream_of_home Hwf s st) by done. cbn [mbind option_bind].
  rewrite (ggml_assert_true _) by (by apply bool_decide_true). cbn [mbind option_bind].
  destruct (stream_cells Hwf st Hlt) as (cells & h & Hc & Hhd & Hwc & Hn & Hh). rewrite Hc. cbn [mbind option_bind].
  case_bool_decide as Hd0; [exists c; split; [done|]; apply stream_effect_id; [done|]; intros i; eapply cell_add_id; eauto|].
  case_bool_decide as Hpp; [exists c; split; [done|]; apply stream_effect_id; [done|]; intros i; eapply cell_add_id; eauto|].
  destruct (sweep_ok (seq_add_cell s (from_p0 p0) (to_p1 p1) d (size cells)) (fun i => cell_add s (from_p0 p0) (to_p1 p1) d (kv_view c st i)) cells Hwc)
    as (x & nh & -> & Hx & Hsz & Hnh & Hv).
  - intros i c1 nh Hi (Hw & Hsz & Hv & Hsh & _). rewrite (view_kv st cells), <- Hv by done.
    apply seq_add_cell_ok; try done; [lia|apply from_p0_nonneg|]. intros p q h' Hv' Hr Hin Hh'.
    apply (Hroom i p q h'); [by rewrite (view_kv st cells), <- Hv|done|done|]. unfold kv_shift. rewrite Hc. simpl. by rewrite <- Hsh.
  - cbn [mbind option_bind]. rewrite Hn in *. apply put_stream; try done.
    + intros i. apply owned_add, Hwf.
    + case_bool_decide; lia.
Qed.

(** The same for the operations that leave the head alone. *)
Lemma put_cells_effect n c s x G : wf_kv n c -> s < n_stream c -> wf x -> size x = n -> G None = None ->
  (forall i, owned c s (G (kv_view c s i))) ->
  (forall i, view x i = if decide (i < n) then G (kv_view c s i) else None) ->
  exists c', set_cells s x c = Some c' /\ stream_effect n c s G c'.
Proof.
  intros Hwf Hs Hx Hsz HG Hown Hv. destruct (stream_cells Hwf s Hs) as (cells & h & Hc & Hhd & _ & _ & Hh).
  destruct (put_stream n c s x G h) as (c' & Hput & He); try done.
  unfold set_cells in *. destruct (set_at s x (v_cells c)) as [l|]; [|done]. simpl in *.
  unfold set_head in Hput. simpl in Hput. rewrite set_at_ok in Hput by (rewrite (kw_heads _ _ Hwf); lia). simpl in Hput.
  injection Hput as <-. exists (with_cells l c). split; [done|].
  rewrite (list_insert_id (v_heads c) s h Hhd) in He. by replace (with_heads (v_heads c) (with_cells l c)) with (with_cells l c) in He by (by destruct c).
Qed.

Lemma kv_seq_div_ok n c s p0 p1 d st : wf_kv n c -> home c s = Some st -> n_pos c = 1 -> (0 < d)%Z ->
  (forall i p q h, kv_view c st i = Some (p, q) -> in_range (from_p0 p0) (to_p1 p1) p -> s ∈ q ->
     kv_shift c st i = Some h -> (INT32_MIN <= h <= INT32_MAX - p)%Z) ->
  exists c', seq_div s p0 p1 d c = Some c' /\ stream_effect n c st (cell_div s (from_p0 p0) (to_p1 p1) d) c'.
Proof.
  intros Hwf Hst Hnp Hd Hroom. destruct (home_range Hwf s st Hst) as (Hs & Hlt & _). unfold seq_div.
  rewrite (stream_of_home Hwf s st) by done. cbn [mbind option_bind].
  rewrite (ggml_assert_true _) by (by apply bool_decide_true). cbn [mbind option_bind].
  destruct (stream_cells Hwf st Hlt) as (cells & h & Hc & Hhd & Hwc & Hn & Hh). rewrite Hc. cbn [mbind option_bind].
  case_bool_decide as Hd0; [exists c; split; [done|]; apply stream_effect_id; [done|]; intros i; apply cell_div_id; eauto|].
  case_bool_decide as Hpp; [exists c; split; [done|]; apply stream_effect_id; [done|]; intros i; apply cell_div_id; eauto|].
  destruct (sweep1_ok (seq_div_cell s (from_p0 p0) (to_p1 p1) d) (fun i => cell_div s (from_p0 p0) (to_p1 p1) d (kv_view c st i)) cells Hwc)
    as (x & -> & Hx & Hsz & Hv).
  - intros i c1 Hi (Hw & Hsz & Hv & Hsh & _). rewrite (view_kv st cells), <- Hv by done.
    apply seq_div_cell_ok; try done; [lia|apply from_p0_nonneg|]. intros p q h' Hv' Hr Hin Hh'.
    apply (Hroom i p q h'); [by rewrite (view_kv st cells), <- Hv|done|done|]. unfold kv_shift. rewrite Hc. simpl. by rewrite <- Hsh.
  - cbn [mbind option_bind]. rewrite Hn in *. apply put_cells_effect; try done. intros i. apply owned_div, Hwf.
Qed.

Lemma kv_seq_cp_same_ok n c src dst p0 p1 st : wf_kv n c -> home c src = Some st -> home c dst = Some st ->
  (src <> dst -> forall i p q, kv_view c st i = Some (p, q) -> in_range (from_p0 p0) (to_p1 p1) p -> src ∈ q -> dst ∉ q) ->
  exists c', seq_cp src dst p0 p1 c = Some c' /\ stream_effect n c st (cell_cp src dst (from_p0 p0) (to_p1 p1)) c'.
Proof.
  intros Hwf Hsrc Hdst Hnew. destruct (home_range Hwf src st Hsrc) as (Hs & Hlt & _). destruct (home_range Hwf dst st Hdst) as (Hd & _).
  unfold seq_cp. rewrite (stream_of_home Hwf src st), (stream_of_home Hwf dst st) by done. cbn [mbind option_bind].
  rewrite bool_decide_true by done. case_bool_decide as Heq.
  { subst. exists c. split; [done|]. apply stream_effect_id; [done|]. intros i. unfold cell_cp.
    destruct (kv_view c st i) as [[p q]|]; simpl; [|done]. case_decide; [|done]. do 2 f_equal. set_solver. }
  destruct (stream_cells Hwf st Hlt) as (cells & h & Hc & Hhd & Hwc & Hn & Hh). rewrite Hc. cbn [mbind option_bind].
  destruct (sweep1_ok (seq_cp_cell src dst (from_p0 p0) (to_p1 p1)) (fun i => cell_cp src dst (from_p0 p0) (to_p1 p1) (kv_view c st i)) cells Hwc)
    as (x & -> & Hx & Hsz & Hv).
  - intros i c1 Hi (Hw & Hsz & Hv & _). rewrite (view_kv st cells), <- Hv by done.
    apply seq_cp_cell_ok; try done; [lia|apply from_p0_nonneg|]. intros p q Hv' Hr Hin.
    apply (Hnew Heq i p q); [by rewrite (view_kv st cells), <- Hv|done|done].
  - cbn [mbind option_bind]. rewrite Hn in *. apply put_cells_effect; try done. intros i. apply owned_cp; [done|apply Hwf].
Qed.

Lemma kv_seq_cp_cross_ok n c src dst p0 p1 s0 s1 : wf_kv n c -> home c src = Some s0 -> home c dst = Some s1 -> s0 <> s1 ->
  is_full n p0 p1 ->
  (forall i p q h, kv_view c s0 i = Some (p, q) -> src ∈ q -> kv_shift c s0 i = Some h ->
     (0 <= p - h <= INT32_MAX)%Z /\ (INT32_MIN <= h <= INT32_MAX)%Z) ->
  exists c', seq_cp src dst p0 p1 c = Some c' /\ wf_kv n c' /\ same_config c c' /\
    sc_info c' = mkCopyInfo (ssrc (sc_info c) ++ [s0]) (sdst (sc_info c) ++ [s1]) /\
    forall st i, kv_view c' st i = if decide (st = s1) then cell_move src dst (kv_view c s0 i) else kv_view c st i.
Proof.
  intros Hwf Hsrc Hdst Hne (Hm0 & Hm1 & Hf0 & Hf1) Hroom.
  destruct (home_range Hwf src s0 Hsrc) as (Hs & Hlt0 & _). destruct (home_range Hwf dst s1 Hdst) as (Hd & Hlt1 & _).
  unfold seq_cp. rewrite (stream_of_home Hwf src s0), (stream_of_home Hwf dst s1) by done. cbn [mbind option_bind].
  rewrite bool_decide_false by done.
  destruct (stream_cells Hwf s0 Hlt0) as (from & h0 & Hc0 & Hh0 & Hwc0 & Hn0 & Hle0).
  destruct (stream_cells Hwf s1 Hlt1) as (to & h1 & Hc1 & Hh1 & Hwc1 & Hn1 & Hle1).
  assert (get_size c = Some n) as ->.
  { unfold get_size. assert (seq_to_stream c !! 0 = Some 0) as ->.
    { destruct (kw_map _ _ Hwf) as [[? ->]|[? ->]]; [lia|]. apply lookup_seq_lt. lia. }
    cbn [mbind option_bind]. destruct (stream_cells Hwf 0) as (x & _ & -> & _ & _ & ? & _); [lia|]. simpl. by f_equal. }
  cbn [mbind option_bind].
  assert (forall p, (p < INT32_MAX)%Z -> ~ (0 < p /\ p + 1 < Z.of_nat n)%Z ->
    (if bool_decide (0 < p)%Z then q ← i32_chk (p + 1); Some (bool_decide (q < Z.of_nat n)%Z) else Some false) = Some false) as Hq.
  { intros p Hp Hf. case_bool_decide; [|done]. rewrite i32_chk_Some by (unfold INT32_MIN, INT32_MAX in *; lia).
    cbn [mbind option_bind]. by rewrite bool_decide_false by tauto. }
  rewrite !Hq by done. cbn [mbind option_bind]. rewrite (ggml_assert_true _) by done. cbn [mbind option_bind].
  simpl (v_cells (with_sc _ c)). rewrite Hc0, Hc1. cbn [mbind option_bind].
  assert (wf (reset to)) as Hwr by (apply reset_wf, Hwc1).
  replace (size from) with (size (reset to)) by (rewrite reset_size; congruence).
  destruct (sweep1_ok (seq_cp_stream_cell from src dst) (fun i => cell_move src dst (view from i)) (reset to) Hwr)
    as (x & -> & Hx & Hsz & Hv).
  - intros i c1 Hi (Hw & Hsz & Hv & Hsh & _). rewrite reset_view in Hv. rewrite reset_size in *.
    apply seq_cp_stream_cell_ok; try done; [lia|congruence| |].
    + rewrite Hsh. unfold reset. simpl. apply lookup_replicate_2. unfold size in Hi. lia.
    + intros p q h Hvf Hin Hsf. apply (Hroom i p q h); [by rewrite (view_kv s0 from)|done|]. unfold kv_shift. by rewrite Hc0.
  - cbn [mbind option_bind]. rewrite reset_size in *. simpl (v_heads _).
    pose proof (put_sc Hwf (mkCopyInfo (ssrc (sc_info c) ++ [s0]) (sdst (sc_info c) ++ [s1]))) as Wsc.
    destruct (put_cells Wsc s1 x) as (c1 & Hset & W1 & C1 & H1 & _ & V1); [done|done|congruence|..].
    { intros i. rewrite Hv. case_decide; [by apply owned_move|by intros ? ?]. }
    rewrite Hset. cbn [mbind option_bind]. rewrite H1. simpl (v_heads _). rewrite Hh0. cbn [mbind option_bind].
    destruct (put_head W1 s1 h0) as (c2 & Hhead & W2 & C2 & _ & V2); [by destruct C1 as (? & ? & ? & ->)|done|].
    rewrite Hhead. apply set_head_sc in Hhead.
    unfold set_cells in Hset. destruct (set_at s1 x _) as [l|]; [|done]. injection Hset as <-.
    exists c2. split; [done|]. split_and!; [done| | |].
    + eapply same_config_trans; [|exact C2]. by exists (v_heads c), l, (mkCopyInfo (ssrc (sc_info c) ++ [s0]) (sdst (sc_info c) ++ [s1])).
    + by rewrite Hhead.
    + intros st i. unfold kv_view at 1. rewrite V2. fold (kv_view (with_cells l (with_sc (mkCopyInfo (ssrc (sc_info c) ++ [s0]) (sdst (sc_info c) ++ [s1])) c)) st i).
      rewrite V1. case_decide; [|done]. rewrite Hv. rewrite (view_kv s0 from) by done. case_decide as Hi; [done|].
      destruct (view from i) as [[p q]|] eqn:E; [apply view_size in E; lia|done].
Qed.

Lemma kv_clear_ok n c : wf_kv n c -> wf_kv n (clear c) /\ same_config c (clear c) /\ forall st i, kv_view (clear c) st i = None.
Proof.
  intros Hwf. assert (forall st i, kv_view (clear c) st i = None) as Hv.
  { intros st i. unfold kv_view, clear. simpl. rewrite list_lookup_fmap. destruct (v_cells c !! st); [|done]. apply reset_view. }
  split_and!; [|exists (const 0 <$> v_heads c), (reset <$> v_cells c), (sc_info c); by destruct c|done].
  destruct Hwf as [H1 H2 H3 H4 H5 H6]. split; simpl; rewrite ?length_fmap; try done.
  - intros st cells Hc. rewrite list_lookup_fmap in Hc. destruct (v_cells c !! st) as [x|] eqn:E; simplify_eq/=.
    destruct (H4 st x E) as [Hw Hs]. split; [apply reset_wf, Hw|by rewrite reset_size].
  - intros st h Hh. rewrite list_lookup_fmap in Hh. destruct (v_heads c !! st); simplify_eq/=. lia.
  - intros st i p q. by rewrite Hv.
Qed.
End Streams2.


(** * The cache as a memory *)

(** Sequence [s] has position [p] in the cache. *)
Definition kv_holds (c : llama_kv_cache) (s p : Z) : Prop :=
  exists st i q, home c s = Some st /\ kv_view c st i = Some (p, q) /\ s ∈ q.

Lemma kv_holds_cells n c s st cells p : wf_kv n c -> home c s = Some st -> v_cells c !! st = Some cells ->
  kv_holds c s p <-> holds_pos cells s p.
Proof.
  intros Hwf Hs Hc. unfold kv_holds, holds_pos, kv_view. split.
  - intros (st' & i & q & Hs' & Hv & Hin). simplify_eq. rewrite Hc in Hv. by exists i, q.
  - intros (i & q & Hv & Hin). exists st, i, q. by rewrite Hc.
Qed.

Section Memory.
Context `{BM : BuildMode}.

#[global] Program Instance kv_laws : MemoryLaws llama_kv_cache := {
  mem_ok c := exists n, wf_kv n c;
  mem_seqs c := Z.of_nat (length (seq_to_stream c));
  mem_holds := kv_holds;
}.
Next Obligation.
  simpl. intros c s p [n Hwf] (st & i & q & Hs & Hv & Hin). unfold kv_view in Hv.
  destruct (v_cells c !! st) as [cells|] eqn:Hc; [|done]. destruct (kw_wf _ _ Hwf _ _ Hc) as [Hw _].
  pose proof (view_range _ _ _ _ Hw Hv). lia.
Qed.
Next Obligation.
  simpl. intros c s [n Hwf] Hs. destruct (lookup_lt_is_Some_2 (seq_to_stream c) (Z.to_nat s)) as [st Hst]; [lia|].
  assert (home c s = Some st) as Hh by (unfold home; by rewrite bool_decide_true by lia).
  destruct (home_range Hwf s st Hh) as (Hr & Hlt & _). destruct (stream_cells Hwf st Hlt) as (cells & _ & Hc & _ & Hw & _).
  unfold seq_pos_min. rewrite (stream_of_home Hwf s st Hh). cbn [mbind option_bind]. rewrite Hc. cbn [mbind option_bind].
  destruct (seq_pos_min_ok cells s Hw Hr) as (m & -> & Hm). exists m. split; [done|].
  setoid_rewrite (kv_holds_cells n c s st cells); done.
Qed.
Next Obligation.
  simpl. intros c s [n Hwf] Hs. destruct (lookup_lt_is_Some_2 (seq_to_stream c) (Z.to_nat s)) as [st Hst]; [lia|].
  assert (home c s = Some st) as Hh by (unfold home; by rewrite bool_decide_true by lia).
  destruct (home_range Hwf s st Hh) as (Hr & Hlt & _). destruct (stream_cells Hwf st Hlt) as (cells & _ & Hc & _ & Hw & _).
  unfold seq_pos_max. rewrite (stream_of_home Hwf s st Hh). cbn [mbind option_bind]. rewrite Hc. cbn [mbind option_bind].
  destruct (seq_pos_max_ok cells s Hw Hr) as (m & -> & Hm). exists m. split; [done|].
  setoid_rewrite (kv_holds_cells n c s st cells); done.
Qed.

(** Every operation, on every path, has its specified effect. *)
Lemma mem_op_refines n c o : wf_kv n c -> mem_op_pre n c o ->
  exists c', exec_mem_op o c = Some c' /\ wf_kv n c' /\ same_config c c' /\
    forall st i, kv_view c' st i = spec_mem_op (home c) o (kv_view c) st i.
Proof.
  intros Hwf Hpre. destruct o as [|s p0 p1|src dst p0 p1|s|s p0 p1 d|s p0 p1 d]; simpl in *.
  - eexists. split; [reflexivity|]. by apply kv_clear_ok.
  - destruct (decide (s = -1)%Z) as [->|Hne].
    + destruct (kv_purge_ok n c p0 p1 Hwf) as (c' & -> & ? & ? & Hv). by exists c'.
    + destruct Hpre as [?|[st Hst]]; [done|]. destruct (kv_seq_rm_ok n c s p0 p1 st Hwf Hst) as (c' & -> & ? & ? & Hv).
      exists c'. split_and!; [done..|]. intros st' i. rewrite Hv, Hst. repeat case_decide; congruence.
  - destruct Hpre as (s0 & s1 & Hs0 & Hs1 & Hsame & Hcross). destruct (decide (s0 = s1)) as [->|Hne].
    + destruct (kv_seq_cp_same_ok n c src dst p0 p1 s1 Hwf Hs0 Hs1) as (c' & -> & ? & ? & Hv); [eauto|].
      exists c'. split_and!; [done..|]. intros st' i. rewrite Hv, Hs1, Hs0. repeat case_decide; congruence.
    + destruct (Hcross Hne) as [Hf Hm].
      destruct (kv_seq_cp_cross_ok n c src dst p0 p1 s0 s1 Hwf Hs0 Hs1 Hne Hf Hm) as (c' & -> & ? & ? & _ & Hv).
      exists c'. split_and!; [done..|]. intros st' i. rewrite Hv, Hs1, Hs0. simpl. repeat case_decide; congruence.
  - destruct Hpre as [st Hst]. destruct (kv_seq_keep_ok n c s st Hwf Hst) as (c' & -> & ? & ? & Hv).
    exists c'. split_and!; [done..|]. intros st' i. rewrite Hv, Hst. repeat case_decide; congruence.
  - destruct Hpre as (st & Hst & Hn & Hr). destruct (kv_seq_add_ok n c s p0 p1 d st Hwf Hst Hn Hr) as (c' & -> & ? & ? & Hv).
    exists c'. split_and!; [done..|]. intros st' i. rewrite Hv, Hst. repeat case_decide; congruence.
  - destruct Hpre as (st & Hst & Hn & Hd & Hr). destruct (kv_seq_div_ok n c s p0 p1 d st Hwf Hst Hn Hd Hr) as (c' & -> & ? & ? & Hv).
    exists c'. split_and!; [done..|]. intros st' i. rewrite Hv, Hst. repeat case_decide; congruence.
Qed.

(** C2: every sequence operation of the cache (clear, remove, copy within a
    stream or across streams, keep, shift, divide), called within its contract,
    runs without failing an assertion, preserves the invariant of the cache and
    changes the content of its cells exactly as specified, on every path of the
    code. *)
Theorem kv_ops_refine (n : nat) (c : llama_kv_cache) (o : mem_op) : wf_kv n c -> mem_op_pre n c o ->
  exists c', exec_mem_op o c = Some c' /\ wf_kv n c' /\ same_config c c' /\
    forall st i, kv_view c' st i = spec_mem_op (home c) o (kv_view c) st i.
Proof. apply mem_op_refines. Qed.

(** The positions of sequence [s] after an operation, from those before.  A
    shift or division also moves the other sequences of the cells it touches:
    there the effect is stated for its own sequence. *)
Definition seq_effect (c : llama_kv_cache) (o : mem_op) (s p : Z) : Prop :=
  match o with
  | MClear => False
  | MSeqRm t p0 p1 => kv_holds c s p /\ ~ ((t = (-1)%Z \/ s = t) /\ in_range (from_p0 p0) (to_p1 p1) p)
  | MSeqCp src dst p0 p1 =>
      if decide (s = dst) then
        if decide (home c src = home c dst) then
          kv_holds c s p \/ (kv_holds c src p /\ in_range (from_p0 p0) (to_p1 p1) p)
        else kv_holds c src p
      else kv_holds c s p
  | MSeqKeep t => kv_holds c s p /\ (s = t \/ home c s <> home c t)
  | MSeqAdd t p0 p1 d => exists p', kv_holds c s p' /\
      if decide (in_range (from_p0 p0) (to_p1 p1) p') then p = (p' + d)%Z /\ (0 <= p)%Z else p = p'
  | MSeqDiv t p0 p1 d => exists p', kv_holds c s p' /\
      p = if decide (in_range (from_p0 p0) (to_p1 p1) p') then (p' / d)%Z else p'
  end.

Definition seq_scope (o : mem_op) (s : Z) : Prop :=
  match o with MSeqAdd t _ _ _ | MSeqDiv t _ _ _ => s = t | _ => True end.

Lemma kv_holds_home c s st p : home c s = Some st -> kv_holds c s p <-> exists i q, kv_view c st i = Some (p, q) /\ s ∈ q.
Proof.
  intros Hs. unfold kv_holds. split; [intros (st' & i & q & ? & ? & ?); simplify_eq; eauto|]. intros (i & q & ? & ?). by exists st, i, q.
Qed.

Lemma kv_holds_nohome c s p : home c s = None -> ~ kv_holds c s p.
Proof. intros Hs (st & i & q & ? & _). congruence. Qed.

(** One cell at a time: when does cell effect [o'] of [o] hold [s] at [p]. *)
Definition has (o : cell) (s p : Z) : Prop := exists q, o = Some (p, q) /\ s ∈ q.

Lemma has_rm t p0 p1 o s p : has (cell_rm t p0 p1 o) s p <-> has o s p /\ ~ (s = t /\ in_range p0 p1 p).
Proof.
  unfold has, cell_rm. destruct o as [[p' q']|]; simpl; [|naive_solver]. repeat case_decide.
  - split; [naive_solver|]. intros [(q & [= <- <-] & Hs) Hn]. exfalso. apply Hn. set_solver.
  - split.
    + intros (q & [= <- <-] & Hs). split; [exists q'; set_solver|]. intros [-> _]. set_solver.
    + intros [(q & [= <- <-] & Hs) Hn]. eexists. split; [done|]. set_solver.
  - split; [|naive_solver]. intros (q & [= <- <-] & Hs). split; [by exists q'|]. intros [-> ?]. tauto.
Qed.

Lemma has_purge p0 p1 o s p : has (cell_purge p0 p1 o) s p <-> has o s p /\ ~ in_range p0 p1 p.
Proof. unfold has, cell_purge. destruct o as [[p' q']|]; simpl; [|naive_solver]. case_decide; naive_solver. Qed.

Lemma has_cp src dst p0 p1 o s p : has (cell_cp src dst p0 p1 o) s p <->
  has o s p \/ (s = dst /\ has o src p /\ in_range p0 p1 p).
Proof.
  unfold has, cell_cp. destruct o as [[p' q']|]; simpl; [|naive_solver]. case_decide as Hd.
  - split.
    + intros (q & [= <- <-] & [->%elem_of_singleton|Hs]%elem_of_union); [right|left; by exists q'].
      destruct Hd. split_and!; [done|by exists q'|done].
    + intros [(q & [= <- <-] & Hs)|(-> & (q & [= <- <-] & Hs) & _)]; eexists; (split; [done|set_solver]).
  - split; [naive_solver|]. intros [?|(-> & (q & [= <- <-] & Hs) & Hr)]; [done|tauto].
Qed.

Lemma has_move src dst o s p : has (cell_move src dst o) s p <-> s = dst /\ has o src p.
Proof.
  unfold has, cell_move. destruct o as [[p' q']|]; simpl; [|naive_solver]. case_decide.
  - split; [intros (q & [= <- <-] & ->%elem_of_singleton); eauto|]. intros [-> (q & [= <- <-] & Hs)]. eexists. split; [done|set_solver].
  - naive_solver.
Qed.

Lemma has_add t p0 p1 d o p : has (cell_add t p0 p1 d o) t p <->
  exists p', has o t p' /\ if decide (in_range p0 p1 p') then p = (p' + d)%Z /\ (0 <= p)%Z else p = p'.
Proof.
  unfold has, cell_add. destruct o as [[x q']|]; simpl; [|naive_solver]. split.
  - repeat case_decide; [by intros (q & [=] & _)| |]; intros (q & [= <- <-] & Hs); exists x; (split; [by eexists|]).
    + rewrite decide_True by tauto. lia.
    + rewrite decide_False by tauto. done.
  - intros (p' & (q & [= <- <-] & Hs) & Hp). case_decide as Hr; [|subst; rewrite decide_False by tauto; by eexists].
    rewrite decide_True by done. destruct Hp as [-> ?]. rewrite decide_False by lia. by eexists.
Qed.

Lemma has_div t p0 p1 d o p : has (cell_div t p0 p1 d o) t p <->
  exists p', has o t p' /\ p = if decide (in_range p0 p1 p') then (p' / d)%Z else p'.
Proof.
  unfold has, cell_div. destruct o as [[x q']|]; simpl; [|naive_solver]. split.
  - case_decide; intros (q & [= <- <-] & Hs); exists x; (split; [by eexists|]).
    + by rewrite decide_True by tauto.
    + by rewrite decide_False by tauto.
  - intros (p' & (q & [= <- <-] & Hs) & ->). destruct (decide (in_range p0 p1 x /\ t ∈ q')) as [Hr|Hr].
    + rewrite !decide_True by tauto. by eexists.
    + rewrite (decide_False (P := in_range p0 p1 x)) by tauto. by eexists.
Qed.

Lemma holds_has c s st p : home c s = Some st -> kv_holds c s p <-> exists i, has (kv_view c st i) s p.
Proof. intros Hs. rewrite (kv_holds_home c s st) by done. unfold has. naive_solver. Qed.


(** A sequence without a stream holds nothing after an operation either. *)
Lemma seq_effect_nohome n c o s p : home c s = None -> mem_op_pre n c o -> ~ seq_effect c o s p.
Proof.
  intros Hs Hpre. pose proof (kv_holds_nohome c s) as Hno. destruct o as [|t p0 p1|src dst p0 p1|t|t p0 p1 d|t p0 p1 d]; simpl.
  - tauto.
  - by intros [?%Hno _].
  - simpl in Hpre. destruct Hpre as (s0 & s1 & H0 & H1 & _). case_decide; [subst; congruence|by intros ?%Hno].
  - by intros [?%Hno _].
  - by intros (p' & ?%Hno & _).
  - by intros (p' & ?%Hno & _).
Qed.

(** The effect of an operation on a sequence, cell by cell. *)
Lemma seq_effect_ok (n : nat) (c c' : llama_kv_cache) (o : mem_op) (s p : Z) :
  wf_kv n c -> mem_op_pre n c o -> exec_mem_op o c = Some c' -> seq_scope o s ->
  kv_holds c' s p <-> seq_effect c o s p.
Proof.
  intros Hwf Hpre Hex Hsc. destruct (mem_op_refines n c o Hwf Hpre) as (c1 & Hex1 & _ & Hcfg & Hv). simplify_eq.
  destruct (home c s) as [st|] eqn:Hs.
  2:{ assert (home c' s = None) as Hs' by (by rewrite (home_config _ _ s Hcfg)).
      split; [by intros ?%(kv_holds_nohome _ _ _ Hs')|by intros ?%(seq_effect_nohome n)]. }
  assert (home c' s = Some st) as Hs' by (by rewrite (home_config _ _ s Hcfg)).
  rewrite (holds_has c' s st) by done. setoid_rewrite Hv.
  destruct o as [|t p0 p1|src dst p0 p1|t|t p0 p1 d|t p0 p1 d]; simpl.
  - split; [by intros (i & q & ? & _)|done].
  - rewrite (holds_has c s st) by done. destruct (decide (t = -1)%Z) as [->|Ht].
    + setoid_rewrite has_purge. naive_solver.
    + destruct Hpre as [?|[st' Hst']]; [done|]. rewrite Hst'. destruct (decide (Some st' = Some st)) as [[= ->]|Hne].
      * setoid_rewrite has_rm. naive_solver.
      * split; [|naive_solver]. intros Hh. split; [done|]. intros [[?| ->] _]; congruence.
  - destruct Hpre as (s0 & s1 & Hs0 & Hs1 & _). rewrite Hs0, Hs1. destruct (decide (s = dst)) as [->|Hne].
    + rewrite Hs in Hs1. injection Hs1 as <-. destruct (decide (Some st = Some st)) as [_|?]; [|done].
      destruct (decide (Some s0 = Some st)) as [[= ->]|Hne].
      * rewrite !(holds_has c _ st) by done. setoid_rewrite has_cp. naive_solver.
      * simpl. rewrite (holds_has c src s0) by done. setoid_rewrite has_move. naive_solver.
    + rewrite (holds_has c s st) by done. destruct (decide (Some s1 = Some st)) as [[= ->]|Hne1]; [|done].
      destruct (decide (Some s0 = Some st)) as [[= ->]|Hne0].
      * setoid_rewrite has_cp. naive_solver.
      * destruct (decide (n_stream c = 1)) as [Hn1|Hn1].
        -- exfalso. destruct (home_range Hwf src s0 Hs0) as (_ & ? & _). destruct (home_range Hwf s st Hs) as (_ & ? & _).
           apply Hne0. f_equal. lia.
        -- exfalso. apply Hne. by apply (home_inj Hwf s dst st).
  - destruct Hpre as [st' Hst']. rewrite (holds_has c s st) by done. rewrite Hs, Hst'.
    destruct (decide (Some st' = Some st)) as [[= ->]|Hne].
    + unfold cell_keep. change (fun i => has (cell_keep t (kv_view c st i)) s p) with (fun i => has (cell_move t t (kv_view c st i)) s p).
      setoid_rewrite has_move. naive_solver.
    + split; [|naive_solver]. intros Hh. split; [done|]. right. congruence.
  - simpl in Hsc. subst t. rewrite Hs. destruct (decide (Some st = Some st)) as [_|?]; [|done]. setoid_rewrite has_add. setoid_rewrite (holds_has c s st); [|done].
    naive_solver.
  - simpl in Hsc. subst t. rewrite Hs. destruct (decide (Some st = Some st)) as [_|?]; [|done]. setoid_rewrite has_div. setoid_rewrite (holds_has c s st); [|done].
    naive_solver.
Qed.

(** What [llama.h] documents.  It does not say that a shift drops the positions
    that become negative. *)
Definition documented_effect (c : llama_kv_cache) (o : mem_op) (s p : Z) : Prop :=
  match o with
  | MClear => False
  | MSeqRm t p0 p1 => kv_holds c s p /\ ~ (((t < 0)%Z \/ s = t) /\ in_range (from_p0 p0) (to_p1 p1) p)
  | MSeqCp src dst p0 p1 => kv_holds c s p \/ (s = dst /\ kv_holds c src p /\ in_range (from_p0 p0) (to_p1 p1) p)
  | MSeqKeep t => kv_holds c s p /\ s = t
  | MSeqAdd t p0 p1 d => exists p', kv_holds c s p' /\
      if decide (in_range (from_p0 p0) (to_p1 p1) p') then p = (p' + d)%Z /\ (0 <= p)%Z else p = p'
  | MSeqDiv t p0 p1 d => exists p', kv_holds c s p' /\
      p = if decide (in_range (from_p0 p0) (to_p1 p1) p') then (p' / d)%Z else p'
  end.

(** Where the code does that: except for a copy between streams, and for keeping
    a sequence in a cache of several streams. *)
Definition documented_case (c : llama_kv_cache) (o : mem_op) : Prop :=
  match o with
  | MSeqCp src dst _ _ => home c src = home c dst
  | MSeqKeep _ => n_stream c = 1
  | _ => True
  end.

Lemma documented_ok n c o s p : wf_kv n c -> mem_op_pre n c o -> documented_case c o -> seq_effect c o s p <-> documented_effect c o s p.
Proof.
  intros Hwf Hpre Hcase. destruct o as [|t p0 p1|src dst p0 p1|t|t p0 p1 d|t p0 p1 d]; cbn [seq_effect documented_effect documented_case] in *; try done.
  - assert (t = (-1)%Z <-> (t < 0)%Z) as ->; [|done]. split; [lia|]. destruct Hpre as [?|[st Hst]]; [done|]. destruct (home_range Hwf t st Hst). lia.
  - destruct (decide (s = dst)) as [->|Hne]; [|naive_solver]. rewrite decide_True by done. naive_solver.
  - split; [|naive_solver]. intros [Hh [->|Hne]]; [done|]. exfalso. destruct Hh as (st & i & q & Hs & _). destruct Hpre as [st' Hst'].
    destruct (home_range Hwf s st Hs) as (_ & ? & _). destruct (home_range Hwf t st' Hst') as (_ & ? & _). apply Hne. rewrite Hs, Hst'. f_equal. lia.
Qed.


(** * A concrete cache *)

(** Sequence 2 at position 5 and sequence 1 at position 2, in one stream. *)
Definition demo_kv : llama_kv_cache :=
  mkKv 1 1 0 LLAMA_SWA_TYPE_NONE 1 true false false 8 [2] [demo_cells] (replicate (Z.to_nat LLAMA_MAX_SEQ) 0) (mkCopyInfo [] []).

Lemma demo_view i : view demo_cells i =
  match i with 0 => Some (5%Z, {[2%Z]}) | 1 => Some (2%Z, {[1%Z]}) | _ => None end.
Proof.
  destruct i as [|[|[|[|i]]]]; [by_eval..|]. destruct (view demo_cells _) as [[p q]|] eqn:E; [|done].
  apply view_size in E. assert (size demo_cells = 4) as Hs by (vm_compute; reflexivity). lia.
Qed.

Lemma demo_home s : (0 <= s < LLAMA_MAX_SEQ)%Z -> home demo_kv s = Some 0.
Proof.
  intros Hs. unfold home. rewrite bool_decide_true by lia. cbn [seq_to_stream demo_kv].
  apply lookup_replicate_2. lia.
Qed.

Lemma demo_kv_view st i : kv_view demo_kv st i = match st with 0 => view demo_cells i | _ => None end.
Proof. destruct st as [|st]; [done|]. by destruct st. Qed.

Lemma demo_kv_wf : wf_kv 4 demo_kv.
Proof.
  split; cbn [n_stream v_cells v_heads demo_kv seq_to_stream].
  - done.
  - done.
  - by left.
  - intros [|st] cells Hc; [|by destruct st]. injection Hc as <-. split; [apply demo_wf|vm_compute; reflexivity].
  - intros [|st] h Hh; [|by destruct st]. injection Hh as <-. lia.
  - intros st i p q. rewrite demo_kv_view. destruct st; [|done]. rewrite demo_view.
    destruct i as [|[|i]]; [| |done]; intros [= <- <-]; (split; [set_solver|]); intros s ->%elem_of_singleton; by apply demo_home.
Qed.

Lemma demo_cp_pre : mem_op_pre 4 demo_kv (MSeqCp 1 3 0 (-1)).
Proof.
  exists 0, 0. split_and!; [by apply demo_home|by apply demo_home| |done].
  intros _ _ i p q. rewrite demo_kv_view, demo_view. destruct i as [|[|i]]; [| |done]; intros [= <- <-]; set_solver.
Qed.

Lemma new_cache_wf u n nmax pad swa ty np sh nr tr nv c : new_cache u n nmax pad swa ty np sh nr tr nv = Some c ->
  (Z.of_nat n <= INT32_MAX)%Z -> 0 < nmax <= Z.to_nat LLAMA_MAX_SEQ -> wf_kv n c /\ forall st i, kv_view c st i = None.
Proof.
  intros Hnew Hn Hmax. unfold new_cache in Hnew. case_bool_decide as Hp; [done|]. inv_opt Hnew.
  set (ns := if u then 1 else nmax) in *. assert (0 < ns <= Z.to_nat LLAMA_MAX_SEQ) as Hns by (unfold ns, LLAMA_MAX_SEQ in *; destruct u; lia).
  subst c. assert (forall st i x, replicate ns (resize n cells_new) !! st = Some x -> view x i = None) as Hv.
  { intros st i x [-> _]%lookup_replicate. apply reset_view. }
  clearbody ns. split.
  - split; cbn [n_stream seq_to_stream v_cells v_heads].
    + by rewrite length_replicate.
    + by rewrite length_replicate.
    + destruct (decide (1 < ns)) as [H1|H1].
      * right. rewrite bool_decide_true by done. split; [lia|done].
      * left. rewrite bool_decide_false by done. split; [lia|done].
    + intros st x [-> _]%lookup_replicate. split; [by apply resize_wf|apply resize_size].
    + intros st h [-> _]%lookup_replicate. lia.
    + intros st i p q. unfold kv_view. cbn [v_cells]. destruct (replicate ns _ !! st) as [x|] eqn:Ec; [|done].
      simpl. by rewrite (Hv st i x Ec).
  - intros st i. unfold kv_view. cbn [v_cells]. destruct (replicate ns _ !! st) as [x|] eqn:Ec; [|done].
    simpl. by apply (Hv st i x Ec).
Qed.

End Memory.

Lemma kv_ops_refine_witness :
  exists c', exec_mem_op (H := kv_memory (BM := debug_build)) (MSeqCp 1 3 0 (-1)) demo_kv = Some c' /\ wf_kv 4 c' /\
    same_config demo_kv c' /\
    forall st i, kv_view c' st i = spec_mem_op (home demo_kv) (MSeqCp 1 3 0 (-1)) (kv_view demo_kv) st i.
Proof. apply (kv_ops_refine (BM := debug_build) 4); [apply demo_kv_wf|apply demo_cp_pre]. Defined.

Lemma demo_cp_effect : seq_effect demo_kv (MSeqCp 1 3 0 (-1)) 3 2.
Proof.
  assert (H1 : home demo_kv 1 = Some 0) by (apply demo_home; unfold LLAMA_MAX_SEQ; lia).
  assert (H3 : home demo_kv 3 = Some 0) by (apply demo_home; unfold LLAMA_MAX_SEQ; lia).
  pose proof (demo_kv_view 0 1) as Hv. rewrite demo_view in Hv. cbn [seq_effect].
  set (c := demo_kv) in *. clearbody c. rewrite H3, H1.
  rewrite decide_True by reflexivity. rewrite decide_True by reflexivity.
  right. split; [|unfold in_range, from_p0, to_p1, INT32_MAX; simpl; lia].
  exists 0, 1, {[1%Z]}. split; [exact H1|]. split; [exact Hv|set_solver].
Qed.

Definition demo_kv_cp : option llama_kv_cache := seq_cp (BM := debug_build) 1 3 0 (-1) demo_kv.


(** * What the contract of [seq_cp] and [seq_div] rules out *)

(** Copying a sequence onto a sequence that is already in the cell counts its
    position twice in a build without assertions: after the cell is removed,
    the destination is still reported at that position. *)
Lemma seq_cp_twice_leaves_phantom :
  (c ← seq_cp (BM := release_build) 1 3 0 (-1) demo_kv;
   c ← seq_cp (BM := release_build) 1 3 0 (-1) c;
   '(c, _) ← seq_rm (BM := release_build) (-1) 0 (-1) c;
   p ← seq_pos_max (BM := release_build) 3 c;
   cells ← v_cells c !! 0;
   Some (p, used_max_p1 cells)) = Some (2%Z, 0).
Proof. vm_compute. reflexivity. Qed.

(** [pos_add] keeps the difference of position and pending shift, the position
    the cell was computed at; [pos_div] accumulates the shift with the opposite
    sign: dividing position 5 by 2 leaves a pending shift of +3. *)
Lemma pos_div_shift_sign :
  (c ← pos_div (BM := debug_build) 0 2 demo_cells; p ← pos_get (BM := debug_build) 0 c; h ← get_shift (BM := debug_build) 0 c; Some (p, h))
    = Some (2%Z, 3%Z) /\
  ('(c, _) ← pos_add (BM := debug_build) 0 (-3) demo_cells; p ← pos_get (BM := debug_build) 0 c; h ← get_shift (BM := debug_build) 0 c; Some (p, h))
    = Some (2%Z, (-3)%Z).
Proof. split; vm_compute; reflexivity. Qed.


End KvOps.
