(* ===== verification/KvSlot.v ===== *)
(** Placing batches in the key/value cache: [is_masked_swa], [find_slot],
    and [apply_ubatch] of [llama-kv-cache.cpp]. *)

From S2P Require Import Prelude.
From S2P Require Import KvCells.
From S2P Require Import Memory.
From S2P Require Import Batch.
From S2P Require Import KvCache.
From S2P Require Import KvOps.
Import KvCells.Cells Memory.Memory KvCache.Kv KvOps.KvOps.

Module KvSlot.

(** * Sliding windows *)

(** A token at [p0] is outside of the window of a token at [p1]. *)
Definition swa_masked (n_swa : Z) (ty : llama_swa_type) (p0 p1 : Z) : Prop :=
  match ty with
  | LLAMA_SWA_TYPE_NONE => False
  | LLAMA_SWA_TYPE_STANDARD => (p0 + n_swa <= p1)%Z
  | LLAMA_SWA_TYPE_CHUNKED => (p0 / n_swa < p1 / n_swa)%Z
  | LLAMA_SWA_TYPE_SYMMETRIC => (n_swa / 2 < Z.abs (p1 - p0))%Z
  end.

#[global] Instance swa_masked_dec n ty p0 p1 : Decision (swa_masked n ty p0 p1).
Proof. destruct ty; unfold swa_masked; apply _. Defined.

(** The window sizes for which the signed arithmetic is exact. *)
Definition swa_size_ok (n_swa : Z) (ty : llama_swa_type) : Prop :=
  (0 <= n_swa <= INT32_MAX)%Z /\ (ty = LLAMA_SWA_TYPE_CHUNKED -> 0 < n_swa)%Z.

Lemma u32_wrap_small z : (0 <= z < 4294967296)%Z -> u32_wrap z = z.
Proof. intros H. unfold u32_wrap. by rewrite Z.mod_small. Qed.

Lemma u32_add_small a b : (Z.of_nat a + Z.of_nat b < 4294967296)%Z -> u32_add a b = a + b.
Proof. intros H. unfold u32_add. rewrite u32_wrap_small by lia. lia. Qed.

Lemma u32_sub_small a b : b <= a -> (Z.of_nat a < 4294967296)%Z -> u32_sub a b = a - b.
Proof. intros H1 H2. unfold u32_sub. rewrite u32_wrap_small by lia. lia. Qed.

Lemma i32_of_u32_small n : (n <= INT32_MAX)%Z -> i32_of_u32 n = n.
Proof. intros H. unfold i32_of_u32. by rewrite bool_decide_true. Qed.

Lemma chunk_start p0 p1 n : (0 < n)%Z -> (p0 < p1 / n * n <-> p0 / n < p1 / n)%Z.
Proof.
  intros Hn. split; intros H.
  - apply Z.div_lt_upper_bound; lia.
  - assert (p0 / n + 1 <= p1 / n)%Z as Hle by lia. pose proof (Z.mul_le_mono_nonneg_r _ _ n ltac:(lia) Hle).
    pose proof (Z.div_mod p0 n ltac:(lia)). pose proof (Z.mod_pos_bound p0 n Hn). lia.
Qed.

Lemma masked_ok `{BM : BuildMode} n_swa ty p0 p1 :
  swa_size_ok n_swa ty -> (0 <= p0 <= INT32_MAX)%Z -> (0 <= p1 <= INT32_MAX)%Z ->
  is_masked_swa n_swa ty p0 p1 = Some (bool_decide (swa_masked n_swa ty p0 p1)).
Proof.
  intros [Hn Hc] H0 H1. unfold is_masked_swa. rewrite (c_assert_true _) by (apply bool_decide_true; lia).
  cbn [mbind option_bind]. pose proof (i32_of_u32_small n_swa ltac:(lia)) as Hi.
  destruct ty; simpl.
  - done.
  - rewrite i32_chk_Some by (unfold INT32_MIN, INT32_MAX in *; lia). simpl. rewrite Hi. f_equal. apply bool_decide_ext. lia.
  - specialize (Hc eq_refl). rewrite bool_decide_false by lia.
    pose proof (Z.mul_div_le p1 n_swa Hc). pose proof (Z.div_pos p1 n_swa ltac:(lia) Hc).
    assert (0 <= p1 / n_swa * n_swa <= INT32_MAX)%Z as Hr by nia.
    rewrite (u32_wrap_small p1) by (unfold INT32_MAX in *; lia).
    rewrite (u32_wrap_small (p1 / n_swa * n_swa)) by (unfold INT32_MAX in *; lia).
    rewrite i32_of_u32_small by lia. f_equal. apply bool_decide_ext. by apply chunk_start.
  - rewrite i32_chk_Some by (unfold INT32_MIN, INT32_MAX in *; lia). simpl. rewrite Hi, Z.quot_div_nonneg by lia.
    f_equal. apply bool_decide_ext. lia.
Qed.

(** * The search *)

(** The cells the search may overwrite: empty ones, and cells of a single
    sequence that the next token of that sequence can no longer attend to. *)
Definition usable (c : llama_kv_cache) (cells : llama_kv_cells) (i : nat) : Prop :=
  match view cells i with
  | None => True
  | Some (p, q) => exists s mx, q = {[s]} /\ is_pos_max cells s mx /\ swa_masked (n_swa c) (swa_type c) p (mx + 1)
  end.

(** No position is the largest integer. *)
Definition pos_room (cells : llama_kv_cells) : Prop := forall i p q, view cells i = Some (p, q) -> (p < INT32_MAX)%Z.

Section Search.
Context `{BM : BuildMode}.

Lemma is_pos_max_unique cells s m m' : is_pos_max cells s m -> is_pos_max cells s m' -> m = m'.
Proof.
  intros [[-> H]|[H Hle]] [[-> H']|[H' Hle']]; try done.
  - by apply H in H'.
  - by apply H' in H.
  - specialize (Hle _ H'). specialize (Hle' _ H). lia.
Qed.

Lemma can_use_ok c cells i : wf cells -> i < size cells -> pos_room cells -> swa_size_ok (n_swa c) (swa_type c) ->
  exists b, can_use c cells i = Some b /\ (b = true <-> usable c cells i).
Proof.
  intros Hwf Hi Hroom Hn. unfold can_use, usable. rewrite is_empty_spec by done. cbn [mbind option_bind].
  destruct (view cells i) as [[p q]|] eqn:Hv; [|by exists true].
  rewrite bool_decide_false by done. rewrite (seq_count_spec cells i p q) by done. cbn [mbind option_bind].
  case_bool_decide as Hone; simpl.
  2:{ exists false. split; [done|]. split; [done|]. intros (s & mx & -> & _). by rewrite size_singleton in Hone. }
  rewrite (pos_get_spec cells i p q) by done. cbn [mbind option_bind].
  destruct (seq_single cells i p q Hwf Hv Hone) as (s & -> & Hs).
  rewrite (seq_get_spec cells i p s Hs Hv). cbn [mbind option_bind].
  destruct (seq_pos_max_ok cells s Hwf Hs) as (mx & -> & Hmx). cbn [mbind option_bind].
  pose proof (view_range cells i p _ Hwf Hv) as Hp.
  assert (holds_pos cells s p) as Hh by (exists i, {[s]}; split; [done|set_solver]).
  assert (0 <= mx < INT32_MAX)%Z as Hm.
  { destruct Hmx as [[-> Hno]|[(j & q & Hvj & _) Hle]]; [by apply Hno in Hh|].
    pose proof (Hroom j mx q Hvj). pose proof (view_range cells j mx q Hwf Hvj). lia. }
  rewrite i32_chk_Some by (unfold INT32_MIN; lia). cbn [mbind option_bind].
  rewrite masked_ok by (done || lia). eexists. split; [reflexivity|]. rewrite bool_decide_eq_true. split.
  - intros H. by exists s, mx.
  - intros (s' & mx' & Hq & Hmx' & H). assert (s' = s) as -> by set_solver. by rewrite (is_pos_max_unique cells s mx mx').
Qed.

(** The loops, over any total test [u]. *)
Section Loop.
Context (c : llama_kv_cache) (cells : llama_kv_cells) (u : nat -> bool).
#[local] Abbreviation sz := (size cells).
Context (Hu : forall i, i < sz -> can_use c cells i = Some (u i)) (Hsz : (3 * Z.of_nat sz < 4294967296)%Z).

(** The order in which single cells are tried from [h]. *)
Definition rotation (h : nat) : list nat := seq h (sz - h) ++ seq 0 h.

Lemma test_one head tested l : head < sz -> tested < sz ->
  test_run c cells false 1 (head, tested, l) = Some (S head, S tested, l ++ (if u head then [head] else [])).
Proof.
  intros Hh Ht. simpl. rewrite Hu by done. simpl. rewrite !u32_add_small by lia. rewrite !Nat.add_1_r.
  destruct (u head); [done|by rewrite app_nil_r].
Qed.

Lemma rotation_lookup h t : h <= sz -> t < sz ->
  rotation h !! t = Some (if decide (h + t < sz) then h + t else h + t - sz).
Proof.
  intros Hh Ht. unfold rotation. case_decide as Hd.
  - rewrite lookup_app_l by (rewrite length_seq; lia). rewrite lookup_seq_lt by lia. done.
  - rewrite lookup_app_r by (rewrite length_seq; lia). rewrite length_seq, lookup_seq_lt by lia. f_equal. lia.
Qed.

Lemma filter_take_S {A} (P : A -> Prop) `{!forall x, Decision (P x)} (l : list A) t x : l !! t = Some x ->
  filter P (take (S t) l) = filter P (take t l) ++ (if decide (P x) then [x] else []).
Proof. intros Hx. rewrite (take_S_r _ _ _ Hx), filter_app, filter_cons, filter_nil. done. Qed.

Lemma rotation_length h : h <= sz -> length (rotation h) = sz.
Proof. intros Hh. unfold rotation. rewrite length_app, !length_seq. lia. Qed.

(** One by one: the first [n] usable cells in that order. *)
Lemma slot_loop_single h n : 0 < n <= sz -> h <= sz -> forall fuel t,
  t < sz -> length (filter (fun i => u i = true) (take t (rotation h))) < n ->
  forall head, ((head = h + t /\ h + t <= sz) \/ (sz <= h + t /\ head = h + t - sz)) ->
  2 * (sz - t) + (if decide (head = sz) then 1 else 0) < fuel ->
  slot_loop fuel c cells false n (head, t, filter (fun i => u i = true) (take t (rotation h))) =
    Some (if decide (n <= length (filter (fun i => u i = true) (rotation h)))
          then Some (take n (filter (fun i => u i = true) (rotation h))) else None).
Proof.
  intros Hn Hh. set (P := fun i => u i = true). induction fuel as [|fuel IH]; intros t Ht Hlen head Hhead Hf; [lia|].
  cbn [slot_loop]. cbv iota zeta. rewrite u32_add_small by lia. case_bool_decide as Hwrap.
  - assert (head = sz) as -> by lia. rewrite decide_True in Hf by done.
    rewrite u32_sub_small, Nat.sub_diag, u32_add_small, Nat.add_0_r by lia.
    apply IH; [done|done|right; lia|]. rewrite decide_False by lia. lia.
  - assert (head < sz) as Hlt by lia.
    assert (rotation h !! t = Some head) as Hrot.
    { rewrite rotation_lookup by lia. f_equal. destruct (decide (h + t < sz)); lia. }
    rewrite test_one by lia. cbn [mbind option_bind].
    assert (filter P (take t (rotation h)) ++ (if u head then [head] else []) = filter P (take (S t) (rotation h))) as Hstep.
    { rewrite (filter_take_S P _ t head Hrot). f_equal. unfold P. by destruct (u head). }
    rewrite Hstep. case_bool_decide as Hdone.
    + pose proof (filter_app P (take (S t) (rotation h)) (drop (S t) (rotation h))) as Happ. rewrite take_drop in Happ.
      rewrite Happ, decide_True by (rewrite length_app; lia). f_equal. f_equal. by rewrite take_app_length'.
    + assert (length (filter P (take (S t) (rotation h))) <= S (length (filter P (take t (rotation h))))) as Hle.
      { rewrite <- Hstep, length_app. destruct (u head); simpl; lia. }
      case_bool_decide as Hend.
      * assert (S t = sz) as Hall by lia. rewrite Hall, take_ge in Hdone, Hle by (rewrite rotation_length; lia).
        rewrite decide_False by lia. done.
      * apply IH; [lia|lia|lia|]. destruct (decide (S head = sz)), (decide (head = sz)); lia.
Qed.

(** A window of [n] cells from [a] that are all usable. *)
Definition window (n a : nat) : Prop := a + n <= sz /\ forall i, a <= i < a + n -> u i = true.

Lemma test_run_cont : forall k head tested l, head + k <= sz -> tested + k <= 3 * sz ->
  ((forall i, head <= i < head + k -> u i = true) /\
     test_run c cells true k (head, tested, l) = Some (head + k, tested + k, l ++ seq head k)) \/
  exists j, j < k /\ u (head + j) = false /\
     test_run c cells true k (head, tested, l) = Some (head + S j, tested + S j, l ++ seq head j).
Proof.
  induction k as [|k IH]; intros head tested l Hh Ht; cbn [test_run].
  - left. split; [lia|]. by rewrite !Nat.add_0_r, app_nil_r.
  - rewrite Hu by lia. cbn [mbind option_bind]. rewrite !u32_add_small, !Nat.add_1_r by lia.
    destruct (u head) eqn:Eu.
    + destruct (IH (S head) (S tested) (l ++ [head])) as [[Hall ->]|(j & Hj & Hfail & ->)]; [lia|lia| |].
      * left. split.
        -- intros i Hi. destruct (decide (i = head)) as [->|]; [done|]. apply Hall. lia.
        -- rewrite <- app_assoc. simpl. do 3 f_equal; lia.
      * right. exists (S j). split_and!; [lia|by rewrite Nat.add_succ_r|]. rewrite <- app_assoc. simpl. do 3 f_equal; lia.
    + right. exists 0. rewrite Nat.add_0_r, app_nil_r. split_and!; [lia|done|]. do 3 f_equal; lia.
Qed.

(** Where the remaining windows can start: ahead of the first pass from [h], of
    the second pass from 0, or nowhere. *)
Definition ahead (n h head tested : nat) : Prop :=
  (tested + h = head /\ head <= sz /\ forall a, window n a -> head <= a \/ a < h) \/
  (tested + h = sz + head /\ head <= h /\ forall a, window n a -> head <= a < h) \/
  (sz <= tested <= 2 * sz /\ head = 0 /\ forall a, ~ window n a).

Definition passes (h head tested : nat) : nat :=
  if decide (tested + h = head) then sz - head + h + 4 else if decide (tested + h = sz + head) then h - head + 2 else 1.

Lemma window_past n a head j : window n a -> head <= a -> u (head + j) = false -> j < n -> head + S j <= a.
Proof.
  intros [_ Hw] Ha Hf Hj. destruct (decide (head + S j <= a)) as [|Hn]; [done|].
  rewrite (Hw (head + j)) in Hf by lia. done.
Qed.

(** A contiguous slot: a window if there is one. *)
Lemma slot_loop_cont n h : 0 < n <= sz -> h <= sz -> forall fuel head tested,
  ahead n h head tested -> passes h head tested <= fuel ->
  exists r, slot_loop fuel c cells true n (head, tested, []) = Some r /\
    match r with Some l => exists a, window n a /\ l = seq a n | None => forall a, ~ window n a end.
Proof.
  intros Hn Hh. induction fuel as [|fuel IH]; intros head tested Ha Hf.
  { unfold passes in Hf. repeat case_decide; lia. }
  cbn [slot_loop]. cbv iota zeta.
  assert (head <= sz /\ tested <= 2 * sz) as [Hhd Htd] by (destruct Ha as [?|[?|?]]; lia).
  rewrite (u32_add_small head n) by lia. case_bool_decide as Hwrap.
  - rewrite u32_sub_small, u32_add_small by lia. apply IH.
    + destruct Ha as [(H1 & H2 & Hw)|[(H1 & H2 & Hw)|(H1 & -> & Hw)]]; [| |lia].
      * right; left. split_and!; [lia|lia|]. intros a Hwa. destruct (Hw a Hwa); destruct Hwa; lia.
      * right; right. split_and!; [lia|lia|lia|]. intros a Hwa. pose proof (Hw a Hwa). destruct Hwa; lia.
    + unfold passes in *. destruct Ha as [(H1 & H2 & Hw)|[(H1 & H2 & Hw)|(H1 & -> & Hw)]]; repeat case_decide; lia.
  - destruct (test_run_cont n head tested []) as [[Hall ->]|(j & Hj & Hfail & ->)]; [lia|lia| |]; cbn [mbind option_bind app].
    + rewrite length_seq, bool_decide_true by done. eexists. split; [reflexivity|]. exists head. split; [|done]. split; [lia|done].
    + rewrite length_seq, bool_decide_false by lia.
      assert (forall a, window n a -> head <= a -> head + S j <= a) as Hpast by (intros a Hw Hle; by apply (window_past n a head j)).
      case_bool_decide as Hend.
      * eexists. split; [reflexivity|]. intros a Hwa.
        destruct Ha as [(H1 & H2 & Hw)|[(H1 & H2 & Hw)|(_ & _ & Hw)]]; [| |by apply (Hw a)].
        -- destruct (Hw a Hwa) as [Hle|Hlt]; [|lia]. pose proof (Hpast a Hwa Hle). destruct Hwa. lia.
        -- destruct (Hw a Hwa) as [Hle Hlt]. pose proof (Hpast a Hwa Hle). lia.
      * apply IH.
        -- destruct Ha as [(H1 & H2 & Hw)|[(H1 & H2 & Hw)|(H1 & _)]]; [left|right; left|lia]; (split_and!; [lia|lia|]).
           ++ intros a Hwa. destruct (Hw a Hwa) as [Hle|Hlt]; [left; by apply Hpast|by right].
           ++ intros a Hwa. destruct (Hw a Hwa) as [Hle Hlt]. split; [by apply Hpast|done].
        -- unfold passes in *. destruct Ha as [(H1 & H2 & Hw)|[(H1 & H2 & Hw)|(H1 & _)]]; repeat case_decide; lia.
Qed.
End Loop.

(** The cells a successful search returns. *)
Definition cells_found (c : llama_kv_cache) (cells : llama_kv_cells) (cont : bool) (n : nat) (l : list nat) : Prop :=
  length l = n /\ NoDup l /\ (forall i, i ∈ l -> i < size cells /\ usable c cells i) /\
  (cont = true -> exists a, l = seq a n).

(** What a failed search means: there is no such choice of cells. *)
Definition no_cells (c : llama_kv_cache) (cells : llama_kv_cells) (cont : bool) (n : nat) : Prop :=
  forall l, ~ cells_found c cells cont n l.

(** The conditions of the search on the cells of a stream. *)
Definition searchable (c : llama_kv_cache) (cells : llama_kv_cells) : Prop :=
  wf cells /\ pos_room cells /\ swa_size_ok (n_swa c) (swa_type c) /\ (3 * Z.of_nat (size cells) < 4294967296)%Z.

Lemma NoDup_rotation cells h : h <= size cells -> NoDup (rotation cells h).
Proof.
  intros Hh. unfold rotation. apply NoDup_app. split_and!; [apply NoDup_seq| |apply NoDup_seq].
  intros i [? ?]%elem_of_seq [? ?]%elem_of_seq. lia.
Qed.

Lemma elem_of_rotation cells h i : h <= size cells -> i ∈ rotation cells h <-> i < size cells.
Proof. intros Hh. unfold rotation. rewrite elem_of_app, !elem_of_seq. lia. Qed.

Lemma find_cells_ok c cells head cont n : searchable c cells -> head <= size cells -> 0 < n ->
  exists r, find_cells c cells head cont n = Some r /\
    match r with Some l => cells_found c cells cont n l | None => no_cells c cells cont n end.
Proof.
  intros (Hwf & Hroom & Hswa & Hsz) Hh Hn.
  set (u := fun i => default false (can_use c cells i)).
  assert (forall i, i < size cells -> can_use c cells i = Some (u i) /\ (u i = true <-> usable c cells i)) as Hu.
  { intros i Hi. destruct (can_use_ok c cells i) as (b & Hb & Hbu); [done..|]. unfold u. rewrite Hb. done. }
  assert (forall i, i < size cells -> can_use c cells i = Some (u i)) as Hu1 by (intros i Hi; by apply Hu).
  unfold find_cells. set (h := if bool_decide _ then 0 else head). assert (h <= size cells) as Hhs by (unfold h; case_bool_decide; lia).
  case_bool_decide as Hbig.
  { exists None. split; [done|]. intros l (Hl & Hnd & Hin & _).
    assert (l ⊆+ seq 0 (size cells)) as Hsub.
    { apply NoDup_submseteq; [done|]. intros i Hi. apply elem_of_seq. destruct (Hin i Hi). lia. }
    apply submseteq_length in Hsub. rewrite length_seq in Hsub. lia. }
  destruct cont.
  - destruct (slot_loop_cont c cells u Hu1 Hsz n h ltac:(lia) Hhs (2 * size cells + 3) h 0) as (r & Heq & Hr).
    + left. split_and!; [done|done|]. intros a _. lia.
    + unfold passes. rewrite decide_True by done. lia.
    + rewrite Heq. cbn [mbind option_bind]. destruct r as [l|]; [|exists None; split; [done|]].
      * destruct Hr as (a & [Ha Hw] & ->). rewrite length_seq, bool_decide_false by lia. eexists. split; [reflexivity|].
        split_and!; [apply length_seq|apply NoDup_seq| |by eexists]. intros i [? ?]%elem_of_seq.
        split; [lia|]. apply Hu; [lia|]. apply Hw. lia.
      * intros l (Hl & Hnd & Hin & Hcont). destruct (Hcont eq_refl) as [a ->]. apply (Hr a). split.
        -- destruct (Hin (a + n - 1)); [apply elem_of_seq; lia|lia].
        -- intros i Hi. assert (i ∈ seq a n) as Hi' by (apply elem_of_seq; lia). destruct (Hin i Hi'). by apply Hu.
  - set (f := filter (fun i => u i = true) (rotation cells h)).
    assert (forall i, i ∈ f <-> i < size cells /\ u i = true) as Hf.
    { intros i. unfold f. rewrite list_elem_of_filter, elem_of_rotation by done. tauto. }
    assert (NoDup f) as Hnf by (apply NoDup_filter, NoDup_rotation; done).
    rewrite (slot_loop_single c cells u Hu1 Hsz h n ltac:(lia) Hhs (2 * size cells + 3) 0); [|lia|simpl; lia|left; lia|case_decide; lia].
    fold f. cbn [mbind option_bind]. destruct (decide (n <= length f)) as [Hle|Hlt].
    + rewrite bool_decide_false by (rewrite length_take; lia). eexists. split; [reflexivity|].
      split_and!; [rewrite length_take; lia|rewrite <- (take_drop n f) in Hnf; by apply NoDup_app in Hnf as [? _]| |done].
      intros i Hi%subseteq_take. apply Hf in Hi as [? ?]. split; [done|]. by apply Hu.
    + exists None. split; [done|]. intros l (Hl & Hnd & Hin & _).
      assert (l ⊆+ f) as Hsub%submseteq_length; [|lia].
      apply NoDup_submseteq; [done|]. intros i Hi. apply Hf. destruct (Hin i Hi). split; [done|]. by apply Hu.
Qed.
End Search.


(** * Slots *)

(** The ubatch as the cache wants it: [k] sequences (one for a single stream) of
    [m] tokens, of streams of the cache; with several streams every row starts
    with a token of exactly its sequence. *)
Record fits (c : llama_kv_cache) (u : B.llama_ubatch) (k m : nat) : Prop := {
  ft_tokens : B.u_n_tokens u = k * m;
  ft_pos    : 0 < k /\ 0 < m;
  ft_one    : n_stream c = 1 -> k = 1;
  ft_many   : n_stream c <> 1 -> B.u_n_seqs_unq u = k /\
                forall s id, s < k -> B.u_seq_id_unq u !! s = Some id ->
                  B.u_n_seq_id u !! (s * m) = Some 1%Z /\ exists l, B.u_seq_id u !! (s * m) = Some (id :: l);
  ft_seq    : forall s, s < k -> exists id st, B.u_seq_id_unq u !! s = Some id /\ home c id = Some st;
  ft_nodup  : NoDup (take k (B.u_seq_id_unq u));
}.

(** The slot [si] for [k] rows of [m] tokens: distinct streams, in each of them
    [m] distinct usable cells. *)
Record slot_fits (n : nat) (c : llama_kv_cache) (si : slot_info) (k m : nat) : Prop := {
  sf_strm : length (strm si) = k;
  sf_idxs : length (idxs si) = k;
  sf_nd   : NoDup (strm si);
  sf_row  : forall s st row, strm si !! s = Some st -> idxs si !! s = Some row ->
              st < n_stream c /\ length row = m /\ NoDup row /\
              forall i, i ∈ row -> i < n /\ exists cells, v_cells c !! st = Some cells /\ usable c cells i;
}.

(** The part of it that does not depend on the content of the cells. *)
Record slot_shape (n ns : nat) (si : slot_info) (k m : nat) : Prop := {
  ss_strm : length (strm si) = k;
  ss_idxs : length (idxs si) = k;
  ss_nd   : NoDup (strm si);
  ss_row  : forall s st row, strm si !! s = Some st -> idxs si !! s = Some row ->
              st < ns /\ length row = m /\ NoDup row /\ forall i, i ∈ row -> i < n;
}.

Lemma fits_shape n c si k m : slot_fits n c si k m -> slot_shape n (n_stream c) si k m.
Proof.
  intros [H1 H2 H3 H4]. split; [done..|]. intros s st row Hs Hr. destruct (H4 s st row Hs Hr) as (? & ? & ? & Hin).
  split_and!; [done..|]. intros i Hi. by apply Hin.
Qed.

Definition search_ok (c : llama_kv_cache) : Prop := forall st cells, v_cells c !! st = Some cells -> searchable c cells.

Section FindSlot.
Context `{BM : BuildMode}.

Definition row_found (c : llama_kv_cache) (cont : bool) (m : nat) (st : nat) (row : list nat) : Prop :=
  exists cells, v_cells c !! st = Some cells /\ cells_found c cells cont m row.

Lemma find_streams_ok n c u cont k m : wf_kv n c -> fits c u k m -> search_ok c -> forall r s res,
  s + r = k -> length (strm res) = s -> length (idxs res) = s ->
  (exists sts rows s0 s1, find_streams c u cont m (seq s r) res = Some (inl (mkSlot s0 s1 (strm res ++ sts) (idxs res ++ rows))) /\
     Forall2 (row_found c cont m) sts rows /\ length sts = r /\
     (forall j st, sts !! j = Some st -> exists id, B.u_seq_id_unq u !! (s + j) = Some id /\ home c id = Some st) /\
     (0 < r \/ si_s0 res <= si_s1 res -> s0 <= s1)) \/
  (find_streams c u cont m (seq s r) res = Some (inr slot_none) /\
   exists j id st cells, s <= j < k /\ B.u_seq_id_unq u !! j = Some id /\ home c id = Some st /\ v_cells c !! st = Some cells /\
     no_cells c cells cont m).
Proof.
  intros Hwf Hft Hso. induction r as [|r IH]; intros s res Hk Hls Hli.
  - left. exists [], [], (si_s0 res), (si_s1 res). simpl. rewrite !app_nil_r. split_and!; [by destruct res|constructor|done|done|lia].
  - cbn [seq find_streams]. destruct (ft_seq _ _ _ _ Hft s) as (id & st & Hid & Hst); [lia|]. rewrite Hid. cbn [mbind option_bind].
    assert ((if bool_decide (1 < n_stream c) then
        n ← B.u_n_seq_id u !! (s * m); GGML_ASSERT bool_decide (n = 1)%Z;
        ids ← B.u_seq_id u !! (s * m); id0 ← ids !! 0; GGML_ASSERT bool_decide (id0 = id); Some tt else Some tt) = Some tt) as ->.
    { case_bool_decide as Hmany; [|done]. destruct (ft_many _ _ _ _ Hft) as [_ Hrow]; [lia|].
      destruct (Hrow s id) as [-> [l ->]]; [lia|done|]. simpl. rewrite !(ggml_assert_true _) by (by apply bool_decide_true). done. }
    cbn [mbind option_bind]. destruct (home_range Hwf id st Hst) as (Hr & Hlt & _). rewrite bool_decide_false by lia.
    pose proof Hst as Hst'. unfold home in Hst'. rewrite bool_decide_true in Hst' by lia. rewrite Hst'. cbn [mbind option_bind].
    destruct (stream_cells Hwf st Hlt) as (cells & h & Hc & Hh & Hw & Hn & Hle). rewrite Hc, Hh. cbn [mbind option_bind].
    destruct (find_cells_ok c cells h cont m) as (o & -> & Ho); [by apply (Hso st)|lia|apply Hft|]. cbn [mbind option_bind].
    destruct o as [row|].
    + destruct (IH (S s) (mkSlot (si_s0 res `min` st) (si_s1 res `max` st) (strm res ++ [st]) (idxs res ++ [row])))
        as [(sts & rows & s0 & s1 & Heq & HF & Hlen & Hids & Hs01)|(Heq & j & id' & st' & cells' & Hj & Hrest)];
        simpl; rewrite ?length_app; simpl; [lia|lia|lia| |].
      * left. exists (st :: sts), (row :: rows), s0, s1. simpl in Heq. rewrite <- !app_assoc in Heq. simpl in Heq.
        split_and!; [done|constructor; [by exists cells|done]|simpl; lia| |].
        -- intros [|j] st' Hj; simpl in Hj; [injection Hj as <-; rewrite Nat.add_0_r; by exists id|].
           rewrite Nat.add_succ_r. by apply Hids.
        -- intros _. apply Hs01. right. simpl. lia.
      * right. split; [done|]. exists j, id', st', cells'. split; [lia|done].
    + right. split; [done|]. exists s, id, st, cells. split_and!; [lia|lia|done..].
Qed.

(** The streams of distinct sequences are distinct, since there is only one row
    when there is only one stream. *)
Lemma streams_nodup n c u k m sts : wf_kv n c -> fits c u k m -> length sts = k ->
  (forall j st, sts !! j = Some st -> exists id, B.u_seq_id_unq u !! j = Some id /\ home c id = Some st) -> NoDup sts.
Proof.
  intros Hwf Hft Hl Hids. apply NoDup_alt. intros i j st Hi Hj.
  destruct (decide (n_stream c = 1)) as [H1|H1].
  - pose proof (ft_one _ _ _ _ Hft H1). apply lookup_lt_Some in Hi, Hj. lia.
  - pose proof (lookup_lt_Some _ _ _ Hi) as Hi'. pose proof (lookup_lt_Some _ _ _ Hj) as Hj'.
    destruct (Hids i st Hi) as (a & Ha & Hsa). destruct (Hids j st Hj) as (b & Hb & Hsb).
    assert (a = b) as -> by (by apply (home_inj Hwf a b st)).
    pose proof (ft_nodup _ _ _ _ Hft) as Hnd. rewrite NoDup_alt in Hnd. apply (Hnd i j b); rewrite lookup_take_lt by lia; done.
Qed.

Lemma find_slot_ok n c u cont k m : wf_kv n c -> fits c u k m -> search_ok c ->
  exists si, find_slot c u cont = Some si /\
    ((slot_empty si = true /\ si = slot_none /\ exists j id st cells, j < k /\ B.u_seq_id_unq u !! j = Some id /\ home c id = Some st /\
        v_cells c !! st = Some cells /\ no_cells c cells cont m) \/
     (slot_empty si = false /\ slot_fits n c si k m /\
      (forall j st, strm si !! j = Some st -> exists id, B.u_seq_id_unq u !! j = Some id /\ home c id = Some st) /\
      (cont = true -> forall j row, idxs si !! j = Some row -> exists a, row = seq a m))).
Proof.
  intros Hwf Hft Hso. unfold find_slot. destruct (ft_pos _ _ _ _ Hft) as [Hk Hm]. pose proof (ft_tokens _ _ _ _ Hft) as Htok.
  assert (n_stream c <> 0) as Hns.
  { destruct (ft_seq _ _ _ _ Hft 0 Hk) as (id & st & _ & Hst). destruct (home_range Hwf _ _ Hst) as (_ & ? & _). lia. }
  assert ((if bool_decide (1 < n_stream c) then
       if bool_decide (B.u_n_seqs_unq u = 0) then None else
       GGML_ASSERT bool_decide (B.u_n_tokens u `mod` B.u_n_seqs_unq u = 0);
       Some (B.u_n_seqs_unq u, B.u_n_tokens u / B.u_n_seqs_unq u)
     else Some (1, B.u_n_tokens u)) = Some (k, m)) as ->.
  { case_bool_decide as Hmany.
    - destruct (ft_many _ _ _ _ Hft) as [-> _]; [lia|]. rewrite bool_decide_false by lia.
      rewrite Htok, Nat.mul_comm. rewrite (ggml_assert_true _) by (apply bool_decide_true, Nat.Div0.mod_mul). simpl.
      by rewrite Nat.div_mul by lia.
    - assert (k = 1) as -> by (apply (ft_one _ _ _ _ Hft); lia). by rewrite Htok, Nat.mul_1_l. }
  cbn [mbind option_bind].
  destruct (find_streams_ok n c u cont k m Hwf Hft Hso k 0 (mkSlot (Z.to_nat LLAMA_MAX_SEQ) 0 [] []))
    as [(sts & rows & s0 & s1 & Heq & HF & Hlen & Hids & Hs01)|(Heq & j & id & st & cells & Hj & Hrest)]; [done..| |];
    rewrite Heq; cbn [mbind option_bind].
  - cbn [strm idxs app]. rewrite (c_assert_true _) by (apply bool_decide_true, Hs01; by left). cbn [mbind option_bind].
    eexists. split; [reflexivity|]. right. pose proof (Forall2_length _ _ _ HF) as Hlr. split_and!.
    + unfold slot_empty. simpl. apply bool_decide_eq_false. lia.
    + split; simpl; [done|lia|by apply (streams_nodup n c u k m)|].
      intros s st row Hst Hrow. destruct (Forall2_lookup_lr _ _ _ _ _ _ HF Hst Hrow) as (cells & Hc & Hl & Hnd & Hin & _).
      destruct (Hids s st Hst) as (id & _ & Hid). destruct (home_range Hwf _ _ Hid) as (_ & ? & _). split_and!; [done..|].
      intros i Hi. destruct (Hin i Hi) as [Hsz Hus]. destruct (kw_wf _ _ Hwf _ _ Hc). split; [lia|by exists cells].
    + done.
    + intros Hcont j row Hrow. simpl in Hrow. destruct (lookup_lt_is_Some_2 sts j) as [st Hst]; [apply lookup_lt_Some in Hrow; lia|].
      destruct (Forall2_lookup_lr _ _ _ _ _ _ HF Hst Hrow) as (cells & Hc & _ & _ & _ & Ha). by apply Ha.
  - eexists. split; [reflexivity|]. left. split_and!; [done|done|]. exists j, id, st, cells. split; [lia|done].
Qed.
End FindSlot.


(** * Placing a ubatch *)

(** No cell has a pending shift. *)
Definition unshifted (cells : llama_kv_cells) : Prop := forall i h, shift cells !! i = Some h -> h = 0%Z.

(** What token [t] of the ubatch writes into its cell. *)
Definition tok_cell (u : B.llama_ubatch) (t : nat) : cell :=
  p ← B.u_pos u !! t; ids ← B.u_seq_id u !! t; Some (p, list_to_set ids).

(** Token [t] is complete: a position with room, distinct sequences of stream
    [st], and the coordinates if positions are two-dimensional. *)
Definition tok_ok (c : llama_kv_cache) (u : B.llama_ubatch) (st t : nat) : Prop :=
  exists p ids, B.u_pos u !! t = Some p /\ (0 <= p < INT32_MAX)%Z /\ B.u_seq_id u !! t = Some ids /\
    B.u_n_seq_id u !! t = Some (Z.of_nat (length ids)) /\ ids <> [] /\ NoDup ids /\
    (forall id, id ∈ ids -> home c id = Some st) /\
    (B.is_pos_2d u = true -> t + B.u_n_tokens u * 2 < length (B.u_pos u)).

Section Shifts.
Context `{BM : BuildMode}.

Lemma unshifted_insert cells cells' i : unshifted cells -> shift cells' = shift cells \/ shift cells' = <[i:=0%Z]> (shift cells) ->
  unshifted cells'.
Proof.
  intros Hu [Hs|Hs] j h; rewrite Hs; [apply Hu|]. intros [[_ ->]|[_ H]]%list_lookup_insert_dec; [done|]. by apply (Hu j).
Qed.

Lemma shift_same_unshifted cells cells' : shift cells' = shift cells -> unshifted cells -> unshifted cells'.
Proof. intros Hs Hu. by apply (unshifted_insert cells cells' 0); [|left]. Qed.

Lemma seq_pos_dec_shift s p c c' : seq_pos_dec s p c = Some c' -> shift c' = shift c.
Proof. unfold seq_pos_dec. intros H. inv_opt H. by subst. Qed.

Lemma seq_pos_rm_shift i c c' : seq_pos_rm i c = Some c' -> shift c' = shift c.
Proof.
  unfold seq_pos_rm. intros H. inv_opt H. apply (foldM_preserves _ (fun t => shift t = shift c)) in H; [done| |done].
  intros s t t' _ Ht Hf. inv_opt Hf. destruct (_ : bool); [|by injection Hf as <-].
  rewrite <- Ht. by apply (seq_pos_dec_shift s z).
Qed.

Lemma set_fields_shift c c' :
  (exists i p, set_pos i p c = Some c') \/ (exists i q, set_seqs i q c = Some c') \/ (exists i e, set_ext i e c = Some c') ->
  shift c' = shift c.
Proof. intros [(i & x & H)|[(i & x & H)|(i & x & H)]]; unfold set_pos, set_seqs, set_ext in H; inv_opt H; by subst. Qed.

Lemma set_shift_inv i h c c' : set_shift i h c = Some c' -> shift c' = <[i:=h]> (shift c).
Proof. unfold set_shift, set_at. intros H. case_bool_decide; [|done]. simpl in H. by injection H as <-. Qed.

Lemma rm_unshifted i c c' : rm i c = Some c' -> unshifted c -> unshifted c'.
Proof.
  unfold rm. intros H. inv_opt H. intros Hu. apply (unshifted_insert c c' i Hu). right. subst c'.
  apply set_shift_inv in E6. simpl. rewrite E6. f_equal.
  rewrite (set_fields_shift _ _ (or_intror (or_intror (ex_intro _ i (ex_intro _ ext0 E5))))).
  rewrite (set_fields_shift _ _ (or_introl (ex_intro _ i (ex_intro _ (-1)%Z E4)))).
  rewrite (set_fields_shift _ _ (or_intror (or_introl (ex_intro _ i (ex_intro _ ∅ E3))))).
  by rewrite (seq_pos_rm_shift _ _ _ E2).
Qed.

Lemma seq_rm_unshifted i s c c' b : Cells.seq_rm i s c = Some (c', b) -> unshifted c -> unshifted c'.
Proof.
  unfold Cells.seq_rm. intros H. inv_opt H. intros Hu.
  assert (shift l0 = shift c) as Hl.
  { rewrite (seq_pos_dec_shift _ _ _ _ E8). by apply set_fields_shift; right; left; eauto. }
  case_bool_decide.
  - inv_opt H. apply set_shift_inv in E11. apply (unshifted_insert c c' i Hu). right. subst c'. simpl. rewrite E11. f_equal.
    rewrite (set_fields_shift _ _ (or_intror (or_intror (ex_intro _ i (ex_intro _ ext0 E10))))).
    by rewrite (set_fields_shift _ _ (or_introl (ex_intro _ i (ex_intro _ (-1)%Z E9)))).
  - injection H as <- _. by apply (shift_same_unshifted c).
Qed.

Lemma ext_set_shift i e c c' : ext_set i e c = Some c' -> shift c' = shift c.
Proof. unfold ext_set. intros H. inv_opt H. by apply set_fields_shift; right; right; eauto. Qed.
End Shifts.


(** [mx'] is [mx] after evicting the content [o] of a cell. *)
Definition evicted (o : cell) (mx mx' : list Z) : Prop :=
  match o with
  | None => mx' = mx
  | Some (p, q) => exists s m, q = {[s]} /\ (0 <= s < LLAMA_MAX_SEQ)%Z /\ mx !! Z.to_nat s = Some m /\ mx' = <[Z.to_nat s := Z.max m p]> mx
  end.

(** A cell the search may return: empty or of a single sequence. *)
Definition single (o : cell) : Prop := match o with None => True | Some (_, q) => exists s, q = {[s]} end.

Section Place.
Context `{BM : BuildMode}.

Lemma place_ids_ok ids : forall idx cells p q, wf cells -> view cells idx = Some (p, q) -> NoDup ids ->
  (forall s, s ∈ ids -> s ∉ q /\ (0 <= s < LLAMA_MAX_SEQ)%Z) ->
  exists cells', foldM (fun s cells => Cells.seq_add idx s cells) ids cells = Some cells' /\
    updated cells idx (Some (p, list_to_set ids ∪ q)) cells' /\ shift cells' = shift cells.
Proof.
  induction ids as [|s ids IH]; intros idx cells p q Hwf Hv Hnd Hin; cbn [foldM].
  - exists cells. assert (list_to_set [] ∪ q = q) as -> by set_solver. rewrite <- Hv. split_and!; [done|by apply updated_same|done].
  - apply NoDup_cons in Hnd as [Hs Hnd]. destruct (Hin s) as [Hq Hr]; [by left|].
    destruct (seq_add_spec cells idx s p q Hwf Hv Hq Hr) as (c1 & Hc1 & U1). rewrite Hc1. cbn [mbind option_bind].
    pose proof (upd_view _ _ _ _ U1 idx) as Hv1. rewrite decide_True in Hv1 by done.
    destruct (IH idx c1 p ({[s]} ∪ q) (upd_wf _ _ _ _ U1) Hv1 Hnd) as (c2 & -> & U2 & Hsh).
    { intros s' Hs'. destruct (Hin s') as [? ?]; [by right|]. split; [|done]. set_solver. }
    exists c2. split_and!; [done| |by rewrite Hsh, (seq_add_shift _ _ _ _ Hc1)].
    replace (list_to_set (s :: ids) ∪ q) with (list_to_set ids ∪ ({[s]} ∪ q)) by set_solver. by eapply updated_trans.
Qed.

Lemma place_token_ok n c u st t idx cells mx : wf_kv n c -> tok_ok c u st t -> wf cells -> idx < size cells ->
  single (view cells idx) -> length mx = Z.to_nat LLAMA_MAX_SEQ ->
  exists cells' mx', place_token u t idx (cells, mx) = Some (cells', mx') /\ updated cells idx (tok_cell u t) cells' /\
    evicted (view cells idx) mx mx' /\ (unshifted cells -> unshifted cells').
Proof.
  intros Hkv (p & ids & Hp & Hpr & Hids & Hn & Hne & Hnd & Hhome & H2d) Hwf Hi Hsing Hlen.
  unfold place_token. rewrite is_empty_spec by done. cbn [mbind option_bind].
  assert (exists c1 mx', (if negb (bool_decide (view cells idx = None)) then
      n ← seq_count idx cells; ASSERT bool_decide (n = 1); seq_id ← seq_get idx cells; pos ← pos_get idx cells;
      if bool_decide (seq_id < 0)%Z then None else m ← mx !! Z.to_nat seq_id; mx ← set_at (Z.to_nat seq_id) (Z.max m pos) mx; cells ← rm idx cells; Some (cells, mx)
    else Some (cells, mx)) = Some (c1, mx') /\ updated cells idx None c1 /\ evicted (view cells idx) mx mx' /\
    (unshifted cells -> unshifted c1)) as (c1 & mx' & -> & U1 & Hev & Hs1).
  { destruct (view cells idx) as [[p0 q]|] eqn:Hv.
    - destruct Hsing as [s ->]. rewrite bool_decide_false by done. cbn [negb]. rewrite (seq_count_spec cells idx p0 {[s]} Hv). cbn [mbind option_bind].
      rewrite (c_assert_true _) by (apply bool_decide_true, size_singleton). cbn [mbind option_bind].
      assert (0 <= s < LLAMA_MAX_SEQ)%Z as Hs by (apply (view_bits cells idx p0 {[s]} Hwf Hv); set_solver).
      rewrite (seq_get_spec cells idx p0 s Hs Hv), (pos_get_spec cells idx p0 {[s]} Hv). cbn [mbind option_bind].
      rewrite (bool_decide_false (s < 0)%Z) by lia.
      destruct (lookup_lt_is_Some_2 mx (Z.to_nat s)) as [m Hm]; [lia|]. rewrite Hm. cbn [mbind option_bind].
      rewrite set_at_ok by lia. cbn [mbind option_bind].
      destruct (rm_spec cells idx p0 {[s]} Hwf Hv) as (c1 & Hc1 & U1). rewrite Hc1. cbn [mbind option_bind].
      eexists _, _. split_and!; [done|done|by exists s, m|intros Hu; by apply (rm_unshifted _ _ _ Hc1)].
    - rewrite bool_decide_true by done. cbn [negb]. exists cells, mx. split_and!; [done| |done|done]. rewrite <- Hv. by apply updated_same. }
  cbn [mbind option_bind]. rewrite Hp. cbn [mbind option_bind].
  pose proof (upd_view _ _ _ _ U1 idx) as Hv1. rewrite decide_True in Hv1 by done. pose proof (upd_wf _ _ _ _ U1) as W1.
  pose proof (upd_size _ _ _ _ U1) as Z1.
  destruct (pos_set_spec c1 idx p W1) as (c2 & Hc2 & U2); [lia|done|lia|]. rewrite Hc2. cbn [mbind option_bind].
  pose proof (upd_view _ _ _ _ U2 idx) as Hv2. rewrite decide_True in Hv2 by done.
  assert (exists c3, (if B.is_pos_2d u then
             x ← B.u_pos u !! (t + B.u_n_tokens u * 2); y ← B.u_pos u !! (t + B.u_n_tokens u); ext_set idx (Ext x y) c2
           else Some c2) = Some c3 /\ updated c2 idx (Some (p, ∅)) c3 /\ shift c3 = shift c2) as (c3 & -> & U3 & Hs3).
  { destruct (B.is_pos_2d u).
    - specialize (H2d eq_refl). destruct (lookup_lt_is_Some_2 (B.u_pos u) (t + B.u_n_tokens u * 2) H2d) as [x ->].
      destruct (lookup_lt_is_Some_2 (B.u_pos u) (t + B.u_n_tokens u)) as [y ->]; [lia|]. cbn [mbind option_bind].
      destruct (ext_set_spec c2 idx (Ext x y)) as (c3 & Hc3 & U3); [apply U2|rewrite (upd_size _ _ _ _ U2); lia|].
      exists c3. split_and!; [done|by rewrite <- Hv2|by apply (ext_set_shift _ _ _ _ Hc3)].
    - exists c2. split_and!; [done| |done]. rewrite <- Hv2. apply updated_same, U2. }
  cbn [mbind option_bind]. rewrite Hn, Hids. cbn [mbind option_bind]. rewrite bool_decide_false by lia.
  rewrite Nat2Z.id, firstn_all.
  pose proof (upd_view _ _ _ _ U3 idx) as Hv3. rewrite decide_True in Hv3 by done.
  destruct (place_ids_ok ids idx c3 p ∅ (upd_wf _ _ _ _ U3) Hv3 Hnd) as (c4 & -> & U4 & Hs4).
  { intros s Hs. split; [set_solver|]. by apply (home_range Hkv s st), Hhome. }
  cbn [mbind option_bind]. exists c4, mx'. split_and!; [done| |done|].
  - unfold tok_cell. rewrite Hp. cbn [mbind option_bind]. rewrite Hids. cbn [mbind option_bind]. rewrite union_empty_r_L in U4.
    exact (updated_trans _ _ _ _ _ _ (updated_trans _ _ _ _ _ _ (updated_trans _ _ _ _ _ _ U1 U2) U3) U4).
  - intros Hu. apply (shift_same_unshifted c1); [|by apply Hs1]. by rewrite Hs4, Hs3, (pos_set_shift _ _ _ _ Hc2).
Qed.
End Place.


(** ** All tokens of a ubatch *)

(** Row [s], entry [j] of the slot is cell [i] of stream [st]. *)
Definition slot_at (si : slot_info) (s j st i : nat) : Prop :=
  strm si !! s = Some st /\ exists row, idxs si !! s = Some row /\ row !! j = Some i.

(** Every token of the ubatch is complete for its row. *)
Definition toks_ok (c : llama_kv_cache) (u : B.llama_ubatch) (si : slot_info) (k m : nat) : Prop :=
  B.u_n_tokens u = k * m /\
  forall s j st, s < k -> j < m -> strm si !! s = Some st -> tok_ok c u st (s * m + j).

Definition kv_unshifted (c : llama_kv_cache) : Prop := forall st cells, v_cells c !! st = Some cells -> unshifted cells.

(** [x] is the last position of sequence [s] among the cells of [c] at the
    coordinates [l] of the slot, -1 if there is none. *)
Definition evict_max (c : llama_kv_cache) (si : slot_info) (l : list (nat * nat)) (s x : Z) : Prop :=
  (forall r j st i p, (r, j) ∈ l -> slot_at si r j st i -> kv_view c st i = Some (p, {[s]}) -> (p <= x)%Z) /\
  (x = (-1)%Z \/ exists r j st i, (r, j) ∈ l /\ slot_at si r j st i /\ kv_view c st i = Some (x, {[s]})).

Section PlaceAll.
Context `{BM : BuildMode}.

Lemma slot_at_inj n c si k m s j s' j' st i : slot_fits n c si k m -> slot_at si s j st i -> slot_at si s' j' st i -> s = s' /\ j = j'.
Proof.
  intros Hsf (Hs & row & Hrow & Hj) (Hs' & row' & Hrow' & Hj').
  pose proof (sf_nd _ _ _ _ _ Hsf) as Hnd. rewrite NoDup_alt in Hnd. pose proof (Hnd s s' st Hs Hs') as <-.
  split; [done|]. simplify_eq. destruct (sf_row _ _ _ _ _ Hsf s st row Hs Hrow) as (_ & _ & Hr & _).
  rewrite NoDup_alt in Hr. by apply (Hr j j' i).
Qed.

Lemma slot_single n c si k m s j st i : wf_kv n c -> slot_fits n c si k m -> slot_at si s j st i -> st < n_stream c /\ i < n /\ single (kv_view c st i).
Proof.
  intros Hwf Hsf (Hs & row & Hrow & Hj). destruct (sf_row _ _ _ _ _ Hsf s st row Hs Hrow) as (Hst & _ & _ & Hin).
  destruct (Hin i) as (Hi & cells & Hc & Hu); [by eapply list_elem_of_lookup_2|]. split_and!; [done..|].
  rewrite (view_kv st cells) by done. unfold usable in Hu. destruct (view cells i) as [[p q]|]; [|done].
  destruct Hu as (s' & _ & -> & _). by exists s'.
Qed.

Definition place_inv (n : nat) (c : llama_kv_cache) (u : B.llama_ubatch) (si : slot_info) (m : nat) (pre : list (nat * nat))
    (st : llama_kv_cache * list Z) : Prop :=
  let '(c1, mx) := st in
  wf_kv n c1 /\ same_config c c1 /\ v_heads c1 = v_heads c /\ (kv_unshifted c -> kv_unshifted c1) /\
  (forall s j st i, (s, j) ∈ pre -> slot_at si s j st i -> kv_view c1 st i = tok_cell u (s * m + j)) /\
  (forall st i, (forall s j, (s, j) ∈ pre -> ~ slot_at si s j st i) -> kv_view c1 st i = kv_view c st i) /\
  length mx = Z.to_nat LLAMA_MAX_SEQ /\
  (forall s x, mx !! s = Some x -> evict_max c si pre (Z.of_nat s) x).

Lemma evict_step c si pre a o mx mx' st i : slot_at si a.1 a.2 st i -> kv_view c st i = o ->
  (forall s j st' i', slot_at si s j st' i' -> (s, j) = a -> st' = st /\ i' = i) ->
  evicted o mx mx' -> length mx = Z.to_nat LLAMA_MAX_SEQ -> (forall s x, mx !! s = Some x -> evict_max c si pre (Z.of_nat s) x) ->
  length mx' = Z.to_nat LLAMA_MAX_SEQ /\ forall s x, mx' !! s = Some x -> evict_max c si (pre ++ [a]) (Z.of_nat s) x.
Proof.
  intros Hat Ho Huniq Hev Hlen Hmx.
  assert (forall s x, evict_max c si pre (Z.of_nat s) x -> (forall p, o = Some (p, {[Z.of_nat s]}) -> (p <= x)%Z) ->
    evict_max c si (pre ++ [a]) (Z.of_nat s) x) as Hext.
  { intros s x [Hle Hex] Hp. split.
    - intros r j st' i' p [Hin|Hin%list_elem_of_singleton]%elem_of_app Hs Hv; [by apply (Hle r j st' i')|].
      destruct (Huniq r j st' i' Hs Hin) as [-> ->]. apply Hp. congruence.
    - destruct Hex as [?|(r & j & st' & i' & Hin & ?)]; [by left|]. right. exists r, j, st', i'. split; [|done].
      apply elem_of_app. by left. }
  destruct o as [[p q]|]; simpl in Hev.
  - destruct Hev as (s0 & m & -> & Hs0 & Hm & ->). split; [by rewrite length_insert|].
    intros s x [[<- ->]|[Hne Hx]]%list_lookup_insert_dec.
    + destruct (Hmx _ _ Hm) as [Hle Hex]. split.
      * intros r j st' i' p' [Hin|Hin%list_elem_of_singleton]%elem_of_app Hs Hv.
        -- pose proof (Hle r j st' i' p' Hin Hs Hv). lia.
        -- destruct (Huniq r j st' i' Hs Hin) as [-> ->]. rewrite Ho in Hv. injection Hv as ->. lia.
      * destruct (Z.max_spec m p) as [[_ ->]|[_ ->]].
        -- right. exists a.1, a.2, st, i. split_and!; [apply elem_of_app; right; destruct a; by left|done|]. rewrite Ho.
           by rewrite Z2Nat.id by lia.
        -- destruct Hex as [?|(r & j & st' & i' & Hin & ?)]; [by left|]. right. exists r, j, st', i'. split; [|done].
           apply elem_of_app. by left.
    + apply Hext; [by apply Hmx|]. intros p' Heq. apply (inj Some), pair_equal_spec in Heq as [_ Hq].
      assert (s0 ∈ ({[Z.of_nat s]} : gset Z)) as ->%elem_of_singleton by (rewrite <- Hq; by apply elem_of_singleton).
      by rewrite Nat2Z.id in Hne.
  - subst mx'. split; [done|]. intros s x Hx. apply Hext; [by apply Hmx|done].
Qed.

Lemma place_all_ok n c u si k m : wf_kv n c -> slot_fits n c si k m -> toks_ok c u si k m ->
  exists c1 mx, foldM (place_stream si u m) (seq 0 k) (c, B.seq_idx0) = Some (c1, mx) /\ place_inv n c u si m (coords k m) (c1, mx).
Proof.
  intros Hwf Hsf [Htok Hto]. unfold place_stream. rewrite foldM_nested.
  destruct (foldM_prefix (fun e '(c, mx) =>
    str ← strm si !! fst e; cells ← v_cells c !! str; row ← idxs si !! fst e; idx ← row !! snd e;
    '(cells, mx) ← place_token u (fst e * m + snd e) idx (cells, mx); c ← set_cells str cells c; Some (c, mx))
    (place_inv n c u si m) (coords k m) (c, B.seq_idx0)) as ([c1 mx] & Hrun & Hinv); [| |by exists c1, mx].
  - split_and!; [done|apply same_config_refl|done|done| |done|apply B.length_seq_idx0|].
    + intros s j st i Hin. by apply not_elem_of_nil in Hin.
    + intros s x [-> _]%lookup_replicate. split; [|by left]. intros r j st i p Hin. by apply not_elem_of_nil in Hin.
  - intros pre [s j] [c1 mx] Hpre (W1 & C1 & H1 & S1 & A1 & B1 & L1 & M1). cbn [fst snd].
    assert ((s, j) ∈ coords k m) as Hin.
    { destruct Hpre as [l ->]. rewrite !elem_of_app. left. right. by left. }
    apply elem_of_coords in Hin as [Hs Hj].
    assert ((s, j) ∉ pre) as Hnew.
    { pose proof (NoDup_coords k m) as Hnd. destruct Hpre as [l Hl]. rewrite Hl in Hnd. apply NoDup_app in Hnd as [Hnd _].
      apply NoDup_app in Hnd as (_ & Hd & _). intros Hp. apply (Hd _ Hp). by left. }
    destruct (lookup_lt_is_Some_2 (strm si) s) as [st Hst]; [by rewrite (sf_strm _ _ _ _ _ Hsf)|].
    destruct (lookup_lt_is_Some_2 (idxs si) s) as [row Hrow]; [by rewrite (sf_idxs _ _ _ _ _ Hsf)|].
    destruct (sf_row _ _ _ _ _ Hsf s st row Hst Hrow) as (Hlt & Hlr & _ & _).
    destruct (lookup_lt_is_Some_2 row j) as [i Hi]; [lia|].
    assert (slot_at si s j st i) as Hat by (split; [done|by exists row]).
    destruct (slot_single n c si k m s j st i Hwf Hsf Hat) as (_ & Hin & Hsing).
    assert (n_stream c1 = n_stream c) as Hns by (by destruct C1 as (? & ? & ? & ->)).
    destruct (stream_cells W1 st) as (cells & h & Hc & _ & Hwc & Hsz & _); [by rewrite Hns|].
    assert (view cells i = kv_view c st i) as Hview.
    { rewrite <- (view_kv st cells) by done. apply B1. intros s' j' Hp Hat'.
      destruct (slot_at_inj n c si k m s j s' j' st i Hsf Hat Hat') as [<- <-]. done. }
    rewrite Hst. cbn [mbind option_bind]. rewrite Hc. cbn [mbind option_bind]. rewrite Hrow. cbn [mbind option_bind]. rewrite Hi. cbn [mbind option_bind].
    destruct (place_token_ok n c u st (s * m + j) i cells mx Hwf) as (cells' & mx' & -> & U & Hev & Hun);
      [by apply Hto|done|lia|by rewrite Hview|done|]. cbn [mbind option_bind]. rewrite Hview in Hev.
    destruct (Hto s j st Hs Hj Hst) as (p & ids & Hp & Hpr & Hids & _ & Hne & _ & Hhome & _).
    assert (tok_cell u (s * m + j) = Some (p, list_to_set ids)) as Htc.
    { unfold tok_cell. rewrite Hp. cbn [mbind option_bind]. by rewrite Hids. }
    destruct (put_cells W1 st cells') as (c2 & Hset & W2 & C2 & H2 & V2 & Hv2); [by rewrite Hns|apply U|rewrite (upd_size _ _ _ _ U); done| |].
    { intros i'. rewrite (owned_config c c1) by done. rewrite (upd_view _ _ _ _ U). case_decide.
      - rewrite Htc. intros p' q' [= <- <-]. split; [destruct ids; [done|set_solver]|]. intros s' Hs'. apply Hhome. by apply elem_of_list_to_set in Hs'.
      - rewrite <- (view_kv st cells), <- (owned_config c c1) by done. apply W1. }
    rewrite Hset. cbn [mbind option_bind]. exists (c2, mx'). split; [done|].
    assert (forall st' i', kv_view c2 st' i' = if decide (st' = st /\ i' = i) then tok_cell u (s * m + j) else kv_view c1 st' i') as Hv.
    { intros st' i'. rewrite Hv2. destruct (decide (st' = st)) as [->|Hd].
      - rewrite (upd_view _ _ _ _ U). destruct (decide (i' = i)) as [->|Hd]; [by rewrite decide_True|].
        rewrite decide_False by tauto. by rewrite (view_kv st cells).
      - by rewrite decide_False by tauto. }
    destruct (evict_step c si pre (s, j) (kv_view c st i) mx mx' st i) as [L2 M2]; try done.
    { intros s' j' st' i' (Hs' & row' & Hrow' & Hi') [= -> ->]. simplify_eq. done. }
    split_and!; [done|by eapply same_config_trans|by rewrite H2| | | |done|done].
    + intros Hu st' x Hx. rewrite V2 in Hx. apply list_lookup_insert_dec in Hx as [[<- ->]|[_ Hx]]; [|by apply (S1 Hu st')].
      apply Hun. by apply (S1 Hu st).
    + intros s' j' st' i' [Hp'|Hp'%list_elem_of_singleton]%elem_of_app Hat'; rewrite Hv.
      * rewrite decide_False; [by apply A1|]. intros [-> ->].
        destruct (slot_at_inj n c si k m s j s' j' st i Hsf Hat Hat') as [<- <-]. done.
      * injection Hp' as -> ->. destruct Hat as (? & row1 & ? & ?), Hat' as (? & row2 & ? & ?). simplify_eq. by rewrite decide_True.
    + intros st' i' Hno. rewrite Hv, decide_False; [|intros [-> ->]; apply (Hno s j); [apply elem_of_app; right; by left|done]].
      apply B1. intros s' j' Hp'. apply Hno, elem_of_app. by left.
Qed.
End PlaceAll.


(** ** Purging and moving the heads *)

(** What the slot makes of cell [i] of stream [st] before the purge. *)
Definition placed (c : llama_kv_cache) (u : B.llama_ubatch) (si : slot_info) (m st i : nat) (o : cell) : Prop :=
  (exists s j, slot_at si s j st i /\ o = tok_cell u (s * m + j)) \/
  ((forall s j, ~ slot_at si s j st i) /\ o = kv_view c st i).

(** [mx t] is the last evicted position of sequence [t]. *)
Definition evicts (c : llama_kv_cache) (si : slot_info) (k m : nat) (mx : Z -> Z) : Prop :=
  forall t, (0 <= t < LLAMA_MAX_SEQ)%Z -> evict_max c si (coords k m) t (mx t).

Section Apply.
Context `{BM : BuildMode}.

Lemma sweep_shift f n c s c' :
  (forall i x nh x' nh', f n i (x, nh) = Some (x', nh') -> unshifted x -> unshifted x') -> wf_kv n c ->
  sweep_rm f s c = Some c' -> kv_unshifted c -> kv_unshifted c'.
Proof.
  intros Hf Hwf Hs Hu. unfold sweep_rm in Hs. destruct (v_cells c !! s) as [cells|] eqn:Hc; [|done]. cbn [mbind option_bind] in Hs.
  destruct (kw_wf _ _ Hwf _ _ Hc) as [_ Hsz]. rewrite Hsz in Hs.
  destruct (v_heads c !! s) as [h|]; [|done]. cbn [mbind option_bind] in Hs.
  destruct (foldM _ _ _) as [[x nh]|] eqn:Hrun; [|done]. cbn [mbind option_bind] in Hs.
  apply (foldM_preserves _ (fun st => unshifted st.1)) in Hrun; [|intros i [y yh] [z zh] _ Hy Hz; by apply (Hf i y yh z zh)|by apply (Hu s)].
  unfold set_cells in Hs. destruct (set_at s x (v_cells c)) as [l|] eqn:Hl; [|done]. cbn [mbind option_bind] in Hs.
  unfold set_head in Hs. inv_opt Hs. subst c'. unfold set_at in Hl. case_bool_decide; [|done]. injection Hl as <-.
  intros st y Hy. simpl in Hy. apply list_lookup_insert_dec in Hy as [[_ ->]|[_ Hy]]; [done|by apply (Hu st)].
Qed.

Lemma seq_rm_kv_unshifted n c s p0 p1 c' b st : wf_kv n c -> home c s = Some st -> seq_rm s p0 p1 c = Some (c', b) ->
  kv_unshifted c -> kv_unshifted c'.
Proof.
  intros Hwf Hst Hrm Hu. destruct (home_range Hwf s st Hst) as (Hs & _ & Hl). unfold seq_rm in Hrm.
  rewrite (ggml_assert_true _) in Hrm by (apply bool_decide_true; lia). cbn [mbind option_bind] in Hrm. rewrite bool_decide_true in Hrm by lia.
  destruct (_ !! Z.to_nat s) as [st'|]; [|done]. cbn [mbind option_bind] in Hrm.
  destruct (sweep_rm _ st' c) as [c1|] eqn:Hsw; [|done]. injection Hrm as <- _.
  apply (sweep_shift _ n c st' c1) in Hsw; try done. intros i x nh x' nh' Hf Hx. unfold seq_rm_cell in Hf.
  destruct (pos_in _ _ _ _) as [[]|]; [| |done]; cbn [mbind option_bind negb] in Hf; [|by injection Hf as <- _].
  destruct (seq_has _ _ _) as [[]|]; [| |done]; cbn [mbind option_bind negb] in Hf; [|by injection Hf as <- _].
  destruct (Cells.seq_rm i s x) as [[y b']|] eqn:Hy; [|done]. injection Hf as <- _. by apply (seq_rm_unshifted _ _ _ _ _ Hy).
Qed.

Lemma kv_view_pos n c st i p q : wf_kv n c -> kv_view c st i = Some (p, q) -> (0 <= p <= INT32_MAX)%Z.
Proof.
  intros Hwf Hv. unfold kv_view in Hv. destruct (v_cells c !! st) as [cells|] eqn:Hc; [|done].
  destruct (kw_wf _ _ Hwf _ _ Hc) as [Hw _]. by apply (view_range cells i p q).
Qed.

Lemma purge_seq_ok n c mx s m : wf_kv n c -> mx !! s = Some m -> (-1 <= m < INT32_MAX)%Z ->
  (m <> (-1)%Z -> is_Some (home c (Z.of_nat s))) ->
  exists c', purge_seq mx s c = Some c' /\ wf_kv n c' /\ same_config c c' /\ (kv_unshifted c -> kv_unshifted c') /\
    (m = (-1)%Z -> c' = c) /\
    forall st i t p, has (kv_view c' st i) t p <-> has (kv_view c st i) t p /\ ~ (t = Z.of_nat s /\ (p <= m)%Z).
Proof.
  intros Hwf Hm Hr Hh. unfold purge_seq. rewrite Hm. cbn [mbind option_bind]. case_bool_decide as Hneg.
  { exists c. split_and!; [done|done|apply same_config_refl|done|done|]. intros st i t p. split; [|tauto].
    intros (q & Hv & Hq). split; [by exists q|]. pose proof (kv_view_pos n c st i p q Hwf Hv). lia. }
  destruct (Hh Hneg) as [str Hst]. destruct (home_range Hwf _ _ Hst) as (Hs & Hlt & Hl).
  rewrite (ggml_assert_true _) by (apply bool_decide_true; lia). cbn [mbind option_bind].
  pose proof Hst as Hst'. unfold home in Hst'. rewrite bool_decide_true, Nat2Z.id in Hst' by lia. rewrite Hst'. cbn [mbind option_bind].
  destruct (stream_cells Hwf str Hlt) as (cells & _ & Hc & _ & Hw & Hsz & _). rewrite Hc. cbn [mbind option_bind].
  destruct (seq_pos_min_ok cells (Z.of_nat s) Hw Hs) as (lo & -> & Hlo). cbn [mbind option_bind].
  assert (forall i p, has (kv_view c str i) (Z.of_nat s) p -> (lo <= p)%Z /\ (0 <= lo)%Z) as Hmin.
  { intros i p (q & Hv & Hq). rewrite (view_kv str cells) in Hv by done.
    assert (holds_pos cells (Z.of_nat s) p) as Hp by (by exists i, q).
    destruct Hlo as [[-> Hno]|[(i' & q' & Hv' & _) Hle]]; [by apply Hno in Hp|]. split; [by apply Hle|].
    apply (view_range cells i' lo q') in Hv'; [lia|done]. }
  assert (forall st i p, has (kv_view c st i) (Z.of_nat s) p -> st = str) as Hown.
  { intros st i p (q & Hv & Hq). destruct (kw_own _ _ Hwf st i p q Hv) as [_ Hin]. specialize (Hin _ Hq). congruence. }
  case_bool_decide as Hle.
  - rewrite i32_chk_Some by (unfold INT32_MIN; lia). cbn [mbind option_bind].
    destruct (kv_seq_rm_ok n c (Z.of_nat s) lo (m + 1) str Hwf Hst) as (c' & Hrm & W & C & V). rewrite Hrm. cbn [mbind option_bind].
    exists c'. split_and!; [done..| |done|]; [intros Hu; by apply (seq_rm_kv_unshifted n c (Z.of_nat s) lo (m + 1) c' true str)|].
    intros st i t p. rewrite V. destruct (decide (st = str)) as [->|Hne].
    + rewrite has_rm. split; intros [Hhas Hn]; (split; [done|]); intros [-> Hp]; apply Hn; (split; [done|]).
      * destruct (Hmin i p Hhas). unfold in_range, from_p0, to_p1. rewrite !bool_decide_false by lia. lia.
      * unfold in_range, to_p1 in Hp. rewrite bool_decide_false in Hp by lia. lia.
    + split; [|tauto]. intros Hhas. split; [done|]. intros [-> _]. by apply Hown in Hhas.
  - exists c. split_and!; [done|done|apply same_config_refl|done|done|]. intros st i t p. split; [|tauto].
    intros Hhas. split; [done|]. intros [-> Hp]. pose proof (Hown st i p Hhas) as ->. destruct (Hmin i p Hhas). lia.
Qed.

Lemma purge_all_ok n c mx : wf_kv n c -> length mx = Z.to_nat LLAMA_MAX_SEQ ->
  (forall s m, mx !! s = Some m -> (-1 <= m < INT32_MAX)%Z /\ (m <> (-1)%Z -> is_Some (home c (Z.of_nat s)))) ->
  exists c', foldM (purge_seq mx) (seq 0 (Z.to_nat LLAMA_MAX_SEQ)) c = Some c' /\ wf_kv n c' /\ same_config c c' /\
    (kv_unshifted c -> kv_unshifted c') /\ ((forall s m, mx !! s = Some m -> m = (-1)%Z) -> c' = c) /\
    forall st i t p, has (kv_view c' st i) t p <-> has (kv_view c st i) t p /\ forall m, mx !! Z.to_nat t = Some m -> (m < p)%Z.
Proof.
  intros Hwf Hlen Hmx.
  destruct (foldM_seq (purge_seq mx) (fun k c' => wf_kv n c' /\ same_config c c' /\ (kv_unshifted c -> kv_unshifted c') /\
      ((forall s m, mx !! s = Some m -> m = (-1)%Z) -> c' = c) /\
      forall st i t p, has (kv_view c' st i) t p <-> has (kv_view c st i) t p /\
        forall m, (t < Z.of_nat k)%Z -> mx !! Z.to_nat t = Some m -> (m < p)%Z) 0 (Z.to_nat LLAMA_MAX_SEQ) c)
    as (c' & -> & W & C & U & I & V).
  - split_and!; [done|apply same_config_refl|done|done|]. intros st i t p. split; [|tauto]. intros (q & Hv & Hq). split; [by exists q|].
    destruct (kw_own _ _ Hwf st i p q Hv) as [_ Hin]. destruct (home_range Hwf t st (Hin t Hq)) as (? & _). lia.
  - intros s c1 [_ Hs] (W & C & U & I & V). destruct (lookup_lt_is_Some_2 mx s) as [m Hm]; [lia|]. destruct (Hmx s m Hm) as [Hr Hh].
    destruct (purge_seq_ok n c1 mx s m W Hm Hr) as (c2 & -> & W2 & C2 & U2 & I2 & V2).
    { intros Hne. rewrite (home_config c c1) by done. by apply Hh. }
    exists c2. split; [done|]. split_and!; [done|by eapply same_config_trans|by intros Hu; apply U2, U| |].
    + intros Hall. rewrite I2 by (by apply (Hall s)). by apply I.
    + intros st i t p. rewrite V2, V. split.
      * intros [[Hhas Hlt] Hn]. split; [done|]. intros m' Ht Hm'. destruct (decide (t = Z.of_nat s)) as [->|Hne].
        -- rewrite Nat2Z.id in Hm'. simplify_eq. lia.
        -- apply Hlt; [lia|done].
      * intros [Hhas Hlt]. split; [split; [done|]|].
        -- intros m' Ht Hm'. apply Hlt; [lia|done].
        -- intros [-> Hp]. specialize (Hlt m ltac:(lia)). rewrite Nat2Z.id in Hlt. specialize (Hlt Hm). lia.
  - exists c'. split_and!; [done..|]. intros st i t p. rewrite V. split; (intros [Hhas Hlt]; split; [done|]).
    + intros m Hm. apply Hlt; [|done]. destruct Hhas as (q & Hv & Hq). destruct (kw_own _ _ Hwf st i p q Hv) as [_ Hin].
      destruct (home_range Hwf t st (Hin t Hq)) as (? & _). unfold LLAMA_MAX_SEQ in *; lia.
    + intros m _ Hm. by apply Hlt.
Qed.

Lemma move_heads_ok n c si k m : wf_kv n c -> slot_shape n (n_stream c) si k m -> 0 < m ->
  exists c', foldM (move_head si) (seq 0 k) c = Some c' /\ wf_kv n c' /\ same_config c c' /\ v_cells c' = v_cells c /\
    (forall s st row, strm si !! s = Some st -> idxs si !! s = Some row -> exists b, last row = Some b /\ v_heads c' !! st = Some (S b)) /\
    (forall st, st ∉ strm si -> v_heads c' !! st = v_heads c !! st).
Proof.
  intros Hwf Hsf Hm.
  destruct (foldM_seq (move_head si) (fun j c' => wf_kv n c' /\ same_config c c' /\ v_cells c' = v_cells c /\
      (forall s st row, s < j -> strm si !! s = Some st -> idxs si !! s = Some row -> exists b, last row = Some b /\ v_heads c' !! st = Some (S b)) /\
      (forall st, st ∉ strm si -> v_heads c' !! st = v_heads c !! st)) 0 k c) as (c' & -> & W & C & V & H1 & H2).
  - split_and!; [done|apply same_config_refl|done|lia|done].
  - intros s c1 [_ Hs] (W & C & V & H1 & H2). unfold move_head.
    destruct (lookup_lt_is_Some_2 (strm si) s) as [st Hst]; [by rewrite (ss_strm _ _ _ _ _ Hsf)|].
    destruct (lookup_lt_is_Some_2 (idxs si) s) as [row Hrow]; [by rewrite (ss_idxs _ _ _ _ _ Hsf)|].
    destruct (ss_row _ _ _ _ _ Hsf s st row Hst Hrow) as (Hlt & Hlr & _ & Hin).
    rewrite Hst. cbn [mbind option_bind]. rewrite Hrow. cbn [mbind option_bind].
    destruct (last row) as [b|] eqn:Hb; [|apply last_None in Hb; subst; simpl in *; lia]. cbn [mbind option_bind].
    assert (n_stream c1 = n_stream c) as Hns by (by destruct C as (? & ? & ? & ->)).
    assert (b < n) as Hbn by (by apply Hin, last_Some_elem_of).
    destruct (put_head W st (S b)) as (c2 & -> & W2 & C2 & Hh & V2); [by rewrite Hns|lia|].
    exists c2. split; [done|]. split_and!; [done|by eapply same_config_trans|by rewrite V2| |].
    + intros s' st' row' Hs' Hst' Hrow'. rewrite Hh. destruct (decide (s' = s)) as [->|Hne].
      * simplify_eq. exists b. split; [done|]. apply list_lookup_insert_eq. rewrite (kw_heads _ _ W), Hns. done.
      * destruct (H1 s' st' row') as (b' & ? & ?); [lia|done|done|]. exists b'. split; [done|].
        rewrite list_lookup_insert_ne; [done|]. intros <-. pose proof (ss_nd _ _ _ _ _ Hsf) as Hnd. rewrite NoDup_alt in Hnd.
        apply Hne. by apply (Hnd _ _ st).
    + intros st' Hn. rewrite Hh, list_lookup_insert_ne; [by apply H2|]. intros <-. apply Hn. by eapply list_elem_of_lookup_2.
  - exists c'. split_and!; [done..| |done]. intros s st row Hst Hrow. apply (H1 s); [|done|done].
    apply lookup_lt_Some in Hst. rewrite (ss_strm _ _ _ _ _ Hsf) in Hst. done.
Qed.
End Apply.


Section ApplyOk.
Context `{BM : BuildMode}.

(** What [apply_ubatch] makes of the cache. *)
Record applied (n : nat) (c : llama_kv_cache) (u : B.llama_ubatch) (si : slot_info) (k m : nat) (c' : llama_kv_cache) : Prop := {
  ap_wf    : wf_kv n c';
  ap_cfg   : same_config c c';
  ap_shift : kv_unshifted c -> kv_unshifted c';
  ap_head  : forall s st row, strm si !! s = Some st -> idxs si !! s = Some row ->
               exists b, last row = Some b /\ v_heads c' !! st = Some (S b);
  ap_mx    : exists mx, evicts c si k m mx /\
               forall st i o t p, placed c u si m st i o -> has (kv_view c' st i) t p <-> has o t p /\ (mx t < p)%Z;
  ap_fresh : (forall s j st i, slot_at si s j st i -> kv_view c st i = None) ->
               (forall st i o, placed c u si m st i o -> kv_view c' st i = o) /\
               (forall st, st ∉ strm si -> v_heads c' !! st = v_heads c !! st);
}.

Lemma slot_in_coords n c si k m s j st i : slot_fits n c si k m -> slot_at si s j st i -> (s, j) ∈ coords k m.
Proof.
  intros Hsf (Hst & row & Hrow & Hj). apply elem_of_coords. split.
  - apply lookup_lt_Some in Hst. by rewrite (sf_strm _ _ _ _ _ Hsf) in Hst.
  - destruct (sf_row _ _ _ _ _ Hsf s st row Hst Hrow) as (_ & <- & _). by eapply lookup_lt_Some.
Qed.

Lemma slot_size_ok n c si k m : slot_fits n c si k m -> 0 < k -> slot_size si = Some m /\ slot_n_stream si = k.
Proof.
  intros Hsf Hk. unfold slot_size, slot_n_stream. rewrite (sf_strm _ _ _ _ _ Hsf), (sf_idxs _ _ _ _ _ Hsf). split; [|done].
  rewrite (ggml_assert_true _) by (by apply bool_decide_true). cbn [mbind option_bind].
  destruct (lookup_lt_is_Some_2 (idxs si) 0) as [row Hrow]; [by rewrite (sf_idxs _ _ _ _ _ Hsf)|].
  destruct (lookup_lt_is_Some_2 (strm si) 0) as [st Hst]; [by rewrite (sf_strm _ _ _ _ _ Hsf)|].
  rewrite Hrow. simpl. by destruct (sf_row _ _ _ _ _ Hsf 0 st row Hst Hrow) as (_ & -> & _).
Qed.

Lemma apply_ok n c u si k m : wf_kv n c -> search_ok c -> 0 < k -> 0 < m -> slot_fits n c si k m -> toks_ok c u si k m ->
  exists c', apply_ubatch si u c = Some c' /\ applied n c u si k m c'.
Proof.
  intros Hwf Hso Hk Hm Hsf Hto. unfold apply_ubatch. destruct (slot_size_ok n c si k m Hsf Hk) as [-> ->]. cbn [mbind option_bind].
  rewrite (c_assert_true _) by (apply bool_decide_true, Hto). cbn [mbind option_bind].
  destruct (place_all_ok n c u si k m Hwf Hsf Hto) as (c1 & mx & -> & (W1 & C1 & H1 & S1 & A1 & B1 & L1 & M1)). cbn [mbind option_bind].
  destruct (purge_all_ok n c1 mx W1 L1) as (c2 & -> & W2 & C2 & S2 & I2 & V2).
  { intros s x Hx. destruct (M1 s x Hx) as [_ [->|(r & j & st & i & _ & Hat & Hv)]]; [by split|].
    pose proof (kv_view_pos n c st i x _ Hwf Hv). destruct (kw_own _ _ Hwf st i x _ Hv) as [_ Hin]. split.
    - unfold kv_view in Hv. destruct (v_cells c !! st) as [cells|] eqn:Hc; [|done].
      destruct (Hso st cells Hc) as (_ & Hroom & _). pose proof (Hroom i x _ Hv). lia.
    - intros _. rewrite (home_config c c1) by done. rewrite (Hin (Z.of_nat s)); [done|set_solver]. }
  assert (same_config c c2) as C12 by (by eapply same_config_trans).
  assert (n_stream c2 = n_stream c) as Hns by (by destruct C12 as (? & ? & ? & ->)).
  destruct (move_heads_ok n c2 si k m W2) as (c3 & Hmove & W3 & C3 & V3 & Hh & Hh'); [rewrite Hns; by apply fits_shape|done|].
  exists c3. split; [done|].
  assert (forall st i, kv_view c3 st i = kv_view c2 st i) as Hv32 by (intros st i; unfold kv_view; by rewrite V3).
  assert (forall st i o, placed c u si m st i o -> kv_view c1 st i = o) as Hpl.
  { intros st i o [(s & j & Hat & ->)|[Hno ->]]; [|apply B1; intros s j _; apply Hno].
    apply A1; [|done]. by apply (slot_in_coords n c si k m s j st i). }
  split; [done|by eapply same_config_trans| |done| |].
  - intros Hu st cells Hc. rewrite V3 in Hc. by apply (S2 (S1 Hu) st).
  - exists (fun t => default (-1)%Z (mx !! Z.to_nat t)). split.
    + intros t Ht. destruct (lookup_lt_is_Some_2 mx (Z.to_nat t)) as [x Hx]; [lia|]. rewrite Hx. simpl.
      pose proof (M1 _ _ Hx) as He. by rewrite Z2Nat.id in He by lia.
    + intros st i o t p Hp. rewrite Hv32, V2, (Hpl st i o Hp). split; (intros [Hhas Hlt]; split; [done|]).
      * destruct (mx !! Z.to_nat t) as [x|] eqn:Hx; simpl; [by apply Hlt|].
        destruct Hhas as (q & Hq & Hin). rewrite <- (Hpl st i o Hp) in Hq. pose proof (kv_view_pos n c1 st i p q W1 Hq). lia.
      * intros x Hx. by rewrite Hx in Hlt.
  - intros Hfresh. assert (c2 = c1) as Heq.
    { apply I2. intros s x Hx. destruct (M1 s x Hx) as [_ [->|(r & j & st & i & _ & Hat & Hv)]]; [done|].
      by rewrite (Hfresh r j st i Hat) in Hv. }
    split; [intros st i o Hp; rewrite Hv32, Heq; by apply Hpl|]. intros st Hn. by rewrite Hh', Heq, H1.
Qed.
End ApplyOk.


(** * The properties of the slots *)

Section Properties.
Context `{BM : BuildMode}.

(** The window test answers whether the older token is outside of the
    window of the newer one, for every window type, as long as the window size
    and the positions are 31-bit: no overflow and no division by zero. *)
Theorem is_masked_swa_correct (nw : Z) (ty : llama_swa_type) (p0 p1 : Z) :
  swa_size_ok nw ty -> (0 <= p0 <= INT32_MAX)%Z -> (0 <= p1 <= INT32_MAX)%Z ->
  is_masked_swa nw ty p0 p1 = Some (bool_decide (swa_masked nw ty p0 p1)).
Proof. apply masked_ok. Qed.

(** C4: the slot search terminates with an answer. It is empty exactly with a
    reason: a stream of the ubatch has too few usable cells (no run of usable
    cells, when contiguous cells are asked for). Otherwise the slot has for
    every sequence of the ubatch, in its stream, as many distinct usable cells
    as the row has tokens (consecutive ones when asked). *)
Theorem find_slot_correct (n : nat) (c : llama_kv_cache) (u : B.llama_ubatch) (cont : bool) (k m : nat) :
  wf_kv n c -> fits c u k m -> search_ok c ->
  exists si, find_slot c u cont = Some si /\
    ((slot_empty si = true /\ exists j id st cells, j < k /\ B.u_seq_id_unq u !! j = Some id /\ home c id = Some st /\
        v_cells c !! st = Some cells /\ no_cells c cells cont m) \/
     (slot_empty si = false /\ slot_fits n c si k m /\
      (forall j st, strm si !! j = Some st -> exists id, B.u_seq_id_unq u !! j = Some id /\ home c id = Some st) /\
      (cont = true -> forall j row, idxs si !! j = Some row -> exists a, row = seq a m))).
Proof.
  intros H1 H2 H3. destruct (find_slot_ok n c u cont k m H1 H2 H3) as (si & ? & [(? & _ & ?)|?]); exists si; (split; [done|]);
    [by left|by right].
Qed.

(** C5: placing a ubatch into a slot that fits succeeds and keeps the cache
    well-formed; every cell of the slot holds its token, every other cell is
    kept, except that for every sequence whose cells were evicted all positions
    up to the last evicted one are gone; the head of each stream moves past the
    slot. *)
Theorem apply_ubatch_correct (n : nat) (c : llama_kv_cache) (u : B.llama_ubatch) (si : slot_info) (k m : nat) :
  wf_kv n c -> search_ok c -> 0 < k -> 0 < m -> slot_fits n c si k m -> toks_ok c u si k m ->
  exists c', apply_ubatch si u c = Some c' /\ wf_kv n c' /\ same_config c c' /\
    (forall s st row, strm si !! s = Some st -> idxs si !! s = Some row ->
       exists b, last row = Some b /\ v_heads c' !! st = Some (S b)) /\
    (exists mx, evicts c si k m mx /\
       forall st i o t p, placed c u si m st i o -> has (kv_view c' st i) t p <-> has o t p /\ (mx t < p)%Z) /\
    ((forall s j st i, slot_at si s j st i -> kv_view c st i = None) ->
       forall st i o, placed c u si m st i o -> kv_view c' st i = o).
Proof.
  intros H1 H2 H3 H4 H5 H6. destruct (apply_ok n c u si k m H1 H2 H3 H4 H5 H6) as (c' & Hc & []).
  exists c'. split_and!; try done. naive_solver.
Qed.
End Properties.

Lemma is_masked_swa_correct_witness :
  is_masked_swa (H := debug_build) 4 LLAMA_SWA_TYPE_CHUNKED 7 8 = Some true /\
  is_masked_swa (H := debug_build) 4 LLAMA_SWA_TYPE_CHUNKED 4 7 = Some false.
Proof.
  split; (rewrite is_masked_swa_correct; [by_eval| | |]); unfold swa_size_ok, INT32_MAX; (repeat split; lia).
Defined.

(** Two tokens of sequence 1, after its position 2. *)
Definition demo_ubatch : B.llama_ubatch :=
  B.mkUbatch false 2 1 2 1 1 (Some [7; 8]%Z) None [3; 4]%Z [1; 1]%Z [[1]; [1]]%Z [1]%Z [] [0; 1]%Z.

Lemma demo_search_ok : search_ok demo_kv.
Proof.
  intros [|st] cells Hc; [|by destruct st]. injection Hc as <-. split; [apply demo_wf|]. split.
  - intros i p q. rewrite demo_view. destruct i as [|[|i]]; [| |done]; intros [= <- _]; by vm_compute.
  - split; [split; [cbn; unfold INT32_MAX; lia|done]|]. assert (size demo_cells = 4) as -> by (vm_compute; reflexivity). lia.
Qed.

Lemma demo_fits : fits demo_kv demo_ubatch 1 2.
Proof.
  split; try done.
  - lia.
  - intros s Hs. assert (s = 0) as -> by lia. exists 1%Z, 0. split; [done|by apply demo_home].
  - apply NoDup_singleton.
Qed.

Definition demo_slot : slot_info := mkSlot 0 0 [0] [[2; 3]].

Lemma demo_slot_fits : slot_fits 4 demo_kv demo_slot 1 2.
Proof.
  split; [done|done|apply NoDup_singleton|]. intros [|s] st row Hst Hrow; [|by destruct s]. injection Hst as <-. injection Hrow as <-.
  split_and!; [by_eval|done|by_eval|]. intros i Hi. split; [set_unfold in Hi; lia|]. exists demo_cells. split; [done|].
  unfold usable. rewrite demo_view. set_unfold in Hi. by destruct Hi as [->|[->|[]]].
Qed.

Lemma demo_toks_ok : toks_ok demo_kv demo_ubatch demo_slot 1 2.
Proof.
  split; [done|]. intros s j st Hs Hj. assert (s = 0) as -> by lia. intros [= <-].
  assert (j = 0 \/ j = 1) as [-> | ->] by lia; (eexists _, [1%Z]; split; [reflexivity|]; split; [unfold INT32_MAX; lia|];
    do 3 (split; [done|]); split; [apply NoDup_singleton|]; split; [intros ? ->%list_elem_of_singleton; by apply demo_home|done]).
Qed.

Lemma find_slot_correct_witness :
  exists si, find_slot (BM := debug_build) demo_kv demo_ubatch false = Some si /\
    (slot_empty si = true \/ slot_fits 4 demo_kv si 1 2).
Proof.
  destruct (find_slot_correct (BM := debug_build) 4 demo_kv demo_ubatch false 1 2 demo_kv_wf demo_fits demo_search_ok)
    as (si & ? & [[? _]|(_ & ? & _)]); exists si; auto.
Defined.

Example find_slot_demo : find_slot (BM := debug_build) demo_kv demo_ubatch false = Some demo_slot.
Proof. by vm_compute. Qed.

Lemma apply_ubatch_correct_witness :
  exists c', apply_ubatch (BM := debug_build) demo_slot demo_ubatch demo_kv = Some c' /\ wf_kv 4 c'.
Proof.
  destruct (apply_ubatch_correct (BM := debug_build) 4 demo_kv demo_ubatch demo_slot 1 2 demo_kv_wf demo_search_ok)
    as (c' & ? & ? & _); [lia|lia|exact demo_slot_fits|exact demo_toks_ok|exists c'; split; assumption].
Defined.

End KvSlot.
