(* ===== verification/KvPrepare.v ===== *)
(** Preparing a batch in the key/value cache: [llama_kv_cache::prepare] of
    [llama-kv-cache.cpp] and the loop of its caller.  For caches without a
    sliding window, [prepare] finds slots exactly when the streams have enough
    empty cells, leaves the content of the cache as it was, and the slots it
    returns can be applied afterwards, one ubatch after the other. *)

From S2P Require Import Prelude.
From S2P Require Import KvCells.
From S2P Require Import Memory.
From S2P Require Import Batch.
From S2P Require Import KvCache.
From S2P Require Import KvOps.
From S2P Require Import KvSlot.
Import KvCells.Cells Memory.Memory KvCache.Kv KvOps.KvOps KvSlot.KvSlot.

Module KvPrepare.

(** * Capacity *)

(** The rows of a ubatch: how many sequences, of how many tokens each. *)
Definition rows_of (c : llama_kv_cache) (u : B.llama_ubatch) : nat :=
  if bool_decide (n_stream c = 1) then 1 else B.u_n_seqs_unq u.

Definition row_len (c : llama_kv_cache) (u : B.llama_ubatch) : nat := B.u_n_tokens u / rows_of c u.

(** The cells a ubatch takes in stream [st]. *)
Definition demand (c : llama_kv_cache) (u : B.llama_ubatch) (st : nat) : nat :=
  if bool_decide (Some st ∈ home c <$> take (rows_of c u) (B.u_seq_id_unq u)) then row_len c u else 0.

Definition demands (c : llama_kv_cache) (us : list B.llama_ubatch) (st : nat) : nat :=
  sum_list_with (fun u => demand c u st) us.

(** The empty cells of a stream. *)
Definition free_cells (n : nat) (c : llama_kv_cache) (st : nat) : list nat :=
  filter (fun i => kv_view c st i = None) (seq 0 n).

(** A ubatch the cache can take: rows of streams of the cache, complete tokens. *)
Record placeable (c : llama_kv_cache) (u : B.llama_ubatch) (k m : nat) : Prop := {
  pl_fits : fits c u k m;
  pl_toks : forall s j id st, s < k -> j < m -> B.u_seq_id_unq u !! s = Some id -> home c id = Some st ->
              tok_ok c u st (s * m + j);
}.

(** The cache has no window, and room for its positions. *)
Record plain (n : nat) (c : llama_kv_cache) : Prop := {
  pn_wf    : wf_kv n c;
  pn_swa   : swa_type c = LLAMA_SWA_TYPE_NONE /\ (0 <= n_swa c <= INT32_MAX)%Z;
  pn_size  : (3 * Z.of_nat n < 4294967296)%Z;
  pn_room  : forall st i p q, kv_view c st i = Some (p, q) -> (p < INT32_MAX)%Z;
  pn_shift : kv_unshifted c;
}.

(** The two caches have the same content. *)
Definition same_view (c c' : llama_kv_cache) : Prop := forall st i, kv_view c st i = kv_view c' st i.

#[global] Instance same_view_equiv : Equivalence same_view.
Proof. split; [by intros c st i|by intros c c' H st i|intros c1 c2 c3 H H' st i; by rewrite H]. Qed.

(** [c'] is [c] with the tokens of [u] in the cells of [si], which were empty. *)
Definition fills (si : slot_info) (u : B.llama_ubatch) (m : nat) (c c' : llama_kv_cache) : Prop :=
  (forall s j st i, slot_at si s j st i -> kv_view c st i = None /\ kv_view c' st i = tok_cell u (s * m + j)) /\
  (forall st i, (forall s j, ~ slot_at si s j st i) -> kv_view c' st i = kv_view c st i).

Lemma slot_at_dec si st i : (exists s j, slot_at si s j st i) \/ (forall s j, ~ slot_at si s j st i).
Proof.
  destruct (decide (Exists (fun '(x, row) => x = st /\ i ∈ row) (zip (strm si) (idxs si)))) as [H|H].
  - apply list.Exists_exists in H as ([x row] & Hin & -> & Hi). apply list_elem_of_lookup in Hin as [s Hs].
    apply lookup_zip_with_Some in Hs as (x' & row' & [= -> ->] & ? & ?). apply list_elem_of_lookup in Hi as [j ?].
    left. exists s, j. split; [done|]. by exists row'.
  - right. intros s j (Hs & row & Hr & Hj). apply H. apply list.Exists_exists. exists (st, row). split.
    + apply list_elem_of_lookup. exists s. apply lookup_zip_with_Some. eauto.
    + split; [done|]. by eapply list_elem_of_lookup_2.
Qed.

(** Filling is a function of the content. *)
Lemma fills_view si u m c1 c1' c2 c2' : same_view c1 c2 -> fills si u m c1 c1' -> fills si u m c2 c2' -> same_view c1' c2'.
Proof.
  intros Hv [A1 B1] [A2 B2] st i. destruct (slot_at_dec si st i) as [(s & j & H)|H].
  - destruct (A1 s j st i H) as [_ ->]. by destruct (A2 s j st i H) as [_ ->].
  - rewrite B1, B2 by done. apply Hv.
Qed.

Lemma same_config_fields c c' : same_config c c' ->
  n_stream c' = n_stream c /\ n_swa c' = n_swa c /\ swa_type c' = swa_type c /\ (forall s, home c' s = home c s).
Proof. by intros (h & l & i & ->). Qed.

(** Whether a ubatch can be placed depends on the streams only. *)
Lemma placeable_same c c' u k m : n_stream c' = n_stream c -> (forall s, home c' s = home c s) -> placeable c u k m -> placeable c' u k m.
Proof.
  intros Hn Hh [[H1 H2 H3 H4 H5 H6] Ht]. split; [split; rewrite ?Hn; [assumption..| |assumption]|].
  - intros s Hs. destruct (H5 s Hs) as (id & st & ? & ?). exists id, st. by rewrite Hh.
  - intros s j id st Hs Hj Hid Hst. rewrite Hh in Hst. destruct (Ht s j id st Hs Hj Hid Hst) as (p & ids & ? & ? & ? & ? & ? & ? & Hhome & ?).
    exists p, ids. split_and!; try done; try lia. intros x Hx. rewrite Hh. by apply Hhome.
Qed.

Lemma placeable_config c c' u k m : same_config c c' -> placeable c u k m -> placeable c' u k m.
Proof. intros Hc. destruct (same_config_fields c c' Hc) as (Hn & _ & _ & Hh). by apply placeable_same. Qed.

Lemma placeable_toks c u si k m : placeable c u k m -> (forall j st, strm si !! j = Some st -> exists id, B.u_seq_id_unq u !! j = Some id /\ home c id = Some st) -> toks_ok c u si k m.
Proof.
  intros Hpl Hids. split; [apply Hpl|]. intros s j st Hs Hj Hst. destruct (Hids s st Hst) as (id & ? & ?). by apply (pl_toks _ _ _ _ Hpl s j id).
Qed.

Lemma placeable_rows c u k m : placeable c u k m -> rows_of c u = k /\ row_len c u = m.
Proof.
  intros [[H1 [H2 H2'] H3 H4 _ _] _]. assert (rows_of c u = k) as Hk.
  { unfold rows_of. case_bool_decide as H; [by rewrite H3|]. by destruct (H4 H). }
  split; [done|]. unfold row_len. rewrite Hk, H1, Nat.mul_comm. apply Nat.div_mul. lia.
Qed.

Lemma demand_config c c' us st : same_config c c' -> demands c' us st = demands c us st.
Proof. by intros (h & l & i & ->). Qed.

Section Facts.
Context `{BM : BuildMode}.

Lemma plain_search n c : plain n c -> search_ok c.
Proof.
  intros [Hwf [Hty Hsw] Hn Hroom _] st cells Hc. destruct (kw_wf _ _ Hwf _ _ Hc) as [Hw Hs]. split_and!; [done| | |by rewrite Hs].
  - intros i p q Hv. apply (Hroom st i p q). by rewrite (view_kv st cells).
  - split; [done|by rewrite Hty].
Qed.

(** Without a window only empty cells are usable. *)
Lemma plain_usable n c cells i : plain n c -> usable c cells i <-> view cells i = None.
Proof.
  intros Hp. unfold usable. destruct (pn_swa _ _ Hp) as [Hty _]. destruct (view cells i) as [[p q]|]; [|done].
  split; [intros (s & mx & _ & _ & Hm); by rewrite Hty in Hm|done].
Qed.

(** Applying a ubatch fills its slot. *)
Lemma apply_fills n c u si k m : plain n c -> placeable c u k m -> slot_fits n c si k m ->
  (forall j st, strm si !! j = Some st -> exists id, B.u_seq_id_unq u !! j = Some id /\ home c id = Some st) ->
  exists c', apply_ubatch si u c = Some c' /\ plain n c' /\ same_config c c' /\ fills si u m c c'.
Proof.
  intros Hp Hpl Hsf Hids. destruct (ft_pos _ _ _ _ (pl_fits _ _ _ _ Hpl)) as [Hk Hm].
  destruct (apply_ok n c u si k m (pn_wf _ _ Hp) (plain_search n c Hp) Hk Hm Hsf (placeable_toks _ _ _ _ _ Hpl Hids)) as (c' & Happ & [W C S _ _ F]).
  assert (forall s j st i, slot_at si s j st i -> kv_view c st i = None) as Hempty.
  { intros s j st i (Hst & row & Hrow & Hj). destruct (sf_row _ _ _ _ _ Hsf s st row Hst Hrow) as (_ & _ & _ & Hin).
    destruct (Hin i) as (_ & cells & Hc & Hu); [by eapply list_elem_of_lookup_2|].
    rewrite (view_kv st cells) by done. by apply (plain_usable n c). }
  destruct (F Hempty) as [Hpl' _]. exists c'. split; [done|].
  assert (fills si u m c c') as HF.
  { split.
    - intros s j st i H. split; [by apply (Hempty s j)|]. apply Hpl'. left. eauto.
    - intros st i H. apply Hpl'. by right. }
  destruct (same_config_fields c c' C) as (_ & Hn & Hty & _).
  split_and!; [|done|done]. split; [done|by rewrite Hn, Hty; apply Hp|apply Hp| |by apply S, Hp].
  intros st i p q Hv. destruct (slot_at_dec si st i) as [(s & j & H)|H].
  - destruct HF as [HF _]. destruct (HF s j st i H) as [_ Htc]. rewrite Htc in Hv.
    pose proof (slot_in_coords n c si k m s j st i Hsf H) as [? ?]%elem_of_coords. destruct H as [Hst _].
    destruct (Hids s st Hst) as (id & Hid & Hho).
    destruct (pl_toks _ _ _ _ Hpl s j id st) as (p' & ids & Hpp & Hpr & Hi & _); [done..|].
    unfold tok_cell in Hv. rewrite Hpp in Hv. cbn [mbind option_bind] in Hv. rewrite Hi in Hv. injection Hv as <- _. lia.
  - destruct HF as [_ HF]. rewrite HF in Hv by done. by apply (pn_room _ _ Hp st i p q).
Qed.
End Facts.

(** ** Counting empty cells *)

Section Counting.
Context `{BM : BuildMode}.

Lemma elem_of_free n c st i : i ∈ free_cells n c st <-> i < n /\ kv_view c st i = None.
Proof. unfold free_cells. rewrite list_elem_of_filter, elem_of_seq. intuition lia. Qed.

Lemma NoDup_free n c st : NoDup (free_cells n c st).
Proof. apply NoDup_filter, NoDup_seq. Qed.

(** A search fails when the stream has too few empty cells. *)
Lemma no_cells_free n c st cells m : plain n c -> v_cells c !! st = Some cells -> no_cells c cells false m ->
  length (free_cells n c st) < m.
Proof.
  intros Hp Hc Hno. destruct (decide (m <= length (free_cells n c st))) as [Hle|]; [|lia].
  exfalso. apply (Hno (take m (free_cells n c st))). split_and!; [rewrite length_take; lia| | |done].
  - pose proof (NoDup_free n c st) as Hnd. rewrite <- (take_drop m) in Hnd. by apply NoDup_app in Hnd as [? _].
  - intros i Hi%subseteq_take. apply elem_of_free in Hi as [Hi Hv]. rewrite (view_kv st cells) in Hv by done.
    destruct (kw_wf _ _ (pn_wf _ _ Hp) _ _ Hc) as [_ ->]. split; [done|]. by apply (plain_usable n c).
Qed.

Lemma demand_row n c u si k m s st : placeable c u k m -> slot_fits n c si k m ->
  (forall j st, strm si !! j = Some st -> exists id, B.u_seq_id_unq u !! j = Some id /\ home c id = Some st) ->
  strm si !! s = Some st -> demand c u st = m.
Proof.
  intros Hpl Hsf Hids Hs. destruct (placeable_rows c u k m Hpl) as [Hk Hm]. unfold demand. rewrite Hk, Hm.
  rewrite bool_decide_true; [done|]. destruct (Hids s st Hs) as (id & Hid & Hh). apply list_elem_of_fmap. exists id. split; [done|].
  apply list_elem_of_lookup. exists s. rewrite lookup_take_lt; [done|]. apply lookup_lt_Some in Hs. by rewrite (sf_strm _ _ _ _ _ Hsf) in Hs.
Qed.

Lemma demand_none n c u si k m st : placeable c u k m -> slot_fits n c si k m ->
  (forall j st, strm si !! j = Some st -> exists id, B.u_seq_id_unq u !! j = Some id /\ home c id = Some st) ->
  st ∉ strm si -> demand c u st = 0.
Proof.
  intros Hpl Hsf Hids Hs. destruct (placeable_rows c u k m Hpl) as [Hk _]. unfold demand. rewrite Hk.
  rewrite bool_decide_false; [done|]. intros (id & Hh & Hin)%list_elem_of_fmap. apply list_elem_of_lookup in Hin as [s Hid].
  pose proof (lookup_lt_Some _ _ _ Hid) as Hlt. rewrite length_take in Hlt. rewrite lookup_take_lt in Hid by lia.
  destruct (lookup_lt_is_Some_2 (strm si) s) as [st' Hst']; [rewrite (sf_strm _ _ _ _ _ Hsf); lia|].
  destruct (Hids s st' Hst') as (id' & ? & ?). assert (st' = st) as -> by congruence. apply Hs. by eapply list_elem_of_lookup_2.
Qed.

(** Filling a slot takes as many empty cells as the ubatch demands. *)
Lemma fills_free n c u si k m c' st : placeable c u k m -> slot_fits n c si k m ->
  (forall j st, strm si !! j = Some st -> exists id, B.u_seq_id_unq u !! j = Some id /\ home c id = Some st) ->
  fills si u m c c' -> length (free_cells n c st) = demand c u st + length (free_cells n c' st).
Proof.
  intros Hpl Hsf Hids [HA HB]. destruct (decide (st ∈ strm si)) as [Hin|Hno].
  - apply list_elem_of_lookup in Hin as [s Hs]. rewrite (demand_row n c u si k m s st) by done.
    destruct (lookup_lt_is_Some_2 (idxs si) s) as [row Hrow].
    { rewrite (sf_idxs _ _ _ _ _ Hsf), <- (sf_strm _ _ _ _ _ Hsf). by eapply lookup_lt_Some. }
    destruct (sf_row _ _ _ _ _ Hsf s st row Hs Hrow) as (_ & Hlen & Hnd & Hcells). rewrite <- Hlen, <- length_app. apply Permutation_length.
    assert (forall i, i ∈ row -> i < n /\ kv_view c st i = None /\ kv_view c' st i <> None) as Hri.
    { intros i Hi. destruct (Hcells i Hi) as [Hlt _]. apply list_elem_of_lookup in Hi as [j Hj].
      assert (slot_at si s j st i) as Hat by (split; [done|by exists row]). destruct (HA s j st i Hat) as [Hv ->]. split; [done|]. split; [done|].
      destruct (Hids s st Hs) as (id & Hid & Hh). pose proof (slot_in_coords n c si k m s j st i Hsf Hat) as [? ?]%elem_of_coords.
      destruct (pl_toks _ _ _ _ Hpl s j id st) as (p & ids & Hp & _ & Hi & _); [done..|]. unfold tok_cell. by rewrite Hp; simpl; rewrite Hi. }
    apply NoDup_Permutation; [apply NoDup_free| |].
    + apply NoDup_app. split_and!; [done| |apply NoDup_free]. intros i Hi [_ Hv]%elem_of_free. by apply (Hri i Hi).
    + intros i. rewrite elem_of_app, !elem_of_free. destruct (decide (i ∈ row)) as [Hi|Hi]; [destruct (Hri i Hi) as (? & ? & ?); tauto|].
      rewrite HB; [tauto|]. intros s' j (Hs' & row' & Hrow' & Hj). pose proof (sf_nd _ _ _ _ _ Hsf) as Hns. rewrite NoDup_alt in Hns.
      rewrite (Hns s' s st) in Hrow' by done. simplify_eq. apply Hi. by eapply list_elem_of_lookup_2.
  - rewrite (demand_none n c u si k m) by done. unfold free_cells. simpl. f_equal. apply filter_agree. intros i _.
    rewrite HB; [done|]. intros s j [Hs _]. apply Hno. by eapply list_elem_of_lookup_2.
Qed.
End Counting.


(** ** Saving and restoring the cells of a slot *)

Section Restore.
Context `{BM : BuildMode}.

Lemma seq_pos_add_shift i c c' : seq_pos_add i c = Some c' -> shift c' = shift c.
Proof.
  unfold seq_pos_add. intros H. inv_opt H. apply (foldM_preserves _ (fun t => shift t = shift c)) in H; [done| |done].
  intros s t t' _ Ht Hf. inv_opt Hf. destruct (_ : bool); [|by injection Hf as <-].
  rewrite <- Ht. unfold seq_pos_inc in Hf. inv_opt Hf. by subst.
Qed.

Lemma set_cell_shift other idx j c c' : set_cell other idx j c = Some c' -> shift c' = shift c.
Proof.
  unfold set_cell. intros H. inv_opt H.
  assert (shift l = shift c) as <-.
  { destruct (bool_decide (z <> (-1)%Z)); [rewrite (seq_pos_rm_shift _ _ _ E1)|injection E1 as <-]; by repeat case_bool_decide. }
  transitivity (shift l3).
  { destruct (bool_decide (z0 <> (-1)%Z)); [rewrite <- H; by apply (seq_pos_add_shift idx)|by injection E7 as ->; rewrite H]. }
  rewrite (set_fields_shift l2 l3) by eauto. rewrite (set_fields_shift l0 l2) by eauto. apply set_fields_shift. eauto.
Qed.

Lemma set_idxs_shift idxs other c c' : set_idxs idxs other c = Some c' -> shift c' = shift c.
Proof.
  unfold set_idxs. intros H. inv_opt H. apply (foldM_preserves _ (fun t => shift t = shift c)) in H; [done| |done].
  intros j t t' _ Ht Hf. inv_opt Hf. rewrite <- Ht. by apply (set_cell_shift other n j).
Qed.

(** The saved state of a slot: the old heads and a copy of every row. *)
Definition saved (c : llama_kv_cache) (si : slot_info) (x : state_t) : Prop :=
  st_sinfo x = si /\ st_heads x = v_heads c /\
  forall s st row cells, strm si !! s = Some st -> idxs si !! s = Some row -> v_cells c !! st = Some cells ->
    exists r, st_cells x !! s = Some r /\ snapshot cells row (length row) r.

Lemma unshifted_at n c st cells i : wf_kv n c -> kv_unshifted c -> v_cells c !! st = Some cells -> i < n -> shift cells !! i = Some 0%Z.
Proof.
  intros Hwf Hu Hc Hi. destruct (kw_wf _ _ Hwf _ _ Hc) as [Hw Hs].
  destruct (lookup_lt_is_Some_2 (shift cells) i) as [h Hh]; [rewrite (wf_shift _ Hw); unfold size in Hs; lia|].
  rewrite Hh. f_equal. by apply (Hu st cells Hc i).
Qed.

Lemma save_ok n c si k m : wf_kv n c -> kv_unshifted c -> slot_shape n (n_stream c) si k m ->
  exists x, save_state si c = Some x /\ saved c si x.
Proof.
  intros Hwf Hu Hss. unfold save_state, slot_n_stream. rewrite (ss_strm _ _ _ _ _ Hss).
  destruct (foldM_seq (fun s acc => str ← strm si !! s; cells ← v_cells c !! str; row ← idxs si !! s;
        x ← cp_idxs row cells; Some (acc ++ [x]))
    (fun j acc => length acc = j /\ forall s st row cells, s < j -> strm si !! s = Some st -> idxs si !! s = Some row ->
       v_cells c !! st = Some cells -> exists r, acc !! s = Some r /\ snapshot cells row (length row) r) 0 k [])
    as (l & -> & Hl & Hs).
  - split; [done|lia].
  - intros s acc [_ Hlt] [Hlen Hacc].
    destruct (lookup_lt_is_Some_2 (strm si) s) as [st Hst]; [by rewrite (ss_strm _ _ _ _ _ Hss)|].
    destruct (lookup_lt_is_Some_2 (idxs si) s) as [row Hrow]; [by rewrite (ss_idxs _ _ _ _ _ Hss)|].
    destruct (ss_row _ _ _ _ _ Hss s st row Hst Hrow) as (Hns & _ & _ & Hin).
    destruct (stream_cells Hwf st Hns) as (cells & _ & Hc & _ & Hw & Hsz & _).
    destruct (cp_idxs_ok cells row Hw) as (r & Hr & Hsnap).
    { intros i Hi. split; [rewrite Hsz; by apply Hin|]. by apply (unshifted_at n c st cells i); [| | |apply Hin]. }
    rewrite Hst. cbn [mbind option_bind]. rewrite Hc. cbn [mbind option_bind]. rewrite Hrow. cbn [mbind option_bind]. rewrite Hr.
    cbn [mbind option_bind]. eexists. split; [reflexivity|]. split; [rewrite length_app; simpl; lia|].
    intros s' st' row' cells' Hs' Hst' Hrow' Hc'. destruct (decide (s' = s)) as [->|Hne].
    + simplify_eq. exists r. split; [|done]. by rewrite lookup_app_r, Nat.sub_diag by lia.
    + destruct (Hacc s' st' row' cells') as (r' & Hr' & ?); [lia|done..|]. exists r'. split; [|done]. by apply lookup_app_l_Some.
  - eexists. split; [reflexivity|]. split_and!; [done|done|]. intros s st row cells Hst Hrow Hc. apply (Hs s st); [|done..].
    apply lookup_lt_Some in Hst. by rewrite (ss_strm _ _ _ _ _ Hss) in Hst.
Qed.

(** The rows of a slot are of distinct streams. *)
Lemma shape_streams n ns si k m : slot_shape n ns si k m -> k <= ns.
Proof.
  intros [Hl Hi Hn Hr]. rewrite <- Hl, <- (length_seq ns 0). apply submseteq_length, NoDup_submseteq; [done|].
  intros y [j Hj]%list_elem_of_lookup. apply elem_of_seq.
  destruct (lookup_lt_is_Some_2 (idxs si) j) as [row Hrow]; [rewrite Hi, <- Hl; by eapply lookup_lt_Some|].
  destruct (Hr j y row Hj Hrow) as [? _]. lia.
Qed.

Lemma slot_at_row n ns si k m s st row s' j st' i : slot_shape n ns si k m -> strm si !! s = Some st -> idxs si !! s = Some row ->
  slot_at si s' j st' i -> s' = s <-> st' = st /\ i ∈ row.
Proof.
  intros Hss Hst Hrow (Hs' & row' & Hrow' & Hj). pose proof (ss_nd _ _ _ _ _ Hss) as Hnd. rewrite NoDup_alt in Hnd. split.
  - intros ->. simplify_eq. split; [done|]. by eapply list_elem_of_lookup_2.
  - intros [-> _]. by apply (Hnd s' s st).
Qed.

(** One row: its cells get their saved content. *)
Lemma restore_row n c0 c si x k m s st row : wf_kv n c0 -> wf_kv n c -> same_config c0 c -> kv_unshifted c ->
  slot_shape n (n_stream c) si k m -> saved c0 si x -> strm si !! s = Some st -> idxs si !! s = Some row ->
  exists c', (cells ← v_cells c !! st; saved ← st_cells x !! s; cells ← set_idxs row saved cells; c ← set_cells st cells c;
              h ← st_heads x !! s; set_head st h c) = Some c' /\
    wf_kv n c' /\ same_config c c' /\ kv_unshifted c' /\
    forall st' i, kv_view c' st' i = if decide (st' = st /\ i ∈ row) then kv_view c0 st' i else kv_view c st' i.
Proof.
  intros Hwf0 Hwf HC Hu Hss (_ & Hheads & Hcells) Hst Hrow.
  destruct (ss_row _ _ _ _ _ Hss s st row Hst Hrow) as (Hns & Hlr & Hnd & Hin).
  destruct (same_config_fields c0 c HC) as (N0 & _).
  destruct (stream_cells Hwf st) as (cells & _ & Hc & _ & Hw & Hsz & _); [done|].
  destruct (stream_cells Hwf0 st) as (cells0 & _ & Hc0 & _ & Hw0 & Hsz0 & _); [by rewrite <- N0|].
  destruct (Hcells s st row cells0 Hst Hrow Hc0) as (r & Hr & Hsnap).
  destruct (set_idxs_ok cells0 cells row r) as (cells' & Hset & Hw' & Hsz' & Hv'); [done|done|congruence|done|done| |].
  { intros i Hi. rewrite Hsz0. split; [by apply Hin|]. apply (unshifted_at n c st); [done..|by apply Hin]. }
  destruct (put_cells Hwf st cells') as (c2 & Hc2 & W2 & C2 & H2 & V2 & Hv2); [done|done|congruence| |].
  { intros i. rewrite Hv'. case_decide; [|rewrite <- (view_kv st cells) by done; apply Hwf].
    rewrite (owned_config c0 c), <- (view_kv st cells0) by done. apply Hwf0. }
  destruct (lookup_lt_is_Some_2 (v_heads c0) s) as [h Hh].
  { rewrite (kw_heads _ _ Hwf0), <- N0. apply lookup_lt_Some in Hst. rewrite (ss_strm _ _ _ _ _ Hss) in Hst.
    pose proof (shape_streams _ _ _ _ _ Hss). lia. }
  destruct (same_config_fields c c2 C2) as (N2 & _).
  destruct (put_head W2 st h) as (c3 & Hc3 & W3 & C3 & _ & V3); [congruence|by apply (kw_head _ _ Hwf0 s)|].
  exists c3. rewrite Hc. cbn [mbind option_bind]. rewrite Hr. cbn [mbind option_bind]. rewrite Hset. cbn [mbind option_bind].
  rewrite Hc2. cbn [mbind option_bind]. rewrite Hheads, Hh. split; [done|].
  split_and!; [done|by eapply same_config_trans| |].
  - intros st' y Hy. rewrite V3, V2 in Hy. apply list_lookup_insert_dec in Hy as [[<- ->]|[_ Hy]]; [|by apply (Hu st')].
    apply (shift_same_unshifted cells); [by apply (set_idxs_shift row r)|by apply (Hu st)].
  - intros st' i. replace (kv_view c3 st' i) with (kv_view c2 st' i) by (unfold kv_view; by rewrite V3). rewrite Hv2.
    destruct (decide (st' = st)) as [->|Hne]; [|by rewrite decide_False by tauto]. rewrite Hv'.
    destruct (decide (i ∈ row)).
    + rewrite decide_True by done. by rewrite (view_kv st cells0).
    + rewrite decide_False by tauto. by rewrite (view_kv st cells).
Qed.

(** Restoring gives the cells of the slot their saved content and leaves the
    others. *)
Lemma restore_ok n c0 c si x k m : wf_kv n c0 -> wf_kv n c -> same_config c0 c -> kv_unshifted c ->
  slot_shape n (n_stream c) si k m -> saved c0 si x ->
  exists c', restore_state x c = Some c' /\ wf_kv n c' /\ same_config c c' /\ kv_unshifted c' /\
    (forall s j st i, slot_at si s j st i -> kv_view c' st i = kv_view c0 st i) /\
    (forall st i, (forall s j, ~ slot_at si s j st i) -> kv_view c' st i = kv_view c st i).
Proof.
  intros Hwf0 Hwf HC0 Hu Hss Hsv. pose proof Hsv as (Hsi & _ & _). unfold restore_state, slot_n_stream.
  rewrite Hsi, (ss_strm _ _ _ _ _ Hss).
  destruct (foldM_seq (fun s c => str ← strm si !! s; cells ← v_cells c !! str; row ← idxs si !! s; saved ← st_cells x !! s;
      cells ← set_idxs row saved cells; c ← set_cells str cells c; h ← st_heads x !! s; set_head str h c)
    (fun r c1 => wf_kv n c1 /\ same_config c c1 /\ kv_unshifted c1 /\
      (forall s j st i, s < r -> slot_at si s j st i -> kv_view c1 st i = kv_view c0 st i) /\
      (forall st i, (forall s j, s < r -> ~ slot_at si s j st i) -> kv_view c1 st i = kv_view c st i)) 0 k c)
    as (c' & -> & W & C & U & A & B).
  - split_and!; [done|apply same_config_refl|done|lia|done].
  - intros s c1 [_ Hs] (W1 & C1 & U1 & A1 & B1).
    destruct (lookup_lt_is_Some_2 (strm si) s) as [st Hst]; [by rewrite (ss_strm _ _ _ _ _ Hss)|].
    destruct (lookup_lt_is_Some_2 (idxs si) s) as [row Hrow]; [by rewrite (ss_idxs _ _ _ _ _ Hss)|].
    destruct (same_config_fields c c1 C1) as (N1 & _).
    destruct (restore_row n c0 c1 si x k m s st row) as (c2 & Hrun & W2 & C2 & U2 & Hv);
      [done|done|by eapply same_config_trans|done|by rewrite N1|done..|].
    exists c2. split; [|split_and!; [done|by eapply same_config_trans|done| |]].
    + rewrite Hst. cbn [mbind option_bind]. destruct (v_cells c1 !! st); [|done]. cbn [mbind option_bind] in Hrun |- *.
      by rewrite Hrow.
    + intros s' j st' i Hs' Hat. rewrite Hv. destruct (decide (st' = st /\ i ∈ row)) as [|Hno]; [done|].
      apply (A1 s' j); [|done]. rewrite <- (slot_at_row n _ si k m s st row s' j st' i) in Hno by done. lia.
    + intros st' i Hno. rewrite Hv, decide_False; [apply B1; intros s' j Hs'; apply Hno; lia|].
      intros [-> [j Hj]%list_elem_of_lookup]. apply (Hno s j); [lia|]. split; [done|]. by exists row.
  - exists c'. split_and!; try done.
    + intros s j st i Hat. apply (A s j); [|done]. destruct Hat as [Hs _]. apply lookup_lt_Some in Hs.
      by rewrite (ss_strm _ _ _ _ _ Hss) in Hs.
    + intros st i Hno. apply B. intros s j _. apply Hno.
Qed.
End Restore.

(** ** The loop over the ubatches *)

(** The caches the loop goes through, with the slot and the saved state of every
    ubatch. *)
Inductive trail (n : nat) : llama_kv_cache -> list B.llama_ubatch -> list slot_info -> list state_t -> llama_kv_cache -> Prop :=
  | trail_nil c : plain n c -> trail n c [] [] [] c
  | trail_cons c c1 c2 u us si sis x xs k m :
      plain n c -> placeable c u k m -> slot_fits n c si k m ->
      (forall j st, strm si !! j = Some st -> exists id, B.u_seq_id_unq u !! j = Some id /\ home c id = Some st) ->
      saved c si x -> same_config c c1 -> fills si u m c c1 -> trail n c1 us sis xs c2 ->
      trail n c (u :: us) (si :: sis) (x :: xs) c2.

Section Trail.
Context `{BM : BuildMode}.

Lemma trail_config n c us sis xs c' : trail n c us sis xs c' ->
  plain n c /\ plain n c' /\ same_config c c' /\ length sis = length us.
Proof.
  induction 1 as [c Hp|c c1 c2 u us si sis x xs k m Hp _ _ _ _ HC _ _ (_ & P & C & L)].
  - split_and!; [done|done|apply same_config_refl|done].
  - split_and!; [done|done|by eapply same_config_trans|]. simpl. by rewrite L.
Qed.

Lemma trail_free n c us sis xs c' st : trail n c us sis xs c' ->
  length (free_cells n c st) = demands c us st + length (free_cells n c' st).
Proof.
  induction 1 as [c _|c c1 c2 u us si sis x xs k m Hp Hpl Hsf Hids _ HC HF _ IH]; [done|].
  rewrite (fills_free n c u si k m c1 st) by done. rewrite IH, (demand_config c c1) by done. simpl. lia.
Qed.

Lemma place_all_trail n us : forall c res states, plain n c -> Forall (fun u => exists k m, placeable c u k m) us ->
  exists done todo sis xs ok c', place_all us res states c = Some (res ++ sis, states ++ xs, ok, c') /\ us = done ++ todo /\
    trail n c done sis xs c' /\
    if ok : bool then todo = [] else exists u rest st, todo = u :: rest /\ length (free_cells n c' st) < demand c' u st.
Proof.
  induction us as [|u us IH]; intros c res states Hp Hall; cbn [place_all].
  { exists [], [], [], [], true, c. rewrite !app_nil_r. split_and!; [done|done|by constructor|done]. }
  apply Forall_cons in Hall as [(k & m & Hpl) Hall].
  destruct (find_slot_ok n c u false k m (pn_wf _ _ Hp) (pl_fits _ _ _ _ Hpl) (plain_search n c Hp)) as (si & -> & Hsi).
  cbn [mbind option_bind]. destruct Hsi as [(Hemp & _ & j & id & st & cells & Hj & Hid & Hst & Hc & Hno)|(Hemp & Hsf & Hids & _)]; rewrite Hemp.
  - exists [], (u :: us), [], [], false, c. rewrite !app_nil_r. split_and!; [done|done|by constructor|]. exists u, us, st. split; [done|].
    destruct (placeable_rows c u k m Hpl) as [Hk Hm].
    assert (demand c u st = m) as ->; [|by apply (no_cells_free n c st cells)]. unfold demand. rewrite Hk, Hm, bool_decide_true; [done|].
    apply list_elem_of_fmap. exists id. split; [done|]. apply list_elem_of_lookup. exists j. by rewrite lookup_take_lt.
  - destruct (save_ok n c si k m (pn_wf _ _ Hp) (pn_shift _ _ Hp) (fits_shape _ _ _ _ _ Hsf)) as (x & -> & Hx). cbn [mbind option_bind].
    destruct (apply_fills n c u si k m Hp Hpl Hsf Hids) as (c1 & -> & Hp1 & HC & HF). cbn [mbind option_bind].
    destruct (IH c1 (res ++ [si]) (states ++ [x]) Hp1) as (ud & ut & sis & xs & ok & c' & -> & -> & Ht & Hok).
    { eapply Forall_impl; [exact Hall|]. intros u' (k' & m' & H). exists k', m'. by apply (placeable_config c). }
    exists (u :: ud), ut, (si :: sis), (x :: xs), ok, c'. rewrite <- !app_assoc. split_and!; [done|done| |done].
    by apply (trail_cons n c c1 c' u ud si sis x xs k m).
Qed.

(** Restoring the saved states backwards gives back the content. *)
Lemma trail_restore n c us sis xs c' : trail n c us sis xs c' -> forall y, wf_kv n y -> same_config c y -> kv_unshifted y -> same_view y c' ->
  exists y', foldM restore_state (rev xs) y = Some y' /\ wf_kv n y' /\ same_config y y' /\ kv_unshifted y' /\ same_view y' c.
Proof.
  induction 1 as [c _|c c1 c2 u us si sis x xs k m Hp Hpl Hsf Hids Hsv HC [HA HB] Ht IH]; intros y Hy Hcy Huy Hvy.
  { exists y. split_and!; [done|done|apply same_config_refl|done|done]. }
  assert (same_config c1 y) as Hc1y.
  { destruct HC as (? & ? & ? & ->), Hcy as (? & ? & ? & ->). by eexists _, _, _. }
  destruct (IH y Hy Hc1y Huy Hvy) as (y1 & Hrun & Hw1 & HC1 & Hu1 & Hv1).
  assert (same_config c y1) as Hcy1 by (by eapply same_config_trans).
  destruct (restore_ok n c y1 si x k m (pn_wf _ _ Hp) Hw1 Hcy1 Hu1) as (y2 & Hy2 & Hw2 & HC2 & Hu2 & HA2 & HB2).
  { destruct (same_config_fields c y1 Hcy1) as (-> & _). by apply (fits_shape n c). }
  { done. }
  exists y2. simpl. rewrite foldM_app, Hrun. cbn [mbind option_bind foldM]. rewrite Hy2.
  split_and!; [done|done|by eapply same_config_trans|done|]. intros st i. destruct (slot_at_dec si st i) as [(s & j & Hat)|Hno].
  - by apply (HA2 s j).
  - by rewrite HB2, Hv1, HB.
Qed.
End Trail.


(** ** Applying the prepared slots *)

(** Sequence [s] gets position [p] from a token of the ubatch. *)
Definition brings (u : B.llama_ubatch) (s p : Z) : Prop :=
  exists t ids, t < B.u_n_tokens u /\ B.u_pos u !! t = Some p /\ B.u_seq_id u !! t = Some ids /\ s ∈ ids.

Section Replay.
Context `{BM : BuildMode} {D : Type} (copy_stream : nat -> nat -> D -> D) (run_shift : llama_kv_cache -> D -> option D).

Lemma slot_fits_view n c y si k m : plain n c -> plain n y -> same_config c y -> same_view y c ->
  slot_fits n c si k m -> slot_fits n y si k m.
Proof.
  intros Hp Hy HC Hv [H1 H2 H3 H4]. destruct (same_config_fields c y HC) as (N & _). split; [done..|].
  intros s st row Hs Hr. destruct (H4 s st row Hs Hr) as (Hst & Hl & Hnd & Hin). rewrite N. split_and!; [done..|].
  intros i Hi. destruct (Hin i Hi) as (Hlt & cells & Hc & Hus). split; [done|].
  destruct (stream_cells (pn_wf _ _ Hy) st) as (cells' & _ & Hc' & _); [by rewrite N|]. exists cells'. split; [done|].
  apply (plain_usable n y); [done|]. rewrite <- (view_kv st cells') by done. rewrite Hv.
  rewrite (view_kv st cells) by done. by apply (plain_usable n c).
Qed.

Lemma get_n_kv_total n c si k m : wf_kv n c -> slot_shape n (n_stream c) si k m -> is_Some (get_n_kv si c).
Proof.
  intros Hwf Hss. unfold get_n_kv, slot_n_stream. rewrite (ss_strm _ _ _ _ _ Hss).
  edestruct (foldM_seq (fun s result => str ← strm si !! s; cells ← v_cells c !! str;
    Some ((size cells `min` ((n_pad c `max` 256) `max` GGML_PAD (used_max_p1 cells) (n_pad c `max` 256))) `max` result))
    (fun _ _ => True) 0 k 0) as (r & -> & _); [done| |by eexists].
  intros s r [_ Hs] _. destruct (lookup_lt_is_Some_2 (strm si) s) as [st Hst]; [by rewrite (ss_strm _ _ _ _ _ Hss)|].
  destruct (lookup_lt_is_Some_2 (idxs si) s) as [row Hrow]; [by rewrite (ss_idxs _ _ _ _ _ Hss)|].
  destruct (ss_row _ _ _ _ _ Hss s st row Hst Hrow) as (Hns & _).
  destruct (stream_cells Hwf st Hns) as (cells & _ & Hc & _). rewrite Hst. cbn [mbind option_bind]. rewrite Hc. by eexists.
Qed.

(** The loop of the caller, from ubatch [length pus] on. *)
Lemma process_trail n c us sis xs c' : trail n c us sis xs c' -> forall y pus psis b i nk d fuel,
  plain n y -> same_config c y -> same_view y c -> us <> [] -> length psis = length pus -> length us <= fuel ->
  exists y', process copy_stream run_shift fuel (mkCtx LLAMA_MEMORY_STATUS_SUCCESS b i (length pus) (psis ++ sis) (pus ++ us) nk) y d = Some (y', d) /\
    plain n y' /\ same_config y y' /\ same_view y' c'.
Proof.
  induction 1 as [c _|c c1 c2 u us si sis x xs k m Hp Hpl Hsf Hids Hsv HC HF Ht IH];
    intros y pus psis b i nk d fuel Hy Hcy Hvy Hne Hlen Hfuel; [done|].
  destruct fuel as [|fuel]; [simpl in Hfuel; lia|]. cbn [process].
  pose proof (slot_fits_view n c y si k m Hp Hy Hcy Hvy Hsf) as Hsfy.
  destruct (same_config_fields c y Hcy) as (N & _ & _ & Hh).
  destruct (apply_fills n y u si k m Hy (placeable_config _ _ _ _ _ Hcy Hpl) Hsfy) as (y1 & Happ & Hy1 & HC1 & HF1).
  { intros j st Hj. destruct (Hids j st Hj) as (id & ? & ?). exists id. by rewrite Hh. }
  destruct (same_config_fields y y1 HC1) as (N1 & _).
  destruct (get_n_kv_total n y1 si k m (pn_wf _ _ Hy1)) as [r Hr]; [rewrite N1; by apply (fits_shape n y)|].
  assert (ctx_apply copy_stream run_shift (mkCtx LLAMA_MEMORY_STATUS_SUCCESS b i (length pus) (psis ++ si :: sis) (pus ++ u :: us) nk) y d =
    Some (mkCtx LLAMA_MEMORY_STATUS_SUCCESS b i (length pus) (psis ++ si :: sis) (pus ++ u :: us) r, y1, d)) as ->.
  { unfold ctx_apply. rewrite (c_assert_true _) by done. cbn [mbind option_bind c_ubatches c_sinfos c_i_cur c_status c_do_shift c_sc_info].
    pose proof (list_lookup_middle pus us u _ eq_refl) as Hu. destruct (pus ++ u :: us) as [|u0 l]; [done|].
    rewrite (list_lookup_middle psis sis si) by done. cbn [mbind option_bind]. rewrite Hu. cbn [mbind option_bind].
    rewrite Happ. cbn [mbind option_bind]. by rewrite Hr. }
  cbn [mbind option_bind]. unfold ctx_next. rewrite (c_assert_true _) by done. cbn [mbind option_bind c_i_cur c_ubatches].
  assert (same_view y1 c1) as Hv1 by (by apply (fills_view si u m y y1 c c1)).
  assert (same_config c1 y1) as Hcy1.
  { destruct HC as (? & ? & ? & ->), Hcy as (? & ? & ? & ->), HC1 as (? & ? & ? & ->). by eexists _, _, _. }
  rewrite length_app. destruct us as [|u' us].
  - rewrite bool_decide_true by (simpl; lia). cbn [negb]. exists y1. split_and!; [done..|].
    inversion Ht; subst. done.
  - rewrite bool_decide_false by (simpl; lia). cbn [negb].
    destruct (IH y1 (pus ++ [u]) (psis ++ [si]) b i r d fuel Hy1 Hcy1 Hv1) as (y2 & Hrun & Hy2 & HC2 & Hv2);
      [done|rewrite !length_app; simpl; lia|simpl in *; lia|].
    rewrite <- !app_assoc, length_app, Nat.add_1_r in Hrun. exists y2. split_and!; [done|done|by eapply same_config_trans|done].
Qed.

End Replay.

Section Adds.
Context `{BM : BuildMode}.

(** What a trail adds: the positions of its tokens. *)
Lemma fills_holds n c u si k m c' s p : plain n c -> placeable c u k m -> slot_fits n c si k m ->
  (forall j st, strm si !! j = Some st -> exists id, B.u_seq_id_unq u !! j = Some id /\ home c id = Some st) ->
  same_config c c' -> fills si u m c c' -> kv_holds c' s p <-> kv_holds c s p \/ brings u s p.
Proof.
  intros Hp Hpl Hsf Hids HC [HA HB]. destruct (same_config_fields c c' HC) as (_ & _ & _ & Hh).
  pose proof (pl_fits _ _ _ _ Hpl) as Hft. unfold kv_holds. split.
  - intros (st & i & q & Hst & Hv & Hs). rewrite Hh in Hst. destruct (slot_at_dec si st i) as [(r & j & Hat)|Hno].
    + right. destruct (HA r j st i Hat) as [_ Hc]. rewrite Hc in Hv.
      pose proof (slot_in_coords n c si k m r j st i Hsf Hat) as [Hr Hj]%elem_of_coords. unfold tok_cell in Hv. inv_opt Hv. simplify_eq.
      exists (r * m + j), l. split; [rewrite (ft_tokens _ _ _ _ Hft); nia|]. split_and!; [done|done|set_solver].
    + left. exists st, i, q. split_and!; [done| |done]. by rewrite <- HB.
  - intros [(st & i & q & Hst & Hv & Hs)|(t & ids & Ht & Hpos & Hids' & Hs)].
    + exists st, i, q. rewrite Hh. split_and!; [done| |done]. destruct (slot_at_dec si st i) as [(r & j & Hat)|Hno]; [|by rewrite HB].
      destruct (HA r j st i Hat) as [Hv' _]. congruence.
    + destruct (ft_pos _ _ _ _ Hft) as [Hk Hm]. rewrite (ft_tokens _ _ _ _ Hft) in Ht.
      set (r := t / m). set (j := t mod m). assert (t = r * m + j) as Htr by (unfold r, j; pose proof (Nat.div_mod t m ltac:(lia)); lia).
      assert (j < m) as Hj by (apply Nat.mod_upper_bound; lia). assert (r < k) as Hr by (apply Nat.Div0.div_lt_upper_bound; lia).
      destruct (lookup_lt_is_Some_2 (strm si) r) as [st Hst]; [by rewrite (sf_strm _ _ _ _ _ Hsf)|].
      destruct (lookup_lt_is_Some_2 (idxs si) r) as [row Hrow]; [by rewrite (sf_idxs _ _ _ _ _ Hsf)|].
      destruct (sf_row _ _ _ _ _ Hsf r st row Hst Hrow) as (_ & Hlr & _). destruct (lookup_lt_is_Some_2 row j) as [i Hi]; [by rewrite Hlr|].
      destruct (HA r j st i) as [_ Hv]; [split; [done|by exists row]|]. rewrite <- Htr in Hv.
      destruct (Hids r st Hst) as (id & Hid & Hho). destruct (pl_toks _ _ _ _ Hpl r j id st Hr Hj Hid Hho) as (p' & ids' & H1 & _ & H2 & _ & _ & _ & Hin & _).
      rewrite <- Htr in H1, H2. simplify_eq. exists st, i, (list_to_set ids). rewrite Hh. split_and!; [by apply Hin| |set_solver].
      rewrite Hv. unfold tok_cell. rewrite Hpos. cbn [mbind option_bind]. by rewrite Hids'.
Qed.

Lemma trail_holds n c us sis xs c' s p : trail n c us sis xs c' ->
  kv_holds c' s p <-> kv_holds c s p \/ exists u, u ∈ us /\ brings u s p.
Proof.
  induction 1 as [c _|c c1 c2 u us si sis x xs k m Hp Hpl Hsf Hids Hsv HC HF Ht IH].
  - split; [by left|]. intros [?|(u & Hu & _)]; [done|]. by apply not_elem_of_nil in Hu.
  - rewrite IH, (fills_holds n c u si k m c1 s p) by done. setoid_rewrite elem_of_cons. naive_solver.
Qed.

Lemma same_view_holds c c' s p : same_config c c' -> same_view c c' -> kv_holds c s p <-> kv_holds c' s p.
Proof.
  intros HC Hv. destruct (same_config_fields c c' HC) as (_ & _ & _ & Hh). unfold kv_holds. split.
  - intros (st & i & q & Hst & H & Hs). exists st, i, q. by rewrite Hh, <- Hv.
  - intros (st & i & q & Hst & H & Hs). exists st, i, q. by rewrite <- Hh, Hv.
Qed.
End Adds.


(** * The properties *)

Section Properties.
Context `{BM : BuildMode}.

Lemma prepare_trail n c us : plain n c -> us <> [] -> Forall (fun u => exists k m, placeable c u k m) us ->
  exists sis c', prepare us c = Some (sis, c') /\ plain n c' /\ same_config c c' /\ same_view c' c /\
    ((sis = [] /\ exists st, length (free_cells n c st) < demands c us st) \/
     (sis <> [] /\ exists xs c1, trail n c us sis xs c1)).
Proof.
  intros Hp Hne Hall. destruct (place_all_trail n us c [] [] Hp Hall) as (ud & todo & sis & xs & ok & c1 & Hrun & -> & Ht & Hok).
  unfold prepare. rewrite Hrun. cbn [mbind option_bind app]. destruct (trail_config n c ud sis xs c1 Ht) as (_ & Hp1 & HC1 & Hl).
  rewrite (ggml_assert_true _); cbn [mbind option_bind].
  2:{ destruct ok; [|by rewrite orb_true_r]. subst todo. rewrite bool_decide_false; [done|]. inversion Ht; subst; [by rewrite app_nil_r in Hne|done]. }
  destruct (trail_restore n c ud sis xs c1 Ht c1 (pn_wf _ _ Hp1) HC1 (pn_shift _ _ Hp1)) as (c' & -> & W & C & U & V); [done|].
  cbn [mbind option_bind]. assert (same_config c c') as HC by (by eapply same_config_trans).
  destruct (same_config_fields c c' HC) as (_ & Hn & Hty & _).
  assert (plain n c') as Hp'.
  { split; [done|rewrite Hn, Hty; apply Hp|apply Hp| |done]. intros st i p q. rewrite V. apply (pn_room _ _ Hp). }
  destruct ok.
  - subst todo. rewrite app_nil_r in *. exists sis, c'. split_and!; [done..|]. right. split; [|eauto].
    intros ->. destruct ud; [done|discriminate Hl].
  - destruct Hok as (u & rest & st & -> & Hlt). exists [], c'. split_and!; [done..|]. left. split; [done|]. exists st.
    rewrite (trail_free n c ud sis xs c1 st Ht). unfold demands. rewrite sum_list_with_app. simpl.
    assert (demand c1 u st = demand c u st) as Hd by (by destruct HC1 as (? & ? & ? & ->)). lia.
Qed.

(** Preparing the slots of a batch, and applying them if there are any. *)
Lemma prepare_then_process n c us {D : Type} (copy_stream : nat -> nat -> D -> D) (run_shift : llama_kv_cache -> D -> option D) (d : D) :
  plain n c -> us <> [] -> Forall (fun u => exists k m, placeable c u k m) us ->
  exists sis c1, prepare us c = Some (sis, c1) /\ plain n c1 /\ same_config c c1 /\ same_view c1 c /\
    ((sis = [] /\ exists st, length (free_cells n c st) < demands c us st) \/
     (sis <> [] /\ (forall st, demands c us st <= length (free_cells n c st)) /\
      exists c2, process copy_stream run_shift (length us) (ctx_batch sis us) c1 d = Some (c2, d) /\ wf_kv n c2 /\ same_config c c2 /\
        forall s p, kv_holds c2 s p <-> kv_holds c s p \/ exists u, u ∈ us /\ brings u s p)).
Proof.
  intros Hp Hne Hall. destruct (prepare_trail n c us Hp Hne Hall) as (sis & c1 & Hrun & Hp' & HC & HV & Hcase).
  exists sis, c1. split_and!; [done..|]. destruct Hcase as [?|(Hs & xs & c3 & Ht)]; [by left|right]. split; [done|].
  split; [intros st; rewrite (trail_free n c us sis xs c3 st Ht); lia|].
  destruct (process_trail copy_stream run_shift n c us sis xs c3 Ht c1 [] [] false (mkCopyInfo [] []) 0 d (length us)) as (c2 & Hpr & Hp2 & HC2 & HV2);
    [done..|].
  exists c2. split_and!; [exact Hpr|apply Hp2|by eapply same_config_trans|]. intros s p.
  destruct (trail_config n c us sis xs c3 Ht) as (_ & _ & HC3 & _).
  rewrite <- (trail_holds n c us sis xs c3 s p Ht). apply same_view_holds; [|done].
  destruct HC as (? & ? & ? & ->), HC2 as (? & ? & ? & ->), HC3 as (? & ? & ? & ->). by eexists _, _, _.
Qed.

(** C6: [prepare] on a cache without a window terminates, keeps the content of
    every cell (whatever it tried to place is taken back), and returns slots
    exactly when every stream has enough empty cells for all the tokens that the
    ubatches bring to it. *)
Theorem prepare_correct (n : nat) (c : llama_kv_cache) (us : list B.llama_ubatch) :
  plain n c -> us <> [] -> Forall (fun u => exists k m, placeable c u k m) us ->
  exists sis c', prepare us c = Some (sis, c') /\ wf_kv n c' /\ same_config c c' /\
    (forall st i, kv_view c' st i = kv_view c st i) /\
    (sis <> [] <-> forall st, demands c us st <= length (free_cells n c st)).
Proof.
  intros Hp Hne Hall. destruct (prepare_then_process n c us (fun _ _ d => d) (fun _ d => Some d) tt Hp Hne Hall) as (sis & c' & Hrun & Hp' & HC & HV & Hcase).
  exists sis, c'. split_and!; [done|apply Hp'|done|done|].
  destruct Hcase as [(-> & st & Hlt)|(Hs & Hroom & _)]; split; intros H; try done. specialize (H st). lia.
Qed.

(** C7: the slots [prepare] returns can be used: applying the batch context made
    of them, one ubatch after the other, runs to the end without an assertion
    failing, and afterwards every sequence holds exactly the positions it held
    before and those of its new tokens. *)
Theorem prepared_batch_applies (n : nat) (c : llama_kv_cache) (us : list B.llama_ubatch) (sis : list slot_info) (c1 : llama_kv_cache)
    {D : Type} (copy_stream : nat -> nat -> D -> D) (run_shift : llama_kv_cache -> D -> option D) (d : D) :
  plain n c -> us <> [] -> Forall (fun u => exists k m, placeable c u k m) us ->
  prepare us c = Some (sis, c1) -> sis <> [] ->
  exists c2, process copy_stream run_shift (length us) (ctx_batch sis us) c1 d = Some (c2, d) /\ wf_kv n c2 /\ same_config c c2 /\
    forall s p, kv_holds c2 s p <-> kv_holds c s p \/ exists u, u ∈ us /\ brings u s p.
Proof.
  intros Hp Hne Hall Hrun Hs. destruct (prepare_then_process n c us copy_stream run_shift d Hp Hne Hall) as (sis' & c' & Hrun' & _ & _ & _ & Hcase).
  rewrite Hrun in Hrun'. injection Hrun' as <- <-. by destruct Hcase as [(? & _)|(_ & _ & Hc)].
Qed.
End Properties.

(** ** On a concrete cache *)

(** A new cache with four cells. *)
Definition demo_new : llama_kv_cache :=
  mkKv 1 1 0 LLAMA_SWA_TYPE_NONE 1 true false false 8 [0] [resize 4 cells_new] (replicate (Z.to_nat LLAMA_MAX_SEQ) 0) (mkCopyInfo [] []).

Lemma demo_new_view st i : kv_view demo_new st i = None.
Proof.
  destruct st as [|st]; [|by destruct st]. change (view (resize 4 cells_new) i = None). apply reset_view.
Qed.

Lemma demo_new_home s : (0 <= s < LLAMA_MAX_SEQ)%Z -> home demo_new s = Some 0.
Proof. exact (demo_home s). Qed.

Lemma demo_plain : plain 4 demo_new.
Proof.
  split; [|split; [done|cbn; unfold INT32_MAX; lia]|lia| |].
  - split; cbn [n_stream v_cells v_heads demo_new seq_to_stream].
    + done.
    + done.
    + by left.
    + intros [|st] cells Hc; [|by destruct st]. injection Hc as <-. split; [by apply resize_wf|apply resize_size].
    + intros [|st] h Hh; [injection Hh as <-; lia|by destruct st].
    + intros st i p q. by rewrite demo_new_view.
  - intros st i p q. by rewrite demo_new_view.
  - intros [|st] cells Hc; [|by destruct st]. injection Hc as <-. intros i h Hh.
    assert (shift (resize 4 cells_new) = replicate 4 0%Z) as Hd by by_eval. rewrite Hd in Hh. by apply lookup_replicate in Hh as [-> _].
Qed.

Lemma demo_placeable : Forall (fun u => exists k m, placeable demo_new u k m) [demo_ubatch].
Proof.
  constructor; [|constructor]. exists 1, 2. split; [destruct demo_fits as [F1 F2 F3 F4 F5 F6]; exact (Build_fits demo_new demo_ubatch 1 2 F1 F2 F3 F4 F5 F6)|]. intros s j id st Hs Hj Hid Hst.
  assert (s = 0) as -> by lia. destruct (home_range (pn_wf _ _ demo_plain) id st Hst) as (_ & Hlt & _). cbn in Hlt. assert (st = 0) as -> by lia.
  destruct demo_toks_ok as [_ H]. by apply (H 0 j 0).
Qed.

Lemma prepare_correct_witness :
  exists sis c', prepare (BM := debug_build) [demo_ubatch] demo_new = Some (sis, c') /\ wf_kv 4 c' /\
    forall st i, kv_view c' st i = None.
Proof.
  destruct (prepare_correct (BM := debug_build) 4 demo_new [demo_ubatch] demo_plain ltac:(discriminate) demo_placeable)
    as (sis & c' & H1 & H2 & _ & H3 & _). exists sis, c'. split; [exact H1|]. split; [exact H2|].
  intros st i. rewrite H3. apply demo_new_view.
Defined.

Example prepare_demo : fst <$> prepare (BM := debug_build) [demo_ubatch] demo_new = Some [mkSlot 0 0 [0] [[0; 1]]].
Proof. by vm_compute. Qed.

Lemma prepared_batch_applies_witness :
  exists sis c1 c2, prepare (BM := debug_build) [demo_ubatch] demo_new = Some (sis, c1) /\
    process (BM := debug_build) (fun _ _ d => d) (fun _ d => Some d) 1 (ctx_batch sis [demo_ubatch]) c1 tt = Some (c2, tt) /\ kv_holds c2 1 4.
Proof.
  destruct (prepare (BM := debug_build) [demo_ubatch] demo_new) as [[sis c1]|] eqn:E.
  2:{ exfalso. pose proof prepare_demo as H. rewrite E in H. discriminate H. }
  destruct (prepared_batch_applies (BM := debug_build) 4 demo_new [demo_ubatch] sis c1 (fun _ _ d => d) (fun _ d => Some d) tt
    demo_plain ltac:(discriminate) demo_placeable E) as (c2 & H1 & _ & _ & H2).
  { intros ->. pose proof prepare_demo as H. rewrite E in H. discriminate H. }
  exists sis, c1, c2. split; [reflexivity|]. split; [exact H1|]. apply H2. right. exists demo_ubatch. split; [by left|].
  exists 1, [1%Z]. split; [simpl; lia|]. split; [reflexivity|]. split; [reflexivity|by left].
Defined.

(** With a window, [prepare] does not always restore the cells: sequence 0 has
    positions 0, 1, 5 and 6 in a window of 2, and its next token is placed over
    position 1. The purge of [apply_ubatch] then removes position 0, whose cell
    is not part of the slot, and is not brought back. *)
Definition demo_windowed : option llama_kv_cache :=
  cells ← runb (BM := debug_build) [OpPosSet 0 0; OpSeqAdd 0 0; OpPosSet 1 1; OpSeqAdd 1 0; OpPosSet 2 5; OpSeqAdd 2 0; OpPosSet 3 6; OpSeqAdd 3 0]
            (resize 4 cells_new);
  Some (mkKv 1 1 2 LLAMA_SWA_TYPE_STANDARD 1 true false false 8 [1] [cells] (replicate (Z.to_nat LLAMA_MAX_SEQ) 0) (mkCopyInfo [] [])).

Definition next_token : B.llama_ubatch :=
  B.mkUbatch false 1 1 1 1 1 (Some [7]%Z) None [7]%Z [1]%Z [[0]]%Z [0]%Z [] [1]%Z.

Lemma prepare_window_loses_position :
  (c ← demo_windowed; '(sis, c') ← prepare (BM := debug_build) [next_token] c;
   Some (map idxs sis, kv_view c 0 0, kv_view c' 0 0, kv_view c' 0 1)) =
  Some ([[[1]]], Some (0%Z, {[0%Z]} : gset Z), None, Some (1%Z, {[0%Z]} : gset Z)).
Proof. by vm_compute. Qed.


End KvPrepare.
