(* ===== verification/KvWindow.v ===== *)
(** Preparing a batch in a cache with a sliding window: [prepare] may remove
    positions that the window no longer needs, since it saves only the cells of its
    slots, but it adds none and leaves the cache ready. *)

From S2P Require Import Prelude.
From S2P Require Import KvCells.
From S2P Require Import Batch.
From S2P Require Import KvCache.
From S2P Require Import KvOps.
From S2P Require Import KvSlot.
From S2P Require Import KvPrepare.
Import KvCells.Cells KvCache.Kv KvOps.KvOps KvSlot.KvSlot KvPrepare.KvPrepare.

Module KvWindow.

(** Slots can be searched in the cache, and saved. *)
Record windowed (n : nat) (c : llama_kv_cache) : Prop := {
  wd_wf     : wf_kv n c;
  wd_search : search_ok c;
  wd_shift  : kv_unshifted c;
}.

(** Every cell of [d] holds at most what it holds in [c]. *)
Definition below (d c : llama_kv_cache) : Prop := forall st i s p, has (kv_view d st i) s p -> has (kv_view c st i) s p.

#[global] Instance below_preorder : PreOrder below.
Proof. split; [by intros c st i s p|]. intros c1 c2 c3 H1 H2 st i s p H. by apply H2, H1. Qed.

Lemma same_view_below c d : same_view d c -> below d c.
Proof. intros Hv st i s p. by rewrite Hv. Qed.

(** A cell that is not empty has a sequence. *)
Lemma view_has n c st i p q : wf_kv n c -> kv_view c st i = Some (p, q) -> exists s, has (kv_view c st i) s p.
Proof.
  intros Hw Hv. destruct (kw_own _ _ Hw st i p q Hv) as [Hne _]. apply set_choose_L in Hne as [s Hs]. exists s, q. by split.
Qed.

(** Positions with room are all the search asks of the content. *)
Lemma search_from n c d : wf_kv n c -> wf_kv n d -> same_config c d -> search_ok c ->
  (forall st i s p, has (kv_view d st i) s p -> (p < INT32_MAX)%Z) -> search_ok d.
Proof.
  intros Wc Wd HC Hs Hroom st cells Hd. destruct (same_config_fields c d HC) as (N & Hn & Hty & _). destruct (kw_wf _ _ Wd _ _ Hd) as [Hw Hsz].
  assert (st < n_stream d) as Hst by (rewrite <- (kw_cells _ _ Wd); by eapply lookup_lt_Some).
  destruct (stream_cells Wc st) as (cells0 & _ & Hc & _ & _ & Hsz0 & _); [by rewrite <- N|]. destruct (Hs st cells0 Hc) as (_ & _ & Hswa & Hsize).
  unfold searchable. rewrite Hn, Hty, Hsz. rewrite Hsz0 in Hsize. split_and!; [done| |done|done].
  intros i p q Hv. rewrite <- (view_kv st cells) in Hv by done. destruct (view_has n d st i p q Wd Hv) as [s Hh]. by eapply Hroom.
Qed.

Lemma search_room c st i s p : search_ok c -> has (kv_view c st i) s p -> (p < INT32_MAX)%Z.
Proof.
  intros Hs (q & Hv & _). unfold kv_view in Hv. destruct (v_cells c !! st) as [cells|] eqn:Hc; [|done]. destruct (Hs st cells Hc) as (_ & Hroom & _). by eapply Hroom.
Qed.

Lemma windowed_below n c d : windowed n c -> wf_kv n d -> same_config c d -> kv_unshifted d -> below d c -> windowed n d.
Proof.
  intros [W S U] Wd HC Ud Hb. split; [done| |done]. eapply search_from; [exact W|done..|]. intros st i s p Hh. eapply search_room; [exact S|by apply Hb].
Qed.

Lemma below_holds c d s p : same_config c d -> below d c -> kv_holds d s p -> kv_holds c s p.
Proof.
  intros HC Hb (st & i & q & Hst & Hv & Hs). destruct (same_config_fields c d HC) as (_ & _ & _ & Hh). rewrite Hh in Hst.
  destruct (Hb st i s p) as (q' & Hv' & Hs'); [by exists q|]. by exists st, i, q'.
Qed.

Section Place.
Context `{BM : BuildMode}.

(** Applying a ubatch keeps the cache ready, and outside of its slot cells only
    lose sequences. *)
Lemma apply_windowed n c u si k m : windowed n c -> placeable c u k m -> slot_fits n c si k m ->
  (forall j st, strm si !! j = Some st -> exists id, B.u_seq_id_unq u !! j = Some id /\ home c id = Some st) ->
  exists c', apply_ubatch si u c = Some c' /\ windowed n c' /\ same_config c c' /\
    forall st i, (forall s j, ~ slot_at si s j st i) -> forall t p, has (kv_view c' st i) t p -> has (kv_view c st i) t p.
Proof.
  intros [Hw Hso Hu] Hpl Hsf Hids. destruct (ft_pos _ _ _ _ (pl_fits _ _ _ _ Hpl)) as [Hk Hm].
  pose proof (placeable_toks _ _ _ _ _ Hpl Hids) as Hto.
  destruct (apply_ok n c u si k m Hw Hso Hk Hm Hsf Hto) as (c' & Happ & [W C S _ (mx & _ & Hmx) _]).
  exists c'. split; [done|]. split; [|split; [done|]].
  - split; [done| |by apply S]. eapply search_from; [exact Hw|done..|]. intros st i t p Hh. destruct (slot_at_dec si st i) as [(s & j & Hat)|Hno].
    + destruct (proj1 (Hmx st i (tok_cell u (s * m + j)) t p (or_introl (ex_intro _ s (ex_intro _ j (conj Hat eq_refl))))) Hh) as [(q & Hq & _) _].
      pose proof (slot_in_coords n c si k m s j st i Hsf Hat) as [? ?]%elem_of_coords. destruct Hat as [Hst _].
      destruct (proj2 Hto s j st) as (p' & ids & Hp & Hr & Hi & _); [done..|]. unfold tok_cell in Hq. rewrite Hp in Hq. cbn [mbind option_bind] in Hq. rewrite Hi in Hq. injection Hq as -> _. lia.
    + destruct (proj1 (Hmx st i (kv_view c st i) t p (or_intror (conj Hno eq_refl))) Hh) as [Hh' _]. by eapply search_room.
  - intros st i Hno t p Hh. by destruct (proj1 (Hmx st i _ t p (or_intror (conj Hno eq_refl))) Hh).
Qed.

(** The loop over the ubatches, and taking back what it placed: from any cache
    that holds at most what the loop ends with. *)
Lemma place_all_below n us : forall c res states, windowed n c -> Forall (fun u => exists k m, placeable c u k m) us ->
  exists res' xs ok c', place_all us res states c = Some (res', states ++ xs, ok, c') /\ windowed n c' /\ same_config c c' /\
    (ok = true -> length xs = length us /\ length res' = length res + length us) /\
    forall d, wf_kv n d -> same_config c d -> kv_unshifted d -> below d c' ->
      exists d', foldM restore_state (rev xs) d = Some d' /\ wf_kv n d' /\ same_config c d' /\ kv_unshifted d' /\ below d' c.
Proof.
  induction us as [|u us IH]; intros c res states Hc Hall; cbn [place_all].
  { exists res, [], true, c. rewrite app_nil_r. split_and!; [done|done|apply same_config_refl|intros _; cbn; lia|]. intros d Wd HC Ud Hb. by exists d. }
  apply Forall_cons in Hall as [(k & m & Hpl) Hall].
  destruct (find_slot_ok n c u false k m (wd_wf _ _ Hc) (pl_fits _ _ _ _ Hpl) (wd_search _ _ Hc)) as (si & -> & Hsi). cbn [mbind option_bind].
  destruct Hsi as [(Hemp & _)|(Hemp & Hsf & Hids & _)]; rewrite Hemp.
  { exists res, [], false, c. rewrite app_nil_r. split_and!; [done|done|apply same_config_refl|done|]. intros d Wd HC Ud Hb. by exists d. }
  destruct (save_ok n c si k m (wd_wf _ _ Hc) (wd_shift _ _ Hc) (fits_shape _ _ _ _ _ Hsf)) as (x & -> & Hx). cbn [mbind option_bind].
  destruct (apply_windowed n c u si k m Hc Hpl Hsf Hids) as (c1 & -> & Hc1 & HC & Hout). cbn [mbind option_bind].
  destruct (IH c1 (res ++ [si]) (states ++ [x]) Hc1) as (res' & xs & ok & c' & -> & Hc' & HC' & Hlen & Hback).
  { eapply Forall_impl; [exact Hall|]. intros u' (k' & m' & H). exists k', m'. by apply (placeable_config c). }
  exists res', (x :: xs), ok, c'. rewrite <- app_assoc. split_and!; [done|done|exact (same_config_trans _ _ _ HC HC')| |].
  { intros Hok. destruct (Hlen Hok) as [H1 H2]. rewrite length_app in H2. cbn in *. lia. }
  intros d Wd HCd Ud Hb. destruct (Hback d Wd) as (d1 & Hrun & W1 & C1 & U1 & B1); [|done..|].
  { destruct HC as (? & ? & ? & ->), HCd as (? & ? & ? & ->). by eexists _, _, _. }
  pose proof (same_config_trans _ _ _ HC C1) as Hcd1.
  destruct (restore_ok n c d1 si x k m (wd_wf _ _ Hc) W1 Hcd1 U1) as (d2 & Hd2 & W2 & C2 & U2 & HA & HB); [|done|].
  { destruct (same_config_fields c d1 Hcd1) as (-> & _). by apply (fits_shape n c). }
  exists d2. cbn [rev]. rewrite foldM_app, Hrun. cbn [mbind option_bind foldM]. rewrite Hd2. split_and!; [done|done|exact (same_config_trans _ _ _ Hcd1 C2)|done|].
  intros st i s p Hh. destruct (slot_at_dec si st i) as [(r & j & Hat)|Hno].
  - by rewrite (HA r j st i Hat) in Hh.
  - rewrite (HB st i Hno) in Hh. apply (Hout st i Hno). by apply B1.
Qed.

(** [prepare] answers, and what it leaves is below what was there. *)
Lemma prepare_below n c us : windowed n c -> us <> [] -> Forall (fun u => exists k m, placeable c u k m) us ->
  exists sis c', prepare us c = Some (sis, c') /\ windowed n c' /\ same_config c c' /\ below c' c /\ (sis = [] \/ length sis = length us).
Proof.
  intros Hc Hne Hall. destruct (place_all_below n us c [] [] Hc Hall) as (res & xs & ok & c1 & Hrun & Hc1 & HC1 & Hlen & Hback).
  unfold prepare. rewrite Hrun. cbn [mbind option_bind app]. rewrite (ggml_assert_true _); cbn [mbind option_bind].
  2:{ destruct ok; [|by rewrite orb_true_r]. destruct (Hlen eq_refl) as [Hl _]. rewrite bool_decide_false; [done|]. destruct us; [done|]. rewrite Hl. done. }
  destruct (Hback c1 (wd_wf _ _ Hc1) HC1 (wd_shift _ _ Hc1)) as (c' & -> & W & C & U & Hb); [done|]. cbn [mbind option_bind].
  pose proof (windowed_below n c c' Hc W C U Hb). destruct ok; [exists res, c'|exists [], c']; (split; [done|]); split_and!; try done; [|by left].
  right. by destruct (Hlen eq_refl).
Qed.

End Place.
End KvWindow.
