(* ===== verification/KvBatch.v ===== *)
(** Decoding a batch, from the caller's arrays to the cache: the batch allocator
    validates the batch against the cache, the cache splits it and prepares the
    slots ([llama_kv_cache::init_batch] of [llama_cpp_repo/src/llama-kv-cache.cpp]),
    and the caller applies the ubatches one after the other. *)

From S2P Require Import Prelude.
From S2P Require Import KvCells.
From S2P Require Import Memory.
From S2P Require Import Batch.
From S2P Require Import KvCache.
From S2P Require Import KvOps.
From S2P Require Import KvSlot.
From S2P Require Import KvPrepare.
Import KvCells.Cells Memory.Memory KvCache.Kv KvOps.KvOps KvSlot.KvSlot KvPrepare.KvPrepare.

Module KvBatch.

(** What the allocator does not check: positions leave room for the next one and
    are not negative, and no token names a sequence twice. *)
Record decodable (b : B.llama_batch) : Prop := {
  dc_pos : forall i p, i < B.b_n_tokens b -> B.batch_pos i b = Some p -> (0 <= p < INT32_MAX)%Z;
  dc_ids : forall i ids, i < B.b_n_tokens b -> B.batch_ids i b = Some ids -> NoDup ids;
}.

Lemma batch_ids_count i b ids : B.batch_ids i b = Some ids -> ids <> [] -> B.batch_n_seq_id i b = Some (Z.of_nat (length ids)).
Proof.
  unfold B.batch_ids. destruct (B.batch_n_seq_id i b) as [n|]; [|done]. cbn [mbind option_bind]. destruct (B.batch_seq_id i b) as [l|]; [|done]. cbn [mbind option_bind].
  case_bool_decide as H; [|done]. intros [= <-] Hne. rewrite length_take. assert (0 < Z.to_nat n) by (destruct (Z.to_nat n); [by rewrite take_0 in Hne|lia]). f_equal. lia.
Qed.

(** A run of positions without a gap. *)
Definition gapless (P : Z -> Prop) : Prop := forall p q r, P p -> P r -> (p <= q <= r)%Z -> P q.

Section Decode.
Context `{BM : BuildMode} (n : nat) (c : llama_kv_cache) (Hp : plain n c) (H1 : n_stream c = 1).

Lemma home_one s : (0 <= s < LLAMA_MAX_SEQ)%Z -> home c s = Some 0.
Proof using Hp H1.
  intros Hs. unfold home. rewrite bool_decide_true by lia. destruct (kw_map _ _ (pn_wf _ _ Hp)) as [[_ ->]|[? _]]; [|lia]. apply lookup_replicate_2. lia.
Qed.

Section Batch.
Context (a : B.llama_batch_allocr) (Hr : B.ready a) (Hd : decodable (B.batch a)) (Hn : B.n_pos_per_embd a = 1).

(** Every token has its position and its distinct sequences. *)
Lemma token_ids i : i < B.get_n_tokens a -> exists s0 ids, B.batch_ids i (B.batch a) = Some (s0 :: ids) /\ NoDup (s0 :: ids) /\
  B.batch_n_seq_id i (B.batch a) = Some (Z.of_nat (length (s0 :: ids))) /\ Forall (fun s => 0 <= s < LLAMA_MAX_SEQ)%Z (s0 :: ids).
Proof using Hr Hd.
  clear Hn Hp H1. intros Hi. destruct (B.r_ids a Hr i Hi) as (s0 & ids & Hids & _ & _ & Hf). exists s0, ids. split; [done|]. split; [by apply (dc_ids _ Hd i)|].
  split; [by apply batch_ids_count|]. eapply Forall_impl; [exact Hf|]. intros s Hs. cbn in Hs. pose proof (B.r_max a Hr). lia.
Qed.

Lemma built_tok_ok u l j : B.built a u l -> (forall i, i ∈ l -> i < B.get_n_tokens a) -> j < length l -> tok_ok c u 0 j.
Proof using Hp H1 Hr Hd Hn.
  intros (Hl & _ & Hids & _ & Hns & Hup & _ & Hpos) Hin Hj. destruct (lookup_lt_is_Some_2 l j Hj) as [i Hi].
  pose proof (Hin i (list_elem_of_lookup_2 _ _ _ Hi)) as Hi'. destruct (token_ids i Hi') as (s0 & ids & Hb & Hnd & Hcount & Hrange).
  destruct (Forall2_lookup_l _ _ _ _ _ (Hpos Hn) Hi) as (p & Hp1 & Hp2). destruct (Forall2_lookup_l _ _ _ _ _ Hids Hi) as (q & Hq1 & Hq2). destruct (Forall2_lookup_l _ _ _ _ _ Hns Hi) as (k & Hk1 & Hk2).
  simplify_eq. exists p, (s0 :: ids). split_and!; [done|by apply (dc_pos _ Hd i)|by apply (dc_pos _ Hd i)|done|congruence|done|done| |].
  - intros id Hid. rewrite Forall_forall in Hrange. by apply home_one, Hrange.
  - unfold B.is_pos_2d. rewrite Hup, Hn. done.
Qed.

Lemma built_placeable u l : B.built a u l -> (forall i, i ∈ l -> i < B.get_n_tokens a) -> l <> [] -> placeable c u 1 (length l).
Proof using Hp H1 Hr Hd Hn.
  intros Hb Hin Hne. assert (0 < length l) as Hpos by (destruct l; [done|cbn; lia]). pose proof Hb as (Hl & _ & Hids & _ & _ & _ & (Hnd & Hunq) & _).
  split; [split|].
  - lia.
  - lia.
  - done.
  - by rewrite H1.
  - intros s Hs. assert (s = 0) as -> by lia. destruct (lookup_lt_is_Some_2 l 0 Hpos) as [i Hi].
    pose proof (Hin i (list_elem_of_lookup_2 _ _ _ Hi)) as Hi'. destruct (token_ids i Hi') as (s0 & ids & Hbi & _).
    destruct (Forall2_lookup_l _ _ _ _ _ Hids Hi) as (q & Hq1 & Hq2). simplify_eq.
    assert (s0 ∈ B.u_seq_id_unq u) as Hs0 by (apply Hunq; exists (s0 :: ids); split; [by eapply list_elem_of_lookup_2|by left]).
    destruct (B.u_seq_id_unq u) as [|id unq] eqn:E; [by apply not_elem_of_nil in Hs0|]. exists id, 0. split; [done|].
    destruct (proj1 (Hunq id) ltac:(by left)) as (q & Hq & Hid). apply list_elem_of_lookup in Hq as [t Ht]. destruct (Forall2_lookup_r _ _ _ _ _ Hids Ht) as (i2 & Hi2 & Hb2).
    destruct (token_ids i2) as (s1 & ids1 & Hb1 & _ & _ & Hf); [by apply Hin; eapply list_elem_of_lookup_2|]. simplify_eq. rewrite Forall_forall in Hf. by apply home_one, Hf.
  - destruct (B.u_seq_id_unq u) as [|id unq]; [constructor|]. apply NoDup_singleton.
  - intros s j id st Hs Hj Hid Hst. assert (s = 0) as -> by lia. cbn [Nat.mul Nat.add]. assert (st = 0) as -> by (destruct (home_range (pn_wf _ _ Hp) id st Hst) as (_ & Hlt & _); lia).
    by apply (built_tok_ok u l).
Qed.

(** The tokens of the ubatches are those of the batch. *)
Lemma brings_batch us idxss s p : Forall2 (B.built a) us idxss -> concat idxss = seq 0 (B.get_n_tokens a) ->
  (exists u, u ∈ us /\ brings u s p) <-> B.batch_holds (B.batch a) s p.
Proof using Hn.
  clear Hp H1 Hr Hd. intros HF Hc. split.
  - intros (u & Hu & t & ids & Ht & Hpt & Hidt & Hs). apply list_elem_of_lookup in Hu as [k Hk]. destruct (Forall2_lookup_l _ _ _ _ _ HF Hk) as (l & Hl & Hl1 & _ & Hids & _ & _ & _ & _ & Hpos).
    rewrite Hl1 in Ht. destruct (lookup_lt_is_Some_2 l t Ht) as [i Hi].
    destruct (Forall2_lookup_l _ _ _ _ _ (Hpos Hn) Hi) as (p' & Hp1 & Hp2). destruct (Forall2_lookup_l _ _ _ _ _ Hids Hi) as (q & Hq1 & Hq2). simplify_eq.
    exists i. split; [|split; [by exists ids|done]]. assert (i ∈ concat idxss) as Hin by (apply list_elem_of_In, in_concat; exists l; rewrite <- !list_elem_of_In; split; by eapply list_elem_of_lookup_2).
    rewrite Hc in Hin. apply elem_of_seq in Hin. unfold B.get_n_tokens in Hin. lia.
  - intros (i & Hi & (ids & Hids & Hs) & Hpos). assert (i ∈ concat idxss) as Hin by (rewrite Hc; apply elem_of_seq; unfold B.get_n_tokens; lia).
    apply list_elem_of_In, in_concat in Hin as (l & Hl & Hil). rewrite <- !list_elem_of_In in *. apply list_elem_of_lookup in Hl as [k Hk]. apply list_elem_of_lookup in Hil as [t Ht].
    destruct (Forall2_lookup_r _ _ _ _ _ HF Hk) as (u & Hu & Hl1 & _ & Hidu & _ & _ & _ & _ & Hposu). exists u. split; [by eapply list_elem_of_lookup_2|].
    destruct (Forall2_lookup_l _ _ _ _ _ (Hposu Hn) Ht) as (p' & Hp1 & Hp2). destruct (Forall2_lookup_l _ _ _ _ _ Hidu Ht) as (q & Hq1 & Hq2). simplify_eq.
    exists t, ids. split; [|done]. rewrite Hl1. by eapply lookup_lt_Some.
Qed.

End Batch.
(** * The whole batch *)

Lemma split_for_one n_ubatch : split_for c n_ubatch = B.split_simple n_ubatch.
Proof using H1. unfold split_for. by rewrite H1. Qed.

Lemma demand_one u st : (exists id, B.u_seq_id_unq u !! 0 = Some id /\ home c id = Some 0) -> demand c u st = if decide (st = 0) then B.u_n_tokens u else 0.
Proof using H1.
  intros (id & Hid & Hh). assert (rows_of c u = 1) as Hrows by (unfold rows_of; by rewrite H1). unfold demand, row_len. rewrite Hrows, Nat.div_1_r.
  assert (home c <$> take 1 (B.u_seq_id_unq u) = [Some 0]) as ->.
  { destruct (B.u_seq_id_unq u) as [|id' unq]; [done|]. injection Hid as ->. change (take 1 (id :: unq)) with [id]. cbn. by rewrite Hh. }
  case_decide as E; [subst st; by rewrite bool_decide_true by (by left)|]. rewrite bool_decide_false; [done|]. intros Hin%list_elem_of_singleton. congruence.
Qed.

(** The ubatches of a ready batch take as many cells of the stream as the batch
    has tokens. *)
Lemma demands_batch a us idxss : B.ready a -> decodable (B.batch a) -> B.n_pos_per_embd a = 1 ->
  Forall2 (fun u l => B.built a u l /\ placeable c u 1 (length l)) us idxss -> demands c us 0 = length (concat idxss) /\ forall st, st <> 0 -> demands c us st = 0.
Proof using Hp H1.
  intros Hr Hd Hn. induction 1 as [|u l us idxss [Hb Hpl] _ [IH0 IH]]; [done|]. destruct (ft_seq _ _ _ _ (pl_fits _ _ _ _ Hpl) 0 ltac:(lia)) as (id & st & Hid & Hst).
  pose proof Hb as (Hl & _).
  assert (st = 0) as -> by (destruct (home_range (pn_wf _ _ Hp) id st Hst) as (_ & Hlt & _); lia).
  cbn [concat]. rewrite length_app. unfold demands in *. cbn [sum_list_with]. split.
  - rewrite IH0, (demand_one u 0), decide_True by eauto. lia.
  - intros st Hne. rewrite (IH st Hne), (demand_one u st), decide_False by eauto. done.
Qed.

(** Splitting, preparing and applying a ready batch. *)
Lemma init_batch_ok a n_ubatch {D : Type} (copy_stream : nat -> nat -> D -> D) (run_shift : llama_kv_cache -> D -> option D) (d : D) :
  B.ready a -> decodable (B.batch a) -> B.n_pos_per_embd a = 1 -> 0 < B.get_n_tokens a ->
  exists x b' c1, init_batch a n_ubatch c = Some (x, b', c1) /\ wf_kv n c1 /\ same_config c c1 /\ same_view c1 c /\
    ((length (free_cells n c 0) < B.get_n_tokens a /\ c_status x = LLAMA_MEMORY_STATUS_FAILED_PREPARE) \/
     (B.get_n_tokens a <= length (free_cells n c 0) /\ c_status x = LLAMA_MEMORY_STATUS_SUCCESS /\
      B.get_out_ids b' = B.outs_of a (seq 0 (B.get_n_tokens a)) /\
      exists c2, process copy_stream run_shift (length (c_ubatches x)) x c1 d = Some (c2, d) /\ wf_kv n c2 /\ same_config c c2 /\
        forall s p, kv_holds c2 s p <-> kv_holds c s p \/ B.batch_holds (B.batch a) s p)).
Proof using Hp H1.
  intros Hr Hd Hn Hpos. unfold init_batch. rewrite split_for_one.
  destruct (B.split_simple_all a n_ubatch Hr) as (us & b' & idxss & Hrun & HF & Hc & Hu & Ho & Hnt).
  change (B.get_n_tokens (B.split_reset a)) with (B.get_n_tokens a). rewrite Hrun. cbn [mbind option_bind].
  assert (forall l i, l ∈ idxss -> i ∈ l -> i < B.get_n_tokens a) as Hin.
  { intros l i Hl Hi. assert (i ∈ concat idxss) as H; [|rewrite Hc in H; apply elem_of_seq in H; lia]. apply list_elem_of_In, in_concat. exists l. by rewrite <- !list_elem_of_In. }
  assert (Forall2 (fun u l => B.built a u l /\ placeable c u 1 (length l)) us idxss) as HP.
  { apply Forall2_same_length_lookup_2; [by eapply Forall2_length|]. intros k u l Hku Hkl. destruct (Forall2_lookup_lr _ _ _ _ _ _ HF Hku Hkl) as (Hb & _ & Hne & _).
    split; [done|]. apply (built_placeable a Hr Hd Hn); [done| |done]. intros i. apply Hin. by eapply list_elem_of_lookup_2. }
  destruct (demands_batch a us idxss Hr Hd Hn HP) as [Hd0 Hdn]. rewrite Hc, length_seq in Hd0.
  assert (us <> []) as Hne by (intros ->; cbn in Hd0; lia).
  assert (Forall (fun u => exists k m, placeable c u k m) us) as Hpl.
  { apply Forall_forall. intros u Hu'. apply list_elem_of_lookup in Hu' as [k Hk]. destruct (Forall2_lookup_l _ _ _ _ _ HP Hk) as (l & _ & _ & ?). by exists 1, (length l). }
  rewrite bool_decide_false by lia.
  destruct (prepare_then_process n c us copy_stream run_shift d Hp Hne Hpl) as (sis & c1 & -> & Hp1 & HC & HV & Hcase). cbn [mbind option_bind].
  destruct Hcase as [(-> & st & Hlt)|(Hs & Hroom & c2 & Hpr & Hw2 & HC2 & Hh)].
  - rewrite bool_decide_true by done. do 3 eexists. split; [reflexivity|]. split_and!; [apply Hp1|done|done|]. left. split; [|done].
    destruct (decide (st = 0)) as [->|Hst]; [lia|]. rewrite (Hdn st Hst) in Hlt. lia.
  - rewrite bool_decide_false by (by destruct sis). do 3 eexists. split; [reflexivity|]. split_and!; [apply Hp1|done|done|]. right. specialize (Hroom 0).
    split; [lia|]. split; [done|]. split; [done|]. exists c2. split_and!; [done..|]. intros s p. rewrite Hh.
    rewrite (brings_batch a Hn us idxss s p); [done| |done]. eapply Forall2_impl; [exact HP|]. by intros u l [? _].
Qed.

End Decode.

(** C8: decoding a batch end to end.  A batch that the allocator accepts against a
    cache with one stream and no window is split, and its slots are prepared, until
    either all is ready or the cache has too few empty cells, in which case its
    content is as before; no assertion fails.  Processing the ubatches then leaves
    every sequence with exactly its old positions and those of the batch, without a
    gap if there was none, and the outputs are those of the marked tokens in
    order. *)
Theorem decode_batch_correct `{BM : BuildMode} (n : nat) (c : llama_kv_cache) (a0 a : B.llama_batch_allocr) (inp : B.llama_batch) (n_vocab nmax : Z) (ne n_ubatch : nat) (out : bool)
    {D : Type} (copy_stream : nat -> nat -> D -> D) (run_shift : llama_kv_cache -> D -> option D) (d : D) :
  plain n c -> n_stream c = 1 -> B.n_pos_per_embd a0 = 1 -> (0 < nmax)%Z -> B.batch_contract inp ne 1 ->
  B.init a0 inp n_vocab (Some c) ne nmax out = Some (true, a) -> decodable (B.batch a) ->
  exists x b' c1, init_batch a n_ubatch c = Some (x, b', c1) /\ (forall st i, kv_view c1 st i = kv_view c st i) /\
    ((length (free_cells n c 0) < B.b_n_tokens inp /\ c_status x = LLAMA_MEMORY_STATUS_FAILED_PREPARE) \/
     (B.b_n_tokens inp <= length (free_cells n c 0) /\ c_status x = LLAMA_MEMORY_STATUS_SUCCESS /\
      B.get_out_ids b' = B.outs_of a (seq 0 (B.b_n_tokens inp)) /\
      exists c2, process copy_stream run_shift (length (c_ubatches x)) x c1 d = Some (c2, d) /\ wf_kv n c2 /\
        (forall s p, kv_holds c2 s p <-> kv_holds c s p \/ B.batch_holds (B.batch a) s p) /\
        forall s, (0 <= s < nmax)%Z -> gapless (kv_holds c s) -> gapless (kv_holds c2 s))).
Proof.
  intros Hp H1 Hn0 Hmax Hc Hinit Hd. rewrite <- Hn0 in Hc. destruct (B.init_inv _ _ _ _ _ _ _ _ Hinit Hmax Hc) as (a2 & -> & Hne & Hnp & Hpos & Hf).
  assert (B.ready (B.split_reset a2)) as Hr by (apply (B.ready_same a2); [by eexists _, _, _|]; eapply B.facts_ready; [done|by rewrite Hnp|done]).
  pose proof (B.g_n _ _ (B.if_gen _ _ _ _ _ Hf)) as Hnt. change (B.b_n_tokens (B.batch a2)) with (B.get_n_tokens (B.split_reset a2)) in Hnt.
  destruct (init_batch_ok n c Hp H1 (B.split_reset a2) n_ubatch copy_stream run_shift d Hr Hd) as (x & b' & c1 & Hrun & _ & _ & HV & Hcase); [cbn; by rewrite Hnp|lia|].
  rewrite Hnt in Hcase. exists x, b', c1. split; [done|]. split; [done|].
  destruct Hcase as [?|(Hle & Hst & Ho & c2 & Hpr & Hw2 & _ & Hh)]; [by left|right]. split_and!; [done..|]. exists c2. split_and!; [done..|].
  intros s Hs Hg p q r HP HR Hq. rewrite Hh in HP, HR |- *.
  assert (forall y, B.batch_holds (B.batch (B.split_reset a2)) s y -> exists lo hi, (forall z, B.batch_holds (B.batch (B.split_reset a2)) s z <-> lo <= z <= hi)%Z /\
    forall z, kv_holds c s z -> kv_holds c s (lo - 1) /\ (z < lo)%Z) as Hrange.
  { intros y Hy. destruct (B.init_ranges _ _ _ _ _ _ _ _ Hinit Hmax Hc ltac:(lia) s y Hs Hy) as (lo & hi & Hb & Hm). exists lo, hi. split; [done|]. intros z Hz.
    apply (Hm c z); [done|by exists n; apply (pn_wf _ _ Hp)| |done]. cbn. destruct (kw_map _ _ (pn_wf _ _ Hp)) as [[_ ->]|[? _]]; [|lia].
    rewrite length_replicate. destruct (B.if_max _ _ _ _ _ Hf). unfold LLAMA_MAX_SEQ in *. lia. }
  destruct HP as [HP|HP], HR as [HR|HR].
  - left. by apply (Hg p q r).
  - destruct (Hrange r HR) as (lo & hi & Hb & Hm). destruct (Hm p HP) as [Hl _]. apply Hb in HR. destruct (decide (q < lo)%Z); [left; apply (Hg p q (lo - 1)%Z); (done || lia)|right; apply Hb; lia].
  - destruct (Hrange p HP) as (lo & hi & Hb & Hm). destruct (Hm r HR). apply Hb in HP. lia.
  - destruct (Hrange p HP) as (lo & hi & Hb & _). right. apply Hb. apply Hb in HP, HR. lia.
Qed.

(** ** On a concrete cache *)

(** Two tokens of sequence 1. *)
Definition demo_batch : B.llama_batch := B.mkBatch 2 (Some [5; 6]%Z) None (Some [0; 1]%Z) (Some [1; 1]%Z) (Some [[1]; [1]]%Z) None.

Definition demo_accepted : option (bool * B.llama_batch_allocr) :=
  B.init (H := kv_memory (BM := debug_build)) (B.new_allocr 1) demo_batch 100 (Some demo_new) 0 2 false.
Definition demo_alloc : B.llama_batch_allocr := default (B.new_allocr 1) (snd <$> demo_accepted).

Lemma demo_accepted_ok : B.init (H := kv_memory (BM := debug_build)) (B.new_allocr 1) demo_batch 100 (Some demo_new) 0 2 false = Some (true, demo_alloc).
Proof.
  change (demo_accepted = Some (true, demo_alloc)). assert (fst <$> demo_accepted = Some true) as H by (vm_compute; reflexivity). unfold demo_alloc.
  destruct demo_accepted as [[b a]|]; [|done]. simpl in *. by injection H as ->.
Qed.

Lemma demo_alloc_batch : B.batch demo_alloc = B.mkBatch 2 (Some [5; 6]%Z) None (Some [0; 1]%Z) (Some [1; 1]%Z) (Some [[1]; [1]]%Z) (Some [0; 1]%Z).
Proof. vm_compute. reflexivity. Qed.

Lemma demo_decodable : decodable (B.batch demo_alloc).
Proof.
  rewrite demo_alloc_batch. split; intros [|[|i]] x Hi Hx; cbn in Hi; try lia; vm_compute in Hx; injection Hx as <-; try (unfold INT32_MAX; lia); apply NoDup_singleton.
Qed.

Lemma demo_batch_contract : B.batch_contract demo_batch 0 1.
Proof.
  split; cbn; intros x; try done; intros [= <-]; cbn; try lia. repeat constructor; lia.
Qed.

(** After the batch, sequence 1 has position 1. *)
Lemma decode_batch_correct_witness :
  exists x b' c1 c2, init_batch (BM := debug_build) demo_alloc 1 demo_new = Some (x, b', c1) /\
    process (BM := debug_build) (fun _ _ d => d) (fun _ d => Some d) (length (c_ubatches x)) x c1 tt = Some (c2, tt) /\ kv_holds c2 1 1.
Proof.
  destruct (decode_batch_correct (BM := debug_build) 4 demo_new (B.new_allocr 1) demo_alloc demo_batch 100 2 0 1 false (fun _ _ d => d) (fun _ d => Some d) tt
    demo_plain eq_refl eq_refl ltac:(lia) demo_batch_contract demo_accepted_ok demo_decodable) as (x & b' & c1 & Hrun & _ & Hcase).
  destruct Hcase as [[Hlt _]|(_ & _ & _ & c2 & Hpr & _ & Hh & _)].
  - exfalso. assert (free_cells 4 demo_new 0 = [0; 1; 2; 3]) as E by (apply filter_all, Forall_forall; intros i _; apply demo_new_view). rewrite E in Hlt. cbn in Hlt. lia.
  - exists x, b', c1, c2. split; [exact Hrun|]. split; [exact Hpr|]. apply Hh. right. rewrite demo_alloc_batch. exists 1. split; [cbn; lia|]. split; [|reflexivity].
    exists [1%Z]. split; [reflexivity|by left].
Defined.

End KvBatch.
