(* ===== verification/KvIswa.v ===== *)
(** The cache of models with interleaved sliding windows: [llama_kv_cache_iswa]
    of [llama_cpp_repo/src/llama-kv-cache-iswa.cpp], a cache for the layers
    without a window and one for the layers with one, side by side. *)

From S2P Require Import Prelude.
From S2P Require Import KvCells.
From S2P Require Import Memory.
From S2P Require Import Batch.
From S2P Require Import KvCache.
Import KvCells.Cells Memory.Memory.

Module K := KvCache.Kv.

Module Iswa.

Record llama_kv_cache_iswa := mkIswa { unified : bool; kv_base : K.llama_kv_cache; kv_swa : K.llama_kv_cache }.

Definition with_base b c := mkIswa (unified c) b (kv_swa c).
Definition with_swa s c := mkIswa (unified c) (kv_base c) s.

(** The constructor; [n_swa] and [ty] are those of the model. *)
Definition new_cache (swa_full unif : bool) (kv_size n_seq_max n_ubatch n_pad : nat) (n_swa : Z) (ty : K.llama_swa_type)
    (npos : nat) (shiftable no_rope trans : bool) (n_embd_v : nat) : option llama_kv_cache_iswa :=
  let size_base := kv_size in
  let want := Z.to_nat (u32_wrap (u32_wrap (n_swa * Z.of_nat (if unif then n_seq_max else 1)) + Z.of_nat n_ubatch)) in
  let size_swa := K.GGML_PAD (min size_base want) 256 in
  let size_swa := if swa_full then size_base else size_swa in
  base ← K.new_cache unif size_base n_seq_max n_pad 0 K.LLAMA_SWA_TYPE_NONE npos shiftable no_rope trans n_embd_v;
  swa ← K.new_cache unif size_swa n_seq_max n_pad n_swa ty npos shiftable no_rope trans n_embd_v;
  Some (mkIswa unif base swa).

Section Ops.
Context `{BM : BuildMode}.

Definition clear (c : llama_kv_cache_iswa) : llama_kv_cache_iswa := mkIswa (unified c) (K.clear (kv_base c)) (K.clear (kv_swa c)).

Definition seq_rm (seq_id p0 p1 : Z) (c : llama_kv_cache_iswa) : option (llama_kv_cache_iswa * bool) :=
  '(b, r0) ← K.seq_rm seq_id p0 p1 (kv_base c);
  '(s, r1) ← K.seq_rm seq_id p0 p1 (kv_swa c);
  Some (mkIswa (unified c) b s, r0 && r1).

(** The same call on both caches. *)
Definition both (f : K.llama_kv_cache -> option K.llama_kv_cache) (c : llama_kv_cache_iswa) : option llama_kv_cache_iswa :=
  b ← f (kv_base c);
  s ← f (kv_swa c);
  Some (mkIswa (unified c) b s).

Definition seq_cp (src dst p0 p1 : Z) := both (K.seq_cp src dst p0 p1).
Definition seq_keep (seq_id : Z) := both (K.seq_keep seq_id).
Definition seq_add (seq_id p0 p1 shift : Z) := both (K.seq_add seq_id p0 p1 shift).
Definition seq_div (seq_id p0 p1 d : Z) := both (K.seq_div seq_id p0 p1 d).

Definition seq_pos_min (seq_id : Z) (c : llama_kv_cache_iswa) : option Z := K.seq_pos_min seq_id (kv_swa c).
Definition seq_pos_max (seq_id : Z) (c : llama_kv_cache_iswa) : option Z := K.seq_pos_max seq_id (kv_swa c).

#[global] Instance iswa_memory : llama_memory_i llama_kv_cache_iswa := {
  mem_clear c := Some (clear c);
  mem_seq_rm := seq_rm;
  mem_seq_cp := seq_cp;
  mem_seq_keep := seq_keep;
  mem_seq_add := seq_add;
  mem_seq_div := seq_div;
  mem_seq_pos_min := seq_pos_min;
  mem_seq_pos_max := seq_pos_max;
}.

Definition get_can_shift (c : llama_kv_cache_iswa) : option bool :=
  if negb (K.can_shift (kv_base c) && K.can_shift (kv_swa c)) then Some false else
  n ← K.get_size (kv_base c);
  m ← K.get_size (kv_swa c);
  Some (bool_decide (n = m)).

(** ** Contexts *)

(** The contexts of the two caches; null pointers after an error. *)
Record llama_kv_cache_iswa_context := mkIswaCtx {
  i_next   : nat;
  ubatches : list B.llama_ubatch;
  ctx_base : option K.llama_kv_cache_context;
  ctx_swa  : option K.llama_kv_cache_context;
  status   : llama_memory_status;
}.

Definition iswa_failed (st : llama_memory_status) : llama_kv_cache_iswa_context := mkIswaCtx 0 [] None None st.

Definition iswa_ctx (us : list B.llama_ubatch) (b s : K.llama_kv_cache_context) : llama_kv_cache_iswa_context :=
  mkIswaCtx 0 us (Some b) (Some s) (llama_memory_status_combine (K.c_status b) (K.c_status s)).

Definition init_full (c : llama_kv_cache_iswa) : option llama_kv_cache_iswa_context :=
  b ← K.ctx_full (kv_base c);
  s ← K.ctx_full (kv_swa c);
  Some (iswa_ctx [] b s).

Definition init_update (c : llama_kv_cache_iswa) : option (llama_kv_cache_iswa_context * llama_kv_cache_iswa) :=
  '(b, base) ← K.init_update (kv_base c);
  '(s, swa) ← K.init_update (kv_swa c);
  Some (iswa_ctx [] b s, mkIswa (unified c) base swa).

(** One [do ... while (false)]: [None] inside is [break]. *)
Definition try_split (split : B.llama_batch_allocr -> option (B.llama_ubatch * B.llama_batch_allocr)) (b : B.llama_batch_allocr) (c : llama_kv_cache_iswa)
    : option (option llama_kv_cache_iswa_context * B.llama_batch_allocr * llama_kv_cache_iswa) :=
  let b := B.split_reset b in
  '(us, b) ← B.split_all (S (B.get_n_tokens b)) split b;
  if bool_decide (B.get_n_used b < B.get_n_tokens b) then Some (None, b, c) else
  '(sinfos_base, base) ← K.prepare us (kv_base c);
  let c := with_base base c in
  if bool_decide (length sinfos_base = 0) then Some (None, b, c) else
  '(sinfos_swa, swa) ← K.prepare us (kv_swa c);
  let c := with_swa swa c in
  if bool_decide (length sinfos_swa = 0) then Some (None, b, c) else
  ASSERT bool_decide (length sinfos_base = length sinfos_swa);
  Some (Some (iswa_ctx us (K.ctx_batch sinfos_base us) (K.ctx_batch sinfos_swa us)), b, c).

Definition init_batch (b : B.llama_batch_allocr) (n_ubatch : nat) (c : llama_kv_cache_iswa)
    : option (llama_kv_cache_iswa_context * B.llama_batch_allocr * llama_kv_cache_iswa) :=
  '(r, b, c) ← (if unified c then try_split (B.split_simple n_ubatch) b c else Some (None, b, c));
  match r with
  | Some x => Some (x, b, c)
  | None =>
      '(r, b, c) ← try_split (B.split_equal n_ubatch (negb (unified c))) b c;
      match r with
      | Some x => Some (x, b, c)
      | None => Some (iswa_failed LLAMA_MEMORY_STATUS_FAILED_PREPARE, b, c)
      end
  end.

Definition next (x : llama_kv_cache_iswa_context) : option (bool * llama_kv_cache_iswa_context) :=
  ASSERT bool_decide (status x = LLAMA_MEMORY_STATUS_SUCCESS);
  b ← ctx_base x;
  '(_, b) ← K.ctx_next b;
  s ← ctx_swa x;
  '(_, s) ← K.ctx_next s;
  let i := S (i_next x) in
  Some (negb (bool_decide (length (ubatches x) <= i)), mkIswaCtx i (ubatches x) (Some b) (Some s) (status x)).

Definition get_ubatch (x : llama_kv_cache_iswa_context) : option B.llama_ubatch :=
  ASSERT bool_decide (status x = LLAMA_MEMORY_STATUS_SUCCESS);
  ubatches x !! i_next x.

Section Apply.
(** The tensors of the two caches and what is done with them, as for one
    cache. *)
Context {D : Type} (copy_stream : nat -> nat -> D -> D) (run_shift : K.llama_kv_cache -> D -> option D).

Definition apply (x : llama_kv_cache_iswa_context) (c : llama_kv_cache_iswa) (d : D * D)
    : option (llama_kv_cache_iswa_context * llama_kv_cache_iswa * (D * D)) :=
  ASSERT negb (llama_memory_status_is_fail (status x));
  b ← ctx_base x;
  '(b, base, d0) ← K.ctx_apply copy_stream run_shift b (kv_base c) (fst d);
  s ← ctx_swa x;
  '(s, swa, d1) ← K.ctx_apply copy_stream run_shift s (kv_swa c) (snd d);
  Some (mkIswaCtx (i_next x) (ubatches x) (Some b) (Some s) (status x), mkIswa (unified c) base swa, (d0, d1)).

End Apply.
End Ops.
End Iswa.
