(* ===== verification/KvIswaOk.v ===== *)
(** The base cache of [llama_kv_cache_iswa] is a superset of its window cache, as
    [seq_pos_min] and [seq_pos_max] assume: an invariant of the sequence operations,
    of the preparation of batches, of the ubatches that are applied, and of the
    updates.  Restoring saved states is in [KvIswaState]. *)

From S2P Require Import Prelude.
From S2P Require Import KvCells.
From S2P Require Import Memory.
From S2P Require Import Batch.
From S2P Require Import KvCache.
From S2P Require Import KvOps.
From S2P Require Import KvSlot.
From S2P Require Import KvPrepare.
From S2P Require Import KvWindow.
From S2P Require Import KvBatch.
From S2P Require Import KvIswa.
Import KvCells.Cells Memory.Memory KvOps.KvOps KvSlot.KvSlot KvPrepare.KvPrepare KvWindow.KvWindow KvBatch.KvBatch KvIswa.Iswa.

Module IswaOk.

(** * The invariant *)

Record wf_iswa (nb ns : nat) (c : llama_kv_cache_iswa) : Prop := {
  wi_base : wf_kv nb (kv_base c);
  wi_swa  : wf_kv ns (kv_swa c);
  wi_map  : K.n_stream (kv_swa c) = K.n_stream (kv_base c) /\ forall s, home (kv_swa c) s = home (kv_base c) s;
  wi_sup  : forall s p, kv_holds (kv_swa c) s p -> kv_holds (kv_base c) s p;
}.

(** The cells of sequence [s] in a range belong to no other sequence. *)
Definition alone (c : K.llama_kv_cache) (s p0 p1 : Z) : Prop :=
  forall st i p q, kv_view c st i = Some (p, q) -> in_range (K.from_p0 p0) (K.to_p1 p1) p -> s ∈ q -> q = {[s]}.

(** When an operation may be called: within the contract of both caches; a shift
    or division moves cells of one sequence only. *)
Definition op_ok (nb ns : nat) (c : llama_kv_cache_iswa) (o : mem_op) : Prop :=
  mem_op_pre nb (kv_base c) o /\ mem_op_pre ns (kv_swa c) o /\
  match o with MSeqAdd s p0 p1 _ | MSeqDiv s p0 p1 _ => alone (kv_base c) s p0 p1 /\ alone (kv_swa c) s p0 p1 | _ => True end.

(** * Sequence operations *)

Section Ops.
Context `{BM : BuildMode}.

Lemma has_add_other t p0 p1 d o s p : s <> t -> (forall x q, o = Some (x, q) -> in_range p0 p1 x -> t ∈ q -> q = {[t]}) -> has (cell_add t p0 p1 d o) s p <-> has o s p.
Proof.
  intros Hne Ho. unfold has, cell_add. destruct o as [[x q']|]; simpl; [|naive_solver]. destruct (decide (in_range p0 p1 x /\ t ∈ q')) as [[Hr Ht]|Hr].
  - rewrite (Ho x q' eq_refl Hr Ht). case_decide; split; try (by intros (q & [=] & _)); intros (q & [= <- <-] & ->%elem_of_singleton); done.
  - done.
Qed.

Lemma has_div_other t p0 p1 d o s p : s <> t -> (forall x q, o = Some (x, q) -> in_range p0 p1 x -> t ∈ q -> q = {[t]}) -> has (cell_div t p0 p1 d o) s p <-> has o s p.
Proof.
  intros Hne Ho. unfold has, cell_div. destruct o as [[x q']|]; simpl; [|naive_solver]. destruct (decide (in_range p0 p1 x /\ t ∈ q')) as [[Hr Ht]|Hr].
  - rewrite (Ho x q' eq_refl Hr Ht). split; intros (q & [= <- <-] & ->%elem_of_singleton); done.
  - done.
Qed.

(** A shift or division of a sequence leaves the others alone. *)
Lemma others_kept n c c' o s p : wf_kv n c -> mem_op_pre n c o -> exec_mem_op o c = Some c' -> ~ seq_scope o s ->
  match o with MSeqAdd t p0 p1 _ | MSeqDiv t p0 p1 _ => alone c t p0 p1 | _ => True end -> kv_holds c' s p <-> kv_holds c s p.
Proof.
  intros Hwf Hpre Hex Hsc Ha. destruct (mem_op_refines n c o Hwf Hpre) as (c1 & Hex1 & _ & Hcfg & Hv). simplify_eq.
  destruct (home c s) as [st|] eqn:Hs.
  2:{ assert (home c' s = None) as Hs' by (by rewrite (home_config _ _ s Hcfg)). split; [by intros ?%(kv_holds_nohome _ _ _ Hs')|by intros ?%(kv_holds_nohome _ _ _ Hs)]. }
  rewrite (holds_has c' s st) by (by rewrite (home_config _ _ s Hcfg)). rewrite (holds_has c s st) by done. setoid_rewrite Hv.
  destruct o as [|t p0 p1|src dst p0 p1|t|t p0 p1 d|t p0 p1 d]; simpl in *; try tauto.
  - destruct (decide (home c t = Some st)); [|done]. apply exist_proper. intros i. apply has_add_other; [done|]. intros x q Hx. by apply (Ha st i).
  - destruct (decide (home c t = Some st)); [|done]. apply exist_proper. intros i. apply has_div_other; [done|]. intros x q Hx. by apply (Ha st i).
Qed.

Lemma seq_effect_mono c1 c2 o s p : (forall t, home c1 t = home c2 t) -> (forall t x, kv_holds c1 t x -> kv_holds c2 t x) -> seq_effect c1 o s p -> seq_effect c2 o s p.
Proof.
  intros Hh Hsup. destruct o as [|t p0 p1|src dst p0 p1|t|t p0 p1 d|t p0 p1 d]; simpl; rewrite <- ?Hh; clear Hh.
  - done.
  - intros [Hx ?]. split; [by apply Hsup|done].
  - case_decide; [|apply Hsup]. case_decide; [|apply Hsup]. intros [Hx|[Hx ?]]; [left; by apply Hsup|right; split; [by apply Hsup|done]].
  - intros [Hx ?]. split; [by apply Hsup|done].
  - intros (p' & Hx & ?). exists p'. split; [by apply Hsup|done].
  - intros (p' & Hx & ?). exists p'. split; [by apply Hsup|done].
Qed.

Lemma seq_scope_dec o s : {seq_scope o s} + {~ seq_scope o s}.
Proof. destruct o; simpl; try (by left); apply Z.eq_dec. Qed.

(** Operations on both caches keep one a superset of the other. *)
Lemma superset_kept nb ns b s b' s' o : wf_kv nb b -> wf_kv ns s -> (forall t, home s t = home b t) -> (forall t p, kv_holds s t p -> kv_holds b t p) ->
  mem_op_pre nb b o -> mem_op_pre ns s o -> match o with MSeqAdd t p0 p1 _ | MSeqDiv t p0 p1 _ => alone b t p0 p1 /\ alone s t p0 p1 | _ => True end ->
  exec_mem_op o b = Some b' -> exec_mem_op o s = Some s' -> forall t p, kv_holds s' t p -> kv_holds b' t p.
Proof.
  intros Wb Ws Hh Hsup Pb Ps Ha Eb Es t p. destruct (seq_scope_dec o t) as [Hsc|Hsc].
  - rewrite (seq_effect_ok ns s s' o t p), (seq_effect_ok nb b b' o t p) by done. by apply seq_effect_mono.
  - rewrite (others_kept ns s s' o t p), (others_kept nb b b' o t p); try done; [apply Hsup|destruct o; tauto|destruct o; tauto].
Qed.

(** The operations of the pair are those of the parts. *)
Lemma exec_both o c b s : exec_mem_op o (kv_base c) = Some b -> exec_mem_op o (kv_swa c) = Some s -> exec_mem_op o c = Some (mkIswa (unified c) b s).
Proof.
  destruct o; simpl; unfold seq_cp, seq_keep, seq_add, seq_div, both.
  - by intros [= <-] [= <-].
  - intros Hb Hs. unfold seq_rm. destruct (K.seq_rm _ _ _ (kv_base c)) as [[b' r0]|]; [|done]. destruct (K.seq_rm _ _ _ (kv_swa c)) as [[s' r1]|]; [|done]. simpl in *. by simplify_eq.
  - by intros -> ->.
  - by intros -> ->.
  - by intros -> ->.
  - by intros -> ->.
Qed.

Lemma config_map b s b' s' : same_config b b' -> same_config s s' -> (K.n_stream s = K.n_stream b /\ forall t, home s t = home b t) ->
  K.n_stream s' = K.n_stream b' /\ forall t, home s' t = home b' t.
Proof.
  intros Hb Hs [Hn Hh]. destruct (same_config_fields b b' Hb) as (-> & _ & _ & Hb'). destruct (same_config_fields s s' Hs) as (-> & _ & _ & Hs'). split; [done|]. intros t. by rewrite Hs', Hb'.
Qed.

Lemma iswa_op_ok nb ns c o : wf_iswa nb ns c -> op_ok nb ns c o -> exists c', exec_mem_op o c = Some c' /\ wf_iswa nb ns c' /\
  (forall s p, seq_scope o s -> kv_holds (kv_swa c') s p <-> seq_effect (kv_swa c) o s p) /\ (forall s p, seq_scope o s -> kv_holds (kv_base c') s p <-> seq_effect (kv_base c) o s p).
Proof.
  intros [Wb Ws Wm Wsup] (Pb & Ps & Ha). destruct (mem_op_refines nb _ o Wb Pb) as (b & Eb & Wb' & Cb & _). destruct (mem_op_refines ns _ o Ws Ps) as (s & Es & Ws' & Cs & _).
  exists (mkIswa (unified c) b s). split; [by apply exec_both|]. split; [split; simpl; [done|done|by eapply config_map|]|split; simpl].
  - eapply (superset_kept nb ns (kv_base c) (kv_swa c)); try done. apply Wm.
  - intros t p. by apply (seq_effect_ok ns).
  - intros t p. by apply (seq_effect_ok nb).
Qed.

End Ops.
(** * Applying contexts *)

Section Apply.
Context `{BM : BuildMode} {D : Type} (copy_stream : nat -> nat -> D -> D) (run_shift : K.llama_kv_cache -> D -> option D).

(** What a placed ubatch adds to a sequence, at most. *)
Lemma applied_sub n c u si k m c' s p : slot_fits n c si k m -> B.u_n_tokens u = k * m -> applied n c u si k m c' -> kv_holds c' s p -> kv_holds c s p \/ brings u s p.
Proof.
  intros Hsf Hn Ha (st & i & q & Hst & Hv & Hs). destruct (same_config_fields c c' (ap_cfg _ _ _ _ _ _ _ Ha)) as (_ & _ & _ & Hh). rewrite Hh in Hst.
  destruct (ap_mx _ _ _ _ _ _ _ Ha) as (mx & _ & Hmx). assert (has (kv_view c' st i) s p) as Hhas by (exists q; by rewrite Hv).
  destruct (slot_at_dec si st i) as [(r & j & Hat)|Hno].
  - right. destruct (proj1 (Hmx st i _ s p (or_introl (ex_intro _ r (ex_intro _ j (conj Hat eq_refl))))) Hhas) as [(q' & Hq & Hs') _].
    pose proof (slot_in_coords n c si k m r j st i Hsf Hat) as [Hr Hj]%elem_of_coords. unfold tok_cell in Hq.
    destruct (B.u_pos u !! (r * m + j)) as [p'|] eqn:Hp; [|done]. cbn [mbind option_bind] in Hq. destruct (B.u_seq_id u !! (r * m + j)) as [ids|] eqn:Hids; [|done]. injection Hq as -> <-.
    exists (r * m + j), ids. split; [rewrite Hn; nia|]. split_and!; [done|done|set_solver].
  - left. destruct (proj1 (Hmx st i _ s p (or_intror (conj Hno eq_refl))) Hhas) as [(q' & Hq & Hs') _]. by exists st, i, q'.
Qed.

(** A batch context whose current slots fit both caches. *)
Record applies (nb ns : nat) (x : llama_kv_cache_iswa_context) (c : llama_kv_cache_iswa) (u : B.llama_ubatch) (xb xs : K.llama_kv_cache_context) (sib sis : K.slot_info) (k m : nat) : Prop := {
  pp_status : llama_memory_status_is_fail (status x) = false /\ llama_memory_status_is_fail (K.c_status xb) = false /\ llama_memory_status_is_fail (K.c_status xs) = false;
  pp_ctx    : ctx_base x = Some xb /\ ctx_swa x = Some xs;
  pp_base   : K.c_ubatches xb !! K.c_i_cur xb = Some u /\ K.c_sinfos xb !! K.c_i_cur xb = Some sib;
  pp_swa    : K.c_ubatches xs !! K.c_i_cur xs = Some u /\ K.c_sinfos xs !! K.c_i_cur xs = Some sis;
  pp_plain  : plain nb (kv_base c) /\ search_ok (kv_swa c);
  pp_place  : placeable (kv_base c) u k m;
  pp_fits   : slot_fits nb (kv_base c) sib k m /\ slot_fits ns (kv_swa c) sis k m;
  pp_home   : (forall j st, K.strm sib !! j = Some st -> exists id, B.u_seq_id_unq u !! j = Some id /\ home (kv_base c) id = Some st) /\
              (forall j st, K.strm sis !! j = Some st -> exists id, B.u_seq_id_unq u !! j = Some id /\ home (kv_swa c) id = Some st);
}.

Lemma ctx_apply_batch n c c' x u si k m d : llama_memory_status_is_fail (K.c_status x) = false -> K.c_ubatches x !! K.c_i_cur x = Some u -> K.c_sinfos x !! K.c_i_cur x = Some si ->
  K.apply_ubatch si u c = Some c' -> wf_kv n c' -> slot_shape n (K.n_stream c') si k m -> exists x', K.ctx_apply copy_stream run_shift x c d = Some (x', c', d).
Proof.
  intros Hst Hu Hsi Ha Hw Hss. destruct (get_n_kv_total n c' si k m Hw Hss) as [r Hr]. unfold K.ctx_apply. rewrite (c_assert_true _) by (by rewrite Hst). cbn [mbind option_bind].
  destruct (K.c_ubatches x) as [|u0 us] eqn:E; [done|]. rewrite <- E in *. rewrite Hsi. cbn [mbind option_bind]. rewrite Hu. cbn [mbind option_bind]. rewrite Ha. cbn [mbind option_bind]. rewrite Hr. cbn [mbind option_bind]. by eexists.
Qed.

Lemma iswa_apply_ok nb ns x c u xb xs sib sis k m d : wf_iswa nb ns c -> applies nb ns x c u xb xs sib sis k m ->
  exists x' c', apply copy_stream run_shift x c d = Some (x', c', d) /\ wf_iswa nb ns c' /\ forall s p, kv_holds (kv_base c') s p <-> kv_holds (kv_base c) s p \/ brings u s p.
Proof.
  intros [Wb Ws [Hn Hh] Hsup] [(Hst0 & Hst1 & Hst2) [Hcb Hcs] [Hub Hsb] [Hus Hss] [Hp Hso] Hpl [Hfb Hfs] [Hib His]].
  destruct (apply_fills nb (kv_base c) u sib k m Hp Hpl Hfb Hib) as (b & Hb & Hpb & Cb & Fb). destruct (ft_pos _ _ _ _ (pl_fits _ _ _ _ Hpl)) as [Hk Hm].
  pose proof (placeable_same (kv_base c) (kv_swa c) u k m Hn Hh Hpl) as Hpls.
  destruct (apply_ok ns (kv_swa c) u sis k m Ws Hso Hk Hm Hfs (placeable_toks _ _ _ _ _ Hpls His)) as (s & Hs & As).
  pose proof (ap_cfg _ _ _ _ _ _ _ As) as Cs. destruct (same_config_fields _ _ Cb) as (Nb & _ & _ & Hhb). destruct (same_config_fields _ _ Cs) as (Ns & _ & _ & Hhs).
  destruct d as [d0 d1].
  destruct (ctx_apply_batch nb (kv_base c) b xb u sib k m d0 Hst1 Hub Hsb Hb (pn_wf _ _ Hpb)) as [xb' Exb]; [rewrite Nb; by apply fits_shape|].
  destruct (ctx_apply_batch ns (kv_swa c) s xs u sis k m d1 Hst2 Hus Hss Hs (ap_wf _ _ _ _ _ _ _ As)) as [xs' Exs]; [rewrite Ns; by apply fits_shape|].
  assert (forall t p, kv_holds b t p <-> kv_holds (kv_base c) t p \/ brings u t p) as Hhold by (intros t p; by apply (fills_holds nb (kv_base c) u sib k m)).
  exists (mkIswaCtx (i_next x) (ubatches x) (Some xb') (Some xs') (status x)), (mkIswa (unified c) b s). split.
  - unfold apply. rewrite (c_assert_true _) by (by rewrite Hst0). cbn [mbind option_bind]. rewrite Hcb. cbn [mbind option_bind fst snd]. rewrite Exb. cbn [mbind option_bind]. rewrite Hcs. cbn [mbind option_bind]. rewrite Exs. done.
  - split; [|done]. split; simpl; [apply Hpb|apply As|split; [by rewrite Nb, Ns|intros t; by rewrite Hhb, Hhs]|].
    intros t p [H|H]%(applied_sub ns (kv_swa c) u sis k m s t p Hfs); [apply Hhold; left; by apply Hsup|apply Hhold; by right|apply Hpl|done].
Qed.

(** Updates reset the pending shifts: the content stays. *)
Lemma update_keeps n c do_shift i d r c' d' : wf_kv n c -> K.update copy_stream run_shift do_shift i c d = Some (r, c', d') -> wf_kv n c' /\ same_config c c' /\ same_view c c'.
Proof.
  intros Hw. assert (wf_kv n c /\ same_config c c /\ same_view c c) as Hsame by (split_and!; [done|apply same_config_refl|done]).
  assert (let c2 := K.with_cells (reset_shift <$> K.v_cells c) c in wf_kv n c2 /\ same_config c c2 /\ same_view c c2) as Hreset.
  { assert (same_view c (K.with_cells (reset_shift <$> K.v_cells c) c)) as Hv.
    { intros st j. unfold kv_view. cbn. rewrite list_lookup_fmap. by destruct (K.v_cells c !! st). }
    split; [|split; [|done]].
    - destruct Hw as [W1 W2 W3 W4 W5 W6]. split; cbn; [by rewrite length_fmap|done|done| |done|].
      + intros st cells. rewrite list_lookup_fmap. destruct (K.v_cells c !! st) as [x|] eqn:E; [|done]. intros [= <-]. destruct (W4 st x E). split; [by apply reset_shift_wf|done].
      + intros st j. specialize (W6 st j). rewrite (Hv st j) in W6. done.
    - exists (K.v_heads c), (reset_shift <$> K.v_cells c), (K.sc_info c). by destruct c. }
  unfold K.update. destruct (K.copy_info_empty i) as [e|]; [|done]. cbn [mbind option_bind]. destruct (if e then Some d else _) as [d1|]; [|done]. cbn [mbind option_bind].
  destruct do_shift; cbn [negb]; [|by intros [= <- <- <-]]. destruct (ggml_assert _); [|done]. cbn [mbind option_bind]. destruct (K.rope_none c); [by intros [= <- <- <-]|].
  destruct (run_shift c d1); by intros [= <- <- <-].
Qed.
End Apply.

(** * Preparing batches *)

Section Batches.
Context `{BM : BuildMode} (nb ns : nat).

(** Both caches can take a batch. *)
Record prepared (c : llama_kv_cache_iswa) : Prop := {
  pr_base : plain nb (kv_base c);
  pr_swa  : windowed ns (kv_swa c);
}.

(** The ubatches a way of splitting makes of the batch have their sequences in
    streams of the cache, and complete tokens. *)
Definition splits_well (c : llama_kv_cache_iswa) (split : B.llama_batch_allocr -> option (B.llama_ubatch * B.llama_batch_allocr)) (b : B.llama_batch_allocr) : Prop :=
  forall us b', B.split_all (S (B.get_n_tokens b)) split (B.split_reset b) = Some (us, b') -> Forall (fun u => exists k m, placeable (kv_base c) u k m) us.

(** ... for the ways [init_batch] tries. *)
Definition batch_ok (c : llama_kv_cache_iswa) (b : B.llama_batch_allocr) (n_ubatch : nat) : Prop :=
  if unified c then splits_well c (B.split_simple n_ubatch) b /\
    forall r b1 c1, try_split (B.split_simple n_ubatch) b c = Some (r, b1, c1) -> splits_well c (B.split_equal n_ubatch false) b1
  else splits_well c (B.split_equal n_ubatch true) b.

(** Preparing leaves the base cache as it is, and the window cache with at most
    what it held. *)
Definition lowered (c c' : llama_kv_cache_iswa) : Prop :=
  unified c' = unified c /\ same_config (kv_base c) (kv_base c') /\ same_view (kv_base c') (kv_base c) /\
  same_config (kv_swa c) (kv_swa c') /\ below (kv_swa c') (kv_swa c).

Lemma lowered_refl c : lowered c c.
Proof using Type. split_and!; [done|apply same_config_refl|done|apply same_config_refl|done]. Qed.

Lemma lowered_trans c1 c2 c3 : lowered c1 c2 -> lowered c2 c3 -> lowered c1 c3.
Proof using Type.
  intros (U1 & B1 & V1 & S1 & L1) (U2 & B2 & V2 & S2 & L2).
  split_and!; [congruence|exact (same_config_trans _ _ _ B1 B2)|by etransitivity|exact (same_config_trans _ _ _ S1 S2)|by etransitivity].
Qed.

Lemma lowered_wf c c' : wf_iswa nb ns c -> wf_kv nb (kv_base c') -> wf_kv ns (kv_swa c') -> lowered c c' -> wf_iswa nb ns c'.
Proof using Type.
  intros [Wb Ws Wm Wsup] Wb' Ws' (_ & Cb & Vb & Cs & Ls). split; [done|done|by eapply config_map|].
  intros s p H. apply (same_view_holds (kv_base c') (kv_base c)); [|done|].
  - destruct Cb as (? & ? & ? & ->). destruct (kv_base c). by eexists _, _, _.
  - apply Wsup. by eapply below_holds.
Qed.

Lemma try_split_ok split b c r b' c' : prepared c -> (forall u, home (kv_swa c) u = home (kv_base c) u) -> K.n_stream (kv_swa c) = K.n_stream (kv_base c) ->
  splits_well c split b -> try_split split b c = Some (r, b', c') -> prepared c' /\ lowered c c'.
Proof using Type.
  intros [Pb Ps] Hh Hn Hsp. unfold try_split. destruct (B.split_all _ _ _) as [[us b1]|] eqn:E; [|done]. cbn [mbind option_bind].
  pose proof (Hsp us b1 E) as Hall. destruct (bool_decide _); [intros [= <- <- <-]; split; [done|apply lowered_refl]|].
  assert (us <> [] \/ K.prepare us (kv_base c) = None) as [Hne|Hnone] by (destruct us; [by right|by left]); [|by rewrite Hnone].
  destruct (prepare_trail nb (kv_base c) us Pb Hne Hall) as (sib & base & -> & Pb' & Cb & Vb & _). cbn [mbind option_bind with_base kv_swa].
  assert (lowered c (with_base base c)) as L1 by (split_and!; [done..|apply same_config_refl|done]).
  destruct (bool_decide _); [intros [= <- <- <-]; by split|].
  destruct (prepare_below ns (kv_swa c) us Ps Hne) as (sis & swa & -> & Ps' & Cs & Ls & _).
  { eapply Forall_impl; [exact Hall|]. intros u (k & m & H). exists k, m. by eapply placeable_same. }
  cbn [mbind option_bind]. assert (lowered c (with_swa swa (with_base base c))) as L2 by (by split_and!).
  destruct (bool_decide _); [intros [= <- <- <-]; by split|]. destruct (c_assert _); [|done]. cbn [mbind option_bind]. intros [= <- <- <-]. by split.
Qed.

Lemma splits_config c c' split b : same_config (kv_base c) (kv_base c') -> splits_well c split b -> splits_well c' split b.
Proof using Type. intros HC H us b' E. eapply Forall_impl; [by eapply H|]. intros u (k & m & Hp). exists k, m. by eapply placeable_config. Qed.

Lemma init_batch_lowers b n_ubatch c x b' c' : wf_iswa nb ns c -> prepared c -> batch_ok c b n_ubatch -> init_batch b n_ubatch c = Some (x, b', c') ->
  wf_iswa nb ns c' /\ prepared c' /\ lowered c c'.
Proof using Type.
  intros Hw Hp Hb Hi. destruct (wi_map _ _ _ Hw) as [Hn Hh].
  enough (prepared c' /\ lowered c c') as [Hp' Hl] by (split; [eapply lowered_wf; [done|apply Hp'|apply Hp'|done]|done]).
  unfold init_batch, batch_ok in *. destruct (unified c) eqn:Eu.
  - destruct Hb as [Hb1 Hb2]. destruct (try_split (B.split_simple n_ubatch) b c) as [[[r b1] c1]|] eqn:E1; [|done]. cbn [mbind option_bind] in Hi.
    destruct (try_split_ok _ _ _ _ _ _ Hp Hh Hn Hb1 E1) as [Hp1 Hl1]. destruct r as [y|]; [by injection Hi as <- <- <-|]. pose proof Hl1 as (U1 & Cb1 & _ & Cs1 & _). rewrite U1, Eu in Hi. cbn [negb] in Hi.
    destruct (try_split (B.split_equal n_ubatch false) b1 c1) as [[[r b2] c2]|] eqn:E2; [|done]. cbn [mbind option_bind] in Hi.
    destruct (config_map _ _ _ _ Cb1 Cs1 (conj Hn Hh)) as [Hn1 Hh1].
    destruct (try_split_ok _ _ _ _ _ _ Hp1 Hh1 Hn1 (splits_config _ _ _ _ Cb1 (Hb2 _ _ _ eq_refl)) E2) as [Hp2 Hl2].
    destruct r as [y|]; injection Hi as <- <- <-; (split; [done|by eapply lowered_trans]).
  - cbn [mbind option_bind] in Hi. rewrite Eu in Hi. cbn [negb] in Hi. destruct (try_split (B.split_equal n_ubatch true) b c) as [[[r b2] c2]|] eqn:E2; [|done]. cbn [mbind option_bind] in Hi.
    destruct (try_split_ok _ _ _ _ _ _ Hp Hh Hn Hb E2) as [Hp2 Hl2]. by destruct r as [y|]; injection Hi as <- <- <-.
Qed.

(** A batch the allocator accepts is such a batch, when there is one stream. *)
Lemma batch_splits_well c split b n_ubatch : plain nb (kv_base c) -> K.n_stream (kv_base c) = 1 -> B.ready b -> decodable (B.batch b) -> B.n_pos_per_embd b = 1 ->
  split = B.split_simple n_ubatch \/ split = B.split_equal n_ubatch false ->
  splits_well c split b /\ forall r b1 c1, try_split split b c = Some (r, b1, c1) -> B.same_batch b b1.
Proof using Type.
  intros Hp H1 Hr Hd Hn Hs. destruct (B.split_tokens b n_ubatch split Hr Hs) as (us & b' & Hrun & Hsame & Hu). split.
  - intros us2 b2 E. change (B.get_n_tokens b) with (B.get_n_tokens (B.split_reset b)) in *. rewrite Hrun in E. injection E as <- <-. apply Forall_forall. intros u Hin.
    destruct (Hu u Hin) as (l & Hb & Hne & Hl). exists 1, (length l). by apply (built_placeable nb (kv_base c) Hp H1 b Hr Hd Hn).
  - intros r b1 c1. unfold try_split. change (B.get_n_tokens (B.split_reset b)) with (B.get_n_tokens b). rewrite Hrun. cbn [mbind option_bind].
    destruct (bool_decide _); [by intros [= _ <- _]|]. destruct (K.prepare us (kv_base c)) as [[sib base]|]; [|done]. cbn [mbind option_bind].
    destruct (bool_decide _); [by intros [= _ <- _]|]. destruct (K.prepare us _) as [[sis swa]|]; [|done]. cbn [mbind option_bind].
    destruct (bool_decide _); [by intros [= _ <- _]|]. destruct (c_assert _); [|done]. by intros [= _ <- _].
Qed.

Lemma accepted_batch_ok c b n_ubatch : plain nb (kv_base c) -> K.n_stream (kv_base c) = 1 -> unified c = true ->
  B.ready b -> decodable (B.batch b) -> B.n_pos_per_embd b = 1 -> batch_ok c b n_ubatch.
Proof using Type.
  intros Hp H1 Hu Hr Hd Hn. unfold batch_ok. rewrite Hu. destruct (batch_splits_well c _ b n_ubatch Hp H1 Hr Hd Hn (or_introl eq_refl)) as [Hw Hb]. split; [done|].
  intros r b1 c1 E. pose proof (Hb _ _ _ E) as Hsame. pose proof (B.ready_same _ _ Hsame Hr) as Hr1. destruct Hsame as (i & k & x & ->).
  by destruct (batch_splits_well c (B.split_equal n_ubatch false) (B.with_split i k x b) n_ubatch Hp H1 Hr1 Hd Hn (or_intror eq_refl)).
Qed.

End Batches.

(** * Runs *)

Section Runs.
Context `{BM : BuildMode} {D : Type} (copy_stream : nat -> nat -> D -> D) (run_shift : K.llama_kv_cache -> D -> option D) (nb ns : nat).

(** What the users of the cache do, except for restoring saved states: a sequence
    operation, preparing a batch, the next ubatch of a batch, or the pending
    updates. *)
Inductive iswa_step : llama_kv_cache_iswa -> llama_kv_cache_iswa -> Prop :=
  | step_op c c' o : op_ok nb ns c o -> exec_mem_op o c = Some c' -> iswa_step c c'
  | step_batch c b n_ubatch x b' c' : prepared nb ns c -> batch_ok c b n_ubatch -> init_batch b n_ubatch c = Some (x, b', c') -> iswa_step c c'
  | step_ubatch c x u xb xs sib sis k m d x' c' d' : applies nb ns x c u xb xs sib sis k m ->
      apply copy_stream run_shift x c d = Some (x', c', d') -> iswa_step c c'
  | step_update c x c1 d x' c' d' : init_update c = Some (x, c1) -> apply copy_stream run_shift x c1 d = Some (x', c', d') -> iswa_step c c'.

Lemma update_part n c b c1 d x' c' d' : wf_kv n c -> K.init_update c = Some (b, c1) -> K.ctx_apply copy_stream run_shift b c1 d = Some (x', c', d') ->
  wf_kv n c' /\ same_config c c' /\ same_view c c'.
Proof using Type.
  intros Hw Hi Ha. unfold K.init_update in Hi. destruct (K.get_has_shift c) as [ds|]; [|done]. cbn [mbind option_bind] in Hi.
  destruct (K.ctx_update ds (K.sc_info c)) as [x|] eqn:Hx; [|done]. cbn [mbind option_bind] in Hi. injection Hi as <- <-.
  assert (K.c_ubatches x = []) as Hu by (unfold K.ctx_update in Hx; destruct (if ds then _ else _); [|done]; cbn [mbind option_bind] in Hx; by injection Hx as <-).
  set (c1 := K.with_sc _ c) in *. assert (wf_kv n c1) as Hw1 by (by destruct Hw).
  unfold K.ctx_apply in Ha. rewrite Hu in Ha. destruct (c_assert _); [|done]. cbn [mbind option_bind] in Ha.
  destruct (K.update _ _ _ _ c1 d) as [[[r c2] d2]|] eqn:E; [|done]. cbn [mbind option_bind] in Ha. injection Ha as <- <- <-.
  destruct (update_keeps copy_stream run_shift n c1 _ _ d r c2 d2 Hw1 E) as (W & C & V). split; [done|]. split; [|done].
  apply (same_config_trans c c1); [|done]. exists (K.v_heads c), (K.v_cells c), (K.mkCopyInfo [] []). by destruct c.
Qed.

Lemma step_wf c c' : wf_iswa nb ns c -> iswa_step c c' -> wf_iswa nb ns c'.
Proof using Type.
  intros Hw Hs. revert Hw. destruct Hs as [c0 c1 o Ho He|c0 b n_ubatch x b' c1 Hp Hb Hi|c0 x u xb xs sib sis k m d x' c1 d' Hp He|c0 x c1 d x' c2 d' Hi He]; intros Hw.
  - destruct (iswa_op_ok nb ns c0 o Hw Ho) as (c2 & He2 & H & _). congruence.
  - by destruct (init_batch_lowers nb ns b n_ubatch c0 x b' c1 Hw Hp Hb Hi).
  - destruct (iswa_apply_ok copy_stream run_shift nb ns x c0 u xb xs sib sis k m d Hw Hp) as (x2 & c2 & He2 & H & _). rewrite He in He2. by injection He2 as _ -> _.
  - destruct Hw as [Wb Ws Wm Wsup]. unfold init_update in Hi. destruct (K.init_update (kv_base c0)) as [[b base]|] eqn:Hb; [|done]. cbn [mbind option_bind] in Hi.
    destruct (K.init_update (kv_swa c0)) as [[s swa]|] eqn:Hs; [|done]. cbn [mbind option_bind] in Hi. injection Hi as <- <-.
    unfold apply in He. destruct (c_assert _); [|done]. cbn [mbind option_bind ctx_base ctx_swa iswa_ctx kv_base kv_swa] in He.
    destruct (K.ctx_apply _ _ b base _) as [[[b' base'] d0]|] eqn:Eb; [|done]. cbn [mbind option_bind] in He.
    destruct (K.ctx_apply _ _ s swa _) as [[[s' swa'] d1]|] eqn:Es; [|done]. cbn [mbind option_bind] in He. injection He as <- <- <-.
    destruct (update_part nb _ _ _ _ _ _ _ Wb Hb Eb) as (Wb' & Cb & Vb). destruct (update_part ns _ _ _ _ _ _ _ Ws Hs Es) as (Ws' & Cs & Vs).
    split; simpl; [done|done|by eapply config_map|]. intros t p. rewrite <- (same_view_holds (kv_swa c0) swa'), <- (same_view_holds (kv_base c0) base') by done. apply Wsup.
Qed.

Lemma steps_wf c c' : rtc iswa_step c c' -> wf_iswa nb ns c -> wf_iswa nb ns c'.
Proof using Type. induction 1 as [c|c1 c2 c3 Hs _ IH]; [done|]. intros Hw. by eapply IH, step_wf. Qed.

End Runs.

(** C9: the cache with interleaved windows works as its interface assumes, as
    long as no saved state is restored.  Every permitted sequence operation (one
    within the contract of both caches; a shift or a division moves only cells that
    belong to no other sequence) and every ubatch whose slots fit runs without an
    assertion failing; preparing a batch leaves what the base cache holds, and takes
    from the window cache at most positions (the window may have passed them).  In
    every state reached by permitted sequence operations, prepared batches, applied
    ubatches and updates the base cache holds all positions of the window cache, so
    that the first and the last position reported for a sequence, which are asked
    only of the window cache, are held by both.  A partial state, restored into the
    window cache alone, can break this ([KvIswaState]). *)
Theorem iswa_base_superset `{BM : BuildMode} (nb ns : nat) (c : llama_kv_cache_iswa) {D : Type} (copy_stream : nat -> nat -> D -> D) (run_shift : K.llama_kv_cache -> D -> option D) :
  wf_iswa nb ns c ->
  (forall o, op_ok nb ns c o -> exists c', exec_mem_op o c = Some c') /\
  (forall x u xb xs sib sis k m d, applies nb ns x c u xb xs sib sis k m -> exists x' c', apply copy_stream run_shift x c d = Some (x', c', d) /\
     forall s p, kv_holds (kv_base c') s p <-> kv_holds (kv_base c) s p \/ brings u s p) /\
  (forall b n_ubatch x b' c', prepared nb ns c -> batch_ok c b n_ubatch -> init_batch b n_ubatch c = Some (x, b', c') ->
     forall s p, (kv_holds (kv_base c') s p <-> kv_holds (kv_base c) s p) /\ (kv_holds (kv_swa c') s p -> kv_holds (kv_swa c) s p)) /\
  forall c', rtc (iswa_step copy_stream run_shift nb ns) c c' ->
    (forall s p, kv_holds (kv_swa c') s p -> kv_holds (kv_base c') s p) /\
    forall s, (0 <= s < Z.of_nat (length (K.seq_to_stream (kv_swa c'))))%Z -> exists lo hi, mem_seq_pos_min s c' = Some lo /\ mem_seq_pos_max s c' = Some hi /\
      ((lo = (-1)%Z /\ hi = (-1)%Z /\ forall p, ~ kv_holds (kv_swa c') s p) \/
       (kv_holds (kv_base c') s lo /\ kv_holds (kv_base c') s hi /\ forall p, kv_holds (kv_swa c') s p -> (lo <= p <= hi)%Z)).
Proof.
  intros Hw. split; [intros o Ho; destruct (iswa_op_ok nb ns c o Hw Ho) as (c' & ? & _); by exists c'|]. split.
  { intros x u xb xs sib sis k m d Hp. destruct (iswa_apply_ok copy_stream run_shift nb ns x c u xb xs sib sis k m d Hw Hp) as (x' & c' & ? & _ & ?). by exists x', c'. }
  split.
  { intros b n_ubatch x b' c' Hp Hb Hi s p. destruct (init_batch_lowers nb ns b n_ubatch c x b' c' Hw Hp Hb Hi) as (_ & _ & _ & Cb & Vb & Cs & Ls).
    split; [symmetry; by apply same_view_holds|by eapply below_holds]. }
  intros c' Hr. destruct (steps_wf copy_stream run_shift nb ns c c' Hr Hw) as [Wb Ws Wm Wsup]. split; [done|]. intros s Hs.
  assert (mem_ok (kv_swa c')) as Hok by (by exists ns).
  destruct (mem_min_ok (kv_swa c') s Hok Hs) as (lo & Hlo & Hl). destruct (mem_max_ok (kv_swa c') s Hok Hs) as (hi & Hhi & Hh). exists lo, hi. split; [exact Hlo|]. split; [exact Hhi|].
  destruct Hl as [[-> Hno]|[Hl Hle]], Hh as [[-> Hno']|[Hh Hge]]; [by left|by apply Hno in Hh|by apply Hno' in Hl|right].
  split; [by apply Wsup|]. split; [by apply Wsup|]. intros p Hp. split; [by apply Hle|by apply Hge].
Qed.

(** ** An example *)

(** A new cache. *)
Lemma new_iswa_wf swa_full unif n nmax nu pad nw ty np sh nr tr nv c : new_cache swa_full unif n nmax nu pad nw ty np sh nr tr nv = Some c ->
  (Z.of_nat n <= INT32_MAX)%Z -> 0 < nmax <= Z.to_nat LLAMA_MAX_SEQ -> exists ns, (Z.of_nat ns <= INT32_MAX)%Z -> wf_iswa n ns c.
Proof.
  unfold new_cache. intros Hc Hn Hmax. destruct (K.new_cache unif n nmax pad 0 _ np sh nr tr nv) as [b|] eqn:Hb; [|done]. cbn [mbind option_bind] in Hc. set (m := if swa_full then n else _) in *. exists m. intros Hm.
  destruct (K.new_cache unif m nmax pad nw ty np sh nr tr nv) as [s|] eqn:Hs; [|done]. injection Hc as <-.
  destruct (new_cache_wf _ _ _ _ _ _ _ _ _ _ _ _ Hb Hn Hmax) as [Wb _]. destruct (new_cache_wf _ _ _ _ _ _ _ _ _ _ _ _ Hs Hm Hmax) as [Ws Es].
  split; simpl; [done|done| |].
  - unfold K.new_cache in Hb, Hs. destruct (bool_decide (pad = 0)); [done|]. destruct (ggml_assert (bool_decide (n `mod` pad = 0))); [|done]. destruct (ggml_assert (bool_decide (m `mod` pad = 0))); [|done].
    cbn [mbind option_bind] in Hb, Hs. destruct (ggml_assert _); [|done]. cbn [mbind option_bind] in Hb, Hs. by simplify_eq.
  - intros t p (st & i & q & _ & Hv & _). by rewrite Es in Hv.
Qed.

(** Both caches hold position 5 of sequence 2 and position 2 of sequence 1. *)
Definition demo_iswa : llama_kv_cache_iswa :=
  mkIswa true demo_kv (K.mkKv 1 1 4 K.LLAMA_SWA_TYPE_STANDARD 1 true false false 8 [2] [demo_cells] (replicate (Z.to_nat LLAMA_MAX_SEQ) 0) (K.mkCopyInfo [] [])).

Lemma demo_iswa_wf : wf_iswa 4 4 demo_iswa.
Proof.
  pose proof demo_kv_wf as Hw. split; [exact Hw| |split; [reflexivity|reflexivity]|].
  - destruct Hw as [W1 W2 W3 W4 W5 W6]. split; [exact W1|exact W2|exact W3|exact W4|exact W5|exact W6].
  - intros s p H. exact H.
Qed.

Lemma demo_iswa_op : op_ok 4 4 demo_iswa (MSeqRm 2 0 6).
Proof. split; [|split; [|exact I]]; right; exists 0; apply demo_home; unfold LLAMA_MAX_SEQ; lia. Qed.

(** Two empty caches, to which the batch of [KvBatch] is given: positions 0 and 1
    of sequence 1. *)
Definition demo_empty : llama_kv_cache_iswa :=
  mkIswa true demo_new (K.mkKv 1 1 4 K.LLAMA_SWA_TYPE_STANDARD 1 true false false 8 [0] [resize 4 cells_new] (replicate (Z.to_nat LLAMA_MAX_SEQ) 0) (K.mkCopyInfo [] [])).

Lemma demo_empty_wf : wf_iswa 4 4 demo_empty.
Proof.
  pose proof (pn_wf _ _ demo_plain) as Hw. split; [exact Hw| |split; [reflexivity|reflexivity]|].
  - destruct Hw as [W1 W2 W3 W4 W5 W6]. split; [exact W1|exact W2|exact W3|exact W4|exact W5|exact W6].
  - intros s p H. exact H.
Qed.

Lemma demo_empty_prepared : prepared 4 4 demo_empty.
Proof.
  split; [apply demo_plain|]. split; [apply demo_empty_wf| |].
  - intros [|st] cells Hc; [|by destruct st]. injection Hc as <-. refine (conj _ (conj _ (conj _ _))); [apply resize_wf; by_eval| | |rewrite resize_size; lia].
    + intros i p q Hv. pose proof (demo_new_view 0 i) as H. change (view (resize 4 cells_new) i = None) in H. congruence.
    + split; [cbn; unfold INT32_MAX; lia|done].
  - intros [|st] cells Hc; [|by destruct st]. injection Hc as <-. by apply (pn_shift _ _ demo_plain 0).
Qed.

Lemma demo_alloc_ready : B.ready demo_alloc.
Proof.
  destruct (B.init_inv (H := K.kv_memory (BM := debug_build)) _ _ _ _ _ _ _ _ demo_accepted_ok ltac:(lia) demo_batch_contract) as (a2 & E & Hne & Hnp & _ & Hf).
  rewrite E. apply (B.ready_same a2); [by eexists _, _, _|]. eapply B.facts_ready; [exact Hf|rewrite Hnp; exact demo_batch_contract|exact Hne].
Qed.

Lemma demo_iswa_init_ok : exists x b' c', init_batch (BM := debug_build) demo_alloc 1 demo_empty = Some (x, b', c') /\ status x = LLAMA_MEMORY_STATUS_SUCCESS.
Proof.
  assert (match init_batch (BM := debug_build) demo_alloc 1 demo_empty with Some (x, _, _) => bool_decide (status x = LLAMA_MEMORY_STATUS_SUCCESS) | None => false end = true) as Hok
    by (vm_compute; reflexivity).
  destruct (init_batch demo_alloc 1 demo_empty) as [[[x b'] c']|]; [|discriminate Hok]. exists x, b', c'. by apply bool_decide_eq_true in Hok.
Qed.

Lemma demo_empty_batch : batch_ok (BM := debug_build) demo_empty demo_alloc 1.
Proof.
  apply accepted_batch_ok with (nb := 4); [apply demo_plain|reflexivity|reflexivity|apply demo_alloc_ready|apply demo_decodable|by vm_compute].
Qed.

(** Removing a range, and preparing a batch. *)
Lemma iswa_base_superset_witness :
  (exists c', exec_mem_op (H := iswa_memory (BM := debug_build)) (MSeqRm 2 0 6) demo_iswa = Some c' /\
     forall s p, kv_holds (kv_swa c') s p -> kv_holds (kv_base c') s p) /\
  exists x b' c', init_batch (BM := debug_build) demo_alloc 1 demo_empty = Some (x, b', c') /\ status x = LLAMA_MEMORY_STATUS_SUCCESS /\
    forall s p, kv_holds (kv_swa c') s p -> kv_holds (kv_base c') s p.
Proof.
  split.
  - destruct (iswa_base_superset (BM := debug_build) 4 4 demo_iswa (fun _ _ d => d) (fun _ (d : unit) => Some d) demo_iswa_wf) as (H1 & _ & _ & H3).
    destruct (H1 (MSeqRm 2 0 6) demo_iswa_op) as [c' Hc]. exists c'. split; [exact Hc|]. apply H3. eapply rtc_once, step_op; [exact demo_iswa_op|exact Hc].
  - destruct demo_iswa_init_ok as (x & b' & c' & E & Hst). exists x, b', c'. split; [exact E|]. split; [exact Hst|].
    destruct (iswa_base_superset (BM := debug_build) 4 4 demo_empty (fun _ _ d => d) (fun _ (d : unit) => Some d) demo_empty_wf) as (_ & _ & _ & H3).
    apply H3. eapply rtc_once, step_batch; [exact demo_empty_prepared|exact demo_empty_batch|exact E].
Defined.

End IswaOk.
