(* ===== verification/KvInputs.v ===== *)
(** The graph inputs that [llama_kv_cache] computes from its cells:
    [set_input_k_idxs], [set_input_v_idxs], [set_input_k_shift] and
    [set_input_kq_mask] of [llama-kv-cache.cpp].  The tensors are lists that the
    functions overwrite; the mask is shown to be the attention relation, although
    the code copies most of a row from an earlier token of the sequence. *)

From S2P Require Import Prelude.
From S2P Require Import KvCells.
From S2P Require Import Memory.
From S2P Require Import Batch.
From S2P Require Import KvCache.
From S2P Require Import KvOps.
From S2P Require Import KvSlot.
From S2P Require Import KvPrepare.
Import KvCells.Cells Memory.Memory KvCache.Kv KvOps.KvOps KvSlot.KvSlot KvPrepare.KvPrepare.

Module KvInputs.

(** * Definitions *)

(** An entry of the mask: [-INFINITY], or an integer converted to [float]. *)
Inductive mask_val := NegInf | Num (z : Z).

#[global] Instance mask_val_eq_dec : EqDecision mask_val.
Proof. solve_decision. Defined.

Section Ops.
Context `{BM : BuildMode}.

(** [GGML_ASSERT(n_tokens == (int64_t) sinfo.size()*sinfo.n_stream())], then the
    destination of every token: [offs + sinfo.idxs[s][i]].  The product in [offs]
    is one of 32-bit unsigned numbers, kept in 64 bits after it has wrapped. *)
Definition set_input_k_idxs (u : B.llama_ubatch) (si : slot_info) (c : llama_kv_cache) (data : list Z) : option (list Z) :=
  sz ← slot_size si;
  GGML_ASSERT bool_decide (B.u_n_tokens u = sz * slot_n_stream si);
  n ← get_size c;
  foldM (fun s data =>
    str ← strm si !! s;
    row ← idxs si !! s;
    foldM (fun i data =>
      x ← row !! i;
      set_at (s * sz + i) (u32_wrap (Z.of_nat (str * n)) + Z.of_nat x)%Z data) (seq 0 sz) data) (seq 0 (slot_n_stream si)) data.

Definition set_input_v_idxs (u : B.llama_ubatch) (si : slot_info) (c : llama_kv_cache) (data : list Z) : option (list Z) :=
  if negb (v_trans c) then set_input_k_idxs u si c data else
  sz ← slot_size si;
  GGML_ASSERT bool_decide (B.u_n_tokens u = sz * slot_n_stream si);
  n ← get_size c;
  let ne := n_embd_v_gqa c in
  foldM (fun s data =>
    str ← strm si !! s;
    row ← idxs si !! s;
    foldM (fun i data =>
      x ← row !! i;
      foldM (fun j data => set_at (s * sz * ne + i * ne + j) (Z.of_nat (str * n * ne + j * n + x)) data) (seq 0 ne) data)
      (seq 0 sz) data) (seq 0 (slot_n_stream si)) data.

Definition set_input_k_shift (c : llama_kv_cache) (data : list Z) : option (list Z) :=
  foldM (fun s data =>
    cells ← v_cells c !! s;
    foldM (fun i data =>
      e ← is_empty i cells;
      h ← (if (e : bool) then Some 0%Z else get_shift i cells);
      set_at (s * size cells + i) h data) (seq 0 (size cells)) data) (seq 0 (n_stream c)) data.

(** ** The mask *)

(** [ubatch->seq_id[i][0]], an index of the per-sequence arrays. *)
Definition seq_id0 (u : B.llama_ubatch) (i : nat) : option Z :=
  ids ← B.u_seq_id u !! i; id ← ids !! 0; if bool_decide (id < 0)%Z then None else Some id.

(** The least position in the batch for each sequence. *)
Definition seq_mins (u : B.llama_ubatch) : option (list Z) :=
  foldM (fun i m =>
    id ← seq_id0 u i;
    x ← m !! Z.to_nat id;
    p ← B.u_pos u !! i;
    set_at (Z.to_nat id) (Z.min x p) m)
    (seq 0 (B.u_n_tokens u)) (replicate (Z.to_nat LLAMA_MAX_SEQ) INT32_MAX).

(** The cache, with the template parameters of the implementation, and the
    position and coordinates of the token of the row. *)
Record mask_args := mkMaskArgs { m_causal : bool; m_swa : bool; m_2d : bool; m_alibi : bool }.
Record mask_tok := mkMaskTok { mt_seq : Z; mt_p1 : Z; mt_x : Z; mt_y : Z; mt_min : Z }.

(** The body of the loop over the cells: the entry, and the cells to look at
    again for the next token of the sequence. *)
Definition mask_entry (a : mask_args) (c : llama_kv_cache) (cells : llama_kv_cells) (t : mask_tok) (prev : bool)
    (j : nat) (ix : list nat) : option (mask_val * list nat) :=
  e ← is_empty j cells;
  if (e : bool) then Some (NegInf, ix) else
  h ← seq_has j (mt_seq t) cells;
  if negb h then Some (NegInf, ix) else
  p0 ← pos_get j cells;
  ix ← (if negb (m_alibi a) && negb prev then
          q ← i32_chk (p0 + i32_of_u32 (u32_wrap (n_swa c + 32)));
          Some (if bool_decide (mt_min t <= q)%Z then ix ++ [j] else ix)
        else Some ix);
  future ← (if m_causal a then
              if bool_decide (mt_p1 t < p0)%Z then Some true else
              if m_2d a && bool_decide (p0 = mt_p1 t) then
                x ← ext_get j cells; Some (is_2d_gt x (mt_x t) (mt_y t))
              else Some false
            else Some false);
  if (future : bool) then Some (NegInf, ix) else
  w ← (if m_swa a then is_masked_swa (n_swa c) (swa_type c) p0 (mt_p1 t) else Some false);
  if (w : bool) then Some (NegInf, ix) else
  if m_alibi a then d ← i32_chk (p0 - mt_p1 t); Some (Num (- Z.abs d), ix)
  else Some (Num 0, ix).

(** [for (jj = 0; jj < n_kv; ++jj)] from [jj] on, for [k] more rounds. *)
Fixpoint mask_row (a : mask_args) (c : llama_kv_cache) (cells : llama_kv_cells) (t : mask_tok) (prev : bool) (idst : nat)
    (k jj : nat) (st : list mask_val * list nat) : option (list mask_val * list nat) :=
  match k with
  | 0 => Some st
  | S k =>
      let '(data, ix) := st in
      let reuse := negb (m_alibi a) && prev in
      if reuse && bool_decide (length ix <= jj) then Some st else
      j ← (if reuse then ix !! jj else Some jj);
      '(v, ix) ← mask_entry a c cells t prev j ix;
      data ← set_at (idst + j) v data;
      mask_row a c cells t prev idst k (S jj) (data, ix)
  end.

(** [std::copy] of one row. *)
Definition copy_row (n src dst : nat) (data : list mask_val) : option (list mask_val) :=
  foldM (fun j data => v ← data !! (src + j); set_at (dst + j) v data) (seq 0 n) data.

(** The state of the loop over the tokens of a stream: the mask, [seq_srct] and
    [seq_idxs]. *)
Definition mask_state : Type := list mask_val * gmap Z nat * gmap Z (list nat).

Definition mask_token (a : mask_args) (c : llama_kv_cache) (u : B.llama_ubatch) (mins : list Z) (n_kv i : nat)
    (st : mask_state) : option mask_state :=
  let '(data, srct, sidx) := st in
  seq_id ← seq_id0 u i;
  str ← seq_to_stream c !! Z.to_nat seq_id;
  cells ← v_cells c !! str;
  p1 ← B.u_pos u !! i;
  x ← (if m_2d a then B.u_pos u !! (i + B.u_n_tokens u * 2) else Some 0%Z);
  y ← (if m_2d a then B.u_pos u !! (i + B.u_n_tokens u) else Some 0%Z);
  lo ← mins !! Z.to_nat seq_id;
  let t := mkMaskTok seq_id p1 x y lo in
  let ix := default [] (sidx !! seq_id) in
  let idst := n_kv * i in
  '(data, srct, ix, prev) ← (if m_alibi a then Some (data, srct, ix, false) else
     match srct !! seq_id with
     | Some src => data ← copy_row n_kv (n_kv * src) idst data; Some (data, srct, ix, true)
     | None => Some (data, <[seq_id := i]> srct, [], false)
     end);
  '(data, ix) ← mask_row a c cells t prev idst n_kv 0 (data, ix);
  Some (data, srct, <[seq_id := ix]> sidx).

Definition set_input_kq_mask_impl (a : mask_args) (c : llama_kv_cache) (u : B.llama_ubatch) (n_kv ns n_tps : nat)
    (data : list mask_val) : option (list mask_val) :=
  mins ← seq_mins u;
  foldM (fun s data =>
    '(data, _, _) ← foldM (fun ii st => mask_token a c u mins n_kv (s * n_tps + ii) st) (seq 0 n_tps) (data, ∅, ∅);
    Some data) (seq 0 ns) data.

(** The template dispatch; [use_alibi] is [hparams.use_alibi], [n_kv] and [ns]
    are the dimensions [ne[0]] and [ne[3]] of the mask. *)
Definition set_input_kq_mask (use_alibi causal_attn : bool) (n_kv ns : nat) (c : llama_kv_cache) (u : B.llama_ubatch)
    (data : list mask_val) : option (list mask_val) :=
  if bool_decide (ns = 0) then None else
  GGML_ASSERT bool_decide (B.u_n_tokens u `mod` ns = 0);
  let swa := negb (bool_decide (swa_type c = LLAMA_SWA_TYPE_NONE)) in
  set_input_kq_mask_impl (mkMaskArgs causal_attn swa (B.is_pos_2d u) use_alibi) c u n_kv ns (B.u_n_tokens u / ns) data.
End Ops.

(** * The attention relation *)

(** The token [t] may attend to cell [j]: the cell holds its sequence, it is not
    in the future of the token and not outside of its window. *)
Definition sees (a : mask_args) (c : llama_kv_cache) (cells : llama_kv_cells) (t : mask_tok) (j : nat) : Prop :=
  match view cells j with
  | None => False
  | Some (p0, q) =>
      mt_seq t ∈ q /\
      (m_causal a = true -> (p0 <= mt_p1 t)%Z /\
         (m_2d a = true -> p0 = mt_p1 t -> is_2d_gt (default ext0 (ext cells !! j)) (mt_x t) (mt_y t) = false)) /\
      ~ swa_masked (n_swa c) (swa_type c) p0 (mt_p1 t)
  end.

#[global] Instance sees_dec a c cells t j : Decision (sees a c cells t j).
Proof. unfold sees. destruct (view cells j) as [[p0 q]|]; apply _. Defined.

Definition cell_pos (cells : llama_kv_cells) (j : nat) : Z := default (-1)%Z (fst <$> view cells j).

Definition entry_val (a : mask_args) (c : llama_kv_cache) (cells : llama_kv_cells) (t : mask_tok) (j : nat) : mask_val :=
  if decide (sees a c cells t j) then Num (if m_alibi a then - Z.abs (cell_pos cells j - mt_p1 t) else 0) else NegInf.

(** The cells of the sequence whose entry can differ between its tokens. *)
Definition near (c : llama_kv_cache) (cells : llama_kv_cells) (t : mask_tok) (j : nat) : Prop :=
  match view cells j with None => False | Some (p0, q) => mt_seq t ∈ q /\ (mt_min t <= p0 + (n_swa c + 32))%Z end.

#[global] Instance near_dec c cells t j : Decision (near c cells t j).
Proof. unfold near. destruct (view cells j) as [[p0 q]|]; apply _. Defined.

(** The cells leave room for the window, and the token is of a stream. *)
Record mask_cells (c : llama_kv_cache) (cells : llama_kv_cells) : Prop := {
  mc_wf   : wf cells;
  mc_swa  : swa_size_ok (n_swa c) (swa_type c);
  mc_room : forall j p q, view cells j = Some (p, q) -> (p + n_swa c + 32 <= INT32_MAX)%Z;
}.

Definition mask_tok_ok (t : mask_tok) : Prop := (0 <= mt_seq t < LLAMA_MAX_SEQ)%Z /\ (mt_min t <= mt_p1 t <= INT32_MAX)%Z /\ (0 <= mt_p1 t)%Z.

Section Entry.
Context `{BM : BuildMode} (a : mask_args) (c : llama_kv_cache) (cells : llama_kv_cells).
Context (Hc : mask_cells c cells) (Hswa : m_swa a = true <-> swa_type c <> LLAMA_SWA_TYPE_NONE).

Lemma window_test t p0 : (0 <= p0 <= INT32_MAX)%Z -> mask_tok_ok t ->
  (if m_swa a then is_masked_swa (n_swa c) (swa_type c) p0 (mt_p1 t) else Some false) =
    Some (bool_decide (swa_masked (n_swa c) (swa_type c) p0 (mt_p1 t))).
Proof.
  intros Hp (_ & H1 & H2). destruct (m_swa a).
  - apply masked_ok; [apply Hc|done|lia].
  - rewrite bool_decide_false; [done|]. destruct (swa_type c); [intros H; exact H|naive_solver..].
Qed.

Lemma near_sum p : (0 <= p)%Z -> (p + n_swa c + 32 <= INT32_MAX)%Z ->
  i32_chk (p + i32_of_u32 (u32_wrap (n_swa c + 32))) = Some (p + (n_swa c + 32))%Z.
Proof.
  intros Hp Hr. destruct (mc_swa _ _ Hc) as [Hn _]. rewrite u32_wrap_small by (unfold INT32_MAX in *; lia).
  rewrite i32_of_u32_small by lia. apply i32_chk_Some. unfold INT32_MIN. lia.
Qed.

Lemma near_test t prev p0 (q : gset Z) j ix : (0 <= p0)%Z -> (p0 + n_swa c + 32 <= INT32_MAX)%Z ->
  (near c cells t j <-> mt_seq t ∈ q /\ (mt_min t <= p0 + (n_swa c + 32))%Z) -> mt_seq t ∈ q ->
  (if negb (m_alibi a) && negb prev then q ← i32_chk (p0 + i32_of_u32 (u32_wrap (n_swa c + 32)));
     Some (if bool_decide (mt_min t <= q)%Z then ix ++ [j] else ix) else Some ix) =
    Some (if decide (m_alibi a = false /\ prev = false /\ near c cells t j) then ix ++ [j] else ix).
Proof.
  intros Hp Hr Hn Hq. destruct (m_alibi a), prev; cbn [negb andb]; try (rewrite decide_False by (intros (? & ? & _); done); reflexivity).
  rewrite near_sum by lia. cbn [mbind option_bind]. f_equal.
  case_bool_decide as H; [rewrite decide_True by tauto|rewrite decide_False by (rewrite Hn; intros (_ & _ & _ & ?); by apply H)]; done.
Qed.

Lemma future_test t p0 e : exists b,
  (if m_causal a then if bool_decide (mt_p1 t < p0)%Z then Some true else
     if m_2d a && bool_decide (p0 = mt_p1 t) then Some (is_2d_gt e (mt_x t) (mt_y t)) else Some false
   else Some false) = Some b /\
  (b = false <-> (m_causal a = true -> (p0 <= mt_p1 t)%Z /\ (m_2d a = true -> p0 = mt_p1 t -> is_2d_gt e (mt_x t) (mt_y t) = false))).
Proof.
  destruct (m_causal a); [|by exists false].
  case_bool_decide as H; [exists true; split; [done|]; split; [done|intros H'; specialize (H' eq_refl); lia]|].
  destruct (m_2d a); simpl; [case_bool_decide as H0|].
  - exists (is_2d_gt e (mt_x t) (mt_y t)). split; [done|]. split; [intros; split; [lia|done]|]. intros H'. by apply H'.
  - exists false. split; [done|]. split; [intros; split; [lia|done]|done].
  - exists false. split; [done|]. split; [intros; split; [lia|done]|done].
Qed.

Lemma mask_entry_ok t prev j ix : j < size cells -> mask_tok_ok t ->
  mask_entry a c cells t prev j ix =
    Some (entry_val a c cells t j, if decide (m_alibi a = false /\ prev = false /\ near c cells t j) then ix ++ [j] else ix).
Proof.
  intros Hj Ht. pose proof Ht as (Hs & H1 & H2). pose proof (mc_wf _ _ Hc) as Hwf. unfold mask_entry, entry_val, cell_pos.
  rewrite is_empty_spec by done. cbn [mbind option_bind].
  assert (view cells j = None -> ~ sees a c cells t j /\ ~ near c cells t j) as Hnone by (intros Hv; unfold sees, near; rewrite Hv; split; intros []).
  destruct (decide (view cells j = None)) as [Hv|Hv].
  { rewrite bool_decide_true by done. destruct (Hnone Hv). rewrite !decide_False by tauto. done. }
  clear Hnone. destruct (view cells j) as [[p0 q]|] eqn:Hvj; [clear Hv|done]. rewrite <- Hvj.
  assert (near c cells t j <-> mt_seq t ∈ q /\ (mt_min t <= p0 + (n_swa c + 32))%Z) as Hnear by (unfold near; by rewrite Hvj).
  assert (sees a c cells t j <-> mt_seq t ∈ q /\ (m_causal a = true -> (p0 <= mt_p1 t)%Z /\
         (m_2d a = true -> p0 = mt_p1 t -> is_2d_gt (default ext0 (ext cells !! j)) (mt_x t) (mt_y t) = false)) /\
      ~ swa_masked (n_swa c) (swa_type c) p0 (mt_p1 t)) as Hsees by (unfold sees; by rewrite Hvj).
  rewrite bool_decide_false by (by rewrite Hvj). rewrite (seq_has_spec cells j (mt_seq t)), Hvj by done. cbn [mbind option_bind].
  case_bool_decide as Hq; cbn [negb]; [|by rewrite !decide_False by tauto].
  rewrite (pos_get_spec cells j p0 q) by done. cbn [mbind option_bind].
  pose proof (view_range cells j p0 q Hwf Hvj) as Hp0. pose proof (mc_room _ _ Hc j p0 q Hvj) as Hroom.
  rewrite (near_test t prev p0 q j ix) by (done || lia). cbn [mbind option_bind].
  destruct (ext_get_spec cells j p0 q Hwf Hvj) as (e & He & He'). rewrite He. rewrite He' in Hsees. cbn [default from_option] in Hsees.
  rewrite (window_test t p0) by (done || lia). cbn [mbind option_bind fmap option_fmap option_map fst default from_option].
  rewrite i32_chk_Some by (unfold INT32_MIN, INT32_MAX in *; lia). cbn [mbind option_bind].
  destruct (future_test t p0 e) as (b & -> & Hb). cbn [mbind option_bind].
  destruct b; [rewrite (decide_False (P := sees a c cells t j)); [done|rewrite Hsees; intros (_ & HF & _); by apply Hb in HF]|].
  apply proj1 in Hb. specialize (Hb eq_refl). case_bool_decide as Hm.
  - rewrite (decide_False (P := sees a c cells t j)); [done|]. rewrite Hsees. by intros (_ & _ & ?).
  - rewrite (decide_True (P := sees a c cells t j)) by (by apply Hsees). by destruct (m_alibi a).
Qed.

(** The entry of a cell that is not [near] is the same for all tokens of the
    sequence. *)
Lemma entry_far t t' j : m_alibi a = false -> mask_tok_ok t -> mask_tok_ok t' -> mt_seq t = mt_seq t' -> mt_min t = mt_min t' ->
  ~ near c cells t j -> entry_val a c cells t j = entry_val a c cells t' j.
Proof.
  intros Ha (_ & Ht & _) (_ & Ht' & _) Hs Hmin Hnear. unfold entry_val. rewrite Ha.
  rewrite (decide_ext (sees a c cells t j) (sees a c cells t' j)); [done|].
  unfold sees, near in *. destruct (view cells j) as [[p0 q]|] eqn:Hv; [|done]. rewrite <- Hs.
  assert (mt_seq t ∈ q -> (p0 + (n_swa c + 32) < mt_min t)%Z) as Hfar by (intros; destruct (decide (mt_min t <= p0 + (n_swa c + 32))%Z); [tauto|lia]).
  destruct (mc_swa _ _ Hc) as [Hn Hch].
  assert (mt_seq t ∈ q -> forall p1, (mt_min t <= p1)%Z -> swa_masked (n_swa c) (swa_type c) p0 p1 <-> swa_type c <> LLAMA_SWA_TYPE_NONE) as Hmask.
  { intros Hq p1 Hp1. specialize (Hfar Hq). unfold swa_masked. destruct (swa_type c) eqn:Ety; (split; [done|intros H]).
    - by apply H.
    - lia.
    - specialize (Hch eq_refl). apply Z.lt_le_trans with (p0 / n_swa c + 1)%Z; [lia|].
      replace (p0 / n_swa c + 1)%Z with ((p0 + 1 * n_swa c) / n_swa c)%Z by (rewrite Z.div_add; lia). apply Z.div_le_mono; lia.
    - pose proof (Z.div_le_upper_bound (n_swa c) 2 (n_swa c) ltac:(lia) ltac:(lia)). lia. }
  split; intros (Hq & Hca & Hno); specialize (Hfar Hq); specialize (Hmask Hq);
    (split; [done|split; [intros _; split; [lia|intros _ ->; lia]|]]).
  - rewrite Hmask in Hno |- *; [done|lia..].
  - rewrite Hmask in Hno |- *; [done|lia..].
Qed.
End Entry.


(** * The number of cells the graph looks at *)

Section Window.
Context `{BM : BuildMode}.

(** [n_pad], the granularity of the padding, is a power of two. *)
Definition pad_ok (c : llama_kv_cache) : Prop := exists k, (0 <= k < 31)%Z /\ Z.of_nat (n_pad c `max` 256) = (2 ^ k)%Z.

Lemma GGML_PAD_up x n k : (0 <= k < 31)%Z -> Z.of_nat n = (2 ^ k)%Z -> (Z.of_nat x <= INT32_MAX)%Z -> x <= GGML_PAD x n.
Proof.
  intros Hk Hn Hx. unfold GGML_PAD. assert (2 ^ k <= 2 ^ 30)%Z as Hb by (apply Z.pow_le_mono_r; lia). change (2 ^ 30)%Z with 1073741824%Z in Hb.
  assert (0 < 2 ^ k)%Z as Hp by (apply Z.pow_pos_nonneg; lia). unfold INT32_MAX in Hx. rewrite Hn.
  rewrite u32_wrap_small by lia. assert (u32_wrap (Z.lnot (2 ^ k - 1)) = 2 ^ 32 - 2 ^ k)%Z as ->.
  { unfold u32_wrap, Z.lnot. change 4294967296%Z with (2 ^ 32)%Z. rewrite <- (Z_mod_plus_full _ 1), Z.mod_small; lia. }
  pose proof (pad_up 32 (Z.of_nat x) k) as [_ [Hlo _]]; [lia|lia|lia|]. lia.
Qed.

Lemma used_max_le cells : wf cells -> used_max_p1 cells <= size cells.
Proof.
  intros Hw. destruct (used_max_p1_ok cells Hw) as [_ Hlast]. destruct (decide (used_max_p1 cells = 0)) as [->|Hne]; [lia|].
  specialize (Hlast ltac:(lia)). destruct (view cells _) as [[p q]|] eqn:E; [|done]. apply view_size in E. lia.
Qed.

(** [get_n_kv] never asks for more cells than there are, and the cells it asks
    for include every used one: no cell that a token may attend to is cut off. *)
Theorem get_n_kv_covers (n : nat) (c : llama_kv_cache) (si : slot_info) (k m : nat) : wf_kv n c -> pad_ok c -> slot_shape n (n_stream c) si k m ->
  exists r, get_n_kv si c = Some r /\ r <= n /\
    forall s st i, strm si !! s = Some st -> kv_view c st i <> None -> i < r.
Proof.
  intros Hwf (e & He & Hpad) Hss. unfold get_n_kv, slot_n_stream. rewrite (ss_strm _ _ _ _ _ Hss).
  destruct (foldM_seq (fun s result => str ← strm si !! s; cells ← v_cells c !! str;
    Some ((size cells `min` ((n_pad c `max` 256) `max` GGML_PAD (used_max_p1 cells) (n_pad c `max` 256))) `max` result))
    (fun j r => r <= n /\ forall s st i, s < j -> strm si !! s = Some st -> kv_view c st i <> None -> i < r) 0 k 0)
    as (r & Hrun & Hr & Hcov); [split; lia| |].
  - intros s r [_ Hs] [Hr Hcov]. destruct (lookup_lt_is_Some_2 (strm si) s) as [st Hst]; [by rewrite (ss_strm _ _ _ _ _ Hss)|].
    destruct (lookup_lt_is_Some_2 (idxs si) s) as [row Hrow]; [by rewrite (ss_idxs _ _ _ _ _ Hss)|].
    destruct (ss_row _ _ _ _ _ Hss s st row Hst Hrow) as (Hns & _).
    destruct (stream_cells Hwf st Hns) as (cells & _ & Hc & _ & Hw & Hsz & _). rewrite Hst. cbn [mbind option_bind]. rewrite Hc. cbn [mbind option_bind].
    eexists. split; [reflexivity|]. split; [lia|]. intros s' st' i Hs' Hst' Hv. destruct (decide (s' = s)) as [->|Hne].
    + simplify_eq. rewrite (view_kv st cells) in Hv by done.
      assert (i < used_max_p1 cells) as Hi.
      { destruct (decide (used_max_p1 cells <= i)) as [Hle|]; [|lia]. exfalso. apply Hv.
        destruct (used_max_p1_ok cells Hw) as [Habove _]. by apply Habove. }
      assert (i < size cells) as Hsize.
      { destruct (view cells i) as [[p q]|] eqn:E; [|done]. by apply view_size in E. }
      pose proof (wf_size _ Hw) as Hmax. pose proof (used_max_le cells Hw) as Hle. unfold size in *.
      pose proof (GGML_PAD_up (used_max_p1 cells) (n_pad c `max` 256) e He Hpad ltac:(lia)). lia.
    + pose proof (Hcov s' st' i ltac:(lia) Hst' Hv). lia.
  - exists r. split_and!; [done|done|]. intros s st i Hst. apply (Hcov s); [|done].
    apply lookup_lt_Some in Hst. by rewrite (ss_strm _ _ _ _ _ Hss) in Hst.
Qed.

End Window.

(** * Rows of the mask *)

(** Row [i] of the mask holds [f]. *)
Definition row_is (n i : nat) (f : nat -> mask_val) (data : list mask_val) : Prop :=
  forall j, j < n -> data !! (n * i + j) = Some (f j).

(** The masks agree outside of row [i]. *)
Definition same_rows (n i : nat) (data data' : list mask_val) : Prop :=
  length data' = length data /\ forall r j, r <> i -> j < n -> data' !! (n * r + j) = data !! (n * r + j).

Lemma same_rows_refl n i data : same_rows n i data data.
Proof. done. Qed.

Lemma same_rows_trans n i d1 d2 d3 : same_rows n i d1 d2 -> same_rows n i d2 d3 -> same_rows n i d1 d3.
Proof. intros [L1 H1] [L2 H2]. split; [by rewrite L2|]. intros r j Hr Hj. by rewrite H2, H1. Qed.

Lemma row_index n r j i k : j < n -> k < n -> n * r + j = n * i + k -> r = i /\ j = k.
Proof.
  intros Hj Hk H. assert (r = i) as ->; [|split; [done|lia]].
  rewrite (Nat.div_unique (n * r + j) n r j Hj eq_refl), (Nat.div_unique (n * i + k) n i k Hk eq_refl). by rewrite H.
Qed.

Lemma same_rows_insert n i data j v : j < n -> same_rows n i data (<[n * i + j := v]> data).
Proof.
  intros Hj. split; [apply length_insert|]. intros r k Hr Hk. apply list_lookup_insert_ne. intros H.
  apply row_index in H as [-> _]; done.
Qed.

Lemma row_is_same n i r f data data' : same_rows n i data data' -> r <> i -> row_is n r f data -> row_is n r f data'.
Proof. intros [_ H] Hr Hrow j Hj. rewrite H by done. by apply Hrow. Qed.

Lemma copy_row_ok n src dst data : src <> dst -> n * dst + n <= length data -> n * src + n <= length data ->
  exists data', copy_row n (n * src) (n * dst) data = Some data' /\ same_rows n dst data data' /\
    forall f, row_is n src f data -> row_is n dst f data'.
Proof.
  intros Hne Hd Hs. unfold copy_row.
  destruct (foldM_seq (fun j d => v ← d !! (n * src + j); set_at (n * dst + j) v d)
    (fun k d => same_rows n dst data d /\ forall j, j < k -> d !! (n * dst + j) = data !! (n * src + j)) 0 n data)
    as (data' & Hrun & Hsame & Hrow).
  - split; [done|lia].
  - intros j d [_ Hj] [Hsame Hrow]. destruct Hsame as [Hl Hsm].
    destruct (lookup_lt_is_Some_2 d (n * src + j)) as [v Hv]; [lia|]. rewrite Hv. cbn [mbind option_bind].
    rewrite set_at_ok by lia. eexists. split; [reflexivity|]. split.
    + eapply same_rows_trans; [split; [done|exact Hsm]|by apply same_rows_insert].
    + intros k Hk. destruct (decide (k = j)) as [->|Hkj].
      * rewrite list_lookup_insert_eq by lia. by rewrite <- Hv, Hsm.
      * rewrite list_lookup_insert_ne by lia. apply Hrow. lia.
  - exists data'. split_and!; [done|apply Hsame..|]. intros f Hf j Hj. rewrite Hrow by lia. by apply Hf.
Qed.

Section Rows.
Context `{BM : BuildMode} (a : mask_args) (c : llama_kv_cache) (cells : llama_kv_cells) (t : mask_tok) (n i : nat).
Context (Hc : mask_cells c cells) (Hswa : m_swa a = true <-> swa_type c <> LLAMA_SWA_TYPE_NONE).
Context (Ht : mask_tok_ok t) (Hn : n <= size cells).

(** A full pass over the cells. *)
Lemma mask_row_full : forall k jj data ix, jj + k = n -> n * i + n <= length data ->
  exists data', mask_row a c cells t false (n * i) k jj (data, ix) =
      Some (data', if m_alibi a then ix else ix ++ filter (near c cells t) (seq jj k)) /\
    same_rows n i data data' /\
    forall j, j < n -> data' !! (n * i + j) = if decide (jj <= j) then Some (entry_val a c cells t j) else data !! (n * i + j).
Proof.
  induction k as [|k IH]; intros jj data ix Hk Hl; cbn [mask_row].
  - exists data. split; [destruct (m_alibi a); [done|by rewrite app_nil_r]|]. split; [done|]. intros j Hj. by rewrite decide_False by lia.
  - rewrite andb_false_r. cbn [andb mbind option_bind]. rewrite (mask_entry_ok a c cells Hc Hswa) by (done || lia). cbn [mbind option_bind].
    rewrite set_at_ok by lia. cbn [mbind option_bind].
    destruct (IH (S jj) (<[n * i + jj := entry_val a c cells t jj]> data)
      (if decide (m_alibi a = false /\ false = false /\ near c cells t jj) then ix ++ [jj] else ix)) as (data' & -> & Hs & Hrow);
      [lia|by rewrite length_insert|].
    exists data'. split; [|split; [refine (same_rows_trans _ _ _ _ _ (same_rows_insert _ _ _ jj _ _) Hs); lia|]].
    + f_equal. f_equal. cbn [seq]. rewrite filter_cons. destruct (m_alibi a); [by rewrite decide_False by (by intros [? _])|].
      destruct (decide (near c cells t jj)); [rewrite decide_True by done|rewrite decide_False by (by intros (_ & _ & ?)); done].
      by rewrite <- app_assoc.
    + intros j Hj. rewrite Hrow by done. destruct (decide (S jj <= j)); [by rewrite decide_True by lia|].
      destruct (decide (j = jj)) as [->|Hne].
      * rewrite decide_True by lia. apply list_lookup_insert_eq. lia.
      * rewrite decide_False by lia. apply list_lookup_insert_ne. lia.
Qed.

(** A pass over the recorded cells. *)
Lemma mask_row_reuse ix : m_alibi a = false -> (forall x, x ∈ ix -> x < n) -> length ix <= n ->
  forall k jj data, jj + k = n -> n * i + n <= length data ->
  exists data', mask_row a c cells t true (n * i) k jj (data, ix) = Some (data', ix) /\ same_rows n i data data' /\
    forall j, j < n -> data' !! (n * i + j) = if decide (j ∈ drop jj ix) then Some (entry_val a c cells t j) else data !! (n * i + j).
Proof.
  intros Ha Hix Hlen. induction k as [|k IH]; intros jj data Hk Hl; cbn [mask_row].
  - exists data. split_and!; [done|done|]. intros j Hj. rewrite drop_ge by lia. by rewrite decide_False by (by apply not_elem_of_nil).
  - rewrite Ha. cbn [negb andb]. case_bool_decide as Hend.
    + exists data. split_and!; [done|done|]. intros j Hj. rewrite drop_ge by lia. by rewrite decide_False by (by apply not_elem_of_nil).
    + destruct (lookup_lt_is_Some_2 ix jj) as [x Hx]; [lia|]. rewrite Hx. cbn [mbind option_bind].
      assert (x < n) as Hxn by (apply Hix; by eapply list_elem_of_lookup_2).
      rewrite (mask_entry_ok a c cells Hc Hswa) by (done || lia). cbn [mbind option_bind].
      rewrite (decide_False (P := _ /\ _ /\ _)) by (by intros (_ & ? & _)).
      rewrite set_at_ok by lia. cbn [mbind option_bind].
      destruct (IH (S jj) (<[n * i + x := entry_val a c cells t x]> data)) as (data' & -> & Hs & Hrow); [lia|by rewrite length_insert|].
      exists data'. split; [done|]. split; [exact (same_rows_trans _ _ _ _ _ (same_rows_insert _ _ _ x _ Hxn) Hs)|].
      intros j Hj. rewrite Hrow by done. rewrite (drop_S ix x jj Hx).
      destruct (decide (j ∈ drop (S jj) ix)); [by rewrite decide_True by (by right)|].
      destruct (decide (j = x)) as [->|Hne].
      * rewrite decide_True by (by left). apply list_lookup_insert_eq. lia.
      * rewrite decide_False by (rewrite elem_of_cons; tauto). apply list_lookup_insert_ne. lia.
Qed.
End Rows.


(** * The tokens of the batch *)

(** The token of row [i], as the loop sees it; [mt_min] does not matter here. *)
Definition tok_at (u : B.llama_ubatch) (i : nat) : option mask_tok :=
  id ← seq_id0 u i;
  p ← B.u_pos u !! i;
  x ← (if B.is_pos_2d u then B.u_pos u !! (i + B.u_n_tokens u * 2) else Some 0%Z);
  y ← (if B.is_pos_2d u then B.u_pos u !! (i + B.u_n_tokens u) else Some 0%Z);
  Some (mkMaskTok id p x y p).

Definition with_min (lo : Z) (t : mask_tok) : mask_tok := mkMaskTok (mt_seq t) (mt_p1 t) (mt_x t) (mt_y t) lo.

(** Every token has a position and a sequence of a stream of the cache. *)
Definition mask_batch (c : llama_kv_cache) (u : B.llama_ubatch) : Prop :=
  forall i, i < B.u_n_tokens u -> exists t st, tok_at u i = Some t /\ (0 <= mt_p1 t <= INT32_MAX)%Z /\ home c (mt_seq t) = Some st.

Lemma tok_at_fields u i t : tok_at u i = Some t -> seq_id0 u i = Some (mt_seq t) /\ B.u_pos u !! i = Some (mt_p1 t) /\
  (if B.is_pos_2d u then B.u_pos u !! (i + B.u_n_tokens u * 2) else Some 0%Z) = Some (mt_x t) /\
  (if B.is_pos_2d u then B.u_pos u !! (i + B.u_n_tokens u) else Some 0%Z) = Some (mt_y t).
Proof. unfold tok_at. intros H. inv_opt H. by subst. Qed.

(** The least positions: below every token of the sequence. *)
Lemma seq_mins_ok n c u : wf_kv n c -> mask_batch c u ->
  exists mins, seq_mins u = Some mins /\ length mins = Z.to_nat LLAMA_MAX_SEQ /\
    forall i t, i < B.u_n_tokens u -> tok_at u i = Some t -> exists lo, mins !! Z.to_nat (mt_seq t) = Some lo /\ (lo <= mt_p1 t)%Z.
Proof.
  intros Hwf Hb. unfold seq_mins.
  destruct (foldM_seq (fun i m => id ← seq_id0 u i; x ← m !! Z.to_nat id; p ← B.u_pos u !! i; set_at (Z.to_nat id) (Z.min x p) m)
    (fun k m => length m = Z.to_nat LLAMA_MAX_SEQ /\
       forall i t, i < k -> tok_at u i = Some t -> exists lo, m !! Z.to_nat (mt_seq t) = Some lo /\ (lo <= mt_p1 t)%Z)
    0 (B.u_n_tokens u) (replicate (Z.to_nat LLAMA_MAX_SEQ) INT32_MAX)) as (mins & Hrun & Hl & Hm).
  - split; [apply length_replicate|lia].
  - intros i m [_ Hi] [Hl Hm]. destruct (Hb i Hi) as (t & st & Ht & Hp & Hst).
    destruct (tok_at_fields u i t Ht) as (-> & -> & _). cbn [mbind option_bind]. destruct (home_range Hwf _ _ Hst) as (Hr & _).
    destruct (lookup_lt_is_Some_2 m (Z.to_nat (mt_seq t))) as [x Hx]; [lia|]. rewrite Hx. cbn [mbind option_bind].
    rewrite set_at_ok by lia. eexists. split; [reflexivity|]. split; [by rewrite length_insert|].
    intros i' t' Hi' Ht'. destruct (decide (Z.to_nat (mt_seq t') = Z.to_nat (mt_seq t))) as [Heq|Hne].
    + rewrite Heq, list_lookup_insert_eq by lia. eexists. split; [done|]. destruct (decide (i' = i)) as [->|Hne].
      * simplify_eq. lia.
      * destruct (Hm i' t') as (lo & Hlo & ?); [lia|done|]. rewrite Heq, Hx in Hlo. injection Hlo as <-. lia.
    + rewrite list_lookup_insert_ne by done. apply (Hm i'); [|done]. destruct (decide (i' = i)) as [->|]; [simplify_eq|lia].
  - exists mins. split_and!; [done|done|]. intros i t Hi. by apply Hm.
Qed.

Section Tokens.
Context `{BM : BuildMode} (a : mask_args) (size : nat) (c : llama_kv_cache) (u : B.llama_ubatch) (n : nat) (mins : list Z).
Context (Hwf : wf_kv size c) (Hn : n <= size) (Hsz : swa_size_ok (n_swa c) (swa_type c)).
Context (Hroom : forall st j p q, kv_view c st j = Some (p, q) -> (p + n_swa c + 32 <= INT32_MAX)%Z).
Context (Hswa : m_swa a = true <-> swa_type c <> LLAMA_SWA_TYPE_NONE) (H2d : m_2d a = B.is_pos_2d u) (Hb : mask_batch c u).
Context (Hmins : forall i t, i < B.u_n_tokens u -> tok_at u i = Some t -> exists lo, mins !! Z.to_nat (mt_seq t) = Some lo /\ (lo <= mt_p1 t)%Z).

Lemma stream_mask_cells st cells : v_cells c !! st = Some cells -> mask_cells c cells /\ n <= Cells.size cells.
Proof.
  intros Hc. destruct (kw_wf _ _ Hwf _ _ Hc) as [Hw Hs]. split; [|lia]. split; [done|done|].
  intros j p q Hv. apply (Hroom st j p q). by rewrite (view_kv st cells).
Qed.

(** Row [i] of the mask is right. *)
Definition row_done (data : list mask_val) (i : nat) : Prop :=
  forall t st cells, tok_at u i = Some t -> home c (mt_seq t) = Some st -> v_cells c !! st = Some cells ->
    row_is n i (entry_val a c cells t) data.

(** Before token [i]: the rows so far are right, and for a sequence that was
    seen, the row of its first token and its cells to look at again. *)
Definition mask_inv (i : nat) (x : mask_state) : Prop :=
  let '(data, srct, sidx) := x in
  length data = n * B.u_n_tokens u /\ (forall r, r < i -> row_done data r) /\ (m_alibi a = true -> srct = ∅) /\
  (forall id src, srct !! id = Some src -> src < i /\
     exists t st cells lo, tok_at u src = Some t /\ mt_seq t = id /\ home c id = Some st /\ v_cells c !! st = Some cells /\
       mins !! Z.to_nat id = Some lo /\ sidx !! id = Some (filter (near c cells (with_min lo t)) (seq 0 n))).

Lemma row_done_same i r data data' : same_rows n i data data' -> r <> i -> row_done data r -> row_done data' r.
Proof. intros Hs Hr Hd t st cells Ht Hst Hc. apply (row_is_same n i r _ data); [done|done|]. by apply (Hd t st). Qed.

(** The rows after row [i] has been written. *)
Lemma rows_step i data data' t st cells : same_rows n i data data' -> (forall r, r < i -> row_done data r) ->
  tok_at u i = Some t -> home c (mt_seq t) = Some st -> v_cells c !! st = Some cells ->
  (forall j, j < n -> data' !! (n * i + j) = Some (entry_val a c cells t j)) -> forall r, r < S i -> row_done data' r.
Proof.
  intros Hs Hd Ht Hst Hc Hrow r Hr. destruct (decide (r = i)) as [->|Hne].
  - intros t' st' cells' Ht' Hst' Hc'. simplify_eq. exact Hrow.
  - apply (row_done_same i r data); [done|done|]. apply Hd. lia.
Qed.

Lemma near_with_min cells lo t t' j : mt_seq t = mt_seq t' -> near c cells (with_min lo t) j <-> near c cells (with_min lo t') j.
Proof. intros H. unfold near. simpl. by rewrite H. Qed.

Lemma mask_token_ok i x : i < B.u_n_tokens u -> mask_inv i x ->
  exists x', mask_token a c u mins n i x = Some x' /\ mask_inv (S i) x'.
Proof.
  destruct x as [[data srct] sidx]. intros Hi (Hl & Hrows & Hal & Hmaps). destruct (Hb i Hi) as (t & st & Ht & Hp & Hst).
  destruct (tok_at_fields u i t Ht) as (F1 & F2 & F3 & F4). destruct (home_range Hwf _ _ Hst) as (Hr & Hlt & _).
  destruct (stream_cells Hwf st Hlt) as (cells & _ & Hc & _). destruct (stream_mask_cells st cells Hc) as [Hmc Hnc].
  destruct (Hmins i t Hi Ht) as (lo & Hlo & Hle). pose proof Hst as Hst'. unfold home in Hst'. rewrite bool_decide_true in Hst' by lia.
  unfold mask_token. rewrite F1. cbn [mbind option_bind]. rewrite Hst'. cbn [mbind option_bind]. rewrite Hc. cbn [mbind option_bind].
  rewrite F2. cbn [mbind option_bind]. rewrite H2d, F3. cbn [mbind option_bind]. rewrite F4. cbn [mbind option_bind].
  rewrite Hlo. cbn [mbind option_bind]. change (mkMaskTok (mt_seq t) (mt_p1 t) (mt_x t) (mt_y t) lo) with (with_min lo t).
  assert (mask_tok_ok (with_min lo t)) as Hok by (split; [done|]; simpl; lia).
  assert (n * i + n <= length data) as Hfit by nia.
  destruct (m_alibi a) eqn:Ea; cbn [mbind option_bind]; [|destruct (srct !! mt_seq t) as [src|] eqn:Hsrc].
  - destruct (mask_row_full a c cells (with_min lo t) n i Hmc Hswa Hok Hnc n 0 data (default [] (sidx !! mt_seq t)) eq_refl Hfit)
      as (data' & -> & Hs & Hrow). rewrite Ea. cbn [mbind option_bind]. eexists. split; [reflexivity|].
    split; [by rewrite (proj1 Hs)|]. split.
    { apply (rows_step i data data' t st cells); [done..|]. intros j Hj. rewrite Hrow, decide_True by (done || lia). done. }
    split; [intros _; by apply Hal|]. rewrite (Hal eq_refl). intros id src H. by rewrite lookup_empty in H.
  - destruct (Hmaps _ _ Hsrc) as (Hlt' & t' & st' & cells' & lo' & Ht' & Hid & Hst1 & Hc' & Hlo' & Hix). simplify_eq.
    destruct (copy_row_ok n src i data) as (data1 & -> & Hs1 & Hcopy); [lia|done|nia|]. cbn [mbind option_bind]. rewrite Hix. cbn [default from_option].
    set (ix := filter (near c cells (with_min lo t')) (seq 0 n)).
    assert (forall j, j ∈ ix <-> j < n /\ near c cells (with_min lo t) j) as Hin.
    { intros j. unfold ix. rewrite list_elem_of_filter, elem_of_seq, (near_with_min cells lo t' t j) by done. intuition lia. }
    destruct (mask_row_reuse a c cells (with_min lo t) n i Hmc Hswa Hok Hnc ix Ea) with (k := n) (jj := 0) (data := data1)
      as (data' & Hrun & Hs & Hrow); [by intros j [? _]%Hin|unfold ix; etrans; [apply length_filter|by rewrite length_seq]|done|by rewrite (proj1 Hs1)|].
    unfold id. rewrite Hrun. cbn [mbind option_bind]. eexists. split; [reflexivity|].
    split; [by rewrite (proj1 Hs), (proj1 Hs1)|]. split; [|split; [by rewrite Ea|]].
    + apply (rows_step i data data' t st cells); [by apply (same_rows_trans n i _ data1)|done..|]. intros j Hj. rewrite Hrow by done.
      change (drop 0 ix) with ix. destruct (decide (j ∈ ix)) as [|Hj']; [done|].
      rewrite (Hcopy (entry_val a c cells t')); [f_equal|by apply (Hrows src Hlt' t' st); [|rewrite Hid|]|done].
      apply (entry_far a c cells Hmc Hswa (with_min lo t') (with_min lo t)); try done; [|by rewrite (near_with_min cells lo t' t) by done; rewrite Hin in Hj'; tauto].
      destruct (Hmins src t') as (lo' & Hlo'' & ?); [lia|done|]. rewrite Hid in Hlo''. simplify_eq. split; [simpl; by rewrite Hid|]. simpl.
      destruct (Hb src) as (t'' & ? & ? & ? & ?); [lia|]. simplify_eq. lia.
    + intros id src' H. destruct (Hmaps id src' H) as (? & t2 & st2 & cells2 & lo2 & ? & ? & ? & ? & ? & ?). split; [lia|].
      exists t2, st2, cells2, lo2. split_and!; [done..|]. destruct (decide (id = mt_seq t)) as [->|Hne].
      * simplify_eq. by rewrite lookup_insert_eq.
      * by rewrite lookup_insert_ne.
  - cbn [mbind option_bind].
    destruct (mask_row_full a c cells (with_min lo t) n i Hmc Hswa Hok Hnc n 0 data [] eq_refl Hfit) as (data' & -> & Hs & Hrow).
    rewrite Ea. cbn [mbind option_bind app]. eexists. split; [reflexivity|].
    split; [by rewrite (proj1 Hs)|]. split.
    { apply (rows_step i data data' t st cells); [done..|]. intros j Hj. rewrite Hrow, decide_True by (done || lia). done. }
    split; [by rewrite Ea|].
    intros id src [[<- <-]|[Hne H]]%lookup_insert_Some.
    + split; [lia|]. exists t, st, cells, lo. split_and!; [done..|]. apply lookup_insert_eq.
    + destruct (Hmaps id src H) as (? & t' & st' & cells' & lo' & ? & ? & ? & ? & ? & ?). split; [lia|].
      exists t', st', cells', lo'. split_and!; [done..|]. by rewrite lookup_insert_ne.
Qed.
End Tokens.


(** * The whole mask *)

Section Properties.
Context `{BM : BuildMode}.

(** C10: the mask is the attention relation. Although [set_input_kq_mask] computes
    the full row only for the first token of each sequence, and for the others
    copies that row and looks again only at the cells near the batch, every entry
    it leaves is 0 (or minus the distance, with ALiBi) exactly where the token may
    attend to the cell - same sequence, not in the future, not outside of the
    window - and -INFINITY everywhere else, whatever the buffer held before. *)
Theorem set_input_kq_mask_correct (size : nat) (c : llama_kv_cache) (u : B.llama_ubatch) (n_kv ns : nat)
    (use_alibi causal : bool) (data : list mask_val) :
  wf_kv size c -> n_kv <= size -> swa_size_ok (n_swa c) (swa_type c) ->
  (forall st j p q, kv_view c st j = Some (p, q) -> (p + n_swa c + 32 <= INT32_MAX)%Z) ->
  mask_batch c u -> length data = n_kv * B.u_n_tokens u -> 0 < ns -> B.u_n_tokens u mod ns = 0 ->
  exists data', set_input_kq_mask use_alibi causal n_kv ns c u data = Some data' /\ length data' = length data /\
    forall i j t st cells, i < B.u_n_tokens u -> j < n_kv ->
      tok_at u i = Some t -> home c (mt_seq t) = Some st -> v_cells c !! st = Some cells ->
      data' !! (n_kv * i + j) = Some
        (if decide (sees (mkMaskArgs causal true (B.is_pos_2d u) use_alibi) c cells t j)
         then Num (if use_alibi then - Z.abs (cell_pos cells j - mt_p1 t) else 0) else NegInf).
Proof.
  intros Hwf Hn Hsz Hroom Hb Hl Hns Hmod. unfold set_input_kq_mask. rewrite bool_decide_false by lia.
  rewrite (ggml_assert_true _) by (by apply bool_decide_true). cbn [mbind option_bind]. unfold set_input_kq_mask_impl.
  set (a := mkMaskArgs _ _ _ _). destruct (seq_mins_ok size c u Hwf Hb) as (mins & -> & _ & Hmins). cbn [mbind option_bind].
  assert (m_swa a = true <-> swa_type c <> LLAMA_SWA_TYPE_NONE) as Hswa.
  { unfold a. simpl. rewrite negb_true_iff. apply bool_decide_eq_false. }
  set (m := B.u_n_tokens u / ns). assert (B.u_n_tokens u = ns * m) as HN by (unfold m; pose proof (Nat.div_mod (B.u_n_tokens u) ns ltac:(lia)); lia).
  destruct (foldM_seq (fun s data => '(data, _, _) ← foldM (fun ii st => mask_token a c u mins n_kv (s * m + ii) st) (seq 0 m) (data, ∅, ∅); Some data)
    (fun s data => mask_inv a c u n_kv mins (s * m) (data, ∅, ∅)) 0 ns data) as (data' & Hrun & Hl' & Hrows & _).
  - split; [done|]. split; [intros r Hr; lia|]. split; [done|]. intros id src H. by rewrite lookup_empty in H.
  - intros s d [_ Hs] Hinv.
    destruct (foldM_seq (fun ii st => mask_token a c u mins n_kv (s * m + ii) st) (fun ii => mask_inv a c u n_kv mins (s * m + ii)) 0 m (d, ∅, ∅))
      as ([[d' srct] sidx] & -> & Hl' & Hrows & _); [by rewrite Nat.add_0_r| |].
    { intros ii x [_ Hii] Hx. rewrite Nat.add_1_r, Nat.add_succ_r. apply (mask_token_ok a size); try done. nia. }
    cbn [mbind option_bind]. exists d'. split; [done|]. split; [done|]. split; [intros r Hr; apply Hrows; lia|]. split; [done|].
    intros id src H. by rewrite lookup_empty in H.
  - exists data'. split; [done|]. split; [congruence|]. intros i j t st cells Hi Hj Ht Hst Hc.
    rewrite (Hrows i ltac:(simpl; lia) t st cells Ht Hst Hc j Hj). done.
Qed.
End Properties.


(** * The destinations of the new rows *)

Section Destinations.
Context `{BM : BuildMode}.

Lemma slot_size_shape n ns si k m : slot_shape n ns si k m -> 0 < k -> slot_size si = Some m /\ slot_n_stream si = k.
Proof.
  intros Hss Hk. unfold slot_size, slot_n_stream. rewrite (ss_strm _ _ _ _ _ Hss), (ss_idxs _ _ _ _ _ Hss). split; [|done].
  rewrite (ggml_assert_true _) by (by apply bool_decide_true). cbn [mbind option_bind].
  destruct (lookup_lt_is_Some_2 (idxs si) 0) as [row Hrow]; [by rewrite (ss_idxs _ _ _ _ _ Hss)|].
  destruct (lookup_lt_is_Some_2 (strm si) 0) as [st Hst]; [by rewrite (ss_strm _ _ _ _ _ Hss)|].
  rewrite Hrow. simpl. by destruct (ss_row _ _ _ _ _ Hss 0 st row Hst Hrow) as (_ & -> & _).
Qed.

Lemma get_size_ok n c : wf_kv n c -> 0 < n_stream c -> get_size c = Some n.
Proof.
  intros Hwf Hns. unfold get_size. assert (seq_to_stream c !! 0 = Some 0) as ->.
  { destruct (kw_map _ _ Hwf) as [[_ ->]|[_ ->]]; [apply lookup_replicate_2; unfold LLAMA_MAX_SEQ; lia|by apply lookup_seq_lt]. }
  cbn [mbind option_bind]. destruct (stream_cells Hwf 0 Hns) as (cells & _ & -> & _ & _ & <- & _). done.
Qed.

Lemma slot_at_shape n ns si k m s j st i : slot_shape n ns si k m -> slot_at si s j st i -> s < k /\ j < m /\ st < ns /\ i < n.
Proof.
  intros Hss (Hs & row & Hrow & Hj). destruct (ss_row _ _ _ _ _ Hss s st row Hs Hrow) as (? & <- & _ & Hin).
  pose proof (lookup_lt_Some _ _ _ Hs) as Hlt. rewrite (ss_strm _ _ _ _ _ Hss) in Hlt. split_and!; [done|by eapply lookup_lt_Some|done|].
  apply Hin. by eapply list_elem_of_lookup_2.
Qed.

Lemma slot_at_unique n ns si k m s j s' j' st i : slot_shape n ns si k m -> slot_at si s j st i -> slot_at si s' j' st i -> s = s' /\ j = j'.
Proof.
  intros Hss (Hs & row & Hrow & Hj) (Hs' & row' & Hrow' & Hj').
  pose proof (ss_nd _ _ _ _ _ Hss) as Hnd. rewrite NoDup_alt in Hnd. pose proof (Hnd s s' st Hs Hs') as <-.
  split; [done|]. simplify_eq. destruct (ss_row _ _ _ _ _ Hss s st row Hs Hrow) as (_ & _ & Hr & _).
  rewrite NoDup_alt in Hr. by apply (Hr j j' i).
Qed.

Lemma slot_at_total n ns si k m s j : slot_shape n ns si k m -> s < k -> j < m -> exists st i, slot_at si s j st i.
Proof.
  intros Hss Hs Hj. destruct (lookup_lt_is_Some_2 (strm si) s) as [st Hst]; [by rewrite (ss_strm _ _ _ _ _ Hss)|].
  destruct (lookup_lt_is_Some_2 (idxs si) s) as [row Hrow]; [by rewrite (ss_idxs _ _ _ _ _ Hss)|].
  destruct (ss_row _ _ _ _ _ Hss s st row Hst Hrow) as (_ & Hl & _). destruct (lookup_lt_is_Some_2 row j) as [i Hi]; [lia|].
  exists st, i. split; [done|]. by exists row.
Qed.

(** Row [s], entry [j] of the slot is the destination of token [s * m + j]: cell
    [i] of stream [st] is row [st * n + i] of the K tensor, when the number of
    all cells is one of 32 bits. *)
Lemma k_idxs_entries n c u si k m data : wf_kv n c -> slot_shape n (n_stream c) si k m -> 0 < k ->
  (Z.of_nat (n_stream c * n) < 4294967296)%Z ->
  B.u_n_tokens u = k * m -> k * m <= length data ->
  exists data', set_input_k_idxs u si c data = Some data' /\ length data' = length data /\
    forall s j st i, slot_at si s j st i -> data' !! (s * m + j) = Some (Z.of_nat (st * n + i)).
Proof.
  intros Hwf Hss Hk Hn32 Hu Hl. unfold set_input_k_idxs. destruct (slot_size_shape n _ si k m Hss Hk) as [-> ->]. cbn [mbind option_bind].
  rewrite (ggml_assert_true _) by (apply bool_decide_true; lia). cbn [mbind option_bind].
  rewrite (get_size_ok n c Hwf) by (pose proof (shape_streams _ _ _ _ _ Hss); lia). cbn [mbind option_bind].
  set (inner := fun str row s => (fun i data => x ← (row : list nat) !! i; set_at (s * m + i) (u32_wrap (Z.of_nat (str * n)) + Z.of_nat x)%Z data)).
  destruct (foldM_seq (fun s data => str ← strm si !! s; row ← idxs si !! s; foldM (inner str row s) (seq 0 m) data)
    (fun r d => length d = length data /\ forall s j st i, s < r -> slot_at si s j st i -> d !! (s * m + j) = Some (Z.of_nat (st * n + i))) 0 k data)
    as (data' & Hrun & Hl' & Hd); [split; [done|lia]| |].
  - intros s d [_ Hs] [Hld Hd]. destruct (lookup_lt_is_Some_2 (strm si) s) as [st Hst]; [by rewrite (ss_strm _ _ _ _ _ Hss)|].
    destruct (lookup_lt_is_Some_2 (idxs si) s) as [row Hrow]; [by rewrite (ss_idxs _ _ _ _ _ Hss)|]. rewrite Hst, Hrow. cbn [mbind option_bind].
    destruct (ss_row _ _ _ _ _ Hss s st row Hst Hrow) as (_ & Hlr & _).
    destruct (foldM_seq (inner st row s) (fun r d' => length d' = length data /\
        forall s' j st' i, (s' < s \/ s' = s /\ j < r) -> slot_at si s' j st' i -> d' !! (s' * m + j) = Some (Z.of_nat (st' * n + i))) 0 m d)
      as (d' & -> & Hld' & Hd'); [split; [done|]; intros s' j st' i [?|?] Hat; [by apply Hd|lia]| |].
    + intros j d1 [_ Hj] [Hl1 H1]. unfold inner. destruct (lookup_lt_is_Some_2 row j) as [i Hi]; [lia|]. rewrite Hi. cbn [mbind option_bind].
      rewrite set_at_ok by nia. eexists. split; [reflexivity|]. split; [by rewrite length_insert|]. intros s' j' st' i' Hs' Hat.
      pose proof (slot_at_shape _ _ _ _ _ _ _ _ _ Hss Hat) as (_ & Hj' & Hst' & _).
      destruct (decide (s' = s /\ j' = j)) as [[-> ->]|Hne].
      * destruct Hat as (? & row' & ? & ?). simplify_eq. rewrite list_lookup_insert_eq by nia. f_equal.
        unfold u32_wrap. rewrite Z.mod_small by nia. lia.
      * rewrite list_lookup_insert_ne; [apply H1; [lia|done]|]. intros Heq. apply Hne.
        destruct (row_index m s j s' j') as [-> ->]; [done|done|lia|done].
    + exists d'. split; [done|]. split; [done|]. intros s' j st' i Hs' Hat. apply Hd'; [|done].
      pose proof (slot_at_shape _ _ _ _ _ _ _ _ _ Hss Hat). lia.
  - exists data'. split_and!; [done|done|]. intros s j st i Hat. apply Hd; [|done]. by apply (slot_at_shape _ _ _ _ _ _ _ _ _ Hss) in Hat as [? _].
Qed.

(** Distinct tokens have distinct destinations, inside of the tensor. *)
Lemma k_idxs_distinct n c u si k m data : wf_kv n c -> slot_shape n (n_stream c) si k m -> 0 < k ->
  (Z.of_nat (n_stream c * n) < 4294967296)%Z ->
  B.u_n_tokens u = k * m -> length data = k * m ->
  exists data', set_input_k_idxs u si c data = Some data' /\ length data' = k * m /\ NoDup data' /\
    forall x, x ∈ data' -> (0 <= x < Z.of_nat (n_stream c * n))%Z.
Proof.
  intros Hwf Hss Hk Hn32 Hu Hl. destruct (k_idxs_entries n c u si k m data Hwf Hss Hk Hn32 Hu) as (data' & Hrun & Hl' & Hd); [lia|].
  assert (forall r x, data' !! r = Some x -> exists st i, slot_at si (r / m) (r mod m) st i /\ x = Z.of_nat (st * n + i)) as Hat.
  { intros r x Hx. pose proof (lookup_lt_Some _ _ _ Hx) as Hr. assert (m <> 0) as Hm by (intros ->; lia).
    destruct (slot_at_total n _ si k m (r / m) (r mod m) Hss) as (st & i & H); [apply Nat.Div0.div_lt_upper_bound; lia|by apply Nat.mod_upper_bound|].
    exists st, i. split; [done|]. pose proof (Hd _ _ _ _ H) as Hv. rewrite (Nat.mul_comm (r / m)), <- (Nat.div_mod r m Hm), Hx in Hv. by injection Hv. }
  exists data'. split_and!; [done|lia| |].
  - apply NoDup_alt. intros r r' x Hr Hr'. destruct (Hat r x Hr) as (st & i & H & ->). destruct (Hat r' _ Hr') as (st' & i' & H' & Heq).
    destruct (slot_at_shape _ _ _ _ _ _ _ _ _ Hss H) as (_ & ? & ? & ?). destruct (slot_at_shape _ _ _ _ _ _ _ _ _ Hss H') as (_ & ? & ? & ?).
    destruct (row_index n st i st' i') as [-> ->]; [done|done|lia|]. destruct (slot_at_unique _ _ _ _ _ _ _ _ _ _ _ Hss H H') as [Hq Hm].
    pose proof (Nat.div_mod r m ltac:(lia)). pose proof (Nat.div_mod r' m ltac:(lia)). congruence.
  - intros x [r Hr]%list_elem_of_lookup. destruct (Hat r x Hr) as (st & i & H & ->).
    destruct (slot_at_shape _ _ _ _ _ _ _ _ _ Hss H) as (_ & _ & ? & ?). nia.
Qed.
End Destinations.

(** ** On a concrete cache *)

Lemma demo_mask_batch : mask_batch demo_kv demo_ubatch.
Proof.
  intros i Hi. simpl in Hi. assert (i = 0 \/ i = 1) as [-> | ->] by lia;
    (eexists _, 0; split; [reflexivity|]; split; [simpl; unfold INT32_MAX; lia|by apply demo_home]).
Qed.

Definition demo_tok : mask_tok := mkMaskTok 1 4 0 0 4.

Lemma demo_tok_at : tok_at demo_ubatch 1 = Some demo_tok /\ home demo_kv (mt_seq demo_tok) = Some 0 /\ v_cells demo_kv !! 0 = Some demo_cells.
Proof. split; [reflexivity|]. split; [apply demo_home; unfold LLAMA_MAX_SEQ; simpl; lia|reflexivity]. Qed.

Lemma demo_sees causal swa d2 al : sees (mkMaskArgs causal swa d2 al) demo_kv demo_cells demo_tok 1 /\
  ~ sees (mkMaskArgs causal swa d2 al) demo_kv demo_cells demo_tok 0.
Proof.
  unfold sees. rewrite !demo_view. split; [|set_solver]. split; [set_solver|].
  split; [intros _; split; [simpl; lia|intros _ H; discriminate H]|intros H; exact H].
Qed.

Lemma demo_room st j p q : kv_view demo_kv st j = Some (p, q) -> (p + n_swa demo_kv + 32 <= INT32_MAX)%Z.
Proof.
  rewrite demo_kv_view. destruct st; [|discriminate]. rewrite demo_view. unfold INT32_MAX. cbn [n_swa demo_kv].
  destruct j as [|[|j]]; [| |discriminate]; intros [= <- <-]; lia.
Qed.

(** The second token of sequence 1 sees its cell 1 and not cell 0. *)
Lemma set_input_kq_mask_correct_witness :
  exists data', set_input_kq_mask (BM := debug_build) false true 4 1 demo_kv demo_ubatch (replicate 8 (Num 7)) = Some data' /\
    data' !! (4 * 1 + 1) = Some (Num 0) /\ data' !! (4 * 1 + 0) = Some NegInf.
Proof.
  destruct demo_tok_at as (H1 & H2 & H3). destruct (demo_sees true true (B.is_pos_2d demo_ubatch) false) as [S1 S0].
  destruct (set_input_kq_mask_correct (BM := debug_build) 4 demo_kv demo_ubatch 4 1 false true (replicate 8 (Num 7)) demo_kv_wf)
    as (data' & Hrun & _ & Hd); [lia|split; [cbn; unfold INT32_MAX; lia|discriminate]|exact demo_room|exact demo_mask_batch|reflexivity|lia|reflexivity|].
  exists data'. split; [exact Hrun|]. split.
  - rewrite (Hd 1 1 demo_tok 0 demo_cells); [|simpl; lia|lia|exact H1|exact H2|exact H3]. by rewrite (decide_True _ _ S1).
  - rewrite (Hd 1 0 demo_tok 0 demo_cells); [|simpl; lia|lia|exact H1|exact H2|exact H3]. by rewrite (decide_False _ _ S0).
Defined.

Lemma get_n_kv_covers_witness :
  exists r, get_n_kv demo_slot demo_kv = Some r /\ r <= 4 /\ 1 < r.
Proof.
  destruct (get_n_kv_covers 4 demo_kv demo_slot 1 2 demo_kv_wf) as (r & Hr & Hle & Hc).
  - exists 8%Z. split; [lia|reflexivity].
  - exact (fits_shape 4 demo_kv demo_slot 1 2 demo_slot_fits).
  - exists r. split; [exact Hr|]. split; [exact Hle|]. apply (Hc 0 0 1); [reflexivity|]. rewrite demo_kv_view, demo_view. discriminate.
Defined.

Example kq_mask_demo :
  set_input_kq_mask (BM := debug_build) false true 4 1 demo_kv demo_ubatch (replicate 8 (Num 7)) =
  Some [NegInf; Num 0; NegInf; NegInf; NegInf; Num 0; NegInf; NegInf].
Proof. by vm_compute. Qed.


End KvInputs.
