(* ===== verification/GgmlHash.v ===== *)
(** The hash set of tensors of ggml: the bit sets and [ggml_hash_set] of
    [ggml-impl.h], with [ggml_hash_size] and [ggml_hash_set_new] of [ggml.c].
    A tensor is its address.  The table is shown to be a finite set: linear
    probing finds a key exactly when it was inserted. *)

From stdpp Require Import sorting.
From S2P Require Import Prelude.

Module GgmlHash.

(** * Bit sets *)

(** 32-bit words. *)
Abbreviation bits := (list Z) (only parsing).

Definition ggml_bitset_size (n : nat) : nat := Nat.shiftr (n + 31) 5.

Definition ggml_bitset_get (b : bits) (i : nat) : option bool :=
  w ← b !! Nat.shiftr i 5;
  Some (negb (bool_decide (Z.land w (Z.shiftl 1 (Z.of_nat (Nat.land i 31))) = 0)%Z)).

Definition ggml_bitset_set (b : bits) (i : nat) : option bits :=
  w ← b !! Nat.shiftr i 5;
  set_at (Nat.shiftr i 5) (Z.lor w (Z.shiftl 1 (Z.of_nat (Nat.land i 31)))) b.

Definition ggml_bitset_clear (b : bits) (i : nat) : option bits :=
  w ← b !! Nat.shiftr i 5;
  set_at (Nat.shiftr i 5) (Z.land w (u32_wrap (Z.lnot (Z.shiftl 1 (Z.of_nat (Nat.land i 31)))))) b.

(** * The hash set *)

(** [keys !! i] is meaningful only where the bit [i] of [used] is set. *)
Record ggml_hash_set := mkHash { hs_size : nat; hs_used : bits; hs_keys : list Z }.

(** [GGML_HASHSET_FULL], [GGML_HASHSET_ALREADY_EXISTS] and an index. *)
Inductive hash_pos := HASHSET_FULL | HASHSET_ALREADY_EXISTS | HashPos (i : nat).

#[global] Instance hash_pos_eq_dec : EqDecision hash_pos.
Proof. solve_decision. Defined.

(** The next primes after powers of two. *)
Definition primes : list Z :=
  [2; 3; 5; 11; 17; 37; 67; 131; 257; 521; 1031; 2053; 4099; 8209; 16411; 32771; 65537; 131101;
   262147; 524309; 1048583; 2097169; 4194319; 8388617; 16777259; 33554467; 67108879; 134217757;
   268435459; 536870923; 1073741827; 2147483659]%Z.

(** The binary search of [ggml_hash_size]. *)
Fixpoint prime_search (fuel l r : nat) (min_sz : Z) : option nat :=
  match fuel with
  | 0 => None
  | S fuel =>
      if bool_decide (l < r) then
        let m := (l + r) / 2 in
        p ← primes !! m;
        if bool_decide (p < min_sz)%Z then prime_search fuel (S m) r min_sz else prime_search fuel l m min_sz
      else Some l
  end.

Definition ggml_hash_size (min_sz : Z) : option Z :=
  l ← prime_search (S (length primes)) 0 (length primes) min_sz;
  if bool_decide (l < length primes) then primes !! l else Some (Z.lor min_sz 1).

(** [keys] is uninitialised memory: an argument. *)
Definition ggml_hash_set_new (size : Z) (mem : nat -> list Z) : option ggml_hash_set :=
  n ← ggml_hash_size size;
  let n := Z.to_nat n in
  Some (mkHash n (replicate (ggml_bitset_size n) 0%Z) (mem n)).

Definition ggml_hash_set_reset (h : ggml_hash_set) : option ggml_hash_set :=
  used ← foldM (fun i b => set_at i 0%Z b) (seq 0 (ggml_bitset_size (hs_size h))) (hs_used h);
  Some (mkHash (hs_size h) used (hs_keys h)).

(** Addresses are multiples of 16. *)
Definition ggml_hash (p : Z) : Z := Z.shiftr p 4.

Definition hash_start (h : ggml_hash_set) (key : Z) : option nat :=
  if bool_decide (hs_size h = 0) then None else Some (Z.to_nat (ggml_hash key mod Z.of_nat (hs_size h))).

(** The [while] of [ggml_hash_find]: slot [i], after having started at [h0]. *)
Fixpoint find_loop (fuel : nat) (h : ggml_hash_set) (key : Z) (h0 i : nat) : option hash_pos :=
  match fuel with
  | 0 => None
  | S fuel =>
      u ← ggml_bitset_get (hs_used h) i;
      go ← (if (u : bool) then k ← hs_keys h !! i; Some (negb (bool_decide (k = key))) else Some false);
      if (go : bool) then
        let i := (i + 1) mod hs_size h in
        if bool_decide (i = h0) then Some HASHSET_FULL else find_loop fuel h key h0 i
      else Some (HashPos i)
  end.

Definition ggml_hash_find (h : ggml_hash_set) (key : Z) : option hash_pos :=
  h0 ← hash_start h key;
  find_loop (S (hs_size h)) h key h0 h0.

Definition ggml_hash_contains (h : ggml_hash_set) (key : Z) : option bool :=
  r ← ggml_hash_find h key;
  match r with
  | HashPos i => ggml_bitset_get (hs_used h) i
  | _ => Some false
  end.

(** The [do ... while (i != h)] of the two insertions; [present i] is what is
    returned for a key that is already at [i]. *)
Fixpoint insert_loop (fuel : nat) (present : nat -> hash_pos) (h : ggml_hash_set) (key : Z) (h0 i : nat)
    : option (hash_pos * ggml_hash_set) :=
  match fuel with
  | 0 => None
  | S fuel =>
      u ← ggml_bitset_get (hs_used h) i;
      if negb u then
        used ← ggml_bitset_set (hs_used h) i;
        keys ← set_at i key (hs_keys h);
        Some (HashPos i, mkHash (hs_size h) used keys)
      else
        k ← hs_keys h !! i;
        if bool_decide (k = key) then Some (present i, h)
        else
          let i := (i + 1) mod hs_size h in
          if bool_decide (i = h0) then None (* GGML_ABORT *) else insert_loop fuel present h key h0 i
  end.

Definition ggml_hash_insert (h : ggml_hash_set) (key : Z) : option (hash_pos * ggml_hash_set) :=
  h0 ← hash_start h key;
  insert_loop (S (hs_size h)) (fun _ => HASHSET_ALREADY_EXISTS) h key h0 h0.

Definition ggml_hash_find_or_insert (h : ggml_hash_set) (key : Z) : option (hash_pos * ggml_hash_set) :=
  h0 ← hash_start h key;
  insert_loop (S (hs_size h)) HashPos h key h0 h0.

(** * The bits *)

Lemma land_bit w k : (0 <= k)%Z -> negb (bool_decide (Z.land w (Z.shiftl 1 k) = 0)%Z) = Z.testbit w k.
Proof.
  intros Hk. destruct (Z.testbit w k) eqn:Hb.
  - rewrite bool_decide_false; [done|]. intros H. assert (Z.testbit (Z.land w (Z.shiftl 1 k)) k = false) as Ht by (rewrite H; apply Z.bits_0).
    rewrite Z.land_spec, Hb, Z.shiftl_spec, Z.sub_diag in Ht by done. done.
  - rewrite bool_decide_true; [done|]. apply Z.bits_inj'. intros j Hj. rewrite Z.land_spec, Z.bits_0, Z.shiftl_spec by done.
    destruct (decide (j = k)) as [->|Hne]; [by rewrite Hb|].
    assert (Z.testbit 1 (j - k) = false) as ->; [|by rewrite andb_false_r].
    destruct (decide (j - k < 0)%Z); [by apply Z.testbit_neg_r|]. rewrite (Z.bits_above_log2 1); [done|done|]. simpl. lia.
Qed.

Lemma word_of i : Nat.shiftr i 5 = i / 32.
Proof. by rewrite Nat.shiftr_div_pow2. Qed.

Lemma bit_of i : Nat.land i 31 = i mod 32.
Proof. apply (Nat.land_ones i 5). Qed.

Lemma bitset_get_testbit b i w : b !! (i / 32) = Some w -> ggml_bitset_get b i = Some (Z.testbit w (Z.of_nat (i mod 32))).
Proof. intros H. unfold ggml_bitset_get. rewrite word_of, bit_of. rewrite H. cbn [mbind option_bind]. by rewrite land_bit by lia. Qed.

Lemma bitset_set_ok b i : i / 32 < length b -> exists b', ggml_bitset_set b i = Some b' /\ length b' = length b /\
  forall j, ggml_bitset_get b' j = if decide (j = i) then Some true else ggml_bitset_get b j.
Proof.
  intros Hi. unfold ggml_bitset_set. rewrite word_of, bit_of. destruct (lookup_lt_is_Some_2 b (i / 32) Hi) as [w Hw]. rewrite Hw.
  cbn [mbind option_bind]. rewrite set_at_ok by done. eexists. split; [reflexivity|]. split; [apply length_insert|]. intros j.
  destruct (decide (j / 32 = i / 32)) as [Hj|Hj].
  - erewrite bitset_get_testbit by (rewrite Hj; by apply list_lookup_insert_eq).
    rewrite Z.lor_spec, Z.shiftl_spec by lia. case_decide as Hd.
    + subst. rewrite Z.sub_diag. by rewrite orb_true_r.
    + rewrite (bitset_get_testbit b j w) by (by rewrite Hj). f_equal. assert (j mod 32 <> i mod 32) as Hm.
      { intros Hm. apply Hd. rewrite (Nat.div_mod j 32), (Nat.div_mod i 32) by lia. by rewrite Hj, Hm. }
      assert (Z.testbit 1 (Z.of_nat (j mod 32) - Z.of_nat (i mod 32)) = false) as ->; [|by rewrite orb_false_r].
      destruct (decide (Z.of_nat (j mod 32) - Z.of_nat (i mod 32) < 0)%Z); [by apply Z.testbit_neg_r|].
      rewrite (Z.bits_above_log2 1); [done|done|]. change (Z.log2 1) with 0%Z. lia.
  - rewrite decide_False by congruence. unfold ggml_bitset_get. rewrite word_of. rewrite list_lookup_insert_ne by done. done.
Qed.

Lemma bitset_get_total b i : i / 32 < length b -> is_Some (ggml_bitset_get b i).
Proof. intros Hi. destruct (lookup_lt_is_Some_2 b (i / 32) Hi) as [w Hw]. rewrite (bitset_get_testbit b i w Hw). by eexists. Qed.

Lemma bitset_size_div n i : i < n -> i / 32 < ggml_bitset_size n.
Proof.
  intros Hi. unfold ggml_bitset_size. rewrite word_of. apply Nat.Div0.div_lt_upper_bound.
  pose proof (Nat.div_mod (n + 31) 32 ltac:(lia)). pose proof (Nat.mod_upper_bound (n + 31) 32 ltac:(lia)). lia.
Qed.

Lemma bitset_get_zero n i : i < n -> ggml_bitset_get (replicate (ggml_bitset_size n) 0%Z) i = Some false.
Proof.
  intros Hi. rewrite (bitset_get_testbit _ _ 0%Z); [by rewrite Z.bits_0|]. apply lookup_replicate_2. by apply bitset_size_div.
Qed.

(** * The table as a set *)

(** The key in slot [i]. *)
Definition slot (h : ggml_hash_set) (i : nat) : option Z :=
  match ggml_bitset_get (hs_used h) i with Some true => hs_keys h !! i | _ => None end.

Definition start (h : ggml_hash_set) (k : Z) : nat := Z.to_nat (ggml_hash k mod Z.of_nat (hs_size h)).

(** The slot at distance [d] from the first slot of [k]. *)
Definition probe_at (h : ggml_hash_set) (k : Z) (d : nat) : nat := (start h k + d) mod hs_size h.

(** The first [d] slots of the probe are taken by other keys. *)
Definition taken (h : ggml_hash_set) (k : Z) (d : nat) : Prop :=
  forall d', d' < d -> exists k', slot h (probe_at h k d') = Some k' /\ k' <> k.

Definition has_key (h : ggml_hash_set) (k : Z) : Prop := exists i, i < hs_size h /\ slot h i = Some k.

(** Every key is where its probe finds it. *)
Record wf_hash (h : ggml_hash_set) : Prop := {
  wh_size  : 0 < hs_size h;
  wh_keys  : length (hs_keys h) = hs_size h;
  wh_used  : length (hs_used h) = ggml_bitset_size (hs_size h);
  wh_probe : forall i k, i < hs_size h -> slot h i = Some k -> exists d, d < hs_size h /\ i = probe_at h k d /\ taken h k d;
}.

Section Probe.
Context (h : ggml_hash_set) (Hwf : wf_hash h) (k : Z).
#[local] Abbreviation hsz := (hs_size h).

Lemma start_lt : start h k < hsz.
Proof. pose proof (wh_size _ Hwf). unfold start. pose proof (Z.mod_pos_bound (ggml_hash k) (Z.of_nat hsz)). lia. Qed.

Lemma hash_start_ok : hash_start h k = Some (start h k).
Proof. unfold hash_start. by rewrite bool_decide_false by (pose proof (wh_size _ Hwf); lia). Qed.

Lemma probe_lt d : probe_at h k d < hsz.
Proof. apply Nat.mod_upper_bound. pose proof (wh_size _ Hwf). lia. Qed.

Lemma probe_0 : probe_at h k 0 = start h k.
Proof. unfold probe_at. rewrite Nat.add_0_r. apply Nat.mod_small, start_lt. Qed.

Lemma probe_S d : (probe_at h k d + 1) mod hsz = probe_at h k (S d).
Proof. unfold probe_at. rewrite Nat.Div0.add_mod_idemp_l. f_equal. lia. Qed.

Lemma probe_wrap d : S d < hsz -> probe_at h k (S d) <> start h k.
Proof.
  pose proof start_lt as Hs. intros Hd. unfold probe_at. destruct (decide (start h k + S d < hsz)).
  - rewrite Nat.mod_small by done. lia.
  - replace (start h k + S d) with ((start h k + S d - hsz) + 1 * hsz) by lia.
    rewrite Nat.Div0.mod_add, Nat.mod_small by lia. lia.
Qed.

Lemma probe_full d : S d = hsz -> probe_at h k (S d) = start h k.
Proof.
  intros ->. unfold probe_at. replace (start h k + hsz) with (start h k + 1 * hsz) by lia. rewrite Nat.Div0.mod_add.
  apply Nat.mod_small, start_lt.
Qed.

(** The probe visits every slot. *)
Lemma probe_covers i : i < hsz -> exists d, d < hsz /\ i = probe_at h k d.
Proof.
  pose proof start_lt as Hs. intros Hi. unfold probe_at. destruct (decide (start h k <= i)).
  - exists (i - start h k). split; [lia|]. rewrite Nat.mod_small; lia.
  - exists (i + hsz - start h k). split; [lia|]. replace (start h k + (i + hsz - start h k)) with (i + 1 * hsz) by lia.
    rewrite Nat.Div0.mod_add, Nat.mod_small; lia.
Qed.

Lemma slot_get i : i < hsz -> exists b x, ggml_bitset_get (hs_used h) i = Some b /\ hs_keys h !! i = Some x /\
  slot h i = if b then Some x else None.
Proof.
  intros Hi. destruct (bitset_get_total (hs_used h) i) as [b Hb]; [rewrite (wh_used _ Hwf); by apply bitset_size_div|].
  destruct (lookup_lt_is_Some_2 (hs_keys h) i) as [x Hx]; [by rewrite (wh_keys _ Hwf)|].
  exists b, x. split_and!; [done|done|]. unfold slot. rewrite Hb. by destruct b.
Qed.

(** Where the probe of [k] ends. *)
Lemma probe_ends : taken h k hsz \/ exists d, d < hsz /\ taken h k d /\ (slot h (probe_at h k d) = None \/ slot h (probe_at h k d) = Some k).
Proof.
  assert (forall m, taken h k m \/ exists d, d < m /\ taken h k d /\ (slot h (probe_at h k d) = None \/ slot h (probe_at h k d) = Some k)) as H; [|apply H].
  induction m as [|m IH]; [left; intros d ?; lia|]. destruct IH as [Ht|(d & ? & ?)]; [|right; exists d; split; [lia|done]].
  destruct (slot h (probe_at h k m)) as [k'|] eqn:E; [|right; exists m; eauto].
  destruct (decide (k' = k)) as [->|Hne]; [right; exists m; eauto|]. left. intros d Hd.
  destruct (decide (d = m)) as [->|]; [by exists k'|apply Ht; lia].
Qed.

(** An empty slot at the end of the probe: the key is absent. *)
Lemma probe_absent d : d < hsz -> taken h k d -> slot h (probe_at h k d) = None -> ~ has_key h k.
Proof.
  intros Hd Ht Hnone (i & Hi & Hs). destruct (wh_probe _ Hwf i k Hi Hs) as (d' & Hd' & -> & Ht').
  destruct (decide (d' < d)) as [Hlt|].
  - destruct (Ht d' Hlt) as (k' & ? & ?). simplify_eq.
  - destruct (decide (d = d')) as [->|]; [congruence|]. destruct (Ht' d ltac:(lia)) as (k' & ? & _). congruence.
Qed.

Lemma probe_full_absent : taken h k hsz -> ~ has_key h k.
Proof. intros Ht (i & Hi & Hs). destruct (probe_covers i Hi) as (d & Hd & ->). destruct (Ht d Hd) as (k' & ? & ?). simplify_eq. Qed.

(** The two loops run along the probe. *)
Lemma find_skip m : forall d fuel, (forall d', d <= d' < d + m -> exists k', slot h (probe_at h k d') = Some k' /\ k' <> k) -> d + m < hsz ->
  find_loop (m + S fuel) h k (start h k) (probe_at h k d) = find_loop (S fuel) h k (start h k) (probe_at h k (d + m)).
Proof.
  induction m as [|m IH]; intros d fuel Ht Hm; [by rewrite Nat.add_0_r|]. cbn [find_loop Nat.add].
  destruct (slot_get (probe_at h k d) (probe_lt d)) as (b & x & -> & Hx & Hs). cbn [mbind option_bind].
  destruct (Ht d ltac:(lia)) as (k' & Hk' & Hne). rewrite Hs in Hk'. destruct b; [|done]. injection Hk' as ->. rewrite Hx.
  cbn [mbind option_bind]. rewrite bool_decide_false by done. cbn [negb]. rewrite probe_S, bool_decide_false by (apply probe_wrap; lia).
  rewrite IH; [by replace (d + S m) with (S d + m) by lia|intros d' Hd'; apply Ht; lia|lia].
Qed.

Lemma insert_skip pr m : forall d fuel, (forall d', d <= d' < d + m -> exists k', slot h (probe_at h k d') = Some k' /\ k' <> k) -> d + m < hsz ->
  insert_loop (m + S fuel) pr h k (start h k) (probe_at h k d) = insert_loop (S fuel) pr h k (start h k) (probe_at h k (d + m)).
Proof.
  induction m as [|m IH]; intros d fuel Ht Hm; [by rewrite Nat.add_0_r|]. cbn [insert_loop Nat.add].
  destruct (slot_get (probe_at h k d) (probe_lt d)) as (b & x & -> & Hx & Hs). cbn [mbind option_bind].
  destruct (Ht d ltac:(lia)) as (k' & Hk' & Hne). rewrite Hs in Hk'. destruct b; [|done]. injection Hk' as ->. rewrite Hx.
  cbn [mbind option_bind negb]. rewrite bool_decide_false by done. rewrite probe_S, bool_decide_false by (apply probe_wrap; lia).
  rewrite IH; [by replace (d + S m) with (S d + m) by lia|intros d' Hd'; apply Ht; lia|lia].
Qed.

Lemma find_spec : exists r, ggml_hash_find h k = Some r /\
  match r with
  | HASHSET_FULL => ~ has_key h k /\ forall i, i < hsz -> slot h i <> None
  | HASHSET_ALREADY_EXISTS => False
  | HashPos i => i < hsz /\ (slot h i = Some k \/ (slot h i = None /\ ~ has_key h k /\ exists d, d < hsz /\ i = probe_at h k d /\ taken h k d))
  end.
Proof.
  unfold ggml_hash_find. rewrite hash_start_ok. cbn [mbind option_bind]. rewrite <- probe_0. pose proof (wh_size _ Hwf).
  destruct probe_ends as [Ht|(d & Hd & Ht & Hend)].
  - exists HASHSET_FULL. split.
    + replace (S hsz) with ((hsz - 1) + S 1) by lia. rewrite probe_0 at 1. rewrite find_skip by (try lia; intros d' ?; apply Ht; lia).
      replace (0 + (hsz - 1)) with (hsz - 1) by lia. cbn [find_loop].
      destruct (slot_get (probe_at h k (hsz - 1)) (probe_lt _)) as (b & x & -> & Hx & Hs). cbn [mbind option_bind].
      destruct (Ht (hsz - 1) ltac:(lia)) as (k' & Hk' & Hne). rewrite Hs in Hk'. destruct b; [|done]. injection Hk' as ->. rewrite Hx.
      cbn [mbind option_bind]. rewrite bool_decide_false by done. cbn [negb]. rewrite probe_S, probe_full, bool_decide_true by (done || lia). done.
    + split; [by apply probe_full_absent|]. intros i Hi. destruct (probe_covers i Hi) as (d & Hd & ->).
      destruct (Ht d Hd) as (k' & -> & _). done.
  - exists (HashPos (probe_at h k d)). split.
    + replace (S hsz) with (d + S (hsz - d)) by lia. rewrite probe_0 at 1. rewrite find_skip by (try lia; intros d' ?; apply Ht; lia).
      cbn [Nat.add find_loop]. destruct (slot_get (probe_at h k d) (probe_lt d)) as (b & x & -> & Hx & Hs). cbn [mbind option_bind].
      rewrite Hs in Hend. destruct b; cbn [mbind option_bind]; [|done]. rewrite Hx. cbn [mbind option_bind].
      assert (x = k) as -> by (destruct Hend as [?|Hk]; [done|by injection Hk]). by rewrite bool_decide_true by done.
    + split; [apply probe_lt|]. destruct Hend as [Hn|]; [|by left]. right. split_and!; [done|by apply (probe_absent d)|by exists d].
Qed.
End Probe.


(** ** Insertion *)

(** [h'] is [h] with [k] in slot [i]. *)
Definition put_at (h : ggml_hash_set) (i : nat) (k : Z) (h' : ggml_hash_set) : Prop :=
  hs_size h' = hs_size h /\ forall j, slot h' j = if decide (j = i) then Some k else slot h j.

Section Insert.
Context (h : ggml_hash_set) (Hwf : wf_hash h) (k : Z).

(** Writing a key and its bit. *)
Lemma put_ok i : i < hs_size h -> exists used keys, ggml_bitset_set (hs_used h) i = Some used /\ set_at i k (hs_keys h) = Some keys /\
  length used = length (hs_used h) /\ length keys = length (hs_keys h) /\ put_at h i k (mkHash (hs_size h) used keys).
Proof.
  intros Hi. destruct (bitset_set_ok (hs_used h) i) as (used & Hu & Hl & Hg); [rewrite (wh_used _ Hwf); by apply bitset_size_div|].
  exists used, (<[i := k]> (hs_keys h)). split; [done|]. split; [apply set_at_ok; by rewrite (wh_keys _ Hwf)|]. split; [done|].
  split; [apply length_insert|]. split; [done|]. intros j. unfold slot. cbn [hs_used hs_keys]. rewrite Hg. case_decide as Hj.
  - subst. apply list_lookup_insert_eq. by rewrite (wh_keys _ Hwf).
  - destruct (ggml_bitset_get (hs_used h) j) as [[]|]; [|done..]. by apply list_lookup_insert_ne.
Qed.

(** Putting an absent key at the end of its probe. *)
Lemma put_wf d h' : d < hs_size h -> taken h k d -> slot h (probe_at h k d) = None -> put_at h (probe_at h k d) k h' ->
  length (hs_used h') = length (hs_used h) -> length (hs_keys h') = length (hs_keys h) ->
  wf_hash h' /\ forall x, has_key h' x <-> x = k \/ has_key h x.
Proof.
  intros Hd Ht Hn [Hsz Hs] Hlu Hlk.
  assert (forall x e, probe_at h' x e = probe_at h x e) as Hp by (intros x e; unfold probe_at, start; by rewrite Hsz).
  assert (forall x e, x <> k -> taken h x e -> taken h' x e) as Hother.
  { intros x e Hx Htx e' He'. destruct (Htx e' He') as (x' & Hx' & Hne). rewrite Hp, Hs. case_decide; [by exists k|]. by exists x'. }
  assert (taken h' k d) as Hk'.
  { intros e He. destruct (Ht e He) as (x & Hx & Hne). rewrite Hp, Hs. case_decide as Heq; [by rewrite Heq, Hn in Hx|]. by exists x. }
  split.
  - split; [by rewrite Hsz; apply Hwf|by rewrite Hlk, Hsz; apply Hwf|by rewrite Hlu, Hsz; apply Hwf|].
    intros i x Hi Hx. rewrite Hsz in Hi |- *. rewrite Hs in Hx. case_decide as Heq.
    + injection Hx as <-. exists d. split_and!; [done|by rewrite Hp|done].
    + destruct (wh_probe _ Hwf i x Hi Hx) as (e & He & -> & Hte). exists e. split_and!; [done|by rewrite Hp|].
      apply Hother; [|done]. intros ->. apply (probe_absent h Hwf k d Hd Ht Hn). exists (probe_at h k e). split; [by apply probe_lt|done].
  - intros x. unfold has_key. rewrite Hsz. split.
    + intros (i & Hi & Hx). rewrite Hs in Hx. case_decide; [left; congruence|right; eauto].
    + intros [->|(i & Hi & Hx)].
      * exists (probe_at h k d). split; [by apply probe_lt|]. by rewrite Hs, decide_True.
      * exists i. split; [done|]. rewrite Hs, decide_False; [done|]. intros ->. congruence.
Qed.

Definition free_slot : Prop := exists i, i < hs_size h /\ slot h i = None.

Lemma insert_spec pr : free_slot \/ has_key h k -> exists r h', insert_loop (S (hs_size h)) pr h k (start h k) (start h k) = Some (r, h') /\
  wf_hash h' /\ hs_size h' = hs_size h /\ (forall x, has_key h' x <-> x = k \/ has_key h x) /\
  ((has_key h k /\ h' = h /\ exists i, i < hs_size h /\ slot h i = Some k /\ r = pr i) \/
   (~ has_key h k /\ exists i, i < hs_size h /\ slot h i = None /\ r = HashPos i /\ put_at h i k h')).
Proof.
  intros Hroom. destruct (probe_ends h k) as [Ht|(d & Hd & Ht & Hend)].
  { exfalso. destruct Hroom as [(i & Hi & Hs)|Hh]; [|by apply (probe_full_absent h Hwf k Ht)].
    destruct (probe_covers h Hwf k i Hi) as (d & Hd & ->). destruct (Ht d Hd) as (k' & ? & _). congruence. }
  replace (S (hs_size h)) with (d + S (hs_size h - d)) by lia. 
  pose proof (insert_skip h Hwf k pr d 0 (hs_size h - d) (fun d' Hd' => Ht d' (proj2 Hd')) Hd) as Hskip.
  rewrite (probe_0 h Hwf k) in Hskip. rewrite Hskip. clear Hskip. cbn [insert_loop Nat.add].
  destruct (slot_get h Hwf (probe_at h k d) (probe_lt h Hwf k d)) as (b & x & -> & Hx & Hs). cbn [mbind option_bind]. rewrite Hs in Hend.
  destruct b; cbn [negb].
  - assert (x = k) as -> by (destruct Hend as [?|Hk]; [done|by injection Hk]). rewrite Hx. cbn [mbind option_bind].
    rewrite bool_decide_true by done. assert (has_key h k) as Hhk by (exists (probe_at h k d); split; [by apply probe_lt|done]).
    eexists _, h. split; [reflexivity|]. split_and!; [done|done| |].
    + intros y. split; [by right|]. by intros [->|].
    + left. split_and!; [done|done|]. exists (probe_at h k d). split_and!; [by apply probe_lt|done|done].
  - destruct (put_ok (probe_at h k d) (probe_lt h Hwf k d)) as (used & keys & -> & -> & Hlu & Hlk & Hput). cbn [mbind option_bind].
    destruct (put_wf d _ Hd Ht Hs Hput Hlu Hlk) as [Hw Hin]. eexists _, _. split; [reflexivity|]. split_and!; [done|done|done|].
    right. split; [by apply (probe_absent h Hwf k d)|]. exists (probe_at h k d). split_and!; [by apply probe_lt|done|done|done..].
Qed.

Lemma contains_spec : exists b, ggml_hash_contains h k = Some b /\ (b = true <-> has_key h k).
Proof.
  unfold ggml_hash_contains. destruct (find_spec h Hwf k) as (r & -> & Hr). cbn [mbind option_bind]. destruct r as [| |i]; [|done|].
  - exists false. split; [done|]. split; [done|]. by intros ?%Hr.
  - destruct Hr as [Hi Hr]. destruct (slot_get h Hwf i Hi) as (b & x & Hb & Hx & Hs). exists b. split; [done|]. rewrite Hs in Hr. destruct b.
    + split; [|done]. intros _. exists i. split; [done|]. rewrite Hs. destruct Hr as [->|[? _]]; done.
    + split; [done|]. destruct Hr as [?|(_ & Hno & _)]; done.
Qed.
End Insert.

(** ** A new table *)

Lemma primes_mono i j x y : i <= j -> primes !! i = Some x -> primes !! j = Some y -> (x <= y)%Z.
Proof.
  intros Hij Hi Hj. destruct (decide (i = j)) as [->|Hne]; [simplify_eq; lia|].
  assert (StronglySorted Z.le primes) as Hs by (unfold primes; repeat constructor; lia).
  rewrite <- (take_drop j primes) in Hs. apply (StronglySorted_app_1_elem_of _ _ _ x y) in Hs; [done| |].
  - apply list_elem_of_lookup. exists i. rewrite lookup_take_lt by lia. done.
  - apply list_elem_of_lookup. exists 0. by rewrite lookup_drop, Nat.add_0_r.
Qed.

Lemma prime_search_ok min_sz : forall fuel l r, l <= r <= length primes -> r - l < fuel ->
  (forall i p, i < l -> primes !! i = Some p -> (p < min_sz)%Z) -> (forall i p, r <= i -> primes !! i = Some p -> (min_sz <= p)%Z) ->
  exists m, prime_search fuel l r min_sz = Some m /\ m <= length primes /\
    (forall i p, i < m -> primes !! i = Some p -> (p < min_sz)%Z) /\ (forall i p, m <= i -> primes !! i = Some p -> (min_sz <= p)%Z).
Proof.
  induction fuel as [|fuel IH]; intros l r Hlr Hf Hlo Hhi; [lia|]. cbn [prime_search]. case_bool_decide as Hd.
  2:{ exists l. split_and!; [done|lia|done|]. intros i p Hi. apply Hhi. lia. }
  assert (l <= (l + r) / 2 < r) as [Hm1 Hm2] by (split; [apply Nat.div_le_lower_bound|apply Nat.Div0.div_lt_upper_bound]; lia).
  set (m := (l + r) / 2) in *. destruct (lookup_lt_is_Some_2 primes m) as [p Hp]; [lia|]. rewrite Hp. cbn [mbind option_bind].
  case_bool_decide as Hc; apply IH; try lia; try done.
  - intros i q Hi Hq. pose proof (primes_mono i m q p ltac:(lia) Hq Hp). lia.
  - intros i q Hi Hq. pose proof (primes_mono m i p q ltac:(lia) Hp Hq). lia.
Qed.

(** [ggml_hash_size] answers the least prime of the table that is large enough,
    and an odd number that is large enough beyond the table. *)
Lemma hash_size_ok min_sz : exists n, ggml_hash_size min_sz = Some n /\ (min_sz <= n)%Z /\ (0 <= min_sz -> 0 < n)%Z /\
  (n ∈ primes -> forall p, p ∈ primes -> (min_sz <= p)%Z -> (n <= p)%Z).
Proof.
  unfold ggml_hash_size. destruct (prime_search_ok min_sz (S (length primes)) 0 (length primes)) as (m & -> & Hm & Hlo & Hhi); [lia|lia|lia| |].
  { intros i p Hi Hp. apply lookup_lt_Some in Hp. lia. }
  cbn [mbind option_bind]. case_bool_decide as Hd.
  - destruct (lookup_lt_is_Some_2 primes m Hd) as [n Hn]. exists n. rewrite Hn. split_and!; [done|by apply (Hhi m)| |].
    + intros _. assert (2 <= n)%Z; [|lia]. apply (primes_mono 0 m 2 n); [lia|done|done].
    + intros _ p [i Hi]%list_elem_of_lookup Hp. destruct (decide (m <= i)); [by apply (primes_mono m i)|].
      pose proof (Hlo i p ltac:(lia) Hi). lia.
  - assert (min_sz <= Z.lor min_sz 1)%Z as Hle.
    { pose proof (Z.add_lor_land min_sz 1) as H. change 1%Z with (Z.ones 1) in H at 2. rewrite Z.land_ones in H by lia.
      pose proof (Z.mod_pos_bound min_sz (2 ^ 1)). lia. }
    exists (Z.lor min_sz 1). split_and!; [done|done| |].
    + intros H. destruct (decide (min_sz = 0)%Z) as [->|]; [done|lia].
    + intros _ p [i Hi]%list_elem_of_lookup Hp. pose proof (Hlo i p ltac:(pose proof (lookup_lt_Some _ _ _ Hi); lia) Hi). lia.
Qed.

Lemma hash_new_ok size mem : (0 <= size)%Z -> (forall n, length (mem n) = n) ->
  exists h, ggml_hash_set_new size mem = Some h /\ wf_hash h /\ (size <= Z.of_nat (hs_size h))%Z /\ forall i, i < hs_size h -> slot h i = None.
Proof.
  intros Hs Hmem. unfold ggml_hash_set_new. destruct (hash_size_ok size) as (n & -> & Hle & Hpos & _). specialize (Hpos Hs).
  cbn [mbind option_bind]. eexists. split; [reflexivity|]. set (h := mkHash _ _ _).
  assert (forall i, i < hs_size h -> slot h i = None) as Hnone.
  { intros i Hi. unfold slot. cbn [h hs_used hs_size] in *. by rewrite bitset_get_zero. }
  split; [|split; [cbn; lia|done]]. split; cbn [h hs_size hs_keys hs_used]; [lia|apply Hmem|apply length_replicate|].
  intros i k Hi Hk. change (Z.to_nat n) with (hs_size h) in Hi. by rewrite Hnone in Hk.
Qed.

(** Resetting clears whatever the memory held. *)
Lemma reset_memory h : 0 < hs_size h -> length (hs_keys h) = hs_size h -> length (hs_used h) = ggml_bitset_size (hs_size h) ->
  exists h', ggml_hash_set_reset h = Some h' /\ wf_hash h' /\ hs_size h' = hs_size h /\ forall i, i < hs_size h -> slot h' i = None.
Proof.
  intros Hpos Hkeys Hused. unfold ggml_hash_set_reset.
  destruct (foldM_seq (fun i b => set_at i 0%Z b) (fun k b => length b = ggml_bitset_size (hs_size h) /\ forall j, j < k -> b !! j = Some 0%Z)
    0 (ggml_bitset_size (hs_size h)) (hs_used h)) as (used & -> & Hl & Hz).
  - split; [done|lia].
  - intros i b [_ Hi] [Hl Hz]. rewrite set_at_ok by lia. eexists. split; [reflexivity|]. split; [by rewrite length_insert|]. intros j Hj.
    destruct (decide (j = i)) as [->|]; [apply list_lookup_insert_eq; lia|]. rewrite list_lookup_insert_ne by done. apply Hz. lia.
  - cbn [mbind option_bind]. eexists. split; [reflexivity|]. set (h' := mkHash _ _ _).
    assert (forall i, i < hs_size h -> slot h' i = None) as Hnone.
    { intros i Hi. unfold slot. cbn [h' hs_used]. rewrite (bitset_get_testbit _ _ 0%Z) by (apply Hz; by apply bitset_size_div). by rewrite Z.bits_0. }
    split; [|done]. split; cbn [h' hs_size hs_keys hs_used]; [done|done|done|].
    intros i k Hi Hk. fold h' in Hk. by rewrite Hnone in Hk.
Qed.

Lemma hash_reset_ok h : wf_hash h -> exists h', ggml_hash_set_reset h = Some h' /\ wf_hash h' /\ hs_size h' = hs_size h /\
  forall i, i < hs_size h -> slot h' i = None.
Proof. intros Hwf. by apply reset_memory; apply Hwf. Qed.

(** * Refinement of finite sets *)

Definition hs_set (h : ggml_hash_set) : gset Z := list_to_set (omap (slot h) (seq 0 (hs_size h))).

Lemma elem_of_hs_set h k : k ∈ hs_set h <-> has_key h k.
Proof.
  unfold hs_set, has_key. rewrite elem_of_list_to_set, list_elem_of_omap. setoid_rewrite elem_of_seq. split; intros (i & ? & ?); exists i; (split; [lia|done]).
Qed.

Lemma slot_inj h i j k : wf_hash h -> i < hs_size h -> j < hs_size h -> slot h i = Some k -> slot h j = Some k -> i = j.
Proof.
  intros Hwf Hi Hj Hsi Hsj. destruct (wh_probe _ Hwf i k Hi Hsi) as (d & _ & -> & Ht). destruct (wh_probe _ Hwf j k Hj Hsj) as (e & _ & -> & He).
  destruct (decide (d < e)) as [Hlt|]; [destruct (He d Hlt) as (k' & ? & ?); simplify_eq|].
  destruct (decide (e < d)) as [Hlt|]; [destruct (Ht e Hlt) as (k' & ? & ?); simplify_eq|]. f_equal. lia.
Qed.

(** While the set has fewer elements than the table has slots, one is free. *)
Lemma hs_set_free h : wf_hash h -> base.size (hs_set h) < hs_size h -> free_slot h.
Proof.
  intros Hwf Hlt. destruct (decide (Exists (fun i => slot h i = None) (seq 0 (hs_size h)))) as [He|Hno].
  - apply list.Exists_exists in He as (i & [_ Hi]%elem_of_seq & Hs). by exists i.
  - exfalso. assert (forall i, i < hs_size h -> is_Some (slot h i)) as Hall.
    { intros i Hi. destruct (slot h i) eqn:E; [by eexists|]. exfalso. apply Hno, list.Exists_exists. exists i. split; [apply elem_of_seq; lia|done]. }
    unfold hs_set in Hlt. rewrite size_list_to_set, length_omap_all, length_seq in Hlt; [lia|by intros i [_ ?]%elem_of_seq; apply Hall|].
    apply NoDup_omap_inj; [apply NoDup_seq|]. intros i j x [_ Hi]%elem_of_seq [_ Hj]%elem_of_seq. by apply slot_inj.
Qed.

Lemma room_for h k : wf_hash h -> base.size ({[k]} ∪ hs_set h) <= hs_size h -> free_slot h \/ has_key h k.
Proof.
  intros Hwf Hcap. destruct (decide (k ∈ hs_set h)) as [Hk|Hk]; [right; by apply elem_of_hs_set|]. left. apply hs_set_free; [done|].
  rewrite size_union, size_singleton in Hcap by set_solver. lia.
Qed.

(** The operations, with what their caller learns: is the key there, was it
    new. *)
Inductive hash_op := OpContains (k : Z) | OpInsert (k : Z) | OpFindOrInsert (k : Z) | OpReset.

Definition exec_hash_op (o : hash_op) (h : ggml_hash_set) : option (bool * ggml_hash_set) :=
  match o with
  | OpContains k => b ← ggml_hash_contains h k; Some (b, h)
  | OpInsert k => '(r, h) ← ggml_hash_insert h k; Some (negb (bool_decide (r = HASHSET_ALREADY_EXISTS)), h)
  | OpFindOrInsert k => '(r, h') ← ggml_hash_find_or_insert h k; Some (bool_decide (ggml_hash_find h' k = Some r), h')
  | OpReset => h ← ggml_hash_set_reset h; Some (true, h)
  end.

Definition spec_hash_op (o : hash_op) (s : gset Z) : bool * gset Z :=
  match o with
  | OpContains k => (bool_decide (k ∈ s), s)
  | OpInsert k => (bool_decide (k ∉ s), {[k]} ∪ s)
  | OpFindOrInsert k => (true, {[k]} ∪ s)
  | OpReset => (true, ∅)
  end.

Lemma find_present h k i : wf_hash h -> i < hs_size h -> slot h i = Some k -> ggml_hash_find h k = Some (HashPos i).
Proof.
  intros Hwf Hi Hs. destruct (find_spec h Hwf k) as (r & -> & Hr). assert (has_key h k) as Hk by (by exists i).
  destruct r as [| |j]; [by destruct Hr|done|]. destruct Hr as [Hj [Hsj|(_ & Hno & _)]]; [|done]. by rewrite (slot_inj h i j k).
Qed.

Lemma hash_op_refines o h : wf_hash h -> base.size (spec_hash_op o (hs_set h)).2 <= hs_size h ->
  exists h', exec_hash_op o h = Some ((spec_hash_op o (hs_set h)).1, h') /\ wf_hash h' /\ hs_size h' = hs_size h /\
    hs_set h' = (spec_hash_op o (hs_set h)).2.
Proof.
  intros Hwf Hcap. destruct o as [k|k|k|]; cbn [exec_hash_op spec_hash_op fst snd] in *.
  - destruct (contains_spec h Hwf k) as (b & -> & Hb). exists h. split_and!; [|done..]. cbn [mbind option_bind]. f_equal. f_equal.
    destruct b; symmetry; [apply bool_decide_true|apply bool_decide_false]; rewrite elem_of_hs_set; [by apply Hb|]. intros H. by apply Hb in H.
  - destruct (insert_spec h Hwf k (fun _ => HASHSET_ALREADY_EXISTS)) as (r & h' & Hrun & W & S & Hin & Hr); [by apply room_for|].
    unfold ggml_hash_insert. rewrite hash_start_ok by done. cbn [mbind option_bind]. rewrite Hrun. cbn [mbind option_bind]. exists h'. split_and!; [|done|done|].
    + f_equal. f_equal. destruct Hr as [(Hk & _ & i & _ & _ & ->)|(Hk & i & _ & _ & -> & _)]; rewrite <- elem_of_hs_set in Hk.
      * rewrite bool_decide_true by done. by rewrite bool_decide_false by tauto.
      * rewrite bool_decide_false by done. by rewrite bool_decide_true by tauto.
    + apply set_eq. intros x. rewrite elem_of_union, elem_of_singleton, !elem_of_hs_set. apply Hin.
  - destruct (insert_spec h Hwf k HashPos) as (r & h' & Hrun & W & S & Hin & Hr); [by apply room_for|].
    unfold ggml_hash_find_or_insert. rewrite hash_start_ok by done. cbn [mbind option_bind]. rewrite Hrun. cbn [mbind option_bind]. exists h'. split_and!; [|done|done|].
    + f_equal. f_equal. apply bool_decide_true. destruct Hr as [(_ & -> & i & Hi & Hs & ->)|(_ & i & Hi & _ & -> & Hput)].
      * by apply find_present.
      * apply find_present; [done|by rewrite S|]. destruct Hput as [_ ->]. by rewrite decide_True.
    + apply set_eq. intros x. rewrite elem_of_union, elem_of_singleton, !elem_of_hs_set. apply Hin.
  - destruct (hash_reset_ok h Hwf) as (h' & -> & W & S & Hn). exists h'. split_and!; [done|done|done|]. apply set_eq. intros x.
    rewrite elem_of_hs_set. split; [|set_solver]. intros (i & Hi & Hx). rewrite S in Hi. by rewrite Hn in Hx.
Qed.

(** A run, with the answers. *)
Fixpoint exec_hash_run (os : list hash_op) (h : ggml_hash_set) : option (list bool * ggml_hash_set) :=
  match os with
  | [] => Some ([], h)
  | o :: os => '(b, h) ← exec_hash_op o h; '(bs, h) ← exec_hash_run os h; Some (b :: bs, h)
  end.

Fixpoint spec_hash_run (os : list hash_op) (s : gset Z) : list bool * gset Z :=
  match os with
  | [] => ([], s)
  | o :: os => let '(b, s) := spec_hash_op o s in let '(bs, s) := spec_hash_run os s in (b :: bs, s)
  end.

(** The set never has more than [n] elements. *)
Fixpoint fits_in (n : Z) (os : list hash_op) (s : gset Z) : Prop :=
  match os with
  | [] => True
  | o :: os => (Z.of_nat (base.size (spec_hash_op o s).2) <= n)%Z /\ fits_in n os (spec_hash_op o s).2
  end.

Lemma hash_run_sim os : forall h n, wf_hash h -> (n <= Z.of_nat (hs_size h))%Z -> fits_in n os (hs_set h) ->
  exists h', exec_hash_run os h = Some ((spec_hash_run os (hs_set h)).1, h') /\ wf_hash h' /\ hs_set h' = (spec_hash_run os (hs_set h)).2.
Proof.
  induction os as [|o os IH]; intros h n Hwf Hn Hfit; [by exists h|]. destruct Hfit as [Hcap Hfit].
  destruct (hash_op_refines o h Hwf) as (h1 & Hrun & W & S & Hset); [lia|]. cbn [exec_hash_run spec_hash_run]. rewrite Hrun.
  cbn [mbind option_bind]. destruct (spec_hash_op o (hs_set h)) as [b s]. cbn [fst snd] in *. subst s.
  destruct (IH h1 n W) as (h2 & -> & W2 & Hset2); [lia|done|]. cbn [mbind option_bind].
  destruct (spec_hash_run os (hs_set h1)) as [bs s2]. exists h2. split_and!; [done|done|]. exact Hset2.
Qed.

(** C26: a table made for [size] tensors behaves as a set, however the addresses
    hash: through any sequence of insertions, lookups and resets that never holds
    more than [size] tensors, no probe fails or aborts, every answer is the one of
    the set of the inserted addresses, and [find_or_insert] answers the slot where
    the address is found later. *)
Theorem hash_set_refines (size : Z) (mem : nat -> list Z) (os : list hash_op) :
  (0 <= size)%Z -> (forall n, length (mem n) = n) -> fits_in size os ∅ ->
  exists h h', ggml_hash_set_new size mem = Some h /\ exec_hash_run os h = Some ((spec_hash_run os ∅).1, h') /\
    forall k, ggml_hash_contains h' k = Some (bool_decide (k ∈ (spec_hash_run os ∅).2)).
Proof.
  intros Hs Hmem Hfit. destruct (hash_new_ok size mem Hs Hmem) as (h & -> & Hwf & Hsz & Hnone).
  assert (hs_set h = ∅) as Hempty.
  { apply set_eq. intros x. rewrite elem_of_hs_set. split; [|set_solver]. intros (i & Hi & Hx). by rewrite Hnone in Hx. }
  destruct (hash_run_sim os h size Hwf Hsz) as (h' & Hrun & W & Hset); [by rewrite Hempty|]. rewrite Hempty in Hrun, Hset.
  exists h, h'. split_and!; [done|done|]. intros k. destruct (contains_spec h' W k) as (b & -> & Hb). f_equal. rewrite <- Hset.
  destruct b; symmetry; [apply bool_decide_true|apply bool_decide_false]; rewrite elem_of_hs_set; [by apply Hb|]. intros H. by apply Hb in H.
Qed.

(** Three tensors that hash to the same slot of a table of five. *)
Lemma hash_set_refines_witness :
  exists h h', ggml_hash_set_new 4 (fun n => replicate n 0%Z) = Some h /\
    exec_hash_run [OpInsert 16; OpInsert 96; OpFindOrInsert 176; OpInsert 96; OpContains 256] h = Some ([true; true; true; false; false], h') /\
    ggml_hash_contains h' 176 = Some true.
Proof.
  destruct (hash_set_refines 4 (fun n => replicate n 0%Z) [OpInsert 16; OpInsert 96; OpFindOrInsert 176; OpInsert 96; OpContains 256])
    as (h & h' & H1 & H2 & H3); [lia|intros n; apply length_replicate|vm_compute; repeat split; discriminate|].
  exists h, h'. split; [exact H1|]. split; [exact H2|]. rewrite H3. vm_compute. reflexivity.
Defined.

End GgmlHash.
