(* ===== verification/GgmlGraph.v ===== *)
(** Compute graphs of ggml: [ggml_cgraph] of [ggml-impl.h] with the functions of
    [ggml.c] that build, copy and query it, and the fusion tests of
    [ggml-impl.h].  Tensors are addresses into a store; of a tensor the model has
    the fields these functions read or write. *)

From stdpp Require Import strings pretty.
From S2P Require Import Prelude.
From S2P Require Import GgmlHash.
Import GgmlHash.GgmlHash.

Module GgmlGraph.

Definition GGML_MAX_SRC : nat := 10.
Definition GGML_OP_NONE : Z := 0.
Definition GGML_TENSOR_FLAG_OUTPUT : Z := 2.
Definition GGML_TENSOR_FLAG_PARAM : Z := 4.
Definition GGML_TENSOR_FLAG_COMPUTE : Z := 16.

(** The pointers [src[i]] and [view_src] may be NULL. *)
Record ggml_tensor := mkTensor {
  t_op       : Z;
  t_flags    : Z;
  t_src      : list (option Z);
  t_view_src : option Z;
  t_ne       : list Z;
  t_name     : string;
}.

Abbreviation tensors := (gmap Z ggml_tensor) (only parsing).

Inductive ggml_cgraph_eval_order :=
  | GGML_CGRAPH_EVAL_ORDER_LEFT_TO_RIGHT
  | GGML_CGRAPH_EVAL_ORDER_RIGHT_TO_LEFT.

(** [nodes] and [leafs] are arrays of [size] entries, of which the first
    [n_nodes] and [n_leafs] are in use. *)
Record ggml_cgraph := mkGraph {
  g_size       : nat;
  n_nodes      : nat;
  n_leafs      : nat;
  nodes        : list Z;
  grads        : option (list (option Z));
  grad_accs    : option (list (option Z));
  leafs        : list Z;
  use_counts   : list Z;
  visited      : ggml_hash_set;
  order        : ggml_cgraph_eval_order;
}.

Definition with_visited h c g := mkGraph (g_size g) (n_nodes g) (n_leafs g) (nodes g) (grads g) (grad_accs g) (leafs g) c h (order g).
Definition with_nodes n l g := mkGraph (g_size g) n (n_leafs g) l (grads g) (grad_accs g) (leafs g) (use_counts g) (visited g) (order g).
Definition with_leafs n l g := mkGraph (g_size g) (n_nodes g) n (nodes g) (grads g) (grad_accs g) l (use_counts g) (visited g) (order g).

Definition has_flag (f : Z) (t : ggml_tensor) : bool := negb (bool_decide (Z.land (t_flags t) f = 0)%Z).

Definition set_flag (f : Z) (t : ggml_tensor) : ggml_tensor :=
  mkTensor (t_op t) (Z.lor (t_flags t) f) (t_src t) (t_view_src t) (t_ne t) (t_name t).

(** [if (strlen(node->name) == 0) ggml_format_name(node, "...%d", n)]. *)
Definition default_name (prefix : string) (n : nat) (t : ggml_tensor) : ggml_tensor :=
  if bool_decide (t_name t = ""%string)
  then mkTensor (t_op t) (t_flags t) (t_src t) (t_view_src t) (t_ne t) (prefix +:+ pretty (N.of_nat n))
  else t.

(** ** Construction *)

(** The arrays are uninitialised memory. *)
Definition ggml_new_graph_custom (size : nat) (with_grads : bool) (mem : nat -> list Z) : option ggml_cgraph :=
  hash_size ← ggml_hash_size (Z.of_nat size * 2);
  let hs := Z.to_nat hash_size in
  h ← ggml_hash_set_reset (mkHash hs (mem (ggml_bitset_size hs)) (mem hs));
  let gr := if with_grads then Some (replicate hs None) else None in
  Some (mkGraph size 0 0 (mem size) gr gr (mem size) (mem hs) h GGML_CGRAPH_EVAL_ORDER_LEFT_TO_RIGHT).

Definition ggml_graph_clear (g : ggml_cgraph) : option ggml_cgraph :=
  h ← ggml_hash_set_reset (visited g);
  Some (mkGraph (g_size g) 0 0 (nodes g) (grads g) (grad_accs g) (leafs g) (use_counts g) h (order g)).

(** The index of the source to visit at step [i]. *)
Definition src_index (o : ggml_cgraph_eval_order) (i : nat) : nat :=
  match o with
  | GGML_CGRAPH_EVAL_ORDER_LEFT_TO_RIGHT => i
  | GGML_CGRAPH_EVAL_ORDER_RIGHT_TO_LEFT => GGML_MAX_SRC - 1 - i
  end.

(** [node->src[k]]. *)
Definition src_at (ts : tensors) (node : Z) (k : nat) : option (option Z) := t ← ts !! node; t_src t !! k.

(** First visit: the slot of the node is taken. *)
Definition mark_visited (pos : nat) (node : Z) (g : ggml_cgraph) : option ggml_cgraph :=
  keys ← set_at pos node (hs_keys (visited g));
  used ← ggml_bitset_set (hs_used (visited g)) pos;
  counts ← set_at pos 0%Z (use_counts g);
  Some (with_visited (mkHash (hs_size (visited g)) used keys) counts g).

(** Last step: the node goes to the end of the leafs or of the nodes. *)
Definition add_visited (node : Z) (st : tensors * ggml_cgraph) : option (tensors * ggml_cgraph) :=
  let '(ts, g) := st in
  t ← ts !! node;
  if bool_decide (t_op t = GGML_OP_NONE) && negb (has_flag GGML_TENSOR_FLAG_PARAM t) then
    GGML_ASSERT bool_decide (n_leafs g < g_size g);
    l ← set_at (n_leafs g) node (leafs g);
    Some (<[node := default_name "leaf_" (n_leafs g) t]> ts, with_leafs (S (n_leafs g)) l g)
  else
    GGML_ASSERT bool_decide (n_nodes g < g_size g);
    l ← set_at (n_nodes g) node (nodes g);
    Some (<[node := default_name "node_" (n_nodes g) t]> ts, with_nodes (S (n_nodes g)) l g).

(** Recursion over the sources; [fuel] bounds its depth. *)
Fixpoint ggml_visit_parents_graph (fuel : nat) (node : Z) (compute : bool) (st : tensors * ggml_cgraph)
    : option (nat * (tensors * ggml_cgraph)) :=
  match fuel with
  | 0 => None
  | S fuel =>
      let '(ts, g) := st in
      t ← ts !! node;
      let ts := if negb (bool_decide (t_op t = GGML_OP_NONE)) && compute
                then <[node := set_flag GGML_TENSOR_FLAG_COMPUTE t]> ts else ts in
      r ← ggml_hash_find (visited g) node;
      pos ← match r with HashPos i => Some i | _ => None end;
      u ← ggml_bitset_get (hs_used (visited g)) pos;
      if (u : bool) then
        st ← (if compute then
                foldM (fun i st =>
                  src ← src_at (fst st) node i;
                  match src with
                  | None => Some st
                  | Some src =>
                      s ← fst st !! src;
                      if has_flag GGML_TENSOR_FLAG_COMPUTE s then Some st else
                      '(_, st) ← ggml_visit_parents_graph fuel src true st; Some st
                  end) (seq 0 GGML_MAX_SRC) (ts, g)
              else Some (ts, g));
        Some (pos, st)
      else
        g ← mark_visited pos node g;
        st ← foldM (fun i st =>
               src ← src_at (fst st) node (src_index (order (snd st)) i);
               match src with
               | None => Some st
               | Some src =>
                   '(p, (ts, g)) ← ggml_visit_parents_graph fuel src compute st;
                   c ← use_counts g !! p;
                   c ← i32_chk (c + 1);
                   counts ← set_at p c (use_counts g);
                   Some (ts, with_visited (visited g) counts g)
               end) (seq 0 GGML_MAX_SRC) (ts, g);
        st ← add_visited node st;
        Some (pos, st)
  end.

Definition ggml_build_forward_impl (fuel : nat) (tensor : Z) (expand compute : bool) (st : tensors * ggml_cgraph)
    : option (tensors * ggml_cgraph) :=
  let '(ts, g) := st in
  g ← (if negb expand then ggml_graph_clear g else Some g);
  let n_old := n_nodes g in
  '(_, (ts, g)) ← ggml_visit_parents_graph fuel tensor compute (ts, g);
  if bool_decide (n_old < n_nodes g) then
    last ← nodes g !! (n_nodes g - 1);
    GGML_ASSERT bool_decide (last = tensor);
    Some (ts, g)
  else Some (ts, g).

Definition ggml_build_forward_expand (fuel : nat) (tensor : Z) (st : tensors * ggml_cgraph) : option (tensors * ggml_cgraph) :=
  ggml_build_forward_impl fuel tensor true true st.

Definition ggml_build_forward_select (fuel : nat) (l : list Z) (idx : nat) (st : tensors * ggml_cgraph)
    : option (Z * (tensors * ggml_cgraph)) :=
  GGML_ASSERT bool_decide (idx < length l);
  st ← foldM (fun i st => t ← l !! i; ggml_build_forward_impl fuel t true (bool_decide (i = idx)) st) (seq 0 (length l)) st;
  t ← l !! idx;
  Some (t, st).

(** ** Copies and views *)

(** [for (i = 0; i < n; ++i) dst[i] = src[i]]. *)
Definition copy_array {A} (n : nat) (src dst : list A) : option (list A) :=
  foldM (fun i d => x ← src !! i; set_at i x d) (seq 0 n) dst.

Definition copy_key (src : ggml_cgraph) (i : nat) (st : ggml_hash_set * list Z) : option (ggml_hash_set * list Z) :=
  let '(h, counts) := st in
  u ← ggml_bitset_get (hs_used (visited src)) i;
  if negb u then Some (h, counts) else
  key ← hs_keys (visited src) !! i;
  '(r, h) ← ggml_hash_insert h key;
  pos ← match r with HashPos j => Some j | _ => None end;
  c ← use_counts src !! i;
  counts ← set_at pos c counts;
  Some (h, counts).

Definition hash_index (h : ggml_hash_set) (key : Z) : option nat :=
  r ← ggml_hash_find h key;
  i ← match r with HashPos i => Some i | _ => None end;
  u ← ggml_bitset_get (hs_used h) i;
  GGML_ASSERT u;
  Some i.

Definition copy_grad (src dst : ggml_cgraph) (h : ggml_hash_set) (sg sa : list (option Z)) (i : nat)
    (st : list (option Z) * list (option Z)) : option (list (option Z) * list (option Z)) :=
  let '(dg, da) := st in
  ns ← nodes src !! i;
  nd ← nodes dst !! i;
  gs ← hash_index (visited src) ns;
  gd ← hash_index h nd;
  x ← sg !! gs;
  y ← sa !! gs;
  dg ← set_at gd x dg;
  da ← set_at gd y da;
  Some (dg, da).

Definition ggml_graph_cpy (src dst : ggml_cgraph) : option ggml_cgraph :=
  GGML_ASSERT bool_decide (n_leafs src <= g_size dst);
  GGML_ASSERT bool_decide (n_nodes src <= g_size dst);
  GGML_ASSERT bool_decide (hs_size (visited src) <= hs_size (visited dst));
  lf ← copy_array (n_leafs src) (leafs src) (leafs dst);
  nd ← copy_array (n_nodes src) (nodes src) (nodes dst);
  '(h, counts) ← foldM (copy_key src) (seq 0 (hs_size (visited src))) (visited dst, use_counts dst);
  let dg := const (replicate (hs_size h) None) <$> grads dst in
  let da := const (replicate (hs_size h) None) <$> grads dst in
  let g := mkGraph (g_size dst) (n_nodes src) (n_leafs src) nd dg da lf counts h (order src) in
  match grads src with
  | None => Some g
  | Some sg =>
      sa ← grad_accs src;
      dg ← dg;
      da ← da;
      '(dg, da) ← foldM (copy_grad src g h sg sa) (seq 0 (n_nodes src)) (dg, da);
      Some (mkGraph (g_size dst) (n_nodes src) (n_leafs src) nd (Some dg) (Some da) lf counts h (order src))
  end.

Definition ggml_graph_dup (g : ggml_cgraph) (force_grads : bool) (mem : nat -> list Z) : option ggml_cgraph :=
  r ← ggml_new_graph_custom (g_size g) (bool_decide (grads g <> None) || force_grads) mem;
  ggml_graph_cpy g r.

(** [nodes + i0] points into the array. *)
Definition ggml_graph_view (g : ggml_cgraph) (i0 i1 : nat) : ggml_cgraph :=
  mkGraph 0 (i1 - i0) 0 (drop i0 (nodes g)) None None [] (use_counts g) (visited g) (order g).

(** ** Queries *)

(** Negative indices count from the end. *)
Definition ggml_graph_node (g : ggml_cgraph) (i : Z) : option Z :=
  if bool_decide (i < 0)%Z then
    GGML_ASSERT bool_decide (0 <= Z.of_nat (n_nodes g) + i)%Z;
    nodes g !! Z.to_nat (Z.of_nat (n_nodes g) + i)
  else
    GGML_ASSERT bool_decide (i < Z.of_nat (n_nodes g))%Z;
    nodes g !! Z.to_nat i.

Definition ggml_graph_add_node (g : ggml_cgraph) (tensor : Z) : option ggml_cgraph :=
  GGML_ASSERT bool_decide (n_nodes g < g_size g);
  l ← set_at (n_nodes g) tensor (nodes g);
  Some (with_nodes (S (n_nodes g)) l g).

(** The first of the [k] entries from [i] with that name. *)
Fixpoint find_name (k i : nat) (ts : tensors) (l : list Z) (name : string) : option (option Z) :=
  match k with
  | 0 => Some None
  | S k =>
      x ← l !! i;
      t ← ts !! x;
      if bool_decide (t_name t = name) then Some (Some x) else find_name k (S i) ts l name
  end.

Definition ggml_graph_get_tensor (ts : tensors) (g : ggml_cgraph) (name : string) : option (option Z) :=
  r ← find_name (n_leafs g) 0 ts (leafs g) name;
  match r with
  | Some x => Some (Some x)
  | None => find_name (n_nodes g) 0 ts (nodes g) name
  end.

Definition get_from (a : option (list (option Z))) (g : ggml_cgraph) (node : Z) : option (option Z) :=
  r ← ggml_hash_find (visited g) node;
  match r with
  | HashPos i =>
      u ← ggml_bitset_get (hs_used (visited g)) i;
      match a with Some l => if (u : bool) then l !! i else Some None | None => Some None end
  | _ => Some None
  end.

Definition ggml_graph_get_grad (g : ggml_cgraph) (node : Z) : option (option Z) := get_from (grads g) g node.
Definition ggml_graph_get_grad_acc (g : ggml_cgraph) (node : Z) : option (option Z) := get_from (grad_accs g) g node.

(** ** Uses and fusion *)

Definition use_count (g : ggml_cgraph) (node : Z) : option Z :=
  r ← ggml_hash_find (visited g) node;
  i ← match r with HashPos i => Some i | _ => None end;
  u ← ggml_bitset_get (hs_used (visited g)) i;
  if negb u then Some 0%Z else use_counts g !! i.

Definition ggml_node_get_use_count (g : ggml_cgraph) (node_idx : nat) : option Z :=
  node ← nodes g !! node_idx;
  use_count g node.

Definition ggml_node_has_n_uses (ts : tensors) (g : ggml_cgraph) (node_idx : nat) (n_uses : Z) : option bool :=
  node ← nodes g !! node_idx;
  c ← ggml_node_get_use_count g node_idx;
  if negb (bool_decide (c = n_uses)) then Some false else
  t ← ts !! node;
  if bool_decide (t_view_src t <> None) then Some false else
  if has_flag GGML_TENSOR_FLAG_OUTPUT t then Some false else Some true.

Definition ggml_are_same_shape (t0 t1 : ggml_tensor) : option bool :=
  b ← foldM (fun i (b : bool) => x ← t_ne t0 !! i; y ← t_ne t1 !! i; Some (b && bool_decide (x = y))) (seq 0 4) true;
  Some b.

(** The body of the loop of [ggml_can_fuse_ext]: [false] is [return false]. *)
Definition can_fuse_at (ts : tensors) (g : ggml_cgraph) (idxs : list nat) (ops : list Z) (num_ops i : nat) : option bool :=
  idx ← idxs !! i;
  if bool_decide (n_nodes g <= idx) then Some false else
  node ← nodes g !! idx;
  t ← ts !! node;
  op ← ops !! i;
  if negb (bool_decide (t_op t = op)) then Some false else
  if negb (has_flag GGML_TENSOR_FLAG_COMPUTE t) then Some false else
  one ← (if bool_decide (i + 1 < num_ops) then ggml_node_has_n_uses ts g idx 1 else Some true);
  if negb one then Some false else
  if bool_decide (0 < i) then
    pidx ← idxs !! (i - 1);
    prev ← nodes g !! pidx;
    s0 ← t_src t !! 0;
    s1 ← t_src t !! 1;
    if negb (bool_decide (s0 = Some prev)) && negb (bool_decide (s1 = Some prev)) then Some false else
    p ← ts !! prev;
    ggml_are_same_shape t p
  else Some true.

(** [for (i = 0; i < n; ++i) if (!f(i)) return false; return true]. *)
Fixpoint all_from (f : nat -> option bool) (k i : nat) : option bool :=
  match k with
  | 0 => Some true
  | S k => b ← f i; if (b : bool) then all_from f k (S i) else Some false
  end.

Definition ggml_can_fuse_ext (ts : tensors) (g : ggml_cgraph) (idxs : list nat) (ops : list Z) (num_ops : nat) : option bool :=
  all_from (can_fuse_at ts g idxs ops num_ops) num_ops 0.

Definition ggml_can_fuse `{BM : BuildMode} (ts : tensors) (g : ggml_cgraph) (node_idx : nat) (ops : list Z) (num_ops : nat) : option bool :=
  ASSERT bool_decide (num_ops < 32);
  if bool_decide (n_nodes g < node_idx + num_ops) then Some false else
  ggml_can_fuse_ext ts g (seq node_idx num_ops) ops num_ops.

(** The position of a tensor in a list of node indices. *)
Fixpoint ggml_node_list_find_tensor (g : ggml_cgraph) (idxs : list nat) (i : nat) (tensor : Z) : option (option nat) :=
  match idxs with
  | [] => Some None
  | idx :: idxs =>
      if bool_decide (n_nodes g <= idx) then Some None else
      x ← nodes g !! idx;
      if bool_decide (x = tensor) then Some (Some i) else ggml_node_list_find_tensor g idxs (S i) tensor
  end.

(** The uses of [node] by the later nodes of the subgraph. *)
Definition subgraph_uses (ts : tensors) (g : ggml_cgraph) (idxs : list nat) (i count : nat) (node : Z) : option Z :=
  foldM (fun j n =>
    idx ← idxs !! j;
    other ← nodes g !! idx;
    foldM (fun k n => s ← src_at ts other k; Some (if bool_decide (s = Some node) then (n + 1)%Z else n)) (seq 0 GGML_MAX_SRC) n)
    (seq (i + 1) (count - (i + 1))) 0%Z.

(** The chain of [view_src]. *)
Fixpoint views_inside (fuel : nat) (ts : tensors) (g : ggml_cgraph) (idxs : list nat) (v : option Z) : option bool :=
  match fuel with
  | 0 => None
  | S fuel =>
      match v with
      | None => Some true
      | Some x =>
          r ← ggml_node_list_find_tensor g idxs 0 x;
          match r with
          | None => Some false
          | Some _ => t ← ts !! x; views_inside fuel ts g idxs (t_view_src t)
          end
      end
  end.

Definition can_fuse_sub_at (fuel : nat) (ts : tensors) (g : ggml_cgraph) (idxs : list nat) (count : nat) (ops : list Z) (outputs : list nat)
    (i : nat) : option bool :=
  idx ← idxs !! i;
  if bool_decide (n_nodes g <= idx) then Some false else
  node ← nodes g !! idx;
  t ← ts !! node;
  op ← ops !! i;
  if negb (bool_decide (t_op t = op)) then Some false else
  if negb (has_flag GGML_TENSOR_FLAG_COMPUTE t) then Some false else
  o ← ggml_node_list_find_tensor g outputs 0 node;
  match o with
  | Some _ => Some true
  | None =>
      if has_flag GGML_TENSOR_FLAG_OUTPUT t then Some false else
      uses ← subgraph_uses ts g idxs i count node;
      c ← ggml_node_get_use_count g idx;
      if negb (bool_decide (uses = c)) then Some false else
      views_inside fuel ts g (take count idxs) (t_view_src t)
  end.

Definition ggml_can_fuse_subgraph_ext (fuel : nat) (ts : tensors) (g : ggml_cgraph) (idxs : list nat) (count : nat) (ops : list Z)
    (outputs : list nat) : option bool :=
  GGML_ASSERT negb (bool_decide (length outputs = 0));
  all_from (can_fuse_sub_at fuel ts g idxs count ops outputs) count 0.

Definition ggml_can_fuse_subgraph (fuel : nat) (ts : tensors) (g : ggml_cgraph) (node_idx count : nat) (ops : list Z) (outputs : list nat)
    : option bool :=
  GGML_ASSERT bool_decide (count < 32);
  if bool_decide (n_nodes g < node_idx + count) then Some false else
  ggml_can_fuse_subgraph_ext fuel ts g (seq node_idx count) count ops outputs.

End GgmlGraph.
