(* ===== verification/GgmlGraphOk.v ===== *)
(** Building compute graphs: a forward build visits exactly the tensors the
    result depends on, in an order in which every node comes after its sources,
    counts the uses of each tensor and marks what has to be computed.  From the
    counts follows that the fusion tests are sound. *)

From stdpp Require Import strings pretty relations.
From S2P Require Import Prelude.
From S2P Require Import GgmlHash.
From S2P Require Import GgmlGraph.
Import GgmlHash.GgmlHash GgmlGraph.GgmlGraph.

Module GgmlGraphOk.

(** * Tensors as a graph *)

Definition srcs (ts : tensors) (x : Z) : list Z := match ts !! x with Some t => omap id (t_src t) | None => [] end.

(** [x] depends on [y], directly or not. *)
Definition reach (ts : tensors) : Z -> Z -> Prop := rtc (fun x s => s ∈ srcs ts x).

Definition is_leaf (ts : tensors) (x : Z) : bool :=
  match ts !! x with Some t => bool_decide (t_op t = GGML_OP_NONE) && negb (has_flag GGML_TENSOR_FLAG_PARAM t) | None => false end.

(** [x] is the result of an operation. *)
Definition computed (ts : tensors) (x : Z) : Prop := exists t, ts !! x = Some t /\ t_op t <> GGML_OP_NONE.

Definition flagged (ts : tensors) (x : Z) : Prop := exists t, ts !! x = Some t /\ has_flag GGML_TENSOR_FLAG_COMPUTE t = true.

(** What the functions of GgmlGraph.v never change of a tensor: all but the
    compute flag and the name. *)
Definition core (t : ggml_tensor) : Z * Z * list (option Z) * option Z * list Z :=
  (t_op t, Z.clearbit (t_flags t) 4, t_src t, t_view_src t, t_ne t).

Definition same_tensors (ts ts' : tensors) : Prop := forall x, core <$> ts' !! x = core <$> ts !! x.

(** Sources exist and are no circle; [rank] is the depth of a tensor.  Only the
    result of an operation has sources. *)
Record tensors_wf (ts : tensors) (rank : Z -> nat) : Prop := {
  tw_len  : forall x t, ts !! x = Some t -> length (t_src t) = GGML_MAX_SRC;
  tw_in   : forall x s, s ∈ srcs ts x -> is_Some (ts !! s);
  tw_rank : forall x s, s ∈ srcs ts x -> rank s < rank x;
  tw_none : forall x t, ts !! x = Some t -> t_op t = GGML_OP_NONE -> srcs ts x = [];
}.

(** What a flagged tensor depends on is flagged, apart from the tensors in
    [ex]. *)
Definition flags_closed (ts : tensors) (ex : gset Z) : Prop :=
  forall x y, flagged ts x -> x ∉ ex -> reach ts x y -> computed ts y -> flagged ts y.

(** Occurrences of [x] among the sources of the tensors in [L]. *)
Definition uses (ts : tensors) (L : list Z) (x : Z) : nat := length (filter (eq x) (L ≫= srcs ts)).

Lemma uses_app ts L1 L2 x : uses ts (L1 ++ L2) x = uses ts L1 x + uses ts L2 x.
Proof. unfold uses. by rewrite bind_app, filter_app, length_app. Qed.

Lemma uses_nil ts x : uses ts [] x = 0.
Proof. done. Qed.

Lemma uses_perm ts L1 L2 x : L1 ≡ₚ L2 -> uses ts L1 x = uses ts L2 x.
Proof. intros H. unfold uses. by rewrite H. Qed.

Lemma uses_0 ts L x : uses ts L x = 0 <-> forall y, y ∈ L -> x ∉ srcs ts y.
Proof.
  unfold uses. split.
  - intros H y Hy Hx. apply length_zero_iff_nil in H. apply (filter_nil_not_elem_of _ _ x) in H; [|done]. apply H, list_elem_of_bind. by exists y.
  - intros H. destruct (filter (eq x) (L ≫= srcs ts)) as [|a l] eqn:E; [done|]. exfalso.
    assert (a ∈ filter (eq x) (L ≫= srcs ts)) as [<- Hy]%list_elem_of_filter by (rewrite E; by left).
    apply list_elem_of_bind in Hy as (y & Hy & HL). by apply (H y).
Qed.

Lemma length_omap {A B} (f : A -> option B) (l : list A) : length (omap f l) <= length l.
Proof. induction l as [|a l IH]; cbn; [lia|]. destruct (f a); cbn; lia. Qed.

Lemma length_srcs ts rank x : tensors_wf ts rank -> length (srcs ts x) <= GGML_MAX_SRC.
Proof.
  intros W. unfold srcs. destruct (ts !! x) as [t|] eqn:E; [|cbn; lia]. rewrite <- (tw_len _ _ W x t E). apply length_omap.
Qed.

Lemma uses_bound ts rank L x : tensors_wf ts rank -> uses ts L x <= 10 * length L.
Proof.
  intros W. unfold uses. etrans; [apply length_filter|]. induction L as [|y L IH]; cbn [mbind list_bind length]; [lia|].
  rewrite length_app. pose proof (length_srcs ts rank y W). unfold GGML_MAX_SRC in *. lia.
Qed.


(** ** What a visit leaves alone *)

Lemma flag_testbit k t : (0 <= k)%Z -> has_flag (2 ^ k) t = Z.testbit (t_flags t) k.
Proof. intros Hk. unfold has_flag. rewrite <- land_bit by done. by rewrite Z.shiftl_1_l. Qed.

Lemma core_flag k t t' : core t = core t' -> (0 <= k)%Z -> k <> 4%Z -> has_flag (2 ^ k) t = has_flag (2 ^ k) t'.
Proof.
  intros [= _ Hf _ _ _] Hk Hne. rewrite !flag_testbit by done.
  rewrite <- (Z.clearbit_neq (t_flags t) 4), <- (Z.clearbit_neq (t_flags t') 4) by lia. by rewrite Hf.
Qed.

Lemma same_refl ts : same_tensors ts ts.
Proof. done. Qed.

Lemma same_trans ts1 ts2 ts3 : same_tensors ts1 ts2 -> same_tensors ts2 ts3 -> same_tensors ts1 ts3.
Proof. intros H1 H2 x. by rewrite H2, H1. Qed.

Lemma same_lookup ts ts' x t : same_tensors ts ts' -> ts !! x = Some t -> exists t', ts' !! x = Some t' /\ core t' = core t.
Proof. intros H Hx. specialize (H x). rewrite Hx in H. destruct (ts' !! x) as [t'|]; [|done]. exists t'. by apply (inj Some) in H. Qed.

Lemma same_lookup_inv ts ts' x t' : same_tensors ts ts' -> ts' !! x = Some t' -> exists t, ts !! x = Some t /\ core t' = core t.
Proof. intros H Hx. specialize (H x). rewrite Hx in H. destruct (ts !! x) as [t|]; [|done]. exists t. by apply (inj Some) in H. Qed.

Lemma same_srcs ts ts' x : same_tensors ts ts' -> srcs ts' x = srcs ts x.
Proof.
  intros H. specialize (H x). unfold srcs. destruct (ts !! x) as [t|], (ts' !! x) as [t'|]; try done. by injection H as _ _ -> _ _.
Qed.

Lemma same_leaf ts ts' x : same_tensors ts ts' -> is_leaf ts' x = is_leaf ts x.
Proof.
  intros H. specialize (H x). unfold is_leaf. destruct (ts !! x) as [t|], (ts' !! x) as [t'|]; try done. apply (inj Some) in H.
  change GGML_TENSOR_FLAG_PARAM with (2 ^ 2)%Z. rewrite (core_flag 2 t' t) by done. assert (t_op t' = t_op t) as Hop by (by injection H). by rewrite Hop.
Qed.

Lemma same_reach ts ts' x y : same_tensors ts ts' -> reach ts' x y <-> reach ts x y.
Proof.
  intros H. unfold reach. split; induction 1 as [|x s y Hs _ IH]; [done| |done|]; (eapply rtc_l; [|done]).
  - by rewrite <- (same_srcs ts ts').
  - by rewrite (same_srcs ts ts').
Qed.

Lemma same_computed ts ts' x : same_tensors ts ts' -> computed ts' x <-> computed ts x.
Proof.
  intros H. specialize (H x). unfold computed. destruct (ts !! x) as [t|], (ts' !! x) as [t'|]; try done.
  injection H as H _ _ _ _. split; intros (t0 & [= <-] & Hop); eexists; (split; [done|congruence]).
Qed.

(** Setting the flag and giving a name. *)
Lemma flag_set t : has_flag GGML_TENSOR_FLAG_COMPUTE (set_flag GGML_TENSOR_FLAG_COMPUTE t) = true.
Proof. change GGML_TENSOR_FLAG_COMPUTE with (2 ^ 4)%Z at 1. rewrite flag_testbit by done. cbn [set_flag t_flags]. rewrite Z.lor_spec. by rewrite orb_true_r. Qed.

Lemma core_set_flag t : core (set_flag GGML_TENSOR_FLAG_COMPUTE t) = core t.
Proof.
  unfold core. cbn [set_flag t_op t_flags t_src t_view_src t_ne]. do 4 f_equal. apply Z.bits_inj'. intros k Hk.
  rewrite !Z.clearbit_eqb, Z.lor_spec. change GGML_TENSOR_FLAG_COMPUTE with (2 ^ 4)%Z. rewrite Z.pow2_bits_eqb by done.
  destruct (Z.eqb_spec 4 k); [by rewrite !andb_false_r|by rewrite orb_false_r].
Qed.

Lemma core_default_name p n t : core (default_name p n t) = core t /\ t_flags (default_name p n t) = t_flags t.
Proof. unfold default_name. by case_bool_decide. Qed.

Lemma same_insert ts x t t' : ts !! x = Some t -> core t' = core t -> same_tensors ts (<[x := t']> ts).
Proof.
  intros Hx Hc y. destruct (decide (y = x)) as [->|]; [rewrite lookup_insert_eq, Hx; cbn; by rewrite Hc|by rewrite lookup_insert_ne].
Qed.

Lemma flagged_insert ts x t t' y : ts !! x = Some t ->
  flagged (<[x := t']> ts) y <-> (y = x /\ has_flag GGML_TENSOR_FLAG_COMPUTE t' = true) \/ (y <> x /\ flagged ts y).
Proof.
  intros Hx. unfold flagged. destruct (decide (y = x)) as [->|Hne].
  - rewrite lookup_insert_eq. split; [intros (? & [= <-] & ?); by left|intros [[_ ?]|[? _]]; [by eexists|done]].
  - rewrite lookup_insert_ne by done. naive_solver.
Qed.

(** The flag is set first. *)
Lemma set_compute ts x t (c : bool) : ts !! x = Some t ->
  exists ts', (if negb (bool_decide (t_op t = GGML_OP_NONE)) && c then <[x := set_flag GGML_TENSOR_FLAG_COMPUTE t]> ts else ts) = ts' /\
    same_tensors ts ts' /\ forall y, flagged ts' y <-> flagged ts y \/ (c = true /\ y = x /\ computed ts y).
Proof.
  intros Hx. eexists. split; [reflexivity|]. case_bool_decide as Hop; cbn [negb andb].
  - split; [done|]. intros y. split; [by left|]. intros [?|(_ & -> & t' & Ht' & ?)]; [done|]. by simplify_eq.
  - destruct c; [|split; [done|]; intros y; split; [by left|by intros [?|[? _]]]].
    split; [by apply (same_insert _ _ t); [|apply core_set_flag]|]. intros y. rewrite (flagged_insert ts x t) by done. rewrite flag_set. split.
    + intros [[-> _]|[_ ?]]; [right|by left]. split_and!; [done|done|by exists t].
    + intros [?|(_ & -> & _)]; [|by left]. destruct (decide (y = x)); [by left|by right].
Qed.


(** * Graphs *)

Definition graph_nodes (g : ggml_cgraph) : list Z := take (n_nodes g) (nodes g).
Definition graph_leafs (g : ggml_cgraph) : list Z := take (n_leafs g) (leafs g).
Definition members (g : ggml_cgraph) : list Z := graph_nodes g ++ graph_leafs g.

(** While the visits of the tensors in [op] are in progress, the table holds
    them and the members; every source of a node comes before it. *)
Record graph_inv (ts : tensors) (op : gset Z) (g : ggml_cgraph) : Prop := {
  gi_hash   : wf_hash (visited g);
  gi_counts : length (use_counts g) = hs_size (visited g);
  gi_nodes  : length (nodes g) = g_size g;
  gi_leafs  : length (leafs g) = g_size g;
  gi_nn     : n_nodes g <= g_size g;
  gi_nl     : n_leafs g <= g_size g;
  gi_set    : forall x, x ∈ hs_set (visited g) <-> x ∈ members g \/ x ∈ op;
  gi_known  : forall x, x ∈ members g -> is_Some (ts !! x);
  gi_nodup  : NoDup (members g);
  gi_open   : forall x, x ∈ op -> x ∉ members g;
  gi_leaf   : forall x, x ∈ graph_leafs g -> is_leaf ts x = true;
  gi_node   : forall x, x ∈ graph_nodes g -> is_leaf ts x = false;
  gi_topo   : forall i x s, graph_nodes g !! i = Some x -> s ∈ srcs ts x -> s ∈ graph_leafs g \/ s ∈ take i (graph_nodes g);
}.

(** The use count of every visited tensor [x] is [f x]. *)
Definition counts_are (f : Z -> nat) (g : ggml_cgraph) : Prop :=
  (forall i x, i < hs_size (visited g) -> slot (visited g) i = Some x -> use_counts g !! i = Some (Z.of_nat (f x))) /\
  (forall x, x ∉ hs_set (visited g) -> f x = 0) /\
  forall x, f x <= 10 * base.size (hs_set (visited g)).

(** A finished graph: each tensor is counted as often as it is a source of a
    member. *)
Definition graph_wf (ts : tensors) (g : ggml_cgraph) : Prop := graph_inv ts ∅ g /\ counts_are (uses ts (members g)) g.

(** [g'] has the nodes [nn] and the leafs [nl] more. *)
Definition grows (nn nl : list Z) (g g' : ggml_cgraph) : Prop :=
  graph_nodes g' = graph_nodes g ++ nn /\ graph_leafs g' = graph_leafs g ++ nl /\
  forall i k, i < hs_size (visited g) -> slot (visited g) i = Some k -> slot (visited g') i = Some k.

Lemma grows_refl g : grows [] [] g g.
Proof. unfold grows. by rewrite !app_nil_r. Qed.

Lemma grows_trans n1 l1 n2 l2 g1 g2 g3 : hs_size (visited g2) = hs_size (visited g1) -> grows n1 l1 g1 g2 -> grows n2 l2 g2 g3 -> grows (n1 ++ n2) (l1 ++ l2) g1 g3.
Proof.
  intros Hs (Hn & Hl & Hm) (Hn' & Hl' & Hm'). split_and!; [by rewrite Hn', Hn, app_assoc|by rewrite Hl', Hl, app_assoc|]. intros i k Hi Hk.
  apply Hm'; [by rewrite Hs|]. by apply Hm.
Qed.

Lemma grows_members nn nl g g' : grows nn nl g g' -> members g' ≡ₚ members g ++ nn ++ nl.
Proof.
  intros (Hn & Hl & _). unfold members. rewrite Hn, Hl, <- !app_assoc. apply Permutation_app_head. rewrite !app_assoc.
  apply Permutation_app_tail, Permutation_app_comm.
Qed.

Lemma length_graph_nodes ts op g : graph_inv ts op g -> length (graph_nodes g) = n_nodes g.
Proof. intros H. unfold graph_nodes. rewrite length_take, (gi_nodes _ _ _ H). pose proof (gi_nn _ _ _ H). lia. Qed.

Lemma length_graph_leafs ts op g : graph_inv ts op g -> length (graph_leafs g) = n_leafs g.
Proof. intros H. unfold graph_leafs. rewrite length_take, (gi_leafs _ _ _ H). pose proof (gi_nl _ _ _ H). lia. Qed.

Lemma inv_size ts op g : graph_inv ts op g -> base.size (hs_set (visited g)) = length (members g) + base.size op.
Proof.
  intros H. assert (hs_set (visited g) = list_to_set (members g) ∪ op) as ->.
  { apply set_eq. intros x. rewrite (gi_set _ _ _ H), elem_of_union, elem_of_list_to_set. done. }
  rewrite size_union, size_list_to_set; [done|by apply H|]. intros x Hx Ho. apply elem_of_list_to_set in Hx. by apply (gi_open _ _ _ H x).
Qed.

(** Leafs have no sources, so the members are closed under dependence. *)
Lemma leaf_srcs ts rank x : tensors_wf ts rank -> is_leaf ts x = true -> srcs ts x = [].
Proof.
  intros W. unfold is_leaf. destruct (ts !! x) as [t|] eqn:E; [|done]. intros [Hop _]%andb_true_iff. apply bool_decide_eq_true in Hop.
  by apply (tw_none _ _ W x t).
Qed.

Lemma members_srcs ts rank op g x s : tensors_wf ts rank -> graph_inv ts op g -> x ∈ members g -> s ∈ srcs ts x -> s ∈ members g.
Proof.
  intros W H [Hx|Hx]%elem_of_app Hs.
  - apply list_elem_of_lookup in Hx as [i Hi]. destruct (gi_topo _ _ _ H i x s Hi Hs) as [?|Hin]; apply elem_of_app; [by right|left].
    by apply (subseteq_take i) in Hin.
  - exfalso. rewrite (leaf_srcs ts rank x W) in Hs by (by apply (gi_leaf _ _ _ H)). set_solver.
Qed.

Lemma members_reach ts rank op g x y : tensors_wf ts rank -> graph_inv ts op g -> x ∈ members g -> reach ts x y -> y ∈ members g.
Proof. intros W H Hx Hr. induction Hr as [|x s y Hs _ IH]; [done|]. apply IH. by apply (members_srcs ts rank op g x). Qed.

Lemma reach_inv ts x y : reach ts x y <-> y = x \/ exists s, s ∈ srcs ts x /\ reach ts s y.
Proof.
  split; [intros [->|(s & Hs & Hr)]%rtc_inv; [by left|right; by exists s]|]. intros [->|(s & Hs & Hr)]; [done|by apply rtc_l with s].
Qed.

Lemma reach_rank ts rank x y : tensors_wf ts rank -> reach ts x y -> rank y <= rank x.
Proof. intros W Hr. induction Hr as [|x s y Hs _ IH]; [done|]. pose proof (tw_rank _ _ W x s Hs). lia. Qed.

(** ** The sources in the order of the visit *)

Definition slot_src (ts : tensors) (x : Z) (k : nat) : option Z := t ← ts !! x; mjoin (t_src t !! k).

(** Those of the first [k] steps. *)
Definition psrc (ts : tensors) (o : ggml_cgraph_eval_order) (x : Z) (k : nat) : list Z := omap (fun i => slot_src ts x (src_index o i)) (seq 0 k).

Lemma psrc_S ts o x k : psrc ts o x (k + 1) = psrc ts o x k ++ option_list (slot_src ts x (src_index o k)).
Proof. unfold psrc. rewrite Nat.add_1_r, <- seq_snoc, omap_app. done. Qed.

Lemma length_psrc ts o x k : length (psrc ts o x k) <= k.
Proof. unfold psrc. etrans; [apply length_omap|]. by rewrite length_seq. Qed.

Lemma psrc_all ts rank o x : tensors_wf ts rank -> is_Some (ts !! x) -> psrc ts o x GGML_MAX_SRC ≡ₚ srcs ts x.
Proof.
  intros W [t Ht]. pose proof (tw_len _ _ W x t Ht) as Hl. unfold psrc, srcs, slot_src. rewrite Ht. cbn [mbind option_bind].
  assert (forall f : nat -> nat, omap (fun i => mjoin (t_src t !! f i)) (seq 0 GGML_MAX_SRC) = omap id ((fun i => mjoin (t_src t !! f i)) <$> seq 0 GGML_MAX_SRC)) as Hmap.
  { intros f. generalize (seq 0 GGML_MAX_SRC). intros l. induction l as [|a l IH]; cbn [omap list_omap fmap list_fmap]; [done|]. unfold id at 1.
    destruct (mjoin (t_src t !! f a)); by rewrite IH. }
  rewrite Hmap. apply omap_Permutation. revert Hl. generalize (t_src t). intros l Hl.
  destruct l as [|a0 [|a1 [|a2 [|a3 [|a4 [|a5 [|a6 [|a7 [|a8 [|a9 [|]]]]]]]]]]]; try done. destruct o; [done|]. cbn. apply (Permutation_rev [a9; a8; a7; a6; a5; a4; a3; a2; a1; a0]).
Qed.


(** * Visits *)

Section Visit.
Context (ts0 : tensors) (rank : Z -> nat) (W : tensors_wf ts0 rank).

(** ** Flags *)

(** [flags_closed], relative to the tensors of the start. *)
Definition closed_from (ts : tensors) (ex : gset Z) : Prop :=
  forall x y, flagged ts x -> x ∉ ex -> reach ts0 x y -> computed ts0 y -> flagged ts y.

(** The flags after the visit of [x] and the sources [L]. *)
Definition flags_after (ts : tensors) (c : bool) (x : Z) (L : list Z) (ts' : tensors) : Prop :=
  forall y, flagged ts' y <-> flagged ts y \/ (c = true /\ (y = x \/ exists s, s ∈ L /\ reach ts0 s y) /\ computed ts0 y).

Lemma flags_after_closed ts c x L ts' ex : closed_from ts ex -> flags_after ts c x L ts' -> closed_from ts' ({[x]} ∪ ex).
Proof.
  intros Hc Ha z y Hz Hnz Hr Hy. apply Ha. apply Ha in Hz as [Hz|(-> & [->|(s & Hs & Hrs)] & _)].
  - left. apply (Hc z); [done|set_solver|done|done].
  - set_solver.
  - right. split_and!; [done| |done]. right. exists s. split; [done|]. by trans z.
Qed.

Lemma flags_after_step ts c x L ts1 s ts2 : flags_after ts c x L ts1 ->
  (forall y, flagged ts2 y <-> flagged ts1 y \/ (c = true /\ reach ts0 s y /\ computed ts0 y)) -> flags_after ts c x (L ++ [s]) ts2.
Proof.
  intros Ha H y. rewrite H, (Ha y). split.
  - intros [[?|(-> & [->|(s' & Hs & Hr)] & ?)]|(-> & ? & ?)]; [by left|right; split_and!; [done|by left|done]|right|right].
    + split_and!; [done| |done]. right. exists s'. split; [|done]. apply elem_of_app. by left.
    + split_and!; [done| |done]. right. exists s. split; [|done]. apply elem_of_app. right. by left.
  - intros [?|(-> & [->|(s' & [Hs| ->%list_elem_of_singleton]%elem_of_app & Hr)] & ?)]; [by left; left|left; right; split_and!; [done|by left|done]|left; right|right].
    + split_and!; [done| |done]. right. by exists s'.
    + done.
Qed.

(** A source that is flagged need not be visited again. *)
Lemma flags_after_skip ts c x L ts1 s ex : flags_after ts c x L ts1 -> closed_from ts1 ex -> s ∉ ex -> flagged ts1 s -> flags_after ts c x (L ++ [s]) ts1.
Proof.
  intros Ha Hc Hs Hf. apply (flags_after_step _ _ _ _ ts1); [done|]. intros y. split; [by left|]. intros [?|(_ & Hr & Hy)]; [done|]. by apply (Hc s).
Qed.

Lemma flags_after_all ts c x L ts' : flags_after ts c x L ts' -> L ≡ₚ srcs ts0 x ->
  forall y, flagged ts' y <-> flagged ts y \/ (c = true /\ reach ts0 x y /\ computed ts0 y).
Proof.
  intros Ha HL y. rewrite (Ha y). assert ((y = x \/ exists s, s ∈ L /\ reach ts0 s y) <-> reach ts0 x y) as ->; [|done].
  rewrite reach_inv. by setoid_rewrite HL.
Qed.

(** The flags a visit of [x] reaches are below the tensors in [ex]. *)
Definition above (ex : gset Z) (x : Z) : Prop := forall y, y ∈ ex -> rank x < rank y.

Lemma above_src ex x s : above ex x -> s ∈ srcs ts0 x -> above ({[x]} ∪ ex) s.
Proof. intros H Hs y Hy. pose proof (tw_rank _ _ W x s Hs). apply elem_of_union in Hy as [->%elem_of_singleton|Hy]; [done|]. pose proof (H y Hy). lia. Qed.

Lemma above_notin ex x : above ex x -> x ∉ ex.
Proof. intros H Hx. specialize (H x Hx). lia. Qed.

Lemma psrc_in o x k s : k <= GGML_MAX_SRC -> is_Some (ts0 !! x) -> s ∈ psrc ts0 o x k -> s ∈ srcs ts0 x.
Proof.
  intros Hk Hx Hs. rewrite <- (psrc_all ts0 rank o x W Hx). unfold psrc in *. apply list_elem_of_omap in Hs as (i & Hi & Hs).
  apply list_elem_of_omap. exists i. split; [|done]. apply elem_of_seq in Hi. apply elem_of_seq. lia.
Qed.

Lemma src_at_ok ts x k : same_tensors ts0 ts -> is_Some (ts0 !! x) -> k < GGML_MAX_SRC -> src_at ts x k = Some (slot_src ts0 x k).
Proof.
  intros Hs [t Ht] Hk. unfold src_at, slot_src. destruct (same_lookup _ _ _ _ Hs Ht) as (t' & -> & Hc). rewrite Ht. cbn [mbind option_bind].
  assert (t_src t' = t_src t) as -> by (by injection Hc). pose proof (tw_len _ _ W x t Ht) as Hl.
  destruct (t_src t !! k) as [o|] eqn:E; [by destruct o|]. apply lookup_ge_None in E. lia.
Qed.

(** ** A tensor that is a member already *)

Section Again.
Context (g : ggml_cgraph) (op : gset Z) (Hg : graph_inv ts0 op g).

Lemma member_slot x : x ∈ members g -> exists i, ggml_hash_find (visited g) x = Some (HashPos i) /\ i < hs_size (visited g) /\
  slot (visited g) i = Some x /\ ggml_bitset_get (hs_used (visited g)) i = Some true.
Proof.
  intros Hx. assert (has_key (visited g) x) as (i & Hi & Hs) by (apply elem_of_hs_set, (gi_set _ _ _ Hg); by left).
  exists i. split_and!; [by apply find_present; [apply Hg| |]|done|done|]. unfold slot in Hs.
  by destruct (ggml_bitset_get (hs_used (visited g)) i) as [[]|].
Qed.

Lemma visit_again fuel : forall x c ts ex, rank x < fuel -> x ∈ members g -> above ex x -> closed_from ts ex -> same_tensors ts0 ts ->
  exists i ts', ggml_visit_parents_graph fuel x c (ts, g) = Some (i, (ts', g)) /\ i < hs_size (visited g) /\ slot (visited g) i = Some x /\
    same_tensors ts0 ts' /\ forall y, flagged ts' y <-> flagged ts y \/ (c = true /\ reach ts0 x y /\ computed ts0 y).
Proof.
  induction fuel as [|fuel IH]; intros x c ts ex Hf Hx Hex Hc Hs; [lia|]. pose proof (gi_known _ _ _ Hg x Hx) as Hk.
  destruct Hk as [t0 Ht0]. destruct (same_lookup _ _ _ _ Hs Ht0) as (t & Ht & Ht').
  cbn [ggml_visit_parents_graph]. rewrite Ht. cbn [mbind option_bind].
  destruct (set_compute ts x t c Ht) as (ts1 & -> & Hs1 & Hfl). destruct (member_slot x Hx) as (i & -> & Hi & Hslot & Hget).
  cbn [mbind option_bind]. rewrite Hget. cbn [mbind option_bind]. pose proof (same_trans _ _ _ Hs Hs1) as Hs01.
  assert (flags_after ts c x [] ts1) as Ha.
  { intros y. rewrite Hfl. rewrite (same_computed ts0 ts) by done. split; (intros [?|?]; [by left|right]); [naive_solver|].
    destruct H as (? & [->|(? & ?%not_elem_of_nil & _)] & ?); [done|done]. }
  destruct c; cbn [mbind option_bind].
  - destruct (foldM_seq (fun i0 st => src ← src_at (fst st) x i0; match src with None => Some st | Some src => s ← fst st !! src;
        if has_flag GGML_TENSOR_FLAG_COMPUTE s then Some st else '(_, st0) ← ggml_visit_parents_graph fuel src true st; Some st0 end)
      (fun k st => snd st = g /\ same_tensors ts0 (fst st) /\ flags_after ts true x (psrc ts0 GGML_CGRAPH_EVAL_ORDER_LEFT_TO_RIGHT x k) (fst st))
      0 GGML_MAX_SRC (ts1, g)) as ([ts' g'] & -> & Hgg & Hs' & Ha'); cbn [fst snd] in *.
    + by split_and!.
    + intros k [ts2 g2] [_ Hk] (Hgg & Hs2 & Ha2). cbn [fst snd] in *. subst g2. rewrite src_at_ok by (done || by eexists). cbn [mbind option_bind].
      rewrite psrc_S. cbn [src_index]. destruct (slot_src ts0 x k) as [s|] eqn:Es; [|exists (ts2, g); cbn [option_list]; by rewrite app_nil_r].
      assert (s ∈ srcs ts0 x) as Hsx.
      { apply (psrc_in GGML_CGRAPH_EVAL_ORDER_LEFT_TO_RIGHT x (k + 1)); [lia|by eexists|]. rewrite psrc_S. cbn [src_index]. rewrite Es.
        apply elem_of_app. right. by left. }
      pose proof (flags_after_closed _ _ _ _ _ _ Hc Ha2) as Hc2. pose proof (above_src ex x s Hex Hsx) as Hab.
      destruct (tw_in _ _ W x s Hsx) as [s0 Hs0]. destruct (same_lookup _ _ _ _ Hs2 Hs0) as (s2 & Hs2' & _). rewrite Hs2'. cbn [mbind option_bind option_list].
      destruct (has_flag GGML_TENSOR_FLAG_COMPUTE s2) eqn:Hfs.
      * exists (ts2, g). split_and!; [done|done|done|]. apply (flags_after_skip _ _ _ _ _ _ _ Ha2 Hc2); [by apply above_notin|by exists s2].
      * pose proof (tw_rank _ _ W x s Hsx). destruct (IH s true ts2 _ ltac:(lia) (members_srcs ts0 rank op g x s W Hg Hx Hsx) Hab Hc2 Hs2) as (j & ts3 & -> & _ & _ & Hs3 & Hf3).
        cbn [mbind option_bind]. exists (ts3, g). split_and!; [done|done|done|]. by apply (flags_after_step _ _ _ _ ts2).
    + subst g'. cbn [mbind option_bind]. exists i, ts'. split_and!; [done..|]. apply (flags_after_all _ _ _ _ _ Ha').
      apply (psrc_all ts0 rank); [done|by eexists].
  - exists i, ts1. split_and!; [done..|]. intros y. rewrite (Ha y). split; [intros [?|[? _]]; [by left|done]|intros [?|[? _]]; [by left|done]].
Qed.
End Again.

(** ** The pieces of a first visit *)

Section Fresh.
Context (U : gset Z) (n hs : nat) (o : ggml_cgraph_eval_order).
Context (U_closed : forall x s, x ∈ U -> s ∈ srcs ts0 x -> s ∈ U) (U_in : forall x, x ∈ U -> is_Some (ts0 !! x)).
Context (U_nodes : base.size (filter (fun x => is_leaf ts0 x = false) U) <= n) (U_leafs : base.size (filter (fun x => is_leaf ts0 x = true) U) <= n).
Context (U_hash : base.size U <= hs) (U_max : (10 * Z.of_nat (base.size U) <= INT32_MAX)%Z).

Record vstate (op : gset Z) (g : ggml_cgraph) : Prop := {
  vs_inv   : graph_inv ts0 op g;
  vs_n     : g_size g = n;
  vs_hs    : hs_size (visited g) = hs;
  vs_U     : hs_set (visited g) ⊆ U;
  vs_order : order g = o;
}.

Lemma find_fresh op g x : vstate op g -> x ∈ U -> x ∉ hs_set (visited g) -> exists d, d < hs /\ taken (visited g) x d /\
  slot (visited g) (probe_at (visited g) x d) = None /\ ggml_hash_find (visited g) x = Some (HashPos (probe_at (visited g) x d)) /\
  probe_at (visited g) x d < hs /\ ggml_bitset_get (hs_used (visited g)) (probe_at (visited g) x d) = Some false.
Proof.
  intros V Hx Hn. pose proof (gi_hash _ _ _ (vs_inv _ _ V)) as Hw. pose proof (vs_hs _ _ V) as Hhs.
  assert (free_slot (visited g)) as (j & Hj & Hfree).
  { destruct (room_for (visited g) x Hw) as [?|Hk]; [|done|by apply elem_of_hs_set in Hk].
    rewrite Hhs. etrans; [|exact U_hash]. apply subseteq_size. pose proof (vs_U _ _ V). set_solver. }
  destruct (find_spec (visited g) Hw x) as (r & Hr & Hspec). destruct r as [| |i]; [by destruct Hspec as [_ Hall]; destruct (Hall j Hj)|done|].
  destruct Hspec as [Hi [Hs|(Hs & _ & d & Hd & -> & Ht)]]; [exfalso; apply Hn, elem_of_hs_set; by exists i|].
  rewrite Hhs in Hd, Hi. exists d. split_and!; [done..|]. destruct (slot_get (visited g) Hw (probe_at (visited g) x d)) as (b & k & Hb & Hk & Hsl); [by rewrite Hhs|].
  rewrite Hb. rewrite Hsl in Hs. by destruct b.
Qed.

Lemma mark_ok op g x d : vstate op g -> x ∈ U -> x ∉ hs_set (visited g) -> d < hs -> taken (visited g) x d ->
  slot (visited g) (probe_at (visited g) x d) = None -> exists g', mark_visited (probe_at (visited g) x d) x g = Some g' /\
  vstate ({[x]} ∪ op) g' /\ grows [] [] g g' /\ slot (visited g') (probe_at (visited g) x d) = Some x /\ forall f, counts_are f g -> counts_are f g'.
Proof.
  intros V Hx Hn Hd Ht Hs. pose proof (vs_inv _ _ V) as I. pose proof (gi_hash _ _ _ I) as Hw. pose proof (vs_hs _ _ V) as Hhs.
  set (i := probe_at (visited g) x d) in *. assert (i < hs) as Hi by (rewrite <- Hhs; by apply probe_lt).
  destruct (put_ok (visited g) Hw x i) as (used & keys & Hu & Hk & Hlu & Hlk & Hput); [by rewrite Hhs|].
  rewrite <- Hhs in Hd. destruct (put_wf (visited g) Hw x d _ Hd Ht Hs Hput Hlu Hlk) as [Hw' Hkeys].
  assert (forall y, y ∈ hs_set (mkHash (hs_size (visited g)) used keys) <-> y = x \/ y ∈ hs_set (visited g)) as Hset.
  { intros y. by rewrite !elem_of_hs_set, Hkeys. }
  unfold mark_visited. rewrite Hk, Hu. cbn [mbind option_bind]. rewrite set_at_ok by (rewrite (gi_counts _ _ _ I); lia). cbn [mbind option_bind].
  eexists. split; [reflexivity|]. set (h' := mkHash _ _ _) in *. split; [|split; [|split]].
  - split; [|apply V|apply Hhs| |apply V]; [split; try apply I|]; cbn [with_visited visited use_counts].
    + done.
    + by rewrite length_insert, (gi_counts _ _ _ I).
    + intros y. rewrite Hset, (gi_set _ _ _ I). change (members (with_visited _ _ g)) with (members g). set_solver.
    + change (members (with_visited _ _ g)) with (members g). intros y [->%elem_of_singleton|Hy]%elem_of_union Hm; [|by apply (gi_open _ _ _ I y)].
      apply Hn, (gi_set _ _ _ I). by left.
    + intros y [->|Hy]%Hset; [done|]. by apply (vs_U _ _ V).
  - split_and!; [by rewrite app_nil_r|by rewrite app_nil_r|]. intros j k Hj Hjk. cbn [with_visited visited]. destruct Hput as [_ ->].
    rewrite decide_False; [done|]. intros ->. by rewrite Hs in Hjk.
  - cbn [with_visited visited]. destruct Hput as [_ ->]. by rewrite decide_True.
  - intros f (Hc & Hz & Hb). pose proof Hput as [_ Hslot]. split_and!; cbn [with_visited visited use_counts hs_size].
    + intros j k Hj Hk'. rewrite Hslot in Hk'. change (hs_size h') with (hs_size (visited g)) in Hj. case_decide as Hji.
      * injection Hk' as <-. rewrite Hji, list_lookup_insert_eq by (rewrite (gi_counts _ _ _ I); lia). by rewrite (Hz x Hn).
      * rewrite list_lookup_insert_ne by done. by apply Hc.
    + intros y Hy. apply Hz. rewrite Hset in Hy. tauto.
    + intros y. etrans; [apply Hb|]. apply Nat.mul_le_mono_l, subseteq_size. intros z Hz'. apply Hset. by right.
Qed.

(** [use_counts[p]++]. *)
Lemma incr_ok op g f p s : vstate op g -> counts_are f g -> p < hs -> slot (visited g) p = Some s -> S (f s) <= 10 * base.size (hs_set (visited g)) ->
  exists c counts, use_counts g !! p = Some c /\ i32_chk (c + 1) = Some (c + 1)%Z /\ set_at p (c + 1)%Z (use_counts g) = Some counts /\
    let g' := with_visited (visited g) counts g in vstate op g' /\ counts_are (fun y => f y + length (filter (eq y) [s])) g'.
Proof.
  intros V (Hc & Hz & Hb) Hp Hs Hlt. pose proof (vs_inv _ _ V) as I. pose proof (vs_hs _ _ V) as Hhs.
  assert (s ∈ hs_set (visited g)) as Hin by (apply elem_of_hs_set; exists p; by rewrite Hhs).
  exists (Z.of_nat (f s)), (<[p := (Z.of_nat (f s) + 1)%Z]> (use_counts g)). split; [by apply Hc; [rewrite Hhs|]|].
  pose proof (subseteq_size _ _ (vs_U _ _ V)). split; [apply i32_chk_Some; unfold INT32_MAX, INT32_MIN in *; lia|].
  split; [apply set_at_ok; rewrite (gi_counts _ _ _ I); lia|]. cbn zeta. split.
  - split; try apply V. split; try apply I. cbn [with_visited visited use_counts]. by rewrite length_insert, (gi_counts _ _ _ I).
  - split_and!; cbn [with_visited visited use_counts].
    + intros j k Hj Hk. destruct (decide (j = p)) as [->|Hne].
      * rewrite Hs in Hk. injection Hk as <-. rewrite list_lookup_insert_eq by (rewrite (gi_counts _ _ _ I); lia).
        rewrite filter_cons_True by done. cbn [filter list_filter length]. f_equal. cbn. lia.
      * rewrite list_lookup_insert_ne by done. rewrite (Hc j k Hj Hk). rewrite filter_cons_False; [cbn; f_equal; lia|].
        intros ->. apply Hne, (slot_inj (visited g) j p s); [apply I|done|by rewrite Hhs|done|done].
    + intros y Hy. rewrite (Hz y Hy), filter_cons_False by (by intros ->). done.
    + intros y. destruct (decide (y = s)) as [->|Hne]; [rewrite filter_cons_True by done|rewrite filter_cons_False by done]; cbn; [lia|].
      pose proof (Hb y). lia.
Qed.

(** The members of one kind fit into their array. *)
Lemma kind_fits op g x (b : bool) : vstate ({[x]} ∪ op) g -> is_leaf ts0 x = b ->
  length (if b then graph_leafs g else graph_nodes g) < n.
Proof.
  intros V Hb. pose proof (vs_inv _ _ V) as I. set (l := if b then graph_leafs g else graph_nodes g).
  assert (NoDup (x :: l)) as Hnd.
  { apply NoDup_cons. pose proof (gi_nodup _ _ _ I) as [Hn1 [_ Hn2]]%NoDup_app.
    split; [|subst l; by destruct b]. intros Hx. apply (gi_open _ _ _ I x); [set_solver|]. apply elem_of_app. subst l. destruct b; tauto. }
  enough (base.size (list_to_set (x :: l) : gset Z) <= n) as Hle by (rewrite size_list_to_set in Hle by done; cbn in Hle; lia).
  assert (list_to_set (x :: l) ⊆ filter (fun x => is_leaf ts0 x = b) U) as Hsub.
  { intros y Hy%elem_of_list_to_set. apply elem_of_filter. apply elem_of_cons in Hy as [->|Hy].
    - split; [done|]. apply (vs_U _ _ V), (gi_set _ _ _ I). right. set_solver.
    - split; [subst l; destruct b; [by apply (gi_leaf _ _ _ I)|by apply (gi_node _ _ _ I)]|].
      apply (vs_U _ _ V), (gi_set _ _ _ I). left. apply elem_of_app. subst l. destruct b; tauto. }
  apply subseteq_size in Hsub. destruct b; lia.
Qed.

Lemma take_insert_end (l : list Z) k x : k < length l -> take (S k) (<[k := x]> l) = take k l ++ [x].
Proof.
  intros Hk. rewrite (take_S_r _ _ x) by (by apply list_lookup_insert_eq). f_equal. by rewrite take_insert_ge.
Qed.

Lemma same_counts f g g' : visited g' = visited g -> use_counts g' = use_counts g -> counts_are f g -> counts_are f g'.
Proof. intros H1 H2. unfold counts_are. by rewrite H1, H2. Qed.

(** The visited tensor becomes a member. *)
Lemma add_member op g g' x nn nl : vstate ({[x]} ∪ op) g -> x ∉ op ->
  (nn = [x] /\ nl = [] /\ is_leaf ts0 x = false \/ nn = [] /\ nl = [x] /\ is_leaf ts0 x = true) -> (forall s, s ∈ srcs ts0 x -> s ∈ members g) ->
  graph_nodes g' = graph_nodes g ++ nn -> graph_leafs g' = graph_leafs g ++ nl ->
  n_nodes g' <= n -> n_leafs g' <= n -> length (nodes g') = n -> length (leafs g') = n ->
  visited g' = visited g -> use_counts g' = use_counts g -> g_size g' = g_size g -> order g' = order g -> vstate op g'.
Proof.
  intros V Hx Hkind Hsrc Hgn Hgl Hnn Hnl Hln Hll Hv Hu Hs Ho. pose proof (vs_inv _ _ V) as I.
  assert (forall y, y ∈ members g' <-> y = x \/ y ∈ members g) as Hm.
  { intros y. unfold members. rewrite Hgn, Hgl, !elem_of_app. destruct Hkind as [(-> & -> & _)|(-> & -> & _)]; set_solver. }
  assert (x ∉ members g) as Hxm by (apply (gi_open _ _ _ I); set_solver).
  split; [|rewrite Hs; apply V|rewrite Hv; apply V|rewrite Hv; apply V|rewrite Ho; apply V]. split.
  - rewrite Hv. apply I.
  - rewrite Hu, Hv. apply I.
  - by rewrite Hs, (vs_n _ _ V).
  - by rewrite Hs, (vs_n _ _ V).
  - by rewrite Hs, (vs_n _ _ V).
  - by rewrite Hs, (vs_n _ _ V).
  - intros y. rewrite Hv, (gi_set _ _ _ I), Hm. set_solver.
  - intros y [->|Hy]%Hm; [|by apply (gi_known _ _ _ I)]. apply U_in, (vs_U _ _ V), (gi_set _ _ _ I). right. set_solver.
  - unfold members. rewrite Hgn, Hgl. assert (NoDup (x :: members g)) as Hnd by (apply NoDup_cons; split; [done|apply I]).
    destruct Hkind as [(-> & -> & _)|(-> & -> & _)].
    + rewrite app_nil_r, <- app_assoc. cbn. by rewrite <- Permutation_middle.
    + rewrite app_nil_r, app_assoc. by rewrite (Permutation_app_comm _ [x]).
  - intros y Hy [->|Hyg]%Hm; [done|]. apply (gi_open _ _ _ I y); [set_solver|done].
  - intros y. rewrite Hgl. intros [Hy|Hy]%elem_of_app; [by apply (gi_leaf _ _ _ I)|].
    destruct Hkind as [(_ & -> & _)|(_ & -> & ?)]; [set_solver|]. by apply list_elem_of_singleton in Hy as ->.
  - intros y. rewrite Hgn. intros [Hy|Hy]%elem_of_app; [by apply (gi_node _ _ _ I)|].
    destruct Hkind as [(-> & _ & ?)|(-> & _ & _)]; [|set_solver]. by apply list_elem_of_singleton in Hy as ->.
  - intros i y s. rewrite Hgn, Hgl. intros [Hi|[Hle Hi]]%lookup_app_Some Hy.
    + destruct (gi_topo _ _ _ I i y s Hi Hy) as [?|Htk]; [left; apply elem_of_app; by left|right].
      rewrite take_app_le; [done|]. apply lookup_lt_Some in Hi. lia.
    + destruct Hkind as [(-> & -> & _)|(-> & _ & _)]; [|done]. apply list_lookup_singleton_Some in Hi as [Hi0 <-].
      specialize (Hsrc s Hy). apply elem_of_app in Hsrc as [Hsn|Hsl]; [right|left; apply elem_of_app; by left].
      rewrite take_app_le by lia. replace i with (length (graph_nodes g)) by lia. by rewrite firstn_all.
Qed.

Lemma add_ok op ts g x : vstate ({[x]} ∪ op) g -> x ∉ op -> same_tensors ts0 ts -> (forall s, s ∈ srcs ts0 x -> s ∈ members g) ->
  exists ts' g', add_visited x (ts, g) = Some (ts', g') /\ vstate op g' /\ same_tensors ts0 ts' /\ (forall y, flagged ts' y <-> flagged ts y) /\
    visited g' = visited g /\ use_counts g' = use_counts g /\
    if is_leaf ts0 x then grows [] [x] g g' else grows [x] [] g g'.
Proof.
  intros V Hx Hs Hsrc. pose proof (vs_inv _ _ V) as I. pose proof (vs_n _ _ V) as Hn. pose proof (kind_fits op g x _ V eq_refl) as Hfit.
  assert (x ∈ U) as HxU by (apply (vs_U _ _ V), (gi_set _ _ _ I); right; set_solver).
  destruct (U_in x HxU) as [t0 Ht0]. destruct (same_lookup _ _ _ _ Hs Ht0) as (t & Ht & Hct).
  assert (bool_decide (t_op t = GGML_OP_NONE) && negb (has_flag GGML_TENSOR_FLAG_PARAM t) = is_leaf ts0 x) as Hleaf.
  { rewrite <- (same_leaf ts0 ts) by done. unfold is_leaf. by rewrite Ht. }
  unfold add_visited. rewrite Ht. cbn [mbind option_bind]. rewrite Hleaf.
  assert (forall p k, same_tensors ts0 (<[x := default_name p k t]> ts) /\ forall y, flagged (<[x := default_name p k t]> ts) y <-> flagged ts y) as Hname.
  { intros p k. destruct (core_default_name p k t) as [Hc Hfl]. split.
    - eapply same_trans; [done|]. by apply (same_insert _ _ t).
    - intros y. rewrite (flagged_insert ts x t) by done. unfold has_flag. rewrite Hfl. change (negb _) with (has_flag GGML_TENSOR_FLAG_COMPUTE t).
      unfold flagged. destruct (decide (y = x)) as [->|]; naive_solver. }
  pose proof (gi_nn _ _ _ I). pose proof (gi_nl _ _ _ I). pose proof (gi_nodes _ _ _ I) as Hln. pose proof (gi_leafs _ _ _ I) as Hll.
  destruct (is_leaf ts0 x) eqn:Hl.
  - rewrite (length_graph_leafs _ _ _ I) in Hfit. rewrite ggml_assert_true by (apply bool_decide_true; lia). cbn [mbind option_bind].
    rewrite set_at_ok by lia. cbn [mbind option_bind]. eexists _, _. split; [reflexivity|].
    assert (graph_leafs (with_leafs (S (n_leafs g)) (<[n_leafs g := x]> (leafs g)) g) = graph_leafs g ++ [x]) as Hgl by (apply take_insert_end; lia).
    split; [|split; [apply Hname|split; [apply Hname|split_and!; [done|done|split; [by rewrite app_nil_r|split; [exact Hgl|done]]]]]].
    apply (add_member op g _ x [] [x] V Hx); try done; cbn [with_leafs n_nodes n_leafs nodes leafs]; try lia.
    + by right.
    + by rewrite app_nil_r.
    + rewrite length_insert. lia.
  - rewrite (length_graph_nodes _ _ _ I) in Hfit. rewrite ggml_assert_true by (apply bool_decide_true; lia). cbn [mbind option_bind].
    rewrite set_at_ok by lia. cbn [mbind option_bind]. eexists _, _. split; [reflexivity|].
    assert (graph_nodes (with_nodes (S (n_nodes g)) (<[n_nodes g := x]> (nodes g)) g) = graph_nodes g ++ [x]) as Hgl by (apply take_insert_end; lia).
    split; [|split; [apply Hname|split; [apply Hname|split_and!; [done|done|split; [exact Hgl|split; [by rewrite app_nil_r|done]]]]]].
    apply (add_member op g _ x [x] [] V Hx); try done; cbn [with_nodes n_nodes n_leafs nodes leafs]; try lia.
    + by left.
    + by rewrite app_nil_r.
    + rewrite length_insert. lia.
Qed.

(** ** A visit *)

Record visit_post (op : gset Z) (c : bool) (x : Z) (f : Z -> nat) (ts : tensors) (g : ggml_cgraph) (i : nat) (ts' : tensors) (g' : ggml_cgraph)
    (nn nl : list Z) : Prop := {
  vp_state  : vstate op g';
  vp_same   : same_tensors ts0 ts';
  vp_pos    : i < hs;
  vp_slot   : slot (visited g') i = Some x;
  vp_grow   : grows nn nl g g';
  vp_reach  : forall y, y ∈ nn ++ nl -> reach ts0 x y;
  vp_in     : x ∈ members g';
  vp_last   : x ∈ members g /\ nn = [] \/ is_leaf ts0 x = true /\ nn = [] \/ exists nn', nn = nn' ++ [x];
  vp_counts : counts_are (fun y => f y + uses ts0 (nn ++ nl) y) g';
  vp_flags  : forall y, flagged ts' y <-> flagged ts y \/ (c = true /\ reach ts0 x y /\ computed ts0 y);
}.

Lemma counts_ext f f' g : (forall y, f y = f' y) -> counts_are f g -> counts_are f' g.
Proof. intros H (Hc & Hz & Hb). split_and!; [intros i x; rewrite <- H; apply Hc|intros x; rewrite <- H; apply Hz|intros x; rewrite <- H; apply Hb]. Qed.

(** The state after the first [k] sources of [x]. *)
Record src_post (op : gset Z) (c : bool) (x : Z) (f : Z -> nat) (pos : nat) (ts : tensors) (g : ggml_cgraph) (k : nat) (ts' : tensors) (g' : ggml_cgraph)
    (nn nl : list Z) : Prop := {
  sp_state  : vstate ({[x]} ∪ op) g';
  sp_same   : same_tensors ts0 ts';
  sp_slot   : slot (visited g') pos = Some x;
  sp_grow   : grows nn nl g g';
  sp_reach  : forall y, y ∈ nn ++ nl -> exists s, s ∈ srcs ts0 x /\ reach ts0 s y;
  sp_in     : forall s, s ∈ psrc ts0 o x k -> s ∈ members g';
  sp_flags  : flags_after ts c x (psrc ts0 o x k) ts';
  sp_counts : counts_are (fun y => f y + uses ts0 (nn ++ nl) y + length (filter (eq y) (psrc ts0 o x k))) g';
}.

Lemma visit_member fuel x c ts ex op g f : rank x < fuel -> x ∈ members g -> vstate op g -> above ex x -> closed_from ts ex -> same_tensors ts0 ts ->
  counts_are f g -> exists i ts' g' nn nl, ggml_visit_parents_graph fuel x c (ts, g) = Some (i, (ts', g')) /\ visit_post op c x f ts g i ts' g' nn nl.
Proof.
  intros Hf Hx V Hex Hc Hs Hcnt. destruct (visit_again g op (vs_inv _ _ V) fuel x c ts ex Hf Hx Hex Hc Hs) as (i & ts' & Hrun & Hi & Hsl & Hs' & Hfl).
  exists i, ts', g, [], []. split; [done|]. split; try done.
  - by rewrite <- (vs_hs _ _ V).
  - apply grows_refl.
  - intros y Hy. set_solver.
  - by left.
  - apply (counts_ext f); [|done]. intros y. cbn. lia.
Qed.

(** One source more. *)
Lemma visit_src fuel op ex c x f pos ts g k ts1 g1 nn nl s :
  (forall x c ts ex op g f, rank x < fuel -> x ∈ U -> vstate op g -> above op x -> above ex x -> closed_from ts ex -> same_tensors ts0 ts -> counts_are f g ->
    exists i ts' g' nn nl, ggml_visit_parents_graph fuel x c (ts, g) = Some (i, (ts', g')) /\ visit_post op c x f ts g i ts' g' nn nl) ->
  rank x <= fuel -> x ∈ U -> vstate op g -> counts_are f g -> above op x -> above ex x -> closed_from ts ex -> k < GGML_MAX_SRC -> pos < hs ->
  src_post op c x f pos ts g k ts1 g1 nn nl -> slot_src ts0 x (src_index o k) = Some s ->
  exists ts2 g2 p cnt counts nn' nl', ggml_visit_parents_graph fuel s c (ts1, g1) = Some (p, (ts2, g2)) /\ use_counts g2 !! p = Some cnt /\
    i32_chk (cnt + 1) = Some (cnt + 1)%Z /\ set_at p (cnt + 1)%Z (use_counts g2) = Some counts /\
    src_post op c x f pos ts g (k + 1) ts2 (with_visited (visited g2) counts g2) nn' nl'.
Proof.
  intros IH Hf HxU V Hcnt Hop Hex Hcl Hk Hpos P Es.
  assert (s ∈ srcs ts0 x) as Hs.
  { apply (psrc_in o x (k + 1)); [lia|by apply U_in|]. rewrite psrc_S, Es. apply elem_of_app. right. by left. }
  pose proof (tw_rank _ _ W x s Hs) as Hrk. pose proof P as [V1 Hs1 Hsl1 Hg1 Hr1 Hin1 Hfl1 Hc1].
  destruct (IH s c ts1 ({[x]} ∪ ex) ({[x]} ∪ op) g1 _ ltac:(lia) (U_closed x s HxU Hs) V1 (above_src op x s Hop Hs) (above_src ex x s Hex Hs)
    (flags_after_closed _ _ _ _ _ _ Hcl Hfl1) Hs1 Hc1) as (p & ts2 & g2 & n2 & l2 & Hrun & [V2 Hs2 Hp2 Hsl2 Hg2 Hr2 Hin2 _ Hc2 Hfl2]).
  pose proof (grows_trans _ _ _ _ g g1 g2 ltac:(by rewrite (vs_hs _ _ V1), (vs_hs _ _ V)) Hg1 Hg2) as Hg02.
  assert (forall y, y ∈ (nn ++ n2) ++ nl ++ l2 -> exists s, s ∈ srcs ts0 x /\ reach ts0 s y) as Hr02.
  { intros y Hy. assert (y ∈ nn ++ nl \/ y ∈ n2 ++ l2) as [Hy1|Hy2]; [set_solver|by apply Hr1|]. exists s. split; [done|by apply Hr2]. }
  assert (forall y, (f y + uses ts0 (nn ++ nl) y + length (filter (eq y) (psrc ts0 o x k))) + uses ts0 (n2 ++ l2) y =
    f y + uses ts0 ((nn ++ n2) ++ nl ++ l2) y + length (filter (eq y) (psrc ts0 o x k))) as Hsum by (intros y; rewrite !uses_app; lia).
  pose proof (counts_ext _ _ _ Hsum Hc2) as Hc02.
  assert (slot (visited g2) pos = Some x) as Hslx by (destruct Hg2 as (_ & _ & Hm); apply Hm; [by rewrite (vs_hs _ _ V1)|done]).
  destruct (incr_ok _ g2 _ p s V2 Hc02 Hp2 Hsl2) as (cnt & counts & Hl & Hi & Hset & V3 & Hc3).
  { pose proof (inv_size _ _ _ (vs_inv _ _ V2)) as Hsz2. rewrite size_union, size_singleton in Hsz2 by (apply disjoint_singleton_l; by apply above_notin).
    pose proof (grows_members _ _ _ _ Hg02) as Hm%Permutation_length. rewrite length_app in Hm. rewrite Hsz2, Hm.
    destruct Hcnt as (_ & _ & Hb). pose proof (Hb s) as Hbs. rewrite (inv_size _ _ _ (vs_inv _ _ V)) in Hbs.
    pose proof (uses_bound ts0 rank ((nn ++ n2) ++ nl ++ l2) s W). pose proof (length_psrc ts0 o x k). pose proof (length_filter (eq s) (psrc ts0 o x k)).
    unfold GGML_MAX_SRC in Hk. lia. }
  exists ts2, g2, p, cnt, counts, (nn ++ n2), (nl ++ l2). split_and!; [done..|]. split; [done|done|done|done|done| | |].
  - intros y. rewrite psrc_S, Es. intros [Hy|Hy]%elem_of_app; [|by apply list_elem_of_singleton in Hy as ->].
    change (members (with_visited _ _ g2)) with (members g2). rewrite (grows_members _ _ _ _ Hg2). apply elem_of_app. left. by apply Hin1.
  - rewrite psrc_S, Es. by apply (flags_after_step _ _ _ _ ts1).
  - apply (counts_ext _ _ _) with (2 := Hc3). intros y. rewrite psrc_S, Es, filter_app, length_app. change (option_list (Some s)) with [s]. lia.
Qed.

(** The end of a first visit: [x] itself becomes a member. *)
Lemma visit_end op c x f pos ts g ts1 g1 nn nl : x ∈ U -> x ∉ op -> pos < hs -> vstate op g -> src_post op c x f pos ts g GGML_MAX_SRC ts1 g1 nn nl ->
  exists ts2 g2 nn' nl', add_visited x (ts1, g1) = Some (ts2, g2) /\ visit_post op c x f ts g pos ts2 g2 nn' nl'.
Proof.
  intros HxU Hx Hpos V [V1 Hs1 Hsl1 Hg1 Hr1 Hin1 Hfl1 Hc1]. pose proof (psrc_all ts0 rank o x W (U_in x HxU)) as Hperm.
  destruct (add_ok op ts1 g1 x V1 Hx Hs1) as (ts2 & g2 & Hrun & V2 & Hs2 & Hf2 & Hv & Hu & Hg2); [intros s Hs; apply Hin1; by rewrite Hperm|].
  assert (forall y, f y + uses ts0 (nn ++ nl) y + length (filter (eq y) (psrc ts0 o x GGML_MAX_SRC)) = f y + uses ts0 (nn ++ nl) y + uses ts0 [x] y) as Hsum.
  { intros y. rewrite Hperm. unfold uses. cbn [mbind list_bind]. by rewrite app_nil_r. }
  assert (forall y, flagged ts2 y <-> flagged ts y \/ c = true /\ reach ts0 x y /\ computed ts0 y) as Hfl.
  { intros y. rewrite Hf2. by apply (flags_after_all _ _ _ _ _ Hfl1). }
  pose proof (same_counts _ _ _ Hv Hu (counts_ext _ _ _ Hsum Hc1)) as Hc2.
  assert (slot (visited g2) pos = Some x) as Hsl2 by (by rewrite Hv).
  assert (hs_size (visited g1) = hs_size (visited g)) as Hhs by (by rewrite (vs_hs _ _ V1), (vs_hs _ _ V)).
  assert (forall y, y ∈ nn ++ nl -> reach ts0 x y) as Hr by (intros y Hy; apply reach_inv; right; by apply Hr1).
  exists ts2, g2. destruct (is_leaf ts0 x) eqn:Hl.
  - exists nn, (nl ++ [x]). split; [done|]. pose proof (grows_trans _ _ _ _ g g1 g2 Hhs Hg1 Hg2) as Hg. rewrite app_nil_r in Hg. split; try done.
    + intros y. rewrite app_assoc. intros [Hy|Hy]%elem_of_app; [by apply Hr|]. by apply list_elem_of_singleton in Hy as ->.
    + rewrite (grows_members _ _ _ _ Hg2). apply elem_of_app. right. by apply list_elem_of_singleton.
    + right. left. split; [done|]. destruct (nn ++ nl) as [|y l] eqn:E; [by apply app_nil in E as [-> _]|].
      destruct (Hr1 y ltac:(by left)) as (s & Hs & _). rewrite (leaf_srcs ts0 rank x W Hl) in Hs. set_solver.
    + apply (counts_ext _ _ _) with (2 := Hc2). intros y. rewrite !uses_app. lia.
  - exists (nn ++ [x]), nl. split; [done|]. pose proof (grows_trans _ _ _ _ g g1 g2 Hhs Hg1 Hg2) as Hg. rewrite app_nil_r in Hg. split; try done.
    + intros y Hy. assert (y ∈ nn ++ nl \/ y = x) as [?| ->] by set_solver; [by apply Hr|done].
    + rewrite (grows_members _ _ _ _ Hg2). apply elem_of_app. right. by left.
    + right. right. by exists nn.
    + apply (counts_ext _ _ _) with (2 := Hc2). intros y. rewrite !uses_app. lia.
Qed.

Lemma visit_ok fuel : forall x c ts ex op g f, rank x < fuel -> x ∈ U -> vstate op g -> above op x -> above ex x -> closed_from ts ex ->
  same_tensors ts0 ts -> counts_are f g ->
  exists i ts' g' nn nl, ggml_visit_parents_graph fuel x c (ts, g) = Some (i, (ts', g')) /\ visit_post op c x f ts g i ts' g' nn nl.
Proof.
  induction fuel as [|fuel IH]; intros x c ts ex op g f Hf HxU V Hop Hex Hcl Hs Hcnt; [lia|]. pose proof (above_notin op x Hop) as Hxop.
  destruct (decide (x ∈ hs_set (visited g))) as [Hx|Hx].
  { apply (gi_set _ _ _ (vs_inv _ _ V)) in Hx as [Hx|Hx]; [|done]. by apply (visit_member _ x c ts ex). }
  destruct (U_in x HxU) as [t0 Ht0]. destruct (same_lookup _ _ _ _ Hs Ht0) as (t & Ht & _).
  destruct (find_fresh op g x V HxU Hx) as (d & Hd & Htk & Hfree & Hfind & Hpos & Hget). set (pos := probe_at (visited g) x d) in *.
  destruct (mark_ok op g x d V HxU Hx Hd Htk Hfree) as (g0 & Hmark & V0 & Hg0 & Hsl0 & Hc0). fold pos in Hmark, Hsl0.
  cbn [ggml_visit_parents_graph]. rewrite Ht. cbn [mbind option_bind]. destruct (set_compute ts x t c Ht) as (ts1 & -> & Hs1 & Hfl1).
  rewrite Hfind. cbn [mbind option_bind]. rewrite Hget. cbn [mbind option_bind]. rewrite Hmark. cbn [mbind option_bind].
  assert (src_post op c x f pos ts g 0 ts1 g0 [] []) as P0.
  { split; try done; [by apply (same_trans _ ts)|set_solver|intros s Hin; by apply not_elem_of_nil in Hin| |].
    - intros y. rewrite Hfl1, (same_computed ts0 ts) by done. split; [intros [?|(? & ? & ?)]; [by left|right; split_and!; [done|by left|done]]|].
      intros [?|(? & [->|(? & ?%not_elem_of_nil & _)] & ?)]; [by left|by right|done].
    - apply (counts_ext f); [intros y; cbn; lia|by apply Hc0]. }
  edestruct (foldM_seq (fun i st => src ← src_at (fst st) x (src_index (order (snd st)) i); match src with None => Some st | Some src =>
      '(p, (ts, g)) ← ggml_visit_parents_graph fuel src c st; cnt ← use_counts g !! p; cnt ← i32_chk (cnt + 1);
      counts ← set_at p cnt (use_counts g); Some (ts, with_visited (visited g) counts g) end)
    (fun k st => exists nn nl, src_post op c x f pos ts g k (fst st) (snd st) nn nl) 0 GGML_MAX_SRC (ts1, g0)) as ([ts2 g2] & Hrun & nn & nl & P).
  - by exists [], [].
  - intros k [tsk gk] [_ Hk] (nn & nl & P). cbn [fst snd] in *. rewrite (vs_order _ _ (sp_state _ _ _ _ _ _ _ _ _ _ _ _ P)).
    rewrite src_at_ok; [|apply P|by eexists|destruct o; unfold src_index, GGML_MAX_SRC in *; lia]. cbn [mbind option_bind].
    destruct (slot_src ts0 x (src_index o k)) as [s|] eqn:Es.
    + destruct (visit_src fuel op ex c x f pos ts g k tsk gk nn nl s) as (ts3 & g3 & p & cnt & counts & nn' & nl' & Hrun & Hl & Hi & Hset & P'); try done; [lia|].
      rewrite Hrun. cbn [mbind option_bind]. rewrite Hl. cbn [mbind option_bind]. rewrite Hi. cbn [mbind option_bind]. rewrite Hset.
      eexists. split; [reflexivity|]. by exists nn', nl'.
    + eexists. split; [reflexivity|]. exists nn, nl. destruct P as [? ? ? ? ? ? ? ?]. cbn [fst snd].
      split; try done; rewrite psrc_S, Es; change (option_list None) with (@nil Z); by rewrite app_nil_r.
  - rewrite Hrun. cbn [mbind option_bind fst snd] in *.
    destruct (visit_end op c x f pos ts g ts2 g2 nn nl HxU Hxop Hpos V P) as (ts3 & g3 & nn' & nl' & Hadd & Q). rewrite Hadd.
    cbn [mbind option_bind]. by exists pos, ts3, g3, nn', nl'.
Qed.

End Fresh.

End Visit.


(** * Building *)

Lemma graph_inv_same ts ts' op g : same_tensors ts ts' -> graph_inv ts op g -> graph_inv ts' op g.
Proof.
  intros S I. split; try apply I.
  - intros x Hx. destruct (gi_known _ _ _ I x Hx) as [t Ht]. destruct (same_lookup _ _ _ _ S Ht) as (t' & -> & _). by eexists.
  - intros x Hx. rewrite (same_leaf ts ts') by done. by apply (gi_leaf _ _ _ I).
  - intros x Hx. rewrite (same_leaf ts ts') by done. by apply (gi_node _ _ _ I).
  - intros i x s Hi. rewrite (same_srcs ts ts') by done. by apply (gi_topo _ _ _ I).
Qed.

Lemma same_uses ts ts' L y : same_tensors ts ts' -> uses ts' L y = uses ts L y.
Proof. intros S. unfold uses. do 2 f_equal. induction L as [|x L IH]; cbn [mbind list_bind]; [done|]. by rewrite (same_srcs ts ts'), IH. Qed.

(** The tensors in [U] have room in the graph. *)
Record fits (ts : tensors) (U : gset Z) (g : ggml_cgraph) : Prop := {
  ft_closed  : forall x s, x ∈ U -> s ∈ srcs ts x -> s ∈ U;
  ft_in      : forall x, x ∈ U -> is_Some (ts !! x);
  ft_nodes   : base.size (filter (fun x => is_leaf ts x = false) U) <= g_size g;
  ft_leafs   : base.size (filter (fun x => is_leaf ts x = true) U) <= g_size g;
  ft_hash    : base.size U <= hs_size (visited g);
  ft_max     : (10 * Z.of_nat (base.size U) <= INT32_MAX)%Z;
  ft_members : forall x, x ∈ members g -> x ∈ U;
}.

Lemma fits_same ts ts' U g : same_tensors ts ts' -> fits ts U g -> fits ts' U g.
Proof.
  intros S F. assert (forall b, filter (fun x => is_leaf ts' x = b) U = filter (fun x => is_leaf ts x = b) U) as Hfl.
  { intros b. apply set_eq. intros x. rewrite !elem_of_filter. by rewrite (same_leaf ts ts'). }
  split; try apply F; try (rewrite Hfl; apply F).
  - intros x s Hx. rewrite (same_srcs ts ts') by done. by apply (ft_closed _ _ _ F).
  - intros x Hx. destruct (ft_in _ _ _ F x Hx) as [t Ht]. destruct (same_lookup _ _ _ _ S Ht) as (t' & -> & _). by eexists.
Qed.

(** What the build of [x] makes of the graph. *)
Record built (ts : tensors) (U : gset Z) (c : bool) (x : Z) (g : ggml_cgraph) (ts' : tensors) (g' : ggml_cgraph) : Prop := {
  bu_wf      : graph_wf ts' g';
  bu_same    : same_tensors ts ts';
  bu_fits    : fits ts' U g';
  bu_kept    : exists nn nl, graph_nodes g' = graph_nodes g ++ nn /\ graph_leafs g' = graph_leafs g ++ nl;
  bu_members : forall y, y ∈ members g' <-> y ∈ members g \/ reach ts x y;
  bu_flags   : forall y, flagged ts' y <-> flagged ts y \/ (c = true /\ reach ts x y /\ computed ts y);
}.

Lemma build_ok ts rank U g x c fuel : tensors_wf ts rank -> graph_wf ts g -> fits ts U g -> flags_closed ts ∅ -> x ∈ U -> rank x < fuel ->
  exists ts' g', ggml_build_forward_impl fuel x true c (ts, g) = Some (ts', g') /\ built ts U c x g ts' g'.
Proof.
  intros W [I Hcnt] F Hcl Hx Hf. unfold ggml_build_forward_impl. cbn [negb mbind option_bind].
  destruct (visit_ok ts rank W U (g_size g) (hs_size (visited g)) (order g) (ft_closed _ _ _ F) (ft_in _ _ _ F) (ft_nodes _ _ _ F) (ft_leafs _ _ _ F)
    (ft_hash _ _ _ F) (ft_max _ _ _ F) fuel x c ts ∅ ∅ g (uses ts (members g)) Hf Hx) as (i & ts' & g' & nn & nl & Hrun & [V Hs Hi Hsl Hg Hr Hin Hlast Hc Hfl]); try done.
  { split; try done. intros y. rewrite (gi_set _ _ _ I). intros [Hy|Hy]; [by apply (ft_members _ _ _ F)|set_solver]. }
  rewrite Hrun. cbn [mbind option_bind]. pose proof (vs_inv _ _ _ _ _ _ _ V) as I'. exists ts', g'. split.
  - case_bool_decide as Hlt; [|done]. pose proof (length_graph_nodes _ _ _ I) as Hl. pose proof (length_graph_nodes _ _ _ I') as Hl'.
    destruct Hg as (Hgn & _ & _). rewrite Hgn, length_app in Hl'. assert (exists nn', nn = nn' ++ [x]) as (nn' & ->).
    { destruct Hlast as [[_ ->]|[[_ ->]|?]]; [cbn in Hl'; lia|cbn in Hl'; lia|done]. }
    assert (nodes g' !! (n_nodes g' - 1) = Some x) as ->; [|cbn [mbind option_bind]; by rewrite ggml_assert_true by by apply bool_decide_true].
    rewrite length_app in Hl'. cbn [length] in Hl'. rewrite <- (lookup_take_lt _ (n_nodes g')) by lia. fold (graph_nodes g'). rewrite Hgn, app_assoc.
    rewrite lookup_app_r by (rewrite length_app; lia). rewrite length_app. by replace (_ - _ - _) with 0 by lia.
  - pose proof (grows_members _ _ _ _ Hg) as Hm. assert (forall y, y ∈ members g' <-> y ∈ members g \/ reach ts x y) as Hmem.
    { intros y. split; [rewrite Hm, elem_of_app; intros [?|Hy]; [by left|right; by apply Hr]|].
      intros [Hy|Hy]; [rewrite Hm; apply elem_of_app; by left|]. by apply (members_reach ts rank ∅ g' x y W I'). }
    split; [|done| | |done|done].
    + split; [by apply (graph_inv_same ts)|]. apply (counts_ext (fun y => uses ts (members g) y + uses ts (nn ++ nl) y)); [|done].
      intros y. rewrite (same_uses ts ts') by done. rewrite (uses_perm ts _ _ y Hm). by rewrite !uses_app.
    + apply (fits_same ts); [done|]. pose proof (vs_n _ _ _ _ _ _ _ V) as Hn. pose proof (vs_hs _ _ _ _ _ _ _ V) as Hh.
      split; try apply F; [rewrite Hn; apply F|rewrite Hn; apply F|rewrite Hh; apply F|]. intros y Hy. apply (vs_U _ _ _ _ _ _ _ V), (gi_set _ _ _ I'). by left.
    + exists nn, nl. by destruct Hg as (? & ? & _).
Qed.

Lemma flags_closed_built ts U c x g ts' g' : flags_closed ts ∅ -> built ts U c x g ts' g' -> flags_closed ts' ∅.
Proof.
  intros Hc B y z Hy _ Hr Hz. pose proof (bu_same _ _ _ _ _ _ _ B) as S. rewrite (same_reach ts ts') in Hr by done. rewrite (same_computed ts ts') in Hz by done.
  apply (bu_flags _ _ _ _ _ _ _ B). apply (bu_flags _ _ _ _ _ _ _ B) in Hy as [Hy|(-> & Hy & _)]; [left; by apply (Hc y)|].
  right. split_and!; [done|by trans y|done].
Qed.

Lemma tensors_wf_same ts ts' rank : same_tensors ts ts' -> tensors_wf ts rank -> tensors_wf ts' rank.
Proof.
  intros S W. split.
  - intros x t' Hx. destruct (same_lookup_inv _ _ _ _ S Hx) as (t & Ht & Hc). assert (t_src t' = t_src t) as -> by (by injection Hc). by apply (tw_len _ _ W x).
  - intros x s. rewrite (same_srcs ts ts') by done. intros [t Ht]%(tw_in _ _ W). destruct (same_lookup _ _ _ _ S Ht) as (t' & -> & _). by eexists.
  - intros x s. rewrite (same_srcs ts ts') by done. apply W.
  - intros x t' Hx Hop. destruct (same_lookup_inv _ _ _ _ S Hx) as (t & Ht & Hc). rewrite (same_srcs ts ts') by done. apply (tw_none _ _ W x t Ht).
    assert (t_op t = t_op t') as -> by (by injection Hc). done.
Qed.


(** ** Building in a new graph *)

Lemma new_graph_ok size with_grads mem ts : (forall k, length (mem k) = k) -> exists g, ggml_new_graph_custom size with_grads mem = Some g /\
  graph_wf ts g /\ members g = [] /\ g_size g = size /\ 2 * size <= hs_size (visited g).
Proof.
  intros Hmem. unfold ggml_new_graph_custom. destruct (hash_size_ok (Z.of_nat size * 2)) as (hs & -> & Hle & Hpos & _). cbn [mbind option_bind].
  destruct (reset_memory (mkHash (Z.to_nat hs) (mem (ggml_bitset_size (Z.to_nat hs))) (mem (Z.to_nat hs)))) as (h & -> & Hw & Hsz & Hnone);
    cbn [hs_size hs_keys hs_used] in *; [lia|apply Hmem|apply Hmem|]. cbn [mbind option_bind].
  assert (forall x, x ∉ hs_set h) as Hempty by (intros x; rewrite elem_of_hs_set; intros (i & Hi & Hs); rewrite Hsz in Hi; by rewrite Hnone in Hs).
  eexists. split; [reflexivity|]. split; [|split; [done|split; [done|cbn [visited]; lia]]]. split.
  - split; try done; cbn [visited use_counts nodes leafs g_size n_nodes n_leafs graph_nodes graph_leafs].
    + rewrite Hmem, Hsz. done.
    + apply Hmem.
    + apply Hmem.
    + lia.
    + lia.
    + intros x. split; [by intros ?%Hempty|]. intros [Hx|Hx]; [by apply not_elem_of_nil in Hx|set_solver].
    + intros x Hx. by apply not_elem_of_nil in Hx.
    + apply NoDup_nil_2.
    + intros x Hx. by apply not_elem_of_nil in Hx.
    + intros x Hx. by apply not_elem_of_nil in Hx.
  - split_and!; cbn [visited use_counts]; [|done|intros x; apply Nat.le_0_l]. intros i x Hi Hs. rewrite Hsz in Hi. by rewrite Hnone in Hs.
Qed.

(** The requests [xs], one after the other. *)
Lemma build_all_ok ts rank U xs fuel g : tensors_wf ts rank -> graph_wf ts g -> fits ts U g -> flags_closed ts ∅ ->
  (forall x, x ∈ xs -> x ∈ U /\ rank x < fuel) ->
  exists ts' g', foldM (ggml_build_forward_expand fuel) xs (ts, g) = Some (ts', g') /\ graph_wf ts' g' /\ same_tensors ts ts' /\
    fits ts' U g' /\ flags_closed ts' ∅ /\ (forall y, y ∈ members g' <-> y ∈ members g \/ exists x, x ∈ xs /\ reach ts x y) /\
    forall y, flagged ts' y <-> flagged ts y \/ exists x, x ∈ xs /\ reach ts x y /\ computed ts y.
Proof.
  intros W G F Hc. induction xs as [|x xs IH] using rev_ind; intros Hxs.
  { exists ts, g. split_and!; try done; intros y; (split; [by left|intros [?|(x & Hx & _)]; [done|by apply not_elem_of_nil in Hx]]). }
  destruct IH as (ts1 & g1 & Hrun & G1 & S1 & F1 & Hc1 & Hm1 & Hf1); [intros z Hz; apply Hxs; set_solver|]. destruct (Hxs x) as [HxU Hxf]; [set_solver|].
  destruct (build_ok ts1 rank U g1 x true fuel (tensors_wf_same _ _ _ S1 W) G1 F1 Hc1 HxU Hxf) as (ts2 & g2 & Hb & B).
  exists ts2, g2. split; [rewrite foldM_app, Hrun; cbn [mbind option_bind foldM]; unfold ggml_build_forward_expand; by rewrite Hb|].
  split; [apply B|]. split; [by apply (same_trans _ ts1); [|apply B]|]. split; [apply B|]. split; [by apply (flags_closed_built ts1 U true x g1 ts2 g2)|].
  assert (forall P : Z -> Prop, (exists z, z ∈ xs ++ [x] /\ P z) <-> (exists z, z ∈ xs /\ P z) \/ P x) as Hex by (intros P; set_solver).
  split; intros y; rewrite Hex.
  - rewrite (bu_members _ _ _ _ _ _ _ B), Hm1, (same_reach ts ts1) by done. tauto.
  - rewrite (bu_flags _ _ _ _ _ _ _ B), Hf1, (same_reach ts ts1), (same_computed ts ts1) by done. tauto.
Qed.

(** C27: building the graph of the results [xs] in a new graph with room for the
    tensors they depend on succeeds: its members are exactly the tensors that
    some result depends on, each once, leafs and nodes apart; every source of a
    node is a leaf or an earlier node, so that the nodes can be computed in
    order; the use count of each is the number of times it is a source of a
    member ([graph_wf]); exactly the results of operations among them are marked
    to be computed in addition to those that were, and nothing else of a tensor
    changes but its name. *)
Theorem build_forward_correct (size : nat) (with_grads : bool) (mem : nat -> list Z) (ts : tensors) (rank : Z -> nat) (U : gset Z) (xs : list Z) (fuel : nat) :
  (forall k, length (mem k) = k) -> tensors_wf ts rank -> flags_closed ts ∅ ->
  (forall x s, x ∈ U -> s ∈ srcs ts x -> s ∈ U) -> (forall x, x ∈ U -> is_Some (ts !! x)) ->
  base.size (filter (fun x => is_leaf ts x = false) U) <= size -> base.size (filter (fun x => is_leaf ts x = true) U) <= size ->
  (20 * Z.of_nat size <= INT32_MAX)%Z -> (forall x, x ∈ xs -> x ∈ U /\ rank x < fuel) ->
  exists g0 ts' g', ggml_new_graph_custom size with_grads mem = Some g0 /\ foldM (ggml_build_forward_expand fuel) xs (ts, g0) = Some (ts', g') /\
    graph_wf ts' g' /\ same_tensors ts ts' /\
    (forall y, y ∈ members g' <-> exists x, x ∈ xs /\ reach ts x y) /\
    forall y, flagged ts' y <-> flagged ts y \/ exists x, x ∈ xs /\ reach ts x y /\ computed ts y.
Proof.
  intros Hmem W Hc Hcl Hin Hn Hl Hmax Hxs. destruct (new_graph_ok size with_grads mem ts Hmem) as (g0 & -> & G & Hm0 & Hsz & Hhs).
  assert (base.size U <= 2 * size) as HU.
  { set (A := filter (fun x => is_leaf ts x = false) U) in *. set (B := filter (fun x => is_leaf ts x = true) U) in *.
    assert (U ⊆ A ∪ (B ∖ A)) as Hsub%subseteq_size.
    { intros x Hx. subst A B. rewrite elem_of_union, elem_of_difference, !elem_of_filter. destruct (is_leaf ts x); naive_solver. }
    rewrite size_union in Hsub by set_solver. pose proof (subseteq_size (B ∖ A) B ltac:(set_solver)). lia. }
  assert (fits ts U g0) as F.
  { split; rewrite ?Hsz; try done; [lia|lia|]. intros x. rewrite Hm0. intros Hx. by apply not_elem_of_nil in Hx. }
  destruct (build_all_ok ts rank U xs fuel g0 W G F Hc Hxs) as (ts' & g' & Hrun & G' & S & _ & _ & Hm & Hf).
  exists g0, ts', g'. split_and!; [done|done|done|done| |done]. intros y. rewrite Hm, Hm0. set_solver.
Qed.


(** ** An example

    Two constants, a product, a sum and a result that reads the product again. *)

Definition demo_tensor (op : Z) (l : list Z) : ggml_tensor :=
  mkTensor op 0 ((Some <$> l) ++ replicate (10 - length l) None) None [1; 1; 1; 1]%Z "".

Definition demo_tensors : tensors := list_to_map
  [(16, demo_tensor 0 []); (32, demo_tensor 0 []); (48, demo_tensor 2 [16; 32]); (64, demo_tensor 1 [48; 16]); (80, demo_tensor 1 [64; 48])]%Z.

Definition demo_rank (x : Z) : nat := Z.to_nat (x / 16).

(** The conditions of [tensors_wf] as a test. *)
Definition check_tensor (ts : tensors) (rank : Z -> nat) (x : Z) (t : ggml_tensor) : bool :=
  bool_decide (length (t_src t) = GGML_MAX_SRC) &&
  forallb (fun s => match ts !! s with Some _ => bool_decide (rank s < rank x) | None => false end) (omap id (t_src t)) &&
  (negb (bool_decide (t_op t = GGML_OP_NONE)) || bool_decide (omap id (t_src t) = [])).

Lemma check_tensors ts rank : forallb (fun '(x, t) => check_tensor ts rank x t) (map_to_list ts) = true -> tensors_wf ts rank.
Proof.
  intros H. assert (forall x t, ts !! x = Some t -> check_tensor ts rank x t = true) as Hall.
  { intros x t Hx. apply elem_of_map_to_list in Hx. rewrite forallb_forall in H. by apply (H (x, t)), list_elem_of_In. }
  assert (forall x s, s ∈ srcs ts x -> is_Some (ts !! s) /\ rank s < rank x) as Hsrc.
  { intros x s Hs. unfold srcs in Hs. destruct (ts !! x) as [t|] eqn:Hx; [|set_solver].
    apply Hall, andb_true_iff in Hx as [[_ Hx]%andb_true_iff _]. rewrite forallb_forall in Hx. specialize (Hx s ltac:(by apply list_elem_of_In)).
    destruct (ts !! s); [|done]. split; [done|]. by apply bool_decide_eq_true in Hx. }
  split.
  - intros x t Hx%Hall. apply andb_true_iff in Hx as [[Hx _]%andb_true_iff _]. by apply bool_decide_eq_true in Hx.
  - intros x s Hs. by apply (Hsrc x s).
  - intros x s Hs. by apply (Hsrc x s).
  - intros x t Hx Hop. unfold srcs. rewrite Hx. apply Hall in Hx. apply andb_true_iff in Hx as [_ Hx].
    rewrite bool_decide_true in Hx by done. by apply bool_decide_eq_true in Hx.
Qed.

Lemma check_closed ts (U : gset Z) : forallb (fun x => match ts !! x with Some t => forallb (fun s => bool_decide (s ∈ U)) (omap id (t_src t)) | None => false end)
  (elements U) = true -> (forall x s, x ∈ U -> s ∈ srcs ts x -> s ∈ U) /\ forall x, x ∈ U -> is_Some (ts !! x).
Proof.
  intros H. rewrite forallb_forall in H. setoid_rewrite <- list_elem_of_In in H. setoid_rewrite elem_of_elements in H. split.
  - intros x s Hx Hs. specialize (H x Hx). unfold srcs in Hs. destruct (ts !! x) as [t|]; [|done]. rewrite forallb_forall in H.
    specialize (H s ltac:(by apply list_elem_of_In)). by apply bool_decide_eq_true in H.
  - intros x Hx. specialize (H x Hx). by destruct (ts !! x).
Qed.

Lemma check_flags ts : forallb (fun '(_, t) => negb (has_flag GGML_TENSOR_FLAG_COMPUTE t)) (map_to_list ts) = true -> flags_closed ts ∅.
Proof.
  intros H x y (t & Hx & Ht) _ _ _. apply elem_of_map_to_list in Hx. rewrite forallb_forall in H. specialize (H (x, t) ltac:(by apply list_elem_of_In)).
  cbn in H. by rewrite Ht in H.
Qed.

Lemma build_forward_correct_witness :
  exists g0 ts' g', ggml_new_graph_custom 4 false (fun k => replicate k 0%Z) = Some g0 /\
    foldM (ggml_build_forward_expand 6) [80%Z] (demo_tensors, g0) = Some (ts', g') /\ graph_wf ts' g' /\ flagged ts' 48%Z.
Proof.
  destruct (check_closed demo_tensors (dom demo_tensors)) as [Hc Hi]; [vm_compute; reflexivity|].
  destruct (build_forward_correct 4 false (fun k => replicate k 0%Z) demo_tensors demo_rank (dom demo_tensors) [80%Z] 6) as (g0 & ts' & g' & H1 & H2 & H3 & _ & _ & H4).
  - intros k. apply length_replicate.
  - apply check_tensors. vm_compute. reflexivity.
  - apply check_flags. vm_compute. reflexivity.
  - exact Hc.
  - exact Hi.
  - vm_compute. lia.
  - vm_compute. lia.
  - vm_compute. discriminate.
  - intros x ->%list_elem_of_singleton. split; [apply (bool_decide_unpack _); vm_compute; exact I|vm_compute; lia].
  - exists g0, ts', g'. split; [exact H1|]. split; [exact H2|]. split; [exact H3|]. apply H4. right. exists 80%Z. split; [by left|].
    split; [apply rtc_once, list_elem_of_In; vm_compute; tauto|]. exists (demo_tensor 2 [16; 32]%Z). split; [vm_compute; reflexivity|discriminate].
Defined.

End GgmlGraphOk.
