(* ===== verification/GgmlFuse.v ===== *)
(** Fusing nodes of a compute graph: when [ggml_can_fuse] or
    [ggml_can_fuse_subgraph] agrees, no node outside the fused ones reads an
    intermediate result, so that it need not be written to memory. *)

From stdpp Require Import strings pretty relations.
From S2P Require Import Prelude.
From S2P Require Import GgmlHash.
From S2P Require Import GgmlGraph.
From S2P Require Import GgmlGraphOk.
Import GgmlHash.GgmlHash GgmlGraph.GgmlGraph GgmlGraphOk.GgmlGraphOk.

Module GgmlFuse.

Section Fuse.
Context (ts : tensors) (g : ggml_cgraph) (Hg : graph_wf ts g).

Lemma use_count_ok x : x ∈ members g -> use_count g x = Some (Z.of_nat (uses ts (members g) x)).
Proof.
  destruct Hg as [I (Hc & _)]. intros Hx. destruct (member_slot ts g ∅ I x Hx) as (i & Hf & Hi & Hs & Hb).
  unfold use_count. rewrite Hf. cbn [mbind option_bind]. rewrite Hb. cbn [mbind option_bind negb]. by apply Hc.
Qed.

Lemma node_member i x : i < n_nodes g -> nodes g !! i = Some x -> graph_nodes g !! i = Some x /\ x ∈ members g.
Proof.
  intros Hi Hx. assert (graph_nodes g !! i = Some x) as Hn by (unfold graph_nodes; by rewrite lookup_take_lt).
  split; [done|]. apply elem_of_app. left. by apply list_elem_of_lookup_2 in Hn.
Qed.

Lemma node_at i : i < n_nodes g -> exists x, nodes g !! i = Some x /\ x ∈ members g /\ is_Some (ts !! x).
Proof.
  intros Hi. destruct Hg as [I _]. destruct (lookup_lt_is_Some_2 (nodes g) i) as [x Hx].
  { pose proof (gi_nn _ _ _ I). pose proof (gi_nodes _ _ _ I). lia. }
  exists x. destruct (node_member i x Hi Hx) as [_ Hm]. split_and!; [done|done|]. by apply (gi_known _ _ _ I).
Qed.

(** The members outside [L] do not read [x] when all its uses are in [L]. *)
Lemma uses_confined L x : NoDup L -> (forall y, y ∈ L -> y ∈ members g) -> uses ts (members g) x <= uses ts L x ->
  forall z, z ∈ members g -> x ∈ srcs ts z -> z ∈ L.
Proof.
  intros Hnd Hin Hle z Hz Hx. destruct (decide (z ∈ L)) as [|Hno]; [done|]. exfalso.
  assert (z :: L ⊆+ members g) as [rest Hp]%submseteq_Permutation.
  { apply NoDup_submseteq; [by apply NoDup_cons|]. intros y [->|Hy]%elem_of_cons; [done|by apply Hin]. }
  rewrite (uses_perm ts _ _ x Hp) in Hle. change (z :: L) with ([z] ++ L) in Hle. rewrite !uses_app in Hle.
  assert (uses ts [z] x = 0) as H0 by lia. rewrite uses_0 in H0. by apply (H0 z (list_elem_of_here _ _)).
Qed.

Lemma all_from_true f k i : all_from f k i = Some true <-> forall j, i <= j < i + k -> f j = Some true.
Proof.
  revert i. induction k as [|k IH]; intros i; cbn [all_from]; [split; [lia|done]|]. split.
  - intros H j Hj. destruct (f i) as [[]|] eqn:E; try done. cbn [mbind option_bind] in H. destruct (decide (j = i)) as [->|]; [done|].
    apply (proj1 (IH (S i)) H). lia.
  - intros H. rewrite (H i) by lia. cbn [mbind option_bind]. apply IH. intros j Hj. apply H. lia.
Qed.

Lemma all_from_total f k : forall i, (forall j, i <= j < i + k -> is_Some (f j)) -> is_Some (all_from f k i).
Proof.
  induction k as [|k IH]; intros i H; cbn [all_from]; [done|]. destruct (H i) as [b ->]; [lia|]. cbn [mbind option_bind].
  destruct b; [|done]. apply IH. intros j Hj. apply H. lia.
Qed.

(** ** A chain of nodes *)

Lemma has_n_uses_inv idx n : ggml_node_has_n_uses ts g idx n = Some true -> exists x t, nodes g !! idx = Some x /\ ts !! x = Some t /\
  use_count g x = Some n /\ t_view_src t = None /\ has_flag GGML_TENSOR_FLAG_OUTPUT t = false.
Proof.
  unfold ggml_node_has_n_uses, ggml_node_get_use_count. destruct (nodes g !! idx) as [x|] eqn:Ex; [|done]. cbn [mbind option_bind].
  destruct (use_count g x) as [c|] eqn:Ec; [|done]. cbn [mbind option_bind]. destruct (decide (c = n)) as [->|Hne]; [|by rewrite bool_decide_false].
  rewrite bool_decide_true by done. cbn [negb]. destruct (ts !! x) as [t|] eqn:Et; [|done]. cbn [mbind option_bind].
  destruct (t_view_src t) eqn:Ev; [by rewrite bool_decide_true|]. rewrite bool_decide_false by (intros H; by apply H).
  destruct (has_flag _ t) eqn:Ef; [done|]. intros _. by exists x, t.
Qed.

Lemma has_n_uses_total idx n : idx < n_nodes g -> is_Some (ggml_node_has_n_uses ts g idx n).
Proof.
  intros Hi. destruct (node_at idx Hi) as (x & Hx & Hm & t & Ht). unfold ggml_node_has_n_uses, ggml_node_get_use_count. rewrite Hx. cbn [mbind option_bind].
  rewrite use_count_ok by done. cbn [mbind option_bind]. rewrite Ht. cbn [mbind option_bind]. by repeat case_match.
Qed.

Lemma same_shape_spec t p : length (t_ne t) = 4 -> length (t_ne p) = 4 -> exists b, ggml_are_same_shape t p = Some b /\ (b = true -> t_ne t = t_ne p).
Proof.
  unfold ggml_are_same_shape. destruct (t_ne t) as [|a0 [|a1 [|a2 [|a3 []]]]], (t_ne p) as [|b0 [|b1 [|b2 [|b3 []]]]]; intros; try done.
  cbn. eexists. split; [reflexivity|]. rewrite !andb_true_iff, !bool_decide_eq_true. intuition congruence.
Qed.

Context (rank : Z -> nat) (W : tensors_wf ts rank) (Hne : forall x t, ts !! x = Some t -> length (t_ne t) = 4).

(** The loop body of [ggml_can_fuse_ext] answers, and what [true] means. *)
Lemma can_fuse_at_spec idxs ops num_ops i idx op : idxs !! i = Some idx -> ops !! i = Some op -> (0 < i -> exists p, idxs !! (i - 1) = Some p /\ p < n_nodes g) ->
  exists b, can_fuse_at ts g idxs ops num_ops i = Some b /\ (b = true -> idx < n_nodes g /\ exists x t, nodes g !! idx = Some x /\ ts !! x = Some t /\ t_op t = op /\
    (i + 1 < num_ops -> ggml_node_has_n_uses ts g idx 1 = Some true) /\
    (0 < i -> exists p y s, idxs !! (i - 1) = Some p /\ nodes g !! p = Some y /\ ts !! y = Some s /\ y ∈ srcs ts x /\ t_ne s = t_ne t)).
Proof.
  intros Hidx Hop Hprev. unfold can_fuse_at. rewrite Hidx. cbn [mbind option_bind].
  destruct (decide (n_nodes g <= idx)) as [Hle|Hlt]; [rewrite bool_decide_true by done; by exists false|rewrite bool_decide_false by done].
  destruct (node_at idx ltac:(lia)) as (x & Hx & Hm & t & Ht). rewrite Hx. cbn [mbind option_bind]. rewrite Ht. cbn [mbind option_bind]. rewrite Hop. cbn [mbind option_bind].
  destruct (decide (t_op t = op)) as [Ho|Ho]; [rewrite bool_decide_true by done|rewrite bool_decide_false by done; by exists false]. cbn [negb].
  destruct (has_flag GGML_TENSOR_FLAG_COMPUTE t); [cbn [negb]|by exists false].
  assert (exists b, (if bool_decide (i + 1 < num_ops) then ggml_node_has_n_uses ts g idx 1 else Some true) = Some b /\
    (b = true -> i + 1 < num_ops -> ggml_node_has_n_uses ts g idx 1 = Some true)) as (one & -> & Hone).
  { destruct (decide (i + 1 < num_ops)) as [Hl|Hl]; [rewrite bool_decide_true by done|rewrite bool_decide_false by done; by exists true].
    destruct (has_n_uses_total idx 1 ltac:(lia)) as [b Hb]. exists b. split; [done|]. by intros ->. }
  cbn [mbind option_bind]. destruct one; [cbn [negb]|by exists false].
  destruct (decide (0 < i)) as [Hi|Hi]; [rewrite bool_decide_true by done|rewrite bool_decide_false by done].
  - destruct (Hprev Hi) as (p & Hp & Hpl). rewrite Hp. cbn [mbind option_bind]. destruct (node_at p Hpl) as (y & Hy & _ & s & Hs). rewrite Hy. cbn [mbind option_bind].
    pose proof (tw_len _ _ W x t Ht) as Hlen. unfold GGML_MAX_SRC in Hlen. destruct (lookup_lt_is_Some_2 (t_src t) 0) as [s0 H0]; [lia|]. destruct (lookup_lt_is_Some_2 (t_src t) 1) as [s1 H1]; [lia|].
    rewrite H0, H1. cbn [mbind option_bind]. destruct (decide (s0 = Some y \/ s1 = Some y)) as [Hsrc|Hsrc].
    2: { rewrite !bool_decide_false by tauto. by exists false. }
    assert (y ∈ srcs ts x) as Hyx.
    { unfold srcs. rewrite Ht. apply list_elem_of_omap. exists (Some y). split; [|done]. destruct Hsrc as [->| ->]; by apply list_elem_of_lookup_2 in H0, H1. }
    assert (negb (bool_decide (s0 = Some y)) && negb (bool_decide (s1 = Some y)) = false) as ->.
    { destruct Hsrc as [->| ->]; rewrite (bool_decide_true (Some y = Some y)) by done; [done|by rewrite andb_false_r]. }
    rewrite Hs. cbn [mbind option_bind]. destruct (same_shape_spec t s (Hne x t Ht) (Hne y s Hs)) as (b & -> & Hb).
    exists b. split; [done|]. intros Hbt. split; [lia|]. exists x, t. split_and!; try done; [by apply Hone|].
    intros _. exists p, y, s. split_and!; try done. symmetry. by apply Hb.
  - exists true. split; [done|]. intros _. split; [lia|]. exists x, t. split_and!; try done. by apply Hone.
Qed.

(** ** A subgraph *)

Lemma find_tensor_spec idxs x : forall i, exists r, ggml_node_list_find_tensor g idxs i x = Some r /\
  match r with Some _ => exists k, k ∈ idxs /\ graph_nodes g !! k = Some x | None => True end.
Proof.
  induction idxs as [|k idxs IH]; intros i; cbn [ggml_node_list_find_tensor]; [by exists None|].
  destruct (decide (n_nodes g <= k)) as [Hle|Hlt]; [rewrite bool_decide_true by done; by exists None|rewrite bool_decide_false by done].
  destruct (node_at k ltac:(lia)) as (y & Hy & _). rewrite Hy. cbn [mbind option_bind].
  destruct (decide (y = x)) as [->|Hyx]; [rewrite bool_decide_true by done|rewrite bool_decide_false by done].
  - exists (Some i). split; [done|]. exists k. split; [by left|]. by apply (node_member k x); [lia|].
  - destruct (IH (S i)) as (r & Hr & Hspec). exists r. split; [done|]. destruct r; [|done]. destruct Hspec as (k' & ? & ?). exists k'. split; [by right|done].
Qed.

(** The sources of one node that are [x]. *)
Lemma count_srcs x y n : is_Some (ts !! y) ->
  foldM (fun k n => s ← src_at ts y k; Some (if bool_decide (s = Some x) then (n + 1)%Z else n)) (seq 0 GGML_MAX_SRC) n = Some (n + Z.of_nat (uses ts [y] x))%Z.
Proof.
  intros Hy. destruct (foldM_seq (fun k n => s ← src_at ts y k; Some (if bool_decide (s = Some x) then (n + 1)%Z else n))
    (fun k m => m = n + Z.of_nat (length (filter (eq x) (psrc ts GGML_CGRAPH_EVAL_ORDER_LEFT_TO_RIGHT y k))))%Z 0 GGML_MAX_SRC n) as (m & Hrun & Hm).
  - cbn. lia.
  - intros k m [_ Hk] ->. rewrite (src_at_ok ts rank W ts y k) by done. cbn [mbind option_bind]. eexists. split; [reflexivity|].
    rewrite psrc_S, filter_app, length_app. cbn [src_index]. destruct (slot_src ts y k) as [s|].
    + change (option_list (Some s)) with [s]. destruct (decide (s = x)) as [->|Hne'].
      * rewrite bool_decide_true, filter_cons_True by done. cbn. lia.
      * rewrite bool_decide_false by congruence. rewrite filter_cons_False by congruence. cbn. lia.
    + rewrite bool_decide_false by done. cbn. lia.
  - rewrite Hrun, Hm. do 3 f_equal. cbn [Nat.add]. rewrite (psrc_all ts rank _ y W Hy). unfold uses. cbn [mbind list_bind]. by rewrite app_nil_r.
Qed.

Lemma subgraph_uses_ok x first count i : first + count <= n_nodes g -> i < count ->
  subgraph_uses ts g (seq first count) i count x = Some (Z.of_nat (uses ts (take (count - (i + 1)) (drop (first + i + 1) (graph_nodes g))) x)).
Proof.
  intros Hc Hi. unfold subgraph_uses. destruct Hg as [I _].
  destruct (foldM_seq (fun j n => idx ← seq first count !! j; other ← nodes g !! idx;
      foldM (fun k n => s ← src_at ts other k; Some (if bool_decide (s = Some x) then (n + 1)%Z else n)) (seq 0 GGML_MAX_SRC) n)
    (fun j n => n = Z.of_nat (uses ts (take (j - (i + 1)) (drop (first + i + 1) (graph_nodes g))) x)) (i + 1) (count - (i + 1)) 0%Z) as (n & Hrun & Hn).
  - by rewrite Nat.sub_diag.
  - intros j n [Hj1 Hj2] ->. rewrite lookup_seq_lt by lia. cbn [mbind option_bind]. destruct (node_at (first + j) ltac:(lia)) as (y & Hy & Hm & Hs).
    rewrite Hy. cbn [mbind option_bind]. rewrite count_srcs by done. eexists. split; [reflexivity|].
    destruct (node_member (first + j) y ltac:(lia) Hy) as [Hgn _]. replace (j + 1 - (i + 1)) with (S (j - (i + 1))) by lia.
    rewrite (take_S_r _ _ y); [rewrite uses_app; lia|]. rewrite lookup_drop. by replace (first + i + 1 + (j - (i + 1))) with (first + j) by lia.
  - rewrite Hrun, Hn. do 4 f_equal. lia.
Qed.

Definition view_of (x v : Z) : Prop := exists t, ts !! x = Some t /\ t_view_src t = Some v.

Lemma views_inside_spec idxs (vrank : Z -> nat) : (forall x v, view_of x v -> is_Some (ts !! v) /\ vrank v < vrank x) ->
  forall fuel v, match v with Some y => is_Some (ts !! y) /\ S (vrank y) < fuel | None => 0 < fuel end ->
  exists b, views_inside fuel ts g idxs v = Some b /\
    (b = true -> forall y z, v = Some y -> rtc view_of y z -> exists k, k ∈ idxs /\ graph_nodes g !! k = Some z).
Proof.
  intros Hv. induction fuel as [|fuel IH]; intros v Hf; [destruct v as [?|]; lia|]. cbn [views_inside]. destruct v as [x|]; [|by exists true].
  destruct Hf as [[t Ht] Hf]. destruct (find_tensor_spec idxs x 0) as (r & -> & Hr). cbn [mbind option_bind]. destruct r as [j|]; [|by exists false].
  rewrite Ht. cbn [mbind option_bind]. destruct (IH (t_view_src t)) as (b & -> & Hb).
  { destruct (t_view_src t) as [v|] eqn:Ev; [|lia]. destruct (Hv x v) as [? ?]; [by exists t|]. split; [done|lia]. }
  exists b. split; [done|]. intros Hbt y z [= <-] Hz. apply rtc_inv in Hz as [->|(v & (t' & Ht' & Hv') & Hz)]; [done|]. simplify_eq. by apply (Hb eq_refl v z).
Qed.

(** The loop body of [ggml_can_fuse_subgraph_ext]. *)
Lemma can_fuse_sub_at_spec first count ops outputs (vrank : Z -> nat) fuel i op :
  (forall x v, view_of x v -> is_Some (ts !! v) /\ vrank v < vrank x) -> (forall x, x ∈ members g -> vrank x < fuel) ->
  first + count <= n_nodes g -> i < count -> ops !! i = Some op ->
  exists b, can_fuse_sub_at fuel ts g (seq first count) count ops outputs i = Some b /\ (b = true -> forall x, graph_nodes g !! (first + i) = Some x ->
    (exists o, o ∈ outputs /\ graph_nodes g !! o = Some x) \/
    ((forall t, ts !! x = Some t -> has_flag GGML_TENSOR_FLAG_OUTPUT t = false) /\
     (forall z, z ∈ members g -> x ∈ srcs ts z -> exists j, i < j < count /\ graph_nodes g !! (first + j) = Some z) /\
     forall v, tc view_of x v -> exists j, j < count /\ graph_nodes g !! (first + j) = Some v)).
Proof.
  intros Hv Hfuel Hc Hi Hop. unfold can_fuse_sub_at. rewrite lookup_seq_lt by done. cbn [mbind option_bind]. rewrite bool_decide_false by lia.
  destruct (node_at (first + i) ltac:(lia)) as (x & Hx & Hm & t & Ht). rewrite Hx. cbn [mbind option_bind]. rewrite Ht. cbn [mbind option_bind]. rewrite Hop. cbn [mbind option_bind].
  destruct (node_member (first + i) x ltac:(lia) Hx) as [Hgx _].
  destruct (bool_decide (t_op t = op)); [cbn [negb]|by exists false]. destruct (has_flag GGML_TENSOR_FLAG_COMPUTE t); [cbn [negb]|by exists false].
  destruct (find_tensor_spec outputs x 0) as (r & -> & Hr). cbn [mbind option_bind]. destruct r as [k|].
  { exists true. split; [done|]. intros _ y Hy. simplify_eq. by left. }
  destruct (has_flag GGML_TENSOR_FLAG_OUTPUT t) eqn:Hout; [by exists false|]. rewrite subgraph_uses_ok by done. cbn [mbind option_bind].
  unfold ggml_node_get_use_count. rewrite Hx. cbn [mbind option_bind]. rewrite use_count_ok by done. cbn [mbind option_bind].
  destruct (decide (uses ts (take (count - (i + 1)) (drop (first + i + 1) (graph_nodes g))) x = uses ts (members g) x)) as [Heq|Hneq].
  2: { rewrite bool_decide_false by lia. by exists false. }
  rewrite bool_decide_true by lia. cbn [negb]. rewrite (firstn_all2 (n := count)) by (rewrite length_seq; lia).
  destruct (views_inside_spec (seq first count) vrank Hv fuel (t_view_src t)) as (b & -> & Hb).
  { specialize (Hfuel x Hm). destruct (t_view_src t) as [v|] eqn:Ev; [|lia]. destruct (Hv x v) as [? ?]; [by exists t|]. split; [done|lia]. }
  exists b. split; [done|]. intros -> y Hy. simplify_eq. right. destruct Hg as [I _]. split_and!.
  - intros t' Ht'. by simplify_eq.
  - intros z Hz Hxz. set (L := take (count - (i + 1)) (drop (first + i + 1) (graph_nodes g))) in *.
    assert (forall y, y ∈ L -> exists j, i < j < count /\ graph_nodes g !! (first + j) = Some y) as HL.
    { intros y (j & Hj)%list_elem_of_lookup. apply lookup_take_Some in Hj as [Hj Hlt]. rewrite lookup_drop in Hj. exists (i + 1 + j). split; [lia|].
      by replace (first + (i + 1 + j)) with (first + i + 1 + j) by lia. }
    apply HL, (uses_confined L x); try done; [| |lia].
    + pose proof (gi_nodup _ _ _ I) as [Hnd _]%NoDup_app. subst L. apply (sublist_NoDup _ _ Hnd). etrans; [apply sublist_take|apply sublist_drop].
    + intros y (j & _ & Hj)%HL. apply elem_of_app. left. by apply list_elem_of_lookup_2 in Hj.
  - intros v Hv'. assert (exists y, view_of x y /\ rtc view_of y v) as (y & (t' & Ht' & Hy') & Hyv).
    { destruct Hv' as [a v Hav|a y v Hay Hyv]; [by exists v|exists y; split; [done|by apply tc_rtc]]. }
    simplify_eq. destruct (Hb eq_refl y v Hy' Hyv) as (k & [Hk1 Hk2]%elem_of_seq & Hk). exists (k - first). split; [lia|]. by replace (first + (k - first)) with k by lia.
Qed.

End Fuse.

(** Of any two neighbours in the sequence of nodes from [first], with the
    operations [ops], the second is the only member that reads the first. *)
Definition private_chain (ts : tensors) (g : ggml_cgraph) (first : nat) (ops : list Z) : Prop :=
  forall i, i + 1 < length ops ->
    exists x y t s, graph_nodes g !! (first + i) = Some x /\ graph_nodes g !! (first + i + 1) = Some y /\ ts !! x = Some t /\ ts !! y = Some s /\
      ops !! i = Some (t_op t) /\ ops !! (i + 1) = Some (t_op s) /\ t_ne t = t_ne s /\
      t_view_src t = None /\ has_flag GGML_TENSOR_FLAG_OUTPUT t = false /\ forall z, z ∈ members g -> (x ∈ srcs ts z <-> z = y).

(** A node of the subgraph of [n] nodes from [first] that is not among the
    [outputs] is no output of the graph, is read by later nodes of the subgraph
    only, and is a view of tensors of the subgraph only. *)
Definition private_subgraph (ts : tensors) (g : ggml_cgraph) (first n : nat) (outputs : list nat) : Prop :=
  forall i x, i < n -> graph_nodes g !! (first + i) = Some x ->
    (exists o, o ∈ outputs /\ graph_nodes g !! o = Some x) \/
    ((forall t, ts !! x = Some t -> has_flag GGML_TENSOR_FLAG_OUTPUT t = false) /\
     (forall z, z ∈ members g -> x ∈ srcs ts z -> exists j, i < j < n /\ graph_nodes g !! (first + j) = Some z) /\
     forall v, tc (view_of ts) x v -> exists j, j < n /\ graph_nodes g !! (first + j) = Some v).

Lemma chain_sound `{BM : BuildMode} ts g rank first ops : graph_wf ts g -> tensors_wf ts rank -> (forall x t, ts !! x = Some t -> length (t_ne t) = 4) ->
  length ops < 32 -> exists b, ggml_can_fuse ts g first ops (length ops) = Some b /\ (b = true -> private_chain ts g first ops).
Proof.
  intros Hg W Hne Hlen. unfold ggml_can_fuse. rewrite c_assert_true by (by apply bool_decide_true). cbn [mbind option_bind].
  destruct (decide (n_nodes g < first + length ops)) as [Hlt|Hge]; [rewrite bool_decide_true by done; by exists false|rewrite bool_decide_false by done].
  assert (forall i, i < length ops -> exists idx op, seq first (length ops) !! i = Some idx /\ ops !! i = Some op /\ idx = first + i) as Hidx.
  { intros i Hi. destruct (lookup_lt_is_Some_2 ops i Hi) as [op Hop]. exists (first + i), op. split_and!; [by apply lookup_seq_lt|done|done]. }
  assert (forall i, i < length ops -> 0 < i -> exists p, seq first (length ops) !! (i - 1) = Some p /\ p < n_nodes g) as Hprev.
  { intros i Hi Hpos. exists (first + (i - 1)). split; [apply lookup_seq_lt; lia|lia]. }
  unfold ggml_can_fuse_ext. destruct (all_from_total (can_fuse_at ts g (seq first (length ops)) ops (length ops)) (length ops) 0) as [b Hb].
  { intros i [_ Hi]. destruct (Hidx i Hi) as (idx & op & H1 & H2 & _).
    destruct (can_fuse_at_spec ts g Hg rank W Hne _ _ (length ops) i idx op H1 H2 (Hprev i Hi)) as (b & -> & _). done. }
  exists b. split; [done|]. intros -> i Hi. rewrite all_from_true in Hb.
  destruct (Hidx i ltac:(lia)) as (a & opa & Ha & Hopa & ->). destruct (Hidx (i + 1) Hi) as (c & opc & Hc & Hopc & ->).
  destruct (can_fuse_at_spec ts g Hg rank W Hne _ _ (length ops) i _ _ Ha Hopa (Hprev i ltac:(lia))) as (b1 & Hr1 & H1).
  destruct (can_fuse_at_spec ts g Hg rank W Hne _ _ (length ops) (i + 1) _ _ Hc Hopc (Hprev (i + 1) Hi)) as (b2 & Hr2 & H2).
  destruct (H1 ltac:(rewrite Hb in Hr1 by lia; congruence)) as (Hl1 & x & t & Hx & Ht & Ho1 & Huses & _).
  destruct (H2 ltac:(rewrite Hb in Hr2 by lia; congruence)) as (Hl2 & y & s & Hy & Hs & Ho2 & _ & Hpr).
  destruct (Hpr ltac:(lia)) as (p & x' & t' & Hp & Hx' & Ht' & Hxy & Hshape). replace (i + 1 - 1) with i in Hp by lia.
  assert (p = first + i) as -> by congruence. assert (x' = x) as -> by congruence. assert (t' = t) as -> by congruence.
  destruct (has_n_uses_inv ts g _ _ (Huses Hi)) as (x2 & t2 & Hx2 & Ht2 & Hcnt & Hview & Hflag).
  assert (x2 = x) as -> by congruence. assert (t2 = t) as -> by congruence.
  destruct (node_member g _ _ Hl1 Hx) as [Hgx Hmx]. destruct (node_member g _ _ Hl2 Hy) as [Hgy Hmy].
  exists x, y, t, s. split_and!; try done; [by replace (first + i + 1) with (first + (i + 1)) by lia|congruence|congruence|].
  intros z Hz. split; [|by intros ->]. intros Hxz. apply list_elem_of_singleton. rewrite (use_count_ok ts g Hg x Hmx) in Hcnt.
  apply (uses_confined ts g [y] x); [apply NoDup_singleton|by intros w ->%list_elem_of_singleton| |done|done].
  assert (uses ts [y] x <> 0) as Hpos by (rewrite uses_0; intros H; by apply (H y); [by left|]). injection Hcnt as Hcnt. lia.
Qed.

Lemma subgraph_sound ts g rank vrank first ops outputs fuel : graph_wf ts g -> tensors_wf ts rank ->
  (forall x v, view_of ts x v -> is_Some (ts !! v) /\ vrank v < vrank x) -> (forall x, x ∈ members g -> vrank x < fuel) ->
  length ops < 32 -> outputs <> [] ->
  exists b, ggml_can_fuse_subgraph fuel ts g first (length ops) ops outputs = Some b /\ (b = true -> private_subgraph ts g first (length ops) outputs).
Proof.
  intros Hg W Hv Hfuel Hlen Hout. unfold ggml_can_fuse_subgraph. rewrite ggml_assert_true by (by apply bool_decide_true). cbn [mbind option_bind].
  destruct (decide (n_nodes g < first + length ops)) as [Hlt|Hge]; [rewrite bool_decide_true by done; by exists false|rewrite bool_decide_false by done].
  unfold ggml_can_fuse_subgraph_ext. rewrite ggml_assert_true by (rewrite bool_decide_false; [done|by destruct outputs]). cbn [mbind option_bind].
  assert (forall i, i < length ops -> exists op, ops !! i = Some op) as Hop by (intros i Hi; by apply lookup_lt_is_Some_2).
  destruct (all_from_total (can_fuse_sub_at fuel ts g (seq first (length ops)) (length ops) ops outputs) (length ops) 0) as [b Hb].
  { intros i [_ Hi]. destruct (Hop i Hi) as [op H1].
    destruct (can_fuse_sub_at_spec ts g Hg rank W first (length ops) ops outputs vrank fuel i op Hv Hfuel ltac:(lia) Hi H1) as (b & -> & _). done. }
  exists b. split; [done|]. intros -> i x Hi Hx. rewrite all_from_true in Hb. destruct (Hop i Hi) as [op H1].
  destruct (can_fuse_sub_at_spec ts g Hg rank W first (length ops) ops outputs vrank fuel i op Hv Hfuel ltac:(lia) Hi H1) as (b & Hr & Hspec).
  apply Hspec; [rewrite Hb in Hr by lia; congruence|done].
Qed.

(** C28: the fusion tests always answer on a finished graph, and [true] means
    that the intermediate results are private: for [ggml_can_fuse], each node of
    the sequence is read by its successor and by no other member of the graph, is
    neither a view nor an output, and has the same shape ([private_chain]); for
    [ggml_can_fuse_subgraph], each node of the subgraph that is not one of its
    outputs is read, or viewed, inside the subgraph only ([private_subgraph]). *)
Theorem fusion_sound `{BM : BuildMode} (ts : tensors) (g : ggml_cgraph) (rank vrank : Z -> nat) (first : nat) (ops : list Z) (outputs : list nat) (fuel : nat) :
  graph_wf ts g -> tensors_wf ts rank -> (forall x t, ts !! x = Some t -> length (t_ne t) = 4) ->
  (forall x v, view_of ts x v -> is_Some (ts !! v) /\ vrank v < vrank x) -> (forall x, x ∈ members g -> vrank x < fuel) ->
  length ops < 32 -> outputs <> [] ->
  (exists b, ggml_can_fuse ts g first ops (length ops) = Some b /\ (b = true -> private_chain ts g first ops)) /\
  (exists b, ggml_can_fuse_subgraph fuel ts g first (length ops) ops outputs = Some b /\ (b = true -> private_subgraph ts g first (length ops) outputs)).
Proof. intros Hg W Hne Hv Hfuel Hlen Hout. split; [by apply (chain_sound ts g rank)|by apply (subgraph_sound ts g rank vrank)]. Qed.

(** The graph of the example of GgmlGraphOk.v: a product, a sum of it with a
    constant, and the sum of both. *)
Definition demo_mem (k : nat) : list Z := replicate k 0%Z.

Definition demo_graph : tensors * ggml_cgraph :=
  match (g ← ggml_new_graph_custom 4 false demo_mem; foldM (ggml_build_forward_expand 6) [80%Z] (demo_tensors, g)) with
  | Some st => st
  | None => (∅, mkGraph 0 0 0 [] None None [] [] (mkHash 0 [] []) GGML_CGRAPH_EVAL_ORDER_LEFT_TO_RIGHT)
  end.

Lemma demo_graph_wf : graph_wf (fst demo_graph) (snd demo_graph) /\ same_tensors demo_tensors (fst demo_graph).
Proof.
  destruct (new_graph_ok 4 false demo_mem demo_tensors) as (g0 & Hnew & G & Hm & Hsz & Hhs); [intros k; apply length_replicate|].
  destruct (check_closed demo_tensors (dom demo_tensors)) as [Hc Hi]; [vm_compute; reflexivity|].
  destruct (build_all_ok demo_tensors demo_rank (dom demo_tensors) [80%Z] 6 g0) as (ts' & g' & Hrun & G' & S & _).
  - apply check_tensors. vm_compute. reflexivity.
  - exact G.
  - split; [exact Hc|exact Hi|rewrite Hsz; vm_compute; lia|rewrite Hsz; vm_compute; lia|etrans; [|exact Hhs]; vm_compute; lia|vm_compute; discriminate|].
    intros x. rewrite Hm. intros Hx. by apply not_elem_of_nil in Hx.
  - apply check_flags. vm_compute. reflexivity.
  - intros x ->%list_elem_of_singleton. split; [apply (bool_decide_unpack _); vm_compute; exact I|vm_compute; lia].
  - unfold demo_graph. rewrite Hnew. cbn [mbind option_bind]. rewrite Hrun. split; [exact G'|exact S].
Qed.

Lemma fusion_sound_witness : private_chain (fst demo_graph) (snd demo_graph) 1 [1; 1]%Z /\ private_subgraph (fst demo_graph) (snd demo_graph) 0 3 [2].
Proof.
  destruct demo_graph_wf as [G S].
  assert (tensors_wf (fst demo_graph) demo_rank) as W by (apply (tensors_wf_same demo_tensors); [exact S|apply check_tensors; vm_compute; reflexivity]).
  assert (forall x t, fst demo_graph !! x = Some t -> length (t_ne t) = 4 /\ t_view_src t = None) as Hall.
  { intros x t Ht. destruct (same_lookup_inv _ _ _ _ S Ht) as (t0 & Ht0 & Hc). injection Hc as _ _ _ -> ->.
    apply elem_of_list_to_map_2 in Ht0. repeat (apply elem_of_cons in Ht0 as [[= -> ->]|Ht0]; [split; reflexivity|]). exfalso. exact (not_elem_of_nil _ Ht0). }
  assert (forall x v, view_of (fst demo_graph) x v -> is_Some (fst demo_graph !! v) /\ 0 < 0) as Hv.
  { intros x v (t & Ht & Hv). destruct (Hall x t Ht) as [_ Hn]. rewrite Hn in Hv. discriminate Hv. }
  split.
  - destruct (fusion_sound (BM := debug_build) (fst demo_graph) (snd demo_graph) demo_rank (fun _ => 0) 1 [1; 1]%Z [2] 1) as [(b & Hb & H) _];
      [exact G|exact W|intros x t Ht; apply (Hall x t Ht)|exact Hv|intros; lia|cbn; lia|discriminate|].
    apply H. vm_compute in Hb. injection Hb as Hb. symmetry. exact Hb.
  - destruct (fusion_sound (BM := debug_build) (fst demo_graph) (snd demo_graph) demo_rank (fun _ => 0) 0 [2; 1; 1]%Z [2] 1) as [_ (b & Hb & H)];
      [exact G|exact W|intros x t Ht; apply (Hall x t Ht)|exact Hv|intros; lia|cbn; lia|discriminate|].
    apply H. vm_compute in Hb. injection Hb as Hb. symmetry. exact Hb.
Defined.

(** ** Two accesses without a check *)

(** [ggml_can_fuse_subgraph_ext] checks the index of a node when its turn comes,
    but reads all later nodes of the list before. *)
Lemma subgraph_ext_unchecked_index :
  ggml_can_fuse_subgraph_ext 6 (fst demo_graph) (snd demo_graph) [0; 9] 2 [2; 1]%Z [1] = None /\
  ggml_can_fuse_ext (fst demo_graph) (snd demo_graph) [1; 9] [1; 1]%Z 2 = Some false.
Proof. by vm_compute. Qed.

(** [ggml_graph_cpy] uses the result of [ggml_hash_insert] as an index, also when
    it is [GGML_HASHSET_ALREADY_EXISTS]: the destination must not have any of the
    tensors. *)
Lemma copy_into_used_graph :
  is_Some (ggml_graph_dup (snd demo_graph) false demo_mem) /\ ggml_graph_cpy (snd demo_graph) (snd demo_graph) = None.
Proof. split; [by vm_compute; eexists|by vm_compute]. Qed.

End GgmlFuse.
