(* ===== verification/Sampler.v ===== *)
(** Samplers that depend on the tokens generated so far:
    [llama_cpp_repo/src/llama-sampler.cpp].  This file holds the model of
    [ring_buffer], of the repetition penalties, of the DRY sampler and of the
    selection of the best candidates.  Floating-point arithmetic is an argument:
    the class [FloatOps]. *)

From S2P Require Import Prelude.

Module Sampler.

(** * The ring buffer *)

Inductive ring_error := ring_buffer_is_empty | capacity_is_zero | index_out_of_bounds.


Record ring_buffer (T : Type) := mkRing { capacity : nat; sz : nat; first : nat; pos : nat; data : list T }.
Arguments mkRing {T} capacity sz first pos data.
Arguments capacity {T} r.
Arguments sz {T} r.
Arguments first {T} r.
Arguments pos {T} r.
Arguments data {T} r.

Section Ring.
Context {T : Type}.
Implicit Types (r : ring_buffer T).

(** [data(cap)] holds default values. *)
Definition ring_new (dflt : T) (cap : nat) : ring_buffer T := mkRing cap 0 0 0 (replicate cap dflt).

Definition front r : outcome ring_error T :=
  if bool_decide (sz r = 0) then Throw ring_buffer_is_empty else of_option (data r !! first r).

Definition back r : outcome ring_error T :=
  if bool_decide (sz r = 0) then Throw ring_buffer_is_empty else of_option (data r !! pos r).

Definition push_back (value : T) r : outcome ring_error (ring_buffer T) :=
  if bool_decide (capacity r = 0) then Throw capacity_is_zero else
  let '(f, n) := if bool_decide (sz r = capacity r) then ((first r + 1) mod capacity r, sz r) else (first r, sz r + 1) in
  d ← of_option (set_at (pos r) value (data r));
  Done (mkRing (capacity r) n f ((pos r + 1) mod capacity r) d).

Definition pop_front r : outcome ring_error (T * ring_buffer T) :=
  if bool_decide (sz r = 0) then Throw ring_buffer_is_empty else
  value ← of_option (data r !! first r);
  Done (value, mkRing (capacity r) (sz r - 1) ((first r + 1) mod capacity r) (pos r) (data r)).

(** The [i]-th element from the end. *)
Definition rat r (i : nat) : outcome ring_error T :=
  if bool_decide (sz r <= i) then Throw index_out_of_bounds else
  of_option (data r !! ((first r + sz r - i - 1) mod capacity r)).

Definition to_vector r : outcome ring_error (list T) :=
  foldO (fun i l => x ← of_option (data r !! ((first r + i) mod capacity r)); Done (l ++ [x])) (seq 0 (sz r)) [].

Definition clear r : ring_buffer T := mkRing (capacity r) 0 0 0 (data r).

Definition empty r : bool := bool_decide (sz r = 0).
Definition size r : nat := sz r.
End Ring.

Section Samplers.
Context `{FO : FloatOps}.

(** The probability [p] plays no part here. *)
Record llama_token_data := mkData { id : Z; logit : float }.

Record llama_token_data_array := mkArray { cand : list llama_token_data; sorted : bool }.

(** * Repetition penalties *)

Record llama_sampler_penalties := mkPen {
  penalty_last_n  : Z;
  penalty_repeat  : float;
  penalty_freq    : float;
  penalty_present : float;
  prev            : ring_buffer Z;
  token_count     : gmap Z Z;
}.

Definition with_prev (r : ring_buffer Z) (m : gmap Z Z) (c : llama_sampler_penalties) :=
  mkPen (penalty_last_n c) (penalty_repeat c) (penalty_freq c) (penalty_present c) r m.

(** [None]: the empty sampler. *)
Definition llama_sampler_init_penalties (last_n : Z) (repeat freq present : float) : option llama_sampler_penalties :=
  let last_n := Z.max last_n 0 in
  if bool_decide (last_n = 0)%Z || (feq repeat fone && feq freq fzero && feq present fzero) then None else
  Some (mkPen last_n repeat freq present (ring_new 0%Z (Z.to_nat last_n)) ∅).

(** [operator[]] inserts a zero. *)
Definition count_of (m : gmap Z Z) (token : Z) : Z := default 0%Z (m !! token).

Definition llama_sampler_penalties_accept (token : Z) (c : llama_sampler_penalties) : outcome ring_error llama_sampler_penalties :=
  if bool_decide (penalty_last_n c = 0)%Z then Done c else
  n ← of_option (i32_chk (count_of (token_count c) token + 1));
  let m := <[token := n]> (token_count c) in
  m ← (if bool_decide (u64_wrap (penalty_last_n c) <= Z.of_nat (size (prev c)))%Z then
         old ← front (prev c);
         n ← of_option (i32_chk (count_of m old - 1));
         Done (if bool_decide (n = 0)%Z then delete old m else <[old := n]> m)
       else Done m);
  r ← push_back token (prev c);
  Done (with_prev r m c).

Definition penalize (c : llama_sampler_penalties) (count : Z) (l : float) : float :=
  let l := if fle l fzero then fmul l (penalty_repeat c) else fdiv l (penalty_repeat c) in
  fsub l (fadd (fmul (of_int count) (penalty_freq c)) (fmul (if bool_decide (0 < count)%Z then fone else fzero) (penalty_present c))).

Definition llama_sampler_penalties_apply `{BM : BuildMode} (c : llama_sampler_penalties) (cur_p : llama_token_data_array) : option llama_token_data_array :=
  if bool_decide (penalty_last_n c = 0)%Z || (feq (penalty_repeat c) fone && feq (penalty_freq c) fzero && feq (penalty_present c) fzero)
  then Some cur_p else
  l ← foldM (fun i l =>
        d ← l !! i;
        match token_count c !! id d with
        | None => Some l
        | Some count =>
            ASSERT bool_decide (0 < count)%Z && bool_decide (count <= penalty_last_n c)%Z;
            set_at i (mkData (id d) (penalize c count (logit d))) l
        end) (seq 0 (length (cand cur_p))) (cand cur_p);
  Some (mkArray l false).

Definition llama_sampler_penalties_reset (c : llama_sampler_penalties) : llama_sampler_penalties := with_prev (clear (prev c)) ∅ c.

(** The clone has the history, but not the counts. *)
Definition llama_sampler_penalties_clone (c : llama_sampler_penalties) : option llama_sampler_penalties :=
  r ← llama_sampler_init_penalties (penalty_last_n c) (penalty_repeat c) (penalty_freq c) (penalty_present c);
  Some (with_prev (prev c) (token_count r) r).

(** * DRY

    The breakers are a multimap from the head of a sequence to its tail. *)

Record llama_sampler_dry := mkDry {
  total_context_size     : Z;
  dry_multiplier         : float;
  dry_base               : float;
  dry_allowed_length     : Z;
  dry_penalty_last_n     : Z;
  dry_processed_breakers : list (Z * list Z);
  dry_repeat_count       : list nat;
  dry_max_token_repeat   : gmap Z nat;
  last_tokens            : ring_buffer Z;
}.

Definition dry_off (c : llama_sampler_dry) : bool :=
  feq (dry_multiplier c) fzero || flt (dry_base c) fone || bool_decide (dry_penalty_last_n c = 0)%Z.

(** The wrapper of the tests: breakers are given as tokens; [None] is the
    empty sampler. *)
Definition llama_sampler_init_dry_testing (context_size : Z) (multiplier base : float) (allowed_length last_n : Z) (seq_breakers : list (list Z))
    : option llama_sampler_dry :=
  let n := if bool_decide (last_n = -1)%Z then context_size else Z.max last_n 0 in
  if negb (negb (feq multiplier fzero) && fle fone base && negb (bool_decide (last_n = 0)%Z)) then None else
  Some (mkDry context_size multiplier base allowed_length last_n
    (omap (fun b => match b with h :: t => Some (h, t) | [] => None end) seq_breakers)
    (replicate (Z.to_nat n) 0) ∅ (ring_new 0%Z (Z.to_nat n))).

Definition with_tokens (r : ring_buffer Z) (c : llama_sampler_dry) :=
  mkDry (total_context_size c) (dry_multiplier c) (dry_base c) (dry_allowed_length c) (dry_penalty_last_n c) (dry_processed_breakers c)
    (dry_repeat_count c) (dry_max_token_repeat c) r.
Definition with_repeats (l : list nat) (m : gmap Z nat) (c : llama_sampler_dry) :=
  mkDry (total_context_size c) (dry_multiplier c) (dry_base c) (dry_allowed_length c) (dry_penalty_last_n c) (dry_processed_breakers c) l m (last_tokens c).

Definition llama_sampler_dry_accept (token : Z) (c : llama_sampler_dry) : outcome ring_error llama_sampler_dry :=
  if dry_off c then Done c else
  r ← push_back token (last_tokens c);
  Done (with_tokens r c).

Definition llama_sampler_dry_reset (c : llama_sampler_dry) : llama_sampler_dry := with_repeats [] ∅ (with_tokens (clear (last_tokens c)) c).

(** Does the tail match the tokens after position [i] from the end? *)
Fixpoint tail_matches (r : ring_buffer Z) (i offset : nat) (tail : list Z) : outcome ring_error bool :=
  match tail with
  | [] => Done true
  | t :: tail => x ← rat r (i - offset - 1); if bool_decide (t = x) then tail_matches r i (S offset) tail else Done false
  end.

(** The longest of the breakers with head [token] that ends there; [-1] if there
    is none. *)
Definition longest_match (r : ring_buffer Z) (breakers : list (Z * list Z)) (token : Z) (i : nat) : outcome ring_error Z :=
  foldO (fun '(h, tail) longest =>
    if bool_decide (h = token) then
      let seq_len := Z.of_nat (length tail) in
      if bool_decide (longest < seq_len)%Z && bool_decide (seq_len <= Z.of_nat i)%Z then
        b ← tail_matches r i 0 tail; Done (if (b : bool) then seq_len else longest)
      else Done longest
    else Done longest) breakers (-1)%Z.

(** Step 1: the loop from position [i] over the [k] positions left. *)
Fixpoint rep_limit (r : ring_buffer Z) (breakers : list (Z * list Z)) (last_n_repeat k i : nat) : outcome ring_error nat :=
  match k with
  | 0 => Done last_n_repeat
  | S k =>
      token ← rat r i;
      m ← longest_match r breakers token i;
      if bool_decide (0 <= m)%Z then Done (i - Z.to_nat m) else rep_limit r breakers last_n_repeat k (S i)
  end.

(** The two [while] loops of step 2: from [i] on, as long as the token there is
    the one [k] positions closer to the end. *)
Fixpoint extend (fuel : nat) (r : ring_buffer Z) (n k i : nat) : outcome ring_error nat :=
  match fuel with
  | 0 => Undefined
  | S fuel =>
      if bool_decide (i < n) then
        x ← rat r i; y ← rat r (i - k);
        if bool_decide (x = y) then extend fuel r n k (S i) else Done i
      else Done i
  end.

(** Step 2: the body of the loop over [k]. *)
Definition z_step (r : ring_buffer Z) (n limit : nat) (k : nat) (st : list nat * (nat * nat)) : outcome ring_error (list nat * (nat * nat)) :=
  let '(counts, (lt, rt)) := st in
  let last := n - 1 in
  if bool_decide (rt < k) then
    i ← extend (S n) r n k k;
    counts ← of_option (set_at (last - k) (min (i - k) limit) counts);
    Done (counts, if bool_decide (0 < i - k) then (k, i - 1) else (lt, rt))
  else
    let p := k - lt in
    let right_part_len := rt - k + 1 in
    c ← of_option (counts !! (last - p));
    if bool_decide (c < right_part_len) then
      counts ← of_option (set_at (last - k) (min c limit) counts);
      Done (counts, (lt, rt))
    else
      i ← extend (S n) r n k (rt + 1);
      counts ← of_option (set_at (last - k) (min (i - k) limit) counts);
      Done (counts, (k, i - 1)).

(** Step 3. *)
Definition max_step (r : ring_buffer Z) (n : nat) (allowed : Z) (counts : list nat) (i : nat) (m : gmap Z nat) : outcome ring_error (gmap Z nat) :=
  repeat_len ← of_option (counts !! i);
  if bool_decide (allowed <= Z.of_nat repeat_len)%Z then
    token ← rat r (n - 2 - i);
    Done (match m !! token with
          | Some old => if bool_decide (old < repeat_len) then <[token := repeat_len]> m else m
          | None => <[token := repeat_len]> m
          end)
  else Done m.

(** Step 4, with [max_exponent] as computed from the logarithm of the base. *)
Definition dry_penalty (c : llama_sampler_dry) (max_exponent : Z) (repeat_len : nat) : float :=
  let e := (Z.of_nat repeat_len - dry_allowed_length c)%Z in
  let e := if bool_decide (0 < max_exponent)%Z && bool_decide (max_exponent < e)%Z then max_exponent else e in
  fmul (dry_multiplier c) (fpow (dry_base c) e).

Definition is_single_token_breaker (c : llama_sampler_dry) (token : Z) : bool :=
  existsb (fun '(h, tail) => bool_decide (h = token) && bool_decide (tail = [])) (dry_processed_breakers c).

Definition dry_candidate (c : llama_sampler_dry) (max_exponent : Z) (m : gmap Z nat) (d : llama_token_data) : llama_token_data :=
  match m !! id d with
  | Some repeat_len =>
      if is_single_token_breaker c (id d) then d else mkData (id d) (fsub (logit d) (dry_penalty c max_exponent repeat_len))
  | None => d
  end.

Definition last_n_repeat (c : llama_sampler_dry) : Z :=
  let n := if bool_decide (dry_penalty_last_n c = -1)%Z then total_context_size c else Z.max (dry_penalty_last_n c) 0 in
  Z.min (Z.min (Z.of_nat (size (last_tokens c))) n) (total_context_size c).

Definition llama_sampler_dry_apply (max_exponent : float -> Z) (c : llama_sampler_dry) (cur_p : llama_token_data_array)
    : outcome ring_error (llama_sampler_dry * llama_token_data_array) :=
  if dry_off c then Done (c, cur_p) else
  if bool_decide (last_n_repeat c <= dry_allowed_length c)%Z then Done (c, cur_p) else
  if bool_decide (last_n_repeat c < 0)%Z then Undefined else
  let n := Z.to_nat (last_n_repeat c) in
  let r := last_tokens c in
  let c := with_repeats (replicate n 0) ∅ c in
  limit ← rep_limit r (dry_processed_breakers c) n n 0;
  if bool_decide (Z.of_nat limit < dry_allowed_length c)%Z then Done (c, cur_p) else
  '(counts, _) ← foldO (z_step r n limit) (seq 1 (n - 1)) (dry_repeat_count c, (0, 0));
  m ← foldO (max_step r n (dry_allowed_length c) counts) (seq 0 (n - 1)) ∅;
  Done (with_repeats counts m c, mkArray (dry_candidate c (max_exponent (dry_base c)) m <$> cand cur_p) false).

(** * The best candidates

    The sorts of the standard library are arguments: [std_sort] sorts a range,
    [std_partial_sort k] puts the first [k] of the sorted range in front.  The
    bucket of a logit, [int(bucket_scale * val + bucket_inter)], is one too. *)

Section TopK.
Context (std_sort : list llama_token_data -> list llama_token_data) (std_partial_sort : nat -> list llama_token_data -> list llama_token_data).
Context (float_bucket : float -> Z).

Definition nbuckets : nat := 128.

Definition bucket_of (d : llama_token_data) : nat := Z.to_nat (Z.max 0 (Z.min (Z.of_nat nbuckets - 1) (float_bucket (logit d)))).

Definition histo_step (d : llama_token_data) (st : list nat * list nat) : option (list nat * list nat) :=
  let '(bucket_idx, histo) := st in
  let ib := bucket_of d in
  h ← histo !! ib;
  histo ← set_at ib (h + 1) histo;
  Some (bucket_idx ++ [ib], histo).

(** The loop over [ib] from [k - 1] down; falling through it would index with
    [-1]. *)
Fixpoint find_bucket (k : nat) (histo : list nat) (npartial nhave : nat) : option (nat * nat) :=
  match k with
  | 0 => None
  | S ib =>
      h ← histo !! ib;
      let nhave := nhave + h in
      if bool_decide (npartial <= nhave) then Some (ib, nhave) else find_bucket ib histo npartial nhave
  end.

(** Where each bucket begins in the result, from bucket [nbuckets - 1] down to
    [ib]. *)
Definition bucket_ptrs (histo : list nat) (ib : nat) : option (list nat) :=
  '(ptrs, _) ← foldM (fun j st => let '(ptrs, ptr) := st in h ← histo !! j; Some (ptrs ++ [ptr], ptr + h)) (reverse (seq ib (nbuckets - ib))) ([], 0);
  Some ptrs.

Definition place_step (cur : list llama_token_data) (bucket_idx : list nat) (ib : nat) (i : nat) (st : list nat * list llama_token_data)
    : option (list nat * list llama_token_data) :=
  let '(ptrs, res) := st in
  j ← bucket_idx !! i;
  if bool_decide (ib <= j) then
    ptr ← ptrs !! (nbuckets - 1 - j);
    d ← cur !! i;
    res ← set_at ptr d res;
    ptrs ← set_at (nbuckets - 1 - j) (ptr + 1) ptrs;
    Some (ptrs, res)
  else Some (ptrs, res).

(** [f(ptr, ptr + len)] replaces a range of the array by [f] of it. *)
Definition on_range (f : list llama_token_data -> list llama_token_data) (ptr len : nat) (res : list llama_token_data) : option (list llama_token_data) :=
  if bool_decide (ptr + len <= length res) then Some (take ptr res ++ f (take len (drop ptr res)) ++ drop (ptr + len) res) else None.

Definition sort_step (histo : list nat) (j : nat) (st : list llama_token_data * nat) : option (list llama_token_data * nat) :=
  let '(res, ptr) := st in
  h ← histo !! j;
  res ← on_range std_sort ptr h res;
  Some (res, ptr + h).

(** [res.resize(nhave)] fills with default candidates. *)
Definition llama_token_data_array_partial_sort (dflt : llama_token_data) (cur : list llama_token_data) (npartial : nat) : option (list llama_token_data) :=
  '(bucket_idx, histo) ← foldM histo_step cur ([], replicate nbuckets 0);
  '(ib, nhave) ← find_bucket nbuckets histo npartial 0;
  ptrs ← bucket_ptrs histo ib;
  '(_, res) ← foldM (place_step cur bucket_idx ib) (seq 0 (length cur)) (ptrs, replicate nhave dflt);
  '(res, ptr) ← foldM (sort_step histo) (reverse (seq (S ib) (nbuckets - S ib))) (res, 0);
  h ← histo !! ib;
  on_range (std_partial_sort (npartial - ptr)) ptr h res.

(** The entries past [size] are no longer part of the array. *)
Definition llama_token_data_array_partial_sort_inplace (dflt : llama_token_data) (cur_p : llama_token_data_array) (npartial : nat) : option llama_token_data_array :=
  if bool_decide (npartial <= 128) then
    Some (mkArray (take npartial (std_partial_sort npartial (cand cur_p))) true)
  else
    tmp ← llama_token_data_array_partial_sort dflt (cand cur_p) npartial;
    Some (mkArray (take npartial tmp) true).

Definition llama_sampler_top_k_impl (dflt : llama_token_data) (cur_p : llama_token_data_array) (k : Z) : option llama_token_data_array :=
  if bool_decide (k <= 0)%Z then Some cur_p else
  let k := Z.to_nat (Z.min k (Z.of_nat (length (cand cur_p)))) in
  cur_p ← (if negb (sorted cur_p) then llama_token_data_array_partial_sort_inplace dflt cur_p k else Some cur_p);
  Some (mkArray (take k (cand cur_p)) (sorted cur_p)).

End TopK.

End Samplers.

End Sampler.
