(* ===== verification/SamplerOk.v ===== *)
(** The ring buffer is a bounded queue, and the repetition penalties count the
    tokens of its window. *)

From S2P Require Import Prelude.
From S2P Require Import Sampler.
Import Sampler.Sampler.

Module SamplerOk.

(** * The ring buffer *)

(** The last [n] elements. *)
Definition lastn {A} (n : nat) (l : list A) : list A := drop (length l - n) l.

Section Ring.
Context {T : Type}.
Implicit Types (r : ring_buffer T) (L : list T).

(** [r] holds the elements [L], the oldest first. *)
Record ring_model r L : Prop := {
  rm_data  : length (data r) = capacity r;
  rm_sz    : sz r = length L;
  rm_cap   : length L <= capacity r;
  rm_first : first r < capacity r \/ capacity r = 0 /\ first r = 0;
  rm_pos   : pos r = (first r + length L) mod capacity r;
  rm_at    : forall i x, L !! i = Some x -> data r !! ((first r + i) mod capacity r) = Some x;
}.

Lemma ring_new_model (d : T) cap : ring_model (ring_new d cap) [].
Proof.
  split; cbn [ring_new data capacity sz first pos length]; [apply length_replicate|done|lia|lia| |done].
  destruct cap; [done|]. by rewrite Nat.mod_small by lia.
Qed.

Lemma clear_model r L : ring_model r L -> ring_model (clear r) [].
Proof.
  intros M. split; cbn [clear data capacity sz first pos length]; [apply M|done|lia|lia| |done].
  destruct (capacity r); [done|]. by rewrite Nat.mod_small by lia.
Qed.

(** Positions of the window are distinct. *)
Lemma mod_window n f i j : 0 < n -> i < n -> j < n -> (f + i) mod n = (f + j) mod n -> i = j.
Proof.
  intros Hn Hi Hj H. pose proof (Nat.div_mod_eq (f + i) n). pose proof (Nat.div_mod_eq (f + j) n). rewrite H in *.
  assert ((f + i) / n = (f + j) / n) by nia. lia.
Qed.

Lemma mod_succ n f i : 0 < n -> ((f + 1) mod n + i) mod n = (f + S i) mod n.
Proof. intros Hn. rewrite Nat.Div0.add_mod_idemp_l. f_equal. lia. Qed.

Lemma front_ok r L : ring_model r L -> front r = match L with [] => Throw ring_buffer_is_empty | x :: _ => Done x end.
Proof.
  intros M. unfold front. rewrite (rm_sz _ _ M). destruct L as [|x L]; [done|]. rewrite bool_decide_false by done.
  pose proof (rm_at _ _ M 0 x eq_refl) as Hx. pose proof (rm_cap _ _ M). cbn [length] in *.
  rewrite Nat.add_0_r, Nat.mod_small in Hx by (pose proof (rm_first _ _ M); lia). by rewrite Hx.
Qed.

Lemma push_back_zero r v : capacity r = 0 -> push_back v r = Throw capacity_is_zero.
Proof. intros H. unfold push_back. by rewrite bool_decide_true. Qed.

Lemma push_back_ok r L v : ring_model r L -> capacity r <> 0 ->
  exists r', push_back v r = Done r' /\ ring_model r' (lastn (capacity r) (L ++ [v])) /\ capacity r' = capacity r.
Proof.
  intros M Hc. pose proof (rm_cap _ _ M) as Hcap. pose proof (rm_first _ _ M) as Hf. pose proof (rm_data _ _ M) as Hd. pose proof (rm_pos _ _ M) as Hp.
  set (n := capacity r) in *. assert (pos r < n) as Hpn by (rewrite Hp; apply Nat.mod_upper_bound; lia).
  unfold push_back. fold n. rewrite bool_decide_false by done. rewrite (rm_sz _ _ M). unfold lastn. rewrite length_app. cbn [length].
  destruct (decide (length L = n)) as [Hfull|Hfree]; [rewrite bool_decide_true by done|rewrite bool_decide_false by done];
    rewrite set_at_ok by lia; cbn [of_option mbind outcome_bind]; eexists; (split; [reflexivity|]); (split; [|done]).
  - replace (length L + 1 - n) with 1 by lia. destruct L as [|x L]; cbn [length] in *; [lia|]. change (drop 1 ((x :: L) ++ [v])) with (L ++ [v]).
    split; cbn [data capacity sz first pos].
    + by rewrite length_insert.
    + rewrite length_app. cbn. lia.
    + rewrite length_app. cbn. lia.
    + left. apply Nat.mod_upper_bound. lia.
    + rewrite mod_succ by lia. rewrite Hp, Nat.Div0.add_mod_idemp_l, length_app. cbn [length]. f_equal. lia.
    + intros i y Hi. rewrite mod_succ by lia. destruct (decide (i = length L)) as [->|Hne].
      * rewrite lookup_app_r, Nat.sub_diag in Hi by lia. injection Hi as <-. rewrite Hp. apply list_lookup_insert_eq. rewrite Hd. apply Nat.mod_upper_bound. lia.
      * assert (i < length L) as Hlt by (apply lookup_lt_Some in Hi; rewrite length_app in Hi; cbn in Hi; lia). rewrite lookup_app_l in Hi by done.
        rewrite list_lookup_insert_ne; [by apply (rm_at _ _ M (S i))|]. rewrite Hp, Hfull.
        replace (first r + n) with (first r + 0 + 1 * n) by lia. rewrite Nat.Div0.mod_add. intros Heq. apply mod_window in Heq; lia.
  - replace (length L + 1 - n) with 0 by lia. rewrite drop_0. split; cbn [data capacity sz first pos].
    + by rewrite length_insert.
    + by rewrite length_app.
    + rewrite length_app. cbn. lia.
    + lia.
    + rewrite Hp, Nat.Div0.add_mod_idemp_l, length_app. cbn [length]. f_equal. lia.
    + intros i y Hi. destruct (decide (i = length L)) as [->|Hne].
      * rewrite lookup_app_r, Nat.sub_diag in Hi by lia. injection Hi as <-. rewrite Hp. apply list_lookup_insert_eq. rewrite Hd. apply Nat.mod_upper_bound. lia.
      * assert (i < length L) as Hlt by (apply lookup_lt_Some in Hi; rewrite length_app in Hi; cbn in Hi; lia). rewrite lookup_app_l in Hi by done.
        rewrite list_lookup_insert_ne; [by apply (rm_at _ _ M i)|]. rewrite Hp. intros Heq. apply mod_window in Heq; lia.
Qed.

Lemma pop_front_ok r L : ring_model r L ->
  match L with
  | [] => pop_front r = Throw ring_buffer_is_empty
  | x :: L' => exists r', pop_front r = Done (x, r') /\ ring_model r' L' /\ capacity r' = capacity r
  end.
Proof.
  intros M. pose proof (front_ok r L M) as Hf. unfold pop_front. unfold front in Hf. rewrite (rm_sz _ _ M) in *. destruct L as [|x L]; [done|].
  rewrite bool_decide_false in * by done. rewrite Hf. cbn [mbind outcome_bind]. pose proof (rm_cap _ _ M) as Hc. cbn [length] in *.
  eexists. split; [reflexivity|]. split; [|done]. split; cbn [data capacity sz first pos].
  - apply M.
  - lia.
  - lia.
  - left. apply Nat.mod_upper_bound. lia.
  - rewrite mod_succ by lia. apply (rm_pos _ _ M).
  - intros i y Hi. rewrite mod_succ by lia. by apply (rm_at _ _ M (S i)).
Qed.

Lemma rat_ok r L i : ring_model r L -> rat r i = match reverse L !! i with Some x => Done x | None => Throw index_out_of_bounds end.
Proof.
  intros M. unfold rat. rewrite (rm_sz _ _ M). destruct (decide (length L <= i)) as [Hle|Hlt]; [rewrite bool_decide_true by done|rewrite bool_decide_false by done].
  - by rewrite lookup_ge_None_2 by (rewrite length_reverse; lia).
  - rewrite reverse_lookup by lia. destruct (lookup_lt_is_Some_2 L (length L - S i)) as [x Hx]; [lia|]. rewrite Hx.
    replace (first r + length L - i - 1) with (first r + (length L - S i)) by lia. by rewrite (rm_at _ _ M _ _ Hx).
Qed.

Lemma to_vector_ok r L : ring_model r L -> to_vector r = Done L.
Proof.
  intros M. unfold to_vector. rewrite (rm_sz _ _ M).
  enough (forall k, k <= length L -> foldO (E := ring_error) (fun i l => x ← of_option (data r !! ((first r + i) mod capacity r)); Done (l ++ [x])) (seq k (length L - k)) (take k L) = Done L) as H.
  { specialize (H 0 ltac:(lia)). by rewrite Nat.sub_0_r in H. }
  intros k. remember (length L - k) as m eqn:Hm. revert k Hm. induction m as [|m IH]; intros k Hm Hk; cbn [seq foldO].
  - f_equal. apply take_ge. lia.
  - destruct (lookup_lt_is_Some_2 L k) as [x Hx]; [lia|]. rewrite (rm_at _ _ M k x Hx). cbn [of_option mbind outcome_bind].
    rewrite <- (take_S_r _ _ x Hx). apply IH; lia.
Qed.

(** The ring buffer is a queue that keeps its last [capacity] elements, and
    its exceptions are thrown exactly when they should be: pushing throws if and
    only if the capacity is zero, otherwise the oldest element makes room when
    the buffer is full; [front] and [pop_front] throw if and only if it is empty;
    [rat(i)] is the [i]-th element from the end and throws if and only if there
    are not so many; nothing reads or writes outside of the array. *)
Theorem ring_buffer_queue r L : ring_model r L ->
  (forall v, match push_back v r with
             | Done r' => capacity r <> 0 /\ ring_model r' (lastn (capacity r) (L ++ [v]))
             | Throw e => e = capacity_is_zero /\ capacity r = 0
             | Undefined => False
             end) /\
  front r = match L with [] => Throw ring_buffer_is_empty | x :: _ => Done x end /\
  match pop_front r with
  | Done (x, r') => exists L', L = x :: L' /\ ring_model r' L'
  | Throw e => e = ring_buffer_is_empty /\ L = []
  | Undefined => False
  end /\
  (forall i, rat r i = match reverse L !! i with Some x => Done x | None => Throw index_out_of_bounds end) /\
  to_vector r = Done L /\ ring_model (clear r) [] /\ empty r = bool_decide (L = []) /\ size r = length L.
Proof.
  intros M. split_and!.
  - intros v. destruct (decide (capacity r = 0)) as [H0|Hc]; [by rewrite push_back_zero|]. by destruct (push_back_ok r L v M Hc) as (r' & -> & ? & _).
  - by apply front_ok.
  - pose proof (pop_front_ok r L M) as H. destruct L as [|x L]; [by rewrite H|]. destruct H as (r' & -> & ? & _). by exists L.
  - intros i. by apply rat_ok.
  - by apply to_vector_ok.
  - by apply (clear_model r L).
  - unfold empty. rewrite (rm_sz _ _ M). by destruct L.
  - apply M.
Qed.
End Ring.

Lemma ring_buffer_queue_witness : exists r, push_back 7%Z (ring_new 0%Z 1) = Done r /\ ring_model r [7]%Z /\ rat r 1 = Throw index_out_of_bounds.
Proof.
  destruct (ring_buffer_queue (ring_new 0%Z 1) [] (ring_new_model 0%Z 1)) as [Hp _]. specialize (Hp 7%Z). cbn in Hp. destruct Hp as [_ Hm].
  eexists. split; [reflexivity|]. split; [exact Hm|reflexivity].
Defined.

(** [back] answers the element that the next push overwrites. *)
Lemma ring_back_is_not_last : exists r, push_back 7%Z (ring_new 0%Z 2) = Done r /\ ring_model r [7]%Z /\ back r = Done 0%Z.
Proof. eexists. split; [reflexivity|]. split; [|done]. split; cbn; try lia. intros [|i] x; [by intros [= <-]|done]. Qed.

(** * Repetition penalties *)

Definition occ (t : Z) (l : list Z) : Z := Z.of_nat (length (filter (eq t) l)).

Lemma occ_app t l1 l2 : (occ t (l1 ++ l2) = occ t l1 + occ t l2)%Z.
Proof. unfold occ. rewrite filter_app, length_app. lia. Qed.

Lemma occ_one t x : occ t [x] = if decide (t = x) then 1%Z else 0%Z.
Proof. unfold occ. case_decide as H; [by rewrite filter_cons_True|by rewrite filter_cons_False]. Qed.

Lemma occ_bound t l : (0 <= occ t l <= Z.of_nat (length l))%Z.
Proof. unfold occ. pose proof (length_filter (eq t) l). lia. Qed.

(** The map holds the tokens that occur in [l], with their counts. *)
Definition counts_spec (m : gmap Z Z) (l : list Z) : Prop := forall t, m !! t = if bool_decide (occ t l = 0)%Z then None else Some (occ t l).

Lemma counts_of m l t : counts_spec m l -> count_of m t = occ t l.
Proof. intros H. unfold count_of. rewrite H. case_bool_decide as E; cbn; [by rewrite E|done]. Qed.

Lemma counts_add m l t : counts_spec m l -> counts_spec (<[t := (count_of m t + 1)%Z]> m) (l ++ [t]).
Proof.
  intros H x. rewrite (counts_of m l t H), occ_app, occ_one. pose proof (occ_bound t l). case_decide as E.
  - subst. rewrite lookup_insert_eq, bool_decide_false by lia. done.
  - rewrite lookup_insert_ne, Z.add_0_r by done. apply H.
Qed.

Lemma counts_drop m l t : counts_spec m (t :: l) ->
  let n := (count_of m t - 1)%Z in counts_spec (if bool_decide (n = 0)%Z then delete t m else <[t := n]> m) l.
Proof.
  intros H n. assert (n = occ t l) as ->.
  { unfold n. rewrite (counts_of m _ t H). change (t :: l) with ([t] ++ l). rewrite occ_app, occ_one, decide_True by done. lia. }
  intros x. specialize (H x). change (t :: l) with ([t] ++ l) in H. rewrite occ_app, occ_one in H. destruct (decide (x = t)) as [->|Hne].
  - clear H. case_bool_decide as E; [by rewrite lookup_delete_eq|by rewrite lookup_insert_eq].
  - rewrite Z.add_0_l in H. rewrite <- H. clear H. case_bool_decide; [by rewrite lookup_delete_ne|by rewrite lookup_insert_ne].
Qed.

Lemma lastn_length {A} n (l : list A) : length (lastn n l) = min n (length l).
Proof. unfold lastn. rewrite length_drop. lia. Qed.

Lemma lastn_snoc {A} n (l : list A) x : lastn n (lastn n l ++ [x]) = lastn n (l ++ [x]).
Proof.
  unfold lastn at 2. destruct (decide (length l <= n)) as [Hle|Hgt]; [by replace (length l - n) with 0 by lia|].
  unfold lastn. rewrite !length_app, length_drop. cbn [length]. set (j := length l - n) in *.
  rewrite <- (take_drop j l) at 4. rewrite <- app_assoc.
  replace (length l + 1 - n) with (length (take j l) + 1) by (rewrite length_take; lia). rewrite drop_app_add. f_equal. lia.
Qed.

Section Penalties.
Context `{FO : FloatOps}.

(** The state after the tokens [W] of the window. *)
Record pen_inv (c : llama_sampler_penalties) (W : list Z) : Prop := {
  pi_ring  : ring_model (prev c) W;
  pi_cap   : capacity (prev c) = Z.to_nat (penalty_last_n c);
  pi_n     : (0 < penalty_last_n c < INT32_MAX)%Z;
  pi_count : counts_spec (token_count c) W;
}.

Definition same_params (c c' : llama_sampler_penalties) : Prop :=
  penalty_last_n c' = penalty_last_n c /\ penalty_repeat c' = penalty_repeat c /\ penalty_freq c' = penalty_freq c /\ penalty_present c' = penalty_present c.

Lemma accept_ok c W t : pen_inv c W -> exists c', llama_sampler_penalties_accept t c = Done c' /\
  pen_inv c' (lastn (Z.to_nat (penalty_last_n c)) (W ++ [t])) /\ same_params c c'.
Proof.
  intros I. pose proof (pi_n _ _ I) as Hn. pose proof (pi_ring _ _ I) as M. pose proof (rm_cap _ _ M) as Hcap. rewrite (pi_cap _ _ I) in Hcap.
  unfold llama_sampler_penalties_accept. rewrite bool_decide_false by lia. pose proof (counts_add _ _ t (pi_count _ _ I)) as Hadd.
  rewrite (counts_of _ _ t (pi_count _ _ I)) in Hadd |- *. pose proof (occ_bound t W). unfold INT32_MAX in Hn.
  rewrite i32_chk_Some by (unfold INT32_MIN, INT32_MAX; lia). cbn [of_option mbind outcome_bind]. set (m := <[t := _]> (token_count c)) in *.
  unfold u64_wrap. rewrite Z.mod_small by lia. unfold size. rewrite (rm_sz _ _ M).
  assert (exists m', (if bool_decide (penalty_last_n c <= Z.of_nat (length W))%Z then old ← front (prev c); n ← of_option (i32_chk (count_of m old - 1));
      Done (if bool_decide (n = 0)%Z then delete old m else <[old := n]> m) else Done m) = Done m' /\
      counts_spec m' (lastn (Z.to_nat (penalty_last_n c)) (W ++ [t]))) as (m' & -> & Hm').
  { unfold lastn. rewrite length_app. cbn [length]. case_bool_decide as Hfull.
    - replace (length W + 1 - Z.to_nat (penalty_last_n c)) with 1 by lia. rewrite (front_ok _ _ M). destruct W as [|x W]; cbn [length] in *; [lia|].
      cbn [mbind outcome_bind]. change ((x :: W) ++ [t]) with (x :: (W ++ [t])) in *. change (drop 1 (x :: (W ++ [t]))) with (W ++ [t]).
      pose proof (occ_bound x (x :: W ++ [t])) as Hb. cbn [length] in Hb. rewrite length_app in Hb. cbn [length] in Hb.
      rewrite i32_chk_Some by (rewrite (counts_of m _ x Hadd); unfold INT32_MIN, INT32_MAX; lia). cbn [of_option mbind outcome_bind].
      eexists. split; [reflexivity|]. by apply counts_drop.
    - replace (length W + 1 - Z.to_nat (penalty_last_n c)) with 0 by lia. rewrite drop_0. by exists m. }
  cbn [mbind outcome_bind]. destruct (push_back_ok (prev c) W t M) as (r & -> & Mr & Hcr); [rewrite (pi_cap _ _ I); lia|]. cbn [mbind outcome_bind].
  eexists. split; [reflexivity|]. rewrite (pi_cap _ _ I) in Mr. split; [|done]. split; cbn [with_prev prev penalty_last_n token_count]; [done|by rewrite Hcr, (pi_cap _ _ I)|done|done].
Qed.

(** The logit of a candidate that occurs [n] times in the window. *)
Definition pen_candidate (c : llama_sampler_penalties) (W : list Z) (d : llama_token_data) : llama_token_data :=
  if bool_decide (occ (id d) W = 0)%Z then d else mkData (id d) (penalize c (occ (id d) W) (logit d)).

Lemma penalties_apply_ok `{BM : BuildMode} c W cur : pen_inv c W ->
  llama_sampler_penalties_apply c cur =
    if feq (penalty_repeat c) fone && feq (penalty_freq c) fzero && feq (penalty_present c) fzero then Some cur
    else Some (mkArray (pen_candidate c W <$> cand cur) false).
Proof.
  intros I. unfold llama_sampler_penalties_apply. pose proof (pi_n _ _ I) as Hn. rewrite bool_decide_false by lia. cbn [orb].
  destruct (_ && _ && _); [done|].
  match goal with |- mbind _ (foldM ?F _ ?S0) = _ => destruct (foldM_seq F (fun i l => l = (pen_candidate c W <$> take i (cand cur)) ++ drop i (cand cur)) 0 (length (cand cur)) S0)
    as (l' & Hrun & Hl) end; [done| |].
  - intros i l [_ Hi] ->. destruct (lookup_lt_is_Some_2 (cand cur) i) as [d Hd]; [done|]. assert (length (pen_candidate c W <$> take i (cand cur)) = i) as Hlen.
    { rewrite length_fmap, length_take. lia. }
    assert (((pen_candidate c W <$> take i (cand cur)) ++ drop i (cand cur)) !! i = Some d) as ->.
    { rewrite lookup_app_r by lia. rewrite Hlen, Nat.sub_diag, lookup_drop. by rewrite Nat.add_0_r. }
    cbn [mbind option_bind]. rewrite (drop_S _ d) by done. replace (i + 1) with (S i) by lia. rewrite (take_S_r _ _ d) by done. rewrite fmap_app, <- app_assoc. cbn [fmap list_fmap app].
    rewrite (pi_count _ _ I). change (pen_candidate c W d) with (if bool_decide (occ (id d) W = 0)%Z then d else mkData (id d) (penalize c (occ (id d) W) (logit d))). pose proof (occ_bound (id d) W). pose proof (rm_cap _ _ (pi_ring _ _ I)) as Hcap. rewrite (pi_cap _ _ I) in Hcap.
    case_bool_decide as E; [eexists; split; reflexivity|].
    rewrite c_assert_true by (rewrite !bool_decide_true by lia; done). cbn [mbind option_bind]. rewrite set_at_ok by (rewrite length_app; cbn [length]; lia).
    eexists. split; [reflexivity|]. rewrite insert_app_r_alt by lia. by rewrite Hlen, Nat.sub_diag.
  - rewrite Hrun. cbn [mbind option_bind]. rewrite Hl. cbn [Nat.add]. by rewrite take_ge, drop_ge, app_nil_r by lia.
Qed.
End Penalties.

(** ** Runs *)

Inductive sampler_event := Accept (token : Z) | Reset.

Definition exec_event `{FO : FloatOps} (e : sampler_event) (c : llama_sampler_penalties) : outcome ring_error llama_sampler_penalties :=
  match e with Accept t => llama_sampler_penalties_accept t c | Reset => Done (llama_sampler_penalties_reset c) end.

(** The tokens since the last reset. *)
Definition history (es : list sampler_event) : list Z := foldl (fun h e => match e with Accept t => h ++ [t] | Reset => [] end) [] es.

(** C39: from [llama_sampler_init_penalties] through any accepted tokens and
    resets, [token_count] is exactly the multiset of the last [penalty_last_n]
    tokens since the last reset, so the assertion of [apply] holds and [apply]
    changes the logit of exactly those candidates that occur among them, by their
    number of occurrences. *)
Theorem penalties_count_window `{FO : FloatOps} `{BM : BuildMode} (last_n : Z) (repeat freq present : float) (c0 : llama_sampler_penalties)
    (es : list sampler_event) (cur : llama_token_data_array) :
  llama_sampler_init_penalties last_n repeat freq present = Some c0 -> (last_n < INT32_MAX)%Z ->
  let W := lastn (Z.to_nat last_n) (history es) in
  exists c, foldO exec_event es c0 = Done c /\ to_vector (prev c) = Done W /\
    (forall t, token_count c !! t = if bool_decide (occ t W = 0)%Z then None else Some (occ t W)) /\
    llama_sampler_penalties_apply c cur =
      Some (mkArray ((fun d => if bool_decide (occ (id d) W = 0)%Z then d else mkData (id d) (penalize c0 (occ (id d) W) (logit d))) <$> cand cur) false).
Proof.
  intros Hi Hn W. unfold llama_sampler_init_penalties in Hi.
  destruct (bool_decide (Z.max last_n 0 = 0)%Z || _) eqn:E; [done|]. injection Hi as Hc0. apply orb_false_iff in E as [Hpos%bool_decide_eq_false Hoff].
  assert (pen_inv c0 []) as I0.
  { subst c0. split; cbn [prev penalty_last_n token_count]; [apply ring_new_model|done|lia|]. intros t. by rewrite lookup_empty. }
  assert (penalty_last_n c0 = last_n) as Hl0 by (subst c0; cbn; lia).
  enough (exists c, foldO exec_event es c0 = Done c /\ pen_inv c W /\ same_params c0 c) as (c & Hrun & I & S).
  { exists c. split; [done|]. split; [apply to_vector_ok, I|]. split; [apply I|]. rewrite (penalties_apply_ok c W cur I). destruct S as (H1 & H2 & H3 & H4).
    rewrite H2, H3, H4. subst c0. cbn [penalty_repeat penalty_freq penalty_present] in *. rewrite Hoff. do 2 f_equal. apply list_fmap_ext. intros i d _.
    unfold pen_candidate, penalize. by rewrite H2, H3, H4. }
  clear Hc0. subst W. unfold history. induction es as [|e es IH] using rev_ind.
  - exists c0. split; [done|]. split; [|done]. cbn [foldl]. unfold lastn. by rewrite drop_nil.
  - destruct IH as (c & Hrun & I & S). rewrite foldl_app. cbn [foldl].
    rewrite foldO_app, Hrun. cbn [mbind outcome_bind foldO]. destruct e as [t|]; cbn [exec_event mbind outcome_bind].
    + destruct (accept_ok c _ t I) as (c' & -> & I' & S'). cbn [mbind outcome_bind]. exists c'. split; [done|]. destruct S as (H1 & H2 & H3 & H4), S' as (H1' & H2' & H3' & H4').
      split; [|split_and!; congruence]. rewrite H1, Hl0 in I'. by rewrite lastn_snoc in I'.
    + eexists. split; [reflexivity|]. split; [|done]. split; cbn [llama_sampler_penalties_reset with_prev prev penalty_last_n token_count].
      * unfold lastn. rewrite drop_nil. apply (clear_model _ _ (pi_ring _ _ I)).
      * apply I.
      * apply I.
      * intros t. unfold lastn. by rewrite drop_nil.
Qed.

Definition demo_cands : llama_token_data_array (FO := demo_floats) := mkArray (FO := demo_floats) [mkData (FO := demo_floats) 5 100; mkData (FO := demo_floats) 7 100]%Z true.

Definition demo_pen : llama_sampler_penalties (FO := demo_floats) := mkPen (FO := demo_floats) 2 1%Z 3%Z 0%Z (ring_new 0%Z 2) ∅.

(** Two occurrences of 5 in a window of two tokens, then one of 7. *)
Lemma penalties_count_window_witness : exists c, foldO (exec_event (FO := demo_floats)) [Accept 5; Accept 5; Accept 7] demo_pen = Done c /\
  llama_sampler_penalties_apply (FO := demo_floats) (BM := debug_build) c demo_cands =
    Some (mkArray (FO := demo_floats) [mkData (FO := demo_floats) 5 97; mkData (FO := demo_floats) 7 97]%Z false).
Proof.
  destruct (penalties_count_window (FO := demo_floats) (BM := debug_build) 2 1%Z 3%Z 0%Z demo_pen [Accept 5; Accept 5; Accept 7]%Z demo_cands) as (c & H1 & _ & _ & H2);
    [reflexivity|reflexivity|]. exists c. split; [exact H1|]. exact H2.
Defined.

(** The clone of a sampler has the tokens of the window, but no counts: it does
    not penalise them, and when they leave the window their counts become
    negative, which the assertion of [apply] forbids. *)
Lemma penalties_clone_loses_counts : exists c c', foldO (exec_event (FO := demo_floats)) [Accept 5; Accept 5] demo_pen = Done c /\
  llama_sampler_penalties_clone (FO := demo_floats) c = Some c' /\
  llama_sampler_penalties_apply (FO := demo_floats) (BM := release_build) c' demo_cands = Some (mkArray (FO := demo_floats) (cand (FO := demo_floats) demo_cands) false) /\
  exists c'', llama_sampler_penalties_accept (FO := demo_floats) 7 c' = Done c'' /\
    llama_sampler_penalties_apply (FO := demo_floats) (BM := debug_build) c'' demo_cands = None.
Proof.
  eexists _, _. split; [vm_compute; reflexivity|]. split; [vm_compute; reflexivity|]. split; [vm_compute; reflexivity|].
  eexists. split; vm_compute; reflexivity.
Qed.

End SamplerOk.
