(* ===== verification/SamplerDry.v ===== *)
(** The DRY sampler: the linear algorithm that finds how far each position
    repeats the end of the context agrees with comparing the texts, the restart
    sequences limit it as described, and each candidate is penalised by the
    longest repetition it would continue. *)

From S2P Require Import Prelude.
From S2P Require Import Sampler.
From S2P Require Import SamplerOk.
Import Sampler.Sampler SamplerOk.SamplerOk.

Module SamplerDry.

(** * Common prefixes *)

Fixpoint common_prefix (l1 l2 : list Z) : nat :=
  match l1, l2 with
  | x :: l1, y :: l2 => if bool_decide (x = y) then S (common_prefix l1 l2) else 0
  | _, _ => 0
  end.

Lemma common_prefix_unique l1 : forall l2 m, m <= length l1 -> m <= length l2 -> (forall j, j < m -> l1 !! j = l2 !! j) ->
  (m = length l1 \/ m = length l2 \/ l1 !! m <> l2 !! m) -> common_prefix l1 l2 = m.
Proof.
  induction l1 as [|x l1 IH]; intros l2 m H1 H2 Heq Hend; cbn [length common_prefix] in *; [lia|]. destruct l2 as [|y l2]; cbn [length] in *; [lia|].
  destruct m as [|m].
  - destruct Hend as [?|[?|Hne]]; [done|done|]. rewrite bool_decide_false; [done|]. intros ->. by apply Hne.
  - pose proof (Heq 0 ltac:(lia)) as Hxy. cbn in Hxy. injection Hxy as ->. rewrite bool_decide_true by done. f_equal. apply IH; [lia|lia| |].
    + intros j Hj. apply (Heq (S j)). lia.
    + destruct Hend as [?|[?|Hne]]; [left; lia|right; left; lia|right; right; done].
Qed.

Lemma common_prefix_spec l1 : forall l2, let m := common_prefix l1 l2 in
  m <= length l1 /\ m <= length l2 /\ (forall j, j < m -> l1 !! j = l2 !! j) /\ (m = length l1 \/ m = length l2 \/ l1 !! m <> l2 !! m).
Proof.
  induction l1 as [|x l1 IH]; intros l2; cbn [common_prefix]; [cbn; split_and!; [lia|lia|lia|by left]|]. destruct l2 as [|y l2]; [cbn; split_and!; [lia|lia|lia|right; by left]|].
  destruct (decide (x = y)) as [->|Hne]; [rewrite bool_decide_true by done|rewrite bool_decide_false by done].
  - destruct (IH l2) as (H1 & H2 & H3 & H4). cbn [length]. split_and!; [lia|lia| |].
    + intros [|j] Hj; [done|]. apply H3. lia.
    + destruct H4 as [->|[->|H4]]; [by left|right; by left|right; right; done].
  - cbn [length]. split_and!; [lia|lia|lia|]. right. right. cbn. congruence.
Qed.

(** How many tokens before position [k] (counted from the end, where [W] begins)
    repeat the end of the context. *)
Definition repeat_at (W : list Z) (k : nat) : nat := common_prefix (drop k W) W.

Lemma repeat_at_unique W k m : k + m <= length W -> (forall j, j < m -> W !! (k + j) = W !! j) -> (k + m = length W \/ W !! (k + m) <> W !! m) -> repeat_at W k = m.
Proof.
  intros Hm Heq Hend. unfold repeat_at. apply common_prefix_unique; rewrite ?length_drop; [lia|lia| |].
  - intros j Hj. rewrite lookup_drop. by apply Heq.
  - rewrite lookup_drop. destruct Hend as [?|?]; [left; lia|by right; right].
Qed.

Lemma repeat_at_spec W k : k <= length W -> k + repeat_at W k <= length W /\ (forall j, j < repeat_at W k -> W !! (k + j) = W !! j) /\
  (k + repeat_at W k = length W \/ W !! (k + repeat_at W k) <> W !! repeat_at W k).
Proof.
  intros Hk. destruct (common_prefix_spec (drop k W) W) as (H1 & H2 & H3 & H4). fold (repeat_at W k) in *. rewrite length_drop in *. split_and!; [lia| |].
  - intros j Hj. rewrite <- lookup_drop. by apply H3.
  - rewrite lookup_drop in H4. destruct H4 as [?|[?|?]]; [left; lia|left; lia|by right].
Qed.

Lemma repeat_at_ge W k m : k + m <= length W -> (forall j, j < m -> W !! (k + j) = W !! j) -> m <= repeat_at W k.
Proof.
  intros Hm Heq. destruct (repeat_at_spec W k ltac:(lia)) as (H1 & _ & [H3|H3]); [lia|]. destruct (decide (m <= repeat_at W k)); [done|].
  exfalso. apply H3, Heq. lia.
Qed.

(** * Step 2 *)

Section Z.
Context (r : ring_buffer Z) (W : list Z) (Hrat : forall i x, W !! i = Some x -> rat r i = Done x).
#[local] Abbreviation n := (length W).

Lemma extend_ok k fuel : forall i, k <= i <= n -> n - i < fuel -> 0 < k -> exists i', extend fuel r n k i = Done i' /\ i <= i' <= n /\
  (forall j, i <= j < i' -> W !! j = W !! (j - k)) /\ (i' = n \/ W !! i' <> W !! (i' - k)).
Proof.
  induction fuel as [|fuel IH]; intros i Hi Hf Hk; [lia|]. cbn [extend].
  destruct (decide (i < n)) as [Hlt|Hge]; [rewrite bool_decide_true by done|rewrite bool_decide_false by done; exists i; split; [done|]; split; [lia|]; split; [lia|left; lia]].
  destruct (lookup_lt_is_Some_2 W i) as [x Hx]; [lia|]. destruct (lookup_lt_is_Some_2 W (i - k)) as [y Hy]; [lia|].
  rewrite (Hrat _ _ Hx). cbn [mbind outcome_bind]. rewrite (Hrat _ _ Hy). cbn [mbind outcome_bind].
  destruct (decide (x = y)) as [->|Hne]; [rewrite bool_decide_true by done|rewrite bool_decide_false by done].
  - destruct (IH (S i)) as (i' & -> & Hi' & Heq & Hend); [lia|lia|done|]. exists i'. split; [done|]. split; [lia|]. split; [|done].
    intros j Hj. destruct (decide (j = i)) as [->|]; [congruence|]. apply Heq. lia.
  - exists i. split; [done|]. split; [lia|]. split; [lia|]. right. congruence.
Qed.

(** After the iterations below [k]: the counts, and a box [lt .. rt] that repeats
    the end. *)
Record z_inv (limit k : nat) (counts : list nat) (lt rt : nat) : Prop := {
  zi_len    : length counts = n;
  zi_counts : forall j, 1 <= j < k -> counts !! (n - 1 - j) = Some (min (repeat_at W j) limit);
  zi_box    : rt = 0 \/ 1 <= lt < k /\ lt <= rt < n /\ forall i, lt <= i <= rt -> W !! i = W !! (i - lt);
}.

Lemma z_inv_set limit k counts lt rt lt' rt' m : z_inv limit k counts lt rt -> 1 <= k < n -> min m limit = min (repeat_at W k) limit ->
  (rt' = 0 \/ 1 <= lt' < k + 1 /\ lt' <= rt' < n /\ forall i, lt' <= i <= rt' -> W !! i = W !! (i - lt')) ->
  exists counts', set_at (n - 1 - k) (min m limit) counts = Some counts' /\ z_inv limit (k + 1) counts' lt' rt'.
Proof.
  intros I Hk Hm Hbox. pose proof (zi_len _ _ _ _ _ I) as Hl. rewrite set_at_ok by lia. eexists. split; [reflexivity|]. split; [by rewrite length_insert| |done].
  intros j Hj. destruct (decide (j = k)) as [->|Hne]; [rewrite list_lookup_insert_eq by lia; by rewrite Hm|].
  rewrite list_lookup_insert_ne by lia. apply (zi_counts _ _ _ _ _ I). lia.
Qed.

Lemma z_step_ok limit k counts lt rt : z_inv limit k counts lt rt -> 1 <= k < n ->
  exists counts' lt' rt', z_step r n limit k (counts, (lt, rt)) = Done (counts', (lt', rt')) /\ z_inv limit (k + 1) counts' lt' rt'.
Proof.
  intros I Hk. unfold z_step. destruct (decide (rt < k)) as [Hout|Hin]; [rewrite bool_decide_true by done|rewrite bool_decide_false by done].
  - destruct (extend_ok k (S n) k) as (i & -> & Hi & Heq & Hend); [lia|lia|lia|]. cbn [mbind outcome_bind].
    assert (repeat_at W k = i - k) as Hz.
    { apply repeat_at_unique; [lia| |].
      - intros j Hj. rewrite Heq by lia. f_equal. lia.
      - replace (k + (i - k)) with i by lia. destruct Hend as [?|?]; [by left|by right]. }
    destruct (z_inv_set limit k counts lt rt (if bool_decide (0 < i - k) then k else lt) (if bool_decide (0 < i - k) then i - 1 else rt) (i - k) I Hk)
      as (counts' & Hset & I'); [by rewrite Hz| |].
    { case_bool_decide as Hpos.
      - right. split; [lia|]. split; [lia|]. intros j Hj. apply Heq. lia.
      - destruct (zi_box _ _ _ _ _ I) as [?|(? & ? & ?)]; [by left|right]. split; [lia|]. by split. }
    rewrite Hset. cbn [of_option mbind outcome_bind]. eexists _, _, _. split; [|exact I']. by case_bool_decide.
  - destruct (zi_box _ _ _ _ _ I) as [->|(Hlt & Hrt & Hbox)]; [lia|]. rewrite (zi_counts _ _ _ _ _ I) by lia. cbn [of_option mbind outcome_bind].
    set (p := k - lt) in *. destruct (repeat_at_spec W p ltac:(lia)) as (Hz1 & Hz2 & Hz3). set (z := repeat_at W p) in *.
    assert (forall j, j < z -> j < rt - k + 1 -> W !! (k + j) = W !! j) as Hcopy.
    { intros j Hj1 Hj2. rewrite Hbox by lia. replace (k + j - lt) with (p + j) by lia. by apply Hz2. }
    destruct (decide (min z limit < rt - k + 1)) as [Hc|Hc]; [rewrite bool_decide_true by done|rewrite bool_decide_false by done].
    + assert (min (min z limit) limit = min (repeat_at W k) limit) as Hm.
      { destruct (decide (z < rt - k + 1)) as [Hzr|Hzr].
        - assert (repeat_at W k = z) as ->; [|lia]. apply repeat_at_unique; [lia|intros j Hj; apply Hcopy; lia|]. right. rewrite Hbox by lia.
          replace (k + z - lt) with (p + z) by lia. destruct Hz3 as [?|?]; [lia|done].
        - pose proof (repeat_at_ge W k (rt - k + 1) ltac:(lia)) as Hge. specialize (Hge ltac:(intros j Hj; apply Hcopy; lia)). lia. }
      destruct (z_inv_set limit k counts lt rt lt rt (min z limit) I Hk Hm) as (counts' & -> & I'); [right; split; [lia|by split]|].
      cbn [of_option mbind outcome_bind]. by exists counts', lt, rt.
    + destruct (extend_ok k (S n) (rt + 1)) as (i & -> & Hi & Heq & Hend); [lia|lia|lia|]. cbn [mbind outcome_bind].
      assert (forall j, k <= j < i -> W !! j = W !! (j - k)) as Hall.
      { intros j Hj. destruct (decide (j <= rt)); [|apply Heq; lia]. replace j with (k + (j - k)) at 1 by lia. apply Hcopy; lia. }
      assert (repeat_at W k = i - k) as Hz.
      { apply repeat_at_unique; [lia| |].
        - intros j Hj. rewrite Hall by lia. f_equal. lia.
        - replace (k + (i - k)) with i by lia. destruct Hend as [?|?]; [by left|by right]. }
      destruct (z_inv_set limit k counts lt rt k (i - 1) (i - k) I Hk) as (counts' & -> & I'); [by rewrite Hz|right; split; [lia|]; split; [lia|]; intros j Hj; apply Hall; lia|].
      cbn [of_option mbind outcome_bind]. by exists counts', k, (i - 1).
Qed.

End Z.

Section Steps.
Context (r : ring_buffer Z) (W : list Z) (Hrat : forall i x, W !! i = Some x -> rat r i = Done x).
#[local] Abbreviation n := (length W).

(** All repeat counts, from the end of the table. *)
Lemma z_loop_ok limit : exists counts st, foldO (z_step r n limit) (seq 1 (n - 1)) (replicate n 0, (0, 0)) = Done (counts, st) /\
  length counts = n /\ forall k, 1 <= k < n -> counts !! (n - 1 - k) = Some (min (repeat_at W k) limit).
Proof.
  destruct (foldO_seq (z_step r n limit) (fun k st => z_inv W limit k (fst st) (fst (snd st)) (snd (snd st))) 1 (n - 1) (replicate n 0, (0, 0)))
    as ([counts st] & Hrun & I).
  - cbn [fst snd]. split; [apply length_replicate|lia|by left].
  - intros k [counts [lt rt]] Hk I. cbn [fst snd] in *. destruct (z_step_ok r W Hrat limit k counts lt rt I ltac:(lia)) as (c' & lt' & rt' & -> & I').
    by exists (c', (lt', rt')).
  - exists counts, st. split; [done|]. cbn [fst snd] in I. split; [apply I|]. intros k Hk. apply (zi_counts _ _ _ _ _ _ I). lia.
Qed.

(** ** Step 1: the restart sequences *)

(** The sequence [b] (its head and its tail) occurs with its head at position
    [i]. *)
Definition breaker_at (b : Z * list Z) (i : nat) : Prop :=
  W !! i = Some (fst b) /\ length (snd b) <= i /\ forall o, o < length (snd b) -> snd b !! o = W !! (i - o - 1).

(** The limit: the distance to the end of the longest sequence at the first
    position where one begins, the whole length if there is none. *)
Definition limit_is (breakers : list (Z * list Z)) (limit : nat) : Prop :=
  (limit = n /\ forall i b, b ∈ breakers -> ~ breaker_at b i) \/
  exists i b, b ∈ breakers /\ breaker_at b i /\ limit = i - length (snd b) /\
    (forall b', b' ∈ breakers -> breaker_at b' i -> length (snd b') <= length (snd b)) /\
    forall i' b', i' < i -> b' ∈ breakers -> ~ breaker_at b' i'.

Lemma tail_matches_ok i tail : forall offset, i < n -> offset + length tail <= i ->
  exists b, tail_matches r i offset tail = Done b /\ (b = true <-> forall o, o < length tail -> tail !! o = W !! (i - (offset + o) - 1)).
Proof.
  induction tail as [|t tail IH]; intros offset Hi Hl; cbn [tail_matches length] in *; [exists true; split; [done|split; [lia|done]]|].
  destruct (lookup_lt_is_Some_2 W (i - offset - 1)) as [x Hx]; [lia|]. rewrite (Hrat _ _ Hx). cbn [mbind outcome_bind].
  destruct (decide (t = x)) as [->|Hne]; [rewrite bool_decide_true by done|rewrite bool_decide_false by done].
  - destruct (IH (S offset)) as (b & -> & Hb); [done|lia|]. exists b. split; [done|]. rewrite Hb. split.
    + intros H [|o] Ho; [by rewrite Nat.add_0_r|]. change ((x :: tail) !! S o) with (tail !! o). rewrite H by lia. f_equal. lia.
    + intros H o Ho. specialize (H (S o) ltac:(lia)). change ((x :: tail) !! S o) with (tail !! o) in H. rewrite H. f_equal. lia.
  - exists false. split; [done|]. split; [done|]. intros H. specialize (H 0 ltac:(lia)). rewrite Nat.add_0_r, Hx in H. cbn in H. congruence.
Qed.

Lemma longest_match_ok breakers i token : W !! i = Some token ->
  exists m, longest_match r breakers token i = Done m /\
    ((m = -1)%Z /\ (forall b, b ∈ breakers -> ~ breaker_at b i) \/
     exists b, b ∈ breakers /\ breaker_at b i /\ m = Z.of_nat (length (snd b)) /\ forall b', b' ∈ breakers -> breaker_at b' i -> length (snd b') <= length (snd b)).
Proof.
  intros Hi. pose proof (lookup_lt_Some _ _ _ Hi) as Hlt. unfold longest_match. induction breakers as [|b bs IH] using rev_ind.
  { exists (-1)%Z. split; [done|]. left. split; [done|]. intros b Hb. by apply not_elem_of_nil in Hb. }
  destruct IH as (m & Hrun & Hm). rewrite foldO_app, Hrun. cbn [mbind outcome_bind foldO]. destruct b as [h tail]. clear Hrun.
  enough (exists m', (if bool_decide (h = token) then if bool_decide (m < Z.of_nat (length tail))%Z && bool_decide (Z.of_nat (length tail) <= Z.of_nat i)%Z
      then b ← tail_matches r i 0 tail; Done (if (b : bool) then Z.of_nat (length tail) else m) else Done m else Done m) = Done m' /\
      ((m' = m /\ (breaker_at (h, tail) i -> Z.of_nat (length tail) <= m)%Z) \/ (m' = Z.of_nat (length tail) /\ breaker_at (h, tail) i /\ m < m')%Z)) as (m' & -> & Hm').
  { exists m'. split; [done|]. destruct Hm' as [[-> Hno]|(-> & Hat & Hgt)].
    - destruct Hm as [[-> Hm]|(b & Hb & Hbi & -> & Hmax)]; [left|right].
      + split; [done|]. intros b [Hb| ->%list_elem_of_singleton]%elem_of_app; [by apply Hm|]. intros Hat. specialize (Hno Hat). lia.
      + exists b. split_and!; [apply elem_of_app; by left|done|done|]. intros b' [Hb'| ->%list_elem_of_singleton]%elem_of_app Hat; [by apply Hmax|]. specialize (Hno Hat). cbn. lia.
    - right. exists (h, tail). split_and!; [apply elem_of_app; right; by apply list_elem_of_singleton|done|done|].
      intros b' [Hb'| ->%list_elem_of_singleton]%elem_of_app Hat'; [|done]. cbn. destruct Hm as [[-> Hm]|(b & _ & _ & -> & Hmax)]; [by destruct (Hm b')|].
      specialize (Hmax b' Hb' Hat'). lia. }
  destruct (decide (h = token)) as [->|Hne]; [rewrite bool_decide_true by done|rewrite bool_decide_false by done].
  2: { exists m. split; [done|]. left. split; [done|]. intros (Hh & _). cbn in Hh. congruence. }
  destruct (decide (m < Z.of_nat (length tail) <= Z.of_nat i)%Z) as [Hlen|Hlen].
  - rewrite !bool_decide_true by lia. cbn [andb]. destruct (tail_matches_ok i tail 0) as (b & -> & Hb); [done|lia|]. cbn [mbind outcome_bind].
    assert (b = true <-> breaker_at (token, tail) i) as Hat.
    { rewrite Hb. unfold breaker_at. cbn [fst snd]. split; [intros H; split_and!; [done|lia|done]|intros (_ & _ & H); done]. }
    destruct b; eexists; (split; [reflexivity|]); [right; split_and!; [done|by apply Hat|lia]|left; split; [done|]]. intros H. by apply Hat in H.
  - exists m. split; [|left; split; [done|intros (_ & Hl & _); cbn in Hl; lia]].
    destruct (decide (m < Z.of_nat (length tail))%Z); [rewrite (bool_decide_false (Z.of_nat (length tail) <= _)%Z) by lia; by rewrite andb_false_r|by rewrite bool_decide_false].
Qed.

Lemma rep_limit_ok breakers k : forall i, i + k = n -> (forall i' b, i' < i -> b ∈ breakers -> ~ breaker_at b i') ->
  exists limit, rep_limit r breakers n k i = Done limit /\ limit_is breakers limit /\ limit <= n.
Proof.
  induction k as [|k IH]; intros i Hi Hno; cbn [rep_limit].
  - exists n. split; [done|]. split; [|done]. left. split; [done|]. intros i' b Hb Hat. apply (Hno i' b); [|done|done]. destruct Hat as (Hl & _).
    apply lookup_lt_Some in Hl. lia.
  - destruct (lookup_lt_is_Some_2 W i) as [x Hx]; [lia|]. rewrite (Hrat _ _ Hx). cbn [mbind outcome_bind].
    destruct (longest_match_ok breakers i x Hx) as (m & -> & Hm). cbn [mbind outcome_bind]. destruct Hm as [[-> Hm]|(b & Hb & Hat & -> & Hmax)].
    + rewrite bool_decide_false by lia. apply IH; [lia|]. intros i' b Hi' Hb. destruct (decide (i' = i)) as [->|]; [by apply Hm|apply Hno; [lia|done]].
    + rewrite bool_decide_true by lia. rewrite Nat2Z.id. eexists. split; [reflexivity|]. split; [|lia]. right. exists i, b. by split_and!.
Qed.

(** ** Step 3: the longest repetition each token would continue *)

(** Some position before the end is followed by [t] and repeats [v] tokens. *)
Definition continues (limit : nat) (allowed : Z) (t : Z) (k v : nat) : Prop :=
  1 <= k < n /\ W !! (k - 1) = Some t /\ v = min (repeat_at W k) limit /\ (allowed <= Z.of_nat v)%Z.

Definition max_repeats (limit : nat) (allowed : Z) (m : gmap Z nat) : Prop :=
  forall t v, m !! t = Some v <-> (exists k, continues limit allowed t k v) /\ forall k v', continues limit allowed t k v' -> v' <= v.

(** The table after the first [i] iterations. *)
Definition max_inv (limit : nat) (allowed : Z) (i : nat) (m : gmap Z nat) : Prop :=
  (forall t v, m !! t = Some v -> exists k, n - 1 - k < i /\ continues limit allowed t k v) /\
  (forall t k v, n - 1 - k < i -> continues limit allowed t k v -> exists v', m !! t = Some v' /\ v <= v').

(** The position of iteration [i] is the only new one. *)
Lemma continues_new limit allowed i x t k w : i < n - 1 -> W !! (n - 2 - i) = Some x -> continues limit allowed t k w -> n - 1 - k < i + 1 ->
  n - 1 - k < i \/ (t = x /\ w = min (repeat_at W (n - 1 - i)) limit).
Proof.
  intros Hi Hx (Hk & Ht & -> & Ha) Hlt. destruct (decide (n - 1 - k < i)) as [?|Hge]; [by left|right]. assert (k = n - 1 - i) as -> by lia.
  replace (n - 1 - i - 1) with (n - 2 - i) in Ht by lia. split; [congruence|done].
Qed.

Lemma max_inv_put limit allowed i x (m m' : gmap Z nat) : i < n - 1 -> W !! (n - 2 - i) = Some x -> let v := min (repeat_at W (n - 1 - i)) limit in
  (allowed <= Z.of_nat v)%Z -> max_inv limit allowed i m -> (forall t, t <> x -> m' !! t = m !! t) ->
  (exists w, m' !! x = Some w /\ v <= w /\ (m !! x = Some w \/ w = v) /\ forall w', m !! x = Some w' -> w' <= w) -> max_inv limit allowed (i + 1) m'.
Proof.
  intros Hi Hx v Ha [H1 H2] Hother (w & Hw & Hvw & Hsrc & Hmax). split.
  - intros t u Hu. destruct (decide (t = x)) as [->|Hne].
    + rewrite Hw in Hu. injection Hu as <-. destruct Hsrc as [Hold| ->]; [destruct (H1 x w Hold) as (k & ? & ?); exists k; split; [lia|done]|].
      exists (n - 1 - i). split; [lia|]. split_and!; [lia|lia|by replace (n - 1 - i - 1) with (n - 2 - i) by lia|done|done].
    + rewrite Hother in Hu by done. destruct (H1 t u Hu) as (k & ? & ?). exists k. split; [lia|done].
  - intros t k u Hk Hcu. destruct (continues_new limit allowed i x t k u Hi Hx Hcu Hk) as [Hlt|[-> ->]]; [|by exists w].
    destruct (H2 t k u Hlt Hcu) as (u' & Hu' & Hle). destruct (decide (t = x)) as [->|Hne]; [|exists u'; by rewrite Hother].
    exists w. split; [done|]. specialize (Hmax u' Hu'). lia.
Qed.

Lemma max_step_ok limit allowed counts i m : i < n - 1 -> counts !! i = Some (min (repeat_at W (n - 1 - i)) limit) -> max_inv limit allowed i m ->
  exists m', max_step r n allowed counts i m = Done m' /\ max_inv limit allowed (i + 1) m'.
Proof.
  intros Hi Hci I. unfold max_step. rewrite Hci. cbn [of_option mbind outcome_bind]. set (v := min _ _) in *. destruct (lookup_lt_is_Some_2 W (n - 2 - i)) as [x Hx]; [lia|].
  destruct (decide (allowed <= Z.of_nat v)%Z) as [Ha|Ha]; [rewrite bool_decide_true by done|rewrite bool_decide_false by done].
  - rewrite (Hrat _ _ Hx). cbn [mbind outcome_bind]. eexists. split; [reflexivity|]. apply (max_inv_put limit allowed i x m _ Hi Hx Ha I).
    + intros t Hne. destruct (m !! x) as [old|]; [case_bool_decide; [|done]|]; by rewrite lookup_insert_ne.
    + destruct (m !! x) as [old|] eqn:Eo; [case_bool_decide as Hov|].
      * exists v. rewrite lookup_insert_eq. split_and!; [done|done|by right|]. intros w' [= <-]. unfold v. lia.
      * exists old. rewrite Eo. split_and!; [done|unfold v in *; lia|by left|]. by intros w' [= <-].
      * exists v. rewrite lookup_insert_eq. split_and!; [done|done|by right|done].
  - exists m. split; [done|]. destruct I as [H1 H2]. split; [intros t w Hw; destruct (H1 t w Hw) as (k & ? & ?); exists k; split; [lia|done]|].
    intros t k w Hk Hcw. destruct (continues_new limit allowed i x t k w Hi Hx Hcw Hk) as [Hlt|[-> ->]]; [by apply (H2 t k)|]. by destruct Hcw as (_ & _ & _ & ?).
Qed.

Lemma max_loop_ok limit allowed counts : (forall k, 1 <= k < n -> counts !! (n - 1 - k) = Some (min (repeat_at W k) limit)) ->
  exists m, foldO (max_step r n allowed counts) (seq 0 (n - 1)) ∅ = Done m /\ max_repeats limit allowed m.
Proof.
  intros Hc. destruct (foldO_seq (max_step r n allowed counts) (max_inv limit allowed) 0 (n - 1) ∅) as (m & Hrun & H1 & H2).
  - split; [intros t v Hv; by rewrite lookup_empty in Hv|lia].
  - intros i m [_ Hi] I. apply max_step_ok; [done| |done]. pose proof (Hc (n - 1 - i) ltac:(lia)) as Hci. by replace (n - 1 - (n - 1 - i)) with i in Hci by lia.
  - exists m. split; [done|]. intros t v. split.
    + intros Hv. split; [destruct (H1 t v Hv) as (k & _ & ?); by exists k|]. intros k v' Hc'. destruct (H2 t k v') as (w & Hw & Hle); [destruct Hc'; lia|done|].
      rewrite Hv in Hw. by injection Hw as <-.
    + intros [(k & Hk) Hmax]. destruct (H2 t k v) as (w & Hw & Hle); [destruct Hk; lia|done|]. rewrite Hw. f_equal. destruct (H1 t w Hw) as (k' & _ & Hc').
      specialize (Hmax k' w Hc'). lia.
Qed.
End Steps.

(** * The sampler *)

Section Apply.
Context `{FO : FloatOps}.

Lemma last_n_range (c : llama_sampler_dry) L : ring_model (last_tokens c) L -> (0 <= total_context_size c)%Z ->
  (0 <= last_n_repeat c <= Z.of_nat (length L))%Z.
Proof.
  intros M Ht. unfold last_n_repeat, size. rewrite (rm_sz _ _ M). case_bool_decide; lia.
Qed.

(** C38: what the DRY sampler does with the last tokens [W] (the latest first).
    Unless they are too few, the repetitions are limited by the first restart
    sequence from the end ([limit_is]); unless that limit is too small, the
    table holds for each token the longest repetition of the end of the context,
    within the limit, that the token continued before ([max_repeats], which
    compares the texts position by position), and exactly the candidates in the
    table that are no restart sequence by themselves are penalised by that
    length. No access is out of range. *)
Theorem dry_apply_correct (max_exponent : float -> Z) (c : llama_sampler_dry) (L : list Z) (cur : llama_token_data_array) :
  ring_model (last_tokens c) L -> dry_off c = false -> (0 <= total_context_size c)%Z ->
  let W := take (Z.to_nat (last_n_repeat c)) (reverse L) in
  if bool_decide (Z.of_nat (length W) <= dry_allowed_length c)%Z then llama_sampler_dry_apply max_exponent c cur = Done (c, cur) else
  exists c' limit, limit_is W (dry_processed_breakers c) limit /\ last_tokens c' = last_tokens c /\
    if bool_decide (Z.of_nat limit < dry_allowed_length c)%Z then llama_sampler_dry_apply max_exponent c cur = Done (c', cur) else
    exists m, max_repeats W limit (dry_allowed_length c) m /\
      llama_sampler_dry_apply max_exponent c cur = Done (c', mkArray (dry_candidate c (max_exponent (dry_base c)) m <$> cand cur) false).
Proof.
  intros M Hoff Ht W. pose proof (last_n_range c L M Ht) as Hn. assert (length W = Z.to_nat (last_n_repeat c)) as HW.
  { subst W. rewrite length_take, length_reverse. lia. }
  assert (forall i x, W !! i = Some x -> rat (last_tokens c) i = Done x) as Hrat.
  { intros i x Hx. apply lookup_take_Some in Hx as [Hx _]. by rewrite (rat_ok _ L i M), Hx. }
  unfold llama_sampler_dry_apply. rewrite Hoff. replace (Z.of_nat (length W)) with (last_n_repeat c) by lia.
  case_bool_decide as Hfew; [done|]. rewrite (bool_decide_false (last_n_repeat c < 0)%Z) by lia. rewrite <- HW.
  destruct (rep_limit_ok (last_tokens c) W Hrat (dry_processed_breakers c) (length W) 0) as (limit & Hrun & Hlim & _); [lia|lia|].
  cbn [with_repeats dry_processed_breakers dry_allowed_length dry_repeat_count]. rewrite Hrun. cbn [mbind outcome_bind].
  destruct (decide (Z.of_nat limit < dry_allowed_length c)%Z) as [Hsmall|Hsmall].
  - rewrite bool_decide_true by done. eexists _, limit. split; [exact Hlim|]. split; [|rewrite bool_decide_true by done; reflexivity]. done.
  - rewrite bool_decide_false by done. destruct (z_loop_ok (last_tokens c) W Hrat limit) as (counts & st & -> & _ & Hcounts). cbn [mbind outcome_bind].
    destruct (max_loop_ok (last_tokens c) W Hrat limit (dry_allowed_length c) counts Hcounts) as (m & -> & Hm). cbn [mbind outcome_bind].
    eexists _, limit. split; [exact Hlim|]. split; [|rewrite bool_decide_false by done; exists m; split; [exact Hm|reflexivity]]. done.
Qed.
End Apply.

(** The example of the source: the tokens a b c c b c y a b c. *)
Definition demo_dry : llama_sampler_dry (FO := demo_floats) :=
  mkDry (FO := demo_floats) 16 1%Z 10%Z 2 (-1) [] [] ∅ (mkRing 16 10 0 10 ([1; 2; 3; 3; 2; 3; 4; 1; 2; 3] ++ replicate 6 0))%Z.

Lemma dry_apply_correct_witness : exists c, llama_sampler_dry_apply (FO := demo_floats) (fun _ => 0%Z) demo_dry
    (mkArray (FO := demo_floats) (fmap (fun t => mkData (FO := demo_floats) t 100) [1; 2; 3; 4])%Z true) =
  Done (c, mkArray (FO := demo_floats) [mkData (FO := demo_floats) 1 100; mkData (FO := demo_floats) 2 100; mkData (FO := demo_floats) 3 90; mkData (FO := demo_floats) 4 99]%Z false) /\
  exists limit, limit_is [3; 2; 1; 4; 3; 2; 3; 3; 2; 1]%Z [] limit.
Proof.
  assert (ring_model (last_tokens (FO := demo_floats) demo_dry) [1; 2; 3; 3; 2; 3; 4; 1; 2; 3]%Z) as M.
  { split; cbn; try lia. intros i x. do 10 (destruct i as [|i]; [by intros [= <-]|]). done. }
  pose proof (dry_apply_correct (FO := demo_floats) (fun _ => 0%Z) demo_dry _ (mkArray (FO := demo_floats) (fmap (fun t => mkData (FO := demo_floats) t 100) [1; 2; 3; 4])%Z true)
    M eq_refl ltac:(vm_compute; discriminate)) as H. cbv zeta in H.
  match type of H with context [bool_decide ?P] => assert (bool_decide P = false) as E by (vm_compute; reflexivity); rewrite E in H; clear E end.
  destruct H as (c & limit & Hl & _). eexists. split; [vm_compute; reflexivity|]. exists limit. exact Hl.
Defined.

End SamplerDry.
