(* ===== verification/SamplerTopK.v ===== *)
(** Selecting the best candidates: for large [k] the candidates are distributed
    over buckets by their logits and only the buckets that are needed are sorted;
    the result is the same as that of sorting all of them. *)

From stdpp Require Import sorting.
From S2P Require Import Prelude.
From S2P Require Import Sampler.
From S2P Require Import SamplerOk.
Import Sampler.Sampler SamplerOk.SamplerOk.

Module SamplerTopK.

Section TopK.
Context `{FO : FloatOps}.
Context (std_sort : list llama_token_data -> list llama_token_data) (std_partial_sort : nat -> list llama_token_data -> list llama_token_data).
Context (float_bucket : float -> Z).

#[local] Abbreviation bk := (bucket_of float_bucket).

(** The first is not worse than the second. *)
Definition ge (a b : llama_token_data) : Prop := flt (logit a) (logit b) = false.

(** What the sorts and the buckets promise. *)
Context (sort_perm : forall l, std_sort l ≡ₚ l) (sort_sorted : forall l, StronglySorted ge (std_sort l)).
Context (partial_perm : forall k l, std_partial_sort k l ≡ₚ l).
Context (partial_sorted : forall k l, k <= length l -> StronglySorted ge (take k (std_partial_sort k l))).
Context (partial_best : forall k l a b, k <= length l -> a ∈ take k (std_partial_sort k l) -> b ∈ drop k (std_partial_sort k l) -> ge a b).
Context (bucket_mono : forall x y, flt x y = true -> (float_bucket x <= float_bucket y)%Z).

(** ** Counting *)

Definition in_bucket (j : nat) (l : list llama_token_data) : list llama_token_data := filter (fun d => bk d = j) l.
Definition from_bucket (j : nat) (l : list llama_token_data) : nat := length (filter (fun d => j <= bk d) l).

Lemma bucket_lt d : bk d < nbuckets.
Proof. unfold bucket_of, nbuckets. lia. Qed.

Lemma from_bucket_S j l : from_bucket j l = from_bucket (S j) l + length (in_bucket j l).
Proof.
  unfold from_bucket, in_bucket. induction l as [|d l IH]; [done|]. rewrite !filter_cons. repeat case_decide; cbn [length]; lia.
Qed.

Lemma from_bucket_top l : from_bucket nbuckets l = 0.
Proof.
  unfold from_bucket. induction l as [|d l IH]; [done|]. rewrite filter_cons. pose proof (bucket_lt d). case_decide; [lia|done].
Qed.

Lemma from_bucket_0 l : from_bucket 0 l = length l.
Proof. unfold from_bucket. induction l as [|d l IH]; [done|]. rewrite filter_cons. case_decide; cbn [length]; lia. Qed.

Lemma from_bucket_mono i j l : i <= j -> from_bucket j l <= from_bucket i l.
Proof. induction 1 as [|j H IH]; [done|]. rewrite (from_bucket_S j) in IH. lia. Qed.

Section Run.
Context (cur : list llama_token_data).

Lemma histo_ok : exists histo, foldM (histo_step float_bucket) cur ([], replicate nbuckets 0) = Some (bk <$> cur, histo) /\
  forall j, j < nbuckets -> histo !! j = Some (length (in_bucket j cur)).
Proof.
  destruct (foldM_prefix (histo_step float_bucket) (fun pre st => fst st = bk <$> pre /\ length (snd st) = nbuckets /\
    forall j, j < nbuckets -> snd st !! j = Some (length (in_bucket j pre))) cur ([], replicate nbuckets 0)) as ([bi histo] & Hrun & H1 & H2 & H3).
  - cbn [fst snd]. split_and!; [done|apply length_replicate|]. intros j Hj. by rewrite lookup_replicate_2.
  - intros pre d [bi histo] _ (H1 & H2 & H3). cbn [fst snd] in *. unfold histo_step. pose proof (bucket_lt d) as Hd. rewrite (H3 _ Hd). cbn [mbind option_bind].
    rewrite set_at_ok by lia. cbn [mbind option_bind]. eexists. split; [reflexivity|]. cbn [fst snd]. split_and!.
    + by rewrite H1, fmap_app.
    + by rewrite length_insert.
    + intros j Hj. unfold in_bucket. rewrite filter_app, length_app. destruct (decide (j = bk d)) as [->|Hne].
      * rewrite list_lookup_insert_eq by lia. by rewrite filter_cons_True.
      * rewrite list_lookup_insert_ne by done. rewrite (H3 _ Hj), filter_cons_False by done. cbn. f_equal. unfold in_bucket. lia.
  - exists histo. cbn [fst snd] in *. by rewrite <- H1.
Qed.

Context (histo : list nat) (Hhisto : forall j, j < nbuckets -> histo !! j = Some (length (in_bucket j cur))).

Lemma find_bucket_ok npartial k : k <= nbuckets -> from_bucket k cur < npartial <= length cur ->
  exists ib, find_bucket k histo npartial (from_bucket k cur) = Some (ib, from_bucket ib cur) /\ ib < k /\ from_bucket (S ib) cur < npartial <= from_bucket ib cur.
Proof.
  induction k as [|k IH]; intros Hk Hn; [rewrite from_bucket_0 in Hn; lia|]. cbn [find_bucket]. rewrite Hhisto by lia. cbn [mbind option_bind].
  rewrite <- from_bucket_S. destruct (decide (npartial <= from_bucket k cur)) as [Hle|Hgt]; [rewrite bool_decide_true by done|rewrite bool_decide_false by done].
  - exists k. split; [done|]. lia.
  - destruct (IH ltac:(lia) ltac:(lia)) as (ib & -> & Hib & ?). exists ib. split; [done|]. lia.
Qed.

(** The buckets from the best one down to [ib]. *)
Lemma buckets_down ib m : ib + m = nbuckets -> reverse (seq ib m) = (fun t => nbuckets - 1 - t) <$> seq 0 m.
Proof.
  intros H. apply list_eq. intros t. destruct (decide (t < m)) as [Ht|Ht].
  - rewrite reverse_lookup by (rewrite length_seq; done). rewrite length_seq, lookup_seq_lt by lia. rewrite list_lookup_fmap, lookup_seq_lt by done.
    change (Some (ib + (m - S t)) = Some (nbuckets - 1 - (0 + t))). f_equal. lia.
  - rewrite !lookup_ge_None_2; [done|rewrite length_fmap, length_seq; lia|rewrite length_reverse, length_seq; lia].
Qed.

Lemma bucket_ptrs_ok ib : ib <= nbuckets -> exists ptrs, bucket_ptrs histo ib = Some ptrs /\ length ptrs = nbuckets - ib /\
  forall t, t < nbuckets - ib -> ptrs !! t = Some (from_bucket (nbuckets - t) cur).
Proof.
  intros Hib. unfold bucket_ptrs. rewrite buckets_down, foldM_fmap by lia.
  destruct (foldM_seq (fun t st => let '(ptrs, ptr) := st in h ← histo !! (nbuckets - 1 - t); Some (ptrs ++ [ptr], ptr + h))
    (fun t st => length (fst st) = t /\ snd st = from_bucket (nbuckets - t) cur /\ forall t', t' < t -> fst st !! t' = Some (from_bucket (nbuckets - t') cur))
    0 (nbuckets - ib) ([], 0)) as ([ptrs ptr] & -> & H1 & H2 & H3).
  - cbn [fst snd]. split_and!; [done|by rewrite Nat.sub_0_r, from_bucket_top|lia].
  - intros t [ptrs ptr] [_ Ht] (H1 & H2 & H3). cbn [fst snd] in *. rewrite Hhisto by (unfold nbuckets in *; lia). cbn [mbind option_bind]. eexists. split; [reflexivity|].
    cbn [fst snd]. split_and!.
    + rewrite length_app. cbn. lia.
    + rewrite H2. replace (nbuckets - t) with (S (nbuckets - (t + 1))) by lia. replace (nbuckets - 1 - t) with (nbuckets - (t + 1)) by lia. symmetry. apply from_bucket_S.
    + intros t' Ht'. destruct (decide (t' = t)) as [->|Hne]; [rewrite lookup_app_r, H1, Nat.sub_diag by lia; cbn; by rewrite H2|].
      rewrite lookup_app_l by lia. apply H3. lia.
  - cbn [mbind option_bind fst snd] in *. exists ptrs. split_and!; [done|lia|]. intros t Ht. apply H3. lia.
Qed.

Lemma in_bucket_take j i : length (in_bucket j (take i cur)) <= length (in_bucket j cur).
Proof. rewrite <- (take_drop i cur) at 2. unfold in_bucket. rewrite filter_app, length_app. lia. Qed.

(** After the distribution of the first [i] candidates. *)
Record placed (ib i : nat) (ptrs : list nat) (res : list llama_token_data) : Prop := {
  pl_ptrs : length ptrs = nbuckets - ib;
  pl_len  : length res = from_bucket ib cur;
  pl_ptr  : forall j, ib <= j < nbuckets -> ptrs !! (nbuckets - 1 - j) = Some (from_bucket (S j) cur + length (in_bucket j (take i cur)));
  pl_at   : forall j t d, ib <= j < nbuckets -> in_bucket j (take i cur) !! t = Some d -> res !! (from_bucket (S j) cur + t) = Some d;
}.

Lemma place_step_ok ib i ptrs res : i < length cur -> placed ib i ptrs res ->
  exists st, place_step cur (bk <$> cur) ib i (ptrs, res) = Some st /\ placed ib (i + 1) (fst st) (snd st).
Proof.
  intros Hi P. destruct (lookup_lt_is_Some_2 cur i Hi) as [d Hd]. unfold place_step. rewrite list_lookup_fmap, Hd. cbn [fmap option_fmap option_map mbind option_bind].
  assert (forall j, in_bucket j (take (i + 1) cur) = in_bucket j (take i cur) ++ (if decide (bk d = j) then [d] else [])) as Hnext.
  { intros j. rewrite Nat.add_1_r, (take_S_r _ _ d) by done. unfold in_bucket. by rewrite filter_app. }
  pose proof (bucket_lt d) as Hb. set (j0 := bk d) in *.
  destruct (decide (ib <= j0)) as [Hle|Hgt]; [rewrite bool_decide_true by done|rewrite bool_decide_false by done].
  2: { eexists. split; [reflexivity|]. split; [apply P|apply P| |]; cbn [fst snd]; intros j.
    - intros Hj. rewrite Hnext, decide_False, app_nil_r by lia. by apply P.
    - intros t x Hj. rewrite Hnext, decide_False, app_nil_r by lia. by apply P. }
  assert (length (in_bucket j0 (take i cur)) < length (in_bucket j0 cur)) as Hfree.
  { pose proof (in_bucket_take j0 (i + 1)) as H. rewrite Hnext, decide_True, length_app in H by done. cbn in H. lia. }
  pose proof (from_bucket_S j0 cur) as HS. pose proof (from_bucket_mono ib j0 cur Hle) as Hmono. rewrite (pl_ptr _ _ _ _ P j0) by lia. cbn [mbind option_bind].
  rewrite (set_at_ok _ d res) by (rewrite (pl_len _ _ _ _ P); lia). cbn [mbind option_bind].
  rewrite (set_at_ok _ _ ptrs) by (rewrite (pl_ptrs _ _ _ _ P); lia). cbn [mbind option_bind].
  eexists. split; [reflexivity|]. split; cbn [fst snd].
  - rewrite length_insert. apply P.
  - rewrite length_insert. apply P.
  - intros j Hj. rewrite Hnext, length_app. case_decide as Hjj.
    + subst j. rewrite list_lookup_insert_eq by (rewrite (pl_ptrs _ _ _ _ P); lia). cbn [length]. f_equal. lia.
    + rewrite list_lookup_insert_ne by lia. cbn [length]. rewrite Nat.add_0_r. by apply P.
  - intros j t x Hj. rewrite Hnext. intros [Hx|[Hx1 Hx2]]%lookup_app_Some.
    + rewrite list_lookup_insert_ne; [by apply P|]. apply lookup_lt_Some in Hx. pose proof (in_bucket_take j i). pose proof (from_bucket_S j cur).
      destruct (decide (j = j0)) as [->|Hne]; [lia|]. destruct (decide (j < j0)); [pose proof (from_bucket_mono (S j) j0 cur)|pose proof (from_bucket_mono (S j0) j cur)]; lia.
    + case_decide as Hjj; [|done]. subst j. apply list_lookup_singleton_Some in Hx2 as [Ht <-].
      assert (t = length (in_bucket j0 (take i cur))) as -> by lia. apply list_lookup_insert_eq. rewrite (pl_len _ _ _ _ P). lia.
Qed.

(** The buckets, one after the other, each transformed by [f]. *)
Definition buckets (f : list llama_token_data -> list llama_token_data) (a m : nat) : list llama_token_data :=
  concat ((fun t => f (in_bucket (nbuckets - 1 - t) cur)) <$> seq a m).

Lemma buckets_S f a m : buckets f a (S m) = buckets f a m ++ f (in_bucket (nbuckets - 1 - (a + m)) cur).
Proof. unfold buckets. rewrite <- seq_snoc, fmap_app, concat_app. cbn. by rewrite app_nil_r. Qed.

Lemma buckets_cons f a m : buckets f a (S m) = f (in_bucket (nbuckets - 1 - a) cur) ++ buckets f (S a) m.
Proof. done. Qed.

Lemma place_ok ib ptrs dflt : ib <= nbuckets -> length ptrs = nbuckets - ib -> (forall t, t < nbuckets - ib -> ptrs !! t = Some (from_bucket (nbuckets - t) cur)) ->
  exists ptrs', foldM (place_step cur (bk <$> cur) ib) (seq 0 (length cur)) (ptrs, replicate (from_bucket ib cur) dflt) = Some (ptrs', buckets (fun l => l) 0 (nbuckets - ib)).
Proof.
  intros Hib Hl Hp. destruct (foldM_seq (place_step cur (bk <$> cur) ib) (fun i st => placed ib i (fst st) (snd st)) 0 (length cur)
    (ptrs, replicate (from_bucket ib cur) dflt)) as ([ptrs' res] & Hrun & P).
  - cbn [fst snd]. split; [done|apply length_replicate| |]; intros j.
    + intros Hj. rewrite Hp by lia. change (in_bucket j (take 0 cur)) with (@nil llama_token_data). cbn [length]. rewrite Nat.add_0_r. do 2 f_equal. lia.
    + intros t d _ Hd. cbn in Hd. done.
  - intros i [ptrs1 res1] [_ Hi] P. by apply place_step_ok.
  - exists ptrs'. rewrite Hrun. do 2 f_equal. cbn [fst snd Nat.add] in P.
    enough (forall m, m <= nbuckets - ib -> take (from_bucket (nbuckets - m) cur) res = buckets (fun l => l) 0 m) as H.
    { rewrite <- (H (nbuckets - ib)) by lia. replace (nbuckets - (nbuckets - ib)) with ib by lia. by rewrite take_ge by (by rewrite (pl_len _ _ _ _ P)). }
    induction m as [|m IH]; intros Hm; [by rewrite Nat.sub_0_r, from_bucket_top|]. rewrite buckets_S, <- IH by lia. cbn [Nat.add].
    set (j := nbuckets - 1 - m) in *. assert (nbuckets - S m = j) as -> by lia. assert (nbuckets - m = S j) as -> by lia.
    rewrite from_bucket_S. apply list_eq. intros p. pose proof (pl_len _ _ _ _ P) as Hlen. pose proof (from_bucket_S j cur) as HS. pose proof (from_bucket_mono ib j cur ltac:(lia)) as Hmono.
    destruct (decide (p < from_bucket (S j) cur)) as [Hp1|Hp1].
    + rewrite lookup_app_l by (rewrite length_take; lia). by rewrite !lookup_take_lt by lia.
    + rewrite lookup_app_r by (rewrite length_take; lia). rewrite length_take, Nat.min_l by lia.
      destruct (in_bucket j cur !! (p - from_bucket (S j) cur)) as [d|] eqn:Ed.
      * pose proof (lookup_lt_Some _ _ _ Ed). rewrite lookup_take_lt by lia. replace p with (from_bucket (S j) cur + (p - from_bucket (S j) cur)) at 1 by lia.
        apply (pl_at _ _ _ _ P j); [lia|]. by rewrite take_ge.
      * apply lookup_ge_None in Ed. apply lookup_take_ge. lia.
Qed.

Lemma length_buckets f m : (forall l, length (f l) = length l) -> m <= nbuckets -> length (buckets f 0 m) = from_bucket (nbuckets - m) cur.
Proof.
  intros Hf. induction m as [|m IH]; intros Hm; [by rewrite Nat.sub_0_r, from_bucket_top|]. rewrite buckets_S, length_app, Hf, IH by lia.
  replace (nbuckets - m) with (S (nbuckets - S m)) by lia. cbn [Nat.add]. replace (nbuckets - 1 - m) with (nbuckets - S m) by lia. symmetry. apply from_bucket_S.
Qed.

Lemma on_range_ok f A B C : on_range f (length A) (length B) (A ++ B ++ C) = Some (A ++ f B ++ C).
Proof.
  unfold on_range. rewrite bool_decide_true by (rewrite !length_app; lia). f_equal. rewrite take_app_length, drop_app_length, take_app_length. do 2 f_equal.
  by rewrite <- drop_drop, drop_app_length, drop_app_length.
Qed.

Lemma sort_loop_ok ib : ib < nbuckets -> (forall l, length (std_sort l) = length l) ->
  foldM (sort_step std_sort histo) (reverse (seq (S ib) (nbuckets - S ib))) (buckets (fun l => l) 0 (nbuckets - ib), 0) =
    Some (buckets std_sort 0 (nbuckets - S ib) ++ in_bucket ib cur, from_bucket (S ib) cur).
Proof.
  intros Hib Hlen. rewrite buckets_down, foldM_fmap by lia.
  destruct (foldM_seq (fun t => sort_step std_sort histo (nbuckets - 1 - t))
    (fun t st => fst st = buckets std_sort 0 t ++ buckets (fun l => l) t (nbuckets - ib - t) /\ snd st = from_bucket (nbuckets - t) cur)
    0 (nbuckets - S ib) (buckets (fun l => l) 0 (nbuckets - ib), 0)) as ([res ptr] & -> & H1 & H2).
  - cbn [fst snd]. by rewrite !Nat.sub_0_r, from_bucket_top.
  - intros t [res ptr] [_ Ht] (H1 & H2). cbn [fst snd] in *. subst res ptr. unfold sort_step. rewrite Hhisto by (unfold nbuckets in *; lia). cbn [mbind option_bind].
    replace (nbuckets - ib - t) with (S (nbuckets - ib - (t + 1))) by lia. rewrite buckets_cons, <- (length_buckets std_sort t Hlen) by lia.
    rewrite on_range_ok. cbn [mbind option_bind]. eexists. split; [reflexivity|]. cbn [fst snd]. split.
    + rewrite Nat.add_1_r, buckets_S, <- app_assoc. by rewrite Nat.add_0_l.
    + rewrite (length_buckets std_sort t Hlen) by lia. replace (nbuckets - t) with (S (nbuckets - (t + 1))) by lia.
      replace (nbuckets - 1 - t) with (nbuckets - (t + 1)) by lia. symmetry. apply from_bucket_S.
  - cbn [fst snd Nat.add] in *. subst. replace (nbuckets - ib - (nbuckets - S ib)) with 1 by lia. rewrite buckets_cons.
    replace (nbuckets - 1 - (nbuckets - S ib)) with ib by lia. replace (nbuckets - (nbuckets - S ib)) with (S ib) by lia.
    change (buckets _ (S _) 0) with (@nil llama_token_data). by rewrite app_nil_r.
Qed.

(** ** What is selected *)

Lemma bucket_ge a b : bk b < bk a -> ge a b.
Proof.
  intros H. unfold ge. destruct (flt (logit a) (logit b)) eqn:E; [|done]. apply bucket_mono in E. exfalso. unfold bucket_of, nbuckets in H. lia.
Qed.

Lemma elem_of_buckets f m d : (forall l, f l ≡ₚ l) -> d ∈ buckets f 0 m -> d ∈ cur /\ nbuckets - m <= bk d.
Proof.
  intros Hf. induction m as [|m IH]; [intros Hd; by apply not_elem_of_nil in Hd|]. rewrite buckets_S. intros [Hd|Hd]%elem_of_app; [apply IH in Hd as [? ?]; split; [done|lia]|].
  rewrite Hf in Hd. apply list_elem_of_filter in Hd as [Hb Hd]. split; [done|]. rewrite Hb. lia.
Qed.

Lemma buckets_sorted m : m <= nbuckets -> StronglySorted ge (buckets std_sort 0 m).
Proof.
  induction m as [|m IH]; intros Hm; [constructor|]. rewrite buckets_S. apply StronglySorted_app_2; [|apply IH; lia|done].
  intros a b Ha%elem_of_buckets Hb; [|done]. rewrite sort_perm in Hb. apply list_elem_of_filter in Hb as [Hb _]. apply bucket_ge. lia.
Qed.

Lemma buckets_perm f m : (forall l, f l ≡ₚ l) -> m <= nbuckets -> buckets f 0 m ≡ₚ filter (fun d => nbuckets - m <= bk d) cur.
Proof.
  intros Hf. induction m as [|m IH]; intros Hm.
  - rewrite Nat.sub_0_r. pose proof (from_bucket_top cur) as H. unfold from_bucket in H. by apply length_zero_iff_nil in H as ->.
  - rewrite buckets_S, IH, Hf by lia. cbn [Nat.add]. unfold in_bucket. clear IH. generalize cur. intros l. induction l as [|d l IHl]; [done|]. rewrite !filter_cons.
    repeat case_decide; try lia; cbn [app]; rewrite <- ?Permutation_middle; by rewrite IHl.
Qed.

(** The first [k] are sorted and the rest is not better. *)
Definition selects (k : nat) (l : list llama_token_data) : Prop :=
  length l = k /\ StronglySorted ge l /\ exists rest, cur ≡ₚ l ++ rest /\ forall a b, a ∈ l -> b ∈ rest -> ge a b.

Lemma selects_partial k : k <= length cur -> selects k (take k (std_partial_sort k cur)).
Proof.
  intros Hk. pose proof (Permutation_length (partial_perm k cur)) as Hl. split; [rewrite length_take; lia|]. split; [by apply partial_sorted|].
  exists (drop k (std_partial_sort k cur)). split; [by rewrite take_drop|]. intros a b. by apply partial_best.
Qed.

(** The buckets above [ib] sorted, and the best of bucket [ib]. *)
Lemma selects_buckets ib k : ib < nbuckets -> from_bucket (S ib) cur < k <= from_bucket ib cur ->
  selects k (take k (buckets std_sort 0 (nbuckets - S ib) ++ std_partial_sort (k - from_bucket (S ib) cur) (in_bucket ib cur))).
Proof.
  intros Hib Hk. assert (forall l, length (std_sort l) = length l) as Hlen by (intros l; apply Permutation_length, sort_perm).
  pose proof (length_buckets std_sort (nbuckets - S ib) Hlen ltac:(lia)) as HA. replace (nbuckets - (nbuckets - S ib)) with (S ib) in HA by lia.
  set (A := buckets std_sort 0 (nbuckets - S ib)) in *. set (m := k - from_bucket (S ib) cur). set (B := in_bucket ib cur).
  assert (m <= length B) as Hm by (pose proof (from_bucket_S ib cur); unfold m, B; lia).
  pose proof (Permutation_length (partial_perm m B)) as HlB. rewrite take_app_ge by lia. rewrite HA. fold m.
  assert (forall a, a ∈ A -> ib < bk a) as HAb by (intros a Ha; apply elem_of_buckets in Ha as [_ ?]; [lia|done]).
  assert (forall b, b ∈ std_partial_sort m B -> bk b = ib) as HBb by (intros b Hb; rewrite partial_perm in Hb; by apply list_elem_of_filter in Hb as [? _]).
  split; [rewrite length_app, length_take, HA; unfold m in *; lia|]. split.
  - apply StronglySorted_app_2; [|apply buckets_sorted; lia|by apply partial_sorted]. intros a b Ha Hb. apply bucket_ge.
    rewrite (HBb b) by (by apply (subseteq_take m) in Hb). by apply HAb.
  - exists (drop m (std_partial_sort m B) ++ filter (fun d => ~ ib <= bk d) cur). split.
    + rewrite <- app_assoc, (app_assoc (take _ _)), take_drop, partial_perm.
      rewrite <- (filter_app_complement (fun d => ib <= bk d) cur) at 1. rewrite app_assoc. apply Permutation_app_tail.
      pose proof (buckets_perm std_sort (nbuckets - S ib) sort_perm ltac:(lia)) as Hp1. fold A in Hp1. rewrite Hp1.
      pose proof (buckets_perm (fun l => l) (S (nbuckets - S ib)) (fun l => reflexivity l) ltac:(lia)) as Hp2.
      pose proof (buckets_perm (fun l => l) (nbuckets - S ib) (fun l => reflexivity l) ltac:(lia)) as Hp3.
      rewrite buckets_S, Hp3 in Hp2. cbn [Nat.add] in Hp2. replace (nbuckets - 1 - (nbuckets - S ib)) with ib in Hp2 by lia.
      replace (nbuckets - S (nbuckets - S ib)) with ib in Hp2 by lia. symmetry. exact Hp2.
    + intros a b [Ha|Ha]%elem_of_app [Hb|Hb]%elem_of_app.
      * apply bucket_ge. rewrite (HBb b) by (by apply (subseteq_drop m) in Hb). by apply HAb.
      * apply bucket_ge. apply list_elem_of_filter in Hb as [Hb _]. apply HAb in Ha. lia.
      * by apply (partial_best m B).
      * apply bucket_ge. apply list_elem_of_filter in Hb as [Hb _]. rewrite (HBb a) by (by apply (subseteq_take m) in Ha). lia.
Qed.

End Run.

Lemma partial_sort_selects cur dflt k : 0 < k <= length cur ->
  exists res, llama_token_data_array_partial_sort std_sort std_partial_sort float_bucket dflt cur k = Some res /\ selects cur k (take k res).
Proof.
  intros Hk. unfold llama_token_data_array_partial_sort. destruct (histo_ok cur) as (hi & Hrun & Hhi). rewrite Hrun. cbn [mbind option_bind].
  destruct (find_bucket_ok cur hi Hhi k nbuckets) as (ib & Hf & Hib & Hrange); [lia|rewrite from_bucket_top; lia|]. rewrite from_bucket_top in Hf. rewrite Hf. cbn [mbind option_bind].
  destruct (bucket_ptrs_ok cur hi Hhi ib) as (ptrs & -> & Hl & Hp); [lia|]. cbn [mbind option_bind].
  destruct (place_ok cur ib ptrs dflt ltac:(lia) Hl Hp) as (ptrs' & ->). cbn [mbind option_bind].
  rewrite (sort_loop_ok cur hi Hhi ib Hib) by (intros l; apply Permutation_length, sort_perm). cbn [mbind option_bind]. rewrite Hhi by lia. cbn [mbind option_bind].
  assert (from_bucket (S ib) cur = length (buckets cur std_sort 0 (nbuckets - S ib))) as HA.
  { rewrite length_buckets by (try lia; intros l; apply Permutation_length, sort_perm). f_equal. lia. }
  pose proof (on_range_ok (std_partial_sort (k - from_bucket (S ib) cur)) (buckets cur std_sort 0 (nbuckets - S ib)) (in_bucket ib cur) []) as Hon.
  rewrite !app_nil_r, <- HA in Hon. eexists. split; [exact Hon|]. by apply selects_buckets.
Qed.

Lemma inplace_selects cur dflt k : 0 < k <= length (cand cur) ->
  exists l, llama_token_data_array_partial_sort_inplace std_sort std_partial_sort float_bucket dflt cur k = Some (mkArray l true) /\ selects (cand cur) k l.
Proof.
  intros Hk. unfold llama_token_data_array_partial_sort_inplace. case_bool_decide.
  - eexists. split; [reflexivity|]. by apply selects_partial; [..|lia].
  - destruct (partial_sort_selects (cand cur) dflt k Hk) as (res & -> & Hs). cbn [mbind option_bind]. by eexists.
Qed.
End TopK.

(** C37: given sorts that do what the standard library promises and buckets that
    respect the order of the logits, [llama_sampler_top_k_impl] with a positive
    [k] keeps of an unsorted array [min(k, size)] candidates in descending order,
    and none of the candidates it drops is better than one it keeps - also when
    [k] is large and only the best buckets are sorted; no access is out of
    range. *)
Theorem top_k_selects `{FO : FloatOps} (std_sort : list llama_token_data -> list llama_token_data)
    (std_partial_sort : nat -> list llama_token_data -> list llama_token_data) (float_bucket : float -> Z) (dflt : llama_token_data)
    (cur_p : llama_token_data_array) (k : Z) :
  (forall l, std_sort l ≡ₚ l) -> (forall l, StronglySorted ge (std_sort l)) ->
  (forall k l, std_partial_sort k l ≡ₚ l) -> (forall k l, k <= length l -> StronglySorted ge (take k (std_partial_sort k l))) ->
  (forall k l a b, k <= length l -> a ∈ take k (std_partial_sort k l) -> b ∈ drop k (std_partial_sort k l) -> ge a b) ->
  (forall x y, flt x y = true -> (float_bucket x <= float_bucket y)%Z) ->
  sorted cur_p = false -> cand cur_p <> [] -> (0 < k)%Z ->
  exists l, llama_sampler_top_k_impl std_sort std_partial_sort float_bucket dflt cur_p k = Some (mkArray l true) /\
    selects (cand cur_p) (min (Z.to_nat k) (length (cand cur_p))) l.
Proof.
  intros H1 H2 H3 H4 H5 H6 Hs Hne Hk. unfold llama_sampler_top_k_impl. rewrite bool_decide_false by lia. rewrite Hs. cbn [negb].
  replace (Z.to_nat (Z.min k (Z.of_nat (length (cand cur_p))))) with (min (Z.to_nat k) (length (cand cur_p))) by lia.
  assert (length (cand cur_p) <> 0) as Hlen by (by rewrite length_zero_iff_nil).
  destruct (inplace_selects std_sort std_partial_sort float_bucket H1 H2 H3 H4 H5 H6 cur_p dflt (min (Z.to_nat k) (length (cand cur_p))) ltac:(lia)) as (l & -> & Hsel).
  cbn [mbind option_bind cand sorted]. exists l. split; [|done]. by rewrite take_ge by (destruct Hsel as [-> _]; lia).
Qed.

(** ** Sorts that keep the promises *)

#[local] Existing Instance demo_floats.

Definition by_logit (a b : llama_token_data) : Prop := ge a b.

#[local] Instance by_logit_dec : RelDecision by_logit := fun a b => bool_eq_dec _ _.

#[local] Instance by_logit_total : Total by_logit.
Proof. intros a b. unfold by_logit, ge. cbn. lia. Qed.

#[local] Instance by_logit_trans : Transitive by_logit.
Proof. intros a b c. unfold by_logit, ge. cbn. lia. Qed.

Definition demo_sort (l : list llama_token_data) : list llama_token_data := merge_sort by_logit l.

Lemma demo_sort_best k l a b : a ∈ take k (demo_sort l) -> b ∈ drop k (demo_sort l) -> ge a b.
Proof.
  pose proof (StronglySorted_merge_sort by_logit l) as H. fold (demo_sort l) in H. rewrite <- (take_drop k (demo_sort l)) in H at 1.
  intros Ha Hb. exact (StronglySorted_app_1_elem_of by_logit _ _ a b H Ha Hb).
Qed.

(** 200 candidates of which 150 are kept, so that the buckets are used. *)
Definition demo_many : llama_token_data_array := mkArray ((fun i => mkData (FO := demo_floats) (Z.of_nat i) (Z.of_nat (i * 37 mod 100))) <$> seq 0 200) false.

Definition demo_dflt : llama_token_data := mkData (FO := demo_floats) 0%Z 0%Z.

Lemma top_k_selects_witness : exists l,
  llama_sampler_top_k_impl demo_sort (fun _ => demo_sort) (fun x : Z => x) demo_dflt demo_many 150%Z = Some (mkArray l true) /\ selects (cand demo_many) 150 l.
Proof.
  apply (top_k_selects demo_sort (fun _ => demo_sort) (fun x : Z => x) demo_dflt demo_many 150%Z).
  - intros l. apply merge_sort_Permutation.
  - intros l. apply (StronglySorted_merge_sort by_logit).
  - intros _ l. apply merge_sort_Permutation.
  - intros k l _. apply (StronglySorted_app_1_l by_logit _ (drop k (demo_sort l))). rewrite take_drop. apply (StronglySorted_merge_sort by_logit).
  - intros k l a b _. apply demo_sort_best.
  - intros x y H. cbn in H. lia.
  - reflexivity.
  - discriminate.
  - reflexivity.
Defined.

End SamplerTopK.
