(* ===== verification/Bytes.v ===== *)
(** Bytes, C strings and C++ exceptions: the vocabulary of the components that
    read text.  A byte is a [Byte.byte]; [u8] is its unsigned value.  A
    [const char *] is the list of the bytes before its terminator, and reading
    it at its end yields the terminator. *)

From Stdlib Require Import String DecimalString DecimalN.
From Stdlib Require Export Init.Byte Strings.Byte.
From S2P Require Export Prelude.

#[global] Instance byte_eq_dec : EqDecision byte := Byte.byte_eq_dec.

#[global] Instance byte_countable : Countable byte :=
  inj_countable Byte.to_N Byte.of_N Byte.of_to_N.

(** [static_cast<uint8_t>(c)] and [static_cast<char>(z)]. *)
Definition u8 (c : byte) : Z := Z.of_N (Byte.to_N c).
Definition to_char (z : Z) : byte := default x00 (Byte.of_N (Z.to_N (z mod 256))).

Lemma u8_range c : (0 <= u8 c < 256)%Z.
Proof. unfold u8. pose proof (Byte.to_N_bounded c). lia. Qed.

Lemma to_char_u8 c : to_char (u8 c) = c.
Proof.
  unfold to_char. pose proof (u8_range c). rewrite Z.mod_small by done. unfold u8. by rewrite N2Z.id, Byte.of_to_N.
Qed.

Lemma u8_to_char z : u8 (to_char z) = (z mod 256)%Z.
Proof.
  unfold to_char, u8. pose proof (Z.mod_pos_bound z 256 ltac:(lia)).
  destruct (Byte.of_N (Z.to_N (z mod 256))) as [c|] eqn:E; simpl.
  - apply Byte.to_of_N in E. rewrite E. lia.
  - apply Byte.of_N_None_iff in E. lia.
Qed.

#[global] Instance u8_inj : Inj (=) (=) u8.
Proof. intros a b H. by rewrite <- (to_char_u8 a), <- (to_char_u8 b), H. Qed.

(** A bounded quantifier over integers is settled by evaluation. *)
Lemma z_forall (P : Z -> Prop) `{!forall z, Decision (P z)} (n : nat) :
  bool_decide (Forall (fun i => P (Z.of_nat i)) (seq 0 n)) = true -> forall z, (0 <= z < Z.of_nat n)%Z -> P z.
Proof.
  intros Hall%bool_decide_eq_true z Hz. rewrite Forall_forall in Hall. rewrite <- (Z2Nat.id z) by lia. apply Hall, elem_of_seq. lia.
Qed.

Lemma byte_forall (P : Z -> Prop) `{!forall z, Decision (P z)} :
  bool_decide (Forall (fun i => P (Z.of_nat i)) (seq 0 256)) = true -> forall c, P (u8 c).
Proof. intros Hall c. apply (z_forall P 256 Hall), u8_range. Qed.

(** What a function that may throw returns: [Err] carries the exception. *)
Inductive result (E A : Type) :=
  | Ok (a : A)
  | Err (e : E).
Arguments Ok {E A} a.
Arguments Err {E A} e.

#[global] Instance result_ret {E} : MRet (result E) := fun A a => Ok a.
#[global] Instance result_bind {E} : MBind (result E) := fun A B f m =>
  match m with Ok a => f a | Err e => Err e end.

Definition is_ok {E A} (r : result E A) : bool := match r with Ok _ => true | Err _ => false end.

Lemma result_bind_ok {E A B} (f : A -> result E B) m b : mbind f m = Ok b <-> exists a, m = Ok a /\ f a = Ok b.
Proof. destruct m as [a|e]; simpl; naive_solver. Qed.

(** [*p] for a C string. *)
Definition deref (s : list byte) : byte := default x00 (head s).

(** The bytes [c_str] shows of a [std::string]: up to the first NUL. *)
Fixpoint c_str (s : list byte) : list byte :=
  match s with
  | [] => []
  | c :: s => if bool_decide (c = x00) then [] else c :: c_str s
  end.

Definition no_nul (s : list byte) : Prop := x00 ∉ s.

Lemma c_str_no_nul s : no_nul (c_str s).
Proof.
  induction s as [|c s IH]; simpl; [apply not_elem_of_nil|]. case_bool_decide; [apply not_elem_of_nil|].
  by apply not_elem_of_cons.
Qed.

Lemma c_str_id s : no_nul s -> c_str s = s.
Proof.
  induction s as [|c s IH]; simpl; [done|]. intros [Hc Hs]%not_elem_of_cons. rewrite bool_decide_false by done. by rewrite IH.
Qed.

Lemma c_str_length s : length (c_str s) <= length s.
Proof. induction s as [|c s IH]; simpl; [lia|]. case_bool_decide; simpl; lia. Qed.

(** [std::to_string]. *)
Definition to_string (z : Z) : list byte := list_byte_of_string (NilZero.string_of_uint (N.to_uint (Z.to_N z))).

Lemma to_uint_nonnil n : N.to_uint n <> Decimal.Nil.
Proof. destruct n as [|p]; [done|]. apply DecimalPos.Unsigned.to_uint_nonnil. Qed.

Lemma to_string_inj a b : (0 <= a)%Z -> (0 <= b)%Z -> to_string a = to_string b -> a = b.
Proof.
  unfold to_string. intros Ha Hb H. apply (f_equal string_of_list_byte) in H. rewrite !string_of_list_byte_of_string in H.
  apply (f_equal NilZero.uint_of_string) in H. rewrite !NilZero.usu in H by apply to_uint_nonnil. injection H as H.
  apply DecimalN.Unsigned.to_uint_inj in H. lia.
Qed.
