(* ===== verification/Utf8.v ===== *)
(** UTF-8: [unicode_cpt_to_utf8], [unicode_cpt_from_utf8] and the byte-level
    encoding of [llama_cpp_repo/src/unicode.cpp], and the two decoders of
    [llama_cpp_repo/src/llama-grammar.cpp] (one of them resumes a sequence that
    an earlier chunk of text left incomplete). *)

From S2P Require Import Bytes.

Module Utf8.
Local Open Scope Z_scope.

(** * Encoding and decoding of [unicode.cpp] *)

Inductive invalid_argument := InvalidCharacter | FailedToConvert | InvalidCodepoint.

Definition len_lookup : list nat := [1; 1; 1; 1; 1; 1; 1; 1; 1; 1; 1; 1; 2; 2; 3; 4]%nat.

Definition unicode_len_utf8 (src : byte) : nat := default 0%nat (len_lookup !! Z.to_nat (Z.shiftr (u8 src) 4)).

Definition unicode_cpt_to_utf8 (cpt : Z) : result invalid_argument (list byte) :=
  if bool_decide (cpt <= 0x7f) then Ok [to_char cpt]
  else if bool_decide (0x80 <= cpt <= 0x7ff) then
    Ok [to_char (Z.lor 0xc0 (Z.land (Z.shiftr cpt 6) 0x1f)); to_char (Z.lor 0x80 (Z.land cpt 0x3f))]
  else if bool_decide (0x800 <= cpt <= 0xffff) then
    Ok [to_char (Z.lor 0xe0 (Z.land (Z.shiftr cpt 12) 0x0f)); to_char (Z.lor 0x80 (Z.land (Z.shiftr cpt 6) 0x3f));
        to_char (Z.lor 0x80 (Z.land cpt 0x3f))]
  else if bool_decide (0x10000 <= cpt <= 0x10ffff) then
    Ok [to_char (Z.lor 0xf0 (Z.land (Z.shiftr cpt 18) 0x07)); to_char (Z.lor 0x80 (Z.land (Z.shiftr cpt 12) 0x3f));
        to_char (Z.lor 0x80 (Z.land (Z.shiftr cpt 6) 0x3f)); to_char (Z.lor 0x80 (Z.land cpt 0x3f))]
  else Err InvalidCodepoint.

(** [offset + k < utf8.size() && (utf8[offset + k] & 0xc0) == 0x80]. *)
Definition cont_at (utf8 : list byte) (i : nat) : bool :=
  match utf8 !! i with
  | None => false
  | Some c => bool_decide (Z.land (u8 c) 0xc0 = 0x80)
  end.

Definition low6 (utf8 : list byte) (i : nat) : Z := Z.land (u8 (default x00 (utf8 !! i))) 0x3f.

(** The result and the new offset; a throw leaves the offset as it is. *)
Definition unicode_cpt_from_utf8 `{BuildMode} (utf8 : list byte) (offset : nat) : option (result invalid_argument (Z * nat)) :=
  ASSERT bool_decide (offset < length utf8)%nat;
  c ← utf8 !! offset;
  let b := u8 c in
  Some
   (if bool_decide (Z.land b 0x80 = 0) then Ok (b, offset + 1)%nat
    else if bool_decide (Z.land b 0x40 = 0) then Err InvalidCharacter
    else if bool_decide (Z.land b 0x20 = 0) then
      if negb (cont_at utf8 (offset + 1)) then Err InvalidCharacter
      else Ok (Z.lor (Z.shiftl (Z.land b 0x1f) 6) (low6 utf8 (offset + 1)), offset + 2)%nat
    else if bool_decide (Z.land b 0x10 = 0) then
      if negb (cont_at utf8 (offset + 1)) || negb (cont_at utf8 (offset + 2)) then Err InvalidCharacter
      else Ok (Z.lor (Z.lor (Z.shiftl (Z.land b 0x0f) 12) (Z.shiftl (low6 utf8 (offset + 1)) 6)) (low6 utf8 (offset + 2)),
               offset + 3)%nat
    else if bool_decide (Z.land b 0x08 = 0) then
      if negb (cont_at utf8 (offset + 1)) || negb (cont_at utf8 (offset + 2)) || negb (cont_at utf8 (offset + 3))
      then Err InvalidCharacter
      else Ok (Z.lor (Z.lor (Z.lor (Z.shiftl (Z.land b 0x07) 18) (Z.shiftl (low6 utf8 (offset + 1)) 12))
                 (Z.shiftl (low6 utf8 (offset + 2)) 6)) (low6 utf8 (offset + 3)), offset + 4)%nat
    else Err FailedToConvert).

(** The [while (offset < utf8.size())] of [unicode_cpts_from_utf8]. *)
Fixpoint cpts_loop `{BuildMode} (fuel : nat) (utf8 : list byte) (offset : nat) (res : list Z) : option (list Z) :=
  if bool_decide (offset < length utf8)%nat then
    match fuel with
    | O => None
    | S fuel =>
        r ← unicode_cpt_from_utf8 utf8 offset;
        match r with
        | Ok (cpt, offset) => cpts_loop fuel utf8 offset (res ++ [cpt])
        | Err _ => cpts_loop fuel utf8 (S offset) (res ++ [0xFFFD])
        end
    end
  else Some res.

Definition unicode_cpts_from_utf8 `{BuildMode} (utf8 : list byte) : option (list Z) :=
  cpts_loop (length utf8) utf8 0 [].

Fixpoint unicode_cpts_to_utf8 (cps : list Z) : result invalid_argument (list byte) :=
  match cps with
  | [] => Ok []
  | cpt :: cps => s ← unicode_cpt_to_utf8 cpt; r ← unicode_cpts_to_utf8 cps; Ok (s ++ r)
  end.

(** * The decoders of the grammar *)

Record llama_partial_utf8 := mkPartial { pu_value : Z; pu_n_remain : Z }.

#[global] Instance partial_eq_dec : EqDecision llama_partial_utf8.
Proof. solve_decision. Defined.

Definition add_cont (value : Z) (c : byte) : Z := u32_wrap (Z.shiftl value 6 + Z.land (u8 c) 0x3f).

(** The loop of the first [decode_utf8]: at most [len - 1] more bytes. *)
Fixpoint take_cont (n : nat) (value : Z) (s : list byte) : Z * list byte :=
  match n, s with
  | S n, c :: s' => take_cont n (add_cont value c) s'
  | _, _ => (value, s)
  end.

(** At the end of the string the first byte is the terminator. *)
Definition decode_utf8_one (src : list byte) : Z * list byte :=
  let first_byte := u8 (deref src) in
  let len := default 0%nat (len_lookup !! Z.to_nat (Z.shiftr first_byte 4)) in
  let mask := Z.land (Z.shiftl 1 (8 - Z.of_nat len) - 1) 0xff in
  take_cont (len - 1) (Z.land first_byte mask) (tail src).

Definition remain_lookup : list Z := [1; 1; 1; 1; 1; 1; 1; 1; 0; 0; 0; 0; 2; 2; 3; 4].

(** Continue a previous decode: [None] is the invalid sequence. *)
Fixpoint cont_checked (s : list byte) (value n_remain : Z) : option (Z * Z * list byte) :=
  match s with
  | [] => Some (value, n_remain, [])
  | c :: s' =>
      if bool_decide (0 < n_remain) then
        if bool_decide (Z.shiftr (u8 c) 6 <> 2) then None
        else cont_checked s' (add_cont value c) (n_remain - 1)
      else Some (value, n_remain, s)
  end.

Fixpoint cont_unchecked (s : list byte) (value n_remain : Z) : Z * Z * list byte :=
  match s with
  | [] => (value, n_remain, [])
  | c :: s' => if bool_decide (0 < n_remain) then cont_unchecked s' (add_cont value c) (n_remain - 1) else (value, n_remain, s)
  end.

(** The outer loop; the two results are the code points and the partial sequence. *)
Fixpoint decode_loop (fuel : nat) (s : list byte) (value n_remain : Z) (cps : list Z) : option (list Z * llama_partial_utf8) :=
  match s with
  | [] => Some (cps ++ [0], mkPartial value n_remain)
  | c :: s' =>
      match fuel with
      | O => None
      | S fuel =>
          let n_remain := default 0 (remain_lookup !! Z.to_nat (Z.shiftr (u8 c) 4)) - 1 in
          if bool_decide (n_remain < 0) then Some ([0], mkPartial 0 n_remain) else
          let mask := Z.land (Z.shiftl 1 (7 - n_remain) - 1) 0xff in
          let '(value, n_remain, s'') := cont_unchecked s' (Z.land (u8 c) mask) n_remain in
          decode_loop fuel s'' value n_remain (if bool_decide (n_remain = 0) then cps ++ [value] else cps)
      end
  end.

Definition decode_utf8 (src : list byte) (p : llama_partial_utf8) : option (list Z * llama_partial_utf8) :=
  let s := c_str src in
  match cont_checked s (pu_value p) (pu_n_remain p) with
  | None => Some ([0], mkPartial 0 (-1))
  | Some (value, n_remain, s') =>
      let cps := if bool_decide (0 < pu_n_remain p /\ n_remain = 0) then [value] else [] in
      decode_loop (length s') s' value n_remain cps
  end.

(** * The byte-level alphabet of [unicode.cpp] *)

(** [for (ch = lo; ch <= hi; ++ch)] over the printable ranges. *)
Definition byte_ranges : list Z :=
  ((fun i => 0x21 + Z.of_nat i) <$> seq 0 94)
  ++ ((fun i => 0xA1 + Z.of_nat i) <$> seq 0 12)
  ++ ((fun i => 0xAE + Z.of_nat i) <$> seq 0 82).

(** [unicode_cpt_to_utf8] of a code point in range. *)
Definition utf8_of (cpt : Z) : list byte := match unicode_cpt_to_utf8 cpt with Ok s => s | Err _ => [] end.

Definition all_bytes : list Z := Z.of_nat <$> seq 0 256.

Definition unicode_byte_to_utf8_map : gmap Z (list byte) :=
  let m := foldl (fun m ch => <[ch := utf8_of ch]> m) ∅ byte_ranges in
  (foldl (fun '(m, n) ch =>
     match m !! ch with
     | Some _ => (m, n)
     | None => (<[ch := utf8_of (256 + n)]> m, n + 1)
     end) (m, 0) all_bytes).1.

Definition unicode_utf8_to_byte_map : gmap (list byte) Z :=
  let m := foldl (fun m ch => <[utf8_of ch := ch]> m) (∅ : gmap (list byte) Z) byte_ranges in
  (foldl (fun '(m, n) ch =>
     match m !! utf8_of ch with
     | Some _ => (m, n)
     | None => (<[utf8_of (256 + n) := ch]> m, n + 1)
     end) (m, 0) all_bytes).1.

(** [map.at(k)]: [None] is [std::out_of_range]. *)
Definition unicode_byte_to_utf8 (b : byte) : option (list byte) := unicode_byte_to_utf8_map !! u8 b.
Definition unicode_utf8_to_byte (s : list byte) : option byte := to_char <$> (unicode_utf8_to_byte_map !! s).

(** * Shape of an encoding *)

Definition scalar (cpt : Z) : Prop := 0 <= cpt <= 0x10ffff.

Lemma lor_shiftl a b n : 0 <= n -> 0 <= b < 2 ^ n -> Z.lor (Z.shiftl a n) b = a * 2 ^ n + b.
Proof.
  intros Hn Hb. rewrite <- Z.add_nocarry_lor; [by rewrite Z.shiftl_mul_pow2|].
  apply Z.bits_inj'. intros k Hk. rewrite Z.land_spec, Z.bits_0, Z.shiftl_spec by done.
  destruct (decide (k < n)).
  - by rewrite Z.testbit_neg_r by lia.
  - assert (Z.testbit b k = false) as ->; [|by rewrite andb_false_r].
    apply Z.testbit_false; [done|]. rewrite Z.div_small; [done|].
    split; [lia|]. apply Z.lt_le_trans with (2 ^ n); [lia|]. apply Z.pow_le_mono_r; lia.
Qed.

Lemma land_6 x : Z.land x 0x3f = x mod 64. Proof. apply (Z.land_ones x 6). lia. Qed.
Lemma land_5 x : Z.land x 0x1f = x mod 32. Proof. apply (Z.land_ones x 5). lia. Qed.
Lemma land_4 x : Z.land x 0x0f = x mod 16. Proof. apply (Z.land_ones x 4). lia. Qed.
Lemma land_3 x : Z.land x 0x07 = x mod 8. Proof. apply (Z.land_ones x 3). lia. Qed.

Definition is_cont (c : byte) : bool := bool_decide (Z.shiftr (u8 c) 6 = 2).

(** The payload of a lead byte, as both decoders of the grammar extract it. *)
Definition lead_val (c : byte) : Z :=
  let n_remain := default 0 (remain_lookup !! Z.to_nat (Z.shiftr (u8 c) 4)) - 1 in
  Z.land (u8 c) (Z.land (Z.shiftl 1 (7 - n_remain) - 1) 0xff).

Definition lead_remain (c : byte) : Z := default 0 (remain_lookup !! Z.to_nat (Z.shiftr (u8 c) 4)) - 1.

Definition cont_of (y : Z) : byte := to_char (Z.lor 0x80 y).

Lemma cont_of_ok y : 0 <= y < 64 -> is_cont (cont_of y) = true /\ Z.land (u8 (cont_of y)) 0x3f = y /\
  Z.land (u8 (cont_of y)) 0xc0 = 0x80 /\ cont_of y <> x00.
Proof.
  intros Hy. apply (z_forall (fun y => is_cont (cont_of y) = true /\ Z.land (u8 (cont_of y)) 0x3f = y /\
    Z.land (u8 (cont_of y)) 0xc0 = 0x80 /\ cont_of y <> x00) 64); [vm_compute; reflexivity|done].
Qed.

Lemma lead1_ok y : 0 <= y < 128 -> lead_remain (to_char y) = 0 /\ lead_val (to_char y) = y /\ Z.land (u8 (to_char y)) 0x80 = 0 /\ u8 (to_char y) = y.
Proof.
  apply (z_forall (fun y => lead_remain (to_char y) = 0 /\ lead_val (to_char y) = y /\ Z.land (u8 (to_char y)) 0x80 = 0 /\
    u8 (to_char y) = y) 128). vm_compute. reflexivity.
Qed.

(** A lead byte with payload [y] and [n] continuation bytes, under both masks. *)
Definition lead_ok (n : Z) (tag mask stop : Z) (y : Z) : Prop :=
  let c := to_char (Z.lor tag y) in
  lead_remain c = n /\ lead_val c = y /\ c <> x00 /\ Z.land (u8 c) mask = y /\ Z.land (u8 c) 0x80 <> 0 /\
  Z.land (u8 c) 0x40 <> 0 /\ Z.land (u8 c) stop = 0.
#[local] Instance lead_ok_dec n tag mask stop y : Decision (lead_ok n tag mask stop y).
Proof. unfold lead_ok. apply _. Defined.

Lemma lead2_ok y : 0 <= y < 32 -> lead_ok 1 0xc0 0x1f 0x20 y.
Proof. apply (z_forall (lead_ok 1 0xc0 0x1f 0x20) 32). vm_compute. reflexivity. Qed.
Lemma lead3_ok y : 0 <= y < 16 -> lead_ok 2 0xe0 0x0f 0x10 y /\ Z.land (u8 (to_char (Z.lor 0xe0 y))) 0x20 <> 0.
Proof. apply (z_forall (fun y => lead_ok 2 0xe0 0x0f 0x10 y /\ Z.land (u8 (to_char (Z.lor 0xe0 y))) 0x20 <> 0) 16). vm_compute. reflexivity. Qed.
Lemma lead4_ok y : 0 <= y < 8 -> lead_ok 3 0xf0 0x07 0x08 y /\ Z.land (u8 (to_char (Z.lor 0xf0 y))) 0x20 <> 0 /\
  Z.land (u8 (to_char (Z.lor 0xf0 y))) 0x10 <> 0.
Proof.
  apply (z_forall (fun y => lead_ok 3 0xf0 0x07 0x08 y /\ Z.land (u8 (to_char (Z.lor 0xf0 y))) 0x20 <> 0 /\
    Z.land (u8 (to_char (Z.lor 0xf0 y))) 0x10 <> 0) 8). vm_compute. reflexivity.
Qed.

Lemma add_cont_of v y : 0 <= v < 2 ^ 26 -> 0 <= y < 64 -> add_cont v (cont_of y) = v * 64 + y.
Proof.
  intros Hv Hy. unfold add_cont. destruct (cont_of_ok y Hy) as (_ & -> & _). rewrite Z.shiftl_mul_pow2 by lia.
  unfold u32_wrap. change (2 ^ 6) with 64. rewrite Z.mod_small by lia. done.
Qed.

(** An encoding: the lead byte and its continuation bytes, whose payloads make up
    the code point. *)
Definition enc (cpt : Z) (c : byte) (t : list byte) : Prop :=
  Forall (fun b => is_cont b = true) t /\ lead_remain c = Z.of_nat (length t) /\ foldl add_cont (lead_val c) t = cpt /\
  (cpt <> 0 -> c <> x00) /\ length (c :: t) = unicode_len_utf8 c.

Lemma len_remain c : 0 <= lead_remain c -> unicode_len_utf8 c = S (Z.to_nat (lead_remain c)).
Proof.
  apply (byte_forall (fun z => 0 <= default 0 (remain_lookup !! Z.to_nat (Z.shiftr z 4)) - 1 ->
    default 0%nat (len_lookup !! Z.to_nat (Z.shiftr z 4)) = S (Z.to_nat (default 0 (remain_lookup !! Z.to_nat (Z.shiftr z 4)) - 1)))).
  vm_compute. reflexivity.
Qed.

Lemma enc_intro cpt c t : Forall (fun b => is_cont b = true) t -> lead_remain c = Z.of_nat (length t) ->
  foldl add_cont (lead_val c) t = cpt -> (cpt <> 0 -> c <> x00) -> enc cpt c t.
Proof. intros H1 H2 H3 H4. split_and!; try done. rewrite len_remain by lia. simpl. lia. Qed.

Lemma cont_of_is y : 0 <= y < 64 -> is_cont (cont_of y) = true.
Proof. intros Hy. by destruct (cont_of_ok y Hy). Qed.

#[local] Hint Resolve cont_of_is : core.

Lemma enc_shape cpt : scalar cpt -> exists c t, unicode_cpt_to_utf8 cpt = Ok (c :: t) /\ enc cpt c t.
Proof.
  intros [H0 H1]. unfold unicode_cpt_to_utf8. rewrite land_5, land_4, land_3, !land_6, !Z.shiftr_div_pow2 by lia.
  change (2 ^ 6) with 64. change (2 ^ 12) with 4096. change (2 ^ 18) with 262144. fold (cont_of (cpt mod 64)).
  fold (cont_of ((cpt / 64) mod 64)) (cont_of ((cpt / 4096) mod 64)).
  assert (forall z, 0 <= z mod 64 < 64) as Hm by (intros; by apply Z.mod_pos_bound).
  case_bool_decide as E1; [|case_bool_decide as E2; [|case_bool_decide as E3; [|case_bool_decide as E4; [|lia]]]];
    eexists _, _; (split; [reflexivity|]); apply enc_intro; repeat (apply Forall_cons; split); auto using Forall_nil.
  - by destruct (lead1_ok cpt) as (-> & _); [lia|].
  - by destruct (lead1_ok cpt) as (_ & -> & _); [lia|].
  - intros Hne Hx. destruct (lead1_ok cpt) as (_ & _ & _ & Hu); [lia|]. rewrite Hx in Hu. apply Hne. by rewrite <- Hu.
  - by destruct (lead2_ok ((cpt / 64) mod 32)) as (-> & _); [by apply Z.mod_pos_bound|].
  - simpl. destruct (lead2_ok ((cpt / 64) mod 32)) as (_ & -> & _); [by apply Z.mod_pos_bound|].
    pose proof (Z.mod_pos_bound (cpt / 64) 32 ltac:(lia)). pose proof (Hm cpt).
    rewrite add_cont_of by (try done; lia). Z.to_euclidean_division_equations; lia.
  - intros _. by destruct (lead2_ok ((cpt / 64) mod 32)) as (_ & _ & ? & _); [by apply Z.mod_pos_bound|].
  - by destruct (lead3_ok ((cpt / 4096) mod 16)) as [(-> & _) _]; [by apply Z.mod_pos_bound|].
  - simpl. destruct (lead3_ok ((cpt / 4096) mod 16)) as [(_ & -> & _) _]; [by apply Z.mod_pos_bound|].
    pose proof (Z.mod_pos_bound (cpt / 4096) 16 ltac:(lia)). pose proof (Hm cpt). pose proof (Hm (cpt / 64)).
    rewrite (add_cont_of (_ mod _)) by lia. rewrite (add_cont_of (_ + _)) by lia. Z.to_euclidean_division_equations; lia.
  - intros _. by destruct (lead3_ok ((cpt / 4096) mod 16)) as [(_ & _ & ? & _) _]; [by apply Z.mod_pos_bound|].
  - by destruct (lead4_ok ((cpt / 262144) mod 8)) as [(-> & _) _]; [by apply Z.mod_pos_bound|].
  - simpl. destruct (lead4_ok ((cpt / 262144) mod 8)) as [(_ & -> & _) _]; [by apply Z.mod_pos_bound|].
    pose proof (Z.mod_pos_bound (cpt / 262144) 8 ltac:(lia)). pose proof (Hm cpt). pose proof (Hm (cpt / 64)). pose proof (Hm (cpt / 4096)).
    rewrite (add_cont_of (_ mod _)) by lia. do 2 rewrite (add_cont_of (_ + _)) by lia. Z.to_euclidean_division_equations; lia.
  - intros _. by destruct (lead4_ok ((cpt / 262144) mod 8)) as [(_ & _ & ? & _) _]; [by apply Z.mod_pos_bound|].
Qed.


(** * Round trips of [unicode.cpp] *)

Lemma cont_at_of s i y : s !! i = Some (cont_of y) -> 0 <= y < 64 -> cont_at s i = true /\ low6 s i = y.
Proof.
  intros Hs Hy. unfold cont_at, low6. rewrite Hs. destruct (cont_of_ok y Hy) as (_ & H1 & H2 & _). simpl.
  split; [by apply bool_decide_true|done].
Qed.

Section RoundTrip.
Context `{BM : BuildMode}.

Lemma from_to_utf8 cpt s pre post : scalar cpt -> unicode_cpt_to_utf8 cpt = Ok s ->
  unicode_cpt_from_utf8 (pre ++ s ++ post) (length pre) = Some (Ok (cpt, (length pre + length s)%nat)).
Proof.
  intros [H0 H1]. unfold unicode_cpt_to_utf8. rewrite land_5, land_4, land_3, !land_6, !Z.shiftr_div_pow2 by lia.
  change (2 ^ 6) with 64. change (2 ^ 12) with 4096. change (2 ^ 18) with 262144. fold (cont_of (cpt mod 64)).
  fold (cont_of ((cpt / 64) mod 64)) (cont_of ((cpt / 4096) mod 64)). intros Hs.
  assert (forall z, 0 <= z mod 64 < 64) as Hm by (intros; by apply Z.mod_pos_bound).
  pose proof (Hm cpt) as M0. pose proof (Hm (cpt / 64)) as M1. pose proof (Hm (cpt / 4096)) as M2.
  set (u := pre ++ s ++ post).
  assert (forall k x, s !! k = Some x -> u !! (length pre + k)%nat = Some x) as Hu.
  { intros k x Hk. unfold u. rewrite lookup_app_r by lia. replace (length pre + k - length pre)%nat with k by lia.
    by apply lookup_app_l_Some. }
  assert (length pre < length u)%nat as Hlen.
  { unfold u. rewrite !length_app. destruct s; [|simpl; lia]. repeat case_bool_decide; done. }
  unfold unicode_cpt_from_utf8. rewrite (c_assert_true _) by (by apply bool_decide_true). cbn [mbind option_bind].
  revert Hs. case_bool_decide as E1; [|case_bool_decide as E2; [|case_bool_decide as E3; [|case_bool_decide as E4; [|lia]]]];
    intros [= <-]; pose proof (Hu 0%nat _ eq_refl) as Hc; rewrite Nat.add_0_r in Hc; rewrite Hc; cbn [mbind option_bind].
  - destruct (lead1_ok cpt) as (_ & _ & L1 & L2); [lia|]. rewrite L1, L2. by rewrite bool_decide_true.
  - destruct (lead2_ok ((cpt / 64) mod 32)) as (_ & _ & _ & L1 & L2 & L3 & L4); [by apply Z.mod_pos_bound|].
    destruct (cont_at_of _ _ _ (Hu 1%nat _ eq_refl) M0) as [-> ->]. rewrite L1, L4.
    rewrite !(bool_decide_false _) by done. rewrite bool_decide_true by done. simpl. rewrite (lor_shiftl _ _ 6) by (simpl; lia).
    do 3 f_equal. Z.to_euclidean_division_equations; lia.
  - destruct (lead3_ok ((cpt / 4096) mod 16)) as [(_ & _ & _ & L1 & L2 & L3 & L4) L5]; [by apply Z.mod_pos_bound|].
    destruct (cont_at_of _ _ _ (Hu 1%nat _ eq_refl) M1) as [-> ->]. destruct (cont_at_of _ _ _ (Hu 2%nat _ eq_refl) M0) as [-> ->].
    rewrite L1, L4. rewrite !(bool_decide_false _) by done. rewrite bool_decide_true by done. simpl.
    rewrite <- Z.lor_assoc, (lor_shiftl _ (_ mod 64) 6) by (simpl; lia). rewrite (lor_shiftl _ _ 12) by (simpl; lia).
    do 3 f_equal. Z.to_euclidean_division_equations; lia.
  - destruct (lead4_ok ((cpt / 262144) mod 8)) as [(_ & _ & _ & L1 & L2 & L3 & L4) [L5 L6]]; [by apply Z.mod_pos_bound|].
    destruct (cont_at_of _ _ _ (Hu 1%nat _ eq_refl) M2) as [-> ->]. destruct (cont_at_of _ _ _ (Hu 2%nat _ eq_refl) M1) as [-> ->].
    destruct (cont_at_of _ _ _ (Hu 3%nat _ eq_refl) M0) as [-> ->].
    rewrite L1, L4. rewrite !(bool_decide_false _) by done. rewrite bool_decide_true by done. simpl.
    rewrite <- !Z.lor_assoc, (lor_shiftl _ (_ mod 64) 6) by (simpl; lia). rewrite (lor_shiftl _ _ 12) by (simpl; lia).
    rewrite (lor_shiftl _ _ 18) by (simpl; lia).
    do 3 f_equal. Z.to_euclidean_division_equations; lia.
Qed.

Lemma enc_length cpt s : unicode_cpt_to_utf8 cpt = Ok s -> (0 < length s)%nat.
Proof. unfold unicode_cpt_to_utf8. repeat case_bool_decide; intros [= <-]; simpl; lia. Qed.

Lemma cpts_loop_valid cps : forall fuel pre s res, Forall scalar cps -> unicode_cpts_to_utf8 cps = Ok s -> (length s <= fuel)%nat ->
  cpts_loop fuel (pre ++ s) (length pre) res = Some (res ++ cps).
Proof.
  induction cps as [|cpt cps IH]; intros fuel pre s res Hall Hs Hf; simpl in Hs.
  - injection Hs as <-. rewrite app_nil_r. destruct fuel; simpl; rewrite bool_decide_false by lia; by rewrite app_nil_r.
  - apply Forall_cons in Hall as [Hc Hall]. apply result_bind_ok in Hs as (e & He & Hs). apply result_bind_ok in Hs as (r & Hr & [= <-]).
    pose proof (enc_length _ _ He). rewrite !length_app in *. destruct fuel as [|fuel]; [lia|].
    simpl. rewrite bool_decide_true by (rewrite !length_app; lia). rewrite (from_to_utf8 _ _ _ _ Hc He). cbn [mbind option_bind].
    rewrite app_assoc, <- length_app. rewrite (IH fuel (pre ++ e) r) by (done || lia). by rewrite <- app_assoc.
Qed.

(** Decoding one code point answers, and moves on when it succeeds. *)
Lemma cpt_from_utf8_total utf8 offset : (offset < length utf8)%nat ->
  exists r, unicode_cpt_from_utf8 utf8 offset = Some r /\ match r with Ok (_, o) => (offset < o <= length utf8)%nat | Err _ => True end.
Proof.
  intros Hlt. unfold unicode_cpt_from_utf8. rewrite (c_assert_true _) by (by apply bool_decide_true). cbn [mbind option_bind].
  destruct (lookup_lt_is_Some_2 utf8 offset Hlt) as [c ->]. cbn [mbind option_bind]. eexists. split; [reflexivity|].
  assert (forall k, cont_at utf8 k = true -> (k < length utf8)%nat) as Hk.
  { intros k. unfold cont_at. destruct (utf8 !! k) eqn:E; [|done]. intros _. by eapply lookup_lt_Some. }
  repeat case_bool_decide; simpl; try lia; try done.
  - destruct (cont_at utf8 (offset + 1)) eqn:E; simpl; [|done]. apply Hk in E. lia.
  - destruct (cont_at utf8 (offset + 1)); simpl; [|done]. destruct (cont_at utf8 (offset + 2)) eqn:E; simpl; [|done]. apply Hk in E. lia.
  - destruct (cont_at utf8 (offset + 1)); simpl; [|done]. destruct (cont_at utf8 (offset + 2)); simpl; [|done].
    destruct (cont_at utf8 (offset + 3)) eqn:E; simpl; [|done]. apply Hk in E. lia.
Qed.

(** Whatever the bytes, the loop ends, with at most one code point per byte. *)
Lemma cpts_loop_total utf8 : forall fuel offset res, (length utf8 <= offset + fuel)%nat -> (offset <= length utf8)%nat ->
  exists out, cpts_loop fuel utf8 offset res = Some out /\ (length out <= length res + (length utf8 - offset))%nat.
Proof.
  induction fuel as [|fuel IH]; intros offset res Hf Ho; simpl.
  - rewrite bool_decide_false by lia. exists res. split; [done|lia].
  - case_bool_decide as Hlt; [|exists res; split; [done|lia]].
    destruct (cpt_from_utf8_total utf8 offset Hlt) as (r & -> & Hr).
    cbn [mbind option_bind]. destruct r as [[cpt o]|e].
    + destruct (IH o (res ++ [cpt])) as (out & -> & Hout); [lia|lia|]. exists out. split; [done|]. rewrite length_app in Hout. simpl in Hout. lia.
    + destruct (IH (S offset) (res ++ [0xFFFD])) as (out & -> & Hout); [lia|lia|]. exists out. split; [done|]. rewrite length_app in Hout. simpl in Hout. lia.
Qed.

(** Encoding Unicode code points as UTF-8 and decoding the bytes gives the
    code points back. *)
Theorem utf8_roundtrip (cps : list Z) (s : list byte) :
  Forall scalar cps -> unicode_cpts_to_utf8 cps = Ok s -> unicode_cpts_from_utf8 s = Some cps.
Proof. intros Hall Hs. apply (cpts_loop_valid cps (length s) [] s []); [done..|lia]. Qed.

(** Decoding never fails, reads no byte outside of the text and ends, for
    every sequence of bytes: invalid bytes become replacement characters, and
    there is at most one code point per byte. *)
Theorem cpts_from_utf8_total (s : list byte) :
  exists out, unicode_cpts_from_utf8 s = Some out /\ (length out <= length s)%nat.
Proof. destruct (cpts_loop_total s (length s) 0 []) as (out & Ho & Hl); [lia|lia|]. exists out. split; [done|]. simpl in Hl. lia. Qed.
End RoundTrip.

Lemma utf8_roundtrip_witness :
  unicode_cpts_from_utf8 (H := debug_build) [x41; xc3; xa9; xe2; x82; xac; xf0; x9f; x98; x80] = Some [0x41; 0xe9; 0x20ac; 0x1f600].
Proof. apply utf8_roundtrip; [repeat constructor; by vm_compute|vm_compute; reflexivity]. Defined.

Lemma byte_maps_inverse (b : byte) :
  (unicode_byte_to_utf8_map !! u8 b ≫= fun s => unicode_utf8_to_byte_map !! s) = Some (u8 b).
Proof.
  apply (byte_forall (fun z => (unicode_byte_to_utf8_map !! z ≫= fun s => unicode_utf8_to_byte_map !! s) = Some z)).
  vm_compute. reflexivity.
Qed.

(** The byte-level alphabet is a bijection: every byte has a printable
    text, and that text stands for the byte. *)
Theorem byte_alphabet_roundtrip (b : byte) :
  exists s, unicode_byte_to_utf8 b = Some s /\ unicode_utf8_to_byte s = Some b.
Proof.
  pose proof (byte_maps_inverse b) as H. unfold unicode_byte_to_utf8, unicode_utf8_to_byte.
  destruct (unicode_byte_to_utf8_map !! u8 b) as [s|]; [|done]. exists s. split; [done|]. simpl in H. rewrite H. simpl. by rewrite to_char_u8.
Qed.


(** * The resumable decoder *)

(** [r] is the part of a sequence that was consumed: nothing, or a lead byte and
    some of its continuation bytes, with the bits seen so far. *)
Definition pending (p : llama_partial_utf8) (r : list byte) : Prop :=
  match r with
  | [] => pu_n_remain p = 0
  | c :: t => pu_n_remain p = lead_remain c - Z.of_nat (length t) /\ 0 < pu_n_remain p /\
              pu_value p = foldl add_cont (lead_val c) t
  end.

(** [s] is the encoding of non-zero code points [cps]. *)
Inductive encoded : list Z -> list byte -> Prop :=
  | encoded_nil : encoded [] []
  | encoded_cons cpt cps c t s : enc cpt c t -> cpt <> 0 -> encoded cps s -> encoded (cpt :: cps) (c :: t ++ s).

Lemma utf8_encoded cps : forall s, Forall (fun c => scalar c /\ c <> 0) cps -> unicode_cpts_to_utf8 cps = Ok s -> encoded cps s.
Proof.
  induction cps as [|cpt cps IH]; intros s Hall Hs; simpl in Hs; [injection Hs as <-; constructor|].
  apply Forall_cons in Hall as [[Hc Hne] Hall]. apply result_bind_ok in Hs as (e & He & Hs). apply result_bind_ok in Hs as (r & Hr & [= <-]).
  destruct (enc_shape cpt Hc) as (c & t & He' & Henc). rewrite He in He'. injection He' as ->. simpl. constructor; [done..|]. by apply IH.
Qed.

Lemma is_cont_nonzero c : is_cont c = true -> c <> x00.
Proof. by intros H ->. Qed.

Lemma encoded_no_nul cps s : encoded cps s -> no_nul s.
Proof.
  induction 1 as [|cpt cps c t s (Ht & _ & _ & Hc & _) Hne _ IH]; [apply not_elem_of_nil|]. intros [Heq|[Hin|Hin]%elem_of_app]%elem_of_cons.
  - by apply Hc.
  - rewrite Forall_forall in Ht. by apply (is_cont_nonzero x00); [apply Ht|].
  - by apply IH.
Qed.

(** The continuation bytes in [t], all of them or the first of them. *)
Lemma cont_checked_all t s v : Forall (fun b => is_cont b = true) t ->
  cont_checked (t ++ s) v (Z.of_nat (length t)) = cont_checked s (foldl add_cont v t) 0.
Proof.
  intros Ht. revert v. induction Ht as [|c t Hc Ht IH]; intros v; [done|]. cbn [app length cont_checked foldl]. rewrite bool_decide_true by lia.
  apply bool_decide_eq_true in Hc. rewrite bool_decide_false by (rewrite Hc; auto). replace (Z.of_nat (S (length t)) - 1) with (Z.of_nat (length t)) by lia. apply IH.
Qed.

Lemma cont_checked_part t v n : Forall (fun b => is_cont b = true) t -> Z.of_nat (length t) < n ->
  cont_checked t v n = Some (foldl add_cont v t, n - Z.of_nat (length t), []).
Proof.
  intros Ht. revert v n. induction Ht as [|c t Hc Ht IH]; intros v n Hn; simpl; [do 3 f_equal; lia|]. simpl in Hn. rewrite bool_decide_true by lia.
  apply bool_decide_eq_true in Hc. rewrite bool_decide_false by (rewrite Hc; auto). rewrite IH by lia. do 3 f_equal. lia.
Qed.

Lemma cont_checked_0 s v : cont_checked s v 0 = Some (v, 0, s).
Proof. by destruct s. Qed.

Lemma cont_unchecked_all t s v : cont_unchecked (t ++ s) v (Z.of_nat (length t)) = cont_unchecked s (foldl add_cont v t) 0.
Proof.
  revert v. induction t as [|c t IH]; intros v; [done|]. cbn [app length cont_unchecked foldl]. rewrite bool_decide_true by lia.
  replace (Z.of_nat (S (length t)) - 1) with (Z.of_nat (length t)) by lia. apply IH.
Qed.

Lemma cont_unchecked_part t v n : Z.of_nat (length t) < n ->
  cont_unchecked t v n = (foldl add_cont v t, n - Z.of_nat (length t), []).
Proof.
  revert v n. induction t as [|c t IH]; intros v n Hn; simpl; [do 2 f_equal; lia|]. simpl in Hn. rewrite bool_decide_true by lia.
  rewrite IH by lia. do 2 f_equal. lia.
Qed.

Lemma cont_unchecked_0 s v : cont_unchecked s v 0 = (v, 0, s).
Proof. by destruct s. Qed.

(** A split of a text whose head is [t]: inside of [t], or after it. *)
Lemma split_head {A} (t s rest r : list A) : s ++ rest = t ++ r ->
  (exists s', s = t ++ s' /\ s' ++ rest = r) \/ (exists k, t = s ++ k /\ rest = k ++ r /\ (length s < length t)%nat).
Proof.
  intros H. destruct (decide (length s < length t)%nat) as [Hlt|Hge].
  - right. exists (drop (length s) t). assert (s = take (length s) t) as Hs.
    { apply (f_equal (take (length s))) in H. rewrite take_app_length, take_app_le in H by lia. done. }
    split_and!; [rewrite Hs at 1; by rewrite take_drop| |done].
    apply (f_equal (drop (length s))) in H. by rewrite drop_app_length, drop_app_le in H by lia.
  - left. exists (drop (length t) s). split.
    + apply (f_equal (take (length t))) in H. rewrite take_app_length, take_app_le in H by lia. rewrite <- H at 1. by rewrite take_drop.
    + apply (f_equal (drop (length t))) in H. by rewrite drop_app_length, drop_app_le in H by lia.
Qed.

Lemma lead_remain_lt c : lead_remain c < 4.
Proof.
  apply (byte_forall (fun z => default 0 (remain_lookup !! Z.to_nat (Z.shiftr z 4)) - 1 < 4)). vm_compute. reflexivity.
Qed.

Lemma decode_loop_S fuel c s v n cps : decode_loop (S fuel) (c :: s) v n cps =
  if bool_decide (lead_remain c < 0) then Some ([0], mkPartial 0 (lead_remain c)) else
  let '(value, n_remain, s'') := cont_unchecked s (lead_val c) (lead_remain c) in
  decode_loop fuel s'' value n_remain (if bool_decide (n_remain = 0) then cps ++ [value] else cps).
Proof. reflexivity. Qed.

(** The outer loop on the beginning [s] of an encoding. *)
Lemma decode_loop_ok cps text : encoded cps text -> forall fuel s rest v out, s ++ rest = text -> (length s <= fuel)%nat ->
  exists cps1 cps2 p r, cps = cps1 ++ cps2 /\ decode_loop fuel s v 0 out = Some (out ++ cps1 ++ [0], p) /\ pending p r /\
    encoded cps2 (r ++ rest).
Proof.
  induction 1 as [|cpt cps c t text Henc Hne Htext IH]; intros fuel s rest v out Hs Hf.
  - apply app_nil in Hs as [-> ->]. exists [], [], (mkPartial v 0), []. split_and!; [done|by destruct fuel|done|constructor].
  - destruct s as [|c' s].
    { simpl in Hs. subst rest. exists [], (cpt :: cps), (mkPartial v 0), []. split_and!; [done|by destruct fuel|done|by constructor]. }
    simpl in Hs. injection Hs as -> Hs. simpl in Hf. destruct fuel as [|fuel]; [lia|]. rewrite decode_loop_S.
    pose proof Henc as (Ht & Hl & Hfold & _). rewrite bool_decide_false by lia. rewrite Hl.
    apply split_head in Hs as [(s' & -> & Hs')|(k & Hk & -> & Hlen)].
    + rewrite cont_unchecked_all, cont_unchecked_0, Hfold. rewrite bool_decide_true by done.
      rewrite length_app in Hf. destruct (IH fuel s' rest cpt (out ++ [cpt])) as (cps1 & cps2 & p & r & -> & -> & Hp & Hr); [done|lia|].
      exists (cpt :: cps1), cps2, p, r. split_and!; try done. f_equal. f_equal. by rewrite <- app_assoc.
    + rewrite cont_unchecked_part by lia. rewrite bool_decide_false by lia.
      exists [], (cpt :: cps), (mkPartial (foldl add_cont (lead_val c) s) (Z.of_nat (length t) - Z.of_nat (length s))), (c :: s).
      split_and!; [done|by destruct fuel|simpl; split_and!; [by rewrite Hl|lia|done]|]. simpl.
      rewrite app_assoc, <- Hk. by constructor.
Qed.

(** One call on a piece [s] of a text of which [r] is pending. *)
Lemma decode_utf8_ok cps p r s rest : pending p r -> encoded cps (r ++ s ++ rest) ->
  exists cps1 cps2 p' r', cps = cps1 ++ cps2 /\ decode_utf8 s p = Some (cps1 ++ [0], p') /\ pending p' r' /\ encoded cps2 (r' ++ rest).
Proof.
  intros Hp He. assert (no_nul s) as Hs.
  { intros Hin. apply (encoded_no_nul _ _ He). rewrite !elem_of_app. auto. }
  unfold decode_utf8. rewrite c_str_id by done. destruct r as [|c t'].
  - simpl in Hp, He. rewrite Hp, cont_checked_0. rewrite bool_decide_false by lia.
    apply (decode_loop_ok cps (s ++ rest) He (length s) s rest (pu_value p) []); [done|lia].
  - destruct Hp as (Hn & Hpos & Hv). remember ((c :: t') ++ s ++ rest) as full eqn:E2. destruct He as [|cpt cps' c' t text Henc Hne Htext]; [done|].
    simpl in E2. injection E2 as -> E2. symmetry in E2.
    pose proof Henc as (Ht & Hl & Hfold & _). rewrite Hl in Hn.
    apply split_head in E2 as [(s' & -> & E2)|(k & Hk & E2 & Hlen)]; [exfalso; rewrite length_app in Hn; lia|].
    subst t. apply Forall_app in Ht as [Ht' Hkc]. rewrite length_app in Hn. rewrite foldl_app, <- Hv in Hfold.
    apply split_head in E2 as [(s' & -> & E2)|(k' & -> & -> & Hlen')].
    + replace (pu_n_remain p) with (Z.of_nat (length k)) by lia. rewrite cont_checked_all, cont_checked_0, Hfold by done.
      rewrite bool_decide_true by lia.
      destruct (decode_loop_ok cps' text Htext (length s') s' rest cpt [cpt]) as (cps1 & cps2 & p' & r' & -> & -> & Hp' & Hr'); [done|lia|].
      by exists (cpt :: cps1), cps2, p', r'.
    + apply Forall_app in Hkc as [Hsc _]. rewrite length_app in Hn, Hlen'. rewrite cont_checked_part by (done || lia).
      rewrite bool_decide_false by lia. simpl.
      exists [], (cpt :: cps'), (mkPartial (foldl add_cont (pu_value p) s) (pu_n_remain p - Z.of_nat (length s))), (c :: t' ++ s).
      split_and!; [done|done|simpl; rewrite length_app, foldl_app, <- Hv; split_and!; [rewrite Hl, !length_app; lia|lia|done]|].
      simpl. rewrite app_assoc, <- (app_assoc t'). by constructor.
Qed.

(** The code points of a text that arrives in pieces, without the terminators. *)
Fixpoint decode_chunks (chunks : list (list byte)) (p : llama_partial_utf8) : option (list Z * llama_partial_utf8) :=
  match chunks with
  | [] => Some ([], p)
  | s :: chunks =>
      '(cps, p) ← decode_utf8 s p;
      '(cps', p) ← decode_chunks chunks p;
      Some (removelast cps ++ cps', p)
  end.

Lemma decode_chunks_ok chunks : forall cps p r, pending p r -> encoded cps (r ++ concat chunks) ->
  exists p', decode_chunks chunks p = Some (cps, p') /\ pu_n_remain p' = 0.
Proof.
  induction chunks as [|s chunks IH]; intros cps p r Hp He; simpl in *.
  - rewrite app_nil_r in He. exists p. destruct He as [|cpt cps' c t text (_ & Hl & _) _ _]; [by split|]. exfalso.
    destruct Hp as (Hn & Hpos & _). rewrite Hl, length_app in Hn. lia.
  - destruct (decode_utf8_ok _ _ _ _ _ Hp He) as (cps1 & cps2 & p' & r' & -> & -> & Hp' & Hr'). simpl.
    destruct (IH cps2 p' r' Hp' Hr') as (p'' & -> & Hn). simpl. exists p''. by rewrite removelast_last.
Qed.

(** C40: decoding a valid text in pieces, cut at any bytes, gives the code points
    of the whole text: what a piece leaves incomplete the next one completes. *)
Theorem decode_utf8_streaming (cps : list Z) (chunks : list (list byte)) :
  Forall (fun c => scalar c /\ c <> 0) cps -> unicode_cpts_to_utf8 cps = Ok (concat chunks) ->
  exists p, decode_chunks chunks (mkPartial 0 0) = Some (cps, p) /\ pu_n_remain p = 0.
Proof. intros Hall Hs. apply (decode_chunks_ok chunks cps _ []); [done|]. by apply utf8_encoded. Qed.

Lemma decode_utf8_streaming_witness :
  exists p, decode_chunks [[x41; xe2]; []; [x82]; [xac; xf0; x9f]; [x98; x80]] (mkPartial 0 0) = Some ([0x41; 0x20ac; 0x1f600], p) /\
    pu_n_remain p = 0.
Proof. apply decode_utf8_streaming; [repeat constructor; by vm_compute|vm_compute; reflexivity]. Defined.

(** The decoder ends on every input, and its code points end with the terminator. *)
Lemma cont_unchecked_length s : forall v n v' n' s', cont_unchecked s v n = (v', n', s') -> (length s' <= length s)%nat.
Proof.
  induction s as [|c s IH]; intros v n v' n' s'; simpl; [intros [= <- <- <-]; simpl; lia|].
  case_bool_decide; [intros ?%IH; lia|intros [= <- <- <-]; simpl; lia].
Qed.

Lemma cont_checked_length s : forall v n v' n' s', cont_checked s v n = Some (v', n', s') -> (length s' <= length s)%nat.
Proof.
  induction s as [|c s IH]; intros v n v' n' s'; simpl; [intros [= <- <- <-]; simpl; lia|].
  case_bool_decide; [case_bool_decide; [done|intros ?%IH; lia]|intros [= <- <- <-]; simpl; lia].
Qed.

Lemma decode_loop_total fuel : forall s v n cps, (length s <= fuel)%nat -> exists cps' p, decode_loop fuel s v n cps = Some (cps' ++ [0], p).
Proof.
  induction fuel as [|fuel IH]; intros [|c s] v n cps Hf; simpl in Hf; try lia; try (by eexists _, _).
  rewrite decode_loop_S. case_bool_decide; [by exists [], (mkPartial 0 (lead_remain c))|].
  destruct (cont_unchecked s (lead_val c) (lead_remain c)) as [[v' n'] s'] eqn:E. apply cont_unchecked_length in E. apply IH. lia.
Qed.

Lemma decode_utf8_total s p : exists cps p', decode_utf8 s p = Some (cps ++ [0], p').
Proof.
  unfold decode_utf8. destruct (cont_checked _ _ _) as [[[v n] s']|] eqn:E; [|by exists [], (mkPartial 0 (-1))].
  by apply decode_loop_total.
Qed.

End Utf8.
