(* ===== verification/Grammar.v ===== *)
(** Grammar-constrained decoding: the pushdown machine of
    [llama_cpp_repo/src/llama-grammar.cpp] and [llama-grammar.h].  This file
    holds the model: grammar elements and rules, matching one character or
    token, expanding a stack to its terminals, accepting characters and tokens,
    rejecting candidates, the left-recursion check and the initialisation.  The
    parser of the grammar text is in GrammarParse.v. *)

From S2P Require Import Bytes.
From S2P Require Import Utf8.
Import Utf8.Utf8.

Module Grammar.

(** * Rules *)

Inductive llama_gretype :=
  | LLAMA_GRETYPE_END
  | LLAMA_GRETYPE_ALT
  | LLAMA_GRETYPE_RULE_REF
  | LLAMA_GRETYPE_CHAR
  | LLAMA_GRETYPE_CHAR_NOT
  | LLAMA_GRETYPE_CHAR_RNG_UPPER
  | LLAMA_GRETYPE_CHAR_ALT
  | LLAMA_GRETYPE_CHAR_ANY
  | LLAMA_GRETYPE_TOKEN
  | LLAMA_GRETYPE_TOKEN_NOT.

#[global] Instance gretype_eq_dec : EqDecision llama_gretype.
Proof. solve_decision. Defined.

(** The value is a code point, the id of a rule or the id of a token. *)
Record llama_grammar_element := mkElem { el_type : llama_gretype; el_value : Z }.

#[global] Instance element_eq_dec : EqDecision llama_grammar_element.
Proof. solve_decision. Defined.

Abbreviation llama_grammar_rule := (list llama_grammar_element).
Abbreviation llama_grammar_rules := (list llama_grammar_rule).

(** A pointer to an element is the index of its rule and the index in the rule;
    a stack lists its pointers from the top, [back()] first. *)
Abbreviation gptr := (nat * nat)%type.
Abbreviation llama_grammar_stack := (list gptr).
Abbreviation llama_grammar_stacks := (list llama_grammar_stack).

Definition elem_at (rules : llama_grammar_rules) (p : gptr) : option llama_grammar_element :=
  r ← rules !! p.1; r !! p.2.
Definition ptr_add (p : gptr) (n : nat) : gptr := (p.1, p.2 + n).

Definition llama_grammar_is_end_of_sequence (e : llama_grammar_element) : bool :=
  match el_type e with
  | LLAMA_GRETYPE_END | LLAMA_GRETYPE_ALT => true
  | _ => false
  end.

Definition is_char_element (e : llama_grammar_element) : bool :=
  match el_type e with
  | LLAMA_GRETYPE_CHAR | LLAMA_GRETYPE_CHAR_NOT | LLAMA_GRETYPE_CHAR_ALT
  | LLAMA_GRETYPE_CHAR_RNG_UPPER | LLAMA_GRETYPE_CHAR_ANY => true
  | _ => false
  end.

Definition is_token_element (e : llama_grammar_element) : bool :=
  match el_type e with
  | LLAMA_GRETYPE_TOKEN | LLAMA_GRETYPE_TOKEN_NOT => true
  | _ => false
  end.

Definition is_positive_char (e : llama_grammar_element) : bool :=
  match el_type e with
  | LLAMA_GRETYPE_CHAR | LLAMA_GRETYPE_CHAR_ANY => true
  | _ => false
  end.

Definition has_type (t : llama_gretype) (e : llama_grammar_element) : bool := bool_decide (el_type e = t).

(** * Matching one position *)

(** The [do ... while] of [llama_grammar_match_char], on the elements from the
    position on: whether a range matched, and the elements passed. *)
Fixpoint match_loop (chr : Z) (l : list llama_grammar_element) (found : bool) (n : nat) : option (bool * nat) :=
  match l with
  | e :: ((e1 :: l2) as l1) =>
      if has_type LLAMA_GRETYPE_CHAR_RNG_UPPER e1 then
        let found := found || bool_decide (el_value e <= chr <= el_value e1)%Z in
        e2 ← head l2;
        if has_type LLAMA_GRETYPE_CHAR_ALT e2 then match_loop chr l2 found (n + 2) else Some (found, n + 2)
      else
        let found := if has_type LLAMA_GRETYPE_CHAR_ANY e then true else found || bool_decide (el_value e = chr) in
        if has_type LLAMA_GRETYPE_CHAR_ALT e1 then match_loop chr l1 found (n + 1) else Some (found, n + 1)
  | _ => None
  end.

Definition llama_grammar_match_char (rules : llama_grammar_rules) (pos : gptr) (chr : Z) : option (bool * gptr) :=
  e ← elem_at rules pos;
  GGML_ASSERT is_positive_char e || has_type LLAMA_GRETYPE_CHAR_NOT e;
  r ← rules !! pos.1;
  '(found, n) ← match_loop chr (drop pos.2 r) false 0;
  Some (eqb found (is_positive_char e), ptr_add pos n).

Fixpoint partial_loop (low high : Z) (positive : bool) (l : list llama_grammar_element) : option bool :=
  match l with
  | e :: ((e1 :: l2) as l1) =>
      if has_type LLAMA_GRETYPE_CHAR_RNG_UPPER e1 then
        if bool_decide (el_value e <= high /\ low <= el_value e1)%Z then Some positive else
        e2 ← head l2;
        if has_type LLAMA_GRETYPE_CHAR_ALT e2 then partial_loop low high positive l2 else Some (negb positive)
      else if has_type LLAMA_GRETYPE_CHAR_ANY e then Some true
      else if bool_decide (low <= el_value e <= high)%Z then Some positive
      else if has_type LLAMA_GRETYPE_CHAR_ALT e1 then partial_loop low high positive l1 else Some (negb positive)
  | _ => None
  end.

(** The code points a partial sequence can complete to: [low, high]. *)
Definition partial_low (p : llama_partial_utf8) : Z :=
  let low := u32_wrap (Z.shiftl (pu_value p) (pu_n_remain p * 6)) in
  if bool_decide (low = 0)%Z then
    if bool_decide (pu_n_remain p = 2)%Z then Z.shiftl 1 11
    else if bool_decide (pu_n_remain p = 3)%Z then Z.shiftl 1 16 else low
  else low.
Definition partial_high (p : llama_partial_utf8) : Z :=
  Z.lor (u32_wrap (Z.shiftl (pu_value p) (pu_n_remain p * 6))) (Z.shiftl 1 (pu_n_remain p * 6) - 1).

(** A shift of an [int] by more than 30 bits has no value. *)
Definition llama_grammar_match_partial_char (rules : llama_grammar_rules) (pos : gptr) (p : llama_partial_utf8) : option bool :=
  e ← elem_at rules pos;
  GGML_ASSERT is_positive_char e || has_type LLAMA_GRETYPE_CHAR_NOT e;
  if bool_decide (pu_n_remain p < 0 \/ (pu_n_remain p = 1 /\ pu_value p < 2))%Z then Some false else
  if bool_decide (30 < pu_n_remain p * 6)%Z then None else
  r ← rules !! pos.1;
  partial_loop (partial_low p) (partial_high p) (is_positive_char e) (drop pos.2 r).

Definition llama_grammar_match_token (rules : llama_grammar_rules) (pos : gptr) (token : Z) : option bool :=
  e ← elem_at rules pos;
  GGML_ASSERT is_token_element e;
  if has_type LLAMA_GRETYPE_TOKEN e then Some (bool_decide (el_value e = u32_wrap token))
  else Some (negb (bool_decide (el_value e = u32_wrap token))).

(** * Expanding a stack *)

(** Scan to the end of an alternate: the next one, if there is one. *)
Fixpoint scan_alternate (l : list llama_grammar_element) (i : nat) : option (option nat) :=
  match l with
  | [] => None
  | e :: l =>
      if llama_grammar_is_end_of_sequence e
      then Some (if has_type LLAMA_GRETYPE_ALT e then Some (S i) else None)
      else scan_alternate l (S i)
  end.

Definition next_alternate (rules : llama_grammar_rules) (p : gptr) : option (option gptr) :=
  r ← rules !! p.1;
  n ← scan_alternate (drop p.2 r) p.2;
  Some (match n with Some i => Some (p.1, i) | None => None end).

(** The [do ... while] over the alternates of a rule. *)
Fixpoint for_alternates {S : Type} (n : nat) (rules : llama_grammar_rules) (f : gptr -> S -> option S) (p : gptr) (s : S) : option S :=
  match n with
  | 0 => None
  | S n =>
      s ← f p s;
      q ← next_alternate rules p;
      match q with
      | Some p => for_alternates n rules f p s
      | None => Some s
      end
  end.

(** [push_back(p)] unless [p] is at the end of its alternate. *)
Definition push (rules : llama_grammar_rules) (p : gptr) (stack : llama_grammar_stack) : option llama_grammar_stack :=
  e ← elem_at rules p;
  Some (if llama_grammar_is_end_of_sequence e then stack else p :: stack).

Definition add_stack (s : llama_grammar_stack) (l : llama_grammar_stacks) : llama_grammar_stacks :=
  if bool_decide (s ∈ l) then l else l ++ [s].

Fixpoint llama_grammar_advance_stack (fuel : nat) (rules : llama_grammar_rules) (stack : llama_grammar_stack)
    (new_stacks : llama_grammar_stacks) : option llama_grammar_stacks :=
  match fuel with
  | 0 => None
  | S fuel =>
      match stack with
      | [] => Some (add_stack [] new_stacks)
      | pos :: rest =>
          e ← elem_at rules pos;
          match el_type e with
          | LLAMA_GRETYPE_RULE_REF =>
              let rule_id := Z.to_nat (el_value e) in
              r ← rules !! rule_id;
              for_alternates (length r) rules (fun subpos new_stacks =>
                s ← push rules (ptr_add pos 1) rest;
                s ← push rules subpos s;
                llama_grammar_advance_stack fuel rules s new_stacks) (rule_id, 0) new_stacks
          | LLAMA_GRETYPE_CHAR | LLAMA_GRETYPE_CHAR_NOT | LLAMA_GRETYPE_CHAR_ANY
          | LLAMA_GRETYPE_TOKEN | LLAMA_GRETYPE_TOKEN_NOT => Some (add_stack (pos :: rest) new_stacks)
          | _ => None
          end
      end
  end.

(** * Accepting characters *)

Definition llama_grammar_accept_chr (fuel : nat) (rules : llama_grammar_rules) (chr : Z) (stack : llama_grammar_stack)
    (new_stacks : llama_grammar_stacks) : option llama_grammar_stacks :=
  match stack with
  | [] => Some new_stacks
  | pos :: rest =>
      e ← elem_at rules pos;
      if is_token_element e then Some new_stacks else
      '(b, pos') ← llama_grammar_match_char rules pos chr;
      if (b : bool) then s ← push rules pos' rest; llama_grammar_advance_stack fuel rules s new_stacks
      else Some new_stacks
  end.

Definition accept_stacks (fuel : nat) (rules : llama_grammar_rules) (chr : Z) (stacks : llama_grammar_stacks) : option llama_grammar_stacks :=
  foldM (llama_grammar_accept_chr fuel rules chr) stacks [].

(** * Rejecting candidates *)

(** [code_points] is the array of the candidate and [c_off] the offset of its
    pointer in it. *)
Record llama_grammar_candidate := mkCand {
  c_index : nat; c_code_points : list Z; c_off : nat; c_partial_utf8 : llama_partial_utf8; c_id : Z }.

#[global] Instance candidate_eq_dec : EqDecision llama_grammar_candidate.
Proof. solve_decision. Defined.

Definition c_move (off : nat) (c : llama_grammar_candidate) : llama_grammar_candidate :=
  mkCand (c_index c) (c_code_points c) off (c_partial_utf8 c) (c_id c).

Definition c_cur (c : llama_grammar_candidate) : option Z := c_code_points c !! c_off c.

Abbreviation candidates := (list llama_grammar_candidate) (only parsing).

(** The loop body for an empty stack, for a token and for a character. *)
Definition reject_at_end (tok : llama_grammar_candidate) (rejects : candidates) : option candidates :=
  c ← c_cur tok;
  Some (if bool_decide (c <> 0 \/ pu_n_remain (c_partial_utf8 tok) <> 0)%Z then rejects ++ [tok] else rejects).

Definition reject_at_token (rules : llama_grammar_rules) (pos : gptr) (tok : llama_grammar_candidate) (rejects : candidates)
    : option candidates :=
  c ← c_cur tok;
  if bool_decide (c = 0)%Z then
    Some (if bool_decide (pu_n_remain (c_partial_utf8 tok) <> 0)%Z then rejects ++ [tok] else rejects)
  else
    b ← llama_grammar_match_token rules pos (c_id tok);
    Some (if (b : bool) then rejects else rejects ++ [tok]).

Definition reject_at_char (rules : llama_grammar_rules) (pos : gptr) (tok : llama_grammar_candidate) (st : candidates * candidates)
    : option (candidates * candidates) :=
  let '(rejects, next) := st in
  c ← c_cur tok;
  if bool_decide (c = 0)%Z then
    if bool_decide (pu_n_remain (c_partial_utf8 tok) <> 0)%Z then
      b ← llama_grammar_match_partial_char rules pos (c_partial_utf8 tok);
      Some (if (b : bool) then (rejects, next) else (rejects ++ [tok], next))
    else Some (rejects, next)
  else
    '(b, _) ← llama_grammar_match_char rules pos c;
    Some (if (b : bool) then (rejects, next ++ [c_move (S (c_off tok)) tok]) else (rejects ++ [tok], next)).

(** [llama_grammar_reject_candidates], given the function for one stack. *)
Definition reject_with (f : llama_grammar_stack -> candidates -> option candidates) (stacks : llama_grammar_stacks)
    (cands : candidates) : option candidates :=
  GGML_ASSERT negb (bool_decide (stacks = []));
  if bool_decide (cands = []) then Some [] else foldM f stacks cands.

(** [F] bounds the expansions of a stack, [fuel] the code points read. *)
Fixpoint llama_grammar_reject_candidates_for_stack (F fuel : nat) (rules : llama_grammar_rules) (stack : llama_grammar_stack)
    (cands : candidates) : option candidates :=
  match fuel with
  | 0 => None
  | S fuel =>
      match stack with
      | [] => foldM reject_at_end cands []
      | pos :: rest =>
          e ← elem_at rules pos;
          if is_token_element e then foldM (reject_at_token rules pos) cands [] else
          '(rejects, next) ← foldM (reject_at_char rules pos) cands ([], []);
          '(_, pos') ← llama_grammar_match_char rules pos 0;
          s ← push rules pos' rest;
          stacks ← llama_grammar_advance_stack F rules s [];
          next_rejects ← reject_with (llama_grammar_reject_candidates_for_stack F fuel rules) stacks next;
          Some (rejects ++ ((fun tok => c_move (c_off tok - 1) tok) <$> next_rejects))
      end
  end.

Definition llama_grammar_reject_candidates (F fuel : nat) (rules : llama_grammar_rules) (stacks : llama_grammar_stacks)
    (cands : candidates) : option candidates :=
  reject_with (llama_grammar_reject_candidates_for_stack F fuel rules) stacks cands.

(** * Left recursion *)

Record lr_state := mkLr { rules_visited : list bool; rules_in_progress : list bool; rules_may_be_empty : list bool }.

Definition set_bit (i : nat) (b : bool) (l : list bool) : option (list bool) :=
  if bool_decide (i < length l) then Some (<[i := b]> l) else None.

(** Does the rule have an empty alternate: the first loop. *)
Fixpoint has_empty_alternate (l : list llama_grammar_element) (at_rule_start : bool) : bool :=
  match l with
  | [] => false
  | e :: l =>
      if llama_grammar_is_end_of_sequence e then at_rule_start || has_empty_alternate l true
      else has_empty_alternate l false
  end.

(** The second loop; [rec] is the recursive call. [inr] returns true. *)
Fixpoint left_loop (rec : nat -> lr_state -> option (bool * lr_state)) (l : list llama_grammar_element) (recurse : bool)
    (st : lr_state) : option (bool * lr_state) :=
  match l with
  | [] => Some (false, st)
  | e :: l =>
      if has_type LLAMA_GRETYPE_RULE_REF e && recurse then
        '(b, st) ← rec (Z.to_nat (el_value e)) st;
        if (b : bool) then Some (true, st) else
        m ← rules_may_be_empty st !! Z.to_nat (el_value e);
        left_loop rec l m st
      else left_loop rec l (llama_grammar_is_end_of_sequence e) st
  end.

Fixpoint llama_grammar_detect_left_recursion (fuel : nat) (rules : llama_grammar_rules) (rule_index : nat) (st : lr_state)
    : option (bool * lr_state) :=
  match fuel with
  | 0 => None
  | S fuel =>
      p ← rules_in_progress st !! rule_index;
      if (p : bool) then Some (true, st) else
      ip ← set_bit rule_index true (rules_in_progress st);
      rule ← rules !! rule_index;
      me ← (if has_empty_alternate rule true then set_bit rule_index true (rules_may_be_empty st) else Some (rules_may_be_empty st));
      '(b, st) ← left_loop (llama_grammar_detect_left_recursion fuel rules) rule true (mkLr (rules_visited st) ip me);
      if (b : bool) then Some (true, st) else
      ip ← set_bit rule_index false (rules_in_progress st);
      v ← set_bit rule_index true (rules_visited st);
      Some (false, mkLr v ip (rules_may_be_empty st))
  end.

(** * The grammar state *)

(** [P] is a trigger pattern: its text and the compiled regular expression. *)
Record llama_grammar (P : Type) := mkGrammar {
  g_rules : llama_grammar_rules;
  g_stacks : llama_grammar_stacks;
  g_partial_utf8 : llama_partial_utf8;
  g_lazy : bool;
  g_awaiting_trigger : bool;
  g_trigger_buffer : list byte;
  g_trigger_buffer_positions : list (Z * (nat * nat));
  g_trigger_tokens : list Z;
  g_trigger_patterns : list P;
}.
Arguments mkGrammar {P}.
Arguments g_rules {P}. Arguments g_stacks {P}. Arguments g_partial_utf8 {P}. Arguments g_lazy {P}.
Arguments g_awaiting_trigger {P}. Arguments g_trigger_buffer {P}. Arguments g_trigger_buffer_positions {P}.
Arguments g_trigger_tokens {P}. Arguments g_trigger_patterns {P}.

Definition with_stacks {P} (s : llama_grammar_stacks) (p : llama_partial_utf8) (g : llama_grammar P) : llama_grammar P :=
  mkGrammar (g_rules g) s p (g_lazy g) (g_awaiting_trigger g) (g_trigger_buffer g) (g_trigger_buffer_positions g)
    (g_trigger_tokens g) (g_trigger_patterns g).
Definition with_trigger {P} (awaiting : bool) (buf : list byte) (pos : list (Z * (nat * nat))) (g : llama_grammar P) : llama_grammar P :=
  mkGrammar (g_rules g) (g_stacks g) (g_partial_utf8 g) (g_lazy g) awaiting buf pos (g_trigger_tokens g) (g_trigger_patterns g).

(** Copy the definition of a rule up to its end: [None] reads past the rule. *)
Fixpoint copy_rule (l : list llama_grammar_element) : option llama_grammar_rule :=
  match l with
  | [] => None
  | e :: l =>
      if has_type LLAMA_GRETYPE_END e then Some [mkElem LLAMA_GRETYPE_END 0]
      else r ← copy_rule l; Some (e :: r)
  end.

(** The check of all rules; [Some true] is a left recursion. *)
Definition left_recursive (rules : llama_grammar_rules) : option bool :=
  let n := length rules in
  '(b, _) ← foldM (fun i '(b, st) =>
    if (b : bool) then Some (b, st) else
    v ← rules_visited st !! i;
    if (v : bool) then Some (false, st) else llama_grammar_detect_left_recursion (S n) rules i st)
    (seq 0 n) (false, mkLr (replicate n false) (replicate n false) (replicate n false));
  Some b.

Definition initial_stacks (F : nat) (rules : llama_grammar_rules) (start_rule_index : nat) : option llama_grammar_stacks :=
  r ← rules !! start_rule_index;
  for_alternates (length r) rules (fun pos stacks =>
    s ← push rules pos [];
    llama_grammar_advance_stack F rules s stacks) (start_rule_index, 0) [].

(** [Some None] is [nullptr]: the grammar is left-recursive. *)
Definition llama_grammar_init_impl {P} (F : nat) (rules : list (list llama_grammar_element)) (start_rule_index : nat)
    (lazy : bool) (trigger_tokens : list Z) (trigger_patterns : list P) : option (option (llama_grammar P)) :=
  vec_rules ← mapM copy_rule rules;
  b ← left_recursive vec_rules;
  if (b : bool) then Some None else
  stacks ← initial_stacks F vec_rules start_rule_index;
  Some (Some (mkGrammar vec_rules stacks (mkPartial 0 0) lazy lazy [] [] trigger_tokens trigger_patterns)).

Definition llama_grammar_accept {P} (F : nat) (chr : Z) (g : llama_grammar P) : option (llama_grammar P) :=
  s ← accept_stacks F (g_rules g) chr (g_stacks g);
  Some (with_stacks s (g_partial_utf8 g) g).

(** The exception "Unexpected empty grammar stack" leaves the state behind. *)
Definition grammar_error (P : Type) : Type := llama_grammar P.

Definition llama_grammar_accept_str {P} (F : nat) (piece : list byte) (g : llama_grammar P)
    : option (result (grammar_error P) (llama_grammar P)) :=
  '(cps, partial) ← decode_utf8 piece (g_partial_utf8 g);
  g ← foldM (llama_grammar_accept F) (removelast cps) g;
  let g := with_stacks (g_stacks g) partial g in
  Some (if bool_decide (g_stacks g = []) then Err g else Ok g).

(** The stacks that survive the code points of one token, [break] when none is left. *)
Fixpoint consume (F : nat) (rules : llama_grammar_rules) (cps : list Z) (current_stacks : llama_grammar_stacks)
    : option llama_grammar_stacks :=
  match cps with
  | [] => Some current_stacks
  | c :: cps =>
      next_stacks ← accept_stacks F rules c current_stacks;
      if bool_decide (next_stacks = []) then Some [] else consume F rules cps next_stacks
  end.

Definition accept_token_stack (F : nat) (rules : llama_grammar_rules) (token : Z) (cps : list Z) (stack : llama_grammar_stack)
    (stacks_new : llama_grammar_stacks) : option llama_grammar_stacks :=
  match stack with
  | [] => Some stacks_new
  | pos :: rest =>
      e ← elem_at rules pos;
      if is_token_element e then
        b ← llama_grammar_match_token rules pos token;
        if (b : bool) then
          s ← push rules (ptr_add pos 1) rest;
          llama_grammar_advance_stack F rules s stacks_new
        else Some stacks_new
      else
        current_stacks ← consume F rules cps [stack];
        Some (foldl (fun l s => add_stack s l) stacks_new current_stacks)
  end.

Definition llama_grammar_accept_token {P} (F : nat) (token : Z) (piece : list byte) (g : llama_grammar P)
    : option (result (grammar_error P) (llama_grammar P)) :=
  '(cps, partial) ← decode_utf8 piece (g_partial_utf8 g);
  stacks ← foldM (accept_token_stack F (g_rules g) token (removelast cps)) (g_stacks g) [];
  let g := with_stacks stacks partial g in
  Some (if bool_decide (stacks = []) then Err g else Ok g).

(** * The vocabulary and the sampler *)

Class llama_vocab_i := { token_to_piece : Z -> list byte; is_eog : Z -> bool }.

Section Sampling.
Context `{V : llama_vocab_i} {P : Type}.
(** [llama_grammar_trigger_pattern::find] is a search with [std::regex];
    [None] is [npos]. *)
Context (find_pattern : P -> list byte -> option nat).

(** The token data: id and logit, of which only minus infinity matters. *)
Context {L : Type} (neg_infinity : L).

Definition classify (g : llama_grammar P) (allow_eog : bool) (i : nat) (id : Z)
    (st : list nat * candidates) : option (list nat * candidates) :=
  let '(masked, cands) := st in
  let piece := token_to_piece id in
  if is_eog id then Some (if allow_eog then (masked, cands) else (masked ++ [i], cands))
  else if bool_decide (piece = []) || bool_decide (head piece = Some x00) then Some (masked ++ [i], cands)
  else
    '(cps, partial) ← decode_utf8 piece (g_partial_utf8 g);
    Some (masked, cands ++ [mkCand i cps 0 partial id]).

Definition mask (idxs : list nat) (cur : list (Z * L)) : list (Z * L) :=
  foldl (fun cur i => alter (fun d => (d.1, neg_infinity)) i cur) cur idxs.

Definition llama_grammar_apply_impl (F fuel : nat) (g : llama_grammar P) (cur : list (Z * L)) : option (list (Z * L)) :=
  if g_awaiting_trigger g then Some cur else
  let allow_eog := existsb (fun s => bool_decide (s = [])) (g_stacks g) in
  '(masked, cands) ← foldM (fun '(i, d) => classify g allow_eog i d.1) (imap pair cur) ([], []);
  rejects ← llama_grammar_reject_candidates F fuel (g_rules g) (g_stacks g) cands;
  Some (mask (masked ++ (c_index <$> rejects)) cur).

(** Replay the buffered tokens that overlap with the match at [start]. *)
Definition replay_step (F : nat) (buf : list byte) (start : nat) (tp : Z * (nat * nat)) (r : result (grammar_error P) (llama_grammar P))
    : option (result (grammar_error P) (llama_grammar P)) :=
  match r with
  | Err e => Some (Err e)
  | Ok g =>
      let '(tok, (tok_start, tok_end)) := tp in
      if bool_decide (tok_end <= start) then Some (Ok g) else
      let piece_start := if bool_decide (tok_start < start) then start else tok_start in
      llama_grammar_accept_token F tok (take (tok_end - piece_start) (drop piece_start buf)) g
  end.

Fixpoint try_patterns (ps : list P) (buf : list byte) : option nat :=
  match ps with
  | [] => None
  | p :: ps => match find_pattern p buf with Some start => Some start | None => try_patterns ps buf end
  end.

Definition llama_grammar_accept_impl (F : nat) (token : Z) (g : llama_grammar P)
    : option (result (grammar_error P) (llama_grammar P)) :=
  let piece := token_to_piece token in
  if g_awaiting_trigger g then
    if bool_decide (token ∈ g_trigger_tokens g) then
      llama_grammar_accept_token F token piece (with_trigger false [] (g_trigger_buffer_positions g) g)
    else
      let n := length (g_trigger_buffer g) in
      let positions := g_trigger_buffer_positions g ++ [(token, (n, n + length piece))] in
      let buf := g_trigger_buffer g ++ piece in
      match try_patterns (g_trigger_patterns g) buf with
      | None => Some (Ok (with_trigger true buf positions g))
      | Some start =>
          r ← foldM (replay_step F buf start) positions (Ok (with_trigger false buf positions g));
          match r with
          | Ok g => Some (Ok (with_trigger false [] [] g))
          | Err g => Some (Err g)
          end
      end
  else if is_eog token then
    GGML_ASSERT existsb (fun s => bool_decide (s = [])) (g_stacks g);
    Some (Ok g)
  else llama_grammar_accept_token F token piece g.

End Sampling.
End Grammar.
