(* ===== verification/GrammarLang.v ===== *)
(** What a grammar means, and what matching one position and expanding a stack
    do: the rules of Grammar.v read as BNF, the language they generate, and the
    lemmas that connect both with the pointers of the machine. *)

From S2P Require Import Bytes.
From S2P Require Import Utf8.
From S2P Require Import Grammar.
Import Utf8.Utf8 Grammar.Grammar.

Module GrammarLang.

(** * The language of a grammar *)

Inductive crange := AnyChar | Range (lo hi : Z).

Inductive symbol :=
  | Class (positive : bool) (rs : list crange)
  | Ref (r : nat)
  | Token (positive : bool) (id : Z).

Definition in_range (c : Z) (r : crange) : bool :=
  match r with AnyChar => true | Range lo hi => bool_decide (lo <= c <= hi)%Z end.

Definition class_has (positive : bool) (rs : list crange) (c : Z) : bool := eqb (existsb (in_range c) rs) positive.

(** [gen G l w]: the symbols [l] generate the text [w], where [G r] are the
    alternates of rule [r]. *)
Inductive gen (G : nat -> list (list symbol)) : list symbol -> list Z -> Prop :=
  | gen_nil : gen G [] []
  | gen_class positive rs l c w : class_has positive rs c = true -> gen G l w -> gen G (Class positive rs :: l) (c :: w)
  | gen_ref r alt l w1 w2 : alt ∈ G r -> gen G alt w1 -> gen G l w2 -> gen G (Ref r :: l) (w1 ++ w2).

(** Reading the elements of a rule from right to left: the pending upper bound
    and ranges of a class, the symbols of the current alternate, and the other
    alternates. *)
Record reading := mkReading { rd_upper : option Z; rd_ranges : list crange; rd_syms : list symbol; rd_alts : list (list symbol) }.

Definition reading0 : reading := mkReading None [] [] [].

Definition range_of (v : Z) (upper : option Z) : crange := match upper with Some hi => Range v hi | None => Range v v end.

Definition read_elem (e : llama_grammar_element) (k : reading) : reading :=
  let v := el_value e in
  let rs := range_of v (rd_upper k) :: rd_ranges k in
  let push s := mkReading None [] (s :: rd_syms k) (rd_alts k) in
  match el_type e with
  | LLAMA_GRETYPE_END => reading0
  | LLAMA_GRETYPE_ALT => mkReading None [] [] (rd_syms k :: rd_alts k)
  | LLAMA_GRETYPE_RULE_REF => push (Ref (Z.to_nat v))
  | LLAMA_GRETYPE_CHAR => push (Class true rs)
  | LLAMA_GRETYPE_CHAR_NOT => push (Class false rs)
  | LLAMA_GRETYPE_CHAR_RNG_UPPER => mkReading (Some v) (rd_ranges k) (rd_syms k) (rd_alts k)
  | LLAMA_GRETYPE_CHAR_ALT => mkReading None rs (rd_syms k) (rd_alts k)
  | LLAMA_GRETYPE_CHAR_ANY => push (Class true (AnyChar :: rd_ranges k))
  | LLAMA_GRETYPE_TOKEN => push (Token true v)
  | LLAMA_GRETYPE_TOKEN_NOT => push (Token false v)
  end.

Definition read (l : list llama_grammar_element) : reading := foldr read_elem reading0 l.

(** The alternates of a rule, and of the rules of a grammar. *)
Definition bnf (rule : llama_grammar_rule) : list (list symbol) := rd_syms (read rule) :: rd_alts (read rule).
Definition bnf_rules (rules : llama_grammar_rules) (r : nat) : list (list symbol) :=
  match rules !! r with Some rule => bnf rule | None => [] end.

(** * Well-formed rules

    A range upper bound follows a character, an alternative character follows a
    character or a range, references are in bounds, and there is one end, the
    last element. *)
Fixpoint shape (n : nat) (l : list llama_grammar_element) (rng alt : bool) : bool :=
  match l with
  | [] => false
  | e :: l =>
      match el_type e with
      | LLAMA_GRETYPE_END => bool_decide (l = [])
      | LLAMA_GRETYPE_ALT => shape n l false false
      | LLAMA_GRETYPE_RULE_REF => bool_decide (0 <= el_value e < Z.of_nat n)%Z && shape n l false false
      | LLAMA_GRETYPE_CHAR | LLAMA_GRETYPE_CHAR_NOT => shape n l true true
      | LLAMA_GRETYPE_CHAR_RNG_UPPER => rng && shape n l false true
      | LLAMA_GRETYPE_CHAR_ALT => alt && shape n l true true
      | LLAMA_GRETYPE_CHAR_ANY | LLAMA_GRETYPE_TOKEN | LLAMA_GRETYPE_TOKEN_NOT => shape n l false false
      end
  end.

Definition wf_rules (rules : llama_grammar_rules) : Prop :=
  forall r rule, rules !! r = Some rule -> shape (length rules) rule false false = true.

Definition no_tokens (rules : llama_grammar_rules) : Prop :=
  forall r rule e, rules !! r = Some rule -> e ∈ rule -> is_token_element e = false.

#[global] Instance wf_rules_dec rules : Decision (wf_rules rules).
Proof.
  destruct (decide (Forall (fun rule => shape (length rules) rule false false = true) rules)) as [H|H].
  - left. intros r rule Hr. rewrite Forall_lookup in H. by apply (H r).
  - right. intros Hw. apply H, Forall_lookup. exact Hw.
Defined.

(** An element that does not continue a class. *)
Definition starts (e : llama_grammar_element) : bool :=
  negb (has_type LLAMA_GRETYPE_CHAR_ALT e || has_type LLAMA_GRETYPE_CHAR_RNG_UPPER e).

Lemma shape_start n e l rng alt : shape n (e :: l) rng alt = true -> starts e = true -> shape n (e :: l) false false = true.
Proof. unfold starts, has_type. simpl. destruct (el_type e); done. Qed.

Lemma shape_cons n l rng alt : shape n l rng alt = true -> exists e l', l = e :: l'.
Proof. destruct l as [|e l]; [done|]. by exists e, l. Qed.

Lemma read_start e l : starts e = true -> rd_upper (read (e :: l)) = None /\ rd_ranges (read (e :: l)) = [].
Proof. unfold starts, has_type. simpl. unfold read_elem. destruct (el_type e); done. Qed.

(** * Matching a character *)

Definition ranges_after (e : llama_grammar_element) (l : list llama_grammar_element) : list crange :=
  (if has_type LLAMA_GRETYPE_CHAR_ANY e then AnyChar else range_of (el_value e) (rd_upper (read l))) :: rd_ranges (read l).

(** The elements after a character: it is a single character, or the first
    bound of a range, and another character of the class follows or not. *)
Inductive class_view (n : nat) : list llama_grammar_element -> Prop :=
  | cv_last e1 l : starts e1 = true -> shape n (e1 :: l) false false = true -> class_view n (e1 :: l)
  | cv_alt e1 l : has_type LLAMA_GRETYPE_CHAR_ALT e1 = true -> class_view n l -> class_view n (e1 :: l)
  | cv_rng_last e1 e2 l : has_type LLAMA_GRETYPE_CHAR_RNG_UPPER e1 = true -> starts e2 = true ->
      shape n (e2 :: l) false false = true -> class_view n (e1 :: e2 :: l)
  | cv_rng_alt e1 e2 l : has_type LLAMA_GRETYPE_CHAR_RNG_UPPER e1 = true -> has_type LLAMA_GRETYPE_CHAR_ALT e2 = true ->
      class_view n l -> class_view n (e1 :: e2 :: l).

Lemma has_type_eq t e : has_type t e = true <-> el_type e = t.
Proof. apply bool_decide_eq_true. Qed.

Lemma shape_view n l : shape n l true true = true -> class_view n l.
Proof.
  remember (length l) as k eqn:Hk. assert (length l <= k) as Hle by lia. clear Hk. revert l Hle.
  induction k as [|k IH]; intros l Hle Hs; destruct l as [|e1 l]; simpl in Hle; try done; [lia|].
  destruct (decide (el_type e1 = LLAMA_GRETYPE_CHAR_ALT)) as [Ha|Ha].
  - apply cv_alt; [by apply has_type_eq|]. apply IH; [lia|]. simpl in Hs. by rewrite Ha in Hs.
  - destruct (decide (el_type e1 = LLAMA_GRETYPE_CHAR_RNG_UPPER)) as [Hr|Hr].
    + simpl in Hs. rewrite Hr in Hs. destruct l as [|e2 l]; [done|].
      destruct (decide (el_type e2 = LLAMA_GRETYPE_CHAR_ALT)) as [Ha2|Ha2].
      * apply cv_rng_alt; [by apply has_type_eq..|]. simpl in Hle. apply IH; [lia|]. simpl in Hs. by rewrite Ha2 in Hs.
      * assert (starts e2 = true) as He2.
        { simpl in Hs. unfold starts, has_type. rewrite bool_decide_false by done. rewrite bool_decide_false; [done|].
          intros He. by rewrite He in Hs. }
        apply cv_rng_last; [by apply has_type_eq|done|by apply (shape_start _ _ _ _ _ Hs)].
    + assert (starts e1 = true) as He1 by (unfold starts, has_type; by rewrite !bool_decide_false).
      apply cv_last; [done|by apply (shape_start _ _ _ _ _ Hs)].
Qed.

Lemma starts_not e t : starts e = true -> t = LLAMA_GRETYPE_CHAR_ALT \/ t = LLAMA_GRETYPE_CHAR_RNG_UPPER -> has_type t e = false.
Proof.
  unfold starts. intros Hs [-> | ->]; destruct (has_type LLAMA_GRETYPE_CHAR_ALT e), (has_type LLAMA_GRETYPE_CHAR_RNG_UPPER e); done.
Qed.

Lemma rng_not_alt e : has_type LLAMA_GRETYPE_CHAR_ALT e = true -> has_type LLAMA_GRETYPE_CHAR_RNG_UPPER e = false.
Proof. unfold has_type. intros ->%bool_decide_eq_true. by apply bool_decide_false. Qed.

Lemma read_alt e l : has_type LLAMA_GRETYPE_CHAR_ALT e = true ->
  rd_upper (read (e :: l)) = None /\ rd_ranges (read (e :: l)) = range_of (el_value e) (rd_upper (read l)) :: rd_ranges (read l) /\
  rd_syms (read (e :: l)) = rd_syms (read l) /\ rd_alts (read (e :: l)) = rd_alts (read l).
Proof. intros He%has_type_eq. simpl. unfold read_elem. by rewrite He. Qed.

Lemma read_rng e l : has_type LLAMA_GRETYPE_CHAR_RNG_UPPER e = true ->
  rd_upper (read (e :: l)) = Some (el_value e) /\ rd_ranges (read (e :: l)) = rd_ranges (read l) /\
  rd_syms (read (e :: l)) = rd_syms (read l) /\ rd_alts (read (e :: l)) = rd_alts (read l).
Proof. intros He%has_type_eq. simpl. unfold read_elem. by rewrite He. Qed.

Lemma in_range_point c v : in_range c (Range v v) = bool_decide (v = c).
Proof. simpl. apply bool_decide_ext. lia. Qed.

(** The length of the rest of the class. *)
Fixpoint class_len (l : list llama_grammar_element) : nat :=
  match l with
  | e :: l => if starts e then 0 else S (class_len l)
  | [] => 0
  end.

Lemma alt_not_start e : has_type LLAMA_GRETYPE_CHAR_ALT e = true -> starts e = false.
Proof. unfold starts. by intros ->. Qed.
Lemma rng_not_start e : has_type LLAMA_GRETYPE_CHAR_RNG_UPPER e = true -> starts e = false.
Proof. unfold starts. intros ->. by rewrite orb_true_r. Qed.

(** The elements after the class: a boundary, with the same remaining symbols. *)
Lemma class_after n l : class_view n l ->
  shape n (drop (class_len l) l) false false = true /\
  rd_syms (read (drop (class_len l) l)) = rd_syms (read l) /\ rd_alts (read (drop (class_len l) l)) = rd_alts (read l).
Proof.
  induction 1 as [e1 l H1 H2|e1 l H1 _ IH|e1 e2 l H1 H2 H3|e1 e2 l H1 H2 _ IH]; cbn [class_len].
  - rewrite H1. done.
  - rewrite (alt_not_start _ H1). cbn [drop]. destruct (read_alt e1 l H1) as (_ & _ & -> & ->). done.
  - rewrite (rng_not_start _ H1), H2. cbn [drop]. destruct (read_rng e1 (e2 :: l) H1) as (_ & _ & -> & ->). done.
  - rewrite (rng_not_start _ H1), (alt_not_start _ H2). cbn [drop]. destruct (read_rng e1 (e2 :: l) H1) as (_ & _ & -> & ->).
    destruct (read_alt e2 l H2) as (_ & _ & -> & ->). done.
Qed.

Lemma match_loop_eq chr e e1 l found n : match_loop chr (e :: e1 :: l) found n =
  if has_type LLAMA_GRETYPE_CHAR_RNG_UPPER e1 then
    e2 ← head l;
    if has_type LLAMA_GRETYPE_CHAR_ALT e2
    then match_loop chr l (found || bool_decide (el_value e <= chr <= el_value e1)%Z) (n + 2)
    else Some (found || bool_decide (el_value e <= chr <= el_value e1)%Z, n + 2)
  else
    let found := if has_type LLAMA_GRETYPE_CHAR_ANY e then true else found || bool_decide (el_value e = chr) in
    if has_type LLAMA_GRETYPE_CHAR_ALT e1 then match_loop chr (e1 :: l) found (n + 1) else Some (found, n + 1).
Proof. reflexivity. Qed.

Lemma partial_loop_eq low high positive e e1 l : partial_loop low high positive (e :: e1 :: l) =
  if has_type LLAMA_GRETYPE_CHAR_RNG_UPPER e1 then
    if bool_decide (el_value e <= high /\ low <= el_value e1)%Z then Some positive else
    e2 ← head l;
    if has_type LLAMA_GRETYPE_CHAR_ALT e2 then partial_loop low high positive l else Some (negb positive)
  else if has_type LLAMA_GRETYPE_CHAR_ANY e then Some true
  else if bool_decide (low <= el_value e <= high)%Z then Some positive
  else if has_type LLAMA_GRETYPE_CHAR_ALT e1 then partial_loop low high positive (e1 :: l) else Some (negb positive).
Proof. reflexivity. Qed.

Lemma match_loop_ok n chr l : class_view n l -> forall e found k, el_type e <> LLAMA_GRETYPE_CHAR_ANY ->
  match_loop chr (e :: l) found k =
    Some (found || existsb (in_range chr) (range_of (el_value e) (rd_upper (read l)) :: rd_ranges (read l)), k + S (class_len l)).
Proof.
  induction 1 as [e1 l H1 H2|e1 l H1 Hv IH|e1 e2 l H1 H2 H3|e1 e2 l H1 H2 Hv IH]; intros e found k He; cbn [class_len];
    (assert (has_type LLAMA_GRETYPE_CHAR_ANY e = false) as Hany by (by apply bool_decide_false)).
  - rewrite match_loop_eq. rewrite (starts_not e1 _ H1) by auto. rewrite Hany, (starts_not e1 _ H1) by auto. rewrite H1.
    destruct (read_start e1 l H1) as [-> ->]. cbn [existsb range_of]. rewrite in_range_point, orb_false_r. do 2 f_equal.
  - rewrite match_loop_eq. rewrite (rng_not_alt _ H1), Hany, H1, (alt_not_start _ H1).
    destruct (read_alt e1 l H1) as (-> & -> & _). rewrite IH by (apply has_type_eq in H1; by rewrite H1).
    cbn [existsb range_of]. rewrite in_range_point. do 2 f_equal; [by rewrite !orb_assoc|lia].
  - rewrite match_loop_eq. rewrite H1. cbn [head mbind option_bind]. rewrite (starts_not e2 _ H2) by auto. rewrite (rng_not_start _ H1), H2.
    destruct (read_rng e1 (e2 :: l) H1) as (-> & -> & _). destruct (read_start e2 l H2) as [_ ->]. cbn [existsb range_of in_range].
    by rewrite orb_false_r.
  - rewrite match_loop_eq. rewrite H1. cbn [head mbind option_bind]. rewrite H2, (rng_not_start _ H1), (alt_not_start _ H2).
    destruct (read_rng e1 (e2 :: l) H1) as (-> & -> & _). destruct (read_alt e2 l H2) as (_ & -> & _).
    rewrite IH by (apply has_type_eq in H2; by rewrite H2). cbn [existsb range_of in_range]. do 2 f_equal; [by rewrite !orb_assoc|lia].
Qed.

(** Does a range meet the interval. *)
Definition meets (low high : Z) (r : crange) : bool :=
  match r with AnyChar => true | Range lo hi => bool_decide (lo <= high /\ low <= hi)%Z end.

Lemma partial_loop_ok n low high positive l : class_view n l -> forall e, el_type e <> LLAMA_GRETYPE_CHAR_ANY ->
  partial_loop low high positive (e :: l) =
    Some (eqb (existsb (meets low high) (range_of (el_value e) (rd_upper (read l)) :: rd_ranges (read l))) positive).
Proof.
  assert (forall v, bool_decide (low <= v <= high)%Z = meets low high (Range v v)) as Hpt.
  { intros v. apply bool_decide_ext. lia. }
  assert (forall r rs, (if meets low high r then Some positive else Some (eqb (existsb (meets low high) rs) positive)) =
    Some (eqb (existsb (meets low high) (r :: rs)) positive)) as Hor.
  { intros r rs. simpl. destruct (meets low high r); simpl; [by destruct positive|done]. }
  assert (forall b : bool, Some (negb positive) = Some (eqb (existsb (meets low high) []) positive)) as Hnil by (by destruct positive).
  induction 1 as [e1 l H1 H2|e1 l H1 Hv IH|e1 e2 l H1 H2 H3|e1 e2 l H1 H2 Hv IH]; intros e He;
    (assert (has_type LLAMA_GRETYPE_CHAR_ANY e = false) as Hany by (by apply bool_decide_false)).
  - rewrite partial_loop_eq. rewrite (starts_not e1 _ H1) by auto. rewrite Hany, (starts_not e1 _ H1) by auto.
    destruct (read_start e1 l H1) as [-> ->]. rewrite Hpt, (Hnil true). apply Hor.
  - rewrite partial_loop_eq. rewrite (rng_not_alt _ H1), Hany, H1. destruct (read_alt e1 l H1) as (-> & -> & _).
    rewrite IH by (apply has_type_eq in H1; by rewrite H1). rewrite Hpt. apply Hor.
  - rewrite partial_loop_eq. rewrite H1. cbn [head mbind option_bind]. rewrite (starts_not e2 _ H2) by auto.
    destruct (read_rng e1 (e2 :: l) H1) as (-> & -> & _). destruct (read_start e2 l H2) as [_ ->]. rewrite (Hnil true). apply (Hor (Range _ _)).
  - rewrite partial_loop_eq. rewrite H1. cbn [head mbind option_bind]. rewrite H2.
    destruct (read_rng e1 (e2 :: l) H1) as (-> & -> & _). destruct (read_alt e2 l H2) as (_ & -> & _).
    rewrite IH by (apply has_type_eq in H2; by rewrite H2). apply (Hor (Range _ _)).
Qed.

(** * Pointers *)

Section Pointers.
Context (rules : llama_grammar_rules).

(** The symbols from a pointer to the end of its alternate, and of a stack. *)
Definition reading_at (p : gptr) : reading :=
  match rules !! p.1 with Some rule => read (drop p.2 rule) | None => reading0 end.
Definition syms (p : gptr) : list symbol := rd_syms (reading_at p).
Definition flat (s : llama_grammar_stack) : list symbol := concat (syms <$> s).

(** A pointer to the start of a symbol or to the end of an alternate. *)
Definition good (p : gptr) : Prop :=
  exists rule, rules !! p.1 = Some rule /\ shape (length rules) (drop p.2 rule) false false = true.

Definition at_symbol (p : gptr) : Prop :=
  good p /\ exists e, elem_at rules p = Some e /\ llama_grammar_is_end_of_sequence e = false.

Definition good_stack (s : llama_grammar_stack) : Prop := Forall at_symbol s.

Lemma elem_at_drop p rule e l : rules !! p.1 = Some rule -> drop p.2 rule = e :: l -> elem_at rules p = Some e.
Proof.
  intros Hr Hd. unfold elem_at. rewrite Hr. cbn [mbind option_bind]. replace p.2 with (p.2 + 0) by lia.
  by rewrite <- lookup_drop, Hd.
Qed.

Lemma drop_S {A} (l : list A) i x l' : drop i l = x :: l' -> drop (i + 1) l = l'.
Proof. intros H. rewrite <- drop_drop, H. done. Qed.

Lemma good_elem p : good p -> exists rule e l, rules !! p.1 = Some rule /\ drop p.2 rule = e :: l /\
  shape (length rules) (e :: l) false false = true /\ elem_at rules p = Some e /\ reading_at p = read_elem e (read l).
Proof.
  intros (rule & Hr & Hs). destruct (drop p.2 rule) as [|e l] eqn:Hd; [done|]. exists rule, e, l. split_and!; try done.
  - by apply (elem_at_drop p rule e l).
  - unfold reading_at. by rewrite Hr, Hd.
Qed.

Lemma good_next p rule e l m : rules !! p.1 = Some rule -> drop p.2 rule = e :: l ->
  shape (length rules) (drop m (e :: l)) false false = true -> good (ptr_add p m) /\ reading_at (ptr_add p m) = read (drop m (e :: l)).
Proof.
  intros Hr Hd Hs. rewrite <- Hd in *. rewrite drop_drop in *. split; [by exists rule|].
  unfold reading_at, ptr_add. simpl. by rewrite Hr.
Qed.

(** What a good pointer points to. *)
Inductive ptr_view (p : gptr) (e : llama_grammar_element) : Prop :=
  | pv_end : llama_grammar_is_end_of_sequence e = true -> syms p = [] -> ptr_view p e
  | pv_ref r : el_type e = LLAMA_GRETYPE_RULE_REF -> Z.to_nat (el_value e) = r -> r < length rules ->
      syms p = Ref r :: syms (ptr_add p 1) -> good (ptr_add p 1) -> ptr_view p e
  | pv_class positive rs p' : is_token_element e = false -> el_type e <> LLAMA_GRETYPE_RULE_REF ->
      llama_grammar_is_end_of_sequence e = false ->
      is_positive_char e || has_type LLAMA_GRETYPE_CHAR_NOT e = true -> is_positive_char e = positive ->
      (forall chr, llama_grammar_match_char rules p chr = Some (class_has positive rs chr, p')) ->
      (forall u, (pu_n_remain u <= 5)%Z -> llama_grammar_match_partial_char rules p u =
         Some (if bool_decide (pu_n_remain u < 0 \/ (pu_n_remain u = 1 /\ pu_value u < 2))%Z then false
               else eqb (existsb (meets (partial_low u) (partial_high u)) rs) positive)) ->
      syms p = Class positive rs :: syms p' -> good p' -> ptr_view p e
  | pv_token positive v : is_token_element e = true ->
      (forall t, llama_grammar_match_token rules p t = Some (eqb (bool_decide (v = u32_wrap t)) positive)) ->
      syms p = Token positive v :: syms (ptr_add p 1) -> good (ptr_add p 1) -> ptr_view p e.

Lemma good_class p rule e l : rules !! p.1 = Some rule -> drop p.2 rule = e :: l -> el_type e = LLAMA_GRETYPE_CHAR \/ el_type e = LLAMA_GRETYPE_CHAR_NOT ->
  shape (length rules) l true true = true -> elem_at rules p = Some e -> reading_at p = read_elem e (read l) -> ptr_view p e.
Proof.
  intros Hr Hd Ht Hs He Hrd. apply shape_view in Hs. pose proof (class_after _ _ Hs) as (Ha & Hsy & _).
  assert (el_type e <> LLAMA_GRETYPE_CHAR_ANY) as Hany by (by destruct Ht as [-> | ->]).
  destruct (good_next p rule e l (S (class_len l)) Hr Hd Ha) as [Hg Hr'].
  assert (is_positive_char e || has_type LLAMA_GRETYPE_CHAR_NOT e = true) as Hc.
  { unfold is_positive_char, has_type. by destruct Ht as [-> | ->]. }
  apply (pv_class p e (is_positive_char e) (range_of (el_value e) (rd_upper (read l)) :: rd_ranges (read l)) (ptr_add p (S (class_len l))));
    try done; try (unfold is_token_element, llama_grammar_is_end_of_sequence; by destruct Ht as [-> | ->]).
  - intros chr. unfold llama_grammar_match_char. rewrite He. cbn [mbind option_bind]. rewrite (ggml_assert_true _ Hc).
    cbn [mbind option_bind]. rewrite Hr. cbn [mbind option_bind]. rewrite Hd, (match_loop_ok _ _ _ Hs) by done. done.
  - intros u Hu. unfold llama_grammar_match_partial_char. rewrite He. cbn [mbind option_bind]. rewrite (ggml_assert_true _ Hc).
    cbn [mbind option_bind]. rewrite (bool_decide_false (30 < _)%Z) by lia. case_bool_decide; [done|]. rewrite Hr. cbn [mbind option_bind]. rewrite Hd. by apply (partial_loop_ok (length rules)).
  - unfold syms. rewrite Hrd, Hr'. change (drop (S (class_len l)) (e :: l)) with (drop (class_len l) l). rewrite Hsy.
    unfold read_elem, is_positive_char. by destruct Ht as [-> | ->].
Qed.

Lemma any_loops low high positive chr e l found : el_type e = LLAMA_GRETYPE_CHAR_ANY -> shape (length rules) l false false = true ->
  match_loop chr (e :: l) found 0 = Some (true, 1) /\ partial_loop low high positive (e :: l) = Some true /\ rd_ranges (read l) = [].
Proof.
  intros He Hs. destruct (shape_cons _ _ _ _ Hs) as (e1 & l1 & ->). rewrite match_loop_eq, partial_loop_eq.
  assert (starts e1 = true) as H1 by (unfold starts, has_type; simpl in Hs; by destruct (el_type e1)).
  rewrite !(starts_not e1 _ H1) by auto. assert (has_type LLAMA_GRETYPE_CHAR_ANY e = true) as -> by (by apply has_type_eq).
  split_and!; [done|done|]. by apply read_start.
Qed.

Lemma good_view p e : good p -> elem_at rules p = Some e -> ptr_view p e.
Proof.
  intros Hg He. destruct (good_elem p Hg) as (rule & e' & l & Hr & Hd & Hs & He' & Hrd). rewrite He in He'. injection He' as <-.
  pose proof Hs as Hs'. simpl in Hs'. destruct (el_type e) eqn:Ht.
  - apply pv_end; [by unfold llama_grammar_is_end_of_sequence; rewrite Ht|]. unfold syms. rewrite Hrd. unfold read_elem. by rewrite Ht.
  - apply pv_end; [by unfold llama_grammar_is_end_of_sequence; rewrite Ht|]. unfold syms. rewrite Hrd. unfold read_elem. by rewrite Ht.
  - apply andb_prop in Hs' as [Hb Hs']. apply bool_decide_eq_true in Hb.
    destruct (good_next p rule e l 1 Hr Hd Hs') as [Hg' Hr']. apply (pv_ref p e (Z.to_nat (el_value e))); try done; [lia|].
    unfold syms. rewrite Hrd, Hr'. unfold read_elem. by rewrite Ht.
  - apply (good_class p rule e l); auto.
  - apply (good_class p rule e l); auto.
  - done.
  - done.
  - destruct (good_next p rule e l 1 Hr Hd Hs') as [Hg' Hr'].
    assert (is_positive_char e = true) as Hp by (unfold is_positive_char; by rewrite Ht).
    apply (pv_class p e true [AnyChar] (ptr_add p 1)); try done;
      try (unfold is_token_element, llama_grammar_is_end_of_sequence; by rewrite Ht); try (by rewrite Hp).
    + intros chr. unfold llama_grammar_match_char. rewrite He. cbn [mbind option_bind]. rewrite Hp, Hr. cbn [mbind option_bind orb ggml_assert].
      rewrite Hd. by destruct (any_loops 0 0 true chr e l false Ht Hs') as (-> & _).
    + intros u Hu. unfold llama_grammar_match_partial_char. rewrite He. cbn [mbind option_bind]. rewrite Hp.
      cbn [mbind option_bind orb ggml_assert]. rewrite (bool_decide_false (30 < _)%Z) by lia. case_bool_decide; [done|].
      rewrite Hr. cbn [mbind option_bind]. rewrite Hd. by destruct (any_loops (partial_low u) (partial_high u) true 0%Z e l false Ht Hs') as (_ & -> & _).
    + unfold syms. rewrite Hrd, Hr'. unfold read_elem. rewrite Ht. destruct (any_loops 0 0 true 0%Z e l false Ht Hs') as (_ & _ & ->). done.
  - destruct (good_next p rule e l 1 Hr Hd Hs') as [Hg' Hr'].
    apply (pv_token p e true (el_value e)); [by unfold is_token_element; rewrite Ht| | |done].
    + intros t. unfold llama_grammar_match_token, is_token_element, has_type. rewrite He. cbn [mbind option_bind]. rewrite Ht. simpl. by destruct (bool_decide _).
    + unfold syms. rewrite Hrd, Hr'. unfold read_elem. by rewrite Ht.
  - destruct (good_next p rule e l 1 Hr Hd Hs') as [Hg' Hr'].
    apply (pv_token p e false (el_value e)); [by unfold is_token_element; rewrite Ht| | |done].
    + intros t. unfold llama_grammar_match_token, is_token_element, has_type. rewrite He. cbn [mbind option_bind]. rewrite Ht. simpl. by destruct (bool_decide _).
    + unfold syms. rewrite Hrd, Hr'. unfold read_elem. by rewrite Ht.
Qed.

(** Pushing a pointer keeps the symbols of the stack. *)
Lemma push_ok p s : good p -> good_stack s -> exists s', push rules p s = Some s' /\ good_stack s' /\ flat s' = syms p ++ flat s /\
  (s' = s \/ s' = p :: s).
Proof.
  intros Hg Hs. destruct (good_elem p Hg) as (rule & e & l & Hr & Hd & Hsh & He & Hrd). unfold push. rewrite He. cbn [mbind option_bind].
  destruct (llama_grammar_is_end_of_sequence e) eqn:Hend.
  - exists s. split_and!; [done|done| |by left]. destruct (good_view p e Hg He) as [_ ->|r Ht _ _ _ _|? ? ? ? ? H _ _ _ _ _ _|? ? H _ _ _]; [done| | |].
    + unfold llama_grammar_is_end_of_sequence in Hend. by rewrite Ht in Hend.
    + by rewrite H in Hend.
    + unfold llama_grammar_is_end_of_sequence in Hend. unfold is_token_element in H. by destruct (el_type e).
  - exists (p :: s). split_and!; [done| |done|by right]. constructor; [|done]. split; [done|]. by exists e.
Qed.
End Pointers.


(** * Alternates *)

Lemma scan_ok n l : forall rng alt i, shape n l rng alt = true ->
  (scan_alternate l i = Some None /\ rd_alts (read l) = []) \/
  (exists j, scan_alternate l i = Some (Some (i + j)) /\ 0 < j <= length l /\ shape n (drop j l) false false = true /\
     rd_alts (read l) = rd_syms (read (drop j l)) :: rd_alts (read (drop j l))).
Proof.
  induction l as [|e l IH]; intros rng alt i Hs; [done|]. cbn [scan_alternate].
  assert (llama_grammar_is_end_of_sequence e = false -> exists rng' alt', shape n l rng' alt' = true /\ rd_alts (read (e :: l)) = rd_alts (read l)) as Hstep.
  { unfold llama_grammar_is_end_of_sequence. simpl in *. unfold read_elem. destruct (el_type e); try done; intros _;
      repeat match goal with H : _ && _ = true |- _ => apply andb_prop in H as [_ H] end; by eexists _, _. }
  destruct (llama_grammar_is_end_of_sequence e) eqn:He.
  - clear Hstep. unfold has_type. simpl in *. unfold read_elem, llama_grammar_is_end_of_sequence in *. destruct (el_type e) eqn:Ht; try done; simpl.
    + left. done.
    + right. exists 1. split_and!; [do 2 f_equal; lia|lia|lia|done|done].
  - destruct (Hstep eq_refl) as (rng' & alt' & Hs' & ->). destruct (IH rng' alt' (S i) Hs') as [?|(j & Hj & Hr & Hs2 & Ha)]; [by left|].
    right. exists (S j). split_and!; [rewrite Hj; do 2 f_equal; lia|lia|simpl; lia|done|done].
Qed.

Section Alternates.
Context (rules : llama_grammar_rules).

(** The pointers the loop over the alternates visits. *)
Lemma for_alternates_ok k : forall p rule, rules !! p.1 = Some rule -> shape (length rules) (drop p.2 rule) false false = true ->
  length (drop p.2 rule) <= k ->
  exists ps, Forall (good rules) ps /\ syms rules <$> ps = rd_syms (reading_at rules p) :: rd_alts (reading_at rules p) /\
    forall (S : Type) (f : gptr -> S -> option S) n s, k <= n -> for_alternates n rules f p s = foldM f ps s.
Proof.
  induction k as [|k IH]; intros p rule Hr Hs Hk; [destruct (drop p.2 rule); simpl in *; [done|lia]|].
  assert (reading_at rules p = read (drop p.2 rule)) as Hrd by (unfold reading_at; by rewrite Hr).
  destruct (scan_ok _ _ _ _ p.2 Hs) as [[Hscan Hal]|(j & Hscan & Hj & Hs' & Hal)].
  - exists [p]. split_and!; [constructor; [by exists rule|constructor]|by rewrite Hrd, Hal; simpl; unfold syms; rewrite Hrd|].
    intros S f [|n] s Hn; [lia|]. simpl. destruct (f p s); simpl; [|done]. unfold next_alternate. rewrite Hr. simpl. by rewrite Hscan.
  - rewrite drop_drop in Hs', Hal. rewrite length_drop in Hk, Hj.
    assert (length (drop (p.2 + j) rule) <= k) as Hk' by (rewrite length_drop; lia).
    destruct (IH (p.1, p.2 + j) rule Hr Hs' Hk') as (ps & Hg & Hsy & Hf).
    exists (p :: ps). split_and!; [constructor; [by exists rule|done]| |].
    + rewrite fmap_cons, Hsy, Hrd, Hal. unfold syms at 1. rewrite Hrd. unfold reading_at. simpl. by rewrite Hr.
    + intros S f [|n] s Hn; [lia|]. simpl. destruct (f p s); simpl; [|done]. unfold next_alternate. rewrite Hr. simpl. rewrite Hscan.
      simpl. by apply Hf; lia.
Qed.

Lemma alternates_of r rule : rules !! r = Some rule -> shape (length rules) rule false false = true ->
  exists ps, Forall (good rules) ps /\ syms rules <$> ps = bnf rule /\ ps <> [] /\
    forall (S : Type) (f : gptr -> S -> option S) s, for_alternates (length rule) rules f (r, 0) s = foldM f ps s.
Proof.
  intros Hr Hs. destruct (for_alternates_ok (length rule) (r, 0) rule Hr Hs ltac:(done)) as (ps & Hg & Hsy & Hf).
  exists ps. split_and!; [done| |intros ->; done|intros; by apply Hf]. rewrite Hsy. unfold bnf, reading_at. simpl. by rewrite Hr.
Qed.
End Alternates.

(** * The language of a list of symbols *)

Section Gen.
Context (G : nat -> list (list symbol)).

Lemma gen_app l1 l2 w : gen G (l1 ++ l2) w <-> exists w1 w2, w = w1 ++ w2 /\ gen G l1 w1 /\ gen G l2 w2.
Proof.
  split.
  - revert w. induction l1 as [|s l1 IH]; intros w H; simpl in H; [exists [], w; split_and!; [done|constructor|done]|].
    inversion H as [|positive rs l c w' Hc Hg|r alt l wa wb Ha Hg1 Hg2]; subst.
    + destruct (IH _ Hg) as (w1 & w2 & -> & H1 & H2). exists (c :: w1), w2. split_and!; [done|by constructor|done].
    + destruct (IH _ Hg2) as (w1 & w2 & -> & H1 & H2). exists (wa ++ w1), w2. split_and!; [by rewrite app_assoc|by eapply gen_ref|done].
  - intros (w1 & w2 & -> & H1 & H2). induction H1 as [|positive rs l c w Hc _ IH|r alt l wa wb Ha Hg1 _ Hg2 IH]; simpl; [done|by constructor|].
    rewrite <- app_assoc. by eapply gen_ref.
Qed.

Lemma gen_ref_inv r l w : gen G (Ref r :: l) w <-> exists alt, alt ∈ G r /\ gen G (alt ++ l) w.
Proof.
  split.
  - intros H. inversion H as [| |r' alt l' w1 w2 Ha H1 H2]; subst. exists alt. split; [done|]. apply gen_app. by exists w1, w2.
  - intros (alt & Ha & Hg). apply gen_app in Hg as (w1 & w2 & -> & H1 & H2). by eapply gen_ref.
Qed.

Lemma gen_class_inv positive rs l c w : gen G (Class positive rs :: l) (c :: w) <-> class_has positive rs c = true /\ gen G l w.
Proof.
  split; [|intros []; by constructor]. intros H. inversion H; subst; done.
Qed.

Lemma gen_nil_inv w : gen G [] w <-> w = [].
Proof. split; [by inversion 1|intros ->; constructor]. Qed.

Lemma gen_class_nil positive rs l : ~ gen G (Class positive rs :: l) [].
Proof. inversion 1. Qed.

Lemma gen_token positive v l w : ~ gen G (Token positive v :: l) w.
Proof. inversion 1. Qed.
End Gen.

(** * Expanding a stack *)

Section Advance.
Context (rules : llama_grammar_rules).

#[local] Abbreviation G := (bnf_rules rules).

(** A stack that is done: empty, or with a terminal on top. *)
Definition head_stack (s : llama_grammar_stack) : Prop :=
  good_stack rules s /\ match s with [] => True | p :: _ => exists e, elem_at rules p = Some e /\ el_type e <> LLAMA_GRETYPE_RULE_REF end.

(** [base] is what the stacks [ss] expand to, one after the other. *)
Record closes (F : nat) (ss base : llama_grammar_stacks) : Prop := {
  cl_add   : forall new, exists new', foldM (llama_grammar_advance_stack F rules) ss new = Some new' /\ forall t, t ∈ new' <-> t ∈ new \/ t ∈ base;
  cl_nil   : ss <> [] -> base <> [];
  cl_head  : Forall head_stack base;
  cl_lang  : forall w, (exists s, s ∈ ss /\ gen G (flat rules s) w) <-> (exists t, t ∈ base /\ gen G (flat rules t) w);
}.

Lemma elem_of_add_stack t s l : t ∈ add_stack s l <-> t ∈ l \/ t = s.
Proof. unfold add_stack. case_bool_decide; [set_solver|]. rewrite elem_of_app, list_elem_of_singleton. done. Qed.

Lemma closes_terminal F s : head_stack s -> (forall new, llama_grammar_advance_stack F rules s new = Some (add_stack s new)) -> closes F [s] [s].
Proof.
  intros Hh Ha. split.
  - intros new. simpl. rewrite Ha. simpl. eexists. split; [done|]. intros t. rewrite elem_of_add_stack, list_elem_of_singleton. done.
  - done.
  - by constructor.
  - done.
Qed.

Lemma closes_nil F : closes F [] [].
Proof. split; [intros new; exists new; split; [done|set_solver]|done|constructor|set_solver]. Qed.

Lemma closes_app F ss1 ss2 b1 b2 : closes F ss1 b1 -> closes F ss2 b2 -> closes F (ss1 ++ ss2) (b1 ++ b2).
Proof.
  intros [A1 N1 H1 L1] [A2 N2 H2 L2]. split.
  - intros new. destruct (A1 new) as (n1 & E1 & M1). destruct (A2 n1) as (n2 & E2 & M2). exists n2. rewrite foldM_app, E1. split; [done|].
    intros t. rewrite M2, M1, elem_of_app. tauto.
  - intros Hne. destruct ss1 as [|s ss1]; [|intros [-> ->]%app_nil; by apply N1]. intros [-> ->]%app_nil. by apply N2.
  - by apply Forall_app.
  - intros w. setoid_rewrite elem_of_app. specialize (L1 w). specialize (L2 w). naive_solver.
Qed.
Lemma foldM_split F s ss new new' : foldM (llama_grammar_advance_stack F rules) (s :: ss) new = Some new' ->
  exists n1, llama_grammar_advance_stack F rules s new = Some n1 /\ foldM (llama_grammar_advance_stack F rules) ss n1 = Some new'.
Proof. simpl. destruct (llama_grammar_advance_stack F rules s new) as [n1|]; simpl; [by exists n1|done]. Qed.

(** More fuel does not change the result. *)
Lemma for_alternates_mono {S} (f g : gptr -> S -> option S) n p s x :
  (forall p s x, f p s = Some x -> g p s = Some x) -> for_alternates n rules f p s = Some x -> for_alternates n rules g p s = Some x.
Proof.
  intros Hfg. revert p s. induction n as [|n IH]; intros p s; simpl; [done|].
  destruct (f p s) as [s1|] eqn:E; simpl; [|done]. rewrite (Hfg _ _ _ E). simpl.
  destruct (next_alternate rules p) as [[q|]|]; simpl; [apply IH|done|done].
Qed.

Lemma advance_S F : forall s new x, llama_grammar_advance_stack F rules s new = Some x -> llama_grammar_advance_stack (S F) rules s new = Some x.
Proof.
  induction F as [|F IH]; intros s new x; [done|]. destruct s as [|p rest]; [done|].
  intros H. cbn [llama_grammar_advance_stack] in H. change (llama_grammar_advance_stack (S (S F)) rules (p :: rest) new = Some x).
  cbn [llama_grammar_advance_stack].
  destruct (elem_at rules p) as [e|]; cbn [mbind option_bind] in *; [|done]. destruct (el_type e); try done.
  destruct (rules !! Z.to_nat (el_value e)) as [r|]; cbn [mbind option_bind] in *; [|done].
  revert H. apply for_alternates_mono. intros q s1 x1. destruct (push rules (ptr_add p 1) rest) as [s2|]; simpl; [|done].
  destruct (push rules q s2) as [s3|]; simpl; [|done]. apply IH.
Qed.

Lemma advance_mono F F' s new x : F <= F' -> llama_grammar_advance_stack F rules s new = Some x -> llama_grammar_advance_stack F' rules s new = Some x.
Proof. induction 1; [done|]. intros. apply advance_S. auto. Qed.

Lemma foldM_mono {A S} (f g : A -> S -> option S) l s x :
  (forall a s x, f a s = Some x -> g a s = Some x) -> foldM f l s = Some x -> foldM g l s = Some x.
Proof.
  intros Hfg. revert s. induction l as [|a l IH]; intros s; simpl; [done|].
  destruct (f a s) as [s1|] eqn:E; simpl; [|done]. rewrite (Hfg _ _ _ E). simpl. apply IH.
Qed.

Lemma closes_mono F F' ss base : F <= F' -> closes F ss base -> closes F' ss base.
Proof.
  intros Hle [A N H L]. split; [|done..]. intros new. destruct (A new) as (n & E & M). exists n. split; [|done].
  revert E. apply foldM_mono. intros s n0 x. by apply advance_mono.
Qed.

(** Two expansions of the same stacks have the same members. *)
Lemma closes_same F1 F2 ss b1 b2 : closes F1 ss b1 -> closes F2 ss b2 -> forall t, t ∈ b1 <-> t ∈ b2.
Proof.
  intros H1 H2 t. apply (closes_mono F1 (F1 `max` F2)) in H1; [|lia]. apply (closes_mono F2 (F1 `max` F2)) in H2; [|lia].
  destruct (cl_add _ _ _ H1 []) as (n1 & E1 & M1). destruct (cl_add _ _ _ H2 []) as (n2 & E2 & M2).
  rewrite E1 in E2. injection E2 as <-. specialize (M1 t). specialize (M2 t). rewrite elem_of_nil in M1, M2. tauto.
Qed.

(** * Termination of the expansion *)

(** The stack expands to finitely many stacks in finitely many steps. *)
Definition ends (ss : llama_grammar_stacks) : Prop := exists F base, closes F ss base.

Lemma ends_all ss : (forall s, s ∈ ss -> ends [s]) -> ends ss.
Proof.
  induction ss as [|s ss IH]; intros H; [exists 0, []; apply closes_nil|].
  destruct (H s) as (F1 & b1 & H1); [set_solver|]. destruct IH as (F2 & b2 & H2); [set_solver|].
  exists (F1 `max` F2), (b1 ++ b2). apply (closes_app _ [s] ss); [apply (closes_mono F1)|apply (closes_mono F2)]; (done || lia).
Qed.

Definition nullable (r : nat) : Prop := gen G [Ref r] [].
Definition null_syms (l : list symbol) : Prop := gen G l [].

(** [r'] is the leftmost symbol of a sentence that the alternates of [r] derive. *)
Definition left_of (r r' : nat) : Prop :=
  exists pre post, pre ++ Ref r' :: post ∈ G r /\ null_syms pre.

Definition no_left_recursion : Prop := forall r, r < length rules -> Acc (fun r' r => left_of r r') r.

Lemma terminal_ends s : head_stack s -> (forall F new, llama_grammar_advance_stack (S F) rules s new = Some (add_stack s new)) -> ends [s].
Proof. intros Hh Ht. exists 1, [s]. apply closes_terminal; [done|]. intros new. apply Ht. Qed.

Lemma empty_ends : ends [[]].
Proof. apply terminal_ends; [|done]. split; [constructor|done]. Qed.

Context (Hwf : wf_rules rules).

(** The stacks one reference expands to. *)
Lemma ref_stacks p e rest rule : good rules p -> elem_at rules p = Some e -> el_type e = LLAMA_GRETYPE_RULE_REF ->
  good_stack rules rest -> rules !! Z.to_nat (el_value e) = Some rule ->
  exists ss rest', ss <> [] /\ Forall (good_stack rules) ss /\
    push rules (ptr_add p 1) rest = Some rest' /\ good_stack rules rest' /\ flat rules rest' = syms rules (ptr_add p 1) ++ flat rules rest /\
    (rest' = rest \/ rest' = ptr_add p 1 :: rest) /\
    (forall F new, llama_grammar_advance_stack (S F) rules (p :: rest) new = foldM (llama_grammar_advance_stack F rules) ss new) /\
    flat rules <$> ss = (fun alt => alt ++ flat rules rest') <$> bnf rule /\
    (forall s, s ∈ ss -> exists q, good rules q /\ syms rules q ∈ bnf rule /\ push rules q rest' = Some s).
Proof.
  intros Hg He Ht Hrest Hr. destruct (good_view rules p e Hg He) as [Hend _|r _ Hv Hrn Hsy Hg'|? ? ? ? Hn|? ? Htok]; try done.
  { unfold llama_grammar_is_end_of_sequence in Hend. by rewrite Ht in Hend. }
  2:{ unfold is_token_element in Htok. by rewrite Ht in Htok. }
  destruct (push_ok rules (ptr_add p 1) rest Hg' Hrest) as (rest' & Hp & Hgr & Hfl & Hor).
  destruct (alternates_of rules _ rule Hr (Hwf _ _ Hr)) as (ps & Hps & Hbnf & Hne & Hf).
  assert (exists ss, mapM (fun q => push rules q rest') ps = Some ss /\ Forall (good_stack rules) ss /\
    flat rules <$> ss = (fun alt => alt ++ flat rules rest') <$> (syms rules <$> ps)) as (ss & Hss & Hgs & Hfs).
  { clear Hbnf Hne Hf. induction Hps as [|q ps Hq Hps IH]; [exists []; split_and!; [done|constructor|done]|].
    destruct IH as (ss & Hm & Hgs & Hfs). destruct (push_ok rules q rest' Hq Hgr) as (s & Hs & Hgs' & Hfl' & _).
    exists (s :: ss). split_and!; [simpl; rewrite Hs; simpl; by rewrite Hm|by constructor|by rewrite !fmap_cons, Hfl', Hfs]. }
  exists ss, rest'. split_and!; try done.
  - intros ->. apply mapM_Some in Hss. by inversion Hss; subst.
  - intros F new. cbn [llama_grammar_advance_stack]. rewrite He. cbn [mbind option_bind]. rewrite Ht, Hr. cbn [mbind option_bind].
    rewrite Hf, Hp. cbn [mbind option_bind]. apply mapM_Some in Hss. clear Hbnf Hne Hf Hps Hgs Hfs. revert new.
    induction Hss as [|q s ps ss Hqs _ IH]; intros new; [done|]. simpl. rewrite Hqs. simpl.
    destruct (llama_grammar_advance_stack F rules s new); simpl; [apply IH|done].
  - by rewrite Hfs, Hbnf.
  - intros s Hs. apply mapM_Some in Hss. apply list_elem_of_lookup in Hs as [i Hi].
    destruct (Forall2_lookup_r _ _ _ _ _ Hss Hi) as (q & Hq & Hpq). exists q. rewrite Forall_lookup in Hps. split_and!; [by eapply Hps| |done].
    rewrite <- Hbnf. apply list_elem_of_fmap. exists q. split; [done|]. by eapply list_elem_of_lookup_2.
Qed.

(** The non-empty stacks: a terminal on top, or a reference. *)
Lemma top_cases p rest : good_stack rules (p :: rest) ->
  (head_stack (p :: rest) /\ forall F new, llama_grammar_advance_stack (S F) rules (p :: rest) new = Some (add_stack (p :: rest) new)) \/
  (exists e rule, elem_at rules p = Some e /\ el_type e = LLAMA_GRETYPE_RULE_REF /\ rules !! Z.to_nat (el_value e) = Some rule /\
     syms rules p = Ref (Z.to_nat (el_value e)) :: syms rules (ptr_add p 1)).
Proof.
  intros Hs. pose proof Hs as [[Hg (e & He & Hend)] Hrest]%Forall_cons. destruct (good_view rules p e Hg He) as [Hend' _|r Ht Hv Hrn Hsy Hg'|? ? ? Htok Hn ? Hc|? ? Htok].
  - by rewrite Hend in Hend'.
  - right. destruct (lookup_lt_is_Some_2 rules (Z.to_nat (el_value e))) as [rule Hr]; [lia|]. exists e, rule. split_and!; try done. by rewrite Hv.
  - left. split; [split; [done|]; by exists e|]. intros F new. cbn [llama_grammar_advance_stack]. rewrite He. cbn [mbind option_bind].
    unfold is_positive_char, has_type in Hc. by destruct (el_type e).
  - left. split; [split; [done|]; exists e; split; [done|]; intros Ht; unfold is_token_element in Htok; by rewrite Ht in Htok|].
    intros F new. cbn [llama_grammar_advance_stack]. rewrite He. cbn [mbind option_bind]. unfold is_token_element in Htok. by destruct (el_type e).
Qed.

(** What a successful expansion has done, for one stack and for a list. *)
Lemma advance_closes F : forall s new new', good_stack rules s -> llama_grammar_advance_stack F rules s new = Some new' ->
  exists base, closes F [s] base.
Proof.
  induction F as [|F IH]; intros s new new' Hs Ha; [done|].
  destruct s as [|p rest].
  - exists [[]]. apply closes_terminal; [|done]. split; [constructor|done].
  - destruct (top_cases p rest Hs) as [[Hh Ht]|(e & rule & He & Ht & Hr & Hsy)]; [exists [p :: rest]; by apply closes_terminal|].
    pose proof Hs as [[Hg _] Hrest]%Forall_cons.
    destruct (ref_stacks p e rest rule Hg He Ht Hrest Hr) as (ss & rest' & Hne & Hgs & _ & Hgr & Hfl & _ & Heq & Hfs & _).
    rewrite Heq in Ha. assert (exists base, closes F ss base) as [base Hb].
    { clear Hne Hfs Heq. revert new Ha. induction Hgs as [|s ss Hs1 _ IHs]; intros new Ha; [exists []; apply closes_nil|].
      apply foldM_split in Ha as (n1 & H1 & H2). destruct (IH s new n1 Hs1 H1) as [b1 Hb1]. destruct (IHs n1 H2) as [b2 Hb2].
      exists (b1 ++ b2). by apply (closes_app F [s] ss). }
    exists base. destruct Hb as [A N H L]. split.
    + intros new2. destruct (A new2) as (n2 & E2 & M2). exists n2. cbn [foldM]. rewrite Heq, E2. done.
    + intros _. by apply N.
    + done.
    + intros w. rewrite <- L. setoid_rewrite list_elem_of_singleton. split.
      * intros (s & -> & Hgen). unfold flat in Hgen. simpl in Hgen. rewrite Hsy in Hgen. simpl in Hgen.
        apply gen_ref_inv in Hgen as (alt & Ha' & Hgen). unfold bnf_rules in Ha'. rewrite Hr in Ha'.
        assert (alt ++ flat rules rest' ∈ flat rules <$> ss) as Hin by (rewrite Hfs; apply list_elem_of_fmap; by exists alt).
        apply list_elem_of_fmap in Hin as (s & Hse & Hin). exists s. split; [done|]. rewrite <- Hse, Hfl. exact Hgen.
      * intros (s & Hin & Hgen). exists (p :: rest). split; [done|]. unfold flat. simpl. rewrite Hsy. simpl. apply gen_ref_inv.
        assert (flat rules s ∈ (fun alt => alt ++ flat rules rest') <$> bnf rule) as Hf by (rewrite <- Hfs; apply list_elem_of_fmap; by exists s).
        apply list_elem_of_fmap in Hf as (alt & Hse & Ha'). exists alt. unfold bnf_rules. rewrite Hr. split; [done|].
        rewrite Hse, Hfl in Hgen. exact Hgen.
Qed.

Definition rule_ends (r : nat) : Prop :=
  forall rest q s, good_stack rules rest -> (nullable r -> ends [rest]) -> good rules q -> syms rules q ∈ G r ->
    push rules q rest = Some s -> ends [s].

(** The stack with pointer [q] on top, by the symbols of [q]. *)
Lemma ref_ends p e rest rule rest' : good rules p -> elem_at rules p = Some e -> el_type e = LLAMA_GRETYPE_RULE_REF ->
  good_stack rules (p :: rest) -> rules !! Z.to_nat (el_value e) = Some rule -> rule_ends (Z.to_nat (el_value e)) ->
  push rules (ptr_add p 1) rest = Some rest' -> (nullable (Z.to_nat (el_value e)) -> ends [rest']) -> ends [p :: rest].
Proof.
  intros Hg He Ht [_ Hrest]%Forall_cons Hr Hends Hp Hnull.
  destruct (ref_stacks p e rest rule Hg He Ht Hrest Hr) as (ss & rest1 & Hne & Hgs & Hp1 & Hgr & Hfl & _ & Heq & Hfs & Hss).
  rewrite Hp in Hp1. injection Hp1 as <-.
  destruct (ends_all ss) as (F & base & Hb).
  { intros s Hs. destruct (Hss s Hs) as (q & Hq & Hin & Hpq). apply (Hends rest' q s); try done. unfold bnf_rules. by rewrite Hr. }
  destruct (cl_add _ _ _ Hb []) as (n & E & _). rewrite <- Heq in E.
  destruct (advance_closes (S F) (p :: rest) [] n) as [b Hb']; [|done|by exists (S F), b].
  constructor; [|done]. split; [done|]. exists e. split; [done|]. unfold llama_grammar_is_end_of_sequence. by rewrite Ht.
Qed.

(** Along one alternate: [pre] has been passed and can be empty. *)
Lemma alternate_ends r : (forall r', left_of r r' -> rule_ends r') -> forall l pre q rest s, syms rules q = l -> good rules q ->
  pre ++ l ∈ G r -> null_syms pre -> good_stack rules rest -> (null_syms l -> ends [rest]) -> push rules q rest = Some s -> ends [s].
Proof.
  intros IH. induction l as [|x l IHl]; intros pre q rest s Hsy Hg Hin Hpre Hrest Hnull Hpush;
    destruct (push_ok rules q rest Hg Hrest) as (s' & Hp' & Hgs & Hfl & Hor); rewrite Hpush in Hp'; injection Hp' as <-.
  - destruct Hor as [-> | ->]; [apply Hnull; constructor|].
    destruct (top_cases q rest Hgs) as [[Hh Ht]|(e & rule & He & Ht & Hr & Hsy')]; [by apply terminal_ends|congruence].
  - destruct Hor as [-> | ->].
    { exfalso. apply (f_equal length) in Hfl. rewrite Hsy, length_app in Hfl. simpl in Hfl. lia. }
    destruct (top_cases q rest Hgs) as [[Hh Ht]|(e & rule & He & Ht & Hr & Hsy')]; [by apply terminal_ends|].
    rewrite Hsy in Hsy'. injection Hsy' as -> Hl.
    destruct (good_view rules q e Hg He) as [Hend _|r2 _ Hv Hrn Hsy2 Hg'|? ? ? ? Hn|? ? Htok]; try done.
    { unfold llama_grammar_is_end_of_sequence in Hend. by rewrite Ht in Hend. }
    2:{ unfold is_token_element in Htok. by rewrite Ht in Htok. }
    destruct (push_ok rules (ptr_add q 1) rest Hg' Hrest) as (rest' & Hp1 & Hgr & Hfl' & _).
    apply (ref_ends q e rest rule rest'); try done.
    + apply IH. exists pre, l. done.
    + intros Hn. apply (IHl (pre ++ [Ref (Z.to_nat (el_value e))]) (ptr_add q 1) rest rest'); try done.
      * by rewrite <- app_assoc.
      * apply gen_app. by exists [], [].
      * intros Hnl. apply Hnull. apply (gen_app G [_] l). by exists [], [].
Qed.

Lemma rules_end r : Acc (fun r' r => left_of r r') r -> rule_ends r.
Proof.
  induction 1 as [r _ IH]. intros rest q s Hrest Hnull Hg Hin Hpush.
  apply (alternate_ends r IH (syms rules q) [] q rest s); try done; [constructor|].
  intros Hn. apply Hnull. apply gen_ref_inv. exists (syms rules q). by rewrite app_nil_r.
Qed.

(** Without left recursion every stack expands. *)
Lemma stack_ends s : no_left_recursion -> good_stack rules s -> ends [s].
Proof.
  intros Hnlr. assert (forall r, r < length rules -> rule_ends r) as Hre by (intros r Hr; apply rules_end; auto).
  induction s as [|p rest IH]; intros Hs; [apply empty_ends|]. pose proof Hs as [[Hg _] Hrest]%Forall_cons. specialize (IH Hrest).
  assert (forall l q s, syms rules q = l -> good rules q -> push rules q rest = Some s -> ends [s]) as Hall.
  { induction l as [|x l IHl]; intros q s Hsy Hq Hpush; destruct (push_ok rules q rest Hq Hrest) as (s' & Hp' & Hgs & Hfl & Hor);
      rewrite Hpush in Hp'; injection Hp' as <-; destruct Hor as [-> | ->]; try done;
      (destruct (top_cases q rest Hgs) as [[Hh Ht]|(e & rule & He & Ht & Hr & Hsy')]; [by apply terminal_ends|]); [congruence|].
    rewrite Hsy in Hsy'. injection Hsy' as -> Hl.
    destruct (good_view rules q e Hq He) as [Hend _|r2 _ Hv Hrn Hsy2 Hg'|? ? ? ? Hn|? ? Htok]; try done.
    { unfold llama_grammar_is_end_of_sequence in Hend. by rewrite Ht in Hend. }
    2:{ unfold is_token_element in Htok. by rewrite Ht in Htok. }
    destruct (push_ok rules (ptr_add q 1) rest Hg' Hrest) as (rest' & Hp1 & Hgr & _ & _).
    apply (ref_ends q e rest rule rest'); try done; [apply Hre; by eapply lookup_lt_Some|].
    intros _. by apply (IHl (ptr_add q 1)). }
  destruct (push_ok rules p rest Hg Hrest) as (s' & Hp' & _ & _ & Hor). pose proof Hs as [[_ (e & He & Hend)] _]%Forall_cons.
  unfold push in Hp'. rewrite He in Hp'. simpl in Hp'. rewrite Hend in Hp'. injection Hp' as <-.
  apply (Hall _ p _ eq_refl Hg). unfold push. rewrite He. simpl. by rewrite Hend.
Qed.
End Advance.

End GrammarLang.
