(* ===== verification/GrammarRun.v ===== *)
(** The theorems about the pushdown machine of Grammar.v: it accepts exactly the
    language of the grammar, rejecting candidates agrees with accepting them, a
    partial UTF-8 sequence is matched against its possible completions, and the
    left-recursion check ends and makes the expansion of stacks end. *)

From S2P Require Import Bytes.
From S2P Require Import Utf8.
From S2P Require Import Grammar.
From S2P Require Import GrammarLang.
Import Utf8.Utf8 Grammar.Grammar GrammarLang.GrammarLang.

Module GrammarRun.

(** * Accepting characters *)

Section Accept.
Context (rules : llama_grammar_rules).
#[local] Abbreviation G := (bnf_rules rules).

Lemma accept_stacks_mono F F' c sts st : F <= F' -> accept_stacks F rules c sts = Some st -> accept_stacks F' rules c sts = Some st.
Proof.
  intros HF. apply foldM_mono. intros s new x. unfold llama_grammar_accept_chr. destruct s as [|p rest]; [done|].
  destruct (elem_at rules p) as [e|]; simpl; [|done]. destruct (is_token_element e); [done|].
  destruct (llama_grammar_match_char rules p c) as [[b p']|]; simpl; [|done]. destruct b; [|done].
  destruct (push rules p' rest) as [s|]; simpl; [|done]. by apply advance_mono.
Qed.

Lemma initial_mono F F' start st : F <= F' -> initial_stacks F rules start = Some st -> initial_stacks F' rules start = Some st.
Proof.
  intros HF. unfold initial_stacks. destruct (rules !! start) as [r|]; simpl; [|done]. apply for_alternates_mono.
  intros p s x. destruct (push rules p []) as [s'|]; simpl; [|done]. by apply advance_mono.
Qed.

Lemma base_same F ss base st : closes rules F ss base -> foldM (llama_grammar_advance_stack F rules) ss [] = Some st ->
  forall t, t ∈ st <-> t ∈ base.
Proof.
  intros Hb E t. destruct (cl_add _ _ _ _ Hb []) as (st' & E' & M). rewrite E in E'. injection E' as <-. rewrite M. set_solver.
Qed.

Lemma base_lang F ss base st : closes rules F ss base -> foldM (llama_grammar_advance_stack F rules) ss [] = Some st ->
  Forall (head_stack rules) st /\ (st = [] <-> ss = []) /\
  forall w, (exists s, s ∈ ss /\ gen G (flat rules s) w) <-> (exists t, t ∈ st /\ gen G (flat rules t) w).
Proof.
  intros Hb E. pose proof (base_same _ _ _ _ Hb E) as M. split_and!.
  - apply Forall_forall. intros t Ht. apply (proj1 (Forall_forall _ _) (cl_head _ _ _ _ Hb)). by apply M.
  - split.
    + intros ->. destruct (decide (ss = [])) as [|Hne]; [done|]. exfalso. apply (cl_nil _ _ _ _ Hb Hne).
      destruct base as [|t base]; [done|]. assert (t ∈ ([] : llama_grammar_stacks)) by (apply M; set_solver). set_solver.
    + intros ->. simpl in E. congruence.
  - intros w. rewrite (cl_lang _ _ _ _ Hb w). by setoid_rewrite M.
Qed.

Context (Hwf : wf_rules rules).

(** A stack past the character [c], not yet expanded. *)
Definition after_chr (c : Z) (s s' : llama_grammar_stack) : Prop :=
  exists p rest p', s = p :: rest /\ llama_grammar_match_char rules p c = Some (true, p') /\ push rules p' rest = Some s'.

(** The stacks of a list that accept [c]. *)
Lemma accept_fold c sts : Forall (head_stack rules) sts ->
  exists ss, Forall (good_stack rules) ss /\ (forall s', s' ∈ ss <-> exists s, s ∈ sts /\ after_chr c s s') /\
    (forall F new, foldM (llama_grammar_accept_chr F rules c) sts new = foldM (llama_grammar_advance_stack F rules) ss new) /\
    (forall w, (exists s, s ∈ sts /\ gen G (flat rules s) (c :: w)) <-> (exists s, s ∈ ss /\ gen G (flat rules s) w)).
Proof.
  induction 1 as [|s sts Hs _ (ss & Hg & Hmem & Hf & Hl)]; [exists []; split_and!; [constructor|set_solver|done|set_solver]|].
  assert ((exists s', good_stack rules s' /\ (forall s2, after_chr c s s2 <-> s2 = s') /\ (forall F new, llama_grammar_accept_chr F rules c s new = llama_grammar_advance_stack F rules s' new) /\
            forall w, gen G (flat rules s) (c :: w) <-> gen G (flat rules s') w) \/
          ((forall s2, ~ after_chr c s s2) /\ (forall F new, llama_grammar_accept_chr F rules c s new = Some new) /\ forall w, ~ gen G (flat rules s) (c :: w))) as Hcase.
  { destruct Hs as [Hs Htop]. destruct s as [|p rest]; [right; split_and!; [by intros s2 (? & ? & ? & ? & _)|done|intros w; by rewrite gen_nil_inv]|].
    pose proof Hs as [[Hgp (e & He & Hend)] Hrest]%Forall_cons. destruct Htop as (e' & He' & Hnref). rewrite He in He'. injection He' as <-.
    destruct (good_view rules p e Hgp He) as [Hend' _|r Ht|positive rs p' Htok _ _ Hc Hpos Hm _ Hsy Hg'|positive v Htok _ Hsy _]; [congruence|congruence| |].
    - destruct (push_ok rules p' rest Hg' Hrest) as (s' & Hp & Hgs & Hfl & _). destruct (class_has positive rs c) eqn:Hcl.
      + left. exists s'. split_and!; [done| | |].
        * intros s2. unfold after_chr. split; [|intros ->; exists p, rest, p'; by rewrite Hm, Hcl].
          intros (? & ? & p2 & [= <- <-] & Hm2 & Hp2). rewrite Hm in Hm2. simplify_eq. done.
        * intros F new. unfold llama_grammar_accept_chr. rewrite He. cbn [mbind option_bind]. rewrite Htok, Hm. cbn [mbind option_bind].
          rewrite Hcl, Hp. done.
        * intros w. unfold flat at 1. simpl. rewrite Hsy. simpl. rewrite gen_class_inv, Hfl. naive_solver.
      + right. split_and!.
        * intros s2 (? & ? & p2 & [= <- <-] & Hm2 & _). rewrite Hm, Hcl in Hm2. done.
        * intros F new. unfold llama_grammar_accept_chr. rewrite He. cbn [mbind option_bind]. rewrite Htok, Hm. cbn [mbind option_bind]. by rewrite Hcl.
        * intros w. unfold flat. simpl. rewrite Hsy. simpl. rewrite gen_class_inv, Hcl. naive_solver.
    - right. split_and!; [|intros F new; unfold llama_grammar_accept_chr; rewrite He; cbn [mbind option_bind]; by rewrite Htok|].
      { intros s2 (? & ? & p2 & [= <- <-] & Hm2 & _). unfold llama_grammar_match_char in Hm2. rewrite He in Hm2. cbn [mbind option_bind] in Hm2.
        unfold is_token_element in Htok. unfold is_positive_char, has_type in Hm2. by destruct (el_type e). }
      intros w. unfold flat. simpl. rewrite Hsy. apply gen_token. }
  destruct Hcase as [(s' & Hgs & Haf & Ha & Hls)|(Haf & Ha & Hls)].
  - exists (s' :: ss). split_and!; [by constructor| | |].
    + intros s2. rewrite elem_of_cons, Hmem. setoid_rewrite elem_of_cons. naive_solver.
    + intros F new. cbn [foldM]. rewrite Ha. destruct (llama_grammar_advance_stack F rules s' new); simpl; [apply Hf|done].
    + intros w. setoid_rewrite elem_of_cons. specialize (Hl w). specialize (Hls w). naive_solver.
  - exists ss. split_and!; [done| | |].
    + intros s2. rewrite Hmem. setoid_rewrite elem_of_cons. naive_solver.
    + intros F new. cbn [foldM]. rewrite Ha. cbn [mbind option_bind]. apply Hf.
    + intros w. setoid_rewrite elem_of_cons. specialize (Hl w). specialize (Hls w). naive_solver.
Qed.

(** One character, when the expansion ends. *)
Lemma accept_stacks_ok c sts : no_left_recursion rules -> Forall (head_stack rules) sts ->
  exists F0 st, (forall F, F0 <= F -> accept_stacks F rules c sts = Some st) /\ Forall (head_stack rules) st /\
    (forall w, (exists s, s ∈ sts /\ gen G (flat rules s) (c :: w)) <-> (exists s, s ∈ st /\ gen G (flat rules s) w)).
Proof.
  intros Hn Hs. destruct (accept_fold c sts Hs) as (ss & Hg & _ & Hf & Hl).
  destruct (ends_all rules ss) as (F0 & base & Hb).
  { intros s Hin. apply (stack_ends rules Hwf s Hn). by apply (proj1 (Forall_forall _ _) Hg). }
  destruct (cl_add _ _ _ _ Hb []) as (st & E & _). destruct (base_lang _ _ _ _ Hb E) as (Hh & _ & HL).
  exists F0, st. split_and!; [|done|intros w; by rewrite Hl].
  intros F HF. apply (accept_stacks_mono F0); [done|]. unfold accept_stacks. by rewrite Hf.
Qed.

(** A text, character by character. *)
Lemma accept_text w : no_left_recursion rules -> forall sts, Forall (head_stack rules) sts ->
  exists F0 st, (forall F, F0 <= F -> foldM (accept_stacks F rules) w sts = Some st) /\ Forall (head_stack rules) st /\
    (forall w', (exists s, s ∈ sts /\ gen G (flat rules s) (w ++ w')) <-> (exists s, s ∈ st /\ gen G (flat rules s) w')).
Proof.
  intros Hn. induction w as [|c w IH]; intros sts Hs; [exists 0, sts; by split_and!|].
  destruct (accept_stacks_ok c sts Hn Hs) as (F1 & st1 & E1 & Hs1 & L1). destruct (IH st1 Hs1) as (F2 & st & E2 & Hst & L2).
  exists (F1 `max` F2), st. split_and!; [|done|].
  - intros F HF. simpl. rewrite E1 by lia. simpl. apply E2. lia.
  - intros w'. rewrite <- L2. apply L1.
Qed.

Lemma initial_ok start : no_left_recursion rules -> start < length rules ->
  exists F0 st, (forall F, F0 <= F -> initial_stacks F rules start = Some st) /\ Forall (head_stack rules) st /\ st <> [] /\
    forall w, gen G [Ref start] w <-> (exists s, s ∈ st /\ gen G (flat rules s) w).
Proof.
  intros Hn Hlt. destruct (lookup_lt_is_Some_2 rules start Hlt) as [rule Hr].
  destruct (alternates_of rules start rule Hr (Hwf _ _ Hr)) as (ps & Hps & Hbnf & Hne & Hf).
  assert (exists ss, Forall2 (fun q s => push rules q [] = Some s) ps ss /\ Forall (good_stack rules) ss /\ flat rules <$> ss = syms rules <$> ps)
    as (ss & Hss & Hgs & Hfs).
  { clear Hbnf Hne Hf. induction Hps as [|q ps Hq Hps (ss & Hm & Hgs & Hfs)]; [exists []; split_and!; constructor|].
    destruct (push_ok rules q [] Hq (Forall_nil_2 _)) as (s & Hs & Hg & Hfl & _). exists (s :: ss). split_and!; [by constructor..|].
    rewrite !fmap_cons, Hfs, Hfl. unfold flat at 1. simpl. by rewrite app_nil_r. }
  destruct (ends_all rules ss) as (F0 & base & Hb).
  { intros s Hin. apply (stack_ends rules Hwf s Hn). by apply (proj1 (Forall_forall _ _) Hgs). }
  destruct (cl_add _ _ _ _ Hb []) as (st & E & _). destruct (base_lang _ _ _ _ Hb E) as (Hh & Hnil & HL).
  exists F0, st. split_and!; [|done| |].
  - intros F HF. apply (initial_mono F0); [done|]. unfold initial_stacks. rewrite Hr. cbn [mbind option_bind]. rewrite Hf, <- E. clear -Hss.
    generalize (@nil llama_grammar_stack). induction Hss as [|q s ps ss Hq _ IH]; intros st; [done|]. simpl. rewrite Hq. simpl.
    destruct (llama_grammar_advance_stack F0 rules s st); simpl; [apply IH|done].
  - intros ->. apply Hne. apply proj1 in Hnil. rewrite Hnil in Hss by done. by apply Forall2_nil_inv_r in Hss.
  - intros w. rewrite <- HL, gen_ref_inv. unfold bnf_rules at 1. rewrite Hr, <- Hbnf, <- Hfs. setoid_rewrite app_nil_r. split.
    + intros (alt & (s & -> & Hin)%list_elem_of_fmap & Hgen). by exists s.
    + intros (s & Hin & Hgen). exists (flat rules s). split; [|done]. apply list_elem_of_fmap. by exists s.
Qed.

(** The empty stack is the only one that is done. *)
Lemma empty_stack_lang s : head_stack rules s -> gen G (flat rules s) [] <-> s = [].
Proof.
  intros [Hs Htop]. split; [|intros ->; constructor]. destruct s as [|p rest]; [done|]. intros Hgen. exfalso.
  pose proof Hs as [[Hgp (e & He & Hend)] Hrest]%Forall_cons. destruct Htop as (e' & He' & Hnref). rewrite He in He'. injection He' as <-.
  unfold flat in Hgen. simpl in Hgen.
  destruct (good_view rules p e Hgp He) as [Hend' _|r Ht|positive rs p' _ _ _ _ _ _ _ Hsy _|positive v _ _ Hsy _]; [congruence|congruence| |];
    rewrite Hsy in Hgen; [by apply gen_class_nil in Hgen|by apply gen_token in Hgen].
Qed.

(** C15: the machine accepts the language of the grammar. Started on a rule and
    fed a text, it always answers (for every bound from some bound on), and a
    continuation completes the text to a sentence exactly when one of its stacks
    generates the continuation; in particular it holds the empty stack exactly
    when the text is a sentence, and it never loses its last stack while the
    text is a prefix of a sentence. *)
Theorem grammar_accepts_language (start : nat) (w : list Z) :
  no_left_recursion rules -> start < length rules ->
  exists F0 st, (forall F, F0 <= F -> (st0 ← initial_stacks F rules start; foldM (accept_stacks F rules) w st0) = Some st) /\
    (forall w', gen (bnf_rules rules) [Ref start] (w ++ w') <-> exists s, s ∈ st /\ gen (bnf_rules rules) (flat rules s) w') /\
    ([] ∈ st <-> gen (bnf_rules rules) [Ref start] w) /\
    ((exists w', gen (bnf_rules rules) [Ref start] (w ++ w')) -> st <> []).
Proof.
  intros Hn Hlt. destruct (initial_ok start Hn Hlt) as (F1 & st1 & E1 & Hs1 & _ & L1).
  destruct (accept_text w Hn st1 Hs1) as (F2 & st & E2 & Hs & L2).
  assert (forall w', gen G [Ref start] (w ++ w') <-> exists s, s ∈ st /\ gen G (flat rules s) w') as HL by (intros w'; rewrite L1; apply L2).
  exists (F1 `max` F2), st. split_and!.
  - intros F HF. rewrite E1 by lia. simpl. apply E2. lia.
  - done.
  - specialize (HL []). rewrite app_nil_r in HL. rewrite HL. split; [intros Hin; exists []; split; [done|constructor]|].
    intros (s & Hin & Hgen). apply empty_stack_lang in Hgen; [by subst|]. by apply (proj1 (Forall_forall _ _) Hs).
  - intros (w' & Hgen) ->. apply HL in Hgen as (s & Hin & _). set_solver.
Qed.
End Accept.

(** * The left-recursion check *)

Section LeftRecursion.
Context (rules : llama_grammar_rules).
#[local] Abbreviation n := (length rules).
#[local] Abbreviation detect := (fun F => llama_grammar_detect_left_recursion F rules).

Definition empty_alt (r : nat) : bool := match rules !! r with Some rule => has_empty_alternate rule true | None => false end.

(** The references the second loop of the check recurses into. *)
Fixpoint reach (l : list llama_grammar_element) (rc : bool) (r' : nat) : Prop :=
  match l with
  | [] => False
  | e :: l =>
      if has_type LLAMA_GRETYPE_RULE_REF e && rc
      then r' = Z.to_nat (el_value e) \/ reach l (empty_alt (Z.to_nat (el_value e))) r'
      else reach l (llama_grammar_is_end_of_sequence e) r'
  end.

Definition check_left (r r' : nat) : Prop := exists rule, rules !! r = Some rule /\ reach rule true r'.

Lemma reach_mono l r' : reach l false r' -> reach l true r'.
Proof.
  destruct l as [|e l]; [done|]. simpl. rewrite andb_false_r, andb_true_r. destruct (has_type LLAMA_GRETYPE_RULE_REF e) eqn:He; [|done].
  apply has_type_eq in He. unfold llama_grammar_is_end_of_sequence. rewrite He. intros Hr. right. revert Hr.
  generalize (empty_alt (Z.to_nat (el_value e))). intros []; [|done]. clear He e. revert l. fix IH 1. intros [|e l]; [done|]. simpl.
  rewrite andb_false_r, andb_true_r. destruct (has_type LLAMA_GRETYPE_RULE_REF e) eqn:He; [|done].
  apply has_type_eq in He. unfold llama_grammar_is_end_of_sequence. rewrite He. intros Hr. right.
  destruct (empty_alt _); [by apply IH|done].
Qed.

Lemma reach_le l (a b : bool) r' : (a = true -> b = true) -> reach l a r' -> reach l b r'.
Proof. destruct a, b; try done; [intros H; by discriminate H|intros _; apply reach_mono]. Qed.

Lemma set_bit_Some i b l l' : set_bit i b l = Some l' -> l' = <[i := b]> l /\ i < length l.
Proof. unfold set_bit. case_bool_decide; [|done]. by intros [= <-]. Qed.

(** What the flags of a state mean. *)
Definition flags_le (st st' : lr_state) : Prop :=
  forall i, rules_may_be_empty st !! i = Some true -> rules_may_be_empty st' !! i = Some true.
Definition visited_ok (st : lr_state) : Prop :=
  forall i, rules_visited st !! i = Some true -> Acc (fun r' r => check_left r r') i.

Lemma flags_le_trans a b c : flags_le a b -> flags_le b c -> flags_le a c.
Proof. intros H1 H2 i Hi. auto. Qed.

(** The rule and all it can start with are free of cycles once the check of it
    answered no. *)
Lemma detect_acc F : forall r st st', visited_ok st -> detect F r st = Some (false, st') ->
  Acc (fun r' r => check_left r r') r /\ flags_le st st' /\ visited_ok st' /\
  (empty_alt r = true -> rules_may_be_empty st' !! r = Some true).
Proof.
  induction F as [|F IH]; intros r st st' Hv Hd; [done|]. cbn [llama_grammar_detect_left_recursion] in Hd.
  destruct (rules_in_progress st !! r) as [p|]; cbn [mbind option_bind] in Hd; [|done]. destruct p; [done|].
  destruct (set_bit r true (rules_in_progress st)) as [ip|]; cbn [mbind option_bind] in Hd; [|done].
  destruct (rules !! r) as [rule|] eqn:Hr; cbn [mbind option_bind] in Hd; [|done].
  destruct (if has_empty_alternate rule true then _ else _) as [me|] eqn:Hme; cbn [mbind option_bind] in Hd; [|done].
  set (st0 := mkLr (rules_visited st) ip me) in *.
  assert (flags_le st st0 /\ (empty_alt r = true -> rules_may_be_empty st0 !! r = Some true)) as [Hle0 Hemp].
  { unfold flags_le, st0, empty_alt. cbn. rewrite Hr. destruct (has_empty_alternate rule true); [|injection Hme as <-; by split].
    apply set_bit_Some in Hme as [-> Hlt]. split; [|intros _; by apply list_lookup_insert_eq]. intros i Hi.
    destruct (decide (i = r)) as [->|]; [by apply list_lookup_insert_eq|by rewrite list_lookup_insert_ne]. }
  assert (forall l rc s s', visited_ok s -> left_loop (detect F) l rc s = Some (false, s') ->
    flags_le s s' /\ visited_ok s' /\ forall r', reach l rc r' -> Acc (fun r' r => check_left r r') r') as Hloop.
  { induction l as [|e l IHl]; intros rc s s' Hvs Hl; cbn [left_loop] in Hl.
    - injection Hl as <-. split_and!; [by intros i|done|done].
    - cbn [reach]. destruct (has_type LLAMA_GRETYPE_RULE_REF e && rc) eqn:Href; [|by apply IHl in Hl].
      destruct (detect F (Z.to_nat (el_value e)) s) as [[b s1]|] eqn:Hd1; cbn [mbind option_bind] in Hl; [|done]. destruct b; [done|].
      destruct (rules_may_be_empty s1 !! Z.to_nat (el_value e)) as [m|] eqn:Hm; cbn [mbind option_bind] in Hl; [|done].
      destruct (IH _ _ _ Hvs Hd1) as (Hacc & Hle1 & Hv1 & He1). destruct (IHl _ _ _ Hv1 Hl) as (Hle2 & Hv2 & Hr2).
      split_and!; [by eapply flags_le_trans|done|]. intros r' [->|Hre]; [done|]. apply Hr2. revert Hre. apply reach_le. intros Hem.
      specialize (He1 Hem). congruence. }
  destruct (left_loop (detect F) rule true st0) as [[b st1]|] eqn:Hl; cbn [mbind option_bind] in Hd; [|done]. destruct b; [done|].
  destruct (set_bit r false (rules_in_progress st1)) as [ip2|]; cbn [mbind option_bind] in Hd; [|done].
  destruct (set_bit r true (rules_visited st1)) as [v2|] eqn:Hv2; cbn [mbind option_bind] in Hd; [|done]. injection Hd as <-.
  destruct (Hloop _ _ st0 st1 Hv Hl) as (Hle1 & Hv1 & Hr1).
  assert (Acc (fun r' r => check_left r r') r) as Hacc.
  { constructor. intros r' (rule' & Hr' & Hre). rewrite Hr in Hr'. injection Hr' as <-. by apply Hr1. }
  split_and!; [done|by eapply flags_le_trans| |intros He; by apply Hle1, Hemp].
  intros i Hi. cbn in Hi. apply set_bit_Some in Hv2 as [-> Hlt]. destruct (decide (i = r)) as [->|Hne]; [done|].
  rewrite list_lookup_insert_ne in Hi by done. by apply Hv1.
Qed.

(** * The check always answers *)

Definition sized (st : lr_state) : Prop :=
  length (rules_visited st) = n /\ length (rules_in_progress st) = n /\ length (rules_may_be_empty st) = n.

(** The rules that are not in progress. *)
Definition idle (st : lr_state) : nat := length (filter (fun b => b = false) (rules_in_progress st)).

Definition refs_ok : Prop :=
  forall r rule e, rules !! r = Some rule -> e ∈ rule -> el_type e = LLAMA_GRETYPE_RULE_REF -> Z.to_nat (el_value e) < n.

Lemma idle_insert l i : l !! i = Some false ->
  S (length (filter (fun b => b = false) (<[i := true]> l))) = length (filter (fun b => b = false) l).
Proof.
  revert i. induction l as [|b l IH]; intros [|i] Hi; simpl in *; try done.
  - injection Hi as ->. rewrite filter_cons_False, filter_cons_True by done. done.
  - destruct b; [rewrite !filter_cons_False by done; by apply IH|rewrite !filter_cons_True by done; simpl; f_equal; by apply IH].
Qed.

Lemma detect_total : refs_ok -> forall F r st, sized st -> r < n -> idle st < F ->
  exists b st', detect F r st = Some (b, st') /\ sized st' /\ (b = false -> rules_in_progress st' = rules_in_progress st).
Proof.
  intros Hok F. induction F as [|F IH]; intros r st (H1 & H2 & H3) Hr Hi; [lia|]. cbn [llama_grammar_detect_left_recursion].
  destruct (lookup_lt_is_Some_2 (rules_in_progress st) r) as [p Hp]; [lia|]. rewrite Hp. cbn [mbind option_bind].
  destruct p; [by exists true, st|]. unfold set_bit. rewrite !bool_decide_true by lia. cbn [mbind option_bind].
  destruct (lookup_lt_is_Some_2 rules r Hr) as [rule Hrule]. rewrite Hrule. cbn [mbind option_bind].
  set (me := if has_empty_alternate rule true then <[r:=true]> (rules_may_be_empty st) else rules_may_be_empty st).
  assert ((if has_empty_alternate rule true then Some (<[r:=true]> (rules_may_be_empty st)) else Some (rules_may_be_empty st)) = Some me) as ->
    by (unfold me; by destruct (has_empty_alternate rule true)).
  cbn [mbind option_bind]. set (st0 := mkLr _ _ _).
  assert (sized st0 /\ idle st0 < F) as [Hs0 Hi0].
  { split.
    - unfold sized, st0, me. cbn. split_and!; [done|by rewrite length_insert|]. destruct (has_empty_alternate rule true); [by rewrite length_insert|done].
    - pose proof (idle_insert _ _ Hp). change (length (filter (fun b => b = false) (<[r:=true]> (rules_in_progress st))) < F).
      unfold idle in Hi. lia. }
  assert (forall l rc s, (forall e, e ∈ l -> el_type e = LLAMA_GRETYPE_RULE_REF -> Z.to_nat (el_value e) < n) -> sized s -> idle s < F ->
    exists b s', left_loop (detect F) l rc s = Some (b, s') /\ sized s' /\ (b = false -> rules_in_progress s' = rules_in_progress s)) as Hloop.
  { induction l as [|e l IHl]; intros rc s Hin Hss His; cbn [left_loop]; [by exists false, s|].
    destruct (has_type LLAMA_GRETYPE_RULE_REF e && rc) eqn:Href.
    - apply andb_prop in Href as [Href%has_type_eq _]. assert (Z.to_nat (el_value e) < n) as Hlt by (apply Hin; [set_solver|done]).
      destruct (IH _ s Hss Hlt His) as (b & s1 & -> & Hs1 & Hip). cbn [mbind option_bind]. destruct b; [by exists true, s1|].
      destruct (lookup_lt_is_Some_2 (rules_may_be_empty s1) (Z.to_nat (el_value e))) as [m ->]; [by destruct Hs1 as (_ & _ & ->)|]. cbn [mbind option_bind].
      destruct (IHl m s1) as (b & s2 & -> & Hs2 & Hip2); [set_solver|done|unfold idle; rewrite Hip by done; done|].
      exists b, s2. split_and!; [done..|]. intros Hb. rewrite Hip2 by done. auto.
    - apply IHl; [set_solver|done..]. }
  destruct (Hloop rule true st0) as (b & st1 & -> & Hs1 & Hip); [intros e He; by apply (Hok r rule)|done..|]. cbn [mbind option_bind].
  destruct b; [by exists true, st1|]. destruct Hs1 as (A & B & C). rewrite !bool_decide_true by lia. cbn [mbind option_bind].
  eexists _, _. split; [reflexivity|]. split; [split_and!; cbn; by rewrite ?length_insert|]. intros _. cbn. rewrite Hip by done. unfold st0. cbn.
  rewrite list_insert_insert_eq. apply list_insert_id. done.
Qed.

(** The loop over all rules. *)
Lemma left_recursive_ok : refs_ok -> exists b, left_recursive rules = Some b /\
  (b = false -> forall r, r < n -> Acc (fun r' r => check_left r r') r).
Proof.
  intros Hok. unfold left_recursive.
  destruct (foldM_prefix (fun i '(b, st) => if (b : bool) then Some (b, st) else
      v ← rules_visited st !! i; if (v : bool) then Some (false, st) else detect (S n) i st)
    (fun pre '(b, st) => sized st /\ (b = false -> rules_in_progress st = replicate n false /\ visited_ok st /\
       forall r, r ∈ pre -> Acc (fun r' r => check_left r r') r))
    (seq 0 n) (false, mkLr (replicate n false) (replicate n false) (replicate n false))) as ([b st] & -> & _ & Hb).
  - split; [split_and!; cbn; by rewrite length_replicate|]. intros _. split_and!; [done| |set_solver].
    intros i [Hf _]%lookup_replicate. done.
  - intros pre i [b st] Hpre [Hs Hb]. destruct b; [exists (true, st); split; [done|]; split; [done|done]|].
    destruct (Hb eq_refl) as (Hip & Hv & Hacc). apply prefix_seq_inv in Hpre as (Hi1 & _ & Hi2).
    assert (i < n) as Hin by lia. destruct (lookup_lt_is_Some_2 (rules_visited st) i) as [v Hvi]; [by destruct Hs as (-> & _)|].
    rewrite Hvi. cbn [mbind option_bind]. destruct v.
    + exists (false, st). split; [done|]. split; [done|]. intros _. split_and!; [done..|]. intros r [Hr| ->%list_elem_of_singleton]%elem_of_app; [by apply Hacc|].
      by apply Hv.
    + destruct (detect_total Hok (S n) i st Hs Hin) as (b & st' & Hd & Hs' & Hip').
      { unfold idle. rewrite Hip. pose proof (length_filter (fun b : bool => b = false) (replicate n false)). rewrite length_replicate in *. lia. }
      exists (b, st'). split; [done|]. split; [done|]. intros ->. destruct (detect_acc (S n) i st st' Hv Hd) as (Ha & _ & Hv' & _).
      split_and!; [by rewrite Hip'|done|]. intros r [Hr| ->%list_elem_of_singleton]%elem_of_app; [by apply Hacc|done].
  - cbn [mbind option_bind]. exists b. split; [done|]. intros -> r Hr. apply Hb; [done|]. apply elem_of_seq. lia.
Qed.
End LeftRecursion.


(** * What the check means for the language *)

Section CheckMeaning.
Context (rules : llama_grammar_rules).
#[local] Abbreviation G := (bnf_rules rules).

Lemma null_cons x l : null_syms rules (x :: l) -> exists r, x = Ref r /\ nullable rules r /\ null_syms rules l.
Proof.
  intros H. unfold null_syms in H. change (x :: l) with ([x] ++ l) in H. apply gen_app in H as (w1 & w2 & Hw & H1 & H2).
  symmetry in Hw. apply app_nil in Hw as [-> ->]. destruct x as [p rs|r|p v]; [by apply gen_class_nil in H1| |by apply gen_token in H1].
  by exists r.
Qed.

Lemma empty_alternate_syms m l : forall rng alt, shape m l rng alt = true ->
  ([] ∈ rd_alts (read l) -> forall b, has_empty_alternate l b = true) /\
  (match l with e :: _ => starts e = true | [] => True end -> rd_syms (read l) = [] -> has_empty_alternate l true = true).
Proof.
  induction l as [|e l IH]; intros rng alt Hs; [done|].
  assert (forall rng' alt', shape m l rng' alt' = true -> [] ∈ rd_alts (read l) -> forall b, has_empty_alternate l b = true) as IHa.
  { intros rng' alt' Hs'. by destruct (IH _ _ Hs'). }
  simpl in Hs. cbn [has_empty_alternate]. unfold llama_grammar_is_end_of_sequence, starts, has_type. simpl. unfold read_elem.
  destruct (el_type e) eqn:Ht; simpl;
    repeat match goal with H : _ && _ = true |- _ => apply andb_prop in H as [_ H] end; split; try done; try (intros Hin b; by eapply IHa).
  - by rewrite elem_of_nil.
  - intros [Heq|Hin]%elem_of_cons b; [|rewrite (IHa _ _ Hs Hin); by rewrite orb_true_r].
    destruct (IH _ _ Hs) as [_ Hb]. rewrite Hb, orb_true_r; [done| |done]. destruct l as [|e1 l1]; [done|]. simpl in Hs. unfold starts, has_type.
    by destruct (el_type e1).
Qed.

Lemma empty_alt_bnf r : wf_rules rules -> [] ∈ G r -> empty_alt rules r = true.
Proof.
  intros Hwf. unfold bnf_rules, empty_alt. destruct (rules !! r) as [rule|] eqn:Hr; [|by rewrite elem_of_nil]. unfold bnf.
  pose proof (Hwf _ _ Hr) as Hs. destruct (empty_alternate_syms _ _ _ _ Hs) as [Ha Hb]. intros [Heq|Hin]%elem_of_cons; [|by apply Ha].
  apply Hb; [|done]. destruct rule as [|e l]; [done|]. unfold starts, has_type. simpl in Hs. by destruct (el_type e).
Qed.

Lemma reach_complete m l r' pre post : (forall r, nullable rules r -> empty_alt rules r = true) -> null_syms rules pre ->
  forall rng alt, shape m l rng alt = true ->
  (pre ++ Ref r' :: post ∈ rd_alts (read l) -> forall rc, reach rules l rc r') /\
  (forall pre', null_syms rules pre' -> rng = false -> alt = false -> rd_syms (read l) = pre' ++ Ref r' :: post -> reach rules l true r').
Proof.
  intros Hnull Hpre. induction l as [|e l IH]; intros rng alt Hs; [done|].
  assert (forall rng' alt', shape m l rng' alt' = true -> pre ++ Ref r' :: post ∈ rd_alts (read l) -> forall rc, reach rules l rc r') as IHa.
  { intros rng' alt' Hs'. by destruct (IH _ _ Hs'). }
  simpl in Hs. cbn [reach]. unfold llama_grammar_is_end_of_sequence, has_type. simpl. unfold read_elem.
  destruct (el_type e) eqn:Ht; simpl; split;
    try (intros Hin rc; repeat match goal with H : _ && _ = true |- _ => apply andb_prop in H as [_ H] end; by eapply IHa);
    try (intros pre' Hp' -> ->; done);
    try (intros pre' Hp' _ _; destruct pre'; done);
    try (intros pre' Hp' _ _ Heq; destruct pre' as [|x pre']; simpl in Heq; injection Heq as Hx Hl; [done|];
      apply null_cons in Hp' as (r & -> & _); done).
  - by rewrite elem_of_nil.
  - intros [Heq|Hin]%elem_of_cons rc; [|by eapply IHa]. destruct (IH _ _ Hs) as [_ Hb]. by apply (Hb pre).
  - apply andb_prop in Hs as [_ Hs]. intros Hin rc. destruct rc; [right|]; by eapply IHa.
  - apply andb_prop in Hs as [_ Hs]. intros pre' Hp' _ _ Heq. destruct pre' as [|x pre']; simpl in Heq; injection Heq as Hx Hl; [left; congruence|].
    right. apply null_cons in Hp' as (r & -> & Hr & Hp'). injection Hx as <-. rewrite (Hnull _ Hr). destruct (IH _ _ Hs) as [_ Hb]. by apply (Hb pre').
Qed.

Lemma shape_refs m l : forall rng alt, shape m l rng alt = true ->
  forall e, e ∈ l -> el_type e = LLAMA_GRETYPE_RULE_REF -> Z.to_nat (el_value e) < m.
Proof.
  induction l as [|e' l IH]; intros rng alt Hs e Hin Ht; [done|]. simpl in Hs. apply elem_of_cons in Hin as [->|Hin].
  - rewrite Ht in Hs. apply andb_prop in Hs as [Hb%bool_decide_eq_true _]. lia.
  - destruct (el_type e'); try (apply andb_prop in Hs as [_ Hs]); try (by eapply IH). apply bool_decide_eq_true in Hs. subst. by apply elem_of_nil in Hin.
Qed.

Lemma wf_refs : wf_rules rules -> refs_ok rules.
Proof. intros Hwf r rule e Hr. by eapply shape_refs, Hwf. Qed.

(** An accepted grammar whose nullable rules have an empty alternate. *)
Lemma check_no_left_recursion : wf_rules rules -> left_recursive rules = Some false ->
  (forall r, nullable rules r -> [] ∈ bnf_rules rules r) -> no_left_recursion rules.
Proof.
  intros Hwf Hb Hnull. destruct (left_recursive_ok rules (wf_refs Hwf)) as (b & Hb' & Hacc). rewrite Hb in Hb'. injection Hb' as <-.
  intros r Hr. specialize (Hacc eq_refl r Hr). clear Hr. induction Hacc as [r _ IH]. constructor. intros r' (pre & post & Hin & Hpre).
  apply IH. unfold bnf_rules in Hin. destruct (rules !! r) as [rule|] eqn:Hr; [|by apply elem_of_nil in Hin]. exists rule. split; [done|].
  destruct (reach_complete (length rules) rule r' pre post) with (rng := false) (alt := false) as [Ha Hbn].
  - intros r0 Hr0. by apply empty_alt_bnf, Hnull.
  - done.
  - by apply (Hwf r).
  - unfold bnf in Hin. apply elem_of_cons in Hin as [Heq|Hin]; [by apply (Hbn pre)|by apply Ha].
Qed.

(** C20: the left-recursion check always answers, within one level of recursion
    per rule. When it accepts a grammar in which every rule that can derive the
    empty text has an empty alternate, the grammar has no left recursion, and
    every stack of the machine expands in finitely many steps. *)
Theorem left_recursion_check_sound :
  wf_rules rules ->
  exists b, left_recursive rules = Some b /\
    (b = false -> (forall r, nullable rules r -> [] ∈ bnf_rules rules r) ->
     no_left_recursion rules /\
     forall s, good_stack rules s -> exists F0 st, forall F, F0 <= F -> llama_grammar_advance_stack F rules s [] = Some st).
Proof.
  intros Hwf. destruct (left_recursive_ok rules (wf_refs Hwf)) as (b & Hb & _). exists b. split; [done|]. intros -> Hnull.
  pose proof (check_no_left_recursion Hwf Hb Hnull) as Hn.
  split; [done|]. intros s Hs. destruct (stack_ends rules Hwf s Hn Hs) as (F0 & base & Hcl).
  destruct (cl_add _ _ _ _ Hcl []) as (st & E & _). exists F0, st. intros F HF. apply (advance_mono rules F0); [done|].
  simpl in E. destruct (llama_grammar_advance_stack F0 rules s []) as [x|]; simpl in E; [congruence|done].
Qed.
End CheckMeaning.

(** * An example: [root ::= word "0"], [word ::= [a-z] word | ] *)

Definition word_rules : llama_grammar_rules :=
  [ [mkElem LLAMA_GRETYPE_RULE_REF 1; mkElem LLAMA_GRETYPE_CHAR 48; mkElem LLAMA_GRETYPE_END 0];
    [mkElem LLAMA_GRETYPE_CHAR 97; mkElem LLAMA_GRETYPE_CHAR_RNG_UPPER 122; mkElem LLAMA_GRETYPE_RULE_REF 1; mkElem LLAMA_GRETYPE_ALT 0;
     mkElem LLAMA_GRETYPE_END 0] ].

Lemma word_wf : wf_rules word_rules.
Proof. apply (bool_decide_unpack (wf_rules word_rules)). vm_compute. exact I. Qed.

Lemma word_nullable r : nullable word_rules r -> [] ∈ bnf_rules word_rules r.
Proof.
  destruct r as [|[|r]]; intros Hn; apply null_cons in Hn as (r' & [= <-] & Hn & _); try (apply gen_ref_inv in Hn as (alt & Hin & Hg)).
  - apply list_elem_of_singleton in Hin. subst. apply null_cons in Hg as (? & _ & _ & Hg). by apply null_cons in Hg as (? & [=] & _).
  - right. by left.
  - by apply elem_of_nil in Hin.
Qed.

Lemma word_check : left_recursive word_rules = Some false.
Proof. vm_compute. reflexivity. Qed.

Lemma word_no_left_recursion : no_left_recursion word_rules.
Proof. apply (check_no_left_recursion _ word_wf word_check word_nullable). Qed.

(** After "ab" there is a stack for "0" and one for more letters. *)
Lemma grammar_accepts_language_witness : exists F0 st,
  (forall F, F0 <= F -> (st0 ← initial_stacks F word_rules 0; foldM (accept_stacks F word_rules) [97; 98]%Z st0) = Some st) /\
  ([] ∈ st <-> gen (bnf_rules word_rules) [Ref 0] [97; 98]%Z) /\ initial_stacks 9 word_rules 0 = Some [[(1, 0); (0, 1)]; [(0, 1)]].
Proof.
  destruct (grammar_accepts_language word_rules word_wf 0 [97; 98]%Z word_no_left_recursion) as (F0 & st & E & _ & M & _); [vm_compute; lia|].
  exists F0, st. split; [exact E|]. split; [exact M|]. vm_compute. reflexivity.
Defined.

Lemma left_recursion_check_sound_witness : left_recursive word_rules = Some false /\ no_left_recursion word_rules.
Proof.
  destruct (left_recursion_check_sound word_rules word_wf) as (b & Hb & H). pose proof word_check as Hc. rewrite Hc in Hb. injection Hb as <-.
  split; [exact Hc|]. apply H; [reflexivity|exact word_nullable].
Defined.

(** * A grammar the check accepts although it is left-recursive

    [root ::= a root "x"], [a ::= b], [b ::= "b" | ]: the rule [a] derives the
    empty text through [b] but has no empty alternate of its own, so the check
    does not look behind it, and the expansion of the start rule never ends. *)
Definition hidden_recursion : llama_grammar_rules :=
  [ [mkElem LLAMA_GRETYPE_RULE_REF 1; mkElem LLAMA_GRETYPE_RULE_REF 0; mkElem LLAMA_GRETYPE_CHAR 120; mkElem LLAMA_GRETYPE_END 0];
    [mkElem LLAMA_GRETYPE_RULE_REF 2; mkElem LLAMA_GRETYPE_END 0];
    [mkElem LLAMA_GRETYPE_CHAR 98; mkElem LLAMA_GRETYPE_ALT 0; mkElem LLAMA_GRETYPE_END 0] ].

Lemma hidden_recursion_accepted : left_recursive hidden_recursion = Some false.
Proof. vm_compute. reflexivity. Qed.

Lemma hidden_step0 F rest new : llama_grammar_advance_stack (S F) hidden_recursion ((0, 0) :: rest) new =
  (s ← llama_grammar_advance_stack F hidden_recursion ((1, 0) :: (0, 1) :: rest) new; Some s).
Proof. reflexivity. Qed.
Lemma hidden_step1 F rest new : llama_grammar_advance_stack (S (S F)) hidden_recursion ((1, 0) :: rest) new =
  (s ← llama_grammar_advance_stack (S F) hidden_recursion rest (add_stack ((2, 0) :: rest) new); Some s).
Proof. reflexivity. Qed.
Lemma hidden_step2 F rest new : llama_grammar_advance_stack (S F) hidden_recursion ((0, 1) :: rest) new =
  (s ← llama_grammar_advance_stack F hidden_recursion ((0, 0) :: (0, 2) :: rest) new; Some s).
Proof. reflexivity. Qed.

Lemma hidden_recursion_never_ends F : forall rest new, llama_grammar_advance_stack F hidden_recursion ((1, 0) :: (0, 1) :: rest) new = None.
Proof.
  induction F as [F IH] using lt_wf_ind. intros rest new. destruct F as [|[|[|F]]]; [done..|].
  rewrite hidden_step1, hidden_step2, hidden_step0, IH by lia. done.
Qed.

Lemma hidden_recursion_hangs F : initial_stacks F hidden_recursion 0 = None.
Proof.
  change (initial_stacks F hidden_recursion 0) with (s ← llama_grammar_advance_stack F hidden_recursion [(0, 0)] []; Some s).
  destruct F as [|F]; [done|]. by rewrite hidden_step0, hidden_recursion_never_ends.
Qed.

End GrammarRun.
