(* ===== verification/GrammarSample.v ===== *)
(** Sampling under a grammar: rejecting candidates, applying the grammar to the
    token data and accepting the sampled token agree.  A candidate is rejected
    exactly when none of the stacks of the grammar can consume it. *)

From S2P Require Import Bytes.
From S2P Require Import Utf8.
From S2P Require Import Grammar.
From S2P Require Import GrammarLang.
From S2P Require Import GrammarRun.
Import Utf8.Utf8 Grammar.Grammar GrammarLang.GrammarLang GrammarRun.GrammarRun.

Module GrammarSample.

Section Lives.
Context (rules : llama_grammar_rules).

(** [t] is one of the stacks [s] expands to. *)
Definition expands (s t : llama_grammar_stack) : Prop := exists F base, closes rules F [s] base /\ t ∈ base.

(** One character takes the stack [s] to [t]. *)
Definition steps (c : Z) (s t : llama_grammar_stack) : Prop := exists s', after_chr rules c s s' /\ expands s' t.

(** The code points [cps] take [s] to [t]. *)
Inductive survive : list Z -> llama_grammar_stack -> llama_grammar_stack -> Prop :=
  | sv_nil s : survive [] s s
  | sv_cons c cps s t u : steps c s t -> survive cps t u -> survive (c :: cps) s u.

(** The top of the stack admits the incomplete sequence [u] after the token. *)
Definition admits (u : llama_partial_utf8) (s : llama_grammar_stack) : Prop :=
  pu_n_remain u = 0%Z \/ exists p rest, s = p :: rest /\ llama_grammar_match_partial_char rules p u = Some true.

(** The stack can consume the whole candidate. *)
Definition lives (cps : list Z) (u : llama_partial_utf8) (s : llama_grammar_stack) : Prop := exists t, survive cps s t /\ admits u t.

Lemma expands_closes F s base : closes rules F [s] base -> forall t, expands s t <-> t ∈ base.
Proof.
  intros Hc t. split; [|by exists F, base]. intros (F' & b & Hb & Ht). by apply (closes_same rules F' F [s] b base Hb Hc).
Qed.

Context (Hwf : wf_rules rules) (Hnr : no_left_recursion rules).

(** [advance_stack] computes the stacks a stack expands to. *)
Lemma advance_expands s : good_stack rules s -> exists F0 st, st <> [] /\ Forall (head_stack rules) st /\ (forall t, t ∈ st <-> expands s t) /\
  forall F, F0 <= F -> llama_grammar_advance_stack F rules s [] = Some st.
Proof.
  intros Hs. destruct (stack_ends rules Hwf s Hnr Hs) as (F0 & base & Hb). destruct (cl_add _ _ _ _ Hb []) as (st & E & M).
  destruct (base_lang rules F0 [s] base st Hb E) as (Hh & Hnil & _). exists F0, st. split_and!; [|done| |].
  - intros ->. by apply proj1 in Hnil; specialize (Hnil eq_refl).
  - intros t. rewrite (expands_closes _ _ _ Hb), M. set_solver.
  - intros F HF. apply (advance_mono rules F0); [done|]. simpl in E. by destruct (llama_grammar_advance_stack F0 rules s []).
Qed.

Lemma head_good s : head_stack rules s -> good_stack rules s.
Proof. by intros []. Qed.

(** Accepting one character: the stacks after it. *)
Lemma accept_members c sts : Forall (head_stack rules) sts ->
  exists F0 st, (forall F, F0 <= F -> accept_stacks F rules c sts = Some st) /\ Forall (head_stack rules) st /\
    (forall t, t ∈ st <-> exists s, s ∈ sts /\ steps c s t).
Proof.
  intros Hs. destruct (accept_fold rules Hwf c sts Hs) as (ss & Hg & Hmem & Hf & _).
  destruct (ends_all rules ss) as (F0 & base & Hb).
  { intros s Hin. apply (stack_ends rules Hwf s Hnr). by apply (proj1 (Forall_forall _ _) Hg). }
  assert (forall F, F0 <= F -> exists st, foldM (llama_grammar_advance_stack F rules) ss [] = Some st) as Hex.
  { intros F HF. apply (closes_mono rules F0 F) in Hb; [|done]. destruct (cl_add _ _ _ _ Hb []) as (st & E & _). by exists st. }
  destruct (Hex F0 (le_n _)) as [st E]. exists F0, st. split_and!.
  - intros F HF. apply (accept_stacks_mono rules F0); [done|]. unfold accept_stacks. by rewrite Hf.
  - by apply (base_lang rules F0 ss base st Hb E).
  - intros t. rewrite (base_same rules F0 ss base st Hb E). assert (t ∈ base <-> exists s', s' ∈ ss /\ expands s' t) as ->.
    + clear Hf Hmem Hex E. revert base F0 Hb. induction ss as [|s ss IH]; intros base F0 Hb.
      * destruct (cl_add _ _ _ _ Hb []) as (n & E & M). simpl in E. injection E as <-. specialize (M t). set_solver.
      * apply Forall_cons in Hg as [Hs1 Hg]. destruct (stack_ends rules Hwf s Hnr Hs1) as (F1 & b1 & Hb1).
        assert (ends rules ss) as (F2 & b2 & Hb2).
        { apply ends_all. intros s' Hin. apply (stack_ends rules Hwf s' Hnr). by apply (proj1 (Forall_forall _ _) Hg). }
        assert (closes rules (F1 `max` F2) (s :: ss) (b1 ++ b2)) as Hb'.
        { apply (closes_app rules _ [s] ss); [apply (closes_mono rules F1)|apply (closes_mono rules F2)]; (done || lia). }
        rewrite (closes_same rules _ _ _ _ _ Hb Hb'). rewrite elem_of_app, (IH Hg _ _ Hb2), <- (expands_closes _ _ _ Hb1).
        setoid_rewrite elem_of_cons. naive_solver.
    + setoid_rewrite Hmem. unfold steps. naive_solver.
Qed.

(** The stacks that survive a token. *)
Lemma consume_members cps : forall sts, Forall (head_stack rules) sts ->
  exists F0 st, (forall F, F0 <= F -> consume F rules cps sts = Some st) /\ Forall (head_stack rules) st /\
    (forall t, t ∈ st <-> exists s, s ∈ sts /\ survive cps s t).
Proof.
  induction cps as [|c cps IH]; intros sts Hs.
  - exists 0, sts. split_and!; [done..|]. intros t. split; [intros Ht; exists t; split; [done|constructor]|].
    intros (s & Hin & Hsv). by inversion Hsv; subst.
  - destruct (accept_members c sts Hs) as (F1 & st1 & E1 & H1 & M1). destruct (IH st1 H1) as (F2 & st & E2 & H2 & M2).
    exists (F1 `max` F2), st. split_and!; [|done|].
    + intros F HF. simpl. rewrite E1 by lia. simpl. case_bool_decide as Hnil; [|apply E2; lia].
      assert (st = []) as ->; [|done]. destruct st as [|t st]; [done|]. exfalso. destruct (proj1 (M2 t)) as (s & Hin & _); [set_solver|].
      subst. set_solver.
    + intros t. rewrite M2. setoid_rewrite M1. split.
      * intros (s' & (s & Hin & Hst) & Hsv). exists s. split; [done|by econstructor].
      * intros (s & Hin & Hsv). inversion Hsv as [|? ? ? s' ? Hst Hsv']; subst. exists s'. split; [by exists s|done].
Qed.
End Lives.

(** * Rejecting *)

Section Reject.
Context (rules : llama_grammar_rules) (Hwf : wf_rules rules) (Hnr : no_left_recursion rules) (Hnt : no_tokens rules).

(** The code points a candidate still has to match. *)
Definition rest_of (c : llama_grammar_candidate) (cps : list Z) : Prop :=
  drop (c_off c) (c_code_points c) = cps ++ [0%Z] /\ Forall (fun z => z <> 0%Z) cps /\ (pu_n_remain (c_partial_utf8 c) <= 5)%Z.

Definition well_formed (k : nat) (c : llama_grammar_candidate) : Prop := exists cps, rest_of c cps /\ length cps < k.

Definition dead (c : llama_grammar_candidate) (s : llama_grammar_stack) : Prop :=
  forall cps, rest_of c cps -> ~ lives rules cps (c_partial_utf8 c) s.

Lemma rest_unique c l1 l2 : rest_of c l1 -> rest_of c l2 -> l1 = l2.
Proof. intros (H1 & _) (H2 & _). rewrite H1 in H2. by apply app_inj_tail in H2 as [? _]. Qed.

Lemma cur_of c cps : rest_of c cps -> c_cur c = Some (default 0%Z (head cps)).
Proof. intros (H & _). unfold c_cur. replace (c_off c) with (c_off c + 0) by lia. rewrite <- lookup_drop, H. by destruct cps. Qed.

Lemma rest_move c z cps : rest_of c (z :: cps) -> rest_of (c_move (S (c_off c)) c) cps.
Proof.
  intros (H & Hz & Hn). unfold rest_of. cbn. apply Forall_cons in Hz as [_ Hz]. split_and!; [|done|done].
  replace (S (c_off c)) with (c_off c + 1) by lia. by rewrite <- drop_drop, H.
Qed.

Lemma no_token_elem p e : elem_at rules p = Some e -> is_token_element e = false.
Proof.
  unfold elem_at. destruct (rules !! p.1) as [rule|] eqn:Hr; simpl; [|done]. intros He. apply (Hnt p.1 rule e Hr). by eapply list_elem_of_lookup_2.
Qed.

(** A loop that appends the elements a predicate selects. *)
Lemma foldM_filter {A} (f : A -> list A -> option (list A)) (P : A -> Prop) l acc :
  (forall a acc, a ∈ l -> exists b : bool, f a acc = Some (if b then acc ++ [a] else acc) /\ (b = true <-> P a)) ->
  exists res, foldM f l acc = Some res /\ forall a, a ∈ res <-> a ∈ acc \/ (a ∈ l /\ P a).
Proof.
  revert acc. induction l as [|x l IH]; intros acc H; [exists acc; split; [done|set_solver]|].
  destruct (H x acc) as (b & Hb & HP); [set_solver|]. simpl. rewrite Hb. simpl.
  destruct (IH (if b then acc ++ [x] else acc)) as (res & Hres & M); [intros a acc' Ha; apply H; set_solver|].
  exists res. split; [done|]. intros a. rewrite M. destruct b; set_solver.
Qed.

(** The empty stack rejects what is left. *)
Lemma reject_end_ok cands : Forall (fun c => exists cps, rest_of c cps) cands ->
  exists res, foldM reject_at_end cands [] = Some res /\ forall c, c ∈ res <-> c ∈ cands /\ dead c [].
Proof.
  intros Hc. destruct (foldM_filter reject_at_end (fun c => dead c []) cands []) as (res & -> & M).
  - intros a acc Ha. rewrite Forall_forall in Hc. destruct (Hc a Ha) as (cps & Hr). unfold reject_at_end. rewrite (cur_of _ _ Hr).
    cbn [mbind option_bind]. exists (bool_decide (default 0 (head cps) <> 0 \/ pu_n_remain (c_partial_utf8 a) <> 0)%Z).
    split; [by case_bool_decide|]. rewrite bool_decide_eq_true. split.
    + intros Hne cps' Hr' (t & Hsv & Had). rewrite (rest_unique _ _ _ Hr' Hr) in Hsv. inversion Hsv as [|c1 cps1 s1 t1 u1 Hst Hsv1]; subst; [|by destruct Hst as (s' & (? & ? & ? & [=] & _) & _)].
      destruct Had as [H0|(? & ? & [=] & _)]. simpl in Hne. destruct Hne; done.
    + intros Hd. destruct (decide (default 0 (head cps) <> 0 \/ pu_n_remain (c_partial_utf8 a) <> 0)%Z) as [|Hn]; [done|]. exfalso.
      apply (Hd cps Hr). assert (cps = []) as ->.
      { destruct cps as [|z cps]; [done|]. exfalso. destruct Hr as (_ & [Hz _]%Forall_cons & _). apply Hn. by left. }
      exists []. split; [constructor|]. left. destruct (decide (pu_n_remain (c_partial_utf8 a) = 0%Z)); [done|]. exfalso. apply Hn. by right.
  - exists res. split; [done|]. intros c. rewrite M. set_solver.
Qed.
(** The candidates a character rejects, and those it lets through. *)
Definition rejected_at (p : nat * nat) (cl : Z -> bool) (c : llama_grammar_candidate) : Prop :=
  (rest_of c [] /\ pu_n_remain (c_partial_utf8 c) <> 0%Z /\ llama_grammar_match_partial_char rules p (c_partial_utf8 c) <> Some true) \/
  (exists z cps, rest_of c (z :: cps) /\ cl z = false).
Definition passed_at (cl : Z -> bool) (c : llama_grammar_candidate) : Prop := exists z cps, rest_of c (z :: cps) /\ cl z = true.

Lemma reject_char_step p (cl : Z -> bool) p' c rj nx :
  (forall z, llama_grammar_match_char rules p z = Some (cl z, p')) ->
  (forall u, (pu_n_remain u <= 5)%Z -> is_Some (llama_grammar_match_partial_char rules p u)) -> (exists cps, rest_of c cps) ->
  exists b1 b2 : bool, reject_at_char rules p c (rj, nx) =
      Some (if b1 then rj ++ [c] else rj, if b2 then nx ++ [c_move (S (c_off c)) c] else nx) /\
    (b1 = true <-> rejected_at p cl c) /\ (b2 = true <-> passed_at cl c).
Proof.
  intros Hm Hp (cps & Hr). unfold reject_at_char, rejected_at, passed_at. rewrite (cur_of _ _ Hr). cbn [mbind option_bind].
  assert (forall l, rest_of c l -> l = cps) as Hu by (intros l Hl; by apply (rest_unique c)).
  destruct cps as [|z cps]; cbn [head from_option id].
  - rewrite (bool_decide_true (0 = 0)%Z) by done. destruct (decide (pu_n_remain (c_partial_utf8 c) = 0%Z)) as [Hz|Hz].
    + exists false, false. rewrite bool_decide_false by auto. split_and!; [done|split; [done|]|split; [done|]].
      * intros [(_ & ? & _)|(z & l & Hl & _)]; [done|by apply Hu in Hl].
      * intros (z & l & Hl & _). by apply Hu in Hl.
    + rewrite bool_decide_true by done. destruct (Hp (c_partial_utf8 c)) as [b Hb]; [apply Hr|]. rewrite Hb. simpl.
      exists (negb b), false. split_and!; [by destruct b| |split; [done|]].
      * split; [intros Hn; left; split_and!; [done|done|by destruct b]|].
        intros [(_ & _ & Hn)|(z & l & Hl & _)]; [by destruct b|by apply Hu in Hl].
      * intros (z & l & Hl & _). by apply Hu in Hl.
  - assert (z <> 0%Z) as Hz by (destruct Hr as (_ & [Hz _]%Forall_cons & _); done).
    rewrite bool_decide_false by done. rewrite Hm. simpl. exists (negb (cl z)), (cl z). split_and!; [by destruct (cl z)| |].
    + split; [intros Hn; right; exists z, cps; split; [done|by destruct (cl z)]|].
      intros [(Hl & _)|(z' & l & Hl & Hcl)]; [by apply Hu in Hl|]. apply Hu in Hl as [= -> ->]. by rewrite Hcl.
    + split; [intros Hcl; by exists z, cps|]. intros (z' & l & Hl & Hcl). by apply Hu in Hl as [= -> ->].
Qed.

(** The loop over the candidates at a character. *)
Lemma reject_char_ok p (cl : Z -> bool) p' cands :
  (forall z, llama_grammar_match_char rules p z = Some (cl z, p')) ->
  (forall u, (pu_n_remain u <= 5)%Z -> is_Some (llama_grammar_match_partial_char rules p u)) ->
  Forall (fun c => exists cps, rest_of c cps) cands -> forall rj0 nx0,
  exists rj nx, foldM (reject_at_char rules p) cands (rj0, nx0) = Some (rj, nx) /\
    (forall c, c ∈ rj <-> c ∈ rj0 \/ (c ∈ cands /\ rejected_at p cl c)) /\
    (forall c, c ∈ nx <-> c ∈ nx0 \/ exists c0, c0 ∈ cands /\ passed_at cl c0 /\ c = c_move (S (c_off c0)) c0).
Proof.
  intros Hm Hp Hc. induction Hc as [|c cands Hr Hc IH]; intros rj0 nx0; [exists rj0, nx0; split_and!; [done|set_solver..]|].
  destruct (reject_char_step p cl p' c rj0 nx0 Hm Hp Hr) as (b1 & b2 & Hstep & H1 & H2). cbn [foldM]. rewrite Hstep. cbn [mbind option_bind].
  destruct (IH (if b1 then rj0 ++ [c] else rj0) (if b2 then nx0 ++ [c_move (S (c_off c)) c] else nx0)) as (rj & nx & E & M1 & M2).
  exists rj, nx. split_and!; [done| |].
  - intros a. rewrite M1. rewrite elem_of_cons. destruct b1.
    + rewrite elem_of_app, list_elem_of_singleton. split; [intros [[?| ->]|?]; tauto|intros [?|[[->|?] ?]]; tauto].
    + split; [tauto|]. intros [?|[[->|?] Hra]]; [tauto|by apply H1 in Hra|tauto].
  - intros a. rewrite M2. setoid_rewrite elem_of_cons. destruct b2.
    + rewrite elem_of_app, list_elem_of_singleton. split.
      * intros [[?| ->]|(c0 & ? & ?)]; [by left|right; exists c; tauto|right; exists c0; tauto].
      * intros [?|(c0 & [->|?] & ? & ->)]; [tauto|left; by right|right; by exists c0].
    + split.
      * intros [?|(c0 & ? & ?)]; [by left|right; exists c0; tauto].
      * intros [?|(c0 & [->|?] & Hpa & ->)]; [tauto|by apply H2 in Hpa|right; by exists c0].
Qed.

(** Rejecting for one stack after the other. *)
Lemma reject_list_ok (f : nat -> llama_grammar_stack -> list llama_grammar_candidate -> option (list llama_grammar_candidate)) st (I : llama_grammar_candidate -> Prop) :
  (forall s cands, s ∈ st -> Forall I cands -> exists F0 rj, (forall F, F0 <= F -> f F s cands = Some rj) /\ forall c, c ∈ rj <-> c ∈ cands /\ dead c s) ->
  forall cands, Forall I cands ->
  exists F0 rj, (forall F, F0 <= F -> foldM (f F) st cands = Some rj) /\ forall c, c ∈ rj <-> c ∈ cands /\ forall s, s ∈ st -> dead c s.
Proof.
  induction st as [|s st IH]; intros Hf cands Hc; [exists 0, cands; split; [done|set_solver]|].
  destruct (Hf s cands) as (F1 & rj1 & E1 & M1); [set_solver|done|].
  destruct (IH ltac:(intros s' c' Hs'; apply Hf; set_solver) rj1) as (F2 & rj & E2 & M2).
  { apply Forall_forall. intros c [Hin _]%M1. by apply (proj1 (Forall_forall _ _) Hc). }
  exists (F1 `max` F2), rj. split; [intros F HF; simpl; rewrite E1 by lia; simpl; apply E2; lia|].
  intros c. rewrite M2, M1. setoid_rewrite elem_of_cons. naive_solver.
Qed.

Lemma reject_with_ok (f : nat -> llama_grammar_stack -> list llama_grammar_candidate -> option (list llama_grammar_candidate)) st (I : llama_grammar_candidate -> Prop) :
  st <> [] ->
  (forall s cands, s ∈ st -> Forall I cands -> exists F0 rj, (forall F, F0 <= F -> f F s cands = Some rj) /\ forall c, c ∈ rj <-> c ∈ cands /\ dead c s) ->
  forall cands, Forall I cands ->
  exists F0 rj, (forall F, F0 <= F -> reject_with (f F) st cands = Some rj) /\ forall c, c ∈ rj <-> c ∈ cands /\ forall s, s ∈ st -> dead c s.
Proof.
  intros Hne Hf cands Hc. unfold reject_with. rewrite (ggml_assert_true _) by (by rewrite bool_decide_false). cbn [mbind option_bind].
  case_bool_decide as Hnil; [subst; exists 0, []; split; [done|set_solver]|]. by apply (reject_list_ok f st I).
Qed.

(** What a candidate needs at a character. *)
Lemma lives_char p rest p' (cl : Z -> bool) s' u : (forall z, llama_grammar_match_char rules p z = Some (cl z, p')) -> push rules p' rest = Some s' ->
  (lives rules [] u (p :: rest) <-> pu_n_remain u = 0%Z \/ llama_grammar_match_partial_char rules p u = Some true) /\
  forall z cps, lives rules (z :: cps) u (p :: rest) <-> cl z = true /\ exists t, expands rules s' t /\ lives rules cps u t.
Proof.
  intros Hm Hp. split.
  - split.
    + intros (t & Hsv & Had). inversion Hsv; subst. destruct Had as [?|(? & ? & [= <- <-] & ?)]; [by left|by right].
    + intros H. exists (p :: rest). split; [constructor|]. destruct H as [?|?]; [by left|right]. by exists p, rest.
  - intros z cps. split.
    + intros (t & Hsv & Had). inversion Hsv as [|c1 cps1 s1 t1 u1 Hst Hsv1]; subst.
      destruct Hst as (s2 & (p1 & r1 & p2 & [= <- <-] & Hm1 & Hp1) & Hex).
      rewrite Hm in Hm1. injection Hm1 as Hcl <-. rewrite Hp in Hp1. injection Hp1 as <-. split; [done|]. exists t1. split; [done|]. by exists t.
    + intros (Hcl & t & Hex & t' & Hsv & Had). exists t'. split; [|done]. apply (sv_cons rules z cps _ t); [|done]. exists s'. split; [|done].
      exists p, rest, p'. by rewrite Hm, Hcl.
Qed.

Lemma c_move_back c : c_move (c_off (c_move (S (c_off c)) c) - 1) (c_move (S (c_off c)) c) = c.
Proof. destruct c. unfold c_move. cbn. f_equal. lia. Qed.

Lemma well_formed_rest k cands : Forall (well_formed k) cands -> Forall (fun c => exists cps, rest_of c cps) cands.
Proof. intros H. eapply Forall_impl; [exact H|]. intros c (cps & ? & _). by exists cps. Qed.

(** Rejecting for one stack: the candidates it cannot consume. *)
Lemma reject_stack_ok fuel : forall s cands, head_stack rules s -> Forall (well_formed fuel) cands -> 0 < fuel ->
  exists F0 rj, (forall F, F0 <= F -> llama_grammar_reject_candidates_for_stack F fuel rules s cands = Some rj) /\
    forall c, c ∈ rj <-> c ∈ cands /\ dead c s.
Proof.
  induction fuel as [|fuel IH]; intros s cands Hs Hc Hpos; [lia|]. pose proof (well_formed_rest _ _ Hc) as Hrest. destruct s as [|p rest].
  { destruct (reject_end_ok cands Hrest) as (res & Hres & M). by exists 0, res. }
  pose proof Hs as [Hgs (e & He & Hnref)]. pose proof Hgs as [[Hg (e' & He' & Hend)] Hgr]%Forall_cons. rewrite He in He'. injection He' as <-.
  pose proof (no_token_elem p e He) as Htok.
  destruct (good_view rules p e Hg He) as [Hend' _|r Ht|positive rs p' _ _ _ _ _ Hm Hpart _ Hg'|? ? Htok' _ _ _]; [congruence|congruence| |congruence].
  assert (forall u, (pu_n_remain u <= 5)%Z -> is_Some (llama_grammar_match_partial_char rules p u)) as Hps by (intros u Hu; rewrite Hpart by done; by eexists).
  destruct (reject_char_ok p (class_has positive rs) p' cands Hm Hps Hrest [] []) as (rj & nx & E & M1 & M2).
  destruct (push_ok rules p' rest Hg' Hgr) as (s' & Hpush & Hgs' & _).
  destruct (advance_expands rules Hwf Hnr s' Hgs') as (F1 & st & Hne & Hh & Hst & Eadv).
  assert (Forall (well_formed fuel) nx) as Hnx.
  { apply Forall_forall. intros c [Hc0|(c0 & Hin & (z & cps & Hr & _) & ->)]%M2; [by apply elem_of_nil in Hc0|].
    rewrite Forall_forall in Hc. destruct (Hc c0 Hin) as (cps' & Hr' & Hl). rewrite (rest_unique _ _ _ Hr' Hr) in Hl. simpl in Hl.
    exists cps. split; [by apply (rest_move _ z)|lia]. }
  assert (exists F2 rj2, (forall F, F2 <= F -> reject_with (llama_grammar_reject_candidates_for_stack F fuel rules) st nx = Some rj2) /\
    forall c, c ∈ rj2 <-> c ∈ nx /\ forall s, s ∈ st -> dead c s) as (F2 & rj2 & E2 & M3).
  { destruct nx as [|c0 nx0].
    - exists 0, []. split; [|set_solver]. intros F _. unfold reject_with. rewrite (ggml_assert_true _) by (by rewrite bool_decide_false). done.
    - assert (0 < fuel) as Hf by (apply Forall_cons in Hnx as [(cps & _ & Hl) _]; lia).
      apply (reject_with_ok (fun F => llama_grammar_reject_candidates_for_stack F fuel rules) st (well_formed fuel) Hne); [|done].
      intros s2 c2 Hs2 Hc2. apply IH; [by apply (proj1 (Forall_forall _ _) Hh)|done..]. }
  exists (F1 `max` F2), (rj ++ ((fun tok => c_move (c_off tok - 1) tok) <$> rj2)). split.
  - intros F HF. cbn [llama_grammar_reject_candidates_for_stack]. rewrite He. cbn [mbind option_bind]. rewrite Htok, E. cbn [mbind option_bind].
    rewrite Hm. cbn [mbind option_bind]. rewrite Hpush. cbn [mbind option_bind]. rewrite Eadv by lia. cbn [mbind option_bind]. by rewrite E2 by lia.
  - intros c. rewrite elem_of_app, M1, elem_of_nil. split.
    + intros [[[]|[Hin Hrej]]|(c1 & -> & [Hc1 Hdead]%M3)%list_elem_of_fmap].
      * split; [done|]. intros cps Hr Hl. destruct (lives_char p rest p' (class_has positive rs) s' (c_partial_utf8 c) Hm Hpush) as [L0 L1].
        destruct Hrej as [(Hr0 & Hn & Hpc)|(z & l & Hr0 & Hcl)]; rewrite (rest_unique _ _ _ Hr Hr0) in Hl; [apply L0 in Hl; tauto|].
        apply L1 in Hl as [? _]. congruence.
      * apply M2 in Hc1 as [Hc1|(c0 & Hin & (z & cps & Hr & Hcl) & ->)]; [by apply elem_of_nil in Hc1|]. rewrite c_move_back. split; [done|].
        intros cps' Hr' Hl. rewrite (rest_unique _ _ _ Hr' Hr) in Hl.
        destruct (lives_char p rest p' (class_has positive rs) s' (c_partial_utf8 c0) Hm Hpush) as [_ L1].
        apply L1 in Hl as (_ & t & Ht & Hlt). apply (Hdead t) with (cps := cps); [by apply Hst|by apply (rest_move _ z)|done].
    + intros [Hin Hd]. rewrite Forall_forall in Hrest. destruct (Hrest c Hin) as (cps & Hr).
      destruct (lives_char p rest p' (class_has positive rs) s' (c_partial_utf8 c) Hm Hpush) as [L0 L1]. destruct cps as [|z cps].
      * left. right. split; [done|]. left. split; [done|]. split.
        -- intros Hz. apply (Hd [] Hr). apply L0. by left.
        -- intros Hpc. apply (Hd [] Hr). apply L0. by right.
      * destruct (class_has positive rs z) eqn:Hcl; [|left; right; split; [done|]; right; by exists z, cps].
        right. apply list_elem_of_fmap. exists (c_move (S (c_off c)) c). split; [by rewrite c_move_back|]. apply M3. split.
        -- apply M2. right. exists c. split_and!; [done|by exists z, cps|done].
        -- intros t Ht cps' Hr' Hl. apply (Hd _ Hr). apply L1. split; [done|]. exists t. split; [by apply Hst|].
           by rewrite (rest_unique _ _ _ Hr' (rest_move _ _ _ Hr)) in Hl.
Qed.

(** Rejecting for all stacks of the grammar. *)
Lemma reject_ok fuel sts cands : sts <> [] -> Forall (head_stack rules) sts -> Forall (well_formed fuel) cands -> 0 < fuel ->
  exists F0 rj, (forall F, F0 <= F -> llama_grammar_reject_candidates F fuel rules sts cands = Some rj) /\
    forall c, c ∈ rj <-> c ∈ cands /\ forall s, s ∈ sts -> dead c s.
Proof.
  intros Hne Hs Hc Hpos. apply (reject_with_ok (fun F => llama_grammar_reject_candidates_for_stack F fuel rules) sts (well_formed fuel) Hne); [|done].
  intros s2 c2 Hs2 Hc2. apply reject_stack_ok; [by apply (proj1 (Forall_forall _ _) Hs)|done..].
Qed.
End Reject.
(** * Accepting a token *)

Section AcceptToken.
Context (rules : llama_grammar_rules) (Hwf : wf_rules rules) (Hnr : no_left_recursion rules) (Hnt : no_tokens rules).

Lemma elem_of_add_all t l : forall acc, t ∈ foldl (fun l s => add_stack s l) acc l <-> t ∈ acc \/ t ∈ l.
Proof. induction l as [|s l IH]; intros acc; simpl; [set_solver|]. rewrite IH, elem_of_add_stack. set_solver. Qed.

Lemma accept_token_ok token cps sts : Forall (head_stack rules) sts -> forall acc, Forall (head_stack rules) acc ->
  exists F0 st, (forall F, F0 <= F -> foldM (accept_token_stack F rules token cps) sts acc = Some st) /\ Forall (head_stack rules) st /\
    forall t, t ∈ st <-> t ∈ acc \/ exists s, s ∈ sts /\ s <> [] /\ survive rules cps s t.
Proof.
  induction 1 as [|s sts Hs _ IH]; intros acc Hacc; [exists 0, acc; split_and!; [done|done|set_solver]|].
  destruct s as [|p rest].
  - destruct (IH acc Hacc) as (F0 & st & E & Hh & M). exists F0, st. split_and!; [done|done|]. intros t. rewrite M. setoid_rewrite elem_of_cons.
    split; [intros [?|(s & ? & ? & ?)]; [by left|right; exists s; tauto]|intros [?|(s & [->|?] & ? & ?)]; [by left|done|right; exists s; tauto]].
  - pose proof Hs as [Hgs (e & He & Hnref)]. pose proof (no_token_elem rules Hnt p e He) as Htok.
    destruct (consume_members rules Hwf Hnr cps [p :: rest]) as (F1 & st1 & E1 & H1 & M1); [by constructor|].
    set (acc' := foldl (fun l s => add_stack s l) acc st1).
    assert (Forall (head_stack rules) acc') as Hacc'.
    { apply Forall_forall. intros t [Ht|Ht]%elem_of_add_all; rewrite Forall_forall in *; auto. }
    destruct (IH acc' Hacc') as (F2 & st & E2 & Hh & M2). exists (F1 `max` F2), st. split_and!; [|done|].
    + intros F HF. cbn [foldM accept_token_stack]. rewrite He. cbn [mbind option_bind]. rewrite Htok, E1 by lia. cbn [mbind option_bind].
      apply E2. lia.
    + intros t. rewrite M2. unfold acc'. rewrite elem_of_add_all, M1. setoid_rewrite elem_of_cons. split.
      * intros [[?|(s & [->|Hn%elem_of_nil] & Hsv)]|(s & ? & ? & ?)]; [by left|right; exists (p :: rest); by split_and!; [left|..]|done|right; exists s; tauto].
      * intros [?|(s & [->|?] & ? & Hsv)]; [left; by left|left; right; exists (p :: rest); split; [by left|done]|right; exists s; tauto].
Qed.
End AcceptToken.

(** * The decoder on the pieces of tokens *)

Lemma cont_unchecked_stop s : forall v n v' n' s', cont_unchecked s v n = (v', n', s') -> (n' <= n)%Z /\ ((0 < n')%Z -> s' = []).
Proof.
  induction s as [|c s IH]; intros v n v' n' s'; simpl; [intros [= <- <- <-]; split; [lia|done]|].
  case_bool_decide as Hn; [intros H; apply IH in H as [? ?]; split; [lia|done]|intros [= <- <- <-]; split; [lia|lia]].
Qed.

Lemma cont_checked_stop s : forall v n v' n' s', cont_checked s v n = Some (v', n', s') -> (n' <= n)%Z /\ ((0 < n')%Z -> s' = []) /\
  ((n <= 0)%Z -> s' = s /\ n' = n).
Proof.
  induction s as [|c s IH]; intros v n v' n' s'; simpl; [intros [= <- <- <-]; split_and!; [lia|done|done]|].
  case_bool_decide as Hn; [case_bool_decide; [done|]; intros H'; apply IH in H' as (? & ? & _); split_and!; [lia|done|lia]|].
  intros [= <- <- <-]; split_and!; [lia|lia|done].
Qed.

Lemma decode_loop_remain fuel : forall s v n cps out u, decode_loop fuel s v n cps = Some (out, u) -> (n <= 3)%Z -> (pu_n_remain u <= 3)%Z.
Proof.
  induction fuel as [|fuel IH]; intros [|c s] v n cps out u; [by intros [= <- <-]|done|by intros [= <- <-]|].
  rewrite decode_loop_S. case_bool_decide; [intros [= <- <-] _; simpl; lia|].
  destruct (cont_unchecked s (lead_val c) (lead_remain c)) as [[v' n'] s'] eqn:E. apply cont_unchecked_stop in E as [Hn _].
  pose proof (lead_remain_lt c). intros H' _. apply IH in H'; lia.
Qed.

Lemma decode_utf8_remain s p out u : decode_utf8 s p = Some (out, u) -> (pu_n_remain p <= 3)%Z -> (pu_n_remain u <= 3)%Z.
Proof.
  unfold decode_utf8. destruct (cont_checked _ _ _) as [[[v n] s']|] eqn:E; [|intros [= <- <-]; simpl; lia].
  apply cont_checked_stop in E as (Hn & _). intros H Hp. apply decode_loop_remain in H; lia.
Qed.

(** A piece that leaves nothing pending has a code point. *)
Lemma decode_loop_some fuel : forall s v n cps out u, decode_loop fuel s v n cps = Some (out, u) -> pu_n_remain u = 0%Z ->
  s <> [] \/ cps <> [] -> out <> [0%Z].
Proof.
  induction fuel as [|fuel IH]; intros [|c s] v n cps out u; [|done| |].
  1,2: intros [= <- <-] _ [?|Hne]; [done|]; intros Hout; destruct cps as [|x [|y cps]]; done.
  rewrite decode_loop_S. case_bool_decide as Hneg; [intros [= <- <-]; simpl; lia|].
  destruct (cont_unchecked s (lead_val c) (lead_remain c)) as [[v' n'] s'] eqn:E. apply cont_unchecked_stop in E as [_ Hs'].
  intros Hd Hu _. case_bool_decide as Hn'; [apply (IH _ _ _ _ _ _ Hd Hu); right; by destruct cps|].
  destruct s' as [|c' s']; [|apply (IH _ _ _ _ _ _ Hd Hu); by left]. destruct fuel; simpl in Hd; injection Hd as <- <-; done.
Qed.

Lemma decode_utf8_some s p out u : decode_utf8 s p = Some (out, u) -> pu_n_remain u = 0%Z -> c_str s <> [] -> out <> [0%Z].
Proof.
  unfold decode_utf8. destruct (cont_checked _ _ _) as [[[v n] s']|] eqn:E; [|by intros [= <- <-]].
  apply cont_checked_stop in E as (Hn & Hstop & Hz). intros Hd Hu Hs. case_bool_decide as Hc; [apply (decode_loop_some _ _ _ _ _ _ _ Hd Hu); by right|].
  destruct (decide (pu_n_remain p <= 0)%Z) as [Hle|Hgt]; [destruct (Hz Hle) as [-> _]; apply (decode_loop_some _ _ _ _ _ _ _ Hd Hu); by left|].
  destruct s' as [|c' s']; [|apply (decode_loop_some _ _ _ _ _ _ _ Hd Hu); by left]. simpl in Hd. injection Hd as <- <-. simpl in Hu. subst. lia.
Qed.


(** * Applying the grammar *)

Section Apply.
Context `{V : llama_vocab_i} {P : Type} (find_pattern : P -> list byte -> option nat) {L : Type} (neg_infinity : L).

Lemma mask_lookup idxs : forall (cur : list (Z * L)) i, mask neg_infinity idxs cur !! i =
  (fun d => if bool_decide (i ∈ idxs) then (d.1, neg_infinity) else d) <$> cur !! i.
Proof.
  induction idxs as [|j idxs IH]; intros cur i.
  - cbn [mask foldl]. destruct (cur !! i) as [d|]; cbn [fmap option_fmap option_map]; [|done]. by rewrite bool_decide_false by set_solver.
  - cbn [mask foldl]. fold (mask neg_infinity idxs (alter (fun d => (d.1, neg_infinity)) j cur)). rewrite IH. destruct (decide (i = j)) as [->|Hne].
    + rewrite list_lookup_alter_eq. destruct (cur !! j) as [d|]; cbn [fmap option_fmap option_map]; [|done]. rewrite (bool_decide_true (j ∈ j :: idxs)) by set_solver.
      by case_bool_decide.
    + rewrite list_lookup_alter_ne by done. destruct (cur !! i) as [d|]; cbn [fmap option_fmap option_map]; [|done]. f_equal.
      rewrite (bool_decide_ext (i ∈ j :: idxs) (i ∈ idxs)) by set_solver. done.
Qed.

Definition no_piece (id : Z) : Prop := token_to_piece id = [] \/ head (token_to_piece id) = Some x00.

(** The classification of the token data: what is masked at once, and the
    candidates. *)
Definition masked_at_once (allow : bool) (id : Z) : Prop := if is_eog id then allow = false else no_piece id.
Definition candidate_of (g : llama_grammar P) (i : nat) (id : Z) (c : llama_grammar_candidate) : Prop :=
  exists cps u, is_eog id = false /\ ~ no_piece id /\
    decode_utf8 (token_to_piece id) (g_partial_utf8 g) = Some (cps, u) /\ c = mkCand i cps 0 u id.

Lemma classify_step (g : llama_grammar P) allow i id m0 c0 : exists dm dc,
  classify g allow i id (m0, c0) = Some (m0 ++ dm, c0 ++ dc) /\
  (forall j, j ∈ dm <-> j = i /\ masked_at_once allow id) /\ (forall c, c ∈ dc <-> candidate_of g i id c).
Proof.
  unfold classify, masked_at_once, candidate_of. destruct (is_eog id) eqn:Heog.
  { destruct allow; [exists [], []|exists [i], []]; rewrite ?app_nil_r; split_and!; (done || set_solver). }
  destruct (bool_decide (token_to_piece id = []) || bool_decide (head (token_to_piece id) = Some x00)) eqn:Hnp.
  - assert (no_piece id) as Hno by (apply orb_prop in Hnp as [H%bool_decide_eq_true|H%bool_decide_eq_true]; [by left|by right]).
    exists [i], []. rewrite app_nil_r. split_and!; [done|set_solver|]. intros c. rewrite elem_of_nil. split; [done|]. by intros (? & ? & _ & ? & _).
  - assert (~ no_piece id) as Hno by (apply orb_false_elim in Hnp as [H1%bool_decide_eq_false H2%bool_decide_eq_false]; by intros []).
    destruct (decode_utf8 (token_to_piece id) (g_partial_utf8 g)) as [[cps u]|] eqn:Hd.
    2:{ destruct (decode_utf8_total (token_to_piece id) (g_partial_utf8 g)) as (? & ? & ?). congruence. }
    exists [], [mkCand i cps 0 u id]. cbn [mbind option_bind]. rewrite app_nil_r. split_and!; [done|set_solver|].
    intros c. rewrite list_elem_of_singleton. split; [intros ->; by exists cps, u|]. intros (cps' & u' & _ & _ & [= <- <-] & ->). done.
Qed.

Lemma classify_ok (g : llama_grammar P) allow l : forall m0 c0,
  exists masked cands, foldM (fun '(i, d) => classify g allow i d.1) l (m0, c0) = Some (masked, cands) /\
    (forall i, i ∈ masked <-> i ∈ m0 \/ exists d : Z * L, (i, d) ∈ l /\ masked_at_once allow d.1) /\
    (forall c, c ∈ cands <-> c ∈ c0 \/ exists i (d : Z * L), (i, d) ∈ l /\ candidate_of g i d.1 c).
Proof.
  induction l as [|[i d] l IH]; intros m0 c0; [exists m0, c0; split_and!; [done|set_solver..]|].
  destruct (classify_step g allow i d.1 m0 c0) as (dm & dc & Hst & Hdm & Hdc). cbn [foldM]. rewrite Hst. cbn [mbind option_bind].
  destruct (IH (m0 ++ dm) (c0 ++ dc)) as (m & c & E & M & C). exists m, c. split_and!; [done| |].
  - intros j. rewrite M, elem_of_app, Hdm. split.
    + intros [[?|[-> ?]]|(d' & ? & ?)]; [by left|right; exists d; split; [left|done]|right; exists d'; split; [by right|done]].
    + intros [?|(d' & [[= -> ->]|?]%elem_of_cons & Hm)]; [tauto|tauto|right; by exists d'].
  - intros x. rewrite C, elem_of_app, Hdc. split.
    + intros [[?|?]|(j & d' & ? & ?)]; [by left|right; exists i, d; split; [left|done]|right; exists j, d'; split; [by right|done]].
    + intros [?|(j & d' & [[= -> ->]|?]%elem_of_cons & Hc)]; [tauto|tauto|right; by exists j, d'].
Qed.

(** The state of a grammar between tokens. *)
Record ready (g : llama_grammar P) : Prop := {
  rd_wf      : wf_rules (g_rules g);
  rd_norec   : no_left_recursion (g_rules g);
  rd_notok   : no_tokens (g_rules g);
  rd_stacks  : Forall (head_stack (g_rules g)) (g_stacks g);
  rd_some    : g_stacks g <> [];
  rd_awake   : g_awaiting_trigger g = false;
  rd_partial : (pu_n_remain (g_partial_utf8 g) <= 3)%Z;
}.

(** The piece of a token decodes to non-zero code points. *)
Definition clean (g : llama_grammar P) (id : Z) (k : nat) : Prop :=
  forall cps u, decode_utf8 (token_to_piece id) (g_partial_utf8 g) = Some (cps ++ [0%Z], u) ->
    Forall (fun z => z <> 0%Z) cps /\ length cps < k.

(** Accepting a token that is not an end of generation. *)
Lemma accept_impl_ok g id : ready g -> is_eog id = false -> exists cps u F0 st,
  decode_utf8 (token_to_piece id) (g_partial_utf8 g) = Some (cps ++ [0%Z], u) /\
  (forall F, F0 <= F -> llama_grammar_accept_impl find_pattern F id g =
     Some (if bool_decide (st = []) then Err (with_stacks st u g) else Ok (with_stacks st u g))) /\
  Forall (head_stack (g_rules g)) st /\
  forall t, t ∈ st <-> exists s, s ∈ g_stacks g /\ s <> [] /\ survive (g_rules g) cps s t.
Proof.
  intros Hg Heog. destruct (decode_utf8_total (token_to_piece id) (g_partial_utf8 g)) as (cps & u & Hd).
  destruct (accept_token_ok (g_rules g) (rd_wf g Hg) (rd_norec g Hg) (rd_notok g Hg) id cps (g_stacks g) (rd_stacks g Hg) [] (Forall_nil_2 _))
    as (F0 & st & E & Hh & M).
  exists cps, u, F0, st. split_and!; [done| |done|].
  - intros F HF. unfold llama_grammar_accept_impl. rewrite (rd_awake g Hg), Heog. unfold llama_grammar_accept_token. rewrite Hd. cbn [mbind option_bind].
    rewrite removelast_last, E by done. cbn [mbind option_bind]. by case_bool_decide.
  - intros t. rewrite M, elem_of_nil. tauto.
Qed.

Lemma ready_after g st u : ready g -> Forall (head_stack (g_rules g)) st -> st <> [] -> (pu_n_remain u <= 3)%Z -> ready (with_stacks st u g).
Proof. intros [] ? ? ?. by constructor. Qed.

Lemma c_str_piece id : ~ no_piece id -> c_str (token_to_piece id) <> [].
Proof.
  unfold no_piece. destruct (token_to_piece id) as [|b l]; [tauto|]. intros H. simpl. case_bool_decide; [|done]. subst. exfalso. apply H. by right.
Qed.

(** A token that is not masked can be accepted; a token that is masked and
    leaves no sequence incomplete cannot. *)
Lemma alive_accepted g id i cps u k : ready g -> is_eog id = false -> ~ no_piece id ->
  decode_utf8 (token_to_piece id) (g_partial_utf8 g) = Some (cps ++ [0%Z], u) -> Forall (fun z => z <> 0%Z) cps -> length cps < k ->
  let c := mkCand i (cps ++ [0%Z]) 0 u id in
  well_formed k c /\ exists F0 g', (g_rules g' = g_rules g /\
    (forall F, F0 <= F -> llama_grammar_accept_impl find_pattern F id g = Some (if bool_decide (g_stacks g' = []) then Err g' else Ok g')) /\
    (g_stacks g' <> [] -> ready g')) /\
    (~ (forall s, s ∈ g_stacks g -> dead (g_rules g) c s) -> g_stacks g' <> []) /\
    ((forall s, s ∈ g_stacks g -> dead (g_rules g) c s) -> pu_n_remain u = 0%Z -> g_stacks g' = []).
Proof.
  intros Hg Heog Hnp Hd Hz Hk c. assert (pu_n_remain u <= 3)%Z as Hu by (apply (decode_utf8_remain _ _ _ _ Hd), (rd_partial g Hg)).
  assert (rest_of c cps) as Hr by (split_and!; [done..|simpl; lia]). split; [by exists cps|].
  destruct (accept_impl_ok g id Hg Heog) as (cps' & u' & F0 & st & Hd' & Hacc & Hh & M). rewrite Hd in Hd'. injection Hd' as Hcps <-.
  apply app_inj_tail in Hcps as [<- _]. exists F0, (with_stacks st u g). cbn. split_and!; [done|done|intros Hst; by apply ready_after| |].
  - intros Hex ->. apply Hex. intros s Hs cps' Hr' (t & Hsv & Had). rewrite (rest_unique _ _ _ Hr' Hr) in Hsv. cbn in Had.
    destruct s as [|p s]; [|apply (not_elem_of_nil t), M; by exists (p :: s)].
    inversion Hsv as [|c1 cps1 s1 t1 u1 Hst Hsv1]; subst; [|by destruct Hst as (s' & (? & ? & ? & [=] & _) & _)]. destruct Had as [Hn|(? & ? & [=] & _)].
    apply (decode_utf8_some _ _ _ _ Hd Hn); [by apply c_str_piece|done].
  - intros Hdead Hn. destruct st as [|t st]; [done|]. exfalso. destruct (proj1 (M t)) as (s & Hs & _ & Hsv); [by left|].
    apply (Hdead s Hs cps Hr). exists t. split; [done|by left].
Qed.

Lemma elem_of_pairs (cur : list (Z * L)) i d : (i, d) ∈ imap pair cur <-> cur !! i = Some d.
Proof. rewrite elem_of_lookup_imap. naive_solver. Qed.

Lemma mask_length idxs : forall cur : list (Z * L), length (mask neg_infinity idxs cur) = length cur.
Proof. induction idxs as [|j idxs IH]; intros cur; [done|]. cbn. unfold mask in IH. rewrite IH. apply length_alter. Qed.

Definition allow_eog (g : llama_grammar P) : bool := existsb (fun s => bool_decide (s = [])) (g_stacks g).

Lemma allow_eog_spec g : allow_eog g = true <-> [] ∈ g_stacks g.
Proof.
  unfold allow_eog. rewrite existsb_exists. split; [intros (s & Hs & ->%bool_decide_eq_true); by apply list_elem_of_In|].
  intros H. exists []. split; [by apply list_elem_of_In|by apply bool_decide_eq_true].
Qed.

Lemma candidate_clean g i id c k : (is_eog id = false -> clean g id k) -> candidate_of g i id c ->
  exists cps u, is_eog id = false /\ ~ no_piece id /\ decode_utf8 (token_to_piece id) (g_partial_utf8 g) = Some (cps ++ [0%Z], u) /\
    c = mkCand i (cps ++ [0%Z]) 0 u id /\ Forall (fun z => z <> 0%Z) cps /\ length cps < k.
Proof.
  intros Hcl (cps & u & Heog & Hnp & Hd & ->). destruct (decode_utf8_total (token_to_piece id) (g_partial_utf8 g)) as (cps' & u' & Hd').
  rewrite Hd in Hd'. injection Hd' as -> <-. exists cps', u. destruct (Hcl Heog cps' u Hd). by split_and!.
Qed.

(** What [llama_grammar_apply_impl] masks: what the classification masks at once,
    and the candidates no stack can consume. *)
Lemma apply_impl_ok g (cur : list (Z * L)) fuel : ready g -> 0 < fuel -> Forall (fun d => is_eog d.1 = false -> clean g d.1 fuel) cur ->
  exists idxs F0, (forall F, F0 <= F -> llama_grammar_apply_impl neg_infinity F fuel g cur = Some (mask neg_infinity idxs cur)) /\
  forall i d, cur !! i = Some d -> i ∈ idxs <-> masked_at_once (allow_eog g) d.1 \/
    exists c, candidate_of g i d.1 c /\ forall s, s ∈ g_stacks g -> dead (g_rules g) c s.
Proof.
  intros Hg Hf Hcl. destruct (classify_ok g (allow_eog g) (imap pair cur) [] []) as (masked & cands & E1 & M1 & C1).
  setoid_rewrite elem_of_pairs in M1. setoid_rewrite elem_of_pairs in C1.
  assert (Forall (well_formed fuel) cands) as Hwf.
  { apply Forall_forall. intros c [[]%elem_of_nil|(i & d & Hi & Hc)]%C1. pose proof (proj1 (Forall_lookup _ _) Hcl i d Hi) as Hcd.
    destruct (candidate_clean g i d.1 c fuel Hcd Hc) as (cps & u & Heog & Hnp & Hd & -> & Hz & Hk). by apply (alive_accepted g d.1 i cps u fuel Hg Heog Hnp Hd). }
  destruct (reject_ok (g_rules g) (rd_wf g Hg) (rd_norec g Hg) (rd_notok g Hg) fuel (g_stacks g) cands (rd_some g Hg) (rd_stacks g Hg) Hwf Hf) as (F0 & rj & E2 & M2).
  exists (masked ++ (c_index <$> rj)), F0. split.
  { intros F HF. unfold llama_grammar_apply_impl. rewrite (rd_awake g Hg). fold (allow_eog g). rewrite E1. cbn [mbind option_bind]. by rewrite E2. }
  intros i d Hi. rewrite elem_of_app, M1, elem_of_nil, list_elem_of_fmap. split.
  - intros [[[]|(d' & Hd' & Hm)]|(c & -> & [[[]%elem_of_nil|(j & d' & Hj & Hc)]%C1 Hdead]%M2)]; [left; congruence|right].
    exists c. split; [|done]. pose proof Hc as (? & ? & _ & _ & _ & ->). simpl in *. rewrite Hj in Hi. by injection Hi as <-.
  - intros [Hm|(c & Hc & Hdead)]; [left; right; by exists d|]. right. exists c. split; [by destruct Hc as (? & ? & _ & _ & _ & ->)|].
    apply M2. split; [|done]. apply C1. right. by exists i, d.
Qed.

(** Accepting an end of generation asks for an empty stack. *)
Lemma accept_eog g id (keep : bool) F : ready g -> is_eog id = true -> (keep = true <-> [] ∈ g_stacks g) ->
  llama_grammar_accept_impl find_pattern F id g = if keep then Some (Ok g) else None.
Proof.
  intros Hg Heog Hk. unfold llama_grammar_accept_impl. rewrite (rd_awake g Hg), Heog.
  assert (existsb (fun s => bool_decide (s = [])) (g_stacks g) = true <-> [] ∈ g_stacks g) as Hex.
  { rewrite existsb_exists. setoid_rewrite <- list_elem_of_In. split; [intros (x & Hx & ->%bool_decide_eq_true); done|]. intros Hx. exists []. by rewrite bool_decide_true. }
  rewrite <- Hk in Hex. destruct (existsb _ _), keep; cbn; try done; naive_solver.
Qed.

(** C14: what masking and accepting have to do with each other, for a grammar
    without token elements, without left recursion, in its invariant state and not
    waiting for a trigger, and pieces without a NUL inside.
    [llama_grammar_apply_impl] returns the token data with some logits set to minus
    infinity and nothing else changed.  For an end-of-generation token both agree:
    it keeps its logit exactly when some stack is empty, and exactly then
    [llama_grammar_accept_impl] passes its assertion, and changes nothing.  A token
    with an empty piece, or one that starts with NUL, is always masked (accepting
    it is another matter).  Any other token that keeps its logit is accepted
    without the "empty grammar stack" exception, and acceptance re-establishes
    the invariant; a masked one raises the exception if its piece ends on a
    character boundary.  For a masked piece that ends inside of a character
    nothing is claimed, and with token elements a kept token need not be accepted
    ([token_kept_but_not_accepted]). *)
Theorem apply_accept_agree (g : llama_grammar P) (cur : list (Z * L)) fuel : ready g -> 0 < fuel ->
  Forall (fun d => is_eog d.1 = false -> clean g d.1 fuel) cur ->
  exists cur' F0, (forall F, F0 <= F -> llama_grammar_apply_impl neg_infinity F fuel g cur = Some cur') /\ length cur' = length cur /\
  forall i d, cur !! i = Some d -> exists keep : bool, cur' !! i = Some (if keep then d else (d.1, neg_infinity)) /\
    (is_eog d.1 = true -> (keep = true <-> [] ∈ g_stacks g) /\
       forall F, llama_grammar_accept_impl find_pattern F d.1 g = if keep then Some (Ok g) else None) /\
    (is_eog d.1 = false -> no_piece d.1 -> keep = false) /\
    (is_eog d.1 = false -> ~ no_piece d.1 -> exists cps u F1 g', decode_utf8 (token_to_piece d.1) (g_partial_utf8 g) = Some (cps, u) /\
      (forall F, F1 <= F -> llama_grammar_accept_impl find_pattern F d.1 g = Some (if bool_decide (g_stacks g' = []) then Err g' else Ok g')) /\
      (keep = true -> ready g') /\ (keep = false -> pu_n_remain u = 0%Z -> g_stacks g' = [])).
Proof.
  intros Hg Hf Hcl. destruct (apply_impl_ok g cur fuel Hg Hf Hcl) as (idxs & F0 & E & M). exists (mask neg_infinity idxs cur), F0.
  split; [done|]. split; [apply mask_length|]. intros i d Hi. exists (negb (bool_decide (i ∈ idxs))). rewrite mask_lookup, Hi. cbn [fmap option_fmap option_map].
  specialize (M i d Hi). unfold masked_at_once in M. split; [by case_bool_decide|].
  assert (forall c, candidate_of g i d.1 c -> is_eog d.1 = false /\ ~ no_piece d.1) as Hcand by (by intros c (? & ? & ? & ? & _)).
  split_and!.
  - intros Heog. rewrite Heog in M.
    enough (negb (bool_decide (i ∈ idxs)) = true <-> [] ∈ g_stacks g) as Hkeep by (split; [done|]; intros F; by apply (accept_eog g d.1 _ F Hg Heog)).
    rewrite negb_true_iff, bool_decide_eq_false, M, <- allow_eog_spec. split.
    + intros Hn. destruct (allow_eog g); [done|]. exfalso. apply Hn. by left.
    + intros Ha [?|(c & [? _]%Hcand & _)]; congruence.
  - intros Heog Hno. rewrite Heog in M. apply negb_false_iff, bool_decide_eq_true, M. by left.
  - intros Heog Hnp. rewrite Heog in M. destruct (decode_utf8_total (token_to_piece d.1) (g_partial_utf8 g)) as (cps & u & Hd).
    destruct (proj1 (Forall_lookup _ _) Hcl i d Hi Heog cps u Hd) as [Hz Hk].
    destruct (alive_accepted g d.1 i cps u fuel Hg Heog Hnp Hd Hz Hk) as (_ & F1 & g' & (_ & Hacc & Hready) & Halive & Hdead).
    exists (cps ++ [0%Z]), u, F1, g'. split_and!; [done|done| |].
    + intros Hkeep%negb_true_iff%bool_decide_eq_false. apply Hready, Halive. intros Hall. apply Hkeep, M. right. eexists. split; [by exists (cps ++ [0%Z]), u|done].
    + intros [Hx|(c & (cps2 & u2 & _ & _ & Hd2 & ->) & Hall)]%negb_false_iff%bool_decide_eq_true%M Hn; [done|]. apply Hdead; [|done].
      rewrite Hd in Hd2. by injection Hd2 as <- <-.
Qed.
End Apply.

(** A state reached from the start of a grammar. *)
Lemma initial_ready {P} rules start lazy tokens (patterns : list P) : wf_rules rules -> no_left_recursion rules -> no_tokens rules ->
  start < length rules -> exists F0 st, (forall F, F0 <= F -> initial_stacks F rules start = Some st) /\
    ready (mkGrammar rules st (mkPartial 0 0) lazy false [] [] tokens patterns).
Proof.
  intros Hwf Hnr Hnt Hs. destruct (initial_ok rules Hwf start Hnr Hs) as (F0 & st & E & Hh & Hne & _). exists F0, st. split; [done|].
  by constructor.
Qed.

(** * Examples *)

(** The tokens "ab", "" , "0", "A" and an end of generation. *)
#[local] Instance word_vocab : llama_vocab_i := {
  token_to_piece id := if bool_decide (id = 0)%Z then [x61; x62] else if bool_decide (id = 2)%Z then [x30]
                       else if bool_decide (id = 3)%Z then [x41] else [];
  is_eog id := bool_decide (id = 4)%Z }.

Definition word_grammar : llama_grammar unit :=
  mkGrammar word_rules [[(1, 0); (0, 1)]; [(0, 1)]] (mkPartial 0 0) false false [] [] [] [].
Definition word_cur : list (Z * Z) := [(0, 7); (1, 7); (2, 7); (3, 7); (4, 7)]%Z.

Lemma word_notok : no_tokens word_rules.
Proof.
  assert (Forall (Forall (fun e => is_token_element e = false)) word_rules) as H by (apply (bool_decide_unpack _); vm_compute; exact I).
  intros r rule e Hr. rewrite Forall_lookup in H. specialize (H r rule Hr). rewrite Forall_forall in H. apply H.
Qed.

Lemma word_ready : ready word_grammar.
Proof.
  destruct (initial_ready word_rules 0 false [] (@nil unit) word_wf word_no_left_recursion word_notok) as (F0 & st & E & Hr); [vm_compute; lia|].
  assert (initial_stacks 9 word_rules 0 = Some (g_stacks word_grammar)) as E9 by (vm_compute; reflexivity).
  pose proof (initial_mono word_rules 9 (9 + F0) 0 _ ltac:(lia) E9) as E9'. rewrite E in E9' by lia. injection E9' as ->. exact Hr.
Qed.

Lemma word_clean : Forall (fun d => is_eog d.1 = false -> clean word_grammar d.1 3) word_cur.
Proof.
  repeat (apply Forall_cons; split); try apply Forall_nil_2; intros _ cps u Hd.
  all: vm_compute in Hd; injection Hd as Hd _; apply (f_equal (@removelast Z)) in Hd; rewrite removelast_last in Hd; simpl in Hd; subst cps.
  all: split; [repeat (apply Forall_cons; split); try apply Forall_nil_2; simpl; lia|simpl; lia].
Qed.

(** The tokens "ab" and "0" are kept, the others masked. *)
Lemma apply_accept_agree_witness :
  (exists cur' F0, forall F, F0 <= F -> llama_grammar_apply_impl (-1)%Z F 3 word_grammar word_cur = Some cur') /\
  llama_grammar_apply_impl (-1)%Z 9 3 word_grammar word_cur = Some [(0, 7); (1, -1); (2, 7); (3, -1); (4, -1)]%Z.
Proof.
  split; [|vm_compute; reflexivity].
  destruct (apply_accept_agree (fun (_ : unit) (_ : list byte) => @None nat) (-1)%Z word_grammar word_cur 3 word_ready ltac:(lia) word_clean)
    as (cur' & F0 & E & _). exists cur', F0. exact E.
Defined.

(** * Tokens and characters

    [root ::= "a" <[5]>] and token 5 with the piece "ab": a candidate that
    reaches the token element after its first character is judged by its own
    id, and kept; accepting it fails, since the token element is not matched in
    the middle of a piece. *)
Definition token_rules : llama_grammar_rules := [[mkElem LLAMA_GRETYPE_CHAR 97; mkElem LLAMA_GRETYPE_TOKEN 5; mkElem LLAMA_GRETYPE_END 0]].
Definition token_grammar : llama_grammar unit := mkGrammar token_rules [[(0, 0)]] (mkPartial 0 0) false false [] [] [] [].
Definition ab_vocab : llama_vocab_i := {| token_to_piece id := [x61; x62]; is_eog id := false |}.

Lemma token_kept_but_not_accepted :
  llama_grammar_apply_impl (V := ab_vocab) (-1)%Z 9 9 token_grammar [(5, 7)]%Z = Some [(5, 7)]%Z /\
  llama_grammar_accept_impl (V := ab_vocab) (fun _ _ => None) 9 5 token_grammar = Some (Err (with_stacks [] (mkPartial 98 0) token_grammar)).
Proof. split; vm_compute; reflexivity. Qed.

End GrammarSample.
