(* ===== verification/GrammarChar.v ===== *)
(** Matching a character that is not complete yet: what the answer of
    [llama_grammar_match_partial_char] says about the characters the sequence
    can still become. *)

From S2P Require Import Bytes.
From S2P Require Import Utf8.
From S2P Require Import Grammar.
From S2P Require Import GrammarLang.
Import Utf8.Utf8 Grammar.Grammar GrammarLang.GrammarLang.

Module GrammarChar.

(** * The code points an incomplete sequence can become *)

Lemma add_cont_bounds v b : (0 <= v < 2 ^ 26)%Z -> (v * 64 <= add_cont v b < (v + 1) * 64)%Z.
Proof.
  intros Hv. unfold add_cont. rewrite Z.shiftl_mul_pow2 by lia. assert (0 <= Z.land (u8 b) 0x3f < 64)%Z as Hl.
  { change 0x3f%Z with (Z.ones 6). rewrite Z.land_ones by lia. by apply Z.mod_pos_bound. }
  change (2 ^ 6)%Z with 64%Z. change (2 ^ 26)%Z with 67108864%Z in Hv. unfold u32_wrap. rewrite Z.mod_small by lia. lia.
Qed.

Lemma foldl_add_cont_bounds t : forall v, (0 <= v)%Z -> ((v + 1) * 64 ^ Z.of_nat (length t) <= 2 ^ 32)%Z ->
  (v * 64 ^ Z.of_nat (length t) <= foldl add_cont v t < (v + 1) * 64 ^ Z.of_nat (length t))%Z.
Proof.
  induction t as [|b t IH]; intros v Hv Hb; cbn [foldl length] in *; [change (64 ^ Z.of_nat 0)%Z with 1%Z; lia|].
  rewrite Nat2Z.inj_succ, Z.pow_succ_r in * by lia. assert (0 < 64 ^ Z.of_nat (length t))%Z as Hp by (by apply Z.pow_pos_nonneg; lia).
  set (k := (64 ^ Z.of_nat (length t))%Z) in *. change (2 ^ 32)%Z with 4294967296%Z in *.
  assert (v < 2 ^ 26)%Z as Hlt by (change (2 ^ 26)%Z with 67108864%Z; nia).
  destruct (add_cont_bounds v b) as [H1 H2]; [lia|].
  destruct (IH (add_cont v b)) as [H3 H4]; [lia|nia|]. split; nia.
Qed.

(** The lead byte of a sequence as an integer. *)
Definition remain_of (z : Z) : Z := (default 0 (remain_lookup !! Z.to_nat (Z.shiftr z 4)) - 1)%Z.
Definition value_of (z : Z) : Z := Z.land z (Z.land (Z.shiftl 1 (7 - remain_of z) - 1) 0xff).

Lemma lead_val_bound c : (0 < lead_remain c)%Z -> (0 <= lead_val c)%Z /\ ((lead_val c + 1) * 64 ^ lead_remain c <= 2 ^ 32)%Z.
Proof.
  revert c. apply (byte_forall (fun z => (0 < remain_of z)%Z -> (0 <= value_of z)%Z /\ ((value_of z + 1) * 64 ^ remain_of z <= 2 ^ 32)%Z)).
  vm_compute. reflexivity.
Qed.

(** The least code point an encoding with [n] continuation bytes stands for. *)
Definition least (n : nat) : Z := match n with 0 => 0%Z | 1 => 128%Z | 2 => 2048%Z | _ => 65536%Z end.

Lemma encoding_least c b t : unicode_cpt_to_utf8 c = Ok (b :: t) -> (least (length t) <= c \/ c < 0)%Z.
Proof.
  unfold unicode_cpt_to_utf8. case_bool_decide; [intros [= _ <-]; simpl; lia|].
  repeat case_bool_decide; intros [= _ <-]; simpl; lia.
Qed.

Definition low_of (n : nat) (v : Z) : Z :=
  if bool_decide (v * 64 ^ Z.of_nat n = 0)%Z then match n with 2 => 2048%Z | 3 => 65536%Z | _ => 0%Z end else (v * 64 ^ Z.of_nat n)%Z.

Lemma partial_bounds u n v : pu_n_remain u = Z.of_nat n -> pu_value u = v -> (0 <= v)%Z -> ((v + 1) * 64 ^ Z.of_nat n <= 2 ^ 32)%Z ->
  partial_low u = low_of n v /\ partial_high u = (v * 64 ^ Z.of_nat n + (64 ^ Z.of_nat n - 1))%Z.
Proof.
  intros Hn Hv H0 Hb. unfold partial_low, partial_high, low_of. rewrite Hn, Hv.
  assert (2 ^ (Z.of_nat n * 6) = 64 ^ Z.of_nat n)%Z as Hp by (rewrite Z.mul_comm, Z.pow_mul_r by lia; done).
  assert (0 < 64 ^ Z.of_nat n)%Z as Hpos by (apply Z.pow_pos_nonneg; lia).
  assert (u32_wrap (Z.shiftl v (Z.of_nat n * 6)) = v * 64 ^ Z.of_nat n)%Z as Hw.
  { rewrite Z.shiftl_mul_pow2, Hp by lia. unfold u32_wrap. apply Z.mod_small. change (2 ^ 32)%Z with 4294967296%Z in Hb. nia. }
  rewrite Hw. split.
  - case_bool_decide; [|done]. case_bool_decide as E2; [by replace n with 2 by lia|]. case_bool_decide as E3; [by replace n with 3 by lia|].
    by destruct n as [|[|[|[|n]]]]; try lia.
  - rewrite (Z.shiftl_mul_pow2 1), Z.mul_1_l, Hp by lia. rewrite <- Hp, <- Z.shiftl_mul_pow2 by lia. rewrite lor_shiftl by lia. by rewrite Hp, Z.shiftl_mul_pow2, Hp by lia.
Qed.

Lemma pending_range u r c t : scalar c -> unicode_cpt_to_utf8 c = Ok (r ++ t) -> r <> [] -> pending u r ->
  (0 < pu_n_remain u <= 3)%Z /\ (pu_n_remain u = 1 -> 2 <= pu_value u)%Z /\ (partial_low u <= c <= partial_high u)%Z.
Proof.
  intros Hc He Hr Hp. destruct r as [|b r]; [done|]. clear Hr. pose proof (encoding_least _ _ _ He) as Hl.
  destruct (enc_shape c Hc) as (b' & t' & He' & (_ & Hlr & Hf & _ & _)). rewrite He in He'. injection He' as <- <-.
  destruct Hp as (Hn & Hpos & Hv). rewrite length_app in *. assert (length (r ++ t) <= 3) as H3.
  { destruct Hc as [H0 H1]. unfold unicode_cpt_to_utf8 in He. repeat (case_bool_decide; [injection He as _ <-; simpl; lia|]). done. }
  rewrite length_app in H3. set (n := length t) in *.
  assert (pu_n_remain u = Z.of_nat n) as Hnn by lia. destruct (lead_val_bound b) as [Hv0 Hvb]; [lia|].
  rewrite foldl_app, <- Hv in Hf. rewrite Hlr, Nat2Z.inj_add, Z.pow_add_r in Hvb by lia.
  assert (forall m, 0 < 64 ^ Z.of_nat m)%Z as Hpw by (intros m; apply Z.pow_pos_nonneg; lia).
  pose proof (Hpw n) as Hpn. pose proof (Hpw (length r)) as Hpr.
  destruct (foldl_add_cont_bounds r (lead_val b)) as [R1 R2]; [done|nia|]. rewrite <- Hv in R1, R2.
  destruct (foldl_add_cont_bounds t (pu_value u)) as [T1 T2]; [nia|fold n; nia|]. fold n in T1, T2. rewrite Hf in T1, T2.
  assert (0 <= pu_value u)%Z as Hu0 by nia. assert ((pu_value u + 1) * 64 ^ Z.of_nat n <= 2 ^ 32)%Z as Hub by nia.
  destruct (partial_bounds u n (pu_value u) Hnn eq_refl Hu0 Hub) as [-> ->].
  assert (n = 1 \/ n = 2 \/ n = 3) as Hcase by lia. unfold low_of, least in *.
  destruct Hc as [Hc0 _]. destruct Hl as [Hl|Hl]; [|lia]. rewrite Hnn. clear Hn Hpos Hv Hlr Hvb Hpw Hpr R1 R2 Hf Hub He.
  destruct Hcase as [E|[E|E]]; rewrite E in *; clear E n; cbn [low_of] in *;
    destruct (length r) as [|[|[|k]]]; cbn [Nat.add] in Hl; try lia; change (64 ^ Z.of_nat 1)%Z with 64%Z in *; change (64 ^ Z.of_nat 2)%Z with 4096%Z in *;
    change (64 ^ Z.of_nat 3)%Z with 262144%Z in *; (split_and!; [lia|lia|lia|..]); repeat case_bool_decide; lia.
Qed.

(** * The answer for an incomplete character *)

Lemma meets_range low high c r : (low <= c <= high)%Z -> in_range c r = true -> meets low high r = true.
Proof. destruct r; simpl; [done|]. rewrite !bool_decide_eq_true. lia. Qed.

(** C16: [llama_grammar_match_partial_char] at a character element answers for
    every incomplete sequence the decoder can be in.  At a class it is true
    whenever some character the sequence can become is in the class; at a negated
    class it is true only if every character the sequence can become is in it. *)
Theorem match_partial_char_sound rules p e u r c t : good rules p -> elem_at rules p = Some e ->
  is_positive_char e || has_type LLAMA_GRETYPE_CHAR_NOT e = true ->
  scalar c -> unicode_cpt_to_utf8 c = Ok (r ++ t) -> r <> [] -> pending u r ->
  exists b found p', llama_grammar_match_partial_char rules p u = Some b /\ llama_grammar_match_char rules p c = Some (found, p') /\
    if is_positive_char e then found = true -> b = true else b = true -> found = true.
Proof.
  intros Hg He Hch Hc Henc Hr Hp. destruct (pending_range u r c t Hc Henc Hr Hp) as (Hn & H1 & Hrange).
  destruct (good_view rules p e Hg He) as [Hend _|r' Ht _ _ _ _|positive rs p' _ _ _ _ Hpos Hm Hpart _ _|? ? Htok _ _ _].
  - exfalso. unfold is_positive_char, llama_grammar_is_end_of_sequence, has_type in *. by destruct (el_type e).
  - exfalso. unfold is_positive_char, has_type in *. by rewrite Ht in Hch.
  - rewrite Hpart by lia. rewrite bool_decide_false by lia. rewrite Hm, Hpos. do 3 eexists. split; [reflexivity|]. split; [reflexivity|].
    unfold class_has. assert (existsb (in_range c) rs = true -> existsb (meets (partial_low u) (partial_high u)) rs = true) as Hex.
    { rewrite !existsb_exists. intros (x & Hx & Hin). exists x. split; [done|by apply (meets_range _ _ c)]. }
    destruct positive, (existsb (in_range c) rs), (existsb (meets _ _) rs); naive_solver.
  - exfalso. unfold is_positive_char, is_token_element, has_type in *. by destruct (el_type e).
Qed.

(** * A negated class rejects characters it matches

    [[^é]] on the first byte of "è": the class matches è (U+00E8), but is refused
    at the byte 0xC3, which è shares with é (U+00E9). *)
Definition not_e_acute : llama_grammar_rules := [[mkElem LLAMA_GRETYPE_CHAR_NOT 0xe9; mkElem LLAMA_GRETYPE_END 0]].

Lemma not_char_rejects_possible :
  exists u, decode_utf8 [xc3] (mkPartial 0 0) = Some ([0%Z], u) /\ unicode_cpt_to_utf8 0xe8 = Ok [xc3; xa8] /\
    llama_grammar_match_char not_e_acute (0, 0) 0xe8 = Some (true, (0, 1)) /\
    llama_grammar_match_partial_char not_e_acute (0, 0) u = Some false.
Proof. exists (mkPartial 3 1). vm_compute. tauto. Qed.

(** An incomplete sequence [C3] of é at the class [[a-zé]]. *)
Definition letters : llama_grammar_rules := [[mkElem LLAMA_GRETYPE_CHAR 97; mkElem LLAMA_GRETYPE_CHAR_RNG_UPPER 122;
  mkElem LLAMA_GRETYPE_CHAR_ALT 0xe9; mkElem LLAMA_GRETYPE_END 0]].

Lemma match_partial_char_sound_witness :
  exists b found p', llama_grammar_match_partial_char letters (0, 0) (mkPartial 3 1) = Some b /\
    llama_grammar_match_char letters (0, 0) 0xe9 = Some (found, p') /\ (found = true -> b = true).
Proof.
  apply (match_partial_char_sound letters (0, 0) (mkElem LLAMA_GRETYPE_CHAR 97) (mkPartial 3 1) [xc3] 0xe9 [xa9]);
    [by eexists|done|done|unfold scalar; lia|by vm_compute|done|by vm_compute].
Defined.

End GrammarChar.
