(* ===== verification/GrammarParse.v ===== *)
(** The parser of grammar texts (GBNF) in [llama_cpp_repo/src/llama-grammar.cpp]:
    the lexical helpers, [llama_grammar_parser] with its symbol table and rules,
    the expansion of repetitions, and the initialisation of a grammar from its
    text.  Exceptions are values of [parse_error]. *)

From Stdlib Require Import String DecimalString DecimalN.
From S2P Require Import Bytes.
From S2P Require Import Utf8.
From S2P Require Import Grammar.
Import Utf8.Utf8 Grammar.Grammar.

Module GrammarParse.

(** * Exceptions *)

Inductive parse_error :=
  | ExpectingHex | ExpectingName | ExpectingInteger | UnknownEscape | UnexpectedEnd
  | ExpectingLess | ExpectingBracket | ExpectingGreater | NoVocab | InvalidToken | OutOfRange
  | ExpectingPreceding | ExpectingParen | ExpectingInt | ExpectingBrace | ExpectingComma | TooManyRepetitions
  | ExpectingDefinition | ExpectingNewline | UndefinedRule | UndefinedIdentifier.

(** A call that may throw and whose loops are bounded by fuel. *)
Abbreviation throws A := (option (result parse_error A)).

Definition tbind {A B} (m : throws A) (f : A -> throws B) : throws B :=
  match m with Some (Ok a) => f a | Some (Err e) => Some (Err e) | None => None end.
Definition ret {A} (a : A) : throws A := Some (Ok a).
Definition throw {A} (e : parse_error) : throws A := Some (Err e).

Notation "'let!' x := m 'in' k" := (tbind m (fun x => k)) (at level 10, x pattern, m at level 100, k at level 200).

(** * Characters *)

Definition is_digit_char (c : byte) : bool := bool_decide (48 <= u8 c <= 57)%Z.
Definition is_word_char (c : byte) : bool :=
  bool_decide (97 <= u8 c <= 122)%Z || bool_decide (65 <= u8 c <= 90)%Z || bool_decide (c = "-"%byte) || is_digit_char c.
Definition is_eol (c : byte) : bool := bool_decide (c = x0d) || bool_decide (c = x0a).

Definition hex_digit (c : byte) : option Z :=
  if bool_decide (97 <= u8 c <= 102)%Z then Some (u8 c - 97 + 10)%Z
  else if bool_decide (65 <= u8 c <= 70)%Z then Some (u8 c - 65 + 10)%Z
  else if bool_decide (48 <= u8 c <= 57)%Z then Some (u8 c - 48)%Z else None.

Fixpoint parse_hex (size : nat) (value : Z) (src : list byte) : result parse_error (Z * list byte) :=
  match size with
  | 0 => Ok (value, src)
  | S size =>
      match src with
      | [] => Err ExpectingHex
      | c :: src =>
          match hex_digit c with
          | Some d => parse_hex size (u32_wrap (u32_wrap (Z.shiftl value 4) + d)) src
          | None => Err ExpectingHex
          end
      end
  end.

(** [comment] is true inside of a comment, which ends before its line break. *)
Fixpoint space_loop (newline_ok comment : bool) (src : list byte) : list byte :=
  match src with
  | [] => []
  | c :: s =>
      if comment && negb (is_eol c) then space_loop newline_ok true s
      else if bool_decide (c = " "%byte) || bool_decide (c = x09) then space_loop newline_ok false s
      else if bool_decide (c = "#"%byte) then space_loop newline_ok true s
      else if newline_ok && is_eol c then space_loop newline_ok false s
      else src
  end.
Definition parse_space (src : list byte) (newline_ok : bool) : list byte := space_loop newline_ok false src.

Fixpoint span (p : byte -> bool) (src : list byte) : list byte * list byte :=
  match src with
  | [] => ([], [])
  | c :: s => if p c then let '(a, b) := span p s in (c :: a, b) else ([], src)
  end.

(** The text up to the returned pointer, and the rest. *)
Definition parse_name (src : list byte) : result parse_error (list byte * list byte) :=
  let '(a, b) := span is_word_char src in
  if bool_decide (a = []) then Err ExpectingName else Ok (a, b).

Definition parse_int (src : list byte) : result parse_error (list byte * list byte) :=
  let '(a, b) := span is_digit_char src in
  if bool_decide (a = []) then Err ExpectingInteger else Ok (a, b).

(** [std::stoul] of a string of digits, with a 64-bit [unsigned long]. *)
Definition digits_value (s : list byte) : Z := foldl (fun v c => (v * 10 + (u8 c - 48))%Z) 0%Z s.
Definition stoul (s : list byte) : result parse_error Z :=
  if bool_decide (digits_value s < 18446744073709551616)%Z then Ok (digits_value s) else Err OutOfRange.

Definition parse_char (src : list byte) : result parse_error (Z * list byte) :=
  match src with
  | [] => Err UnexpectedEnd
  | c :: s =>
      if bool_decide (c = "\"%byte) then
        match s with
        | [] => Err UnknownEscape
        | e :: s =>
            if bool_decide (e = "x"%byte) then parse_hex 2 0 s
            else if bool_decide (e = "u"%byte) then parse_hex 4 0 s
            else if bool_decide (e = "U"%byte) then parse_hex 8 0 s
            else if bool_decide (e = "t"%byte) then Ok (9%Z, s)
            else if bool_decide (e = "r"%byte) then Ok (13%Z, s)
            else if bool_decide (e = "n"%byte) then Ok (10%Z, s)
            else if bool_decide (e = "\"%byte) || bool_decide (e = x22) || bool_decide (e = "["%byte) || bool_decide (e = "]"%byte)
            then Ok (u8 e, s) else Err UnknownEscape
        end
      else Ok (decode_utf8_one src)
  end.

(** * Tokens *)

Section Parse.

(** [vocab->tokenize(text, len, tokens, 2, false, true)]: the count it returns
    and [tokens[0]]; [None] is a null [vocab]. *)
Context (tokenize : option (list byte -> Z * Z)).

Definition parse_token (src : list byte) : result parse_error (Z * list byte) :=
  match src with
  | c :: s =>
      if negb (bool_decide (c = "<"%byte)) then Err ExpectingLess else
      if bool_decide (deref s = "["%byte) then
        '(digits, pos) ← parse_int (tail s);
        v ← stoul digits;
        if negb (bool_decide (deref pos = "]"%byte)) then Err ExpectingBracket else
        if negb (bool_decide (deref (tail pos) = ">"%byte)) then Err ExpectingGreater else
        Ok (u32_wrap v, drop 2 pos)
      else
        match tokenize with
        | None => Err NoVocab
        | Some tok =>
            let '(text, pos) := span (fun c => negb (bool_decide (c = ">"%byte))) s in
            if negb (bool_decide (deref pos = ">"%byte)) then Err ExpectingGreater else
            let '(n_tokens, t) := tok ([c] ++ text ++ [">"%byte]) in
            if negb (bool_decide (n_tokens = 1)%Z) then Err InvalidToken else Ok (u32_wrap t, tail pos)
        end
  | [] => Err ExpectingLess
  end.

(** * The parser's tables *)

Record llama_grammar_parser := mkParser { symbol_ids : gmap (list byte) Z; p_rules : llama_grammar_rules }.

Definition parser0 : llama_grammar_parser := mkParser ∅ [].

Definition get_symbol_id (name : list byte) (st : llama_grammar_parser) : Z * llama_grammar_parser :=
  let next_id := u32_wrap (Z.of_nat (size (symbol_ids st))) in
  match symbol_ids st !! name with
  | Some id => (id, st)
  | None => (next_id, mkParser (<[name := next_id]> (symbol_ids st)) (p_rules st))
  end.

Definition symbol_key (base_name : list byte) (id : Z) : list byte := base_name ++ "_"%byte :: to_string id.

Definition generate_symbol_id (base_name : list byte) (st : llama_grammar_parser) : Z * llama_grammar_parser :=
  let next_id := u32_wrap (Z.of_nat (size (symbol_ids st))) in
  (next_id, mkParser (<[symbol_key base_name next_id := next_id]> (symbol_ids st)) (p_rules st)).

Definition add_rule (rule_id : Z) (rule : llama_grammar_rule) (st : llama_grammar_parser) : llama_grammar_parser :=
  let i := Z.to_nat rule_id in
  let rules := p_rules st ++ replicate (i + 1 - length (p_rules st)) [] in
  mkParser (symbol_ids st) (<[i := rule]> rules).

(** * Repetitions *)

Definition UINT64_MAX : Z := 18446744073709551615.
Definition MAX_REPETITION_THRESHOLD : Z := 2000.

Definition rec_rule (prev_rule : llama_grammar_rule) (target : option Z) : llama_grammar_rule :=
  prev_rule ++ match target with Some id => [mkElem LLAMA_GRETYPE_RULE_REF id] | None => [] end
    ++ [mkElem LLAMA_GRETYPE_ALT 0; mkElem LLAMA_GRETYPE_END 0].

(** The loop over the optional repetitions, [last] the id of the rule made by
    the iteration before. *)
Fixpoint rec_loop (n : nat) (rule_name : list byte) (prev_rule : llama_grammar_rule) (no_max : bool) (last : option Z)
    (st : llama_grammar_parser) : option Z * llama_grammar_parser :=
  match n with
  | 0 => (last, st)
  | S n =>
      let '(id, st) := generate_symbol_id rule_name st in
      let st := add_rule id (rec_rule prev_rule (if no_max then Some id else last)) st in
      rec_loop n rule_name prev_rule no_max (Some id) st
  end.

Definition handle_repetitions (rule_name : list byte) (last_sym_start : nat) (min_times max_times : Z)
    (rule : llama_grammar_rule) (st : llama_grammar_parser) : result parse_error (llama_grammar_rule * llama_grammar_parser) :=
  let no_max := bool_decide (max_times = UINT64_MAX) in
  if bool_decide (last_sym_start = length rule) then Err ExpectingPreceding else
  let prev_rule := drop last_sym_start rule in
  let rule := if bool_decide (min_times = 0)%Z then take last_sym_start rule
              else rule ++ concat (replicate (Z.to_nat (min_times - 1)) prev_rule) in
  let n_opt := if no_max then 1%Z else u64_wrap (max_times - min_times) in
  let '(last, st) := rec_loop (Z.to_nat n_opt) rule_name prev_rule no_max None st in
  Ok (rule ++ match last with Some id => [mkElem LLAMA_GRETYPE_RULE_REF id] | None => [] end, st).

(** The bounds of a [{m,n}] suffix, after the brace. *)
Definition parse_bounds (src : list byte) (is_nested : bool) : result parse_error (Z * Z * list byte) :=
  let pos := parse_space src is_nested in
  if negb (is_digit_char (deref pos)) then Err ExpectingInt else
  '(digits, int_end) ← parse_int pos;
  min_times ← stoul digits;
  let pos := parse_space int_end is_nested in
  '(max_times, pos) ←
    (if bool_decide (deref pos = "}"%byte) then Ok (min_times, parse_space (tail pos) is_nested)
     else if bool_decide (deref pos = ","%byte) then
       let pos := parse_space (tail pos) is_nested in
       '(max_times, pos) ←
         (if is_digit_char (deref pos) then
            '(digits, int_end) ← parse_int pos;
            max_times ← stoul digits;
            Ok (max_times, parse_space int_end is_nested)
          else Ok (UINT64_MAX, pos));
       if negb (bool_decide (deref pos = "}"%byte)) then Err ExpectingBrace
       else Ok (max_times, parse_space (tail pos) is_nested)
     else Err ExpectingComma);
  if bool_decide (MAX_REPETITION_THRESHOLD < min_times \/ (max_times <> UINT64_MAX /\ MAX_REPETITION_THRESHOLD < max_times))%Z
  then Err TooManyRepetitions else Ok (min_times, max_times, pos).
(** * Sequences *)

Definition elem (t : llama_gretype) (v : Z) : llama_grammar_element := mkElem t v.

(** The inside of a literal string, up to and over the closing quote. *)
Fixpoint literal_loop (fuel : nat) (pos : list byte) (rule : llama_grammar_rule) : throws (list byte * llama_grammar_rule) :=
  match fuel with
  | 0 => None
  | S fuel =>
      match pos with
      | [] => throw UnexpectedEnd
      | c :: s =>
          if bool_decide (c = x22) then ret (s, rule) else
          let! (v, pos) := Some (parse_char pos) in
          literal_loop fuel pos (rule ++ [elem LLAMA_GRETYPE_CHAR v])
      end
  end.

(** The inside of a character class. *)
Fixpoint class_loop (fuel : nat) (start_type : llama_gretype) (last_sym_start : nat) (pos : list byte) (rule : llama_grammar_rule)
    : throws (list byte * llama_grammar_rule) :=
  match fuel with
  | 0 => None
  | S fuel =>
      match pos with
      | [] => throw UnexpectedEnd
      | c :: s =>
          if bool_decide (c = "]"%byte) then ret (s, rule) else
          let! (v, pos) := Some (parse_char pos) in
          let type := if bool_decide (last_sym_start < length rule) then LLAMA_GRETYPE_CHAR_ALT else start_type in
          let rule := rule ++ [elem type v] in
          if bool_decide (deref pos = "-"%byte) && negb (bool_decide (deref (tail pos) = "]"%byte)) then
            if bool_decide (tail pos = []) then throw UnexpectedEnd else
            let! (v2, pos) := Some (parse_char (tail pos)) in
            class_loop fuel start_type last_sym_start pos (rule ++ [elem LLAMA_GRETYPE_CHAR_RNG_UPPER v2])
          else class_loop fuel start_type last_sym_start pos rule
      end
  end.

(** [parse_alternates], given [parse_sequence]. *)
Definition sequence_fn : Type := list byte -> llama_grammar_rule -> llama_grammar_parser -> throws (list byte * llama_grammar_rule * llama_grammar_parser).

Fixpoint alternates_loop (seq : sequence_fn) (fuel : nat) (pos : list byte) (rule : llama_grammar_rule) (st : llama_grammar_parser)
    : throws (list byte * llama_grammar_rule * llama_grammar_parser) :=
  match fuel with
  | 0 => None
  | S fuel =>
      if bool_decide (deref pos = "|"%byte) then
        let! (pos, rule, st) := seq (parse_space (tail pos) true) (rule ++ [elem LLAMA_GRETYPE_ALT 0]) st in
        alternates_loop seq fuel pos rule st
      else ret (pos, rule, st)
  end.

Definition alternates_with (seq : sequence_fn) (fuel : nat) (src : list byte) (rule_id : Z) (st : llama_grammar_parser)
    : throws (list byte * llama_grammar_parser) :=
  let! (pos, rule, st) := seq src [] st in
  let! (pos, rule, st) := alternates_loop seq fuel pos rule st in
  ret (pos, add_rule rule_id (rule ++ [elem LLAMA_GRETYPE_END 0]) st).

(** The loop of [parse_sequence]; one unit of fuel per item. *)
Fixpoint sequence_loop (fuel : nat) (rule_name : list byte) (is_nested : bool) (last_sym_start : nat) (pos : list byte)
    (rule : llama_grammar_rule) (st : llama_grammar_parser) : throws (list byte * llama_grammar_rule * llama_grammar_parser) :=
  match fuel with
  | 0 => None
  | S fuel =>
      let continue pos rule st := sequence_loop fuel rule_name is_nested (length rule - 1) (parse_space pos is_nested) rule st in
      let repeat pos min_times max_times :=
        let! (rule, st) := Some (handle_repetitions rule_name last_sym_start min_times max_times rule st) in
        sequence_loop fuel rule_name is_nested last_sym_start pos rule st in
      match pos with
      | [] => ret (pos, rule, st)
      | c :: s =>
          if bool_decide (c = x22) then
            let! (pos, rule') := literal_loop (S (length s)) s rule in
            sequence_loop fuel rule_name is_nested (length rule) (parse_space pos is_nested) rule' st
          else if bool_decide (c = "["%byte) then
            let '(start_type, s) := if bool_decide (deref s = "^"%byte) then (LLAMA_GRETYPE_CHAR_NOT, tail s) else (LLAMA_GRETYPE_CHAR, s) in
            let! (pos, rule') := class_loop (S (length s)) start_type (length rule) s rule in
            sequence_loop fuel rule_name is_nested (length rule) (parse_space pos is_nested) rule' st
          else if bool_decide (c = "<"%byte) || bool_decide (c = "!"%byte) then
            let '(type, p) := if bool_decide (c = "!"%byte) then (LLAMA_GRETYPE_TOKEN_NOT, s) else (LLAMA_GRETYPE_TOKEN, pos) in
            let! (v, pos) := Some (parse_token p) in
            continue pos (rule ++ [elem type v]) st
          else if is_word_char c then
            let! (name, pos) := Some (parse_name pos) in
            let '(id, st) := get_symbol_id name st in
            continue pos (rule ++ [elem LLAMA_GRETYPE_RULE_REF id]) st
          else if bool_decide (c = "("%byte) then
            let '(id, st) := generate_symbol_id rule_name st in
            let! (pos, st) := alternates_with (fun pos rule st => sequence_loop fuel rule_name true (length rule) pos rule st) fuel
                                (parse_space s true) id st in
            if negb (bool_decide (deref pos = ")"%byte)) then throw ExpectingParen else
            continue (tail pos) (rule ++ [elem LLAMA_GRETYPE_RULE_REF id]) st
          else if bool_decide (c = "."%byte) then continue s (rule ++ [elem LLAMA_GRETYPE_CHAR_ANY 0]) st
          else if bool_decide (c = "*"%byte) then repeat (parse_space s is_nested) 0%Z UINT64_MAX
          else if bool_decide (c = "+"%byte) then repeat (parse_space s is_nested) 1%Z UINT64_MAX
          else if bool_decide (c = "?"%byte) then repeat (parse_space s is_nested) 0%Z 1%Z
          else if bool_decide (c = "{"%byte) then
            let! (min_times, max_times, pos) := Some (parse_bounds s is_nested) in
            repeat pos min_times max_times
          else ret (pos, rule, st)
      end
  end.

Definition parse_sequence (fuel : nat) (rule_name : list byte) (is_nested : bool) : sequence_fn :=
  fun src rule st => sequence_loop fuel rule_name is_nested (length rule) src rule st.

Definition parse_alternates (fuel : nat) (src : list byte) (rule_name : list byte) (rule_id : Z) (is_nested : bool) (st : llama_grammar_parser)
    : throws (list byte * llama_grammar_parser) :=
  alternates_with (parse_sequence fuel rule_name is_nested) fuel src rule_id st.

(** * Rules *)

Definition parse_rule (fuel : nat) (src : list byte) (st : llama_grammar_parser) : throws (list byte * llama_grammar_parser) :=
  let! (name, name_end) := Some (parse_name src) in
  let pos := parse_space name_end false in
  let '(rule_id, st) := get_symbol_id name st in
  if negb (bool_decide (take 3 pos = [":"%byte; ":"%byte; "="%byte])) then throw ExpectingDefinition else
  let! (pos, st) := parse_alternates fuel (parse_space (drop 3 pos) true) name rule_id false st in
  let! pos :=
    (if bool_decide (deref pos = x0d) then ret (if bool_decide (deref (tail pos) = x0a) then drop 2 pos else tail pos)
     else if bool_decide (deref pos = x0a) then ret (tail pos)
     else if bool_decide (pos = []) then ret pos else throw ExpectingNewline) in
  ret (parse_space pos true, st).

Fixpoint rules_loop (fuel : nat) (pos : list byte) (st : llama_grammar_parser) : throws llama_grammar_parser :=
  match pos with
  | [] => ret st
  | _ =>
      match fuel with
      | 0 => None
      | S fuel => let! (pos, st) := parse_rule (S (length pos)) pos st in rules_loop fuel pos st
      end
  end.

(** The validation after the last rule: an element whose rule is missing. *)
Definition dangling (rules : llama_grammar_rules) (e : llama_grammar_element) : bool :=
  has_type LLAMA_GRETYPE_RULE_REF e &&
  match rules !! Z.to_nat (el_value e) with None | Some [] => true | Some (_ :: _) => false end.

Definition has_name (ids : gmap (list byte) Z) (id : Z) : bool := existsb (fun kv => bool_decide (kv.2 = id)) (map_to_list ids).

Fixpoint validate (ids : gmap (list byte) Z) (rules l : llama_grammar_rules) : result parse_error unit :=
  match l with
  | [] => Ok tt
  | rule :: l =>
      if bool_decide (rule = []) then Err UndefinedRule else
      if existsb (fun e => dangling rules e && has_name ids (el_value e)) rule then Err UndefinedIdentifier
      else validate ids rules l
  end.

(** The tables of an accepted text; [Err] is the result false. *)
Definition parse (src : list byte) : throws llama_grammar_parser :=
  let pos := parse_space src true in
  let! st := rules_loop (length pos) pos parser0 in
  let! _ := Some (validate (symbol_ids st) (p_rules st) (p_rules st)) in
  ret st.

(** * A grammar from its text *)

(** Why [llama_grammar_init_impl] has no grammar: a null pointer, or the
    exception of [symbol_ids.at]. *)
Inductive init_failure := ParseFailed (e : parse_error) | NoRules | NoRoot | LeftRecursion | NoSymbol.

Definition llama_grammar_init_text {P} (F : nat) (grammar_str grammar_root : list byte) (lazy : bool)
    (trigger_tokens : list Z) (trigger_patterns : list P) : option (result init_failure (llama_grammar P)) :=
  r ← parse grammar_str;
  match r with
  | Err e => Some (Err (ParseFailed e))
  | Ok parser =>
      if bool_decide (p_rules parser = []) then Some (Err NoRules) else
      match symbol_ids parser !! list_byte_of_string "root" with
      | None => Some (Err NoRoot)
      | Some _ =>
          match symbol_ids parser !! grammar_root with
          | None => Some (Err NoSymbol)
          | Some start =>
              g ← llama_grammar_init_impl F (p_rules parser) (Z.to_nat start) lazy trigger_tokens trigger_patterns;
              Some (match g with Some g => Ok g | None => Err LeftRecursion end)
          end
      end
  end.
End Parse.

End GrammarParse.
