(* ===== verification/GrammarText.v ===== *)
(** The parser of grammar texts: it always answers, the rules of an accepted
    text are well-formed, and a repetition generates the repetitions of its
    item within its bounds. *)

From Stdlib Require Import String DecimalString DecimalN.
From S2P Require Import Bytes.
From S2P Require Import Utf8.
From S2P Require Import Grammar.
From S2P Require Import GrammarLang.
From S2P Require Import GrammarRun.
From S2P Require Import GrammarParse.
Import Utf8.Utf8 Grammar.Grammar GrammarLang.GrammarLang GrammarRun.GrammarRun GrammarParse.GrammarParse.

Module GrammarText.

(** * What a call promises

    [answers m Q]: the call has enough fuel, and what it returns satisfies [Q]. *)

Definition answers {A} (m : throws A) (Q : A -> Prop) : Prop :=
  match m with Some (Ok a) => Q a | Some (Err _) => True | None => False end.

Lemma answers_bind {A B} (m : throws A) (f : A -> throws B) Q R :
  answers m Q -> (forall a, Q a -> answers (f a) R) -> answers (tbind m f) R.
Proof. destruct m as [[a|e]|]; simpl; auto. Qed.

Lemma answers_weaken {A} (m : throws A) (Q R : A -> Prop) : answers m Q -> (forall a, Q a -> R a) -> answers m R.
Proof. destruct m as [[a|e]|]; simpl; auto. Qed.

Lemma answers_call {A B} (r : result parse_error A) (f : A -> throws B) R :
  (forall a, r = Ok a -> answers (f a) R) -> answers (tbind (Some r) f) R.
Proof. destruct r; simpl; auto. Qed.

(** * The lexical helpers consume text *)

Lemma space_length b src : forall c, length (space_loop b c src) <= length src.
Proof.
  induction src as [|x s IH]; intros c; [done|]. pose proof (IH true). pose proof (IH false). cbn [space_loop].
  repeat match goal with |- context [if ?b then _ else _] => destruct b end; cbn [length]; lia.
Qed.

Lemma parse_space_length src b : length (parse_space src b) <= length src.
Proof. apply space_length. Qed.

Lemma span_app p src a b : span p src = (a, b) -> src = a ++ b /\ Forall (fun c => p c = true) a.
Proof.
  revert a b. induction src as [|c s IH]; simpl; intros a b; [by intros [= <- <-]|].
  destruct (p c) eqn:Hc; [|by intros [= <- <-]]. destruct (span p s) as [a' b']. intros [= <- <-]. destruct (IH a' b' eq_refl) as [-> Hf].
  split; [done|by constructor].
Qed.

Lemma parse_name_ok src a b : parse_name src = Ok (a, b) -> src = a ++ b /\ a <> [] /\ Forall (fun c => is_word_char c = true) a.
Proof.
  unfold parse_name. destruct (span is_word_char src) as [a' b'] eqn:Hs. apply span_app in Hs as [-> Hf].
  case_bool_decide; [done|]. by intros [= <- <-].
Qed.

Lemma parse_int_length src a b : parse_int src = Ok (a, b) -> length b < length src.
Proof.
  unfold parse_int. destruct (span is_digit_char src) as [a' b'] eqn:Hs. apply span_app in Hs as [-> Hf].
  case_bool_decide; [done|]. intros [= <- <-]. rewrite length_app. destruct a'; [done|]. simpl. lia.
Qed.

Lemma parse_hex_length n : forall v src x b, parse_hex n v src = Ok (x, b) -> length b <= length src.
Proof.
  induction n as [|n IH]; intros v src x b; simpl; [by intros [= _ <-]|]. destruct src as [|c src]; [done|].
  destruct (hex_digit c); [|done]. intros H%IH. simpl. lia.
Qed.

Lemma take_cont_length n : forall v src, length (take_cont n v src).2 <= length src.
Proof. induction n as [|n IH]; intros v [|c src]; simpl; try lia. pose proof (IH (add_cont v c) src). lia. Qed.

Lemma parse_char_length src v b : parse_char src = Ok (v, b) -> length b < length src.
Proof.
  destruct src as [|c src]; [done|]. unfold parse_char. case_bool_decide.
  - destruct src as [|e src]; [done|]. repeat (case_bool_decide; [first [by intros [= _ <-]; simpl; lia|intros Hh%parse_hex_length; simpl; lia]|]).
    destruct (_ || _); [by intros [= _ <-]; simpl; lia|done].
  - unfold decode_utf8_one. intros [= Hd]. cbn [tail] in Hd.
    match type of Hd with take_cont ?n ?v ?s = _ => pose proof (take_cont_length n v s) as Hl; rewrite Hd in Hl end. simpl in *. lia.
Qed.

Lemma deref_cons pos c : deref pos = c -> c <> x00 -> exists s, pos = c :: s.
Proof. unfold deref. destruct pos as [|d s]; simpl; [done|]. intros -> _. by exists s. Qed.

Lemma parse_token_length tok src v b : parse_token tok src = Ok (v, b) -> length b < length src.
Proof.
  destruct src as [|c s]; [done|]. unfold parse_token. destruct (negb _); [done|]. case_bool_decide as Hb.
  - apply deref_cons in Hb as [s' ->]; [|done]. cbn [tail]. intros ([ds pos] & Hi & H)%result_bind_ok. apply parse_int_length in Hi.
    apply result_bind_ok in H as (x & _ & H). destruct (negb _); [done|]. destruct (negb _); [done|]. injection H as _ <-.
    rewrite length_drop. simpl. lia.
  - destruct tok as [tok|]; [|done]. destruct (span _ s) as [t pos] eqn:Hs. apply span_app in Hs as [-> _].
    destruct (negb _); [done|]. destruct (tok _) as [n t']. destruct (negb _); [done|]. intros [= _ <-].
    simpl. rewrite length_app. destruct pos; simpl; lia.
Qed.

Lemma tail_length {A} (l : list A) : length (tail l) <= length l.
Proof. destruct l; simpl; lia. Qed.

Lemma parse_bounds_length src n m b is_nested : parse_bounds src is_nested = Ok (n, m, b) -> length b < length src.
Proof.
  unfold parse_bounds. pose proof (parse_space_length src is_nested) as H0. destruct (negb _); [done|].
  intros ([ds e] & Hi & H)%result_bind_ok. apply parse_int_length in Hi. apply result_bind_ok in H as (mn & _ & H).
  pose proof (parse_space_length e is_nested) as H1. set (pos := parse_space e is_nested) in *.
  apply result_bind_ok in H as ([mx pos'] & Hp & H). assert (length pos' <= length pos) as Hl.
  { clear H. pose proof (tail_length pos) as Ht. pose proof (parse_space_length (tail pos) is_nested) as H2. case_bool_decide; [injection Hp as _ <-; lia|].
    case_bool_decide; [|done]. apply result_bind_ok in Hp as ([mx' p] & Hp & Hq).
    assert (length p <= length pos) as Hpp.
    { destruct (is_digit_char _); [|injection Hp as _ <-; lia]. apply result_bind_ok in Hp as ([d q] & Hd & Hp). apply parse_int_length in Hd.
      apply result_bind_ok in Hp as (? & _ & [= _ <-]). pose proof (parse_space_length q is_nested). lia. }
    destruct (negb _); [done|]. injection Hq as _ <-. pose proof (tail_length p). pose proof (parse_space_length (tail p) is_nested). lia. }
  case_bool_decide; [done|]. injection H as _ _ <-. lia.
Qed.


(** * Well-formed pieces of rules

    [run] reads elements like [shape] does, with what may follow as its state. *)

Fixpoint run (rng alt : bool) (l : list llama_grammar_element) : option (bool * bool) :=
  match l with
  | [] => Some (rng, alt)
  | e :: l =>
      match el_type e with
      | LLAMA_GRETYPE_END => None
      | LLAMA_GRETYPE_ALT | LLAMA_GRETYPE_RULE_REF | LLAMA_GRETYPE_CHAR_ANY | LLAMA_GRETYPE_TOKEN | LLAMA_GRETYPE_TOKEN_NOT => run false false l
      | LLAMA_GRETYPE_CHAR | LLAMA_GRETYPE_CHAR_NOT => run true true l
      | LLAMA_GRETYPE_CHAR_RNG_UPPER => if rng then run false true l else None
      | LLAMA_GRETYPE_CHAR_ALT => if alt then run true true l else None
      end
  end.

Definition okl (l : list llama_grammar_element) : Prop := is_Some (run false false l).

Lemma run_app l1 : forall r a l2, run r a (l1 ++ l2) = ('(r', a') ← run r a l1; run r' a' l2).
Proof. induction l1 as [|e l1 IH]; intros r a l2; simpl; [done|]. destruct (el_type e); try apply IH; [done|destruct r|destruct a]; done. Qed.

Lemma run_start l r a x : run false false l = Some x -> l <> [] -> run r a l = Some x.
Proof. destruct l as [|e l]; [done|]. intros H _. simpl in *. by destruct (el_type e). Qed.

Lemma okl_app l1 l2 : okl l1 -> okl l2 -> okl (l1 ++ l2).
Proof.
  intros [[r a] H1] [x H2]. unfold okl. rewrite run_app, H1. cbn [mbind option_bind]. destruct l2 as [|e l2]; [by exists (r, a)|].
  rewrite (run_start _ r a x H2) by done. by exists x.
Qed.

Lemma okl_repeat n l : okl l -> okl (concat (replicate n l)).
Proof. intros Hl. induction n as [|n IH]; [by exists (false, false)|]. by apply okl_app. Qed.

Lemma okl_one t v : t <> LLAMA_GRETYPE_END -> t <> LLAMA_GRETYPE_CHAR_RNG_UPPER -> t <> LLAMA_GRETYPE_CHAR_ALT -> okl [elem t v].
Proof. unfold okl, elem. destruct t; simpl; intros; try done; by eexists. Qed.

(** References to rules that have a name. *)
Abbreviation names := (gmap (list byte) Z).
Definition refs_in (ids : names) (l : list llama_grammar_element) : Prop :=
  Forall (fun e => el_type e = LLAMA_GRETYPE_RULE_REF -> exists k, ids !! k = Some (el_value e)) l.

Definition piece (ids : names) (l : list llama_grammar_element) : Prop := okl l /\ refs_in ids l.

Lemma refs_mono ids ids' l : ids ⊆ ids' -> refs_in ids l -> refs_in ids' l.
Proof. intros Hs Hr. eapply Forall_impl; [exact Hr|]. intros e H Ht. simpl in H. destruct (H Ht) as [k Hk]. exists k. by eapply lookup_weaken. Qed.

Lemma piece_mono ids ids' l : ids ⊆ ids' -> piece ids l -> piece ids' l.
Proof. intros Hs [H1 H2]. split; [done|by eapply refs_mono]. Qed.

Lemma piece_nil ids : piece ids [].
Proof. split; [by exists (false, false)|constructor]. Qed.

Lemma piece_app ids l1 l2 : piece ids l1 -> piece ids l2 -> piece ids (l1 ++ l2).
Proof. intros [H1 R1] [H2 R2]. split; [by apply okl_app|by apply Forall_app]. Qed.

Lemma piece_one ids t v : t <> LLAMA_GRETYPE_END -> t <> LLAMA_GRETYPE_CHAR_RNG_UPPER -> t <> LLAMA_GRETYPE_CHAR_ALT ->
  t <> LLAMA_GRETYPE_RULE_REF -> piece ids [elem t v].
Proof. intros. split; [by apply okl_one|]. by repeat constructor. Qed.

Lemma piece_ref ids id k : ids !! k = Some id -> piece ids [elem LLAMA_GRETYPE_RULE_REF id].
Proof. intros H. split; [by apply okl_one|]. constructor; [|constructor]. intros _. by exists k. Qed.

Lemma piece_repeat ids n l : piece ids l -> piece ids (concat (replicate n l)).
Proof. intros [H1 H2]. split; [by apply okl_repeat|]. apply Forall_concat, Forall_replicate, H2. Qed.

(** * The symbol table *)

Definition plain (s : list byte) : Prop := "_"%byte ∉ s.

Record ids_ok (m : names) : Prop := {
  ids_nonneg : forall k v, m !! k = Some v -> (0 <= v)%Z;
  ids_keys   : forall k v, m !! k = Some v -> plain k \/ exists b, plain b /\ k = symbol_key b v;
  ids_bound  : (Z.of_nat (size m) <= 2 ^ 32)%Z -> forall k v, m !! k = Some v -> (v < Z.of_nat (size m))%Z;
  ids_inj    : (Z.of_nat (size m) <= 2 ^ 32)%Z -> forall k k' v, m !! k = Some v -> m !! k' = Some v -> k = k';
}.

Lemma symbol_key_inj b b' v v' : plain b -> plain b' -> (0 <= v)%Z -> (0 <= v')%Z -> symbol_key b v = symbol_key b' v' -> b = b' /\ v = v'.
Proof.
  unfold symbol_key, plain. intros Hb Hb' Hv Hv'. revert b' Hb'. induction b as [|c b IH]; intros [|c' b'] Hb' He; simpl in He.
  - injection He as He. split; [done|by apply to_string_inj].
  - injection He as <- _. exfalso. apply Hb'. by left.
  - injection He as -> _. exfalso. apply Hb. by left.
  - injection He as -> He. destruct (IH ltac:(set_solver) b' ltac:(set_solver) He) as [-> ->]. done.
Qed.

Lemma key_not_plain b v : ~ plain (symbol_key b v).
Proof. unfold plain, symbol_key. intros H. apply H. set_solver. Qed.

Lemma u32_size (m : names) : (0 <= u32_wrap (Z.of_nat (size m)))%Z.
Proof. by apply Z.mod_pos_bound. Qed.

(** A new name gets the next number. *)
Lemma ids_insert m k : ids_ok m -> m !! k = None -> plain k \/ (exists b, plain b /\ k = symbol_key b (u32_wrap (Z.of_nat (size m)))) ->
  ids_ok (<[k := u32_wrap (Z.of_nat (size m))]> m).
Proof.
  intros [Hn Hk Hb Hi] Hnone Hkey. set (v := u32_wrap (Z.of_nat (size m))) in *. pose proof (u32_size m) as Hv. fold v in Hv.
  assert (size (<[k:=v]> m) = S (size m)) as Hsz by (by rewrite map_size_insert_None).
  assert (Z.of_nat (S (size m)) <= 2 ^ 32 -> v = Z.of_nat (size m))%Z as Hvs.
  { intros Hle. change (2 ^ 32)%Z with 4294967296%Z in Hle. unfold v, u32_wrap. apply Z.mod_small. lia. }
  constructor.
  - intros k' v' [[<- <-]|[_ H]]%lookup_insert_Some; [done|by eapply Hn].
  - intros k' v' [[<- <-]|[_ H]]%lookup_insert_Some; [done|by eapply Hk].
  - rewrite Hsz. intros Hle k' v' [[<- <-]|[_ H]]%lookup_insert_Some; [rewrite Hvs by done; lia|].
    assert (v' < Z.of_nat (size m))%Z by (eapply Hb; [lia|done]). lia.
  - rewrite Hsz. intros Hle k1 k2 v' [[<- <-]|[_ H1]]%lookup_insert_Some [[<- Heq]|[_ H2]]%lookup_insert_Some; [done|..].
    + assert (v < Z.of_nat (size m))%Z by (eapply Hb; [lia|done]). rewrite Hvs in * by done. lia.
    + subst v'. assert (v < Z.of_nat (size m))%Z by (eapply Hb; [lia|done]). rewrite Hvs in * by done. lia.
    + eapply Hi; [lia|done..].
Qed.

Lemma get_symbol_ok name st id st' : ids_ok (symbol_ids st) -> plain name -> get_symbol_id name st = (id, st') ->
  ids_ok (symbol_ids st') /\ symbol_ids st ⊆ symbol_ids st' /\ symbol_ids st' !! name = Some id /\ p_rules st' = p_rules st.
Proof.
  intros Hids Hp. unfold get_symbol_id. destruct (symbol_ids st !! name) as [v|] eqn:Hk; intros [= <- <-]; [done|]. cbn.
  split_and!; [apply ids_insert; auto|by apply insert_subseteq|by rewrite lookup_insert_eq|done].
Qed.

Lemma generate_symbol_ok base st id st' : ids_ok (symbol_ids st) -> plain base -> generate_symbol_id base st = (id, st') ->
  ids_ok (symbol_ids st') /\ symbol_ids st ⊆ symbol_ids st' /\ symbol_ids st' !! symbol_key base id = Some id /\ p_rules st' = p_rules st /\
  id = u32_wrap (Z.of_nat (size (symbol_ids st))).
Proof.
  intros Hids Hp. unfold generate_symbol_id. intros [= <- <-]. cbn. set (v := u32_wrap (Z.of_nat (size (symbol_ids st)))).
  pose proof (u32_size (symbol_ids st)) as Hv. fold v in Hv. rewrite lookup_insert_eq.
  destruct (symbol_ids st !! symbol_key base v) as [v'|] eqn:Hk.
  - assert (v' = v) as ->.
    { destruct (ids_keys _ Hids _ _ Hk) as [Hpl|(b & Hb & He)]; [by apply key_not_plain in Hpl|].
      symmetry. eapply symbol_key_inj; [exact Hp|exact Hb|done|by eapply ids_nonneg|done]. }
    rewrite insert_id by done. done.
  - split_and!; [|by apply insert_subseteq|done..]. apply ids_insert; [done|done|right; by exists base].
Qed.

(** * The parser's state *)

Definition complete (ids : names) (rule : llama_grammar_rule) : Prop :=
  rule = [] \/ exists l, rule = l ++ [mkElem LLAMA_GRETYPE_END 0] /\ piece ids l.

Definition st_ok (st : llama_grammar_parser) : Prop := ids_ok (symbol_ids st) /\ Forall (complete (symbol_ids st)) (p_rules st).

(** [st'] has the names of [st] and more. *)
Definition extends (st st' : llama_grammar_parser) : Prop := symbol_ids st ⊆ symbol_ids st'.

#[global] Instance extends_preorder : PreOrder extends.
Proof. unfold extends. split; [intros st; reflexivity|]. intros a b c Hab Hbc. etransitivity; eassumption. Qed.

Lemma complete_mono ids ids' rule : ids ⊆ ids' -> complete ids rule -> complete ids' rule.
Proof. intros Hs [->|(l & -> & Hl)]; [by left|]. right. exists l. split; [done|by eapply piece_mono]. Qed.

Lemma rules_mono ids ids' rules : ids ⊆ ids' -> Forall (complete ids) rules -> Forall (complete ids') rules.
Proof. intros Hs Hr. eapply Forall_impl; [exact Hr|]. intros r. by apply complete_mono. Qed.

Lemma add_rule_ok id l st : st_ok st -> piece (symbol_ids st) l -> st_ok (add_rule id (l ++ [mkElem LLAMA_GRETYPE_END 0]) st) /\
  symbol_ids (add_rule id (l ++ [mkElem LLAMA_GRETYPE_END 0]) st) = symbol_ids st.
Proof.
  intros [Hids Hr] Hl. split; [|done]. split; [done|]. unfold add_rule. cbn. apply Forall_insert.
  - apply Forall_app. split; [done|]. apply Forall_replicate. by left.
  - right. by exists l.
Qed.

Lemma get_ok name st id st' : st_ok st -> plain name -> get_symbol_id name st = (id, st') ->
  st_ok st' /\ extends st st' /\ symbol_ids st' !! name = Some id.
Proof.
  intros [Hids Hr] Hp Hg. destruct (get_symbol_ok _ _ _ _ Hids Hp Hg) as (H1 & H2 & H3 & H4). split_and!; [split|..]; try done.
  rewrite H4. by eapply rules_mono.
Qed.

Lemma generate_ok base st id st' : st_ok st -> plain base -> generate_symbol_id base st = (id, st') ->
  st_ok st' /\ extends st st' /\ symbol_ids st' !! symbol_key base id = Some id.
Proof.
  intros [Hids Hr] Hp Hg. destruct (generate_symbol_ok _ _ _ _ Hids Hp Hg) as (H1 & H2 & H3 & H4 & _). split_and!; [split|..]; try done.
  rewrite H4. by eapply rules_mono.
Qed.

(** The rule under construction, split at the start of its last item. *)
Definition building (ids : names) (last_sym_start : nat) (rule : llama_grammar_rule) : Prop :=
  last_sym_start <= length rule /\ piece ids (take last_sym_start rule) /\ piece ids (drop last_sym_start rule).

Lemma building_piece ids k rule : building ids k rule -> piece ids rule.
Proof. intros (_ & H1 & H2). rewrite <- (take_drop k rule). by apply piece_app. Qed.

Lemma building_mono ids ids' k rule : ids ⊆ ids' -> building ids k rule -> building ids' k rule.
Proof. intros Hs (H0 & H1 & H2). split; [done|]. split; by eapply piece_mono. Qed.

Lemma building_app ids rule l : piece ids rule -> piece ids l -> building ids (length rule) (rule ++ l).
Proof. intros H1 H2. unfold building. rewrite take_app_length, drop_app_length, length_app. split; [lia|done]. Qed.

Lemma building_new ids rule : piece ids rule -> building ids (length rule) rule.
Proof. intros H. rewrite <- (app_nil_r rule) at 2. apply building_app; [done|apply piece_nil]. Qed.

Lemma rec_rule_ok ids prev target : piece ids prev -> (forall id, target = Some id -> exists k, ids !! k = Some id) ->
  exists l, rec_rule prev target = l ++ [mkElem LLAMA_GRETYPE_END 0] /\ piece ids l.
Proof.
  intros Hp Ht. exists (prev ++ match target with Some id => [mkElem LLAMA_GRETYPE_RULE_REF id] | None => [] end ++ [mkElem LLAMA_GRETYPE_ALT 0]).
  split; [unfold rec_rule; by rewrite <- !app_assoc|]. apply piece_app; [done|]. apply piece_app; [|by apply piece_one].
  destruct target as [id|]; [|apply piece_nil]. destruct (Ht id eq_refl) as [k Hk]. by apply (piece_ref _ _ k).
Qed.

Lemma rec_loop_ok n name prev no_max : plain name -> forall last st last' st', st_ok st -> piece (symbol_ids st) prev ->
  (forall id, last = Some id -> exists k, symbol_ids st !! k = Some id) -> rec_loop n name prev no_max last st = (last', st') ->
  st_ok st' /\ extends st st' /\ (forall id, last' = Some id -> exists k, symbol_ids st' !! k = Some id).
Proof.
  intros Hname. induction n as [|n IH]; intros last st last' st' Hst Hp Hl; cbn [rec_loop]; [by intros [= <- <-]|].
  destruct (generate_symbol_id name st) as [id st1] eqn:Hg. destruct (generate_ok _ _ _ _ Hst Hname Hg) as (Hst1 & He1 & Hk).
  destruct (rec_rule_ok (symbol_ids st1) prev (if no_max then Some id else last)) as (l & -> & Hlp).
  { by eapply piece_mono. }
  { intros i Hi. destruct no_max; [injection Hi as <-; by eexists|]. destruct (Hl i Hi) as [k Hk']. exists k. by eapply lookup_weaken. }
  destruct (add_rule_ok id l st1 Hst1 Hlp) as [Hst2 Heq]. intros Hrec. apply IH in Hrec as (H1 & H2 & H3); [|done|..].
  - split_and!; [done| |done]. transitivity st1; [done|]. unfold extends in *. by rewrite Heq in H2.
  - rewrite Heq. by eapply piece_mono.
  - intros i [= <-]. rewrite Heq. by eexists.
Qed.

Lemma repetitions_ok name k mn mx rule st rule' st' : plain name -> st_ok st -> building (symbol_ids st) k rule ->
  handle_repetitions name k mn mx rule st = Ok (rule', st') ->
  st_ok st' /\ extends st st' /\ building (symbol_ids st') k rule'.
Proof.
  intros Hname Hst (Hle & Ht & Hd). unfold handle_repetitions. case_bool_decide as Hlen; [done|].
  destruct (rec_loop _ name (drop k rule) _ None st) as [last st1] eqn:Hrec.
  apply rec_loop_ok in Hrec as (Hst1 & He & Hl); [|done..]. intros [= <- <-]. split_and!; [done|done|].
  assert (piece (symbol_ids st1) match last with Some id => [mkElem LLAMA_GRETYPE_RULE_REF id] | None => [] end) as Hlast.
  { destruct last as [id|]; [|apply piece_nil]. destruct (Hl id eq_refl) as [q Hq]. by apply (piece_ref _ _ q). }
  apply (piece_mono _ _ _ He) in Ht, Hd. case_bool_decide.
  - replace k with (length (take k rule)) at 1 by (rewrite length_take; lia). by apply building_app.
  - rewrite <- (take_drop k rule) at 1. rewrite <- !app_assoc.
    replace k with (length (take k rule)) at 1 by (rewrite length_take; lia).
    apply building_app; [done|]. apply piece_app; [done|]. apply piece_app; [by apply piece_repeat|done].
Qed.

(** * The loops of a sequence *)

Lemma literal_loop_ok ids rule0 fuel : forall pos l, length pos < fuel -> piece ids l ->
  answers (literal_loop fuel pos (rule0 ++ l)) (fun '(pos', rule') => length pos' < S (length pos) /\ exists l', rule' = rule0 ++ l' /\ piece ids l').
Proof.
  induction fuel as [|fuel IH]; intros pos l Hf Hl; [lia|]. cbn [literal_loop]. destruct pos as [|c s]; [done|]. simpl in Hf.
  case_bool_decide; [simpl; split; [lia|by exists l]|]. apply answers_call. intros [v p] Hp%parse_char_length. simpl in Hp. rewrite <- app_assoc. eapply answers_weaken; [apply IH; [lia|apply piece_app; [done|by apply piece_one]]|].
  intros [pos' rule'] [Hlen ?]. split; [simpl; lia|done].
Qed.

Lemma literal_ok ids rule s : answers (literal_loop (S (length s)) s rule)
  (fun '(pos', rule') => length pos' < S (length s) /\ exists l', rule' = rule ++ l' /\ piece ids l').
Proof. rewrite <- (app_nil_r rule) at 1. apply literal_loop_ok; [lia|apply piece_nil]. Qed.

(** A class under construction: nothing, or something another character can follow. *)
Definition class_open (ids : names) (l : list llama_grammar_element) : Prop :=
  refs_in ids l /\ (l = [] \/ exists rng, run false false l = Some (rng, true)).

Lemma class_open_piece ids l : class_open ids l -> piece ids l.
Proof. intros [Hr [->|[rng H]]]; split; [by exists (false, false)|done|by eexists|done]. Qed.

Lemma class_open_char ids l t v : t = LLAMA_GRETYPE_CHAR \/ t = LLAMA_GRETYPE_CHAR_NOT -> class_open ids l ->
  class_open ids (l ++ [elem (if bool_decide (0 < length l) then LLAMA_GRETYPE_CHAR_ALT else t) v]) /\
  run false false (l ++ [elem (if bool_decide (0 < length l) then LLAMA_GRETYPE_CHAR_ALT else t) v]) = Some (true, true).
Proof.
  intros Ht [Hr Hl]. assert (run false false (l ++ [elem (if bool_decide (0 < length l) then LLAMA_GRETYPE_CHAR_ALT else t) v]) = Some (true, true)) as Hrun.
  { rewrite run_app. destruct Hl as [->|[rng Hl]]; [by destruct Ht as [-> | ->]|]. rewrite Hl. rewrite bool_decide_true; [done|].
    destruct l; [done|simpl; lia]. }
  split; [|done]. split; [|right; by eexists]. apply Forall_app. split; [done|]. constructor; [|constructor].
  simpl. destruct (bool_decide _); [done|by destruct Ht as [-> | ->]].
Qed.

Lemma class_open_upper ids l v : class_open ids l -> run false false l = Some (true, true) -> class_open ids (l ++ [elem LLAMA_GRETYPE_CHAR_RNG_UPPER v]).
Proof.
  intros [Hr _] Hrun. split; [apply Forall_app; split; [done|by repeat constructor]|]. right. exists false. by rewrite run_app, Hrun.
Qed.

Lemma class_loop_ok ids rule0 t fuel : t = LLAMA_GRETYPE_CHAR \/ t = LLAMA_GRETYPE_CHAR_NOT -> forall pos l, length pos < fuel -> class_open ids l ->
  answers (class_loop fuel t (length rule0) pos (rule0 ++ l))
    (fun '(pos', rule') => length pos' < S (length pos) /\ exists l', rule' = rule0 ++ l' /\ piece ids l').
Proof.
  intros Ht. induction fuel as [|fuel IH]; intros pos l Hf Hl; [lia|]. cbn [class_loop]. destruct pos as [|c s]; [done|]. simpl in Hf.
  case_bool_decide; [simpl; split; [lia|exists l; split; [done|by apply class_open_piece]]|].
  apply answers_call. intros [v p] Hp%parse_char_length. simpl in Hp.
  assert (bool_decide (length rule0 < length (rule0 ++ l)) = bool_decide (0 < length l)) as -> by (apply bool_decide_ext; rewrite length_app; lia).
  rewrite <- app_assoc. destruct (class_open_char ids l t v Ht Hl) as [Hopen Hrun].
  set (l1 := l ++ [elem (if bool_decide (0 < length l) then LLAMA_GRETYPE_CHAR_ALT else t) v]) in *.
  destruct (_ && _).
  - case_bool_decide; [done|]. apply answers_call. intros [v2 p2] Hp2%parse_char_length. simpl in Hp2. pose proof (tail_length p). rewrite <- app_assoc.
    eapply answers_weaken; [apply IH; [lia|by apply class_open_upper]|]. intros [pos' rule'] [Hlen ?]. split; [simpl; lia|done].
  - eapply answers_weaken; [apply IH; [lia|done]|]. intros [pos' rule'] [Hlen ?]. split; [simpl; lia|done].
Qed.

Lemma class_ok ids rule t s : t = LLAMA_GRETYPE_CHAR \/ t = LLAMA_GRETYPE_CHAR_NOT ->
  answers (class_loop (S (length s)) t (length rule) s rule)
    (fun '(pos', rule') => length pos' < S (length s) /\ exists l', rule' = rule ++ l' /\ piece ids l').
Proof. intros Ht. rewrite <- (app_nil_r rule) at 2. apply class_loop_ok; [done|lia|]. split; [constructor|by left]. Qed.

(** What [parse_sequence] and [parse_alternates] promise. *)
Definition sequence_post (pos : list byte) (st : llama_grammar_parser) (r : list byte * llama_grammar_rule * llama_grammar_parser) : Prop :=
  let '(pos', rule', st') := r in length pos' <= length pos /\ st_ok st' /\ extends st st' /\ piece (symbol_ids st') rule'.

Definition sequence_ok (seq : sequence_fn) (n : nat) : Prop := forall pos rule st, length pos < n -> st_ok st -> piece (symbol_ids st) rule ->
  answers (seq pos rule st) (sequence_post pos st).

Lemma alternates_loop_ok seq n fuel : sequence_ok seq n -> forall pos rule st, length pos < fuel -> length pos < n -> st_ok st -> piece (symbol_ids st) rule ->
  answers (alternates_loop seq fuel pos rule st) (sequence_post pos st).
Proof.
  intros Hseq. induction fuel as [|fuel IH]; intros pos rule st Hf Hn Hst Hr; [lia|]. cbn [alternates_loop]. case_bool_decide as Hc; [|done].
  apply deref_cons in Hc as [s ->]; [|done]. cbn [tail]. simpl in Hf, Hn. pose proof (parse_space_length s true) as Hs.
  eapply answers_bind; [apply Hseq; [lia|done|apply piece_app; [done|by apply piece_one]]|].
  intros [[pos1 rule1] st1] (H1 & H2 & H3 & H4). eapply answers_weaken; [apply IH; [lia|lia|done|done]|].
  intros [[pos2 rule2] st2] (G1 & G2 & G3 & G4). split_and!; [simpl; lia|done|by transitivity st1|done].
Qed.

Lemma alternates_with_ok seq n fuel id src st : sequence_ok seq n -> length src < n -> length src < fuel -> st_ok st ->
  answers (alternates_with seq fuel src id st) (fun '(pos', st') => length pos' <= length src /\ st_ok st' /\ extends st st').
Proof.
  intros Hseq Hn Hf Hst. unfold alternates_with. eapply answers_bind; [apply Hseq; [done|done|apply piece_nil]|].
  intros [[pos1 rule1] st1] (H1 & H2 & H3 & H4). eapply answers_bind; [apply (alternates_loop_ok seq n); [done|lia|lia|done|done]|].
  intros [[pos2 rule2] st2] (G1 & G2 & G3 & G4). destruct (add_rule_ok id rule2 st2 G2 G4) as [K1 _]. simpl.
  split_and!; [lia|done|]. transitivity st1; [done|exact G3].
Qed.

(** * The sequence loop *)

Section Loop.
Context (tokenize : option (list byte -> Z * Z)).

Lemma word_plain s : Forall (fun c => is_word_char c = true) s -> plain s.
Proof. unfold plain. rewrite Forall_forall. intros H Hin. specialize (H _ Hin). discriminate H. Qed.

Lemma sequence_loop_ok name : plain name -> forall fuel is_nested k pos rule st, length pos < fuel -> st_ok st -> building (symbol_ids st) k rule ->
  answers (sequence_loop tokenize fuel name is_nested k pos rule st) (sequence_post pos st).
Proof.
  intros Hname. induction fuel as [|fuel IH]; intros is_nested k pos rule st Hf Hst Hb; [lia|].
  pose proof (building_piece _ _ _ Hb) as Hr. cbn [sequence_loop].
  assert (forall pos' k' rule' st', length pos' < length pos -> st_ok st' -> extends st st' -> building (symbol_ids st') k' rule' ->
    answers (sequence_loop tokenize fuel name is_nested k' pos' rule' st') (sequence_post pos st)) as Hgo.
  { intros pos' k' rule' st' Hl Hst' He Hb'. eapply answers_weaken; [apply IH; [lia|done|done]|].
    intros [[p r] s] (H1 & H2 & H3 & H4). split_and!; [lia|done|by transitivity st'|done]. }
  assert (forall pos' l rule' st', length pos' < length pos -> rule' = rule ++ l -> st_ok st' -> extends st st' -> piece (symbol_ids st') l -> 
    answers (sequence_loop tokenize fuel name is_nested (length rule) (parse_space pos' is_nested) rule' st') (sequence_post pos st)) as Hitem.
  { intros pos' l rule' st' Hl -> Hst' He Hp. pose proof (parse_space_length pos' is_nested). apply Hgo; [lia|done|done|].
    apply building_app; [by eapply piece_mono|done]. }
  assert (forall pos' e st', length pos' < length pos -> st_ok st' -> extends st st' -> piece (symbol_ids st') [e] ->
    answers (sequence_loop tokenize fuel name is_nested (length (rule ++ [e]) - 1) (parse_space pos' is_nested) (rule ++ [e]) st') (sequence_post pos st)) as Hone.
  { intros pos' e st' Hl Hst' He Hp. replace (length (rule ++ [e]) - 1) with (length rule) by (rewrite length_app; simpl; lia). by apply (Hitem pos' [e]). }
  assert (forall pos' mn mx, length pos' < length pos ->
    answers (let! (rule0, st0) := Some (handle_repetitions name k mn mx rule st) in sequence_loop tokenize fuel name is_nested k pos' rule0 st0) (sequence_post pos st)) as Hrep.
  { intros pos' mn mx Hl. apply answers_call. intros [rule' st'] Hh. destruct (repetitions_ok _ _ _ _ _ _ _ _ Hname Hst Hb Hh) as (H1 & H2 & H3).
    by apply Hgo. }
  destruct pos as [|c s]; [done|]. cbn [length] in *. pose proof (parse_space_length s is_nested) as Hsp.
  case_bool_decide as C1.
  { eapply answers_bind; [apply (literal_ok (symbol_ids st))|].
    intros [pos' rule'] [Hl (l & -> & Hp)]. apply (Hitem pos' l); [lia|done|done|done|done]. }
  case_bool_decide as C2.
  { destruct (bool_decide (deref s = "^"%byte)).
    - pose proof (tail_length s). eapply answers_bind; [apply (class_ok (symbol_ids st)); by right|].
      intros [pos' rule'] [Hl (l & -> & Hp)]. apply (Hitem pos' l); [lia|done|done|done|done].
    - eapply answers_bind; [apply (class_ok (symbol_ids st)); by left|].
      intros [pos' rule'] [Hl (l & -> & Hp)]. apply (Hitem pos' l); [lia|done|done|done|done]. }
  destruct (bool_decide (c = "<"%byte) || bool_decide (c = "!"%byte)) eqn:C3.
  { destruct (bool_decide (c = "!"%byte)); (apply answers_call; intros [v p] Hp%parse_token_length; simpl in Hp; apply Hone; [lia|done|done|by apply piece_one]). }
  destruct (is_word_char c) eqn:C4.
  { apply answers_call. intros [nm p] (He & Hne & Hw)%parse_name_ok. assert (length p < S (length s)) as Hlp.
    { apply (f_equal length) in He. rewrite length_app in He. simpl in He. destruct nm; [done|]. simpl in He. lia. }
    destruct (get_symbol_id nm st) as [id st'] eqn:Hg. destruct (get_ok _ _ _ _ Hst (word_plain nm Hw) Hg) as (H1 & H2 & H3).
    apply Hone; [done|done|done|by apply (piece_ref _ _ nm)]. }
  clear C3 C4. case_bool_decide as C5.
  { destruct (generate_symbol_id name st) as [id st1] eqn:Hg. destruct (generate_ok _ _ _ _ Hst Hname Hg) as (H1 & H2 & H3).
    pose proof (parse_space_length s true) as Hs2. eapply answers_bind.
    { apply (alternates_with_ok _ fuel); [|lia|lia|done]. intros pos' rule' st' Hl Hst' Hp. apply IH; [done|done|by apply building_new]. }
    intros [pos' st'] (G1 & G2 & G3). destruct (negb _); [done|]. pose proof (tail_length pos'). apply Hone; [lia|done|by transitivity st1|].
    apply (piece_ref _ _ (symbol_key name id)). by eapply lookup_weaken. }
  case_bool_decide as C6; [apply Hone; [lia|done|done|by apply piece_one]|].
  case_bool_decide as C7; [apply Hrep; lia|]. case_bool_decide as C8; [apply Hrep; lia|]. case_bool_decide as C9; [apply Hrep; lia|].
  case_bool_decide as C10; [|simpl; split_and!; [lia|done|done|done]].
  apply answers_call. intros [[mn mx] p] Hp%parse_bounds_length. apply Hrep. lia.
Qed.
End Loop.

(** * The whole text *)

Section Text.
Context (tokenize : option (list byte -> Z * Z)).

Lemma parse_rule_ok src st : st_ok st ->
  answers (parse_rule tokenize (S (length src)) src st) (fun '(pos', st') => length pos' < length src /\ st_ok st' /\ extends st st').
Proof.
  intros Hst. unfold parse_rule. apply answers_call. intros [name e] (He & Hne & Hw)%parse_name_ok.
  assert (length e < length src) as Hle by (subst src; rewrite length_app; destruct name; [done|simpl; lia]).
  pose proof (parse_space_length e false) as H0. destruct (get_symbol_id name st) as [id st1] eqn:Hg.
  destruct (get_ok _ _ _ _ Hst (word_plain name Hw) Hg) as (H1 & H2 & H3). destruct (negb _); [done|]. set (pos := parse_space e false) in *.
  pose proof (parse_space_length (drop 3 pos) true) as H4. rewrite length_drop in H4.
  eapply answers_bind.
  { unfold parse_alternates. apply (alternates_with_ok _ (S (length src))); [|lia|lia|done].
    intros pos' rule' st' Hl Hst' Hp. apply sequence_loop_ok; [by apply word_plain|done|done|by apply building_new]. }
  intros [p st'] (G1 & G2 & G3). apply (answers_bind _ _ (fun q => length q <= length p)).
  { pose proof (tail_length p). destruct (bool_decide (deref p = x0d)).
    - destruct (bool_decide _); simpl; [rewrite length_drop|]; lia.
    - destruct (bool_decide (deref p = x0a)); [simpl; lia|]. destruct (bool_decide (p = [])); [simpl; lia|done]. }
  intros q Hq. pose proof (parse_space_length q true). simpl. split_and!; [lia|done|by transitivity st1].
Qed.

Lemma rules_loop_ok fuel : forall pos st, length pos <= fuel -> st_ok st -> answers (rules_loop tokenize fuel pos st) st_ok.
Proof.
  induction fuel as [|fuel IH]; intros [|c pos] st Hl Hst; simpl in Hl; try done; [lia|]. cbn [rules_loop].
  eapply answers_bind; [by apply parse_rule_ok|]. intros [p st'] (H1 & H2 & H3). apply IH; [simpl in H1; lia|done].
Qed.

Lemma parser0_ok : st_ok parser0.
Proof. split; [|constructor]. constructor; intros *; cbn; by rewrite ?lookup_empty. Qed.

Lemma has_name_true (ids : names) k v : ids !! k = Some v -> has_name ids v = true.
Proof.
  intros Hk. unfold has_name. apply existsb_exists. exists (k, v). split; [|by apply bool_decide_eq_true].
  by apply list_elem_of_In, elem_of_map_to_list.
Qed.

Lemma validate_ok ids rules l : validate ids rules l = Ok tt -> forall rule, rule ∈ l -> rule <> [] /\
  forall e, e ∈ rule -> el_type e = LLAMA_GRETYPE_RULE_REF -> (exists k, ids !! k = Some (el_value e)) -> Z.to_nat (el_value e) < length rules.
Proof.
  induction l as [|r l IH]; simpl; [by intros _ rule ?%elem_of_nil|]. case_bool_decide as Hr; [done|].
  destruct (existsb _ r) eqn:Hex; [done|]. intros Hv rule [->|Hin]%elem_of_cons; [|by apply IH]. split; [done|].
  intros e He Ht (k & Hk). destruct (decide (Z.to_nat (el_value e) < length rules)) as [|Hge]; [done|]. exfalso.
  assert (existsb (fun e => dangling rules e && has_name ids (el_value e)) r = true); [|congruence].
  apply existsb_exists. exists e. split; [by apply list_elem_of_In|]. rewrite (has_name_true ids k) by done. unfold dangling, has_type.
  rewrite bool_decide_true by done. by rewrite lookup_ge_None_2 by lia.
Qed.

Lemma shape_piece n l : forall r a x, run r a l = Some x ->
  (forall e, e ∈ l -> el_type e = LLAMA_GRETYPE_RULE_REF -> (0 <= el_value e < Z.of_nat n)%Z) ->
  shape n (l ++ [mkElem LLAMA_GRETYPE_END 0]) r a = true.
Proof.
  induction l as [|e l IH]; intros r a x Hrun Href; [done|]. cbn [app shape]. cbn [run] in Hrun.
  assert (forall r a, run r a l = Some x -> shape n (l ++ [mkElem LLAMA_GRETYPE_END 0]) r a = true) as Hl.
  { intros r' a' H. apply (IH r' a' x H). intros e' He'. apply Href. by right. }
  destruct (el_type e) eqn:Ht; [done|by apply Hl| |by apply Hl|by apply Hl| | |by apply Hl..].
  - rewrite bool_decide_true by (apply Href; [by left|done]). by apply Hl.
  - destruct r; [by apply Hl|done].
  - destruct a; [by apply Hl|done].
Qed.

(** The rules of an accepted parser. *)
Lemma accepted_rules st : st_ok st -> validate (symbol_ids st) (p_rules st) (p_rules st) = Ok tt ->
  wf_rules (p_rules st) /\ Forall (fun rule => exists l, rule = l ++ [mkElem LLAMA_GRETYPE_END 0] /\ okl l) (p_rules st).
Proof.
  intros [Hids Hr] Hv. pose proof (validate_ok _ _ _ Hv) as Hval. rewrite Forall_forall in Hr. split.
  - intros r rule Hrule. apply list_elem_of_lookup_2 in Hrule. destruct (Hval rule Hrule) as [Hne Href].
    destruct (Hr rule Hrule) as [->|(l & -> & [[x Hx] Hrefs])]; [done|]. apply (shape_piece _ _ _ _ x Hx). intros e He Ht.
    unfold refs_in in Hrefs; rewrite Forall_forall in Hrefs. pose proof (Hrefs e He Ht) as [k Hk]. split; [by eapply ids_nonneg|].
    assert (Z.to_nat (el_value e) < length (p_rules st)); [|lia]. apply Href; [set_solver|done|by exists k].
  - apply Forall_forall. intros rule Hrule. destruct (Hval rule Hrule) as [Hne _].
    destruct (Hr rule Hrule) as [->|(l & -> & [Hl _])]; [done|]. by exists l.
Qed.

(** The parser's result. *)
Lemma parse_answer src : exists r, parse tokenize src = Some r /\
  forall p, r = Ok p -> ids_ok (symbol_ids p) /\ wf_rules (p_rules p) /\
    Forall (fun rule => exists l, rule = l ++ [mkElem LLAMA_GRETYPE_END 0] /\ okl l) (p_rules p).
Proof.
  assert (answers (parse tokenize src) (fun p => ids_ok (symbol_ids p) /\ wf_rules (p_rules p) /\
    Forall (fun rule => exists l, rule = l ++ [mkElem LLAMA_GRETYPE_END 0] /\ okl l) (p_rules p))) as Ha.
  { unfold parse. eapply answers_bind; [apply rules_loop_ok; [done|apply parser0_ok]|]. intros st Hst. apply answers_call.
    intros [] Hv. simpl. split; [apply Hst|]. by apply accepted_rules. }
  destruct (parse tokenize src) as [[p|e]|]; simpl in Ha; [|by eexists|done]. exists (Ok p). split; [done|]. by intros ? [= <-].
Qed.

(** C17: the grammar parser is total: on every text it returns tables or one of
    its exceptions, never running out of the fuel the text's length provides.
    The rules of an accepted text are well-formed: range bounds follow characters,
    each rule ends with its only end marker, and every reference is to an existing
    rule.  Up to 2^32 symbols, distinct names have distinct ids, smaller than the
    number of symbols. *)
Theorem parse_well_formed (src : list byte) : exists r, parse tokenize src = Some r /\
  match r with
  | Err _ => True
  | Ok p => wf_rules (p_rules p) /\
      ((Z.of_nat (size (symbol_ids p)) <= 2 ^ 32)%Z -> forall k k' v v', symbol_ids p !! k = Some v -> symbol_ids p !! k' = Some v' ->
        (0 <= v < Z.of_nat (size (symbol_ids p)))%Z /\ (v = v' -> k = k'))
  end.
Proof.
  destruct (parse_answer src) as (r & Hr & Hp). exists r. split; [done|]. destruct r as [p|e]; [|done].
  destruct (Hp p eq_refl) as (Hids & Hwf & _). split; [done|]. intros Hle k k' v v' Hk Hk'. split.
  - split; [by eapply ids_nonneg|by eapply ids_bound].
  - intros ->. by eapply ids_inj.
Qed.
End Text.

(** * From the text to the machine *)

Lemma copy_rule_id l : forall r a x, run r a l = Some x -> copy_rule (l ++ [mkElem LLAMA_GRETYPE_END 0]) = Some (l ++ [mkElem LLAMA_GRETYPE_END 0]).
Proof.
  induction l as [|e l IH]; intros r a x Hrun; [done|]. cbn [app copy_rule]. cbn [run] in Hrun.
  assert (has_type LLAMA_GRETYPE_END e = false /\ exists r a, run r a l = Some x) as [He (r' & a' & Hl)].
  { unfold has_type. destruct (el_type e); try done; (destruct r, a; try done; (split; [done|by do 2 eexists])). }
  rewrite He. by rewrite (IH r' a' x Hl).
Qed.

Lemma copy_rules_id rules : Forall (fun rule => exists l, rule = l ++ [mkElem LLAMA_GRETYPE_END 0] /\ okl l) rules -> mapM copy_rule rules = Some rules.
Proof.
  intros H. apply mapM_Some. induction H as [|rule rules (l & -> & [x Hl]) _ IH]; constructor; [by apply (copy_rule_id l false false x)|done].
Qed.

(** C19: a grammar text that parses, defines the start symbol and passes the
    left-recursion check gives a grammar (when the rules that can be empty have
    an empty alternate): the initialisation succeeds, with the rules of the text
    and stacks that generate exactly the language of the start symbol. *)
Theorem text_grammar_language {P} tokenize (src root : list byte) lazy tokens (patterns : list P) p start :
  parse tokenize src = Some (Ok p) -> is_Some (symbol_ids p !! list_byte_of_string "root") -> symbol_ids p !! root = Some start ->
  Z.to_nat start < length (p_rules p) -> left_recursive (p_rules p) = Some false ->
  (forall r, nullable (p_rules p) r -> [] ∈ bnf_rules (p_rules p) r) ->
  exists F0 g, (forall F, F0 <= F -> llama_grammar_init_text tokenize F src root lazy tokens patterns = Some (Ok g)) /\
    g_rules g = p_rules p /\ g_awaiting_trigger g = lazy /\ g_partial_utf8 g = mkPartial 0 0 /\ g_stacks g <> [] /\
    forall w, gen (bnf_rules (p_rules p)) [Ref (Z.to_nat start)] w <-> exists s, s ∈ g_stacks g /\ gen (bnf_rules (p_rules p)) (flat (p_rules p) s) w.
Proof.
  intros Hp [v Hv] Hs Hlt Hlr Hnull. destruct (parse_answer tokenize src) as (r & Hr & Hok). rewrite Hp in Hr. injection Hr as <-.
  destruct (Hok p eq_refl) as (_ & Hwf & Hends). pose proof (check_no_left_recursion _ Hwf Hlr Hnull) as Hn.
  destruct (initial_ok _ Hwf (Z.to_nat start) Hn Hlt) as (F0 & st & E & _ & Hne & HL).
  exists F0, (mkGrammar (p_rules p) st (mkPartial 0 0) lazy lazy [] [] tokens patterns). split_and!; try done.
  intros F HF. unfold llama_grammar_init_text. rewrite Hp. cbn [mbind option_bind]. rewrite bool_decide_false by (intros Hnil; rewrite Hnil in Hlt; simpl in Hlt; lia).
  rewrite Hv, Hs. unfold llama_grammar_init_impl. rewrite (copy_rules_id _ Hends). cbn [mbind option_bind]. rewrite Hlr. cbn [mbind option_bind].
  by rewrite (E F HF).
Qed.

(** * Examples *)

Definition text_lines (ls : list string) : list byte := concat ((fun s => list_byte_of_string s ++ [x0a]) <$> ls).

Definition word_text : list byte := text_lines ["root ::= word [0]"%string; "word ::= [a-z] word |  # letters"%string].
Definition word_parser : llama_grammar_parser :=
  mkParser (<[list_byte_of_string "word" := 1%Z]> (<[list_byte_of_string "root" := 0%Z]> ∅)) word_rules.

Lemma word_parse : parse None word_text = Some (Ok word_parser).
Proof. vm_compute. reflexivity. Qed.

Lemma text_grammar_language_witness : exists F0 g,
  (forall F, F0 <= F -> llama_grammar_init_text None F word_text (list_byte_of_string "root") false [] (@nil unit) = Some (Ok g)) /\
  g_rules g = word_rules.
Proof.
  destruct (text_grammar_language None word_text (list_byte_of_string "root") false [] (@nil unit) word_parser 0%Z word_parse) as (F0 & g & E & Hr & _).
  - exists 0%Z. vm_compute. reflexivity.
  - vm_compute. reflexivity.
  - vm_compute. lia.
  - exact word_check.
  - exact word_nullable.
  - exists F0, g. split; [exact E|exact Hr].
Defined.

(** A start symbol without a rule: the reference to it is dropped by the
    repetition, so the validation does not see it, and the machine starts outside
    of the rules. *)
Lemma undefined_root : exists p, parse None (text_lines ["a ::= root{0}"%string]) = Some (Ok p) /\
  length (p_rules p) = 1 /\ symbol_ids p !! list_byte_of_string "root" = Some 1%Z /\
  llama_grammar_init_text None 9 (text_lines ["a ::= root{0}"%string]) (list_byte_of_string "root") false [] (@nil unit) = None.
Proof. eexists. split; [vm_compute; reflexivity|]. vm_compute. tauto. Qed.

(** Bounds in the wrong order: the number of optional repetitions wraps around. *)
Lemma reversed_bounds : parse_bounds (list_byte_of_string "3,2}") false = Ok (3%Z, 2%Z, []) /\ u64_wrap (2 - 3) = UINT64_MAX.
Proof. vm_compute. tauto. Qed.

End GrammarText.
