(* ===== verification/GrammarRepeat.v ===== *)
(** Repetitions in grammar texts: the rules [handle_repetitions] synthesizes for
    [S{m,n}], [S*], [S+] and [S?] generate the repetitions of [S] within the
    bounds, and nothing else. *)

From S2P Require Import Bytes.
From S2P Require Import Utf8.
From S2P Require Import Grammar.
From S2P Require Import GrammarLang.
From S2P Require Import GrammarRun.
From S2P Require Import GrammarParse.
From S2P Require Import GrammarText.
Import Utf8.Utf8 Grammar.Grammar GrammarLang.GrammarLang GrammarRun.GrammarRun GrammarParse.GrammarParse GrammarText.GrammarText.

Module GrammarRepeat.

(** * Reading a piece of a rule *)

Definition inner (e : llama_grammar_element) : Prop := el_type e <> LLAMA_GRETYPE_END /\ el_type e <> LLAMA_GRETYPE_ALT.

(** The elements of an item: no alternates inside, and it starts an item. *)
Definition item (l : list llama_grammar_element) : Prop := Forall inner l /\ exists e l', l = e :: l' /\ starts e = true.

Definition syms_of (l : list llama_grammar_element) : list symbol := rd_syms (read l).

Definition closed (l : list llama_grammar_element) : Prop := rd_upper (read l) = None /\ rd_ranges (read l) = [].

Lemma closed_nil : closed [].
Proof. done. Qed.
Lemma closed_start e l : starts e = true -> closed (e :: l).
Proof. intros H. by apply read_start. Qed.

#[local] Hint Resolve closed_nil closed_start : core.

Lemma read_app l1 l2 : Forall inner l1 -> closed l2 ->
  read (l1 ++ l2) = mkReading (rd_upper (read l1)) (rd_ranges (read l1)) (rd_syms (read l1) ++ rd_syms (read l2)) (rd_alts (read l2)).
Proof.
  intros H1 [Hu Hr]. induction H1 as [|e l1 [He Ha] _ IH]; simpl.
  - destruct (read l2). simpl in *. by subst.
  - rewrite IH. unfold read_elem. destruct (el_type e); done.
Qed.

Lemma item_closed l l2 : item l -> closed (l ++ l2).
Proof. intros (_ & e & l' & -> & He). by apply closed_start. Qed.

Lemma syms_app l1 l2 : Forall inner l1 -> closed l2 -> syms_of (l1 ++ l2) = syms_of l1 ++ syms_of l2.
Proof. intros H1 H2. unfold syms_of. by rewrite read_app. Qed.

Lemma inner_repeat n l : Forall inner l -> Forall inner (concat (replicate n l)).
Proof. intros H. by apply Forall_concat, Forall_replicate. Qed.

Lemma closed_repeat n l l2 : item l -> closed l2 -> closed (concat (replicate n l) ++ l2).
Proof. intros H1 H2. destruct n; [done|]. simpl. rewrite <- app_assoc. by apply item_closed. Qed.

Lemma syms_repeat n l l2 : item l -> closed l2 -> syms_of (concat (replicate n l) ++ l2) = concat (replicate n (syms_of l)) ++ syms_of l2.
Proof.
  intros H1 H2. induction n as [|n IH]; [done|]. simpl. rewrite <- !app_assoc, syms_app, IH; [done|apply H1|by apply closed_repeat].
Qed.

(** The alternates of a synthesized rule. *)
Definition target_syms (target : option Z) : list symbol := match target with Some id => [Ref (Z.to_nat id)] | None => [] end.

Lemma rec_rule_bnf prev target : item prev -> bnf (rec_rule prev target) = [syms_of prev ++ target_syms target; []].
Proof.
  intros [H _]. unfold bnf, rec_rule. rewrite read_app; [by destruct target|done|]. by destruct target.
Qed.

(** * The synthesized rules *)

Definition target_of (no_max : bool) (last : option Z) (s i : nat) : option Z :=
  if no_max then Some (Z.of_nat (s + i)) else match i with 0 => last | S i => Some (Z.of_nat (s + i)) end.

Lemma add_rule_lookup id rule st j : p_rules (add_rule (Z.of_nat id) rule st) !! j =
  if bool_decide (j = id) then Some rule else if bool_decide (j < length (p_rules st)) then p_rules st !! j
  else if bool_decide (j < id) then Some [] else None.
Proof.
  unfold add_rule. cbn [p_rules]. rewrite Nat2Z.id. case_bool_decide as Hj; [subst; apply list_lookup_insert_eq; rewrite length_app, length_replicate; lia|].
  rewrite list_lookup_insert_ne by done. case_bool_decide as Hl; [by rewrite lookup_app_l|]. rewrite lookup_app_r by lia.
  case_bool_decide; [by rewrite lookup_replicate_2 by lia|]. apply lookup_ge_None_2. rewrite length_replicate. lia.
Qed.

Lemma generate_size name st : ids_ok (symbol_ids st) -> plain name -> (Z.of_nat (size (symbol_ids st)) < 2 ^ 32)%Z ->
  exists st1, generate_symbol_id name st = (Z.of_nat (size (symbol_ids st)), st1) /\ ids_ok (symbol_ids st1) /\
    size (symbol_ids st1) = S (size (symbol_ids st)) /\ p_rules st1 = p_rules st.
Proof.
  intros Hids Hn Hlt. destruct (generate_symbol_id name st) as [id st1] eqn:Hg. pose proof Hg as Hg'.
  destruct (generate_symbol_ok _ _ _ _ Hids Hn Hg) as (H1 & _ & _ & H4 & Hid). assert (id = Z.of_nat (size (symbol_ids st))) as Hid'.
  { rewrite Hid. unfold u32_wrap. apply Z.mod_small. change (2 ^ 32)%Z with 4294967296%Z in Hlt. lia. }
  exists st1. rewrite <- Hid'. split_and!; [done|done| |done].
  unfold generate_symbol_id in Hg'. rewrite <- Hid in Hg'. injection Hg' as <-. cbn. apply map_size_insert_None.
  destruct (symbol_ids st !! symbol_key name id) as [v|] eqn:Hk; [|done]. exfalso.
  assert (v = id) as ->.
  { destruct (ids_keys _ Hids _ _ Hk) as [Hpl|(b & Hb & He)]; [by apply key_not_plain in Hpl|].
    symmetry. eapply symbol_key_inj; [exact Hn|exact Hb|lia|exact (ids_nonneg _ Hids _ _ Hk)|done]. }
  pose proof (ids_bound _ Hids ltac:(lia) _ _ Hk). lia.
Qed.

Lemma rec_loop_spec n name prev no_max : plain name -> forall last st last' st', ids_ok (symbol_ids st) ->
  (Z.of_nat (size (symbol_ids st) + n) <= 2 ^ 32)%Z -> rec_loop n name prev no_max last st = (last', st') ->
  let s := size (symbol_ids st) in
  (forall j r, j < s -> p_rules st !! j = Some r -> p_rules st' !! j = Some r) /\
  (forall i, i < n -> p_rules st' !! (s + i) = Some (rec_rule prev (target_of no_max last s i))) /\
  last' = match n with 0 => last | S n => Some (Z.of_nat (s + n)) end /\ size (symbol_ids st') = s + n.
Proof.
  intros Hname. induction n as [|n IH]; intros last st last' st' Hids Hle; cbn [rec_loop]; [intros [= <- <-]; split_and!; [done|lia|done|lia]|].
  destruct (generate_size name st Hids Hname) as (st1 & -> & Hids1 & Hs1 & Hr1); [lia|]. intros Hrec. simpl. set (s := size (symbol_ids st)) in *.
  set (rule := rec_rule prev (if no_max then Some (Z.of_nat s) else last)) in *.
  pose proof (add_rule_lookup s rule st1) as Hlk. apply IH in Hrec; [|done|cbn; rewrite Hs1; lia]. cbn in Hrec. rewrite Hs1 in Hrec.
  destruct Hrec as (H1 & H2 & H3 & H4). split_and!.
  - intros j r Hj Hjr. apply H1; [lia|]. rewrite Hlk, bool_decide_false by lia. rewrite Hr1. rewrite bool_decide_true; [done|]. by eapply lookup_lt_Some.
  - intros [|i] Hi.
    + rewrite Nat.add_0_r. apply H1; [lia|]. rewrite Hlk, bool_decide_true by done. unfold rule, target_of. rewrite Nat.add_0_r. by destruct no_max.
    + replace (s + S i) with (S s + i) by lia. rewrite H2 by lia. unfold target_of. f_equal. f_equal.
      destruct no_max; [f_equal; lia|]. destruct i; f_equal; lia.
  - rewrite H3. destruct n; f_equal; lia.
  - lia.
Qed.

(** * What they generate *)

Section Language.
Context (G : nat -> list (list symbol)) (S0 : list symbol).

Definition times (n : nat) : list symbol := concat (replicate n S0).

Lemma times_add m n : times (m + n) = times m ++ times n.
Proof. unfold times. by rewrite replicate_add, concat_app. Qed.

(** [r ::= S r | ]. *)
Lemma star_gen r : G r = [S0 ++ [Ref r]; []] -> forall w, gen G [Ref r] w <-> exists n, gen G (times n) w.
Proof.
  intros HG w. split.
  - assert (forall l w, gen G l w -> forall l1, l = l1 ++ [Ref r] -> exists n, gen G (l1 ++ times n) w) as H.
    { clear w. induction 1 as [|positive rs l c w Hc Hg IH|q alt l w1 w2 Hin Ha IHa Hl IHl]; intros l1 He.
      - by apply app_cons_not_nil in He.
      - destruct l1 as [|x l1]; [done|]. injection He as <- ->. destruct (IH l1 eq_refl) as [n Hn]. exists n. by constructor.
      - destruct l1 as [|x l1].
        + injection He as -> ->. inversion Hl; subst. rewrite app_nil_r. rewrite HG in Hin.
          apply elem_of_cons in Hin as [->|Hin]; [|apply list_elem_of_singleton in Hin as ->].
          * destruct (IHa S0 eq_refl) as [n Hn]. by exists (S n).
          * inversion Ha; subst. exists 0. constructor.
        + injection He as <- ->. destruct (IHl l1 eq_refl) as [n Hn]. exists n. simpl. by apply (gen_ref G q alt). }
    intros Hg. destruct (H _ _ Hg [] eq_refl) as [n Hn]. by exists n.
  - intros [n Hn]. revert w Hn. induction n as [|n IH]; intros w Hn.
    + apply gen_ref_inv. exists []. rewrite HG. split; [right; by left|by rewrite app_nil_r].
    + simpl in Hn. unfold times in Hn. simpl in Hn. apply gen_app in Hn as (w1 & w2 & -> & H1 & H2). apply gen_ref_inv. exists (S0 ++ [Ref r]).
      rewrite HG. split; [by left|]. rewrite app_nil_r. apply gen_app. exists w1, w2. split_and!; [done|done|by apply IH].
Qed.

(** [r0 ::= S | ], [r1 ::= S r0 | ], ... *)
Lemma optional_gen (r : nat -> nat) n : (forall i, i < n -> G (r i) = [S0 ++ match i with 0 => [] | S i => [Ref (r i)] end; []]) ->
  forall i, i < n -> forall w, gen G [Ref (r i)] w <-> exists m, m <= S i /\ gen G (times m) w.
Proof.
  intros HG. induction i as [|i IH]; intros Hi w; rewrite gen_ref_inv, HG by done.
  - setoid_rewrite elem_of_cons. setoid_rewrite list_elem_of_singleton. split.
    + intros (alt & [-> | ->] & Hg); [exists 1; split; [lia|unfold times; simpl; by rewrite !app_nil_r in *]|exists 0; split; [lia|done]].
    + intros (m & Hm & Hg). destruct m as [|[|m]]; [| |lia]; [exists []; split; [by right|done]|].
      exists (S0 ++ []). split; [by left|]. unfold times in Hg. simpl in Hg. by rewrite !app_nil_r in *.
  - setoid_rewrite elem_of_cons. setoid_rewrite list_elem_of_singleton. split.
    + intros (alt & [-> | ->] & Hg); [|exists 0; split; [lia|done]]. rewrite app_nil_r in Hg. apply gen_app in Hg as (w1 & w2 & -> & H1 & H2).
      apply IH in H2 as (m & Hm & Hg2); [|lia]. exists (S m). split; [lia|]. unfold times. simpl. apply gen_app. by exists w1, w2.
    + intros (m & Hm & Hg). destruct m as [|m]; [exists []; split; [by right|done]|]. exists (S0 ++ [Ref (r i)]). split; [by left|].
      rewrite app_nil_r. unfold times in Hg. simpl in Hg. apply gen_app in Hg as (w1 & w2 & -> & H1 & H2). apply gen_app. exists w1, w2.
      split_and!; [done|done|]. apply IH; [lia|]. exists m. split; [lia|done].
Qed.
End Language.

(** The reference that ends a repetition. *)
Lemma ref_gen R S0 (no_max : bool) s n_opt last : (no_max = true -> n_opt = 1) ->
  last = match n_opt with 0 => None | S n => Some (Z.of_nat (s + n)) end ->
  (forall i, i < n_opt -> bnf_rules R (s + i) = [S0 ++ target_syms (target_of no_max None s i); []]) ->
  forall w, gen (bnf_rules R) (syms_of (match last with Some id => [mkElem LLAMA_GRETYPE_RULE_REF id] | None => [] end)) w <->
    exists m, (no_max = true \/ m <= n_opt) /\ gen (bnf_rules R) (times S0 m) w.
Proof.
  intros Hone -> HG w. destruct n_opt as [|n].
  { split; [intros Hg; exists 0; split; [by right|done]|]. intros (m & [?|?] & Hg); [by specialize (Hone H)|]. by replace m with 0 in Hg by lia. }
  unfold syms_of. cbn [read foldr read_elem rd_syms el_type el_value reading0]. rewrite Nat2Z.id. destruct no_max.
  - injection (Hone eq_refl) as ->. rewrite (star_gen _ S0); [|by rewrite HG by lia; unfold target_of, target_syms; rewrite Nat2Z.id].
    split; [intros [m Hm]; exists m; split; [by left|done]|intros (m & _ & Hm); by exists m].
  - rewrite (optional_gen _ S0 (fun i => s + i) (S n)); [| |lia].
    + split; intros (m & Hm & Hg); exists m; (split; [|done]); [by right|by destruct Hm].
    + intros i Hi. rewrite HG by done. unfold target_of, target_syms. destruct i; [done|]. by rewrite Nat2Z.id.
Qed.

(** C18: repetitions mean what they say.  Applied to the last item [S] of a rule
    with bounds [m] and [n] in order (or without upper bound), [handle_repetitions]
    keeps the rule before [S] and replaces [S] by elements that, in any grammar that
    contains the rules it synthesized, generate exactly the concatenations of at
    least [m] and at most [n] texts of [S]. *)
Theorem repetition_language name k mn mx rule st rule' st' (R : llama_grammar_rules) :
  ids_ok (symbol_ids st) -> plain name -> k <= length rule -> item (drop k rule) ->
  (0 <= mn <= MAX_REPETITION_THRESHOLD)%Z -> mx = UINT64_MAX \/ (mn <= mx <= MAX_REPETITION_THRESHOLD)%Z ->
  (Z.of_nat (size (symbol_ids st)) + MAX_REPETITION_THRESHOLD < 2 ^ 32)%Z ->
  handle_repetitions name k mn mx rule st = Ok (rule', st') ->
  (forall id, size (symbol_ids st) <= id < size (symbol_ids st') -> R !! id = p_rules st' !! id) ->
  exists tail, rule' = take k rule ++ tail /\ forall w,
    gen (bnf_rules R) (syms_of tail) w <->
    exists n, (mn <= Z.of_nat n)%Z /\ (mx = UINT64_MAX \/ Z.of_nat n <= mx)%Z /\ gen (bnf_rules R) (times (syms_of (drop k rule)) n) w.
Proof.
  intros Hids Hname Hk Hitem Hmn Hmx Hsize. unfold handle_repetitions. set (prev := drop k rule) in *. set (s := size (symbol_ids st)) in *.
  case_bool_decide as Hlen; [done|]. set (no_max := bool_decide (mx = UINT64_MAX)).
  set (n_opt := Z.to_nat (if no_max then 1%Z else u64_wrap (mx - mn))).
  destruct (rec_loop n_opt name prev no_max None st) as [last st1] eqn:Hrec. intros [= <- <-] HR.
  assert (n_opt = if no_max then 1 else Z.to_nat (mx - mn)) as Hn.
  { unfold n_opt, no_max. case_bool_decide; [done|]. destruct Hmx as [?|Hmx]; [done|]. unfold MAX_REPETITION_THRESHOLD in *. unfold u64_wrap. rewrite Z.mod_small by lia. done. }
  assert (n_opt <= Z.to_nat MAX_REPETITION_THRESHOLD) as Hn2.
  { rewrite Hn. unfold no_max, MAX_REPETITION_THRESHOLD in *. case_bool_decide; [lia|]. destruct Hmx as [?|?]; [done|lia]. }
  apply rec_loop_spec in Hrec as (_ & Hrules & Hlast & Hsz); [|done|done|fold s; unfold MAX_REPETITION_THRESHOLD in *; lia]. fold s in Hrules, Hlast, Hsz.
  set (ref := match last with Some id => [mkElem LLAMA_GRETYPE_RULE_REF id] | None => [] end).
  exists (concat (replicate (Z.to_nat mn) prev) ++ ref). split.
  { case_bool_decide as Hz; [by rewrite Hz|]. rewrite <- (take_drop k rule) at 1. fold prev. rewrite <- !app_assoc. f_equal. rewrite app_assoc. f_equal.
    replace (Z.to_nat mn) with (S (Z.to_nat (mn - 1))) by lia. done. }
  assert (closed ref) as Hcl by (unfold ref; by destruct last). intros w. rewrite syms_repeat by done. fold (times (syms_of prev) (Z.to_nat mn)).
  assert (forall i, i < n_opt -> bnf_rules R (s + i) = [syms_of prev ++ target_syms (target_of no_max None s i); []]) as HG.
  { intros i Hi. unfold bnf_rules. rewrite HR by lia. rewrite Hrules by done. by apply rec_rule_bnf. }
  assert (forall w, gen (bnf_rules R) (syms_of ref) w <-> exists m, (no_max = true \/ m <= n_opt) /\ gen (bnf_rules R) (times (syms_of prev) m) w) as Href.
  { apply (ref_gen _ _ no_max s n_opt last); [by destruct no_max|done|done]. }
  rewrite gen_app. split.
  - intros (w1 & w2 & -> & H1 & (m & Hm & H2)%Href). exists (Z.to_nat mn + m). split_and!; [lia| |rewrite times_add; apply gen_app; by exists w1, w2].
    destruct Hmx as [?|Hmx]; [by left|]. destruct Hm as [Hm|Hm]; [left; by apply bool_decide_eq_true in Hm|]. right.
    rewrite Hn in Hm. unfold no_max, MAX_REPETITION_THRESHOLD, UINT64_MAX in *. rewrite bool_decide_false in Hm by lia. lia.
  - intros (n & Hlo & Hhi & Hg). replace n with (Z.to_nat mn + (n - Z.to_nat mn)) in Hg by lia. rewrite times_add in Hg. apply gen_app in Hg as (w1 & w2 & -> & H1 & H2).
    exists w1, w2. split_and!; [done|done|]. apply Href. exists (n - Z.to_nat mn). split; [|done].
    unfold no_max in *. destruct (decide (mx = UINT64_MAX)) as [Hx|Hx]; [left; by apply bool_decide_eq_true|]. right.
    rewrite Hn, bool_decide_false by done. destruct Hhi as [?|?]; [done|]. lia.
Qed.

(** [a{1,2}] in a rule that starts with another character: a character and a
    reference to the rule [x_0 ::= a | ]. *)
Definition two_chars : llama_grammar_rule := [mkElem LLAMA_GRETYPE_CHAR 98; mkElem LLAMA_GRETYPE_CHAR 97].
Definition x_name : list byte := ["x"%byte].
Definition x_rules : llama_grammar_rules := [[mkElem LLAMA_GRETYPE_CHAR 97; mkElem LLAMA_GRETYPE_ALT 0; mkElem LLAMA_GRETYPE_END 0]].
Definition x_parser : llama_grammar_parser := mkParser (<[symbol_key x_name 0 := 0%Z]> ∅) x_rules.

Lemma repetition_language_witness :
  handle_repetitions x_name 1 1 2 two_chars parser0 = Ok (two_chars ++ [mkElem LLAMA_GRETYPE_RULE_REF 0], x_parser) /\
  exists tail, two_chars ++ [mkElem LLAMA_GRETYPE_RULE_REF 0] = take 1 two_chars ++ tail /\
    forall w, gen (bnf_rules x_rules) (syms_of tail) w <->
      exists n, (1 <= Z.of_nat n)%Z /\ (2 = UINT64_MAX \/ Z.of_nat n <= 2)%Z /\ gen (bnf_rules x_rules) (times (syms_of (drop 1 two_chars)) n) w.
Proof.
  assert (handle_repetitions x_name 1 1 2 two_chars parser0 = Ok (two_chars ++ [mkElem LLAMA_GRETYPE_RULE_REF 0], x_parser)) as H
    by (vm_compute; reflexivity).
  split; [exact H|]. apply (repetition_language x_name 1 1%Z 2%Z two_chars parser0 _ x_parser x_rules).
  - apply parser0_ok.
  - unfold plain, x_name. set_solver.
  - simpl. lia.
  - split; [repeat constructor; discriminate|]. by do 2 eexists.
  - unfold MAX_REPETITION_THRESHOLD. lia.
  - right. unfold MAX_REPETITION_THRESHOLD. lia.
  - vm_compute. reflexivity.
  - exact H.
  - intros id _. reflexivity.
Defined.


End GrammarRepeat.
