(* ===== verification/Vocab.v ===== *)
(** The vocabulary of a model and its use in both directions:
    [llama_cpp_repo/src/llama-vocab.cpp].  This file holds the data, the loop
    that loads it, the look-ups, [token_to_piece] and [detokenize].  An
    exception is a [Throw], an abort or an access out of range is [Undefined]. *)

From S2P Require Export Bytes.
From S2P Require Import Utf8.
Import Utf8.Utf8.

Module Vocab.

Inductive tok_error := OutOfRange | InvalidArgument | RuntimeError.

#[local] Abbreviation outcome := (Prelude.outcome tok_error).

(** [v.at(i)]: the index becomes a [size_t], a negative one is too large. *)
Definition at_ {A} (i : Z) (l : list A) : outcome A :=
  if bool_decide (0 <= i)%Z then match l !! Z.to_nat i with Some x => Done x | None => Throw OutOfRange end else Throw OutOfRange.

(** [v[i]]. *)
Definition index {A} (i : Z) (l : list A) : outcome A :=
  if bool_decide (0 <= i)%Z then of_option (l !! Z.to_nat i) else Undefined.

Definition find_at {K A} `{Countable K} (k : K) (m : gmap K A) : outcome A := match m !! k with Some x => Done x | None => Throw OutOfRange end.

(** * Strings *)

Definition starts (pat s : list byte) : bool := bool_decide (take (length pat) s = pat).

Fixpoint find_sub (pat s : list byte) : option nat :=
  if starts pat s then Some 0 else match s with [] => None | _ :: s => S <$> find_sub pat s end.

(** [s.find(pat, pos)]. *)
Definition str_find (s pat : list byte) (from : nat) : option nat :=
  if bool_decide (from <= length s) then Nat.add from <$> find_sub pat (drop from s) else None.

Fixpoint replace_loop (fuel : nat) (s search replace : list byte) (last_pos : nat) (builder : list byte) : option (list byte) :=
  match str_find s search last_pos with
  | None => Some (builder ++ drop last_pos s)
  | Some p =>
      match fuel with
      | 0 => None
      | S fuel => replace_loop fuel s search replace (p + length search) (builder ++ take (p - last_pos) (drop last_pos s) ++ replace)
      end
  end.

Definition replace_all (s search replace : list byte) : option (list byte) :=
  if bool_decide (search = []) then Some s else replace_loop (length s) s search replace 0 [].

(** U+2581, and the space it stands for. *)
Definition escaped_space : list byte := [xe2; x96; x81].
Definition space : list byte := [x20].

Definition llama_escape_whitespace (text : list byte) : option (list byte) := replace_all text space escaped_space.
Definition llama_unescape_whitespace (word : list byte) : option (list byte) := replace_all word escaped_space space.

(** * Tokens *)

Inductive llama_vocab_type := TYPE_NONE | SPM | BPE | WPM | UGM | RWKV | PLAMO2.

#[global] Instance vocab_type_eq_dec : EqDecision llama_vocab_type.
Proof. solve_decision. Defined.

Definition LLAMA_TOKEN_NULL : Z := (-1)%Z.

Definition ATTR_UNKNOWN : Z := Z.shiftl 1 0.
Definition ATTR_UNUSED : Z := Z.shiftl 1 1.
Definition ATTR_NORMAL : Z := Z.shiftl 1 2.
Definition ATTR_CONTROL : Z := Z.shiftl 1 3.
Definition ATTR_USER_DEFINED : Z := Z.shiftl 1 4.
Definition ATTR_BYTE : Z := Z.shiftl 1 5.
Definition ATTR_LSTRIP : Z := Z.shiftl 1 7.
Definition ATTR_RSTRIP : Z := Z.shiftl 1 8.

Section Vocab.
Context `{FO : FloatOps}.

Record token_data := mkToken { text : list byte; score : float; attr : Z }.

Record llama_vocab := mkVocab {
  type                 : llama_vocab_type;
  max_token_len        : Z;
  special_bos_id       : Z;
  special_eos_id       : Z;
  special_unk_id       : Z;
  special_sep_id       : Z;
  add_space_prefix     : bool;
  add_bos              : bool;
  add_eos              : bool;
  ignore_merges        : bool;
  clean_spaces         : bool;
  remove_extra_whitespaces   : bool;
  escape_whitespaces         : bool;
  treat_whitespace_as_suffix : bool;
  token_to_id          : gmap (list byte) Z;
  id_to_token          : list token_data;
  cache_special_tokens : list Z;
  cache_token_to_piece : list (list byte);
  bpe_ranks            : gmap (list byte * list byte) Z;
}.
Implicit Types (V : llama_vocab).

Definition get_type V : llama_vocab_type := type V.
Definition n_tokens V : Z := u32_wrap (Z.of_nat (length (id_to_token V))).

Definition has_attr (mask a : Z) : bool := negb (bool_decide (Z.land a mask = 0)%Z).

Definition is_attr (mask : Z) V (id : Z) : outcome bool :=
  _ ← must (bool_decide (type V <> TYPE_NONE));
  d ← index id (id_to_token V);
  Done (has_attr mask (attr d)).

Definition is_normal V (id : Z) : outcome bool := is_attr ATTR_NORMAL V id.
Definition is_unknown V (id : Z) : outcome bool := is_attr ATTR_UNKNOWN V id.
Definition is_control V (id : Z) : outcome bool := is_attr ATTR_CONTROL V id.
Definition is_byte V (id : Z) : outcome bool := is_attr ATTR_BYTE V id.
Definition is_user_defined V (id : Z) : outcome bool := is_attr ATTR_USER_DEFINED V id.
Definition is_unused V (id : Z) : outcome bool := is_attr ATTR_UNUSED V id.

Definition token_get_attr V (id : Z) : outcome Z :=
  _ ← must (bool_decide (type V <> TYPE_NONE));
  d ← at_ id (id_to_token V);
  Done (attr d).

Definition get_token_data V (id : Z) : outcome token_data :=
  _ ← must (bool_decide (type V <> TYPE_NONE));
  at_ id (id_to_token V).

Definition text_to_token V (t : list byte) : outcome Z :=
  _ ← must (bool_decide (type V <> TYPE_NONE));
  Done (default LLAMA_TOKEN_NULL (token_to_id V !! t)).

(** ** Bytes *)

Definition hex_digits : list byte := [x30; x31; x32; x33; x34; x35; x36; x37; x38; x39; x41; x42; x43; x44; x45; x46].

Definition hex (i : Z) : byte := default x00 (hex_digits !! Z.to_nat i).

(** "<0xHH>". *)
Definition byte_text (ch : byte) : list byte := [x3c; x30; x78; hex (Z.shiftr (u8 ch) 4); hex (Z.land (u8 ch) 15); x3e].

Definition byte_to_token V (ch : byte) : outcome Z :=
  _ ← must (bool_decide (type V <> TYPE_NONE));
  match type V with
  | SPM | UGM => match token_to_id V !! byte_text ch with Some t => Done t | None => find_at (c_str [ch]) (token_to_id V) end
  | WPM | BPE => match unicode_byte_to_utf8 ch with Some s => find_at s (token_to_id V) | None => Throw OutOfRange end
  | PLAMO2 => find_at (byte_text ch) (token_to_id V)
  | _ => Undefined
  end.

Definition hex_value (c : byte) : option Z :=
  let z := u8 c in
  if bool_decide (0x30 <= z <= 0x39)%Z then Some (z - 0x30)%Z
  else if bool_decide (0x41 <= z <= 0x46)%Z then Some (z - 0x37)%Z
  else if bool_decide (0x61 <= z <= 0x66)%Z then Some (z - 0x57)%Z
  else None.

Fixpoint strtol_digits (acc : Z) (s : list byte) : Z :=
  match s with
  | [] => acc
  | c :: s => match hex_value c with Some d => strtol_digits (acc * 16 + d) s | None => acc end
  end.

Definition is_space (c : byte) : bool := bool_decide (u8 c = 0x20)%Z || bool_decide (9 <= u8 c <= 13)%Z.

(** [strtol(s, NULL, 16)] of at most two characters: they leave no room for a
    digit after a prefix [0x]. *)
Fixpoint strtol16 (s : list byte) : Z :=
  match s with
  | [] => 0%Z
  | c :: s' =>
      if is_space c then strtol16 s'
      else if bool_decide (c = x2d) then (- strtol_digits 0 s')%Z
      else if bool_decide (c = x2b) then strtol_digits 0 s'
      else strtol_digits 0 s
  end.

Definition substr (s : list byte) (off len : nat) : outcome (list byte) :=
  if bool_decide (off <= length s) then Done (take len (drop off s)) else Throw OutOfRange.

Definition token_to_byte V (id : Z) : outcome byte :=
  _ ← must (bool_decide (type V <> TYPE_NONE));
  b ← is_byte V id;
  _ ← must b;
  d ← at_ id (id_to_token V);
  match type V with
  | SPM | UGM => buf ← substr (text d) 3 2; Done (to_char (strtol16 (c_str buf)))
  | _ => Undefined
  end.

(** ** Merges *)

Definition find_bpe_rank V (token_left token_right : list byte) : outcome Z :=
  _ ← must (bool_decide (x20 ∉ token_left));
  _ ← must (bool_decide (x0a ∉ token_left));
  _ ← must (bool_decide (x20 ∉ token_right));
  _ ← must (bool_decide (x0a ∉ token_right));
  Done (default (-1)%Z (bpe_ranks V !! (token_left, token_right))).

(** * Pieces *)

Definition format_02x (c : byte) : list byte :=
  let lower (d : Z) : byte := if bool_decide (d < 10)%Z then to_char (0x30 + d) else to_char (0x57 + d) in
  [lower (Z.shiftr (u8 c) 4); lower (Z.land (u8 c) 15)].

(** "[UNK_BYTE_0x". *)
Definition unk_byte : list byte := [x5b; x55; x4e; x4b; x5f; x42; x59; x54; x45; x5f; x30; x78].

Definition decode_cpt (t : list byte) (cpt : Z) (decoded_text : list byte) : outcome (list byte) :=
  match unicode_cpt_to_utf8 cpt with
  | Err _ => Throw InvalidArgument
  | Ok utf8 =>
      match unicode_utf8_to_byte utf8 with
      | Some b => Done (decoded_text ++ [b])
      | None => Done (decoded_text ++ unk_byte ++ concat (format_02x <$> utf8) ++ t ++ [x5d])
      end
  end.

Definition llama_decode_text `{BM : BuildMode} (t : list byte) : outcome (list byte) :=
  cpts ← of_option (unicode_cpts_from_utf8 t);
  foldO (decode_cpt t) cpts [].

(** The loop that skips up to [lstrip] leading spaces. *)
Fixpoint skip_spaces (lstrip : nat) (token : list byte) : list byte :=
  match lstrip, token with
  | S lstrip, c :: rest => if bool_decide (c = x20) then skip_spaces lstrip rest else token
  | _, _ => token
  end.

(** The result, and what is written to the buffer. *)
Definition try_copy (length_ lstrip : Z) (token : list byte) : outcome (Z * list byte) :=
  if bool_decide (INT32_MAX <= Z.of_nat (length token))%Z then Undefined else
  let token := skip_spaces (Z.to_nat lstrip) token in
  let size := Z.of_nat (length token) in
  if bool_decide (length_ < size)%Z then Done (- size, [])%Z else Done (size, token).

Definition attr_special : Z := Z.lor ATTR_UNKNOWN ATTR_CONTROL.

(** The RWKV and PLaMo-2 branches are left out: their vocabularies are not
    modelled. *)
Definition token_to_piece `{BM : BuildMode} V (token length_ lstrip : Z) (special : bool) : outcome (Z * list byte) :=
  a ← token_get_attr V token;
  if negb special && has_attr attr_special a then Done (0%Z, []) else
  if bool_decide (cache_token_to_piece V <> []) then result ← at_ token (cache_token_to_piece V); try_copy length_ lstrip result else
  if bool_decide (0 <= token < Z.of_nat (length (id_to_token V)))%Z then
    d ← index token (id_to_token V);
    let token_text := text d in
    match type V with
    | WPM | SPM | UGM =>
        if has_attr (Z.lor attr_special ATTR_USER_DEFINED) a then try_copy length_ lstrip token_text
        else if has_attr ATTR_NORMAL a then result ← of_option (llama_unescape_whitespace token_text); try_copy length_ lstrip result
        else if has_attr ATTR_BYTE a then b ← token_to_byte V token; try_copy length_ lstrip [b]
        else Done (0%Z, [])
    | BPE =>
        if has_attr (Z.lor attr_special ATTR_USER_DEFINED) a then try_copy length_ lstrip token_text
        else if has_attr ATTR_NORMAL a then result ← llama_decode_text token_text; try_copy length_ lstrip result
        else Done (0%Z, [])
    | _ => Undefined
    end
  else Done (0%Z, []).

(** * Detokenization *)

(** The loop over the tokens: [avail], [total], [remove_space] and the text
    written so far. *)
Definition detok_step `{BM : BuildMode} V (unparse_special : bool) (token : Z) (st : Z * Z * bool * list byte) : outcome (Z * Z * bool * list byte) :=
  let '(avail, total, remove_space, out) := st in
  _ ← must (bool_decide (0 <= avail)%Z);
  '(n_chars, buf) ← token_to_piece V token avail (if remove_space then 1%Z else 0%Z) unparse_special;
  if bool_decide (n_chars < 0)%Z then
    total ← of_option (i32_chk (total - n_chars));
    Done (0%Z, total, false, out)
  else
    total ← of_option (i32_chk (total + n_chars));
    Done ((avail - n_chars)%Z, total, false, out ++ buf).

(** The passes of [clean_spaces] rewrite the text in place: [total] is where the
    next character goes. *)
Definition pred_chk (k : nat) : option nat := match k with 0 => None | S k => Some k end.

Definition is_char (z : Z) (c : byte) : bool := bool_decide (u8 c = z).

Definition clean1_step (i : nat) (st : list byte * nat) : option (list byte * nat) :=
  let '(t, total) := st in
  x ← t !! i;
  before ← t !! (i - 1);
  total ← (if bool_decide (before = x20) && (is_char 0x3f x || is_char 0x21 x || is_char 0x2e x || is_char 0x2c x) then pred_chk total else Some total);
  t ← set_at total x t;
  Some (t, total + 1).

Definition clean1 (t : list byte) (total1 : nat) : option (list byte * nat) :=
  foldM clean1_step (seq 1 (total1 - 1)) (t, if bool_decide (total1 = 0) then 0 else 1).

(** The loop of the second pass skips the space behind an apostrophe. *)
Fixpoint clean2_loop (fuel : nat) (t : list byte) (total2 i total : nat) : option (list byte * nat) :=
  match fuel with
  | 0 => None
  | S fuel =>
      if bool_decide (i < total2) then
        x ← t !! i;
        apostrophe ← (if is_char 0x27 x && bool_decide (i + 1 < total2) then
          before ← t !! (i - 1); after ← t !! (i + 1); Some (bool_decide (before = x20) && bool_decide (after = x20)) else Some false);
        if (apostrophe : bool) then
          total ← pred_chk total;
          t ← set_at (i + 1) x00 t;
          t ← set_at total x t;
          clean2_loop fuel t total2 (i + 1 + 1) (total + 1)
        else
          t ← set_at total x t;
          clean2_loop fuel t total2 (i + 1) (total + 1)
      else Some (t, total)
  end.

Definition clean2 (t : list byte) (total2 : nat) : option (list byte * nat) :=
  clean2_loop (S total2) t total2 1 (if bool_decide (total2 = 0) then 0 else 1).

Definition clean3_step (total3 i : nat) (st : list byte * nat) : option (list byte * nat) :=
  let '(t, total) := st in
  x ← t !! i;
  before ← t !! (i - 1);
  total ← (if bool_decide (before = x20) && is_char 0x27 x && bool_decide (i + 1 < total3) then
    x1 ← t !! (i + 1);
    if is_char 0x74 x1 || is_char 0x64 x1 then Some total
    else if is_char 0x73 x1 || is_char 0x6d x1 then pred_chk total
    else if bool_decide (i + 2 < total3) then
      x2 ← t !! (i + 2);
      if is_char 0x6c x1 && is_char 0x6c x2 then Some total
      else if (is_char 0x72 x1 && is_char 0x65 x2) || (is_char 0x76 x1 && is_char 0x65 x2) then pred_chk total
      else Some total
    else Some total
   else Some total);
  t ← set_at total x t;
  Some (t, total + 1).

Definition clean3 (t : list byte) (total3 : nat) : option (list byte * nat) :=
  foldM (clean3_step total3) (seq 1 (total3 - 1)) (t, if bool_decide (total3 = 0) then 0 else 1).

Definition clean_text (t : list byte) (total : nat) : option (list byte * nat) :=
  '(t, total) ← clean1 t total;
  '(t, total) ← clean2 t total;
  clean3 t total.

(** The tokens that are left when a leading BOS and a trailing EOS are removed,
    and whether a space is to be removed. *)
Definition detok_trim V (tokens : list Z) (remove_special : bool) : list Z * bool :=
  let '(tokens, remove_space) :=
    match tokens with
    | t :: rest => if remove_special && add_bos V && bool_decide (t = special_bos_id V) then (rest, false) else (tokens, add_space_prefix V)
    | [] => (tokens, add_space_prefix V)
    end in
  (match last tokens with
   | Some t => if remove_special && add_eos V && bool_decide (t = special_eos_id V) then take (length tokens - 1) tokens else tokens
   | None => tokens
   end, remove_space).

(** The result, and the first bytes of the buffer. *)
Definition detokenize `{BM : BuildMode} V (tokens : list Z) (text_len_max : Z) (remove_special unparse_special : bool) : outcome (Z * list byte) :=
  if bool_decide (type V = TYPE_NONE) then Done (0%Z, []) else
  let '(tokens, remove_space) := detok_trim V tokens remove_special in
  '(_, total, _, out) ← foldO (detok_step V unparse_special) tokens (text_len_max, 0%Z, remove_space, []);
  if bool_decide (text_len_max < total)%Z then Done (- total, out)%Z else
  '(out, total) ← (if clean_spaces V then '(t, total) ← of_option (clean_text out (Z.to_nat total)); Done (t, Z.of_nat total) else Done (out, total));
  Done (if bool_decide (total <= text_len_max)%Z then total else (- total)%Z, take (Z.to_nat total) out).

(** * Loading *)

Definition attr_of_type (t : Z) : Z :=
  if bool_decide (t = 2)%Z then ATTR_UNKNOWN
  else if bool_decide (t = 5)%Z then ATTR_UNUSED
  else if bool_decide (t = 1)%Z then ATTR_NORMAL
  else if bool_decide (t = 3)%Z then ATTR_CONTROL
  else if bool_decide (t = 4)%Z then ATTR_USER_DEFINED
  else if bool_decide (t = 6)%Z then ATTR_BYTE
  else 0%Z.

(** "[EMPTY_" and the index. *)
Definition empty_word (i : nat) : list byte := [x5b; x45; x4d; x50; x54; x59; x5f] ++ to_string (Z.of_nat i) ++ [x5d].

Definition load_state : Type := gmap (list byte) Z * list token_data * Z.

Definition load_token (scores : option (list float)) (toktypes : option (list Z)) (iw : nat * list byte) (st : load_state) : option load_state :=
  let '(i, word) := iw in
  let '(ids, toks, max_len) := st in
  let word := if bool_decide (word = []) then empty_word i else word in
  sc ← (match scores with Some l => l !! i | None => Some fzero end);
  a ← (match toktypes with Some l => t ← l !! i; Some (attr_of_type t) | None => Some ATTR_NORMAL end);
  toks ← set_at i (mkToken word sc a) toks;
  Some (<[word := Z.of_nat i]> ids, toks, Z.max max_len (Z.of_nat (length word))).

(** The arrays [id_to_token] and [token_to_id] of a vocabulary with the given
    words. *)
Definition load_tokens (words : list (list byte)) (scores : option (list float)) (toktypes : option (list Z)) : option load_state :=
  '(ids, toks, max_len) ← foldM (load_token scores toktypes) (imap pair words) (∅, replicate (length words) (mkToken [] fzero 0), 0%Z);
  GGML_ASSERT bool_decide (length toks = size ids);
  Some (ids, toks, max_len).

(** [cache_special_tokens]: [std_sort] sorts by the given order. *)
Definition special_tokens (std_sort : (Z -> Z -> bool) -> list Z -> list Z) (toks : list token_data) : list Z :=
  let special := filter (fun i => from_option (fun d => has_attr (Z.lor (Z.lor ATTR_CONTROL ATTR_USER_DEFINED) ATTR_UNKNOWN) (attr d)) false (toks !! Z.to_nat i) = true)
    (Z.of_nat <$> seq 0 (length toks)) in
  let text_size (i : Z) : nat := match toks !! Z.to_nat i with Some d => length (text d) | None => 0 end in
  std_sort (fun a b => bool_decide (text_size b < text_size a)) special.

(** [cap] is the capacity of an empty string. *)
Definition token_to_piece_for_cache `{BM : BuildMode} V (cap token : Z) (special : bool) : outcome (list byte) :=
  '(n_chars, piece) ← token_to_piece V token cap 0 special;
  if bool_decide (n_chars < 0)%Z then
    '(check, piece) ← token_to_piece V token (- n_chars) 0 special;
    _ ← must (bool_decide (check = - n_chars)%Z);
    Done piece
  else Done piece.

(** * Well-formed vocabularies *)

(** [token_to_id] and [id_to_token] are inverse to each other. *)
Record vocab_ok V : Prop := {
  vo_type : type V <> TYPE_NONE;
  vo_size : (Z.of_nat (length (id_to_token V)) < 2 ^ 31)%Z;
  vo_ids  : forall t id, token_to_id V !! t = Some id -> (0 <= id)%Z /\ exists d, id_to_token V !! Z.to_nat id = Some d /\ text d = t;
  vo_text : forall i d, id_to_token V !! i = Some d -> token_to_id V !! text d = Some (Z.of_nat i);
  vo_some : token_to_id V !! [] = None;
}.

Lemma index_ok {A} (l : list A) i x : l !! i = Some x -> @index A (Z.of_nat i) l = Done x.
Proof. intros H. unfold index. rewrite bool_decide_true by lia. by rewrite Nat2Z.id, H. Qed.

Lemma text_to_token_ok V t : vocab_ok V -> text_to_token V t = Done (default LLAMA_TOKEN_NULL (token_to_id V !! t)).
Proof. intros W. unfold text_to_token. by rewrite must_bd by apply (vo_type _ W). Qed.

Lemma token_not_null V t id : vocab_ok V -> token_to_id V !! t = Some id -> id <> LLAMA_TOKEN_NULL.
Proof. intros W H. apply (vo_ids _ W) in H as [H _]. unfold LLAMA_TOKEN_NULL. lia. Qed.

Lemma n_tokens_ok V : vocab_ok V -> n_tokens V = Z.of_nat (length (id_to_token V)).
Proof. intros W. pose proof (vo_size _ W). unfold n_tokens, u32_wrap. rewrite Z.mod_small; lia. Qed.

Lemma token_data_ok V t id : vocab_ok V -> token_to_id V !! t = Some id -> exists d, text d = t /\ id_to_token V !! Z.to_nat id = Some d /\
  u32_wrap id = id /\ (0 <= id < n_tokens V)%Z /\ get_token_data V id = Done d.
Proof.
  intros W H. apply (vo_ids _ W) in H as (H & d & Hd & Ht). exists d. rewrite n_tokens_ok by done. pose proof (lookup_lt_Some _ _ _ Hd). pose proof (vo_size _ W).
  split_and!; [done|done|unfold u32_wrap; rewrite Z.mod_small; lia|lia|lia|]. unfold get_token_data, at_. rewrite must_bd by apply (vo_type _ W).
  cbn [mbind outcome_bind]. by rewrite bool_decide_true, Hd by done.
Qed.

End Vocab.
End Vocab.
