(* ===== verification/VocabOk.v ===== *)
(** What the loaded vocabulary and the detokenizer guarantee: the two tables are
    inverse to each other, byte tokens stand for their bytes, and the text that
    is written fits the buffer. *)

From S2P Require Import Bytes.
From S2P Require Import Utf8.
From S2P Require Import Vocab.
Import Utf8.Utf8 Vocab.Vocab.

Module VocabOk.

(** * Loading *)

Section Load.
Context `{FO : FloatOps}.

(** After the first [i] words: [ids] and [toks] agree, and if no word occurred
    twice they are inverse to each other. *)
Record loaded (n i : nat) (st : load_state) : Prop := {
  ld_len  : length (snd (fst st)) = n;
  ld_size : size (fst (fst st)) <= i;
  ld_ids  : forall t id, fst (fst st) !! t = Some id -> (0 <= id < Z.of_nat i)%Z /\ exists d, snd (fst st) !! Z.to_nat id = Some d /\ text d = t;
  ld_text : size (fst (fst st)) = i -> forall j d, j < i -> snd (fst st) !! j = Some d -> fst (fst st) !! text d = Some (Z.of_nat j);
  ld_good : forall j d, j < i -> snd (fst st) !! j = Some d -> text d <> [] /\ (Z.of_nat (length (text d)) <= snd st)%Z;
}.

Lemma load_token_ok scores toktypes n i word st st' : loaded n i st -> i < n -> load_token scores toktypes (i, word) st = Some st' -> loaded n (i + 1) st'.
Proof.
  destruct st as [[ids toks] ml]. intros [H1 H2 H3 H4 H5] Hi. cbn [fst snd] in *. unfold load_token. set (w := if bool_decide (word = []) then empty_word i else word).
  assert (w <> []) as Hw by (unfold w; case_bool_decide; [by destruct (to_string (Z.of_nat i))|done]).
  destruct (match scores with Some l => l !! i | None => Some fzero end) as [sc|]; [|done]. cbn [mbind option_bind].
  destruct (match toktypes with Some l => t ← l !! i; Some (attr_of_type t) | None => Some ATTR_NORMAL end) as [a|]; [|done]. cbn [mbind option_bind].
  rewrite set_at_ok by lia. intros [= <-]. split; cbn [fst snd].
  - by rewrite length_insert.
  - rewrite map_size_insert. destruct (ids !! w); cbn; lia.
  - intros t id [[<- <-]|[Hne Hid]]%lookup_insert_Some.
    + split; [lia|]. rewrite Nat2Z.id, list_lookup_insert_eq by lia. by eexists.
    + destruct (H3 _ _ Hid) as (Hr & d & Hd & Ht). split; [lia|]. exists d. by rewrite list_lookup_insert_ne by lia.
  - rewrite map_size_insert. destruct (ids !! w) as [id|] eqn:Ew; cbn; intros Hsz; [lia|]. intros j d Hj Hd.
    destruct (decide (j = i)) as [->|Hne]; [rewrite list_lookup_insert_eq in Hd by lia; injection Hd as <-; apply lookup_insert_eq|].
    rewrite list_lookup_insert_ne in Hd by done. pose proof (H4 ltac:(lia) j d ltac:(lia) Hd) as Hj2. rewrite lookup_insert_ne; [done|]. intros E. by rewrite <- E, Ew in Hj2.
  - intros j d Hj Hd. destruct (decide (j = i)) as [->|Hne]; [rewrite list_lookup_insert_eq in Hd by lia; injection Hd as <-; cbn; split; [done|lia]|].
    rewrite list_lookup_insert_ne in Hd by done. destruct (H5 j d ltac:(lia) Hd). split; [done|lia].
Qed.

(** The tables of a vocabulary that loads. *)
Lemma load_tokens_ok words scores toktypes ids toks max_len : load_tokens words scores toktypes = Some (ids, toks, max_len) ->
  length toks = length words /\
  (forall t id, ids !! t = Some id -> (0 <= id)%Z /\ exists d, toks !! Z.to_nat id = Some d /\ text d = t) /\
  (forall i d, toks !! i = Some d -> ids !! text d = Some (Z.of_nat i) /\ text d <> [] /\ (Z.of_nat (length (text d)) <= max_len)%Z).
Proof.
  unfold load_tokens. destruct (foldM _ _ _) as [[[ids' toks'] ml]|] eqn:Hrun; [|done]. cbn [mbind option_bind].
  destruct (ggml_assert _) as [[]|] eqn:Ha; [|done]. cbn [mbind option_bind]. intros [= -> -> ->]. apply ggml_assert_inv, bool_decide_eq_true in Ha.
  assert (loaded (length words) (length words) (ids, toks, max_len)) as [H1 H2 H3 H4 H5].
  { rewrite <- (length_imap pair words) at 2. revert Hrun. apply (foldM_prefix_sound _ (fun pre st => loaded (length words) (length pre) st)).
    - split; cbn; [by rewrite length_replicate|by rewrite map_size_empty|intros t id Hid; by rewrite lookup_empty in Hid|lia|lia].
    - intros pre [i word] st st' Hpre L Hst. rewrite length_app. assert (i = length pre /\ i < length words) as [-> Hi]; [|by eapply load_token_ok].
      destruct Hpre as [rest Hpre]. assert (imap pair words !! length pre = Some (i, word)) as Hl by (by rewrite Hpre, <- app_assoc, lookup_app_r, Nat.sub_diag by lia).
      rewrite list_lookup_imap in Hl. destruct (words !! length pre) eqn:Ew; [|done]. injection Hl as <- _. split; [done|by eapply lookup_lt_Some]. }
  cbn [fst snd] in *. split; [done|]. split.
  - intros t id Hid. apply H3 in Hid as [? ?]. split; [lia|done].
  - intros i d Hd. pose proof (lookup_lt_Some _ _ _ Hd). split; [apply H4; [lia|lia|done]|apply (H5 i); [lia|done]].
Qed.

(** The loader yields well-formed vocabularies. *)
Lemma loaded_vocab_ok V words scores toktypes : load_tokens words scores toktypes = Some (token_to_id V, id_to_token V, max_token_len V) ->
  type V <> TYPE_NONE -> (Z.of_nat (length words) < 2 ^ 31)%Z -> vocab_ok V.
Proof.
  intros H Ht Hl. apply load_tokens_ok in H as (H1 & H2 & H3). split; [done|by rewrite H1|done|intros i d Hd; by apply H3|].
  destruct (token_to_id V !! []) as [id|] eqn:E; [|done]. apply H2 in E as (_ & d & Hd & Hn). apply H3 in Hd as (_ & Hd & _). done.
Qed.

(** Tables for examples. *)
Definition tables (words : list (list byte)) (scores : option (list float)) : load_state := default (∅, [], 0%Z) (load_tokens words scores None).

Lemma tables_ok words scores : is_Some (load_tokens words scores None) ->
  load_tokens words scores None = Some (fst (fst (tables words scores)), snd (fst (tables words scores)), snd (tables words scores)).
Proof. intros [[[ids toks] ml] H]. unfold tables. by rewrite H. Qed.
End Load.
End VocabOk.
