(* ===== verification/MergeChain.v ===== *)
(** The chain of symbols that the SPM and BPE tokenizers merge
    ([llama_cpp_repo/src/llama-vocab.cpp]): a doubly linked list inside a vector,
    whose symbols are pieces of a text.  The definitions are what both sessions
    do to the chain; the rest of the file is their theory: merging neighbours
    keeps the chain a partition of the text, and a queue of candidate pairs of
    which some are outdated still knows every pair of neighbours.  The
    reference is the greedy merging of a list of pieces. *)

From stdpp Require Import sorting.
From S2P Require Import Bytes.
From S2P Require Import Utf8.
Import Utf8.Utf8.

Module MergeChain.

(** * Symbols *)

(** [sym_text] is the offset of the symbol in the text. *)
Record llm_symbol := mkSym { sym_prev : Z; sym_next : Z; sym_text : nat; sym_n : nat }.

(** The symbols of the UTF-8 characters of a text. *)
Fixpoint split_symbols (fuel : nat) (text : list byte) (index : Z) (offs : nat) (symbols : list llm_symbol) : option (list llm_symbol) :=
  if bool_decide (offs < length text) then
    match fuel with
    | 0 => None
    | S fuel =>
        c ← text !! offs;
        let n := min (unicode_len_utf8 c) (length text - offs) in
        let offs' := offs + n in
        let sym := mkSym (index - 1) (if bool_decide (offs' = length text) then -1 else index + 1) offs n in
        split_symbols fuel text (index + 1) offs' (symbols ++ [sym])
    end
  else Some symbols.

(** The characters of a text, as their first bytes announce them. *)
Fixpoint utf8_pieces (fuel : nat) (s : list byte) : list (list byte) :=
  match fuel, s with
  | S fuel, c :: _ => take (unicode_len_utf8 c) s :: utf8_pieces fuel (drop (unicode_len_utf8 c) s)
  | _, _ => []
  end.

(** [std::string(sym.text, n)]. *)
Definition sym_string (text : list byte) (s : llm_symbol) (n : nat) : option (list byte) :=
  if bool_decide (sym_text s + n <= length text) then Some (take n (drop (sym_text s) text)) else None.

Definition with_n (n : nat) (s : llm_symbol) := mkSym (sym_prev s) (sym_next s) (sym_text s) n.
Definition with_next (i : Z) (s : llm_symbol) := mkSym (sym_prev s) i (sym_text s) (sym_n s).
Definition with_prev (i : Z) (s : llm_symbol) := mkSym i (sym_next s) (sym_text s) (sym_n s).

Definition update_sym (i : nat) (f : llm_symbol -> llm_symbol) (symbols : list llm_symbol) : option (list llm_symbol) :=
  s ← symbols !! i; set_at i (f s) symbols.

(** Merge the right symbol into the left one, and take it out of the chain. *)
Definition merge_symbols (left right : nat) (symbols : list llm_symbol) : option (list llm_symbol) :=
  r ← symbols !! right;
  symbols ← update_sym left (fun l => with_n (sym_n l + sym_n r) l) symbols;
  symbols ← update_sym right (with_n 0) symbols;
  r ← symbols !! right;
  symbols ← update_sym left (with_next (sym_next r)) symbols;
  r ← symbols !! right;
  if bool_decide (0 <= sym_next r)%Z then update_sym (Z.to_nat (sym_next r)) (with_prev (Z.of_nat left)) symbols else Some symbols.

(** * Greedy merging of a list of pieces *)

Section Greedy.
Context {K : Type} (pair_key : list byte -> list byte -> option K) (klt keq : K -> K -> bool).

(** The key of the [k]-th piece with its successor: [None] when they may not be
    merged. *)
Definition key_at (ps : list (list byte)) (k : nat) : option K :=
  match ps !! k, ps !! S k with Some a, Some b => pair_key a b | _, _ => None end.

(** The pair at [k] has the greatest key, and is the first of those that have. *)
Definition best (ps : list (list byte)) (k : nat) : Prop :=
  exists key, key_at ps k = Some key /\
    forall j key', key_at ps j = Some key' -> klt key key' = false /\ (keq key key' = true -> k <= j).

Definition merge_at (k : nat) (ps : list (list byte)) : list (list byte) :=
  take k ps ++ concat (take 2 (drop k ps)) :: drop (k + 2) ps.

(** Merge the best pair until there is none. *)
Inductive greedy : list (list byte) -> list (list byte) -> Prop :=
  | greedy_done ps : (forall k, key_at ps k = None) -> greedy ps ps
  | greedy_step ps k ps' : best ps k -> greedy (merge_at k ps) ps' -> greedy ps ps'.

(** The keys that occur are ordered: [klt] is a strict weak order, and [keq]
    means that neither is less. *)
Definition is_key (k : K) : Prop := exists a b, pair_key a b = Some k.

Record key_order : Prop := {
  ko_irrefl : forall x, is_key x -> klt x x = false;
  ko_trans  : forall x y z, is_key x -> is_key y -> is_key z -> klt x y = true -> klt y z = true -> klt x z = true;
  ko_neg    : forall x y z, is_key x -> is_key y -> is_key z -> klt x y = false -> klt y z = false -> klt x z = false;
  ko_eq     : forall x y, is_key x -> is_key y -> keq x y = negb (klt x y) && negb (klt y x);
}.

Lemma key_at_is_key ps k key : key_at ps k = Some key -> is_key key.
Proof. unfold key_at. destruct (ps !! k) as [a|], (ps !! S k) as [b|]; try done. by exists a, b. Qed.

Lemma best_unique ps k k' : key_order -> best ps k -> best ps k' -> k = k'.
Proof.
  intros O (x & Hx & Hk) (y & Hy & Hk'). destruct (Hk _ _ Hy) as [H1 H2], (Hk' _ _ Hx) as [H3 H4].
  pose proof (key_at_is_key _ _ _ Hx) as Ix. pose proof (key_at_is_key _ _ _ Hy) as Iy.
  rewrite (ko_eq O) in H2, H4 by done. rewrite H1, H3 in H2, H4. specialize (H2 eq_refl). specialize (H4 eq_refl). lia.
Qed.

Lemma greedy_unique ps ps1 ps2 : key_order -> greedy ps ps1 -> greedy ps ps2 -> ps1 = ps2.
Proof.
  intros O G1. revert ps2. induction G1 as [ps Hn|ps k ps1 Hb G1 IH]; intros ps2 G2; inversion G2 as [? Hn2|? k2 ? Hb2 G2']; subst.
  - done.
  - destruct Hb2 as (x & Hx & _). by rewrite Hn in Hx.
  - destruct Hb as (x & Hx & _). by rewrite Hn2 in Hx.
  - rewrite (best_unique ps k k2) in IH by done. by apply IH.
Qed.

Lemma merge_at_concat k ps : concat (merge_at k ps) = concat ps.
Proof.
  unfold merge_at. rewrite concat_app. cbn [concat]. rewrite <- drop_drop, <- concat_app, take_drop, <- concat_app. by rewrite take_drop.
Qed.

Lemma greedy_concat ps ps' : greedy ps ps' -> concat ps' = concat ps.
Proof. induction 1 as [|? k ? ? ? IH]; [done|]. by rewrite IH, merge_at_concat. Qed.
End Greedy.

(** Integers are ordered. *)
Lemma z_order pair_key : key_order (K := Z) pair_key Z.ltb Z.eqb.
Proof. split; intros; lia. Qed.


(** * Priority queues

    What [std::priority_queue] promises of [top] and [pop], for a comparator
    that is a strict weak order of the elements it holds. *)

Definition weak_order {E} (less : E -> E -> bool) (q : list E) : Prop :=
  (forall x, x ∈ q -> less x x = false) /\
  (forall x y z, x ∈ q -> y ∈ q -> z ∈ q -> less x y = true -> less y z = true -> less x z = true) /\
  (forall x y z, x ∈ q -> y ∈ q -> z ∈ q -> less x y = false -> less y z = false -> less x z = false).

Record priority_queue {E} (less : E -> E -> bool) (pop : list E -> option (E * list E)) : Prop := {
  pop_nil : pop [] = None;
  pop_some : forall q, q <> [] -> exists e q', pop q = Some (e, q') /\ q ≡ₚ e :: q';
  pop_top : forall q e q', pop q = Some (e, q') -> weak_order less q -> forall x, x ∈ q' -> less e x = false;
}.

(** A queue that searches for its first greatest element. *)
Fixpoint select {E} (less : E -> E -> bool) (e : E) (q : list E) : E * list E :=
  match q with
  | [] => (e, [])
  | x :: q => if less e x then let '(m, rest) := select less x q in (m, e :: rest) else let '(m, rest) := select less e q in (m, x :: rest)
  end.

Definition scan_pop {E} (less : E -> E -> bool) (q : list E) : option (E * list E) :=
  match q with [] => None | e :: q => Some (select less e q) end.

Lemma select_perm {E} (less : E -> E -> bool) q : forall e m rest, select less e q = (m, rest) -> e :: q ≡ₚ m :: rest.
Proof.
  induction q as [|x q IH]; intros e m rest; cbn [select]; [by intros [= <- <-]|].
  destruct (less e x).
  - destruct (select less x q) as [m' r'] eqn:E1. intros [= <- <-]. by rewrite (IH _ _ _ E1), Permutation_swap.
  - destruct (select less e q) as [m' r'] eqn:E1. intros [= <- <-]. by rewrite Permutation_swap, (IH _ _ _ E1), Permutation_swap.
Qed.

Lemma weak_order_perm {E} (less : E -> E -> bool) q q' : q ≡ₚ q' -> weak_order less q -> weak_order less q'.
Proof. intros Hp (H1 & H2 & H3). split_and!; intros *; rewrite <- !Hp; [apply H1|apply H2|apply H3]. Qed.

Lemma select_top {E} (less : E -> E -> bool) q : forall e m rest, select less e q = (m, rest) -> weak_order less (e :: q) ->
  forall x, x ∈ e :: q -> less m x = false.
Proof.
  induction q as [|y q IH]; intros e m rest Hs W.
  - injection Hs as <- <-. intros x ->%list_elem_of_singleton. apply W. by left.
  - cbn [select] in Hs. assert (weak_order less (e :: q) /\ weak_order less (y :: q)) as [We Wy].
    { destruct W as (H1 & H2 & H3). split; split_and!; intros *; intros; (apply H1 || eapply H2 || eapply H3); try eassumption; set_solver. }
    destruct W as (Wi & Wt & Wn). intros x Hx. destruct (less e y) eqn:Ey.
    + destruct (select less y q) as [m' r'] eqn:E1. injection Hs as <- <-. pose proof (IH _ _ _ E1 Wy) as Hm.
      apply elem_of_cons in Hx as [->|Hx]; [|by apply Hm]. pose proof (select_perm _ _ _ _ _ E1) as Hp.
      destruct (less m' e) eqn:Eme; [|done]. exfalso. assert (less m' y = true) as H; [|by rewrite Hm in H by (by left)].
      apply (Wt m' e y); [|set_solver..]. rewrite Hp. set_solver.
    + destruct (select less e q) as [m' r'] eqn:E1. injection Hs as <- <-. pose proof (IH _ _ _ E1 We) as Hm.
      apply elem_of_cons in Hx as [->|[->|Hx]%elem_of_cons]; [apply Hm; by left| |apply Hm; by right].
      apply (Wn m' e y); [|set_solver|set_solver|apply Hm; by left|done].
      pose proof (select_perm _ _ _ _ _ E1) as Hp. rewrite Permutation_swap, Hp. set_solver.
Qed.

Lemma scan_pop_queue {E} (less : E -> E -> bool) : priority_queue less (scan_pop less).
Proof.
  split; [done| |].
  - intros [|e q] Hq; [done|]. cbn. destruct (select less e q) as [m rest] eqn:E1. exists m, rest. split; [done|]. by apply select_perm in E1.
  - intros [|e q] m q' Hs W x Hx; [done|]. injection Hs as Hs. apply (select_top _ _ _ _ _ Hs W). rewrite (select_perm _ _ _ _ _ Hs). by right.
Qed.

(** * The chain as a partition of the text *)

(** [lseg ss p off l nx e]: the symbols with the indices [l] form a segment that
    follows symbol [p], is followed by [nx] and covers the text from [off] to
    [e]. *)
Definition nxt (nx : Z) (l : list nat) : Z := match l with [] => nx | i :: _ => Z.of_nat i end.
Definition lst (p : Z) (l : list nat) : Z := foldl (fun _ i => Z.of_nat i) p l.

Fixpoint lseg (ss : list llm_symbol) (p : Z) (off : nat) (l : list nat) (nx : Z) (e : nat) : Prop :=
  match l with
  | [] => off = e
  | i :: l => exists s, ss !! i = Some s /\ 0 < sym_n s /\ sym_prev s = p /\ sym_next s = nxt nx l /\ sym_text s = off /\
      lseg ss (Z.of_nat i) (off + sym_n s) l nx e
  end.

Lemma nxt_app nx l1 l2 : nxt nx (l1 ++ l2) = nxt (nxt nx l2) l1.
Proof. by destruct l1. Qed.

Lemma lseg_app ss l1 : forall p off l2 nx e,
  lseg ss p off (l1 ++ l2) nx e <-> exists m, lseg ss p off l1 (nxt nx l2) m /\ lseg ss (lst p l1) m l2 nx e.
Proof.
  induction l1 as [|i l1 IH]; intros p off l2 nx e; cbn [lseg app lst foldl].
  - split; [intros H; by exists off|]. by intros (m & -> & H).
  - split.
    + intros (s & H1 & H2 & H3 & H4 & H5 & H). apply IH in H as (m & Ha & Hb). exists m. split; [|done]. exists s. rewrite nxt_app in H4. done.
    + intros (m & (s & H1 & H2 & H3 & H4 & H5 & Ha) & Hb). exists s. rewrite nxt_app. do 5 (split; [done|]). apply IH. by exists m.
Qed.

Lemma lseg_frame ss ss' l : forall p off nx e, (forall i, i ∈ l -> ss' !! i = ss !! i) -> lseg ss p off l nx e -> lseg ss' p off l nx e.
Proof.
  induction l as [|i l IH]; intros p off nx e Hf; [done|]. intros (s & H1 & H). exists s. rewrite Hf by (by left). split; [done|].
  destruct H as (? & ? & ? & ? & H). do 4 (split; [done|]). apply IH; [|done]. intros j Hj. apply Hf. by right.
Qed.

(** A segment gets another predecessor. *)
Lemma lseg_reprev ss ss' l p p' off nx e :
  (forall i, i ∈ l -> ss' !! i = (if decide (head l = Some i) then with_prev p' <$> ss !! i else ss !! i)) -> NoDup l ->
  lseg ss p off l nx e -> lseg ss' p' off l nx e.
Proof.
  intros Hf Hd. destruct l as [|i l]; [done|]. intros (s & H1 & H2 & H3 & H4 & H5 & H). apply NoDup_cons in Hd as [Hi Hd].
  exists (with_prev p' s). rewrite Hf, decide_True, H1 by (done || by left). do 5 (split; [done|]).
  apply (lseg_frame ss); [|done]. intros j Hj. rewrite Hf by (by right). by rewrite decide_False by (cbn; congruence).
Qed.

Lemma lseg_le ss l : forall p off nx e, lseg ss p off l nx e -> off <= e.
Proof. induction l as [|i l IH]; intros p off nx e; [by intros ->|]. intros (s & _ & _ & _ & _ & _ & H). apply IH in H. lia. Qed.

(** An index, or -1. *)
Definition idx (o : option nat) : Z := from_option Z.of_nat (-1)%Z o.

Lemma lst_idx l : lst (-1) l = idx (last l).
Proof. unfold lst. destruct l as [|i l] using rev_ind; [done|]. by rewrite foldl_app, last_snoc. Qed.

Lemma nxt_idx l : nxt (-1) l = idx (head l).
Proof. by destruct l. Qed.

Section Chain.
Context (w : list byte).

Definition len (ss : list llm_symbol) (i : nat) : nat := from_option sym_n 0 (ss !! i).
Definition piece (ss : list llm_symbol) (i : nat) : list byte := from_option (fun s => take (sym_n s) (drop (sym_text s) w)) [] (ss !! i).
Definition pieces (ss : list llm_symbol) (l : list nat) : list (list byte) := piece ss <$> l.

Record chain (ss : list llm_symbol) (alive : list nat) : Prop := {
  ch_seg    : lseg ss (-1) 0 alive (-1) (length w);
  ch_sorted : StronglySorted lt alive;
  ch_dead   : forall i, i ∉ alive -> len ss i = 0;
}.

Lemma lseg_concat ss l : forall p off nx, lseg ss p off l nx (length w) -> concat (pieces ss l) = drop off w.
Proof.
  induction l as [|i l IH]; intros p off nx H; [cbn in H; subst; by rewrite drop_all|].
  destruct H as (s & Hs & _ & _ & _ & <- & H). cbn [pieces fmap list_fmap concat]. fold (pieces ss l). rewrite (IH _ _ _ H). unfold piece. rewrite Hs. cbn.
  rewrite <- drop_drop. apply take_drop.
Qed.

Lemma chain_concat ss alive : chain ss alive -> concat (pieces ss alive) = w.
Proof. intros C. by rewrite (lseg_concat _ _ _ _ _ (ch_seg _ _ C)). Qed.

Lemma sorted_NoDup l : StronglySorted lt l -> NoDup l.
Proof.
  induction 1 as [|i l H IH Hf]; constructor; [|done]. intros Hi. rewrite Forall_forall in Hf. specialize (Hf _ Hi). lia.
Qed.

Lemma chain_at ss l1 i l2 : chain ss (l1 ++ i :: l2) -> exists s, ss !! i = Some s /\ 0 < sym_n s /\ sym_prev s = lst (-1) l1 /\ sym_next s = nxt (-1) l2 /\
  sym_text s + sym_n s <= length w.
Proof.
  intros C. pose proof (ch_seg _ _ C) as H. apply lseg_app in H as (m & _ & s & H1 & H2 & H3 & H4 & H5 & H). exists s. apply lseg_le in H. by rewrite H5.
Qed.

Lemma chain_string ss alive i s : chain ss alive -> i ∈ alive -> ss !! i = Some s -> sym_string w s (sym_n s) = Some (piece ss i) /\ length (piece ss i) = sym_n s.
Proof.
  intros C (l1 & l2 & ->)%list_elem_of_split Hs. destruct (chain_at _ _ _ _ C) as (s' & Hs' & _ & _ & _ & Hle). rewrite Hs in Hs'. injection Hs' as <-.
  unfold sym_string, piece. rewrite bool_decide_true by done. rewrite Hs. cbn. split; [done|]. rewrite length_take, length_drop. lia.
Qed.

Lemma chain_alive ss alive i : chain ss alive -> len ss i <> 0 -> i ∈ alive.
Proof. intros C Hl. destruct (decide (i ∈ alive)) as [|Hn]; [done|]. by rewrite (ch_dead _ _ C) in Hl. Qed.

Lemma chain_len ss alive i : chain ss alive -> i ∈ alive -> exists s, ss !! i = Some s /\ len ss i = sym_n s /\ 0 < len ss i.
Proof.
  intros C (l1 & l2 & ->)%list_elem_of_split. destruct (chain_at _ _ _ _ C) as (s & Hs & Hn & _). exists s. unfold len. rewrite Hs. by cbn.
Qed.

Lemma chain_nonempty ss alive : chain ss alive -> Forall (fun p => p <> []) (pieces ss alive).
Proof.
  intros C. apply Forall_forall. intros p (i & -> & Hi)%list_elem_of_fmap. destruct (chain_len _ _ _ C Hi) as (s & Hs & Hl & Hpos).
  destruct (chain_string _ _ _ _ C Hi Hs) as [_ Hlen]. intros E. rewrite E in Hlen. cbn in Hlen. lia.
Qed.

(** Merging neighbours. *)
Lemma merge_symbols_run ss l1 a b l2 : chain ss (l1 ++ a :: b :: l2) -> exists ss', merge_symbols a b ss = Some ss' /\ length ss' = length ss /\
  exists sa sb, ss !! a = Some sa /\ ss !! b = Some sb /\ sym_text sb = sym_text sa + sym_n sa /\
  ss' !! a = Some (mkSym (sym_prev sa) (sym_next sb) (sym_text sa) (sym_n sa + sym_n sb)) /\ ss' !! b = Some (with_n 0 sb) /\
  forall i, i <> a -> i <> b -> ss' !! i = (if decide (head l2 = Some i) then with_prev (Z.of_nat a) <$> ss !! i else ss !! i).
Proof.
  intros C. pose proof (sorted_NoDup _ (ch_sorted _ _ C)) as Hd. apply NoDup_app in Hd as (_ & _ & Hd).
  apply NoDup_cons in Hd as [Ha Hd]. apply NoDup_cons in Hd as [Hb _]. pose proof (ch_seg _ _ C) as H.
  apply lseg_app in H as (m & _ & sa & Hsa & _ & _ & _ & <- & sb & Hsb & _ & _ & Hnx & Htb & Hrest).
  assert (a <> b) as Hab by (intros ->; apply Ha; by left). pose proof (lookup_lt_Some _ _ _ Hsa). pose proof (lookup_lt_Some _ _ _ Hsb).
  unfold merge_symbols, update_sym. rewrite Hsb, Hsa. cbn [mbind option_bind]. rewrite set_at_ok by done. cbn [mbind option_bind].
  rewrite list_lookup_insert_ne, Hsb by done. cbn [mbind option_bind]. rewrite set_at_ok by (by rewrite length_insert). cbn [mbind option_bind].
  rewrite list_lookup_insert_eq by (by rewrite length_insert). cbn [mbind option_bind]. rewrite list_lookup_insert_ne, list_lookup_insert_eq by done. cbn [mbind option_bind].
  rewrite set_at_ok by (by rewrite !length_insert). cbn [mbind option_bind]. rewrite list_lookup_insert_ne, list_lookup_insert_eq by (rewrite ?length_insert; done).
  cbn [mbind option_bind with_n sym_next]. destruct l2 as [|c l2]; cbn [nxt] in Hnx; rewrite Hnx.
  - rewrite bool_decide_false by lia. eexists. split; [done|]. split; [by rewrite !length_insert|]. exists sa, sb. do 3 (split; [done|]).
    split; [rewrite list_lookup_insert_eq by (by rewrite !length_insert); by rewrite <- Hnx|]. split; [rewrite list_lookup_insert_ne, list_lookup_insert_eq by (rewrite ?length_insert; done); done|].
    intros i Hia Hib. rewrite decide_False by done. by rewrite !list_lookup_insert_ne by done.
  - assert (c <> a /\ c <> b) as [Hca Hcb] by (split; intros ->; [apply Ha; right; by left|apply Hb; by left]). destruct Hrest as (sc & Hsc & _).
    pose proof (lookup_lt_Some _ _ _ Hsc). rewrite bool_decide_true by lia. rewrite Nat2Z.id, !list_lookup_insert_ne, Hsc by done. cbn [mbind option_bind].
    rewrite set_at_ok by (by rewrite !length_insert). eexists. split; [done|]. split; [by rewrite !length_insert|]. exists sa, sb. do 3 (split; [done|]).
    split; [rewrite list_lookup_insert_ne, list_lookup_insert_eq by (rewrite ?length_insert; done); by rewrite <- Hnx|].
    split; [rewrite !list_lookup_insert_ne, list_lookup_insert_eq by (rewrite ?length_insert; done); done|].
    intros i Hia Hib. cbn [head]. case_decide as Hc.
    + injection Hc as ->. rewrite list_lookup_insert_eq by (by rewrite !length_insert). by rewrite Hsc.
    + rewrite !list_lookup_insert_ne by (try done; congruence). done.
Qed.

Lemma sorted_remove (l1 : list nat) a b l2 : StronglySorted lt (l1 ++ a :: b :: l2) -> StronglySorted lt (l1 ++ a :: l2).
Proof.
  rewrite !StronglySorted_app, !StronglySorted_cons, !Forall_cons. intros (H1 & H2 & (_ & H4) & H5 & H6). split_and!; [|done..].
  intros x y Hx Hy. apply H1; [done|]. set_solver.
Qed.

Lemma piece_same ss ss' i s : ss !! i = Some s -> (exists p, ss' !! i = Some (with_prev p s)) \/ ss' !! i = ss !! i -> piece ss' i = piece ss i /\ len ss' i = len ss i.
Proof. intros Hs [(p & Hs')|Hs']; unfold piece, len; rewrite Hs'; [by rewrite Hs|done]. Qed.

(** What merging neighbours does to the chain. *)
Record merged (ss ss' : list llm_symbol) (l1 : list nat) (a b : nat) (l2 : list nat) : Prop := {
  mg_chain : chain ss' (l1 ++ a :: l2);
  mg_len   : length ss' = length ss;
  mg_a     : piece ss' a = piece ss a ++ piece ss b /\ len ss' a = len ss a + len ss b;
  mg_b     : len ss' b = 0;
  mg_other : forall i, i <> a -> i <> b -> piece ss' i = piece ss i /\ len ss' i = len ss i;
}.

Lemma merge_ok ss l1 a b l2 : chain ss (l1 ++ a :: b :: l2) -> exists ss', merge_symbols a b ss = Some ss' /\ merged ss ss' l1 a b l2.
Proof.
  intros C. destruct (merge_symbols_run _ _ _ _ _ C) as (ss' & Hrun & Hlen & sa & sb & Ha & Hb & Ht & Ha' & Hb' & Hother). exists ss'. split; [done|].
  pose proof (sorted_NoDup _ (ch_sorted _ _ C)) as Hd. pose proof (ch_seg _ _ C) as H.
  apply NoDup_app in Hd as (_ & Hd1 & Hd). apply NoDup_cons in Hd as [Hna Hd]. apply NoDup_cons in Hd as [Hnb Hd].
  apply lseg_app in H as (m & Hl & sa' & E1 & Hn & Hp & _ & Hm & sb' & E2 & Hnb' & _ & Hnx & _ & Hrest). rewrite Ha in E1. injection E1 as <-. rewrite Hb in E2. injection E2 as <-.
  assert (a <> b) as Hab by (intros ->; apply Hna; by left).
  assert (forall i, i <> a -> i <> b -> piece ss' i = piece ss i /\ len ss' i = len ss i) as Hsame.
  { intros i Hia Hib. specialize (Hother i Hia Hib). unfold piece, len. rewrite Hother. case_decide; [|done]. by destruct (ss !! i). }
  split; [|done| | |done].
  - split.
    + apply lseg_app. exists m. split; [|exists (mkSym (sym_prev sa) (sym_next sb) (sym_text sa) (sym_n sa + sym_n sb)); cbn; split_and!; [done|lia|done|done|done|]].
      * apply (lseg_frame ss); [|done]. intros i Hi. specialize (Hd1 i Hi). rewrite Hother by set_solver.
        apply decide_False. destruct l2 as [|c l2]; [done|]. cbn. intros [= ->]. set_solver.
      * rewrite Nat.add_assoc. apply (lseg_reprev ss _ _ (Z.of_nat b)); [|done|done]. intros i Hi. apply Hother; set_solver.
    + by eapply sorted_remove, C.
    + intros i Hi. destruct (decide (i = b)) as [->|Hib]; [unfold len; by rewrite Hb'|].
      destruct (decide (i = a)) as [->|Hia]; [set_solver|]. destruct (Hsame i Hia Hib) as [_ ->]. apply (ch_dead _ _ C). set_solver.
  - unfold piece, len. rewrite Ha', Ha, Hb. cbn. split; [|done]. rewrite Ht, <- drop_drop. symmetry. apply take_take_drop.
  - unfold len. by rewrite Hb'.
Qed.

(** The pieces are merged in the same place. *)
Lemma merged_pieces ss ss' l1 a b l2 : chain ss (l1 ++ a :: b :: l2) -> merged ss ss' l1 a b l2 ->
  pieces ss' (l1 ++ a :: l2) = merge_at (length l1) (pieces ss (l1 ++ a :: b :: l2)).
Proof.
  intros C M. pose proof (sorted_NoDup _ (ch_sorted _ _ C)) as Hd. apply NoDup_app in Hd as (_ & Hd1 & Hd). apply NoDup_cons in Hd as [Hna Hd]. apply NoDup_cons in Hd as [Hnb _].
  assert (forall l, (forall i, i ∈ l -> i <> a /\ i <> b) -> pieces ss' l = pieces ss l) as Hf.
  { intros l Hl. apply list_fmap_ext. intros k i Hi. destruct (Hl i) as [? ?]; [by eapply list_elem_of_lookup_2|]. by apply (mg_other _ _ _ _ _ _ M). }
  unfold merge_at, pieces. rewrite !fmap_app. cbn [fmap list_fmap]. fold (pieces ss' l1) (pieces ss' l2) (pieces ss l1) (pieces ss l2).
  assert (length (pieces ss l1) = length l1) as Hl1 by apply length_fmap. rewrite <- Hl1.
  rewrite take_app_length, drop_app_length, <- drop_drop, drop_app_length. cbn [take drop concat]. rewrite app_nil_r, !(Hf l1), !(Hf l2) by set_solver.
  by destruct (mg_a _ _ _ _ _ _ M) as [-> _].
Qed.

(** * The queue of candidate pairs *)

Section Queue.
Context {K : Type} (pair_key : list byte -> list byte -> option K) (klt keq : K -> K -> bool).

(** The two symbols, the key they had when the entry was made, and their size
    then. *)
Record entry := mkEntry { el : nat; er : nat; ek : K; esz : nat }.

Definition entry_less (l r : entry) : bool := klt (ek l) (ek r) || (keq (ek l) (ek r) && bool_decide (el r < el l)).

Definition neighbours (alive : list nat) (a b : nat) : Prop := exists k, alive !! k = Some a /\ alive !! S k = Some b.

(** An entry that is up to date. *)
Definition fresh (ss : list llm_symbol) (alive : list nat) (x : entry) : Prop :=
  neighbours alive (el x) (er x) /\ esz x = len ss (el x) + len ss (er x) /\ pair_key (piece ss (el x)) (piece ss (er x)) = Some (ek x).

(** An entry that will be skipped. *)
Definition stale (ss : list llm_symbol) (x : entry) : Prop :=
  len ss (el x) = 0 \/ len ss (er x) = 0 \/ esz x < len ss (el x) + len ss (er x).

Record queue_ok (ss : list llm_symbol) (alive : list nat) (q : list entry) : Prop := {
  q_all  : forall x, fresh ss alive x -> x ∈ q;
  q_in   : forall x, x ∈ q -> el x < length ss /\ er x < length ss /\ is_key pair_key (ek x) /\ (stale ss x \/ fresh ss alive x);
}.

Lemma fresh_not_stale ss alive x : chain ss alive -> fresh ss alive x -> ~ stale ss x.
Proof.
  intros C ((k & Ha%list_elem_of_lookup_2 & Hb%list_elem_of_lookup_2) & Hsz & _) [H|[H|H]]; [| |lia].
  - destruct (chain_len _ _ _ C Ha) as (_ & _ & _ & ?). lia.
  - destruct (chain_len _ _ _ C Hb) as (_ & _ & _ & ?). lia.
Qed.

Lemma queue_skip ss alive x q : chain ss alive -> queue_ok ss alive (x :: q) -> stale ss x -> queue_ok ss alive q.
Proof.
  intros C Q Hx. split; [|intros y Hy; apply (q_in _ _ _ Q); by right]. intros y Hy. pose proof (q_all _ _ _ Q _ Hy) as [->|Hin]%elem_of_cons; [|done].
  by apply fresh_not_stale in Hy.
Qed.

Lemma queue_perm ss alive q q' : q ≡ₚ q' -> queue_ok ss alive q -> queue_ok ss alive q'.
Proof. intros Hp Q. split; intros x; rewrite <- Hp; apply Q. Qed.

(** Adding the candidate of two neighbours. *)
Definition pushed (ss : list llm_symbol) (a b : nat) (q q' : list entry) : Prop :=
  forall x, x ∈ q' <-> x ∈ q \/ (el x = a /\ er x = b /\ esz x = len ss a + len ss b /\ pair_key (piece ss a) (piece ss b) = Some (ek x)).

Definition pushed_opt (ss : list llm_symbol) (a b : option nat) (q q' : list entry) : Prop :=
  match a, b with Some a, Some b => pushed ss a b q q' | _, _ => q' = q end.

(** Neighbours other than [a] and [b] are not concerned when [b] is removed. *)
Lemma neighbours_old l1 a b l2 x y : neighbours (l1 ++ a :: b :: l2) x y -> x <> a -> x <> b -> y <> a -> y <> b -> neighbours (l1 ++ a :: l2) x y.
Proof.
  intros (k & Hx & Hy) Hxa Hxb Hya Hyb. destruct (decide (S k < length l1)) as [Hk|Hk].
  - exists k. rewrite !lookup_app_l in * by lia. done.
  - destruct (decide (length l1 + 2 <= k)) as [Hk2|Hk2].
    + exists (k - 1). rewrite !lookup_app_r in * by lia. replace (k - length l1) with (S (S (k - length l1 - 2))) in Hx by lia.
      replace (S k - length l1) with (S (S (S (k - length l1 - 2)))) in Hy by lia. cbn in Hx, Hy.
      replace (k - 1 - length l1) with (S (k - length l1 - 2)) by lia. replace (S (k - 1) - length l1) with (S (S (k - length l1 - 2))) by lia. done.
    + exfalso. assert (S k = length l1 \/ k = length l1 \/ k = S (length l1)) as [H|[H|H]] by lia.
      * rewrite H, lookup_app_r, Nat.sub_diag in Hy by lia. by injection Hy.
      * rewrite H, lookup_app_r, Nat.sub_diag in Hx by lia. by injection Hx.
      * rewrite lookup_app_r in Hx by lia. replace (k - length l1) with 1 in Hx by lia. by injection Hx.
Qed.

Lemma neighbours_new l1 a b l2 x y : NoDup (l1 ++ a :: l2) -> neighbours (l1 ++ a :: l2) x y ->
  (x = a /\ head l2 = Some y) \/ (y = a /\ last l1 = Some x) \/ (x <> a /\ y <> a /\ neighbours (l1 ++ a :: b :: l2) x y).
Proof.
  intros Hd (k & Hx & Hy). assert ((l1 ++ a :: l2) !! length l1 = Some a) as Ha by (by rewrite lookup_app_r, Nat.sub_diag by lia).
  assert (forall j z, (l1 ++ a :: l2) !! j = Some z -> z = a -> j = length l1) as Hpos by (intros j z Hz ->; by eapply NoDup_lookup).
  destruct (decide (k = length l1)) as [->|Hka].
  - left. rewrite lookup_app_r, Nat.sub_diag in Hx by lia. injection Hx as <-. rewrite lookup_app_r in Hy by lia. replace (S (length l1) - length l1) with 1 in Hy by lia. by destruct l2.
  - destruct (decide (S k = length l1)) as [Hk|Hk].
    + right; left. rewrite Hk, Ha in Hy. injection Hy as <-. split; [done|]. rewrite lookup_app_l in Hx by lia. rewrite last_lookup. by replace (pred (length l1)) with k by lia.
    + right; right. split_and!; [intros ->; apply Hka; by eapply Hpos|intros ->; apply Hk; by eapply Hpos|].
      destruct (decide (S k < length l1)) as [Hlt|Hlt]; [exists k; rewrite !lookup_app_l in * by lia; done|].
      exists (S k). rewrite !lookup_app_r in * by lia. replace (k - length l1) with (S (k - length l1 - 1)) in Hx by lia.
      replace (S k - length l1) with (S (S (k - length l1 - 1))) in Hy |- * by lia. replace (S (S k) - length l1) with (S (S (S (k - length l1 - 1)))) by lia. done.
Qed.

Lemma pushed_opt_in ss a b q q' x : pushed_opt ss a b q q' -> x ∈ q' <-> x ∈ q \/ (a = Some (el x) /\ b = Some (er x) /\
  esz x = len ss (el x) + len ss (er x) /\ pair_key (piece ss (el x)) (piece ss (er x)) = Some (ek x)).
Proof.
  destruct a as [a|], b as [b|]; cbn; [intros Hp; rewrite (Hp x)|intros ->..]; [|naive_solver..].
  split; [intros [?|(<- & <- & ?)]; [by left|by right]|]. intros [?|([= ->] & [= ->] & ?)]; [by left|by right].
Qed.

Lemma last_neighbours l1 (a : nat) l2 x : last l1 = Some x -> neighbours (l1 ++ a :: l2) x a.
Proof.
  intros Hl. rewrite last_lookup in Hl. pose proof (lookup_lt_Some _ _ _ Hl). exists (pred (length l1)). rewrite lookup_app_l by lia. split; [done|].
  replace (S (pred (length l1))) with (length l1) by lia. by rewrite lookup_app_r, Nat.sub_diag by lia.
Qed.

Lemma head_neighbours l1 (a : nat) l2 x : head l2 = Some x -> neighbours (l1 ++ a :: l2) a x.
Proof.
  intros Hl. exists (length l1). rewrite !lookup_app_r, Nat.sub_diag by lia. replace (S (length l1) - length l1) with 1 by lia. split; [done|]. by destruct l2.
Qed.

(** The candidates added on both sides of [a] are the fresh entries that
    concern it. *)
Lemma pushed_fresh ss l1 a l2 q q1 q2 x : NoDup (l1 ++ a :: l2) -> pushed_opt ss (last l1) (Some a) q q1 -> pushed_opt ss (Some a) (head l2) q1 q2 ->
  x ∈ q2 <-> x ∈ q \/ (fresh ss (l1 ++ a :: l2) x /\ (el x = a \/ er x = a)).
Proof.
  intros Hd P1 P2. rewrite (pushed_opt_in _ _ _ _ _ x P2), (pushed_opt_in _ _ _ _ _ x P1). unfold fresh. split.
  - intros [[?|(Hl & [= ->] & H)]|([= ->] & Hh & H)]; [by left|right|right]; (split; [split; [|done]|by auto]).
    + by apply last_neighbours.
    + by apply head_neighbours.
  - intros [?|((Hnb & H) & Ha)]; [by auto|]. destruct (neighbours_new l1 a a l2 _ _ Hd Hnb) as [[E Hh]|[[E Hl]|(? & ? & _)]]; [| |naive_solver].
    + right. split; [by rewrite E|done].
    + left; right. split; [done|]. split; [by rewrite E|done].
Qed.

Lemma neighbours_elem l x y : neighbours l x y -> x ∈ l /\ y ∈ l.
Proof. intros (k & Hx & Hy). split; by eapply list_elem_of_lookup_2. Qed.

Lemma neighbours_lt ss alive x y : chain ss alive -> neighbours alive x y -> x < length ss /\ y < length ss.
Proof.
  intros C [Hx Hy]%neighbours_elem. destruct (chain_len _ _ _ C Hx) as (? & ?%lookup_lt_Some & _), (chain_len _ _ _ C Hy) as (? & ?%lookup_lt_Some & _). done.
Qed.

(** The queue after a merge: the entries of the merged symbols are outdated, and
    the new neighbours have been added. *)
Lemma queue_merge ss ss' l1 a b l2 e q q1 q2 : chain ss (l1 ++ a :: b :: l2) -> merged ss ss' l1 a b l2 -> queue_ok ss (l1 ++ a :: b :: l2) (e :: q) -> el e = a ->
  pushed_opt ss' (last l1) (Some a) q q1 -> pushed_opt ss' (Some a) (head l2) q1 q2 -> queue_ok ss' (l1 ++ a :: l2) q2.
Proof.
  intros C M Q Hea P1 P2. pose proof (mg_chain _ _ _ _ _ _ M) as C'. pose proof (sorted_NoDup _ (ch_sorted _ _ C')) as Hd.
  assert (forall x, x ∈ q2 <-> x ∈ q \/ (fresh ss' (l1 ++ a :: l2) x /\ (el x = a \/ er x = a))) as Hq2 by (intros x; by eapply pushed_fresh).
  assert (0 < len ss a /\ 0 < len ss b) as [La Lb].
  { split; [destruct (chain_len _ _ a C ltac:(set_solver)) as (_ & _ & _ & ?)|destruct (chain_len _ _ b C ltac:(set_solver)) as (_ & _ & _ & ?)]; lia. }
  destruct (mg_a _ _ _ _ _ _ M) as [Pa Lna]. pose proof (mg_b _ _ _ _ _ _ M) as Lnb. pose proof (mg_other _ _ _ _ _ _ M) as Ho.
  assert (forall x, neighbours (l1 ++ a :: l2) (el x) (er x) -> el x <> b /\ er x <> b) as not_b.
  { intros x [Hx Hy]%neighbours_elem. destruct (chain_len _ _ _ C' Hx) as (_ & _ & _ & ?), (chain_len _ _ _ C' Hy) as (_ & _ & _ & ?). split; intros E; rewrite E in *; lia. }
  split.
  - intros x F. apply Hq2. destruct (decide (el x = a \/ er x = a)) as [|Hne]; [by right|]. left.
    enough (x ∈ e :: q) as [->|?]%elem_of_cons; [naive_solver|done|]. apply (q_all _ _ _ Q). destruct F as (Hnb & Hsz & Hk).
    destruct (neighbours_new l1 a b l2 _ _ Hd Hnb) as [[? _]|[[? _]|(Hxa & Hya & Hold)]]; [naive_solver..|].
    destruct (not_b _ Hnb) as [Hxb Hyb]. destruct (Ho _ Hxa Hxb) as [Px Lx], (Ho _ Hya Hyb) as [Py Ly]. split; [done|]. by rewrite <- Px, <- Py, <- Lx, <- Ly.
  - intros x [Hx|[F Hx]]%Hq2.
    + destruct (q_in _ _ _ Q x ltac:(by right)) as (H1 & H2 & H3 & H4). rewrite (mg_len _ _ _ _ _ _ M). do 3 (split; [done|]).
      assert (forall i, len ss' i = len ss i \/ i = a \/ i = b) as Hcase by (intros i; destruct (decide (i = a)), (decide (i = b)); [auto..|]; left; by apply Ho).
      unfold stale, fresh. destruct (decide (el x = b)) as [E|Hxb]; [rewrite E; by auto|]. destruct (decide (er x = b)) as [E|Hyb]; [rewrite E; by auto|].
      destruct (decide (el x = a)) as [E|Hxa]; [|destruct (decide (er x = a)) as [E|Hya]].
      * left. destruct H4 as [[H|[H|H]]|(_ & H & _)]; destruct (Hcase (er x)) as [L|[L|L]]; rewrite ?L in *; rewrite E in *; lia.
      * left. destruct H4 as [[H|[H|H]]|(_ & H & _)]; destruct (Hcase (el x)) as [L|[L|L]]; rewrite ?L in *; rewrite E in *; lia.
      * destruct (Ho _ Hxa Hxb) as [Px Lx], (Ho _ Hya Hyb) as [Py Ly]. rewrite Px, Py, Lx, Ly. destruct H4 as [H|(Hn & H)]; [by left|right]. split; [|done]. by eapply neighbours_old.
    + destruct F as (Hnb & Hsz & Hk). destruct (neighbours_lt _ _ _ _ C' Hnb) as [Hx1 Hx2]. do 2 (split; [done|]). split; [by eexists _, _|]. by right.
Qed.

(** ** The best candidate *)

Lemma entry_less_weak {E} (proj : E -> entry) q : key_order pair_key klt keq -> (forall x, x ∈ q -> is_key pair_key (ek (proj x))) ->
  weak_order (fun x y => entry_less (proj x) (proj y)) q.
Proof.
  intros [Oi Ot On Oe] Hk. unfold entry_less. split_and!.
  - intros x Hx. rewrite Oi by auto. rewrite (bool_decide_false (el (proj x) < el (proj x))) by lia. by rewrite andb_false_r.
  - intros x y z Hx Hy Hz. specialize (Hk _ Hx) as Kx. specialize (Hk _ Hy) as Ky. specialize (Hk _ Hz) as Kz. rewrite !Oe by done.
    generalize (Ot _ _ _ Kx Ky Kz) (On _ _ _ Kx Kz Ky) (On _ _ _ Ky Kx Kz) (On _ _ _ Kx Ky Kz) (On _ _ _ Kz Ky Kx).
    destruct (klt (ek (proj x)) (ek (proj y))), (klt (ek (proj y)) (ek (proj z))), (klt (ek (proj x)) (ek (proj z))), (klt (ek (proj y)) (ek (proj x))),
      (klt (ek (proj z)) (ek (proj y))), (klt (ek (proj z)) (ek (proj x))); cbn; intros; try done; repeat case_bool_decide; try done; exfalso; (lia || naive_solver).
  - intros x y z Hx Hy Hz. specialize (Hk _ Hx) as Kx. specialize (Hk _ Hy) as Ky. specialize (Hk _ Hz) as Kz. rewrite !Oe by done.
    generalize (On _ _ _ Kx Ky Kz) (On _ _ _ Ky Kz Kx) (On _ _ _ Kz Kx Ky).
    destruct (klt (ek (proj x)) (ek (proj y))), (klt (ek (proj y)) (ek (proj z))), (klt (ek (proj x)) (ek (proj z))), (klt (ek (proj y)) (ek (proj x))),
      (klt (ek (proj z)) (ek (proj y))), (klt (ek (proj z)) (ek (proj x))); cbn; intros; try done; repeat case_bool_decide; try done; exfalso; (lia || naive_solver).
Qed.

Lemma sorted_pos l i j a b : StronglySorted lt l -> l !! i = Some a -> l !! j = Some b -> a <= b -> i <= j.
Proof.
  intros H. revert i j. induction H as [|x l H IH Hf]; intros i j Ha Hb Hab; [done|]. rewrite Forall_forall in Hf. destruct i as [|i]; [lia|]. destruct j as [|j].
  - injection Hb as ->. cbn in Ha. apply list_elem_of_lookup_2 in Ha. specialize (Hf _ Ha). lia.
  - cbn in Ha, Hb. specialize (IH _ _ Ha Hb Hab). lia.
Qed.

Lemma key_at_pieces ss alive k key : key_at pair_key (pieces ss alive) k = Some key <->
  exists a b, alive !! k = Some a /\ alive !! S k = Some b /\ pair_key (piece ss a) (piece ss b) = Some key.
Proof using Type.
  clear klt keq.
  unfold key_at, pieces. rewrite !list_lookup_fmap. destruct (alive !! k) as [a|], (alive !! S k) as [b|]; cbn; naive_solver.
Qed.

Lemma neighbours_split (alive : list nat) k a b : alive !! k = Some a -> alive !! S k = Some b -> exists l1 l2, alive = l1 ++ a :: b :: l2 /\ length l1 = k.
Proof.
  intros Ha Hb. exists (take k alive), (drop (S (S k)) alive). rewrite <- (drop_S _ _ _ Hb), <- (drop_S _ _ _ Ha), take_drop. split; [done|].
  apply length_take_le. apply lookup_lt_Some in Ha. lia.
Qed.

Lemma chain_neighbours ss alive a b : chain ss alive -> neighbours alive a b -> exists sa sb, ss !! a = Some sa /\ ss !! b = Some sb /\
  len ss a = sym_n sa /\ len ss b = sym_n sb /\ sym_string w sa (sym_n sa + sym_n sb) = Some (piece ss a ++ piece ss b) /\
  length (piece ss a ++ piece ss b) = len ss a + len ss b.
Proof using Type.
  intros C (k & Ha & Hb). destruct (neighbours_split _ _ _ _ Ha Hb) as (l1 & l2 & -> & _).
  destruct (merge_ok ss l1 a b l2 C) as (ss' & Hrun & M). destruct (merge_symbols_run _ _ _ _ _ C) as (ss2 & Hrun2 & _ & sa & sb & Hsa & Hsb & Ht & Ha' & _ & _).
  rewrite Hrun in Hrun2. injection Hrun2 as <-. exists sa, sb. unfold len. rewrite Hsa, Hsb. do 4 (split; [done|]).
  assert (a ∈ l1 ++ a :: l2) as Hin by (apply elem_of_app; right; by left).
  destruct (chain_string _ _ a _ (mg_chain _ _ _ _ _ _ M) Hin Ha') as [Hstr Hl]. destruct (mg_a _ _ _ _ _ _ M) as [Hp _]. rewrite Hp in Hstr, Hl. done.
Qed.

(** What is popped is outdated or the best pair of neighbours. *)
Lemma pop_ok {E} (proj : E -> entry) (pop : list E -> option (E * list E)) ss alive q e q' :
  priority_queue (fun x y => entry_less (proj x) (proj y)) pop -> key_order pair_key klt keq -> chain ss alive -> queue_ok ss alive (proj <$> q) -> pop q = Some (e, q') ->
  queue_ok ss alive (proj e :: (proj <$> q')) /\ length q = S (length q') /\
  (stale ss (proj e) \/ (fresh ss alive (proj e) /\ exists l1 l2, alive = l1 ++ el (proj e) :: er (proj e) :: l2 /\ best pair_key klt keq (pieces ss alive) (length l1))).
Proof.
  intros P O C Q Hpop. assert (q ≡ₚ e :: q') as Hp.
  { destruct q as [|x q]; [by rewrite (pop_nil _ _ P) in Hpop|]. destruct (pop_some _ _ P (x :: q)) as (e' & q'' & He & Hp); [done|]. rewrite Hpop in He. by injection He as -> ->. }
  assert (queue_ok ss alive (proj e :: (proj <$> q'))) as Q' by (eapply queue_perm; [|exact Q]; by rewrite Hp).
  split; [done|]. split; [by rewrite Hp|]. destruct (q_in _ _ _ Q' (proj e) ltac:(by left)) as (_ & _ & Hke & [Hs|F]); [by left|right]. split; [done|].
  destruct F as ((k & Ha & Hb) & Hsz & Hk). destruct (neighbours_split _ _ _ _ Ha Hb) as (l1 & l2 & Hl & Hlen). exists l1, l2. split; [done|].
  exists (ek (proj e)). rewrite Hlen. split; [apply key_at_pieces; by exists (el (proj e)), (er (proj e))|].
  intros j key' (a & b & Hja & Hjb & Hkey)%key_at_pieces. assert (fresh ss alive (mkEntry a b key' (len ss a + len ss b))) as F by (split; [by exists j|done]).
  pose proof (q_all _ _ _ Q' _ F) as [Heq|Hin]%elem_of_cons.
  - rewrite <- Heq in *. cbn in *. split; [by apply (ko_irrefl _ _ _ O)|]. intros _. by eapply Nat.eq_le_incl, NoDup_lookup; [apply sorted_NoDup, C|..].
  - apply list_elem_of_fmap in Hin as (x & Hx & Hin). assert (entry_less (proj e) (proj x) = false) as Hless.
    { apply (pop_top _ _ P _ _ _ Hpop); [|done]. apply entry_less_weak; [done|]. intros y Hy. apply (q_in _ _ _ Q). by apply list_elem_of_fmap_2. }
    rewrite <- Hx in Hless. unfold entry_less in Hless. cbn in Hless. apply orb_false_iff in Hless as [H1 H2]. split; [done|]. intros H3. rewrite H3 in H2. cbn in H2.
    apply bool_decide_eq_false in H2. eapply sorted_pos; [apply C|exact Ha|exact Hja|lia].
Qed.

(** With an empty queue nothing can be merged. *)
Lemma queue_empty ss alive : queue_ok ss alive [] -> forall k, key_at pair_key (pieces ss alive) k = None.
Proof using Type.
  intros Q k. destruct (key_at pair_key (pieces ss alive) k) as [key|] eqn:E; [|done]. apply key_at_pieces in E as (a & b & Ha & Hb & Hk). exfalso.
  apply (not_elem_of_nil (mkEntry a b key (len ss a + len ss b))). apply (q_all _ _ _ Q). split; [by exists k|done].
Qed.

(** ** The first candidates *)

Definition seeded (ss : list llm_symbol) (m : nat) (q : list entry) : Prop := forall x, x ∈ q <->
  S (el x) = er x /\ er x < m /\ esz x = len ss (el x) + len ss (er x) /\ pair_key (piece ss (el x)) (piece ss (er x)) = Some (ek x).

Lemma seeded_nil ss : seeded ss 1 [].
Proof. intros x. split; [intros H; by apply not_elem_of_nil in H|lia]. Qed.

Lemma seeded_step ss m q q' : seeded ss (S m) q -> pushed ss m (S m) q q' -> seeded ss (S (S m)) q'.
Proof.
  intros Hs Hp x. rewrite (Hp x), (Hs x). split.
  - intros [(? & ? & ?)|(<- & <- & ?)]; (split_and!; [lia|lia|naive_solver..]).
  - intros (H1 & H2 & H3). destruct (decide (er x < S m)); [by left|right]. assert (el x = m) as <- by lia. by rewrite H1.
Qed.

Lemma seeded_ok ss n q : chain ss (seq 0 n) -> 0 < n -> seeded ss n q -> queue_ok ss (seq 0 n) q.
Proof.
  intros C Hn Hs. assert (forall x, x ∈ q <-> fresh ss (seq 0 n) x) as Heq.
  { intros x. rewrite (Hs x). unfold fresh. split.
    - intros (H1 & H2 & H3). split; [|done]. exists (el x). rewrite !lookup_seq_lt by lia. by rewrite <- H1.
    - intros ((k & [Ha ?]%lookup_seq & [Hb ?]%lookup_seq) & Hf1 & Hf2). split_and!; [lia|lia|done..]. }
  split; intros x Hx; [by apply Heq|]. apply Heq in Hx. pose proof Hx as (Hnb & _ & Hk). destruct (neighbours_lt _ _ _ _ C Hnb) as [H1 H2].
  split; [done|]. split; [done|]. split; [by eexists _, _|by right].
Qed.

End Queue.
End Chain.

(** * Splitting a text into its characters *)

Lemma unicode_len_pos c : 0 < unicode_len_utf8 c <= 4.
Proof.
  unfold unicode_len_utf8. assert (0 < default 0 (len_lookup !! Z.to_nat (Z.shiftr (u8 c) 4)) <= 4) as Hr; [|exact Hr].
  apply (byte_forall (fun z => 0 < default 0 (len_lookup !! Z.to_nat (Z.shiftr z 4)) <= 4)). vm_compute. reflexivity.
Qed.

Lemma utf8_pieces_concat fuel : forall s, length s <= fuel -> concat (utf8_pieces fuel s) = s.
Proof.
  induction fuel as [|fuel IH]; intros [|c s] Hf; try done; [cbn in Hf; lia|]. cbn [utf8_pieces concat]. rewrite IH.
  - apply take_drop.
  - pose proof (unicode_len_pos c). rewrite length_drop. cbn [length] in *. lia.
Qed.

Lemma sorted_seq n : forall k, StronglySorted lt (seq k n).
Proof. induction n as [|n IH]; intros k; constructor; [done|]. apply Forall_forall. intros x Hx%elem_of_seq. lia. Qed.

Lemma sorted_filter (Q : nat -> Prop) `{!forall x, Decision (Q x)} l : StronglySorted lt l -> StronglySorted lt (filter Q l).
Proof.
  induction 1 as [|x l Hs IH Hf]; [constructor|]. rewrite filter_cons. case_decide; [|done]. constructor; [done|]. apply Forall_forall.
  intros y [_ Hy]%list_elem_of_filter. rewrite Forall_forall in Hf. by apply Hf.
Qed.

Section Split.
Context (w : list byte).

Lemma split_symbols_ok fuel : forall offs ss, offs <= length w -> length w - offs <= fuel ->
  lseg ss (-1) 0 (seq 0 (length ss)) (if bool_decide (offs = length w) then -1 else Z.of_nat (length ss)) offs ->
  exists ss', split_symbols fuel w (Z.of_nat (length ss)) offs ss = Some ss' /\ lseg ss' (-1) 0 (seq 0 (length ss')) (-1) (length w) /\
    pieces w ss' (seq 0 (length ss')) = pieces w ss (seq 0 (length ss)) ++ utf8_pieces fuel (drop offs w).
Proof.
  induction fuel as [|fuel IH]; intros offs ss Ho Hf L; cbn [split_symbols].
  - assert (offs = length w) as -> by lia. rewrite bool_decide_false by lia. rewrite bool_decide_true in L by done. exists ss. split; [done|]. split; [done|]. by rewrite app_nil_r.
  - destruct (decide (offs < length w)) as [Hlt|Hge]; [rewrite bool_decide_true by done|].
    2: { assert (offs = length w) as -> by lia. rewrite bool_decide_false by lia. rewrite bool_decide_true in L by done. exists ss. split; [done|]. split; [done|]. by rewrite drop_all, app_nil_r. }
    destruct (lookup_lt_is_Some_2 w offs Hlt) as [c Hc]. rewrite Hc. cbn [mbind option_bind]. pose proof (unicode_len_pos c) as Hlen.
    set (n := min (unicode_len_utf8 c) (length w - offs)). set (sym := mkSym _ _ _ n).
    assert (lseg (ss ++ [sym]) (-1) 0 (seq 0 (length (ss ++ [sym]))) (if bool_decide (offs + n = length w) then -1 else Z.of_nat (length (ss ++ [sym]))) (offs + n)) as L'.
    { rewrite length_app, Nat.add_1_r, seq_S, Nat.add_0_l. apply lseg_app. exists offs. split.
      - apply (lseg_frame ss); [intros i Hi%elem_of_seq; apply lookup_app_l; lia|]. rewrite bool_decide_false in L by lia. done.
      - exists sym. rewrite lookup_app_r, Nat.sub_diag by lia. split; [done|]. split; [unfold sym, n; cbn; lia|]. split; [|split; [|done]].
        + unfold lst, sym. cbn. clear. destruct (length ss) as [|m]; [done|]. rewrite seq_S, foldl_app. cbn. lia.
        + unfold sym. cbn. case_bool_decide; case_bool_decide; try lia. }
    destruct (IH (offs + n) (ss ++ [sym])) as (ss' & Hrun & Hl & Hp); [unfold n; lia|unfold n; lia|done|].
    exists ss'. split; [rewrite <- Hrun; f_equal; rewrite length_app; cbn; lia|]. split; [done|]. rewrite Hp, (drop_S w c offs Hc). cbn [utf8_pieces].
    rewrite <- (drop_S w c offs Hc), length_app, Nat.add_1_r, seq_S. unfold pieces. rewrite fmap_app, <- app_assoc. f_equal; [|cbn; f_equal].
    + apply list_fmap_ext. intros k i Hi. apply list_elem_of_lookup_2, elem_of_seq in Hi. unfold piece. by rewrite lookup_app_l by lia.
    + unfold piece. rewrite lookup_app_r, Nat.sub_diag by lia. cbn. unfold n. destruct (decide (unicode_len_utf8 c <= length w - offs)) as [Hle|Hgt]; [by rewrite Nat.min_l|].
      rewrite Nat.min_r by lia. rewrite !take_ge by (rewrite length_drop; lia). done.
    + rewrite drop_drop. destruct (decide (unicode_len_utf8 c <= length w - offs)) as [Hle|Hgt]; [unfold n; by rewrite Nat.min_l|].
      rewrite !drop_ge by (unfold n; lia). done.
Qed.

Lemma split_chain : exists ss, split_symbols (length w) w 0 0 [] = Some ss /\ chain w ss (seq 0 (length ss)) /\
  pieces w ss (seq 0 (length ss)) = utf8_pieces (length w) w /\ (w <> [] -> 0 < length ss).
Proof.
  destruct (split_symbols_ok (length w) 0 []) as (ss & Hrun & Hl & Hp); [lia|lia|cbn; done|]. exists ss. split; [done|]. split; [split|split].
  - done.
  - apply sorted_seq.
  - intros i Hi. unfold len. rewrite lookup_ge_None_2; [done|]. rewrite elem_of_seq in Hi. lia.
  - by rewrite Hp.
  - intros Hw. destruct ss as [|s ss]; [|cbn; lia]. cbn in Hl. by destruct w.
Qed.
End Split.

End MergeChain.
