(* ===== verification/SpmTok.v ===== *)
(** The SPM tokenizer ([llm_tokenizer_spm_session] of
    [llama_cpp_repo/src/llama-vocab.cpp]): characters are merged into the tokens
    with the best scores, found with a priority queue that may hold outdated
    pairs.  The result is that of the greedy reference. *)

From S2P Require Import Bytes.
From S2P Require Import Utf8.
From S2P Require Import Vocab.
From S2P Require Import VocabOk.
From S2P Require Import MergeChain.
Import Utf8.Utf8 Vocab.Vocab VocabOk.VocabOk MergeChain.MergeChain.

Module SpmTok.

Section Spm.
Context `{FO : FloatOps}.

#[local] Abbreviation outcome := (Prelude.outcome tok_error).

Record llm_bigram_spm := mkBigram { left : nat; right : nat; bscore : float; size : nat }.

Definition comparator (l r : llm_bigram_spm) : bool :=
  flt (bscore l) (bscore r) || (feq (bscore l) (bscore r) && bool_decide (left r < left l)).

Record llm_tokenizer_spm_session := mkSession { symbols : list llm_symbol; work_queue : list llm_bigram_spm; rev_merge : gmap (list byte) (nat * nat) }.

(** [pop] is [top] and [pop] of [std::priority_queue]. *)
Context (V : llama_vocab) (pop : list llm_bigram_spm -> option (llm_bigram_spm * list llm_bigram_spm)).

Definition try_add_bigram (text : list byte) (left right : Z) (s : llm_tokenizer_spm_session) : outcome llm_tokenizer_spm_session :=
  if bool_decide (left = -1)%Z || bool_decide (right = -1)%Z then Done s else
  l ← index left (symbols s);
  r ← index right (symbols s);
  t ← of_option (sym_string text l (sym_n l + sym_n r));
  token ← text_to_token V t;
  if bool_decide (token = LLAMA_TOKEN_NULL) then Done s else
  if bool_decide (n_tokens V <= u32_wrap token)%Z then Done s else
  tok_data ← get_token_data V token;
  let bigram := mkBigram (Z.to_nat left) (Z.to_nat right) (score tok_data) (length t) in
  Done (mkSession (symbols s) (bigram :: work_queue s) (<[t := (Z.to_nat left, Z.to_nat right)]> (rev_merge s))).

(** One turn of the loop that merges. *)
Definition merge_step (text : list byte) (bigram : llm_bigram_spm) (s : llm_tokenizer_spm_session) : outcome llm_tokenizer_spm_session :=
  left_sym ← of_option (symbols s !! left bigram);
  right_sym ← of_option (symbols s !! right bigram);
  if bool_decide (sym_n left_sym = 0) || bool_decide (sym_n right_sym = 0) || negb (bool_decide (sym_n left_sym + sym_n right_sym = size bigram)) then Done s else
  symbols ← of_option (merge_symbols (left bigram) (right bigram) (symbols s));
  left_sym ← of_option (symbols !! left bigram);
  s ← try_add_bigram text (sym_prev left_sym) (Z.of_nat (left bigram)) (mkSession symbols (work_queue s) (rev_merge s));
  try_add_bigram text (Z.of_nat (left bigram)) (sym_next left_sym) s.

Fixpoint merge_loop (fuel : nat) (text : list byte) (s : llm_tokenizer_spm_session) : outcome llm_tokenizer_spm_session :=
  match pop (work_queue s) with
  | None => Done s
  | Some (bigram, queue) =>
      match fuel with
      | 0 => Undefined
      | S fuel => s ← merge_step text bigram (mkSession (symbols s) queue (rev_merge s)); merge_loop fuel text s
      end
  end.

(** The loop over the bytes of a symbol without a token. *)
Definition emit_bytes (t : list byte) (output : list Z) : outcome (list Z) :=
  foldO (fun c output => id ← byte_to_token V c; Done (output ++ [id])) t output.

Fixpoint resegment (fuel : nat) (text : list byte) (s : llm_tokenizer_spm_session) (symbol : llm_symbol) (output : list Z) : outcome (list Z) :=
  t ← of_option (sym_string text symbol (sym_n symbol));
  token ← text_to_token V t;
  if bool_decide (token <> LLAMA_TOKEN_NULL) then Done (output ++ [token]) else
  match rev_merge s !! t with
  | None => emit_bytes t output
  | Some (l, r) =>
      match fuel with
      | 0 => Undefined
      | S fuel =>
          l ← of_option (symbols s !! l);
          output ← resegment fuel text s l output;
          r ← of_option (symbols s !! r);
          resegment fuel text s r output
      end
  end.

(** [for (int i = 0; i != -1; i = symbols[i].next)]. *)
Fixpoint output_loop (fuel : nat) (text : list byte) (s : llm_tokenizer_spm_session) (i : Z) (output : list Z) : outcome (list Z) :=
  if bool_decide (i = -1)%Z then Done output else
  match fuel with
  | 0 => Undefined
  | S fuel =>
      symbol ← index i (symbols s);
      output ← resegment 0 text s symbol output;
      output_loop fuel text s (sym_next symbol) output
  end.

Definition tokenize (text : list byte) (output : list Z) : outcome (list Z) :=
  symbols ← of_option (split_symbols (length text) text 0 0 []);
  s ← foldO (fun i => try_add_bigram text (Z.of_nat i - 1) (Z.of_nat i)) (seq 1 (length symbols - 1)) (mkSession symbols [] ∅);
  s ← merge_loop (3 * length symbols) text s;
  output_loop (length symbols) text s 0 output.

End Spm.

(** * The greedy reference *)

(** Two pieces may be merged when their concatenation is a token; the key is
    its score. *)
Definition spm_key `{FO : FloatOps} (V : llama_vocab) (a b : list byte) : option float :=
  id ← token_to_id V !! (a ++ b); d ← id_to_token V !! Z.to_nat id; Some (score d).

(** The tokens of a piece: its own, or those of its bytes. *)
Definition emit `{FO : FloatOps} (V : llama_vocab) (p : list byte) (output : list Z) : Prelude.outcome tok_error (list Z) :=
  match token_to_id V !! p with Some id => Done (output ++ [id]) | None => emit_bytes V p output end.

Section Correct.
Context `{FO : FloatOps} (V : llama_vocab) (pop : list llm_bigram_spm -> option (llm_bigram_spm * list llm_bigram_spm)).
Context (W : vocab_ok V) (P : priority_queue comparator pop) (O : key_order (spm_key V) flt feq).
Context (text : list byte).

Definition proj (b : llm_bigram_spm) : entry (K := float) := mkEntry (left b) (right b) (bscore b) (size b).

(** Only the texts of tokens are remembered. *)
Definition rev_ok (s : llm_tokenizer_spm_session) : Prop := forall t, is_Some (rev_merge s !! t) -> is_Some (token_to_id V !! t).

Lemma try_add_ok s a b : (forall x y, a = Some x -> b = Some y -> exists alive, chain text (symbols s) alive /\ neighbours alive x y) -> rev_ok s ->
  exists s', try_add_bigram V text (idx a) (idx b) s = Done s' /\ symbols s' = symbols s /\ rev_ok s' /\ length (work_queue s') <= S (length (work_queue s)) /\
    pushed_opt text (spm_key V) (symbols s) a b (proj <$> work_queue s) (proj <$> work_queue s').
Proof.
  intros Hnb R. unfold try_add_bigram. destruct a as [a|]; [|exists s; split_and!; try done; lia].
  destruct b as [b|]; [|cbn [idx from_option]; rewrite orb_true_r; exists s; split_and!; try done; lia].
  destruct (Hnb a b eq_refl eq_refl) as (alive & C & Hn). destruct (chain_neighbours _ _ _ _ _ C Hn) as (sa & sb & Ha & Hb & La & Lb & Hstr & Hlen).
  cbn [idx from_option]. rewrite !bool_decide_false by lia. cbn [orb]. rewrite (index_ok _ _ _ Ha), (index_ok _ _ _ Hb). cbn [mbind outcome_bind]. rewrite Hstr. cbn [of_option mbind outcome_bind].
  rewrite text_to_token_ok by done. cbn [mbind outcome_bind]. unfold pushed_opt, pushed, spm_key. set (t := piece text (symbols s) a ++ piece text (symbols s) b) in *.
  destruct (token_to_id V !! t) as [id|] eqn:Et; cbn [default from_option Datatypes.id].
  2: { rewrite bool_decide_true by done. exists s. split_and!; try done; [lia|]. intros x. cbn. naive_solver. }
  destruct (token_data_ok V t id W Et) as (d & Hdt & Hd & Hu & Hr & Hget). rewrite bool_decide_false by (by eapply token_not_null).
  rewrite Hu, bool_decide_false by lia. rewrite Hget. cbn [mbind outcome_bind]. eexists. split; [reflexivity|]. cbn [symbols work_queue rev_merge]. split_and!.
  - done.
  - intros u [y Hy]. cbn [rev_merge] in Hy. apply lookup_insert_Some in Hy as [[<- _]|[_ Hy]]; [by rewrite Et|]. apply R. by eexists.
  - cbn. lia.
  - intros x. cbn [fmap list_fmap mbind option_bind]. rewrite elem_of_cons, !Nat2Z.id, Hd. cbn. unfold proj. cbn [left right bscore size]. split.
    + intros [->|?]; [right|by left]. cbn. rewrite Hlen. done.
    + intros [?|(<- & <- & Hs & [= Hk])]; [by right|left]. destruct x as [l r k sz]. cbn in *. rewrite Hlen. by subst.
Qed.

Record inv (s : llm_tokenizer_spm_session) (alive : list nat) : Prop := {
  iv_chain : chain text (symbols s) alive;
  iv_queue : queue_ok text (spm_key V) (symbols s) alive (proj <$> work_queue s);
  iv_rev   : rev_ok s;
}.

#[local] Abbreviation ps s alive := (pieces text (symbols s) alive).

(** One turn leaves the chain as it is or merges the best pair. *)
Lemma spm_merge_step_ok q alive bigram s : inv (mkSession (symbols s) q (rev_merge s)) alive -> pop q = Some (bigram, work_queue s) ->
  exists s' alive', merge_step V text bigram s = Done s' /\ inv s' alive' /\ (head alive' = head alive /\ length alive' <= length alive) /\
    length (work_queue s') + 2 * length alive' < length q + 2 * length alive /\
    (ps s' alive' = ps s alive \/ exists k, best (spm_key V) flt feq (ps s alive) k /\ ps s' alive' = merge_at k (ps s alive)).
Proof.
  intros [C Q R] Hpop. cbn [symbols work_queue rev_merge] in *. destruct (pop_ok text (spm_key V) flt feq proj pop _ _ _ _ _ P O C Q Hpop) as (Q' & Hlen & Hcase).
  destruct (q_in _ _ _ _ _ Q' (proj bigram) ltac:(by left)) as (Hl & Hr & _). cbn in Hl, Hr.
  destruct (lookup_lt_is_Some_2 _ _ Hl) as [sl Hsl], (lookup_lt_is_Some_2 _ _ Hr) as [sr Hsr].
  unfold merge_step. rewrite Hsl, Hsr. cbn [of_option mbind outcome_bind].
  assert (sym_n sl = len (symbols s) (left bigram) /\ sym_n sr = len (symbols s) (right bigram)) as [Ll Lr] by (unfold len; by rewrite Hsl, Hsr). rewrite Ll, Lr.
  destruct Hcase as [Hst|[F (l1 & l2 & -> & Hb)]].
  - exists s, alive. split; [|split; [split; [done|by eapply queue_skip|done]|split; [done|split; [lia|by left]]]].
    destruct Hst as [H|[H|H]]; cbn in H; [by rewrite bool_decide_true|rewrite (bool_decide_true (len _ (right _) = 0)) by done; by rewrite orb_true_r|].
    rewrite (bool_decide_false (_ = size bigram)) by lia. by rewrite !orb_true_r.
  - cbn [proj el er] in C, Q, Q', F, Hb |- *. set (a := left bigram) in *. set (b := right bigram) in *. destruct F as (_ & Hsz & _). cbn in Hsz. fold a b in Hsz.
    destruct (chain_len _ _ _ a C ltac:(set_solver)) as (_ & _ & _ & La), (chain_len _ _ _ b C ltac:(set_solver)) as (_ & _ & _ & Lb).
    rewrite !bool_decide_false by lia. rewrite bool_decide_true by lia. cbn [orb negb].
    destruct (merge_ok _ _ _ _ _ _ C) as (ss' & -> & M). cbn [of_option mbind outcome_bind]. pose proof (mg_chain _ _ _ _ _ _ _ M) as C'.
    destruct (chain_at _ _ _ _ _ C') as (sa & Hsa & _ & Hp & Hnx & _). rewrite Hsa. cbn [of_option mbind outcome_bind]. rewrite Hp, lst_idx, Hnx, nxt_idx.
    change (Z.of_nat a) with (idx (Some a)).
    destruct (try_add_ok (mkSession ss' (work_queue s) (rev_merge s)) (last l1) (Some a)) as (s1 & -> & E1 & R1 & G1 & P1); [|done|].
    { intros x y Hx [= <-]. exists (l1 ++ a :: l2). split; [done|]. by apply last_neighbours. }
    cbn [mbind outcome_bind symbols work_queue] in *. rewrite <- E1 in C', M, P1.
    destruct (try_add_ok s1 (Some a) (head l2)) as (s2 & -> & E2 & R2 & G2 & P2); [|done|].
    { intros x y [= <-] Hy. exists (l1 ++ a :: l2). split; [done|]. by apply head_neighbours. }
    rewrite <- E2 in C', M, P1, P2. exists s2, (l1 ++ a :: l2). split; [done|]. split; [split; [done| |done]|].
    + by eapply queue_merge; [exact C|exact M|exact Q'| |exact P1|exact P2].
    + split; [split; [by destruct l1|rewrite !length_app; cbn; lia]|]. split; [rewrite !length_app; cbn; lia|]. right. exists (length l1). split; [done|]. by eapply merged_pieces.
Qed.

Lemma spm_merge_loop_ok fuel : forall s alive, inv s alive -> length (work_queue s) + 2 * length alive <= fuel ->
  exists s' alive', merge_loop V pop fuel text s = Done s' /\ inv s' alive' /\ (head alive' = head alive /\ length alive' <= length alive) /\ greedy (spm_key V) flt feq (ps s alive) (ps s' alive').
Proof.
  induction fuel as [|fuel IH]; intros s alive I Hf.
  - destruct s as [ss q rm]. cbn [work_queue] in *. destruct q as [|x q]; [|cbn in Hf; lia]. cbn [merge_loop work_queue]. rewrite (pop_nil _ _ P).
    exists (mkSession ss [] rm), alive. split_and!; [done|done|done|done|]. apply greedy_done. eapply queue_empty. exact (iv_queue _ _ I).
  - cbn [merge_loop]. destruct (pop (work_queue s)) as [[bigram q]|] eqn:Hpop.
    + destruct (spm_merge_step_ok (work_queue s) alive bigram (mkSession (symbols s) q (rev_merge s))) as (s1 & alive1 & -> & I1 & [Hh Hl] & Hm & Hps); [by destruct s|done|].
      cbn [mbind outcome_bind symbols work_queue] in *. destruct (IH s1 alive1 I1 ltac:(lia)) as (s2 & alive2 & -> & I2 & [Hh2 Hl2] & G). exists s2, alive2. split; [done|]. split; [done|]. split; [split; [congruence|lia]|].
      destruct Hps as [Hps|(k & Hb & Hps)]; rewrite Hps in G; [done|]. by eapply greedy_step.
    + exists s, alive. split_and!; [done|done|done|done|]. apply greedy_done. eapply queue_empty. pose proof (iv_queue _ _ I) as Q.
      destruct (work_queue s) as [|x q]; [exact Q|]. destruct (pop_some _ _ P (x :: q)) as (e & q' & He & _); [done|]. by rewrite Hpop in He.
Qed.

Lemma spm_seeds_ok ss m : chain text ss (seq 0 (length ss)) -> m < length ss ->
  exists s, foldO (fun i => try_add_bigram V text (Z.of_nat i - 1) (Z.of_nat i)) (seq 1 m) (mkSession ss [] ∅) = Done s /\
    symbols s = ss /\ rev_ok s /\ length (work_queue s) <= m /\ seeded text (spm_key V) ss (S m) (proj <$> work_queue s).
Proof.
  intros C Hm. destruct (foldO_seq (fun i => try_add_bigram V text (Z.of_nat i - 1) (Z.of_nat i))
    (fun i s => symbols s = ss /\ rev_ok s /\ length (work_queue s) <= i - 1 /\ seeded text (spm_key V) ss i (proj <$> work_queue s)) 1 m (mkSession ss [] ∅))
    as (s & Hrun & H1 & H2 & H3 & H4).
  - split_and!; [done|intros t [y Hy]; cbn [rev_merge] in Hy; by rewrite lookup_empty in Hy|cbn; lia|]. apply seeded_nil.
  - intros i s Hi (H1 & H2 & H3 & H4). destruct i as [|i]; [lia|]. replace (Z.of_nat (S i) - 1)%Z with (idx (Some i)) by (cbn; lia). change (Z.of_nat (S i)) with (idx (Some (S i))).
    destruct (try_add_ok s (Some i) (Some (S i))) as (s' & -> & E & R & G & Pu); [|done|].
    { intros x y [= <-] [= <-]. exists (seq 0 (length ss)). rewrite H1. split; [done|]. exists i. rewrite !lookup_seq_lt by lia. done. }
    exists s'. split; [done|]. rewrite Nat.add_1_r. split; [congruence|]. split; [done|]. split; [lia|]. rewrite H1 in Pu. by eapply seeded_step.
  - exists s. split_and!; [done|done|done|lia|done].
Qed.

Lemma resegment_ok s symbol p output : rev_ok s -> sym_string text symbol (sym_n symbol) = Some p -> resegment V 0 text s symbol output = emit V p output.
Proof.
  intros R Hp. cbn [resegment]. rewrite Hp. cbn [of_option mbind outcome_bind]. rewrite text_to_token_ok by done. cbn [mbind outcome_bind]. unfold emit.
  destruct (token_to_id V !! p) as [id|] eqn:E; cbn [default from_option Datatypes.id]; [rewrite bool_decide_true by (by eapply token_not_null); done|].
  rewrite bool_decide_false by (by intros H). destruct (rev_merge s !! p) as [[l r]|] eqn:Er; [|done]. destruct (R p) as [id Hid]; [by eexists|]. by rewrite E in Hid.
Qed.

Lemma spm_output_loop_ok s l : forall fuel l1 output, inv s (l1 ++ l) -> length l <= fuel ->
  output_loop V fuel text s (idx (head l)) output = foldO (emit V) (ps s l) output.
Proof.
  induction l as [|i l IH]; intros fuel l1 output I Hf.
  - destruct fuel; done.
  - destruct fuel as [|fuel]; [cbn in Hf; lia|]. cbn [output_loop head idx from_option]. rewrite bool_decide_false by lia.
    destruct (chain_at _ _ _ _ _ (iv_chain _ _ I)) as (sy & Hs & _ & _ & Hnx & _). rewrite (index_ok _ _ _ Hs). cbn [mbind outcome_bind].
    destruct (chain_string _ _ _ i _ (iv_chain _ _ I) ltac:(set_solver) Hs) as [Hstr _]. rewrite (resegment_ok _ _ _ _ (iv_rev _ _ I) Hstr).
    cbn [pieces fmap list_fmap foldO]. destruct (emit V (piece text (symbols s) i) output) as [o| |]; cbn [mbind outcome_bind]; [|done|done].
    rewrite Hnx, nxt_idx. apply (IH _ (l1 ++ [i])); [by rewrite <- app_assoc|cbn in Hf; lia].
Qed.

Lemma tokenize_ok output : text <> [] -> exists ps, greedy (spm_key V) flt feq (utf8_pieces (length text) text) ps /\
  tokenize V pop text output = foldO (emit V) ps output.
Proof.
  intros Ht. destruct (split_chain text) as (ss & Hss & C & Hp & Hpos). specialize (Hpos Ht). unfold tokenize. rewrite Hss. cbn [of_option mbind outcome_bind].
  destruct (spm_seeds_ok ss (length ss - 1) C ltac:(lia)) as (s & -> & E & R & Hq & Hs). cbn [mbind outcome_bind].
  replace (S (length ss - 1)) with (length ss) in Hs by lia.
  assert (inv s (seq 0 (length ss))) as I by (split; [by rewrite E|rewrite E; by eapply seeded_ok|done]).
  destruct (spm_merge_loop_ok (3 * length ss) s _ I) as (s' & alive & -> & I' & [Hh Hl] & G); [rewrite length_seq; lia|]. cbn [mbind outcome_bind].
  rewrite E, Hp in G. exists (pieces text (symbols s') alive). split; [done|].
  assert (head alive = Some 0) as Hh0 by (rewrite Hh; destruct (length ss); [lia|done]). pose proof (spm_output_loop_ok s' alive (length ss) [] output I') as Hout. rewrite Hh0 in Hout. apply Hout.
  by rewrite length_seq in Hl.
Qed.

End Correct.

(** C32: the SPM tokenizer always answers, with the tokens of the pieces that the
    greedy reference computes from the characters of the text: as long as some
    neighbours concatenate to a token, those with the best score are merged, the
    first ones if there are several.  The priority queue with its outdated
    entries makes no difference, the pieces are determined by the text, and
    together they are the text.  A piece that is no token is emitted as the
    tokens of its bytes, which may throw when the vocabulary has none. *)
Theorem spm_tokenize_greedy `{FO : FloatOps} (V : llama_vocab) (pop : list llm_bigram_spm -> option (llm_bigram_spm * list llm_bigram_spm))
    (text : list byte) (output : list Z) :
  vocab_ok V -> priority_queue comparator pop -> key_order (spm_key V) flt feq -> text <> [] ->
  exists ps, tokenize V pop text output = foldO (emit V) ps output /\ concat ps = text /\
    forall ps', greedy (spm_key V) flt feq (utf8_pieces (length text) text) ps' <-> ps' = ps.
Proof.
  intros W P O Ht. destruct (tokenize_ok V pop W P O text output Ht) as (ps & G & Hrun). exists ps. split; [done|]. split.
  - rewrite (greedy_concat _ _ _ _ _ G). by apply utf8_pieces_concat.
  - intros ps'. split; [|by intros ->]. intros G'. by eapply greedy_unique.
Qed.

(** ** An example *)

Definition demo_tables : load_state (FO := demo_floats) := tables (FO := demo_floats) [[x61]; [x62]; [x61; x62]; [x62; x62]] (Some [0; 0; 2; 1]%Z).

Definition demo_vocab : llama_vocab (FO := demo_floats) := mkVocab (FO := demo_floats) SPM (snd demo_tables) (-1) (-1) (-1) (-1) false false false false false false true false
  (fst (fst demo_tables)) (snd (fst demo_tables)) [] [] ∅.

Lemma spm_demo_vocab_ok : vocab_ok (FO := demo_floats) demo_vocab.
Proof.
  apply (loaded_vocab_ok (FO := demo_floats) _ [[x61]; [x62]; [x61; x62]; [x62; x62]] (Some [0; 0; 2; 1]%Z) None); [|discriminate|reflexivity].
  apply (tables_ok (FO := demo_floats)). by_eval.
Qed.

(** "abb": "ab" scores more than "bb". *)
Lemma spm_tokenize_greedy_witness : exists ps, tokenize (FO := demo_floats) demo_vocab (scan_pop (comparator (FO := demo_floats))) [x61; x62; x62] [] = foldO (emit (FO := demo_floats) demo_vocab) ps [] /\
  concat ps = [x61; x62; x62] /\ forall ps', greedy (spm_key (FO := demo_floats) demo_vocab) Z.ltb Z.eqb [[x61]; [x62]; [x62]] ps' <-> ps' = ps.
Proof.
  apply (spm_tokenize_greedy (FO := demo_floats) demo_vocab (scan_pop (comparator (FO := demo_floats))) [x61; x62; x62] []).
  - exact spm_demo_vocab_ok.
  - apply scan_pop_queue.
  - apply z_order.
  - discriminate.
Defined.

Lemma spm_demo : tokenize (FO := demo_floats) demo_vocab (scan_pop (comparator (FO := demo_floats))) [x61; x62; x62] [] = Done [2; 1]%Z.
Proof. vm_compute. reflexivity. Qed.


End SpmTok.
