(* ===== verification/BpeTok.v ===== *)
(** The BPE tokenizer ([llm_tokenizer_bpe_session] of
    [llama_cpp_repo/src/llama-vocab.cpp]): the words that the regular expressions
    find are merged by the ranks of a table, and the symbols of all words are
    linked again before they become tokens. *)

From stdpp Require Import sorting.
From S2P Require Import Bytes.
From S2P Require Import Utf8.
From S2P Require Import Vocab.
From S2P Require Import VocabOk.
From S2P Require Import MergeChain.
Import Utf8.Utf8 Vocab.Vocab VocabOk.VocabOk MergeChain.MergeChain.

Module BpeTok.

Section Bpe.
Context `{FO : FloatOps}.

#[local] Abbreviation outcome := (Prelude.outcome tok_error).

Record llm_bigram_bpe := mkBigram { left : nat; right : nat; btext : list byte; rank : Z; size : nat }.

Definition comparator (l r : llm_bigram_bpe) : bool :=
  bool_decide (rank r < rank l)%Z || (bool_decide (rank l = rank r) && bool_decide (left r < left l)).

(** A symbol of [symbols_final]: the words stay as they are, so that the symbol
    is its string. *)
Record final_symbol := mkFinal { f_prev : Z; f_next : Z; f_str : list byte }.

(** What [tokenize] keeps for one word. *)
Record word_state := mkWord { symbols : list llm_symbol; work_queue : list llm_bigram_bpe }.

(** [pop] is [pop_move]; [unicode_regex_split] applied to the expressions of the
    vocabulary is an argument. *)
Context (V : llama_vocab) (pop : list llm_bigram_bpe -> option (llm_bigram_bpe * list llm_bigram_bpe)).
Context (unicode_regex_split : list byte -> list (list byte)).

Definition append_bos (output : list Z) : outcome (list Z) :=
  if add_bos V then _ ← must (bool_decide (special_bos_id V <> LLAMA_TOKEN_NULL)); Done (output ++ [special_bos_id V]) else Done output.

Definition append_eos (output : list Z) : outcome (list Z) :=
  if add_eos V then _ ← must (bool_decide (special_eos_id V <> LLAMA_TOKEN_NULL)); Done (output ++ [special_eos_id V]) else Done output.

Definition add_new_bigram (word : list byte) (left right : Z) (s : word_state) : outcome word_state :=
  if bool_decide (left = -1)%Z || bool_decide (right = -1)%Z then Done s else
  l ← index left (symbols s);
  left_token ← of_option (sym_string word l (sym_n l));
  r ← index right (symbols s);
  right_token ← of_option (sym_string word r (sym_n r));
  rank_found ← find_bpe_rank V left_token right_token;
  if bool_decide (rank_found < 0)%Z then Done s else
  let bigram := mkBigram (Z.to_nat left) (Z.to_nat right) (left_token ++ right_token) rank_found (length left_token + length right_token) in
  Done (mkWord (symbols s) (bigram :: work_queue s)).

Definition merge_step (word : list byte) (bigram : llm_bigram_bpe) (s : word_state) : outcome word_state :=
  left_symbol ← of_option (symbols s !! left bigram);
  right_symbol ← of_option (symbols s !! right bigram);
  if bool_decide (sym_n left_symbol = 0) || bool_decide (sym_n right_symbol = 0) then Done s else
  left_token ← of_option (sym_string word left_symbol (sym_n left_symbol));
  right_token ← of_option (sym_string word right_symbol (sym_n right_symbol));
  if bool_decide (left_token ++ right_token <> btext bigram) then Done s else
  symbols ← of_option (merge_symbols (left bigram) (right bigram) (symbols s));
  left_symbol ← of_option (symbols !! left bigram);
  s ← add_new_bigram word (sym_prev left_symbol) (Z.of_nat (left bigram)) (mkWord symbols (work_queue s));
  add_new_bigram word (Z.of_nat (left bigram)) (sym_next left_symbol) s.

Fixpoint merge_loop (fuel : nat) (word : list byte) (s : word_state) : outcome word_state :=
  match pop (work_queue s) with
  | None => Done s
  | Some (bigram, queue) =>
      match fuel with
      | 0 => Undefined
      | S fuel => s ← merge_step word bigram (mkWord (symbols s) queue); merge_loop fuel word s
      end
  end.

(** The symbols of a word: the word itself if merges are to be ignored and it is
    a token, otherwise its characters. *)
Definition word_symbols (word : list byte) : outcome (list llm_symbol) :=
  whole ← (if ignore_merges V then token ← text_to_token V word; Done (bool_decide (token <> LLAMA_TOKEN_NULL)) else Done false);
  let '(symbols, offset) := if (whole : bool) then ([mkSym (-1) (-1) 0 (length word)], length word) else ([], 0) in
  of_option (split_symbols (length word) word 0 offset symbols).

Definition merge_word (word : list byte) : outcome (list llm_symbol) :=
  syms ← word_symbols word;
  s ← foldO (fun i => add_new_bigram word (Z.of_nat i - 1) (Z.of_nat i)) (seq 1 (length syms - 1)) (mkWord syms []);
  s ← merge_loop (3 * length syms) word s;
  Done (symbols s).

Definition final_state : Type := list final_symbol * Z.

Definition final_step (word : list byte) (sym : llm_symbol) (st : final_state) : option final_state :=
  let '(final, prev) := st in
  if bool_decide (0 < sym_n sym) then
    str ← sym_string word sym (sym_n sym);
    final ← (if bool_decide (prev <> -1)%Z then x ← final !! Z.to_nat prev; set_at (Z.to_nat prev) (mkFinal (f_prev x) (Z.of_nat (length final)) (f_str x)) final else Some final);
    Some (final ++ [mkFinal prev (-1) str], Z.of_nat (length final))
  else Some st.

Definition word_step (word : list byte) (st : final_state) : outcome final_state :=
  symbols ← merge_word word;
  of_option (foldM (final_step word) symbols st).

(** The tokens of a symbol; the bytes that are no token are skipped. *)
Definition emit (str : list byte) (output : list Z) : outcome (list Z) :=
  token ← text_to_token V str;
  if bool_decide (token = LLAMA_TOKEN_NULL) then
    foldO (fun c output => t ← text_to_token V [c]; Done (if bool_decide (t <> LLAMA_TOKEN_NULL) then output ++ [t] else output)) str output
  else Done (output ++ [token]).

Fixpoint output_loop (fuel : nat) (final : list final_symbol) (i : Z) (output : list Z) : outcome (list Z) :=
  if bool_decide (i = -1)%Z then Done output else
  match fuel with
  | 0 => Undefined
  | S fuel =>
      x ← index i final;
      output ← (if bool_decide (length (f_str x) = 0) then Done output else emit (f_str x) output);
      output_loop fuel final (f_next x) output
  end.

Definition tokenize (text : list byte) (output : list Z) : outcome (list Z) :=
  '(final, _) ← foldO word_step (unicode_regex_split text) ([], -1)%Z;
  if bool_decide (final = []) then Done output else output_loop (length final) final 0 output.

End Bpe.

(** * The greedy reference *)

(** The rank of a pair; lower ranks come first. *)
Definition bpe_key `{FO : FloatOps} (V : llama_vocab) (a b : list byte) : option Z :=
  r ← bpe_ranks V !! (a, b); if bool_decide (r < 0)%Z then None else Some r.

Definition rank_gt (a b : Z) : bool := bool_decide (b < a)%Z.
Definition rank_eq (a b : Z) : bool := bool_decide (a = b).

Lemma rank_order pair_key : key_order pair_key rank_gt rank_eq.
Proof. split; unfold rank_gt, rank_eq; intros; repeat case_bool_decide; cbn in *; try done; lia. Qed.

(** The pieces of a word. *)
Definition word_pieces `{FO : FloatOps} (V : llama_vocab) (word : list byte) (ps : list (list byte)) : Prop :=
  if ignore_merges V && bool_decide (is_Some (token_to_id V !! word)) then ps = [word]
  else greedy (bpe_key V) rank_gt rank_eq (utf8_pieces (length word) word) ps.

Section Correct.
Context `{FO : FloatOps} (V : llama_vocab) (pop : list llm_bigram_bpe -> option (llm_bigram_bpe * list llm_bigram_bpe)).
Context (W : vocab_ok V) (P : priority_queue comparator pop).

Section Word.
Context (word : list byte) (Hsp : x20 ∉ word) (Hnl : x0a ∉ word).

Definition proj (b : llm_bigram_bpe) : entry (K := Z) := mkEntry (left b) (right b) (rank b) (size b).

(** The text of an entry is that of its symbols as long as it is up to date. *)
Definition texts_ok (ss : list llm_symbol) (q : list llm_bigram_bpe) : Prop := forall b, b ∈ q -> length (btext b) = size b /\
  (len ss (left b) + len ss (right b) = size b -> len ss (left b) <> 0 -> len ss (right b) <> 0 -> btext b = piece word ss (left b) ++ piece word ss (right b)).

Lemma elem_of_piece ss i c : c ∈ piece word ss i -> c ∈ word.
Proof.
  unfold piece. destruct (ss !! i) as [s|]; cbn; [|intros H; by apply not_elem_of_nil in H]. intros H. by apply subseteq_take, subseteq_drop in H.
Qed.

Lemma find_rank_ok ss i j : find_bpe_rank V (piece word ss i) (piece word ss j) = Done (default (-1)%Z (bpe_ranks V !! (piece word ss i, piece word ss j))).
Proof.
  unfold find_bpe_rank. rewrite !must_bd; [done|intros H%elem_of_piece; done..].
Qed.

Lemma add_new_ok s a b : (forall x y, a = Some x -> b = Some y -> exists alive, chain word (symbols s) alive /\ neighbours alive x y) -> texts_ok (symbols s) (work_queue s) ->
  exists s', add_new_bigram V word (idx a) (idx b) s = Done s' /\ symbols s' = symbols s /\ length (work_queue s') <= S (length (work_queue s)) /\ texts_ok (symbols s') (work_queue s') /\
    pushed_opt word (bpe_key V) (symbols s) a b (proj <$> work_queue s) (proj <$> work_queue s').
Proof.
  intros Hnb T. unfold add_new_bigram. destruct a as [a|]; [|exists s; split_and!; try done; lia].
  destruct b as [b|]; [|cbn [idx from_option]; rewrite orb_true_r; exists s; split_and!; try done; lia].
  destruct (Hnb a b eq_refl eq_refl) as (alive & C & Hn). pose proof (neighbours_elem _ _ _ Hn) as [Ia Ib].
  destruct (chain_len _ _ _ _ C Ia) as (sa & Ha & La & _), (chain_len _ _ _ _ C Ib) as (sb & Hb & Lb & _).
  destruct (chain_string _ _ _ _ _ C Ia Ha) as [Sa Na], (chain_string _ _ _ _ _ C Ib Hb) as [Sb Nb].
  cbn [idx from_option]. rewrite !bool_decide_false by lia. cbn [orb]. rewrite (index_ok _ _ _ Ha), (index_ok _ _ _ Hb). cbn [mbind outcome_bind]. rewrite Sa, Sb. cbn [of_option mbind outcome_bind].
  rewrite find_rank_ok. cbn [mbind outcome_bind]. unfold pushed_opt, pushed, bpe_key.
  destruct (bpe_ranks V !! (piece word (symbols s) a, piece word (symbols s) b)) as [r|] eqn:Er; cbn [default from_option Datatypes.id mbind option_bind].
  2: { rewrite bool_decide_true by lia. exists s. split_and!; try done; [lia|]. intros x. naive_solver. }
  destruct (decide (r < 0)%Z) as [Hr|Hr]; [rewrite !bool_decide_true by done|rewrite !bool_decide_false by done].
  { exists s. split_and!; try done; [lia|]. intros x. naive_solver. }
  eexists. split; [reflexivity|]. cbn [symbols work_queue]. split_and!.
  - done.
  - cbn. lia.
  - intros x [->|Hx]%elem_of_cons; [|by apply T]. cbn [btext size left right]. rewrite !Nat2Z.id, length_app. done.
  - intros x. cbn [fmap list_fmap]. rewrite elem_of_cons, !Nat2Z.id. unfold proj. cbn [left right rank size]. rewrite Na, Nb, La, Lb. split.
    + intros [->|?]; [right|by left]. cbn. done.
    + intros [?|(<- & <- & Hs & [= Hk])]; [by right|left]. destruct x as [l r' k sz]. cbn in *. by subst.
Qed.

Record inv (s : word_state) (alive : list nat) : Prop := {
  iv_chain : chain word (symbols s) alive;
  iv_queue : queue_ok word (bpe_key V) (symbols s) alive (proj <$> work_queue s);
  iv_texts : texts_ok (symbols s) (work_queue s);
}.

#[local] Abbreviation ps s alive := (pieces word (symbols s) alive).

(** Entries that are up to date after a merge were so before, with the same
    texts. *)
Lemma texts_merged ss ss' l1 a b l2 e q : chain word ss (l1 ++ a :: b :: l2) -> merged word ss ss' l1 a b l2 -> queue_ok word (bpe_key V) ss (l1 ++ a :: b :: l2) (e :: (proj <$> q)) ->
  texts_ok ss q -> texts_ok ss' q.
Proof.
  intros C M Q T x Hx. destruct (T x Hx) as [Hl Ht]. split; [done|]. intros Hs Hn1 Hn2.
  destruct (chain_len _ _ _ a C ltac:(set_solver)) as (_ & _ & _ & La), (chain_len _ _ _ b C ltac:(set_solver)) as (_ & _ & _ & Lb).
  destruct (mg_a _ _ _ _ _ _ _ M) as [_ Lna]. pose proof (mg_b _ _ _ _ _ _ _ M) as Lnb. pose proof (mg_other _ _ _ _ _ _ _ M) as Ho.
  destruct (q_in _ _ _ _ _ Q (proj x)) as (_ & _ & _ & Hq); [right; by apply list_elem_of_fmap_2|]. unfold stale, fresh in Hq. cbn in Hq.
  assert (forall i, len ss' i <> 0 -> (i = a /\ len ss' i = len ss a + len ss b) \/ (i <> a /\ i <> b)) as Hcase.
  { intros i Hi. destruct (decide (i = a)) as [->|Ha]; [left; done|right]. split; [done|]. by intros ->. }
  destruct (Hcase _ Hn1) as [[E1 L1]|[Ha1 Hb1]], (Hcase _ Hn2) as [[E2 L2]|[Ha2 Hb2]].
  - rewrite E1, E2 in *. destruct Hq as [[?|[?|?]]|(_ & ? & _)]; lia.
  - destruct (Ho _ Ha2 Hb2) as [_ L2]. rewrite E1 in *. destruct Hq as [[?|[?|?]]|(_ & ? & _)]; lia.
  - destruct (Ho _ Ha1 Hb1) as [_ L1]. rewrite E2 in *. destruct Hq as [[?|[?|?]]|(_ & ? & _)]; lia.
  - destruct (Ho _ Ha1 Hb1) as [-> L1], (Ho _ Ha2 Hb2) as [-> L2]. apply Ht; lia.
Qed.

(** One turn leaves the chain as it is or merges the best pair. *)
Lemma bpe_merge_step_ok q alive bigram s : inv (mkWord (symbols s) q) alive -> pop q = Some (bigram, work_queue s) ->
  exists s' alive', merge_step V word bigram s = Done s' /\ inv s' alive' /\ length (work_queue s') + 2 * length alive' < length q + 2 * length alive /\
    (ps s' alive' = ps s alive \/ exists k, best (bpe_key V) rank_gt rank_eq (ps s alive) k /\ ps s' alive' = merge_at k (ps s alive)).
Proof.
  intros [C Q T] Hpop. cbn [symbols work_queue] in *. destruct (pop_ok word (bpe_key V) rank_gt rank_eq proj pop _ _ _ _ _ P (rank_order _) C Q Hpop) as (Q' & Hlen & Hcase).
  assert (bigram ∈ q /\ texts_ok (symbols s) (work_queue s)) as [Hin T'].
  { destruct q as [|x q]; [by rewrite (pop_nil _ _ P) in Hpop|]. destruct (pop_some _ _ P (x :: q)) as (e & q' & He & Hp); [done|]. rewrite Hpop in He. injection He as <- <-.
    split; [rewrite Hp; by left|]. intros y Hy. apply T. rewrite Hp. by right. }
  destruct (q_in _ _ _ _ _ Q' (proj bigram) ltac:(by left)) as (Hl & Hr & _). cbn in Hl, Hr. destruct (T _ Hin) as [Hbl Hbt].
  destruct (lookup_lt_is_Some_2 _ _ Hl) as [sl Hsl], (lookup_lt_is_Some_2 _ _ Hr) as [sr Hsr].
  assert (sym_n sl = len (symbols s) (left bigram) /\ sym_n sr = len (symbols s) (right bigram)) as [Ll Lr] by (unfold len; by rewrite Hsl, Hsr).
  unfold merge_step. rewrite Hsl, Hsr. cbn [of_option mbind outcome_bind].
  destruct (decide (sym_n sl = 0 \/ sym_n sr = 0)) as [Hz|Hz].
  { exists s, alive. split; [|split; [split; [done| |done]|split; [lia|by left]]].
    - destruct Hz as [Hz|Hz]; [by rewrite bool_decide_true|]. rewrite (bool_decide_true (sym_n sr = 0)) by done. by rewrite orb_true_r.
    - eapply queue_skip; [done|done|]. unfold stale. cbn. lia. }
  rewrite !(bool_decide_false (_ = 0)) by lia. cbn [orb].
  destruct (chain_string _ _ _ _ _ C (chain_alive _ _ _ (left bigram) C ltac:(lia)) Hsl) as [Sl Nl], (chain_string _ _ _ _ _ C (chain_alive _ _ _ (right bigram) C ltac:(lia)) Hsr) as [Sr Nr].
  rewrite Sl, Sr. cbn [of_option mbind outcome_bind].
  destruct Hcase as [Hst|[F (l1 & l2 & -> & Hb)]].
  - rewrite bool_decide_true. { exists s, alive. split; [done|]. split; [split; [done|by eapply queue_skip|done]|split; [lia|by left]]. }
    intros E. apply (f_equal length) in E. rewrite length_app in E. unfold stale in Hst. cbn in Hst. lia.
  - destruct F as (_ & Hsz & _). cbn [proj el er esz] in C, Q, Q', Hsz, Hb |- *. rewrite bool_decide_false by (intros H; apply H; symmetry; apply Hbt; lia). clear Hbt Hbl.
    set (a := left bigram) in *. set (b := right bigram) in *.
    destruct (merge_ok _ _ _ _ _ _ C) as (ss' & -> & M). cbn [of_option mbind outcome_bind]. pose proof (mg_chain _ _ _ _ _ _ _ M) as C'.
    pose proof (texts_merged _ _ _ _ _ _ _ _ C M Q' T') as T2.
    destruct (chain_at _ _ _ _ _ C') as (sa & Hsa & _ & Hp & Hnx & _). rewrite Hsa. cbn [of_option mbind outcome_bind]. rewrite Hp, lst_idx, Hnx, nxt_idx.
    change (Z.of_nat a) with (idx (Some a)).
    destruct (add_new_ok (mkWord ss' (work_queue s)) (last l1) (Some a)) as (s1 & -> & E1 & G1 & T3 & P1); [|done|].
    { intros x y Hx [= <-]. exists (l1 ++ a :: l2). split; [done|]. by apply last_neighbours. }
    cbn [mbind outcome_bind symbols work_queue] in *. rewrite <- E1 in C', M, P1.
    destruct (add_new_ok s1 (Some a) (head l2)) as (s2 & -> & E2 & G2 & T4 & P2); [|done|].
    { intros x y [= <-] Hy. exists (l1 ++ a :: l2). split; [done|]. by apply head_neighbours. }
    rewrite <- E2 in C', M, P1, P2. exists s2, (l1 ++ a :: l2). split; [done|]. split; [split; [done| |done]|].
    + by eapply queue_merge; [exact C|exact M|exact Q'| |exact P1|exact P2].
    + split; [rewrite !length_app; cbn; lia|]. right. exists (length l1). split; [done|]. by eapply merged_pieces.
Qed.

Lemma bpe_merge_loop_ok fuel : forall s alive, inv s alive -> length (work_queue s) + 2 * length alive <= fuel ->
  exists s' alive', merge_loop V pop fuel word s = Done s' /\ inv s' alive' /\ greedy (bpe_key V) rank_gt rank_eq (ps s alive) (ps s' alive').
Proof.
  induction fuel as [|fuel IH]; intros s alive I Hf.
  - destruct s as [ss q]. cbn [work_queue] in *. destruct q as [|x q]; [|cbn in Hf; lia]. cbn [merge_loop work_queue]. rewrite (pop_nil _ _ P).
    exists (mkWord ss []), alive. split_and!; [done|done|]. apply greedy_done. eapply queue_empty. exact (iv_queue _ _ I).
  - cbn [merge_loop]. destruct (pop (work_queue s)) as [[bigram q]|] eqn:Hpop.
    + destruct (bpe_merge_step_ok (work_queue s) alive bigram (mkWord (symbols s) q)) as (s1 & alive1 & -> & I1 & Hm & Hps); [by destruct s|done|].
      cbn [mbind outcome_bind symbols work_queue] in *. destruct (IH s1 alive1 I1 ltac:(lia)) as (s2 & alive2 & -> & I2 & G). exists s2, alive2. split; [done|]. split; [done|].
      destruct Hps as [Hps|(k & Hb & Hps)]; rewrite Hps in G; [done|]. by eapply greedy_step.
    + exists s, alive. split_and!; [done|done|]. apply greedy_done. eapply queue_empty. pose proof (iv_queue _ _ I) as Q.
      destruct (work_queue s) as [|x q]; [exact Q|]. destruct (pop_some _ _ P (x :: q)) as (e & q' & He & _); [done|]. by rewrite Hpop in He.
Qed.

Lemma bpe_seeds_ok ss m : chain word ss (seq 0 (length ss)) -> m < length ss ->
  exists s, foldO (fun i => add_new_bigram V word (Z.of_nat i - 1) (Z.of_nat i)) (seq 1 m) (mkWord ss []) = Done s /\
    symbols s = ss /\ texts_ok (symbols s) (work_queue s) /\ length (work_queue s) <= m /\ seeded word (bpe_key V) ss (S m) (proj <$> work_queue s).
Proof.
  intros C Hm. destruct (foldO_seq (fun i => add_new_bigram V word (Z.of_nat i - 1) (Z.of_nat i))
    (fun i s => symbols s = ss /\ texts_ok (symbols s) (work_queue s) /\ length (work_queue s) <= i - 1 /\ seeded word (bpe_key V) ss i (proj <$> work_queue s)) 1 m (mkWord ss []))
    as (s & Hrun & H1 & H2 & H3 & H4).
  - split_and!; [done|intros x Hx; by apply not_elem_of_nil in Hx|cbn; lia|]. apply seeded_nil.
  - intros i s Hi (H1 & H2 & H3 & H4). destruct i as [|i]; [lia|]. replace (Z.of_nat (S i) - 1)%Z with (idx (Some i)) by (cbn; lia). change (Z.of_nat (S i)) with (idx (Some (S i))).
    destruct (add_new_ok s (Some i) (Some (S i))) as (s' & -> & E & G & T & Pu); [|done|].
    { intros x y [= <-] [= <-]. exists (seq 0 (length ss)). rewrite H1. split; [done|]. exists i. rewrite !lookup_seq_lt by lia. done. }
    exists s'. split; [done|]. rewrite Nat.add_1_r. split; [congruence|]. split; [done|]. split; [lia|]. rewrite H1 in Pu. by eapply seeded_step.
  - exists s. split_and!; [done|done|done|lia|done].
Qed.

(** A word that is a token by itself. *)
Lemma whole_chain : word <> [] -> chain word [mkSym (-1) (-1) 0 (length word)] [0].
Proof.
  intros Hw. split.
  - exists (mkSym (-1) (-1) 0 (length word)). split_and!; [done| |done..]. cbn. by destruct word; [|cbn; lia].
  - repeat constructor.
  - intros [|i] Hi; [set_solver|done].
Qed.

Lemma word_symbols_ok : exists ss n, word_symbols V word = Done ss /\ chain word ss (seq 0 n) /\ length ss = n /\
  (if ignore_merges V && bool_decide (is_Some (token_to_id V !! word)) then n = 1 /\ pieces word ss (seq 0 n) = [word] else pieces word ss (seq 0 n) = utf8_pieces (length word) word).
Proof.
  unfold word_symbols. destruct (split_chain word) as (ss & Hss & C & Hp & _).
  destruct (ignore_merges V); cbn [andb mbind outcome_bind].
  2: { rewrite Hss. exists ss, (length ss). done. }
  rewrite text_to_token_ok by done. cbn [mbind outcome_bind]. destruct (token_to_id V !! word) as [id|] eqn:E; cbn [default from_option Datatypes.id].
  - rewrite bool_decide_true by (by eapply token_not_null). rewrite bool_decide_true by (by eexists).
    assert (word <> []) as Hw by (intros ->; by rewrite (vo_some _ W) in E). pose proof (whole_chain Hw) as C1.
    exists [mkSym (-1) (-1) 0 (length word)], 1. split; [|split; [done|split; [done|split; [done|]]]].
    + destruct word; [done|]. cbn [length split_symbols]. by rewrite bool_decide_false by lia.
    + cbn. unfold piece. cbn. by rewrite drop_0, firstn_all.
  - rewrite bool_decide_false by (by intros H). rewrite bool_decide_false by (by intros [? ?]). rewrite Hss. exists ss, (length ss). done.
Qed.

Lemma merge_word_ok : exists ss alive, merge_word V pop word = Done ss /\ chain word ss alive /\ word_pieces V word (pieces word ss alive).
Proof.
  destruct word_symbols_ok as (ss & n & Hss & C & <- & Hp). unfold merge_word, word_pieces. rewrite Hss. cbn [mbind outcome_bind].
  destruct (decide (length ss = 0)) as [H0|H0].
  - apply length_zero_iff_nil in H0 as ->. cbn [length Nat.sub seq foldO mbind outcome_bind]. change (3 * 0) with 0. cbn [merge_loop work_queue]. rewrite (pop_nil _ _ P). cbn [mbind outcome_bind symbols].
    exists [], []. split; [done|]. split; [done|]. destruct (_ && _); [by destruct Hp|]. cbn in Hp. rewrite <- Hp. apply greedy_done. intros k. by destruct k.
  - destruct (bpe_seeds_ok ss (length ss - 1) C ltac:(lia)) as (s & -> & E & T & Hq & Hs). cbn [mbind outcome_bind]. replace (S (length ss - 1)) with (length ss) in Hs by lia.
    assert (inv s (seq 0 (length ss))) as I by (split; [by rewrite E|rewrite E; apply seeded_ok; [done|lia|done]|done]).
    destruct (bpe_merge_loop_ok (3 * length ss) s _ I) as (s' & alive & -> & I' & G); [rewrite length_seq; lia|]. cbn [mbind outcome_bind].
    exists (symbols s'), alive. split; [done|]. split; [apply I'|]. rewrite E in G. destruct (_ && _); [|by rewrite Hp in G].
    destruct Hp as [H1 Hp]. rewrite Hp in G. inversion G as [|? k ? (key & Hk & _) _]; [done|]. subst. by destruct k.
Qed.

End Word.
(** ** The symbols of all words *)

Record final_ok (F : list final_symbol) (strs : list (list byte)) : Prop := {
  fo_len : length F = length strs;
  fo_at  : forall k str, strs !! k = Some str -> F !! k = Some (mkFinal (Z.of_nat k - 1) (if bool_decide (S k = length strs) then -1 else Z.of_nat (S k)) str);
}.

Definition last_index {A} (l : list A) : Z := (Z.of_nat (length l) - 1)%Z.

Lemma final_step_ok word sym str F strs : 0 < sym_n sym -> sym_string word sym (sym_n sym) = Some str -> final_ok F strs ->
  exists F', final_step word sym (F, last_index strs) = Some (F', last_index (strs ++ [str])) /\ final_ok F' (strs ++ [str]).
Proof.
  intros Hn Hs [Hl Ha]. unfold final_step, last_index. rewrite bool_decide_true by done. rewrite Hs. cbn [mbind option_bind]. rewrite length_app, Hl. cbn [length].
  destruct strs as [|s0 strs0] using rev_ind.
  - rewrite bool_decide_false by (cbn; lia). cbn [mbind option_bind]. eexists. split; [refine (f_equal Some (f_equal2 pair eq_refl _)); cbn in *; lia|]. destruct F; [|done]. split; [done|]. intros [|k] s; [|by destruct k]. by intros [= ->].
  - clear IHstrs0. rewrite length_app in *. cbn [length] in *. rewrite bool_decide_true by lia.
    pose proof (Ha (length strs0) s0 ltac:(by rewrite lookup_app_r, Nat.sub_diag by lia)) as Hlast. rewrite bool_decide_true in Hlast by lia.
    replace (Z.to_nat (Z.of_nat (length strs0 + 1) - 1)) with (length strs0) by lia. rewrite Hlast. cbn [mbind option_bind]. rewrite set_at_ok by lia. cbn [mbind option_bind].
    eexists. split; [refine (f_equal Some (f_equal2 pair eq_refl _)); rewrite ?length_insert; lia|]. split; [rewrite !length_app, length_insert; cbn; lia|]. intros k s Hk. rewrite !length_app. cbn [length f_prev f_str].
    destruct (decide (k = length strs0 + 1)) as [->|Hk1].
    + rewrite lookup_app_r in Hk by (rewrite length_app; cbn; lia). rewrite length_app in Hk. cbn in Hk. rewrite Nat.sub_diag in Hk. injection Hk as ->.
      rewrite lookup_app_r by (rewrite length_insert; lia). rewrite length_insert, Hl, Nat.sub_diag. rewrite bool_decide_true by lia. done.
    + pose proof (lookup_lt_Some _ _ _ Hk) as Hkl. rewrite !length_app in Hkl. cbn in Hkl. rewrite lookup_app_l in Hk by (rewrite length_app; cbn; lia).
      rewrite lookup_app_l by (rewrite length_insert; lia). rewrite bool_decide_false by lia. destruct (decide (k = length strs0)) as [->|Hk2].
      * rewrite list_lookup_insert_eq by lia. rewrite lookup_app_r, Nat.sub_diag in Hk by lia. injection Hk as ->. cbn. do 2 f_equal; lia.
      * rewrite list_lookup_insert_ne by done. rewrite (Ha _ _ Hk). by rewrite bool_decide_false by lia.
Qed.

Lemma final_word_ok word ss alive F strs : chain word ss alive -> final_ok F strs ->
  exists F', foldM (final_step word) ss (F, last_index strs) = Some (F', last_index (strs ++ pieces word ss alive)) /\ final_ok F' (strs ++ pieces word ss alive).
Proof.
  intros C HF. assert (alive = filter (fun i => len ss i <> 0) (seq 0 (length ss))) as Hal.
  { assert (AntiSymm eq lt) by (intros x y ? ?; lia). apply (StronglySorted_unique lt); [apply C|apply sorted_filter, sorted_seq|]. apply NoDup_Permutation; [apply sorted_NoDup, C|apply NoDup_filter, NoDup_seq|].
    intros i. rewrite list_elem_of_filter, elem_of_seq. split.
    - intros Hi. destruct (chain_len _ _ _ _ C Hi) as (s & ?%lookup_lt_Some & _ & ?). lia.
    - intros [Hi _]. by eapply chain_alive. }
  assert (forall pre l, ss = pre ++ l -> forall F strs, final_ok F strs ->
    exists F', foldM (final_step word) l (F, last_index strs) = Some (F', last_index (strs ++ pieces word ss (filter (fun i => len ss i <> 0) (seq (length pre) (length l))))) /\
      final_ok F' (strs ++ pieces word ss (filter (fun i => len ss i <> 0) (seq (length pre) (length l))))) as H; [|rewrite Hal; by apply (H [])].
  clear HF F strs. intros pre l. revert pre. induction l as [|s l IH]; intros pre Hss F strs HF.
  - exists F. cbn. by rewrite app_nil_r.
  - assert (ss !! length pre = Some s) as Hs by (by rewrite Hss, lookup_app_r, Nat.sub_diag by lia). assert (ss = (pre ++ [s]) ++ l) as Hss2 by (by rewrite <- app_assoc).
    assert (length (pre ++ [s]) = S (length pre)) as Hlen by (rewrite length_app; cbn; lia). assert (len ss (length pre) = sym_n s) as Hn by (unfold len; by rewrite Hs).
    cbn [length seq foldM].
    destruct (decide (sym_n s = 0)) as [H0|H0].
    + rewrite filter_cons_False by lia. assert (final_step word s (F, last_index strs) = Some (F, last_index strs)) as -> by (unfold final_step; by rewrite bool_decide_false by lia). cbn [mbind option_bind].
      destruct (IH _ Hss2 F strs HF) as (F' & Hrun & HF'). rewrite Hlen in *. by exists F'.
    + rewrite filter_cons_True by lia. assert (length pre ∈ alive) as Hin by (eapply chain_alive; [exact C|lia]).
      destruct (chain_string _ _ _ _ _ C Hin Hs) as [Hstr _]. destruct (final_step_ok word s _ F strs ltac:(lia) Hstr HF) as (F1 & -> & HF1). cbn [mbind option_bind].
      destruct (IH _ Hss2 F1 _ HF1) as (F' & Hrun & HF'). rewrite Hlen in *. cbn [pieces fmap list_fmap]. fold (pieces word ss (filter (fun i => len ss i <> 0) (seq (S (length pre)) (length l)))).
      rewrite <- app_assoc in Hrun, HF'. by exists F'.
Qed.

(** The words one after the other. *)
Lemma words_ok words : Forall (fun w => x20 ∉ w /\ x0a ∉ w) words ->
  exists F pss, foldO (word_step V pop) words ([], -1)%Z = Done (F, last_index (concat pss)) /\ Forall2 (word_pieces V) words pss /\ final_ok F (concat pss) /\
    Forall (fun s => s <> []) (concat pss).
Proof.
  induction words as [|w words IH] using rev_ind; intros Hw; [exists [], []; by repeat split|].
  apply Forall_app in Hw as [Hw [[H1 H2] _]%Forall_cons]. destruct (IH Hw) as (F & pss & Hrun & Hp & HF & Hne). rewrite foldO_app, Hrun. cbn [mbind outcome_bind foldO].
  unfold word_step at 1. destruct (merge_word_ok w H1 H2) as (ss & alive & -> & C & Hwp). cbn [mbind outcome_bind].
  destruct (final_word_ok _ _ _ _ _ C HF) as (F' & -> & HF'). cbn [of_option mbind outcome_bind]. exists F', (pss ++ [pieces w ss alive]).
  rewrite concat_app. cbn [concat]. rewrite app_nil_r. split; [done|]. split; [by apply Forall2_app; [|constructor]|]. split; [done|].
  apply Forall_app. split; [done|]. by eapply chain_nonempty.
Qed.

Lemma word_pieces_unique word ps : word_pieces V word ps -> concat ps = word /\ forall ps', word_pieces V word ps' <-> ps' = ps.
Proof using Type.
  unfold word_pieces. destruct (_ && _); [intros ->; split; [apply app_nil_r|done]|]. intros G. split; [rewrite (greedy_concat _ _ _ _ _ G); by apply utf8_pieces_concat|].
  intros ps'. split; [|by intros ->]. intros G'. by eapply greedy_unique; [apply rank_order|..].
Qed.

(** The tokens of a piece. *)
Definition piece_tokens (p : list byte) : list Z :=
  match token_to_id V !! p with Some id => [id] | None => omap (fun c => token_to_id V !! [c]) p end.

Lemma emit_ok p output : emit V p output = Done (output ++ piece_tokens p).
Proof.
  unfold emit, piece_tokens. rewrite text_to_token_ok by done. cbn [mbind outcome_bind]. destruct (token_to_id V !! p) as [id|] eqn:E; cbn [default from_option Datatypes.id].
  - by rewrite bool_decide_false by (by eapply token_not_null).
  - rewrite bool_decide_true by done. clear E. revert output. induction p as [|c p IH]; intros output; cbn [foldO omap list_omap]; [by rewrite app_nil_r|].
    rewrite text_to_token_ok by done. cbn [mbind outcome_bind]. destruct (token_to_id V !! [c]) as [id|] eqn:E; cbn [default from_option Datatypes.id].
    + rewrite bool_decide_true by (by eapply token_not_null). rewrite IH. by rewrite <- app_assoc.
    + rewrite bool_decide_false by (intros H; by apply H). apply IH.
Qed.

Lemma bpe_output_loop_ok F strs : final_ok F strs -> Forall (fun s => s <> []) strs -> forall m k output, k + m = length strs ->
  output_loop V m F (if bool_decide (k = length strs) then -1 else Z.of_nat k) output = Done (output ++ concat (piece_tokens <$> drop k strs)).
Proof.
  intros [Hl Ha] Hne. induction m as [|m IH]; intros k output Hk.
  - rewrite bool_decide_true by lia. cbn [output_loop]. rewrite bool_decide_true by done. rewrite drop_ge by lia. by rewrite app_nil_r.
  - rewrite bool_decide_false by lia. cbn [output_loop]. rewrite bool_decide_false by lia. destruct (lookup_lt_is_Some_2 strs k) as [s Hs]; [lia|].
    rewrite (index_ok _ _ _ (Ha _ _ Hs)). cbn [mbind outcome_bind f_str f_next]. assert (s <> []) as Hs0 by (rewrite Forall_forall in Hne; by eapply Hne, list_elem_of_lookup_2).
    rewrite (bool_decide_false (length s = 0)) by (by destruct s). rewrite emit_ok. cbn [mbind outcome_bind]. rewrite IH by lia.
    rewrite (drop_S _ _ _ Hs). cbn [fmap list_fmap concat]. by rewrite <- app_assoc.
Qed.

End Correct.

(** C33: the BPE tokenizer always answers.  Each word that the regular expressions
    find is cut into the pieces of the greedy reference: as long as some
    neighbours are in the table of merges, those with the lowest rank are merged,
    the first ones if there are several (a word that is a token stays whole if
    the vocabulary says so).  The queue with its outdated entries makes no
    difference, and the pieces of each word are the word.  The result is the
    tokens of all pieces in order; of a piece that is no token, those bytes that
    are tokens - the others are lost. *)
Theorem bpe_tokenize_greedy `{FO : FloatOps} (V : llama_vocab) (pop : list llm_bigram_bpe -> option (llm_bigram_bpe * list llm_bigram_bpe))
    (split : list byte -> list (list byte)) (text : list byte) (output : list Z) :
  vocab_ok V -> priority_queue comparator pop -> Forall (fun w => x20 ∉ w /\ x0a ∉ w) (split text) ->
  exists pss, tokenize V pop split text output = Done (output ++ concat (piece_tokens V <$> concat pss)) /\
    Forall2 (fun word ps => concat ps = word /\ forall ps', word_pieces V word ps' <-> ps' = ps) (split text) pss.
Proof.
  intros W P Hw. destruct (words_ok V pop W P _ Hw) as (F & pss & Hrun & Hp & HF & Hne). exists pss.
  split; [|eapply Forall2_impl; [exact Hp|intros; by apply word_pieces_unique]].
  unfold tokenize. rewrite Hrun. cbn [mbind outcome_bind]. pose proof (fo_len _ _ HF) as Hl.
  destruct (decide (F = [])) as [->|HF0]; [rewrite bool_decide_true by done|rewrite bool_decide_false by done].
  - cbn in Hl. destruct (concat pss); [|done]. by rewrite app_nil_r.
  - assert (length (concat pss) <> 0) as H0 by (rewrite <- Hl; by destruct F).
    pose proof (bpe_output_loop_ok V W F _ HF Hne (length F) 0 output ltac:(lia)) as Hout. by rewrite bool_decide_false in Hout by lia.
Qed.

(** ** An example *)

Definition demo_tables : load_state (FO := demo_floats) := tables (FO := demo_floats) [[x61]; [x62]; [x62; x62]] None.

(** "bb" is merged before "ab", and "abb" is no token. *)
Definition demo_vocab : llama_vocab (FO := demo_floats) := mkVocab (FO := demo_floats) BPE (snd demo_tables) (-1) (-1) (-1) (-1) false false false false false false true false
  (fst (fst demo_tables)) (snd (fst demo_tables)) [] [] (<[([x62], [x62]) := 0%Z]> (<[([x61], [x62]) := 1%Z]> ∅)).

Lemma bpe_demo_vocab_ok : vocab_ok (FO := demo_floats) demo_vocab.
Proof.
  apply (loaded_vocab_ok (FO := demo_floats) _ [[x61]; [x62]; [x62; x62]] None None); [|discriminate|reflexivity].
  apply (tables_ok (FO := demo_floats)). by_eval.
Qed.

Definition demo_split (text : list byte) : list (list byte) := [take 3 text; drop 3 text].

Lemma bpe_tokenize_greedy_witness : exists pss,
  tokenize (FO := demo_floats) demo_vocab (scan_pop comparator) demo_split [x61; x62; x62; x61] [] = Done ([] ++ concat (piece_tokens (FO := demo_floats) demo_vocab <$> concat pss)) /\
  Forall2 (fun word ps => concat ps = word /\ forall ps', word_pieces (FO := demo_floats) demo_vocab word ps' <-> ps' = ps) [[x61; x62; x62]; [x61]] pss.
Proof.
  apply (bpe_tokenize_greedy (FO := demo_floats) demo_vocab (scan_pop comparator) demo_split [x61; x62; x62; x61] []).
  - exact bpe_demo_vocab_ok.
  - apply scan_pop_queue.
  - repeat (apply Forall_cons; split; [split; refine (bool_decide_unpack _ _); vm_compute; exact I|]). apply Forall_nil. exact I.
Defined.

Lemma bpe_demo : tokenize (FO := demo_floats) demo_vocab (scan_pop comparator) demo_split [x61; x62; x62; x61] [] = Done [0; 2; 0]%Z.
Proof. vm_compute. reflexivity. Qed.

End BpeTok.
