(* ===== verification/Tokenize.v ===== *)
(** Tokenization of a text ([llama_vocab::impl::tokenize] of
    [llama_cpp_repo/src/llama-vocab.cpp]): the special tokens that occur in the
    text are found first ([tokenizer_st_partition]), and the tokenizer of the
    vocabulary runs on the rest. *)

From S2P Require Import Bytes.
From S2P Require Import Vocab.
From S2P Require Import VocabOk.
From S2P Require Import MergeChain.
From S2P Require SpmTok.
From S2P Require BpeTok.
Import Vocab.Vocab VocabOk.VocabOk.

Module Tokenize.

(** * Fragments

    A piece of the text is given by its offset and length: all fragments refer
    to the same text. *)
Inductive fragment_buffer_variant := FragToken (token : Z) | FragText (offset length_ : nat).

Section Partition.
Context `{FO : FloatOps}.
Context (raw_text : list byte).

(** The constructor of a text fragment with its assertions. *)
Definition new_text (offset len : nat) : option fragment_buffer_variant :=
  GGML_ASSERT bool_decide (1 <= len);
  GGML_ASSERT bool_decide (offset + len <= length raw_text);
  Some (FragText offset len).

(** [buffer.emplace_after(it, x)] and [buffer.erase_after] of the element before
    the [i]-th one; iterators are indices. *)
Definition emplace_after (it : nat) (x : fragment_buffer_variant) (buffer : list fragment_buffer_variant) : list fragment_buffer_variant :=
  take (S it) buffer ++ x :: drop (S it) buffer.
Definition erase_at (i : nat) (buffer : list fragment_buffer_variant) : list fragment_buffer_variant := take i buffer ++ drop (S i) buffer.

Definition space_at (i : nat) : bool := from_option is_space false (raw_text !! i).

(** The loop of LSTRIP: the length without trailing white space. *)
Fixpoint lstrip (offset len : nat) : nat :=
  match len with
  | 0 => 0
  | S k => if space_at (offset + k) then lstrip offset k else len
  end.

(** The loop of RSTRIP: the offset and the length without leading white space. *)
Fixpoint rstrip (offset len : nat) : nat * nat :=
  match len with
  | 0 => (offset, 0)
  | S k => if space_at offset then rstrip (S offset) k else (offset, len)
  end.

(** The text to the left of a match, and the special token. *)
Definition add_left (data : token_data) (special_id : Z) (base_offset m it : nat) (buffer : list fragment_buffer_variant) : option (list fragment_buffer_variant * nat) :=
  let left_len := if has_attr ATTR_LSTRIP (attr data) then lstrip base_offset (m - base_offset) else m - base_offset in
  '(buffer, it) ← (if bool_decide (base_offset < m) then
      if bool_decide (0 < left_len) then f ← new_text base_offset left_len; Some (emplace_after it f buffer, it + 1) else Some (buffer, it)
    else Some (buffer, it));
  Some (emplace_after it (FragToken special_id) buffer, it + 1).

(** The loop over the occurrences in one fragment. *)
Fixpoint split_fragment (fuel : nat) (data : token_data) (special_id : Z) (base_offset base_len it : nat) (buffer : list fragment_buffer_variant)
    : option (list fragment_buffer_variant * nat) :=
  match str_find (take (base_offset + base_len) raw_text) (text data) base_offset with
  | None => Some (buffer, it)
  | Some m =>
      match fuel with
      | 0 => None
      | S fuel =>
          let source := it in
          '(buffer, it) ← add_left data special_id base_offset m it buffer;
          if bool_decide (m + length (text data) < base_offset + base_len) then
            let right_offset := m + length (text data) in
            let right_len := base_len - ((m - base_offset) + length (text data)) in
            let '(right_offset, right_len) := if has_attr ATTR_RSTRIP (attr data) then rstrip right_offset right_len else (right_offset, right_len) in
            '(buffer, it) ← (if bool_decide (0 < right_len) then f ← new_text right_offset right_len; Some (emplace_after it f buffer, it + 1) else Some (buffer, it));
            split_fragment fuel data special_id right_offset right_len (it - 1) (erase_at source buffer)
          else Some (erase_at source buffer, it - 1)
      end
  end.

(** The loop over the fragments. *)
Fixpoint split_buffer (fuel : nat) (data : token_data) (special_id : Z) (it : nat) (buffer : list fragment_buffer_variant) : option (list fragment_buffer_variant) :=
  match buffer !! it with
  | None => Some buffer
  | Some fragment =>
      match fuel with
      | 0 => None
      | S fuel =>
          '(buffer, it) ← (match fragment with
            | FragText offset len => split_fragment (S len) data special_id offset len it buffer
            | FragToken _ => Some (buffer, it)
            end);
          split_buffer fuel data special_id (it + 1) buffer
      end
  end.

Definition special_step (V : llama_vocab) (parse_special : bool) (special_id : Z) (buffer : list fragment_buffer_variant) : outcome tok_error (list fragment_buffer_variant) :=
  data ← get_token_data V special_id;
  if negb parse_special && has_attr (Z.lor ATTR_CONTROL ATTR_UNKNOWN) (attr data) then Done buffer else
  of_option (split_buffer (length buffer) data special_id 0 buffer).

Definition tokenizer_st_partition (V : llama_vocab) (parse_special : bool) (buffer : list fragment_buffer_variant) : outcome tok_error (list fragment_buffer_variant) :=
  foldO (special_step V parse_special) (cache_special_tokens V) buffer.

End Partition.
End Tokenize.
