(* ===== verification/TokenizeOk.v ===== *)
(** The partition of a text by special tokens: it always ends, its text
    fragments are inside of the text, are not empty and contain none of the
    special tokens, and together with the texts of the tokens they are the text
    (but for the white space that some tokens strip). *)

From S2P Require Import Bytes.
From S2P Require Import Vocab.
From S2P Require Import VocabOk.
From S2P Require Import Tokenize.
Import Vocab.Vocab VocabOk.VocabOk Tokenize.Tokenize.

Module TokenizeOk.

(** * Searching *)

Definition contains (s pat : list byte) : Prop := exists a b, s = a ++ pat ++ b.

Lemma starts_spec pat s : starts pat s = true <-> exists b, s = pat ++ b.
Proof.
  unfold starts. rewrite bool_decide_eq_true. split.
  - intros H. exists (drop (length pat) s). rewrite <- H at 1. symmetry. apply take_drop.
  - intros [b ->]. apply take_app_length.
Qed.

Lemma find_sub_Some pat s : forall k, find_sub pat s = Some k -> (exists b, drop k s = pat ++ b) /\ k + length pat <= length s /\ forall j b, j < k -> drop j s <> pat ++ b.
Proof.
  induction s as [|c s IH]; intros k; cbn [find_sub]; (destruct (starts _ _) eqn:E; [intros [= <-]; apply starts_spec in E as [b E]; rewrite drop_0|]).
  - split_and!; [by exists b|rewrite E, length_app; lia|lia].
  - done.
  - split_and!; [by exists b|rewrite E, length_app; lia|lia].
  - destruct (find_sub pat s) as [k'|] eqn:Ek; [|done]. intros [= <-]. destruct (IH k' eq_refl) as (H1 & H2 & H3). split_and!; [done|cbn; lia|].
    intros [|j] b Hj He; [|apply (H3 j b); [lia|done]]. assert (starts pat (c :: s) = true) as Hs by (apply starts_spec; by exists b). congruence.
Qed.

Lemma find_sub_None pat s : find_sub pat s = None -> ~ contains s pat.
Proof.
  induction s as [|c s IH]; cbn [find_sub]; (destruct (starts _ _) eqn:E; [done|]); intros H ([|a0 a] & b & Hs).
  - assert (starts pat [] = true) as Ht by (apply starts_spec; by exists b). congruence.
  - done.
  - assert (starts pat (c :: s) = true) as Ht by (apply starts_spec; by exists b). congruence.
  - injection Hs as -> ->. destruct (find_sub pat (a ++ pat ++ b)) eqn:Ef; [done|]. apply IH; [done|]. by exists a, b.
Qed.

Lemma contains_trans s t u : contains s t -> contains t u -> contains s u.
Proof. intros (a & b & ->) (c & d & ->). exists (a ++ c), (d ++ b). by rewrite <- !app_assoc. Qed.

(** * Cutting one fragment *)

Section Cut.
Context `{FO : FloatOps} (raw : list byte).

Definition sub (off len : nat) : list byte := take len (drop off raw).

Definition valid (f : fragment_buffer_variant) : Prop := match f with FragText off len => 1 <= len /\ off + len <= length raw | FragToken _ => True end.

Context (data : token_data) (id : Z) (Ht : text data <> []).

Definition left_of (off m : nat) : list fragment_buffer_variant :=
  let n := if has_attr ATTR_LSTRIP (attr data) then lstrip raw off (m - off) else m - off in
  if bool_decide (0 < n) then [FragText off n] else [].

Definition right_of (off len : nat) : nat * nat := if has_attr ATTR_RSTRIP (attr data) then rstrip raw off len else (off, len).

(** The fragments of a range of the text. *)
Fixpoint cut (fuel off len : nat) : list fragment_buffer_variant :=
  match fuel with
  | 0 => []
  | S fuel =>
      match find_sub (text data) (sub off len) with
      | None => if bool_decide (len = 0) then [] else [FragText off len]
      | Some k => left_of off (off + k) ++ [FragToken id] ++ (let '(o, l) := right_of (off + k + length (text data)) (len - (k + length (text data))) in cut fuel o l)
      end
  end.

Lemma length_sub off len : off + len <= length raw -> length (sub off len) = len.
Proof. intros H. unfold sub. rewrite length_take, length_drop. lia. Qed.

Lemma find_range off len : off + len <= length raw -> str_find (take (off + len) raw) (text data) off = Nat.add off <$> find_sub (text data) (sub off len).
Proof. intros H. unfold str_find. rewrite bool_decide_true by (rewrite length_take; lia). unfold sub. by rewrite take_drop_commute. Qed.

Lemma lstrip_le off len : lstrip raw off len <= len.
Proof. induction len as [|k IH]; cbn; [lia|]. destruct (space_at raw (off + k)); lia. Qed.

Lemma rstrip_le len : forall off o l, rstrip raw off len = (o, l) -> off <= o /\ o + l = off + len.
Proof.
  induction len as [|k IH]; intros off o l; cbn; [intros [= <- <-]; lia|]. destruct (space_at raw off); [intros H%IH; lia|intros [= <- <-]; lia].
Qed.

Lemma right_le off len o l : right_of off len = (o, l) -> off <= o /\ o + l = off + len.
Proof. unfold right_of. destruct (has_attr _ _); [apply rstrip_le|intros [= <- <-]; lia]. Qed.

Lemma text_pos : 0 < length (text data).
Proof. destruct (text data); [done|cbn; lia]. Qed.

Lemma emplace_middle l1 (x y : fragment_buffer_variant) l2 : emplace_after (length l1) y (l1 ++ x :: l2) = l1 ++ x :: y :: l2.
Proof.
  unfold emplace_after. replace (S (length l1)) with (length (l1 ++ [x])) by (rewrite length_app; cbn; lia).
  change (x :: l2) with ([x] ++ l2). rewrite app_assoc, take_app_length, drop_app_length. by rewrite <- app_assoc.
Qed.

Lemma erase_middle l1 (x : fragment_buffer_variant) l2 : erase_at (length l1) (l1 ++ x :: l2) = l1 ++ l2.
Proof. unfold erase_at. rewrite take_app_length, <- Nat.add_1_r, <- drop_drop, drop_app_length. done. Qed.

Lemma add_left_ok off m l1 f l2 : off <= m -> m <= length raw ->
  add_left raw data id off m (length l1) (l1 ++ f :: l2) = Some (l1 ++ f :: left_of off m ++ FragToken id :: l2, length l1 + length (left_of off m) + 1).
Proof.
  intros H1 H2. unfold add_left, left_of. pose proof (lstrip_le off (m - off)) as Hl. set (n := if has_attr ATTR_LSTRIP (attr data) then _ else _).
  assert (n <= m - off) as Hn by (unfold n; destruct (has_attr _ _); lia). destruct (decide (0 < n)) as [Hp|Hp].
  - rewrite !bool_decide_true by lia. unfold new_text. rewrite !ggml_assert_bd by lia. cbn [mbind option_bind]. rewrite emplace_middle.
    change (l1 ++ f :: FragText off n :: l2) with (l1 ++ [f] ++ FragText off n :: l2). rewrite app_assoc. replace (length l1 + 1) with (length (l1 ++ [f])) by (rewrite length_app; cbn; lia).
    rewrite emplace_middle. rewrite <- app_assoc, length_app. cbn. do 2 f_equal; lia.
  - rewrite (bool_decide_false (0 < n)) by done. assert ((if bool_decide (off < m) then Some (l1 ++ f :: l2, length l1) else Some (l1 ++ f :: l2, length l1)) = Some (l1 ++ f :: l2, length l1)) as -> by (by destruct (bool_decide _)).
    cbn [mbind option_bind]. rewrite emplace_middle. cbn. do 2 f_equal; lia.
Qed.

(** Nothing is found in an empty range. *)
Lemma find_in_empty off : find_sub (text data) (sub off 0) = None.
Proof.
  destruct (find_sub _ _) as [k|] eqn:E; [|done]. apply find_sub_Some in E as (_ & H & _). pose proof text_pos. change (sub off 0) with (@nil byte) in H. cbn in H. lia.
Qed.

Lemma cut_empty fuel off : cut fuel off 0 = [].
Proof. destruct fuel; [done|]. cbn [cut]. by rewrite find_in_empty. Qed.

Lemma split_empty fuel off it buffer : off <= length raw -> split_fragment raw fuel data id off 0 it buffer = Some (buffer, it).
Proof.
  intros H. assert (str_find (take (off + 0) raw) (text data) off = None) as E; [|destruct fuel; cbn [split_fragment]; by rewrite E].
  rewrite find_range by lia. by rewrite find_in_empty.
Qed.

Lemma split_fragment_ok fuel : forall off len l1 l2, 1 <= len -> off + len <= length raw -> len <= fuel ->
  cut fuel off len <> [] /\
  split_fragment raw fuel data id off len (length l1) (l1 ++ FragText off len :: l2) = Some (l1 ++ cut fuel off len ++ l2, length l1 + length (cut fuel off len) - 1).
Proof.
  induction fuel as [|fuel IH]; intros off len l1 l2 H1 H2 Hf; [lia|]. cbn [cut split_fragment]. rewrite find_range by done.
  destruct (find_sub (text data) (sub off len)) as [k|] eqn:Ek; cbn [fmap option_fmap option_map].
  2: { rewrite bool_decide_false by lia. split; [done|]. cbn. do 2 f_equal; lia. }
  split; [by destruct (left_of off (off + k))|]. apply find_sub_Some in Ek as (_ & Hk & _). rewrite length_sub in Hk by done. pose proof text_pos as Htp.
  rewrite add_left_ok by lia. cbn [mbind option_bind]. replace (len - (off + k - off + length (text data))) with (len - (k + length (text data))) by lia.
  set (L := left_of off (off + k)). destruct (decide (off + k + length (text data) < off + len)) as [Hr|Hr].
  - rewrite bool_decide_true by done. fold (right_of (off + k + length (text data)) (len - (k + length (text data)))).
    destruct (right_of _ _) as [o l] eqn:Er. apply right_le in Er as [Ho Hol].
    replace (length l1 + length L + 1) with (length (l1 ++ FragText off len :: L)) by (rewrite length_app; cbn; lia).
    destruct (decide (0 < l)) as [Hl|Hl].
    + rewrite bool_decide_true by done. unfold new_text. rewrite !ggml_assert_bd by lia. cbn [mbind option_bind].
      replace (l1 ++ FragText off len :: L ++ FragToken id :: l2) with ((l1 ++ FragText off len :: L) ++ FragToken id :: l2) by (by rewrite <- app_assoc).
      rewrite emplace_middle. rewrite <- app_assoc. cbn [app]. rewrite erase_middle.
      destruct (IH o l (l1 ++ L ++ [FragToken id]) l2) as [_ IHr]; [lia|lia|lia|].
      replace (length (l1 ++ FragText off len :: L) + 1 - 1) with (length (l1 ++ L ++ [FragToken id])) by (rewrite !length_app; cbn; lia).
      replace (l1 ++ L ++ FragToken id :: FragText o l :: l2) with ((l1 ++ L ++ [FragToken id]) ++ FragText o l :: l2) by (by rewrite <- !app_assoc).
      rewrite IHr. f_equal. f_equal; [by rewrite <- !app_assoc|]. rewrite !length_app. cbn. lia.
    + rewrite (bool_decide_false (0 < l)) by done. cbn [mbind option_bind]. assert (l = 0) as -> by lia.
      replace (l1 ++ FragText off len :: L ++ FragToken id :: l2) with (l1 ++ FragText off len :: (L ++ FragToken id :: l2)) by done. rewrite erase_middle.
      rewrite split_empty by lia. rewrite cut_empty.
      f_equal. f_equal; [by rewrite <- !app_assoc|]. rewrite !length_app. cbn. lia.
  - rewrite bool_decide_false by done. rewrite erase_middle. destruct (right_of _ _) as [o l] eqn:Er. apply right_le in Er as [Ho Hol]. assert (l = 0) as -> by lia.
    rewrite cut_empty.
    f_equal. f_equal; [by rewrite <- !app_assoc|]. rewrite !length_app. cbn. lia.
Qed.

(** ** What a cut yields *)

Lemma sub_contains off len o l : off <= o -> o + l <= off + len -> contains (sub off len) (sub o l).
Proof.
  intros H1 H2. exists (take (o - off) (sub off len)), (drop l (drop (o - off) (sub off len))).
  assert (sub o l = take l (drop (o - off) (sub off len))) as ->; [|by rewrite !take_drop].
  unfold sub. rewrite (take_drop_commute (take len (drop off raw))), take_take, Nat.min_l by lia. rewrite <- take_drop_commute, drop_drop. by replace (off + (o - off)) with o by lia.
Qed.

Definition cut_good (off len : nat) (f : fragment_buffer_variant) : Prop :=
  match f with
  | FragText o l => 1 <= l /\ off <= o /\ o + l <= off + len /\ ~ contains (sub o l) (text data)
  | FragToken i => i = id
  end.

Lemma cut_good_mono off len o l f : off <= o -> o + l <= off + len -> cut_good o l f -> cut_good off len f.
Proof. destruct f as [t|o' l']; [done|]. cbn. intros H1 H2 (? & ? & ? & ?). split_and!; [lia..|done]. Qed.

Lemma left_good off len k : off + len <= length raw -> find_sub (text data) (sub off len) = Some k -> Forall (cut_good off len) (left_of off (off + k)).
Proof.
  intros H Hk. apply find_sub_Some in Hk as (_ & Hk & Hfirst). rewrite length_sub in Hk by done. pose proof text_pos. unfold left_of.
  set (n := if has_attr ATTR_LSTRIP (attr data) then _ else _). assert (n <= k) as Hn by (unfold n; pose proof (lstrip_le off (off + k - off)); destruct (has_attr _ _); lia).
  destruct (decide (0 < n)) as [Hp|Hp]; [rewrite bool_decide_true by done|by rewrite bool_decide_false]. apply Forall_singleton. split_and!; [lia..|].
  intros (a & b & Hab). assert (length (a ++ text data ++ b) = n) as Hl by (rewrite <- Hab; apply length_sub; lia). rewrite !length_app in Hl.
  apply (Hfirst (length a) (b ++ drop n (sub off len))); [lia|].
  assert (sub off n = take n (sub off len)) as E by (unfold sub; by rewrite take_take, Nat.min_l by lia).
  rewrite <- (take_drop n (sub off len)) at 1. rewrite <- E, Hab, <- !app_assoc. apply drop_app_length.
Qed.

Lemma cut_ok fuel : forall off len, off + len <= length raw -> Forall (cut_good off len) (cut fuel off len).
Proof.
  induction fuel as [|fuel IH]; intros off len H; cbn [cut]; [constructor|]. destruct (find_sub (text data) (sub off len)) as [k|] eqn:Ek.
  - apply Forall_app; split; [by apply left_good|]. constructor; [done|]. pose proof Ek as (_ & Hk & _)%find_sub_Some. rewrite length_sub in Hk by done.
    destruct (right_of _ _) as [o l] eqn:Er. apply right_le in Er as [Ho Hol]. cbn [app]. eapply Forall_impl; [apply (IH o l); lia|]. intros f. apply cut_good_mono; lia.
  - case_bool_decide; constructor; [|constructor]. split_and!; [lia..|]. by apply find_sub_None.
Qed.

(** The text of a fragment, when [str] gives those of the tokens. *)
Definition frag_str (str : Z -> list byte) (f : fragment_buffer_variant) : list byte := match f with FragToken i => str i | FragText o l => sub o l end.

Lemma cut_render str fuel : str id = text data -> has_attr ATTR_LSTRIP (attr data) = false -> has_attr ATTR_RSTRIP (attr data) = false ->
  forall off len, off + len <= length raw -> len < fuel -> concat (frag_str str <$> cut fuel off len) = sub off len.
Proof.
  intros Hs Hl Hr. induction fuel as [|fuel IH]; intros off len H Hf; [lia|]. cbn [cut]. destruct (find_sub (text data) (sub off len)) as [k|] eqn:Ek.
  - pose proof Ek as ((b & Hb) & Hk & _)%find_sub_Some. rewrite length_sub in Hk by done. pose proof text_pos. unfold right_of. rewrite Hr. rewrite !fmap_app, !concat_app.
    rewrite IH by lia. cbn [fmap list_fmap concat frag_str]. rewrite Hs, app_nil_r.
    assert (concat (frag_str str <$> left_of off (off + k)) = sub off k) as ->.
    { unfold left_of. rewrite Hl. replace (off + k - off) with k by lia. destruct k as [|k]; [done|]. rewrite bool_decide_true by lia. cbn [fmap list_fmap concat frag_str]. apply app_nil_r. }
    assert (sub off len = sub off k ++ drop k (sub off len)) as E by (unfold sub; rewrite <- (take_drop k (take len _)) at 1; by rewrite take_take, Nat.min_l by lia).
    rewrite E, Hb. f_equal. f_equal. assert (b = drop (length (text data)) (drop k (sub off len))) as -> by (by rewrite Hb, drop_app_length).
    unfold sub. rewrite drop_drop. set (m := k + length (text data)). transitivity (drop m (take (m + (len - m)) (drop off raw))); [|do 2 f_equal; lia].
    rewrite <- take_drop_commute, drop_drop. do 2 f_equal. lia.
  - case_bool_decide as E; [subst; done|]. cbn. apply app_nil_r.
Qed.

(** ** Cutting all fragments *)

Definition cut1 (f : fragment_buffer_variant) : list fragment_buffer_variant := match f with FragText o l => cut (S l) o l | FragToken _ => [f] end.

Lemma split_buffer_ok fuel : forall l1 l2, Forall valid l2 -> length l2 <= fuel ->
  split_buffer raw fuel data id (length l1) (l1 ++ l2) = Some (l1 ++ concat (cut1 <$> l2)).
Proof.
  induction fuel as [|fuel IH]; intros l1 l2 Hv Hf.
  - destruct l2; [|cbn in Hf; lia]. cbn [split_buffer]. by rewrite lookup_ge_None_2 by (rewrite app_nil_r; lia).
  - destruct l2 as [|f l2]; cbn [split_buffer]; [by rewrite lookup_ge_None_2 by (rewrite app_nil_r; lia)|].
    rewrite lookup_app_r, Nat.sub_diag by lia. cbn [lookup list_lookup]. apply Forall_cons in Hv as [Hv0 Hv]. destruct f as [t|o l].
    + cbn [mbind option_bind]. replace (length l1 + 1) with (length (l1 ++ [FragToken t])) by (rewrite length_app; cbn; lia).
      change (l1 ++ FragToken t :: l2) with (l1 ++ [FragToken t] ++ l2). rewrite app_assoc, IH by (done || cbn in Hf; lia). by rewrite <- app_assoc.
    + destruct Hv0 as [H1 H2]. destruct (split_fragment_ok (S l) o l l1 l2 H1 H2 ltac:(lia)) as [Hne ->]. cbn [mbind option_bind].
      assert (0 < length (cut (S l) o l)) as Hpos by (destruct (cut (S l) o l); [done|cbn; lia]).
      replace (length l1 + length (cut (S l) o l) - 1 + 1) with (length (l1 ++ cut (S l) o l)) by (rewrite length_app; lia).
      rewrite app_assoc, IH by (done || cbn in Hf; lia). rewrite <- app_assoc. done.
Qed.

End Cut.

(** * The partition *)

Section Partition.
Context `{FO : FloatOps} (V : llama_vocab) (raw : list byte) (parse_special : bool).

(** The special tokens that are searched: all of them, or those that are neither
    control tokens nor unknown. *)
Definition considered (id : Z) (d : token_data) : Prop :=
  (0 <= id)%Z /\ id_to_token V !! Z.to_nat id = Some d /\ negb parse_special && has_attr (Z.lor ATTR_CONTROL ATTR_UNKNOWN) (attr d) = false.

Definition token_str (i : Z) : list byte := from_option text [] (id_to_token V !! Z.to_nat i).

Definition plain (d : token_data) : Prop := has_attr ATTR_LSTRIP (attr d) = false /\ has_attr ATTR_RSTRIP (attr d) = false.

(** The fragments after the special tokens [ids] have been searched. *)
Record parted (ids : list Z) (buffer : list fragment_buffer_variant) : Prop := {
  pt_valid  : Forall (valid raw) buffer;
  pt_absent : forall id d o l, id ∈ ids -> considered id d -> FragText o l ∈ buffer -> ~ contains (sub raw o l) (text d);
  pt_token  : forall i, FragToken i ∈ buffer -> i ∈ ids /\ exists d, considered i d;
  pt_render : (forall id d, id ∈ ids -> considered id d -> plain d) -> concat (frag_str raw token_str <$> buffer) = raw;
}.

Context (W : vocab_ok V).

Lemma special_step_ok id d ids buffer : (0 <= id)%Z -> id_to_token V !! Z.to_nat id = Some d -> parted ids buffer ->
  exists buffer', special_step raw V parse_special id buffer = Done buffer' /\ parted (ids ++ [id]) buffer'.
Proof.
  intros Hid Hd [P1 P2 P3 P4]. unfold special_step, get_token_data, at_. rewrite must_bd by apply (vo_type _ W). cbn [mbind outcome_bind]. rewrite bool_decide_true, Hd by done. cbn [mbind outcome_bind].
  assert (text d <> []) as Ht by (intros E; pose proof (vo_text _ W _ _ Hd) as H; by rewrite E, (vo_some _ W) in H).
  assert (forall x dx, x ∈ ids ++ [id] -> considered x dx -> x ∈ ids \/ (x = id /\ dx = d)) as Hx.
  { intros x dx [?| ->%list_elem_of_singleton]%elem_of_app (_ & Hdx & _); [by left|right]. rewrite Hd in Hdx. by injection Hdx as <-. }
  destruct (negb parse_special && has_attr (Z.lor ATTR_CONTROL ATTR_UNKNOWN) (attr d)) eqn:Ec.
  { exists buffer. split; [done|]. assert (forall dx, ~ considered id dx) as Hno by (intros dx (_ & Hdx & Hc); rewrite Hd in Hdx; injection Hdx as <-; congruence). split; [done| | |].
    - intros x dx o l Hin Hc. destruct (Hx _ _ Hin Hc) as [?|[-> ->]]; [by eapply P2|]. by apply Hno in Hc.
    - intros i Hi. destruct (P3 _ Hi). split; [set_solver|done].
    - intros Hp. apply P4. intros x dx Hin. apply Hp. set_solver. }
  assert (considered id d) as Hcd by done.
  pose proof (split_buffer_ok raw d id Ht (length buffer) [] buffer P1 ltac:(lia)) as Hs. cbn [length app] in Hs. rewrite Hs. cbn [of_option]. eexists. split; [reflexivity|].
  assert (forall f, f ∈ concat (cut1 raw d id <$> buffer) -> f ∈ buffer /\ (exists i, f = FragToken i) \/ exists o l, FragText o l ∈ buffer /\ cut_good raw d id o l f) as Hf.
  { intros f Hfl. rewrite list_elem_of_In in Hfl. apply in_concat in Hfl as (l & Hl & Hfl). apply list_elem_of_In in Hl. apply list_elem_of_In in Hfl. apply list_elem_of_fmap in Hl as (g & -> & Hg). destruct g as [t|o l].
    - left. cbn in Hfl. apply list_elem_of_singleton in Hfl as ->. split; [done|by exists t].
    - right. exists o, l. split; [done|]. rewrite Forall_forall in P1. specialize (P1 _ Hg) as [_ Hv]. pose proof (cut_ok raw d id Ht (S l) o l Hv) as Hc. rewrite Forall_forall in Hc. by apply Hc. }
  split.
  - apply Forall_forall. intros f [[_ [i ->]]|(o & l & Ho & Hg)]%Hf; [done|]. rewrite Forall_forall in P1. specialize (P1 _ Ho) as [_ Hv]. destruct f; [done|]. cbn in *. lia.
  - intros x dx o l Hin Hc [[_ [i Hi]]|(o' & l' & Ho & H1 & H2 & H3 & H4)]%Hf; [done|]. destruct (Hx _ _ Hin Hc) as [Hin'|[-> ->]]; [|done].
    intros Hcon. apply (P2 x dx o' l' Hin' Hc Ho). eapply contains_trans; [|exact Hcon]. by apply sub_contains.
  - intros i [[Hi _]|(o & l & _ & Hg)]%Hf; [destruct (P3 _ Hi); split; [set_solver|done]|]. cbn in Hg. subst i. split; [set_solver|by exists d].
  - intros Hp. destruct (Hp id d ltac:(set_solver) Hcd) as [Hl Hr]. transitivity (concat (frag_str raw token_str <$> buffer)); [|apply P4; intros x dx Hin; apply Hp; set_solver]. clear Hs Hf P2 P3 P4.
    induction buffer as [|f buffer IH]; [done|]. apply Forall_cons in P1 as [Hv P1]. cbn [fmap list_fmap concat]. rewrite fmap_app, concat_app, IH by done. f_equal.
    destruct f as [t|o l]; [cbn; apply app_nil_r|]. destruct Hv as [H1 H2]. apply cut_render; [done| |done|done|done|lia]. unfold token_str. by rewrite Hd.
Qed.

Lemma specials_ok l : forall ids buffer, (forall id, id ∈ l -> (0 <= id)%Z /\ is_Some (id_to_token V !! Z.to_nat id)) -> parted ids buffer ->
  exists buffer', foldO (special_step raw V parse_special) l buffer = Done buffer' /\ parted (ids ++ l) buffer'.
Proof.
  induction l as [|id l IH]; intros ids buffer Hl P; [exists buffer; by rewrite app_nil_r|].
  destruct (Hl id ltac:(by left)) as [Hid [d Hd]]. destruct (special_step_ok _ _ _ _ Hid Hd P) as (b1 & Hb1 & P1). cbn [foldO]. rewrite Hb1. cbn [mbind outcome_bind].
  destruct (IH _ _ ltac:(intros x Hx; apply Hl; by right) P1) as (b2 & Hb2 & P2). exists b2. by rewrite <- app_assoc in P2.
Qed.

End Partition.

(** C35: the partition of a non-empty text by the special tokens always ends.  Its
    text fragments are non-empty ranges of the text in which none of the tokens
    that are searched occurs, its tokens are some of those, and unless some token
    strips white space, the fragments with the texts of their tokens are the
    text. *)
Theorem partition_correct `{FO : FloatOps} (V : llama_vocab) (raw : list byte) (parse_special : bool) :
  vocab_ok V -> raw <> [] -> (forall id, id ∈ cache_special_tokens V -> (0 <= id)%Z /\ is_Some (id_to_token V !! Z.to_nat id)) ->
  exists frags, tokenizer_st_partition raw V parse_special [FragText 0 (length raw)] = Done frags /\
    (forall o l, FragText o l ∈ frags -> 1 <= l /\ o + l <= length raw /\
       forall id d, id ∈ cache_special_tokens V -> considered V parse_special id d -> ~ contains (sub raw o l) (text d)) /\
    (forall i, FragToken i ∈ frags -> i ∈ cache_special_tokens V /\ exists d, considered V parse_special i d) /\
    ((forall id d, id ∈ cache_special_tokens V -> considered V parse_special id d -> plain d) -> concat (frag_str raw (token_str V) <$> frags) = raw).
Proof.
  intros W Hraw Hl. assert (0 < length raw) as Hpos by (destruct raw; [done|cbn; lia]).
  destruct (specials_ok V raw parse_special W (cache_special_tokens V) [] [FragText 0 (length raw)] Hl) as (frags & Hrun & [P1 P2 P3 P4]).
  { split; [|intros * H; by apply not_elem_of_nil in H|intros i H%list_elem_of_singleton; done|].
    - apply Forall_singleton. cbn. lia.
    - intros _. cbn. rewrite app_nil_r. unfold sub. by rewrite drop_0, firstn_all. }
  exists frags. split; [done|]. rewrite app_nil_l in *. split; [|done]. intros o l Hin. rewrite Forall_forall in P1. destruct (P1 _ Hin). split; [done|]. split; [done|].
  intros id d Hid Hc. by apply (P2 id).
Qed.

(** ** An example *)

Definition demo_tables : load_state (FO := demo_floats) := tables (FO := demo_floats) [[x61]; [x62]; [x61; x62]] None.

(** A vocabulary whose special token is "ab". *)
Definition demo_vocab : llama_vocab (FO := demo_floats) := mkVocab (FO := demo_floats) SPM (snd demo_tables) (-1) (-1) (-1) (-1) false false false false false false true false
  (fst (fst demo_tables)) (snd (fst demo_tables)) [2%Z] [] ∅.

Lemma partition_demo_vocab_ok : vocab_ok (FO := demo_floats) demo_vocab.
Proof.
  apply (loaded_vocab_ok (FO := demo_floats) _ [[x61]; [x62]; [x61; x62]] None None); [|discriminate|reflexivity].
  apply (tables_ok (FO := demo_floats)). by_eval.
Qed.

Lemma partition_correct_witness : exists frags, tokenizer_st_partition (FO := demo_floats) [x62; x61; x62; x61] demo_vocab true [FragText 0 4] = Done frags /\
  concat (frag_str [x62; x61; x62; x61] (token_str (FO := demo_floats) demo_vocab) <$> frags) = [x62; x61; x62; x61].
Proof.
  destruct (partition_correct (FO := demo_floats) demo_vocab [x62; x61; x62; x61] true partition_demo_vocab_ok ltac:(discriminate)) as (frags & Hrun & _ & _ & Hr).
  - intros id ->%list_elem_of_singleton. split; [discriminate|]. exists (mkToken (FO := demo_floats) [x61; x62] 0%Z ATTR_NORMAL). vm_compute. reflexivity.
  - exists frags. split; [exact Hrun|]. apply Hr. intros id d ->%list_elem_of_singleton (_ & Hd & _). vm_compute in Hd. injection Hd as <-. split; reflexivity.
Defined.

Lemma partition_demo : tokenizer_st_partition (FO := demo_floats) [x62; x61; x62; x61] demo_vocab true [FragText 0 4] = Done [FragText 0 1; FragToken 2; FragText 3 1].
Proof. vm_compute. reflexivity. Qed.

End TokenizeOk.
