(* ===== verification/Trie.v ===== *)
(** The tries of the tokenizers ([naive_trie] of
    [llama_cpp_repo/src/llama-vocab.cpp]): they refine a finite map from texts to
    tokens; [get_longest_prefix] measures paths, not keys. *)

From S2P Require Import Bytes.
From S2P Require Import Vocab.
Import Vocab.Vocab.

Module Trie.

Inductive naive_trie := mkTrie (children : gmap byte naive_trie) (has_value : bool) (value : Z).

Definition children (t : naive_trie) : gmap byte naive_trie := match t with mkTrie c _ _ => c end.
Definition has_value (t : naive_trie) : bool := match t with mkTrie _ h _ => h end.
Definition value (t : naive_trie) : Z := match t with mkTrie _ _ v => v end.

Definition empty_trie : naive_trie := mkTrie ∅ false 0.

Fixpoint insert (key : list byte) (v : Z) (t : naive_trie) : naive_trie :=
  match key with
  | [] => mkTrie (children t) true v
  | c :: key =>
      match children t !! c with
      | Some res => mkTrie (<[c := insert key v res]> (children t)) (has_value t) (value t)
      | None => mkTrie (<[c := insert key v empty_trie]> (children t)) (has_value t) (value t)
      end
  end.

(** The second component of the result: how far the key goes down the trie. *)
Fixpoint get_longest_prefix (t : naive_trie) (key : list byte) (offset : nat) : nat :=
  match key with
  | [] => offset
  | c :: key => match children t !! c with Some res => get_longest_prefix res key (offset + 1) | None => offset end
  end.

Definition traverse (t : naive_trie) (c : byte) : option naive_trie := children t !! c.

(** * Refinement of a finite map *)

Fixpoint walk (t : naive_trie) (key : list byte) : option naive_trie :=
  match key with
  | [] => Some t
  | c :: key => t ← traverse t c; walk t key
  end.

(** The token of a key. *)
Definition find (t : naive_trie) (key : list byte) : option Z := u ← walk t key; if has_value u then Some (value u) else None.

Lemma walk_empty key : key <> [] -> walk empty_trie key = None.
Proof. destruct key as [|c key]; [done|]. intros _. cbn [walk]. unfold traverse, empty_trie. cbn [children]. by rewrite lookup_empty. Qed.

Lemma find_empty key : find empty_trie key = None.
Proof. destruct key as [|c key]; [done|]. unfold find. by rewrite walk_empty. Qed.

Lemma children_insert t c key v : children (insert (c :: key) v t) = <[c := insert key v (default empty_trie (children t !! c))]> (children t).
Proof. cbn [insert]. by destruct (children t !! c). Qed.

Lemma find_cons t c key : find t (c :: key) = u ← children t !! c; find u key.
Proof. unfold find, traverse. cbn. unfold traverse. by destruct (children t !! c). Qed.

Lemma find_insert key v : forall t k, find (insert key v t) k = if decide (k = key) then Some v else find t k.
Proof.
  induction key as [|c key IH]; intros t k.
  - destruct k as [|d k]; [done|]. by rewrite !find_cons.
  - destruct k as [|d k]; [cbn [insert]; by destruct (children t !! c)|]. rewrite !find_cons, children_insert. destruct (decide (d = c)) as [->|Hne].
    + rewrite lookup_insert_eq. cbn [mbind option_bind]. rewrite IH. destruct (decide (k = key)) as [->|Hk]; [by rewrite decide_True|]. rewrite decide_False by congruence.
      destruct (children t !! c); [done|]. apply find_empty.
    + rewrite lookup_insert_ne by done. by rewrite decide_False by congruence.
Qed.

Lemma walk_app t k1 k2 : walk t (k1 ++ k2) = u ← walk t k1; walk u k2.
Proof. revert t. induction k1 as [|c k1 IH]; intros t; cbn; [done|]. destruct (traverse t c); [apply IH|done]. Qed.

(** Paths of a trie are the prefixes of its keys. *)
Definition path (t : naive_trie) (k : list byte) : Prop := exists ext, is_Some (find t (k ++ ext)).

Lemma path_walk t k : path t k -> is_Some (walk t k).
Proof. intros (ext & v & H). unfold find in H. rewrite walk_app in H. destruct (walk t k); [by eexists|done]. Qed.

Lemma find_walk t k u : walk t k = Some u -> forall ext, find t (k ++ ext) = find u ext.
Proof. intros H ext. unfold find. by rewrite walk_app, H. Qed.

(** A trie without dead ends, as insertions build it. *)
Definition trim (t : naive_trie) : Prop := forall k, k <> [] -> is_Some (walk t k) -> path t k.

Lemma trim_empty : trim empty_trie.
Proof. intros k Hk H. rewrite walk_empty in H by done. by destruct H. Qed.

Lemma walk_insert key v : forall t k, is_Some (walk (insert key v t) k) -> is_Some (walk t k) \/ exists ext, key = k ++ ext.
Proof.
  induction key as [|c key IH]; intros t k; [destruct k as [|d k]; [by eauto|by left]|]. destruct k as [|d k]; [by eauto|].
  cbn [walk]. unfold traverse. rewrite children_insert. destruct (decide (d = c)) as [->|Hne].
  - rewrite lookup_insert_eq. cbn [mbind option_bind]. intros [H|[ext ->]]%IH; [|right; by exists ext]. destruct (children t !! c) as [u|]; [by left|].
    destruct k as [|e k]; [right; by exists key|]. rewrite walk_empty in H by done. by destruct H.
  - rewrite lookup_insert_ne by done. by left.
Qed.

Lemma trim_insert key v t : trim t -> trim (insert key v t).
Proof.
  intros T k Hk [H|[ext ->]]%walk_insert.
  - destruct (T k Hk H) as (ext & Hf). exists ext. rewrite find_insert. case_decide; [by eexists|done].
  - exists ext. rewrite find_insert, decide_True by done. by eexists.
Qed.

(** The trie of a list of keys with their tokens. *)
Definition build (kvs : list (list byte * Z)) (t : naive_trie) : naive_trie := foldl (fun t kv => insert (fst kv) (snd kv) t) t kvs.

Lemma build_trim kvs : forall t, trim t -> trim (build kvs t).
Proof. induction kvs as [|[k v] kvs IH]; intros t T; [done|]. apply IH. by apply trim_insert. Qed.

Lemma build_find kvs k : find (build kvs empty_trie) k = foldl (fun r kv => if decide (k = fst kv) then Some (snd kv) else r) None kvs.
Proof.
  induction kvs as [|[k' v] kvs IH] using rev_ind; [apply find_empty|]. unfold build in *. rewrite !foldl_app. cbn [foldl fst snd]. by rewrite find_insert, IH.
Qed.

(** [get_longest_prefix] answers the length of the longest path that the key
    follows. *)
Lemma longest_prefix_ok key : forall t off, exists n, get_longest_prefix t key off = off + n /\ n <= length key /\ is_Some (walk t (take n key)) /\
  forall m, n < m -> m <= length key -> walk t (take m key) = None.
Proof.
  induction key as [|c key IH]; intros t off; cbn [get_longest_prefix]; [exists 0; split_and!; [lia|done|by eexists|cbn; lia]|].
  destruct (children t !! c) as [u|] eqn:E.
  - destruct (IH u (off + 1)) as (n & -> & H1 & H2 & H3). exists (S n). split; [lia|]. split; [cbn; lia|]. cbn [take walk]. unfold traverse. rewrite E. cbn [mbind option_bind]. split; [done|].
    intros [|m] Hm Hl; [lia|]. cbn [take walk]. unfold traverse. rewrite E. cbn [mbind option_bind]. apply H3; cbn in Hl; lia.
  - exists 0. split_and!; [lia|lia|by eexists|]. intros [|m] Hm _; [lia|]. cbn. unfold traverse. by rewrite E.
Qed.

End Trie.
