(* ===== verification/UgmTok.v ===== *)
(** The UGM tokenizer ([llm_tokenizer_ugm] of
    [llama_cpp_repo/src/llama-vocab.cpp]): normalization of the text with a
    double array of replacements, and a Viterbi search for the segmentation with
    the greatest sum of scores. *)

From S2P Require Import Bytes.
From S2P Require Import Utf8.
From S2P Require Import Vocab.
From S2P Require Import VocabOk.
From S2P Require Import Trie.
Import Utf8.Utf8 Vocab.Vocab VocabOk.VocabOk Trie.Trie.

Module UgmTok.

#[local] Abbreviation outcome := (Prelude.outcome tok_error).

(** Double precision numbers: the sums of the scores. *)
Class DoubleOps `{FO : FloatOps} := {
  double    : Type;
  dzero     : double;
  dlowest   : double;
  dadd      : double -> double -> double;
  dlt       : double -> double -> bool;
  to_double : float -> double;
}.

Section Ugm.
Context `{DO : DoubleOps}.
Context (V : llama_vocab).

(** * The tokenizer *)

Record llm_tokenizer_ugm := mkUgm {
  prefix_replacements         : list byte;
  xcda_array                  : list Z;
  user_defined_token_matcher  : naive_trie;
  min_score                   : float;
  max_score                   : float;
  unknown_token_score         : float;
  token_matcher               : naive_trie;
}.

(** The four bytes of a little-endian machine. *)
Definition read_u32 (s : list byte) : option Z :=
  match s with
  | a :: b :: c :: d :: _ => Some (u8 a + Z.shiftl (u8 b) 8 + Z.shiftl (u8 c) 16 + Z.shiftl (u8 d) 24)%Z
  | _ => None
  end.

Fixpoint read_u32s (n : nat) (s : list byte) : option (list Z) :=
  match n with
  | 0 => Some []
  | S n => z ← read_u32 s; zs ← read_u32s n (drop 4 s); Some (z :: zs)
  end.

(** The arrays of the precompiled charsmap. *)
Definition load_charsmap (charsmap : list byte) : outcome (list Z * list byte) :=
  if bool_decide (charsmap = []) then Done ([], []) else
  xcda_blob_size ← of_option (read_u32 charsmap);
  if bool_decide (Z.of_nat (length charsmap) <= xcda_blob_size + 4)%Z then Throw RuntimeError else
  xcda ← of_option (read_u32s (Z.to_nat xcda_blob_size / 4) (drop 4 charsmap));
  Done (xcda, drop (4 + Z.to_nat xcda_blob_size) charsmap).

Definition ugm_state : Type := float * float * naive_trie * naive_trie.

Definition add_token (id : nat) (st : ugm_state) : outcome ugm_state :=
  let '(mn, mx, toks, user) := st in
  let id := Z.of_nat id in
  data ← get_token_data V id;
  normal ← is_normal V id;
  let '(mn, mx) := if (normal : bool) then (if flt (score data) mn then score data else mn, if flt mx (score data) then score data else mx) else (mn, mx) in
  user_defined ← is_user_defined V id;
  unused ← is_unused V id;
  let toks := if normal || user_defined || unused then insert (text data) id toks else toks in
  let user := if (user_defined : bool) then insert (text data) 0 user else user in
  Done (mn, mx, toks, user).

Definition new_ugm (flt_max : float) (charsmap : list byte) : outcome llm_tokenizer_ugm :=
  '(xcda, replacements) ← load_charsmap charsmap;
  '(mn, mx, toks, user) ← foldO add_token (seq 0 (Z.to_nat (n_tokens V))) (flt_max, fsub fzero flt_max, empty_trie, empty_trie);
  Done (mkUgm replacements xcda user mn mx (fsub mn (of_int 10)) toks).

(** * Normalization *)

Section Normalize.
Context (tokenizer : llm_tokenizer_ugm).

Definition get_node (index : Z) : outcome Z :=
  if bool_decide (Z.of_nat (length (xcda_array tokenizer)) <= index)%Z then Throw RuntimeError else of_option (xcda_array tokenizer !! Z.to_nat index).

Definition get_base (index : Z) : outcome Z :=
  packed_node ← get_node index;
  Done (u32_wrap (Z.shiftl (Z.shiftr packed_node 10) (Z.shiftr (Z.land packed_node (Z.shiftl 1 9)) 6))).

Definition get_lcheck (index : Z) : outcome Z := packed_node ← get_node index; Done (Z.land packed_node (Z.lor (Z.shiftl 1 31) 0xff)).
Definition get_leaf (index : Z) : outcome bool := packed_node ← get_node index; Done (bool_decide (Z.land (Z.shiftr packed_node 8) 1 = 1)%Z).
Definition get_value (index : Z) : outcome Z := packed_node ← get_node index; Done (Z.land packed_node (Z.shiftl 1 31 - 1)).

(** The walk through the double array: the length and the replacement of the
    longest match so far. *)
Fixpoint xcda_loop (s : list byte) (node_index : Z) (i : nat) (longest : nat * Z) : outcome (nat * Z) :=
  match s with
  | [] => Done longest
  | c :: s =>
      if bool_decide (c = x00) then Done longest else
      let node_index := Z.lxor node_index (u8 c) in
      lcheck ← get_lcheck node_index;
      if bool_decide (lcheck <> u8 c) then Done longest else
      is_leaf ← get_leaf node_index;
      base ← get_base node_index;
      let node_index := Z.lxor node_index base in
      if (is_leaf : bool) then v ← get_value node_index; xcda_loop s node_index (i + 1) (i + 1, v) else xcda_loop s node_index (i + 1) longest
  end.

(** [strlen] needs the terminator. *)
Definition read_c_str (s : list byte) : outcome (list byte) := if bool_decide (x00 ∈ s) then Done (c_str s) else Undefined.

(** U+FFFD. *)
Definition replacement_character : list byte := [xef; xbf; xbd].

(** The normalized text and the length of what it stands for. *)
Definition normalize_prefix `{BM : BuildMode} (input : list byte) (input_offset : nat) : outcome (list byte * nat) :=
  if bool_decide (input_offset = length input) then Done ([], 0) else
  let user_defined_token_match := get_longest_prefix (user_defined_token_matcher tokenizer) (drop input_offset input) 0 in
  if bool_decide (0 < user_defined_token_match) then Done (take user_defined_token_match (drop input_offset input), user_defined_token_match) else
  '(longest_prefix_length, longest_prefix_offset) ← (if bool_decide (0 < length (xcda_array tokenizer)) then
      node_index ← get_base 0; xcda_loop (drop input_offset input) node_index 0 (0, 0%Z)
    else Done (0, 0%Z));
  if bool_decide (0 < longest_prefix_length) then
    if bool_decide (Z.of_nat (length (prefix_replacements tokenizer)) <= longest_prefix_offset)%Z then Throw RuntimeError else
    prefix_replacement ← read_c_str (drop (Z.to_nat longest_prefix_offset) (prefix_replacements tokenizer));
    Done (prefix_replacement, longest_prefix_length)
  else
    r ← of_option (unicode_cpt_from_utf8 input input_offset);
    match r with
    | Ok (_, prefix_offset) => Done (take (prefix_offset - input_offset) (drop input_offset input), prefix_offset - input_offset)
    | Err _ => Done (replacement_character, 1)
    end.

(** One character of the normalized prefix; the state is the text,
    [is_space_prepended] and [processing_non_ws]. *)
Definition norm_char (sp : list byte) (shall_prepend shall_merge : bool) (c : byte) (st : list byte * bool * bool) : list byte * bool * bool :=
  let '(out, is_space_prepended, processing_non_ws) := st in
  if bool_decide (c <> x20) then
    let '(out, is_space_prepended) :=
      if negb processing_non_ws && ((shall_prepend && negb is_space_prepended) || shall_merge) then (out ++ sp, true) else (out, is_space_prepended) in
    (out ++ [c], is_space_prepended, true)
  else (if negb shall_merge then out ++ sp else out, is_space_prepended, false).

Fixpoint norm_loop `{BM : BuildMode} (fuel : nat) (sp : list byte) (shall_prepend shall_merge : bool) (input : list byte) (input_offset : nat) (st : list byte * bool * bool)
    : outcome (list byte * bool * bool) :=
  if bool_decide (input_offset < length input) then
    match fuel with
    | 0 => Undefined
    | S fuel =>
        '(normalized, consumed_input) ← normalize_prefix input input_offset;
        norm_loop fuel sp shall_prepend shall_merge input (input_offset + consumed_input) (foldl (fun st c => norm_char sp shall_prepend shall_merge c st) st normalized)
    end
  else Done st.

Definition normalize `{BM : BuildMode} (input : list byte) : outcome (list byte) :=
  let sp := if escape_whitespaces V then escaped_space else space in
  let shall_prepend_space := negb (treat_whitespace_as_suffix V) && add_space_prefix V in
  let shall_append_space := treat_whitespace_as_suffix V && add_space_prefix V in
  let shall_merge_spaces := remove_extra_whitespaces V in
  '(out, _, _) ← norm_loop (length input) sp shall_prepend_space shall_merge_spaces input 0 ([], false, false);
  Done (if shall_append_space then out ++ sp else out).

(** * The Viterbi search *)

Record best_tokenization := mkBest { token_id : Z; input_offset : nat; score_sum : double }.

(** A challenger for the best tokenization up to [to]. *)
Definition challenge (to : nat) (challenger : best_tokenization) (results : list best_tokenization) : option (list best_tokenization) :=
  current_champ ← results !! to;
  if dlt (score_sum current_champ) (score_sum challenger) then set_at to challenger results else Some results.

(** [text[i]] of a string, the terminator included. *)
Definition char_at (s : list byte) (i : nat) : option byte := if bool_decide (i = length s) then Some x00 else s !! i.

Definition token_score (id : Z) : outcome double :=
  token_data ← get_token_data V id;
  user_defined ← is_user_defined V id;
  Done (if (user_defined : bool) then dzero else to_double (score token_data)).

(** The tokens that start at [offset]. *)
Fixpoint match_loop (fuel : nat) (normalized : list byte) (n_units offset : nat) (best_sum : double) (prefix_offset : nat) (node : option naive_trie)
    (st : bool * list best_tokenization) : outcome (bool * list best_tokenization) :=
  match node with
  | Some node =>
      if bool_decide (prefix_offset <= length normalized) then
        match fuel with
        | 0 => Undefined
        | S fuel =>
            st ← (if has_value node then
                let '(single_codepoint_token_found, results) := st in
                let single := if bool_decide (prefix_offset - offset = n_units) then true else single_codepoint_token_found in
                sc ← token_score (value node);
                results ← of_option (challenge prefix_offset (mkBest (value node) offset (dadd best_sum sc)) results);
                Done (single, results)
              else Done st);
            c ← of_option (char_at normalized prefix_offset);
            match_loop fuel normalized n_units offset best_sum (prefix_offset + 1) (traverse node c) st
        end
      else Done st
  | None => Done st
  end.

Definition viterbi_step (normalized : list byte) (offset : nat) (results : list best_tokenization) : outcome (nat * list best_tokenization) :=
  c ← of_option (normalized !! offset);
  let n_utf8_code_units := min (unicode_len_utf8 c) (length normalized - offset) in
  current_best ← of_option (results !! offset);
  '(single_codepoint_token_found, results) ←
    match_loop (S (length normalized)) normalized n_utf8_code_units offset (score_sum current_best) (offset + 1) (traverse (token_matcher tokenizer) c) (false, results);
  results ← (if negb single_codepoint_token_found then
      of_option (challenge (offset + n_utf8_code_units) (mkBest (special_unk_id V) offset (dadd (score_sum current_best) (to_double (unknown_token_score tokenizer)))) results)
    else Done results);
  Done (offset + n_utf8_code_units, results).

Fixpoint viterbi_loop (fuel : nat) (normalized : list byte) (offset : nat) (results : list best_tokenization) : outcome (list best_tokenization) :=
  if bool_decide (offset < length normalized) then
    match fuel with
    | 0 => Undefined
    | S fuel => '(offset, results) ← viterbi_step normalized offset results; viterbi_loop fuel normalized offset results
    end
  else Done results.

(** The tokens from the end of the text on.  In the code the loop variable is a
    reference to the last result, which each step overwrites with an earlier one;
    it is never read as an entry of the table again, since all starts lie before
    the end of the text. *)
Fixpoint backtrack (fuel : nat) (results : list best_tokenization) (tokenization : best_tokenization) (is_prev_unknown : bool) (output : list Z) : outcome (list Z) :=
  match fuel with
  | 0 => Undefined
  | S fuel =>
      let is_unknown := bool_decide (token_id tokenization = special_unk_id V) in
      let output := if negb (is_prev_unknown && is_unknown) then output ++ [token_id tokenization] else output in
      if bool_decide (input_offset tokenization = 0) then Done output else
      next ← of_option (results !! input_offset tokenization);
      backtrack fuel results next is_unknown output
  end.

Definition tokenize `{BM : BuildMode} (text : list byte) (output : list Z) : outcome (list Z) :=
  normalized ← normalize text;
  let input_len := length normalized in
  if bool_decide (input_len = 0) then Done output else
  let results := mkBest (special_unk_id V) 0 dzero :: replicate input_len (mkBest (special_unk_id V) 0 dlowest) in
  results ← viterbi_loop input_len normalized 0 results;
  last ← of_option (results !! input_len);
  new ← backtrack input_len results last false [];
  Done (output ++ reverse new).

End Normalize.
End Ugm.
End UgmTok.
