(* ===== verification/UgmOk.v ===== *)
(** The UGM tokenizer: normalization ends and fails only on a malformed map of
    replacements, and the Viterbi search finds a segmentation with the greatest
    sum of scores. *)

From S2P Require Import Bytes.
From S2P Require Import Utf8.
From S2P Require Import Vocab.
From S2P Require Import VocabOk.
From S2P Require Import MergeChain.
From S2P Require Import Trie.
From S2P Require Import UgmTok.
Import Utf8.Utf8 Vocab.Vocab VocabOk.VocabOk MergeChain.MergeChain Trie.Trie UgmTok.UgmTok.

Module UgmOk.

Section Ugm.
Context `{DO : DoubleOps} (V : llama_vocab) (W : vocab_ok V).

(** * The tokens of the matcher *)

Definition usable (d : token_data) : bool := has_attr ATTR_NORMAL (attr d) || has_attr ATTR_USER_DEFINED (attr d) || has_attr ATTR_UNUSED (attr d).

(** The token of a text, if the tokenizer uses it. *)
Definition token_of (key : list byte) : option Z :=
  id ← token_to_id V !! key; d ← id_to_token V !! Z.to_nat id; if usable d then Some id else None.

Lemma token_data_at i d : id_to_token V !! i = Some d -> get_token_data V (Z.of_nat i) = Done d.
Proof using W.
  intros Hd. unfold get_token_data, at_. rewrite must_bd by apply (vo_type _ W). cbn [mbind outcome_bind]. rewrite bool_decide_true by lia. by rewrite Nat2Z.id, Hd.
Qed.

Lemma attr_at mask i d : id_to_token V !! i = Some d -> is_attr mask V (Z.of_nat i) = Done (has_attr mask (attr d)).
Proof using W.
  intros Hd. unfold is_attr. rewrite must_bd by apply (vo_type _ W). cbn [mbind outcome_bind]. by rewrite (index_ok _ _ _ Hd).
Qed.

(** The matcher after the first [n] tokens. *)
Definition loaded_to (n : nat) (st : ugm_state) : Prop :=
  forall key, find (snd (fst st)) key = (id ← token_of key; if decide (Z.to_nat id < n) then Some id else None).

Lemma add_token_ok n st : n < length (id_to_token V) -> loaded_to n st -> exists st', add_token V n st = Done st' /\ loaded_to (n + 1) st'.
Proof using W.
  intros Hn L. destruct (lookup_lt_is_Some_2 _ _ Hn) as [d Hd]. destruct st as [[[mn mx] toks] user]. unfold add_token. rewrite (token_data_at n d Hd). cbn [mbind outcome_bind].
  unfold is_normal, is_user_defined, is_unused. rewrite !(attr_at _ n d Hd). cbn [mbind outcome_bind]. fold (usable d).
  destruct (if has_attr ATTR_NORMAL (attr d) then _ else _) as [mn' mx']. eexists. split; [reflexivity|]. intros key. cbn [fst snd]. pose proof (vo_text _ W _ _ Hd) as Ht.
  assert (find (if usable d then insert (text d) (Z.of_nat n) toks else toks) key = if decide (key = text d) then (if usable d then Some (Z.of_nat n) else find toks key) else find toks key) as ->.
  { destruct (usable d); [apply find_insert|by case_decide]. }
  pose proof (L key) as Hk. cbn [fst snd] in Hk. rewrite Hk. unfold token_of. case_decide as E.
  - subst key. rewrite Ht. cbn [mbind option_bind]. rewrite Nat2Z.id, Hd. cbn [mbind option_bind]. destruct (usable d); [|done]. cbn [mbind option_bind]. rewrite Nat2Z.id. by rewrite decide_True by lia.
  - destruct (token_to_id V !! key) as [id|] eqn:Eid; [|done]. cbn [mbind option_bind]. apply (vo_ids _ W) in Eid as (H0 & d' & Hd' & <-). rewrite Hd'. cbn [mbind option_bind].
    destruct (usable d'); [|done]. cbn [mbind option_bind]. assert (Z.to_nat id <> n) as Hne by (intros <-; congruence). repeat case_decide; (done || lia).
Qed.

(** A tokenizer with a well-formed map of replacements is made, and its matcher
    is the map from the texts of the usable tokens to the tokens. *)
Lemma new_ugm_matcher flt_max charsmap tok : new_ugm V flt_max charsmap = Done tok -> forall key, find (token_matcher tok) key = token_of key.
Proof using W.
  unfold new_ugm. destruct (load_charsmap charsmap) as [[xcda repl]| |]; [|done..]. cbn [mbind outcome_bind].
  destruct (foldO_seq (add_token V) loaded_to 0 (Z.to_nat (n_tokens V)) (flt_max, fsub fzero flt_max, empty_trie, empty_trie)) as ([[[mn mx] toks] user] & -> & L).
  - intros key. cbn [fst snd]. rewrite find_empty. destruct (token_of key); [|done]. cbn. by rewrite decide_False by lia.
  - intros n st Hn. rewrite n_tokens_ok in Hn by done. apply add_token_ok. lia.
  - cbn [mbind outcome_bind]. intros [= <-] key. cbn [token_matcher]. pose proof (L key) as Hk. cbn [fst snd] in Hk. rewrite Hk. unfold token_of. rewrite n_tokens_ok, Nat2Z.id by done.
    destruct (token_to_id V !! key) as [id|]; [|done]. cbn [mbind option_bind]. destruct (id_to_token V !! Z.to_nat id) as [d|] eqn:Hd; [|done]. cbn [mbind option_bind].
    apply lookup_lt_Some in Hd. destruct (usable d); [|done]. cbn [mbind option_bind]. by rewrite decide_True by lia.
Qed.

(** * Segmentations *)

Definition score_of (id : Z) : double :=
  match id_to_token V !! Z.to_nat id with Some d => if has_attr ATTR_USER_DEFINED (attr d) then dzero else to_double (score d) | None => dzero end.

Section Search.
Context (tok : llm_tokenizer_ugm) (s : list byte).

Definition piece (o e : nat) : list byte := take (e - o) (drop o s).

(** The length of the character at [o]. *)
Definition units (o : nat) : nat := from_option (fun c => min (unicode_len_utf8 c) (length s - o)) 0 (s !! o).

(** Where the characters start. *)
Inductive boundary : nat -> Prop :=
  | boundary_0 : boundary 0
  | boundary_next o : boundary o -> o < length s -> boundary (o + units o).

(** A range of the text with its token and score: a token, or the unknown token
    for one character that is no token. *)
Inductive edge (o e : nat) : Z -> double -> Prop :=
  | edge_token id : o < e -> e <= length s -> token_of (piece o e) = Some id -> edge o e id (score_of id)
  | edge_unknown : o < length s -> e = o + units o -> token_of (piece o e) = None -> edge o e (special_unk_id V) (to_double (unknown_token_score tok)).

(** The segmentations of a prefix, whose parts start at characters, and the sum
    of the scores from the left. *)
Inductive segmentation : nat -> list Z -> double -> Prop :=
  | seg_nil : segmentation 0 [] dzero
  | seg_snoc o e ids d id sc : segmentation o ids d -> boundary o -> edge o e id sc -> segmentation e (ids ++ [id]) (dadd d sc).

(** What addition and comparison of sums must satisfy, as those of floating-point
    numbers do in the absence of NaN. *)
Record sum_order : Prop := {
  so_irrefl : forall a, dlt a a = false;
  so_trans  : forall a b c, dlt a b = true -> dlt b c = true -> dlt a c = true;
  so_weak   : forall a b c, dlt a b = false -> dlt b c = false -> dlt a c = false;
  so_mono   : forall a b c, dlt a b = false -> dlt (dadd a c) (dadd b c) = false;
}.

Lemma units_pos o : o < length s -> 0 < units o /\ o + units o <= length s.
Proof using Type.
  intros Ho. unfold units. destruct (lookup_lt_is_Some_2 s o Ho) as [c Hc]. rewrite Hc. cbn. pose proof (unicode_len_pos c). lia.
Qed.

Lemma boundary_le o : boundary o -> o <= length s.
Proof using Type. induction 1 as [|o _ _ Ho]; [lia|]. pose proof (units_pos o Ho). lia. Qed.

Lemma edge_lt o e id sc : edge o e id sc -> o < e /\ e <= length s.
Proof using Type. intros [id' H1 H2 _|Ho -> _]; [done|]. pose proof (units_pos o Ho). lia. Qed.

Lemma edge_unique o e id sc id' sc' : edge o e id sc -> edge o e id' sc' -> id = id' /\ sc = sc'.
Proof using Type. intros [] []; split; congruence. Qed.

(** Some part starts at every character, and ends with it. *)
Lemma edge_char o : o < length s -> exists id sc, edge o (o + units o) id sc.
Proof using Type.
  intros Ho. pose proof (units_pos o Ho). destruct (token_of (piece o (o + units o))) as [id|] eqn:E; do 2 eexists.
  - apply edge_token; [lia|lia|exact E].
  - by apply edge_unknown.
Qed.

Lemma piece_snoc o e c : o <= e -> s !! e = Some c -> piece o (e + 1) = piece o e ++ [c].
Proof using Type.
  intros Ho Hc. unfold piece. replace (e + 1 - o) with (S (e - o)) by lia. apply take_S_r. rewrite lookup_drop. by replace (o + (e - o)) with e by lia.
Qed.

Lemma ugm_piece_app o e e' : o <= e -> e <= e' -> exists k, piece o e' = piece o e ++ k.
Proof using Type.
  intros H1 H2. exists (drop (e - o) (piece o e')). assert (piece o e = take (e - o) (piece o e')) as ->; [|symmetry; apply take_drop].
  unfold piece. by rewrite take_take, Nat.min_l by lia.
Qed.

(** * The walk through the matcher *)

Context (Htok : forall key, find (token_matcher tok) key = token_of key).

Definition match_at (o u : nat) (best : double) (e : nat) (st : bool * list best_tokenization) : outcome tok_error (bool * list best_tokenization) :=
  match token_of (piece o e) with
  | None => Done st
  | Some id =>
      let '(single, results) := st in
      results ← of_option (challenge e (mkBest id o (dadd best (score_of id))) results);
      Done (if bool_decide (e - o = u) then true else single, results)
  end.

Lemma token_score_ok key id : token_of key = Some id -> token_score V id = Done (score_of id).
Proof using W.
  unfold token_of. destruct (token_to_id V !! key) as [id'|] eqn:E; [|done]. cbn [mbind option_bind]. apply (vo_ids _ W) in E as (H0 & d & Hd & _). rewrite Hd. cbn [mbind option_bind].
  destruct (usable d); [|done]. intros [= ->]. unfold token_score, score_of, is_user_defined. rewrite <- (Z2Nat.id id) by done. rewrite (token_data_at _ d), (attr_at _ _ d), Nat2Z.id by done.
  cbn [mbind outcome_bind]. by rewrite Hd.
Qed.

Lemma match_none o u best l st : (forall e, e ∈ l -> token_of (piece o e) = None) -> foldO (match_at o u best) l st = Done st.
Proof using Type.
  induction l as [|e l IH]; intros H; [done|]. cbn [foldO].
  assert (match_at o u best e st = Done st) as -> by (unfold match_at; by rewrite H by (by left)). cbn [mbind outcome_bind]. apply IH. intros e' He. apply H. by right.
Qed.

Lemma ugm_match_loop_ok fuel : forall o u best po node st, o < po -> length s + 1 - po < fuel -> (po <= length s -> node = walk (token_matcher tok) (piece o po)) ->
  match_loop V fuel s u o best po node st = foldO (match_at o u best) (seq po (length s + 1 - po)) st.
Proof using W Htok.
  induction fuel as [|fuel IH]; intros o u best po node st Ho Hf Hn; [lia|]. destruct (decide (po <= length s)) as [Hle|Hgt].
  2: { replace (length s + 1 - po) with 0 by lia. cbn [match_loop]. destruct node as [node|]; [|done]. by rewrite bool_decide_false. }
  specialize (Hn Hle). destruct node as [node|].
  - cbn [match_loop]. rewrite bool_decide_true by done. replace (length s + 1 - po) with (S (length s - po)) by lia. cbn [seq foldO].
    pose proof (Htok (piece o po)) as Hfind. unfold find in Hfind. rewrite <- Hn in Hfind. cbn [mbind option_bind] in Hfind.
    assert ((if has_value node then
               let '(single, results) := st in
               sc ← token_score V (value node);
               results ← of_option (challenge po (mkBest (value node) o (dadd best sc)) results);
               Done (if bool_decide (po - o = u) then true else single, results)
             else Done st) = match_at o u best po st) as ->.
    { unfold match_at. destruct st as [single results]. destruct (has_value node); rewrite <- Hfind; [|done]. by rewrite (token_score_ok (piece o po) (value node)) by done. }
    destruct (match_at o u best po st) as [st'| |]; [|done..]. cbn [mbind outcome_bind].
    assert (is_Some (char_at s po)) as [c Hc] by (unfold char_at; case_bool_decide; [by eexists|apply lookup_lt_is_Some_2; lia]).
    rewrite Hc. cbn [of_option mbind outcome_bind]. rewrite IH by (lia || (intros Hlt; unfold char_at in Hc; rewrite bool_decide_false in Hc by lia;
      rewrite (piece_snoc o po c) by (lia || done); rewrite walk_app, <- Hn; cbn [mbind option_bind walk]; by destruct (traverse node c))).
    replace (length s - po) with (length s + 1 - (po + 1)) by lia. by rewrite Nat.add_1_r.
  - cbn [match_loop]. rewrite match_none; [done|]. intros e He%elem_of_seq. destruct (ugm_piece_app o po e) as [k Hk]; [lia|lia|].
    rewrite <- Htok. unfold find. rewrite Hk, walk_app, <- Hn. done.
Qed.

(** * The table of the best tokenizations *)

Context (O : sum_order).

Definition unreached : best_tokenization := mkBest (special_unk_id V) 0 dlowest.

(** Every entry comes from an edge of [D] and the entry at its start, and is not
    worse than what any edge of [D] offers. *)
Record best_of (D : nat -> nat -> Prop) (results : list best_tokenization) : Prop := {
  bo_len  : length results = S (length s);
  bo_zero : results !! 0 = Some (mkBest (special_unk_id V) 0 dzero);
  bo_pred : forall e r, 0 < e -> results !! e = Some r -> r = unreached \/
    (boundary (input_offset r) /\ D (input_offset r) e /\ exists sc ro, edge (input_offset r) e (token_id r) sc /\ results !! input_offset r = Some ro /\ score_sum r = dadd (score_sum ro) sc);
  bo_best : forall o e id sc ro r, D o e -> edge o e id sc -> results !! o = Some ro -> results !! e = Some r -> dlt (score_sum r) (dadd (score_sum ro) sc) = false;
}.

Lemma best_of_ext (D D' : nat -> nat -> Prop) results : (forall o e, D o e -> D' o e) -> (forall o e id sc, edge o e id sc -> D' o e -> D o e) -> best_of D results -> best_of D' results.
Proof using Type.
  intros H1 H2 [B1 B2 B3 B4]. split; [done|done| |].
  - intros e r He Hr. destruct (B3 e r He Hr) as [|(? & ? & ?)]; [by left|right]. split_and!; [done|by apply H1|done].
  - intros o e id sc ro r Hd He. apply B4 with id; [by eapply H2|done].
Qed.

(** A challenge adds an edge. *)
Lemma challenge_ok D results o e id sc ro : best_of D results -> (forall o' e', D o' e' -> o' <= o) -> boundary o -> edge o e id sc -> results !! o = Some ro ->
  exists results', challenge e (mkBest id o (dadd (score_sum ro) sc)) results = Some results' /\ results' !! o = Some ro /\
    best_of (fun o' e' => D o' e' \/ (o' = o /\ e' = e)) results'.
Proof using O.
  intros [B1 B2 B3 B4] HD Hb He Hro. pose proof (edge_lt _ _ _ _ He) as [Hoe Hel]. destruct (lookup_lt_is_Some_2 results e ltac:(lia)) as [champ Hc].
  unfold challenge. rewrite Hc. cbn [mbind option_bind score_sum]. destruct (dlt (score_sum champ) (dadd (score_sum ro) sc)) eqn:Hlt.
  - set (new := mkBest id o (dadd (score_sum ro) sc)). rewrite set_at_ok by lia. exists (<[e:=new]> results). split; [done|].
    assert (forall i, i <= o -> <[e:=new]> results !! i = results !! i) as Hfr by (intros i Hi; rewrite list_lookup_insert_ne by lia; done).
    split; [by rewrite Hfr by lia|]. split; [by rewrite length_insert|by rewrite Hfr by lia| |].
    + intros e' r Hp Hr. destruct (decide (e' = e)) as [->|Hne].
      * rewrite list_lookup_insert_eq in Hr by lia. injection Hr as <-. right. unfold new. cbn [input_offset token_id score_sum]. split; [done|]. split; [by right|].
        exists sc, ro. rewrite Hfr by lia. done.
      * rewrite list_lookup_insert_ne in Hr by done. destruct (B3 e' r Hp Hr) as [|(H1 & H2 & sc' & ro' & H3 & H4 & H5)]; [by left|right]. split; [done|]. split; [by left|].
        exists sc', ro'. rewrite Hfr by (by eapply HD). done.
    + intros o' e' id' sc' ro' r Hd He' Hr'. assert (o' <= o) as Ho by (destruct Hd as [Hd|[-> _]]; [by eapply HD|done]). rewrite Hfr in Hr' by done.
      destruct (decide (e' = e)) as [->|Hne].
      * rewrite list_lookup_insert_eq by lia. intros [= <-]. unfold new. cbn [score_sum]. destruct Hd as [Hd|[-> _]].
        -- destruct (dlt (dadd (score_sum ro) sc) (dadd (score_sum ro') sc')) eqn:E; [|done]. pose proof (B4 _ _ _ _ _ _ Hd He' Hr' Hc). rewrite (so_trans O _ _ _ Hlt E) in *. done.
        -- destruct (edge_unique _ _ _ _ _ _ He He') as [-> ->]. simplify_eq. apply (so_irrefl O).
      * rewrite list_lookup_insert_ne by done. intros Hr. destruct Hd as [Hd|[-> ->]]; [by eapply B4|done].
  - exists results. split; [done|]. split; [done|]. split; [done|done| |].
    + intros e' r Hp Hr. destruct (B3 e' r Hp Hr) as [|(H1 & H2 & H3)]; [by left|right]. split; [done|]. split; [by left|done].
    + intros o' e' id' sc' ro' r [Hd|[-> ->]] He' Hr' Hr; [by eapply B4|]. destruct (edge_unique _ _ _ _ _ _ He He') as [-> ->]. by simplify_eq.
Qed.

(** * The steps of the search *)

(** The tokens at [o] that end before [po], after the characters [vis]. *)
Definition seen (vis : list nat) (o po o' e' : nat) : Prop := o' ∈ vis \/ (o' = o /\ e' < po /\ token_of (piece o e') <> None).

Definition loop_inv (vis : list nat) (o : nat) (ro : best_tokenization) (po : nat) (st : bool * list best_tokenization) : Prop :=
  best_of (seen vis o po) (snd st) /\ snd st !! o = Some ro /\ (fst st = true <-> o + units o < po /\ token_of (piece o (o + units o)) <> None).

Lemma match_at_ok vis o ro po st : (forall x, x ∈ vis -> x < o) -> boundary o -> o < po -> po <= length s -> loop_inv vis o ro po st ->
  exists st', match_at o (units o) (score_sum ro) po st = Done st' /\ loop_inv vis o ro (po + 1) st'.
Proof using O.
  intros Hv Hb Ho Hle (B & Hro & Hs). destruct st as [single results]. cbn [fst snd] in *. unfold match_at. destruct (token_of (piece o po)) as [id|] eqn:E.
  - pose proof (edge_token o po id Ho Hle E) as He.
    destruct (challenge_ok _ results o po id (score_of id) ro B ltac:(intros o' e' [H%Hv|[-> _]]; lia) Hb He Hro) as (results' & -> & Hro' & B'). cbn [of_option mbind outcome_bind].
    eexists. split; [reflexivity|]. split; [|split; [done|]]; cbn [fst snd].
    + refine (best_of_ext _ _ _ _ _ B').
      * intros o' e' [[?|(-> & ? & ?)]|[-> ->]]; [by left|right; split_and!; [done|lia|done]|right; split_and!; [done|lia|congruence]].
      * intros o' e' id' sc' _ [?|(-> & Hlt & ?)]; [by left; left|]. destruct (decide (e' = po)) as [->|]; [by right|left; right; split_and!; [done|lia|done]].
    + destruct (decide (po = o + units o)) as [->|Hne].
      * rewrite bool_decide_true by lia. split; [intros _; split; [lia|congruence]|done].
      * rewrite bool_decide_false by lia. rewrite Hs. split; intros [? ?]; (split; [lia|done]).
  - exists (single, results). split; [done|]. split; [|split; [done|]]; cbn [fst snd].
    + refine (best_of_ext _ _ _ _ _ B).
      * intros o' e' [?|(-> & ? & ?)]; [by left|right; split_and!; [done|lia|done]].
      * intros o' e' id' sc' _ [?|(-> & Hlt & Hn)]; [by left|]. right. split_and!; [done| |done]. destruct (decide (e' = po)) as [->|]; [done|lia].
    + rewrite Hs. split; intros [? Hn]; (split; [|done]); [lia|]. destruct (decide (o + units o = po)) as [<-|]; [done|lia].
Qed.

Definition from (vis : list nat) (o' _ : nat) : Prop := o' ∈ vis.

Lemma viterbi_step_ok vis o results : (forall x, x ∈ vis -> x < o) -> boundary o -> o < length s -> best_of (from vis) results ->
  exists results', viterbi_step V tok s o results = Done (o + units o, results') /\ best_of (from (o :: vis)) results'.
Proof using O W Htok.
  intros Hv Hb Ho B. destruct (units_pos o Ho) as [Hu Hul]. destruct (lookup_lt_is_Some_2 results o ltac:(rewrite (bo_len _ _ B); lia)) as [ro Hro].
  unfold viterbi_step. destruct (lookup_lt_is_Some_2 s o Ho) as [c Hc]. rewrite Hc. cbn [of_option mbind outcome_bind].
  assert (min (unicode_len_utf8 c) (length s - o) = units o) as -> by (unfold units; by rewrite Hc). rewrite Hro. cbn [of_option mbind outcome_bind].
  rewrite ugm_match_loop_ok by (lia || (intros _; rewrite (piece_snoc o o c) by done; unfold piece; rewrite Nat.sub_diag; rewrite take_0; cbn [app walk]; by destruct (traverse (token_matcher tok) c))).
  destruct (foldO_seq (match_at o (units o) (score_sum ro)) (loop_inv vis o ro) (o + 1) (length s + 1 - (o + 1)) (false, results)) as ([single results1] & -> & B1 & Hro1 & Hs).
  { split; [|split; [done|]]; cbn [fst snd]; [|split; [done|lia]]. refine (best_of_ext _ _ _ _ _ B); [by left|].
    intros o' e' id sc He [?|(-> & ? & _)]; [done|]. apply edge_lt in He. lia. }
  { intros po st Hp L. apply match_at_ok; (done || lia). }
  cbn [fst snd] in *. replace (o + 1 + (length s + 1 - (o + 1))) with (length s + 1) in * by lia. cbn [mbind outcome_bind].
  assert (forall o' e' id sc, edge o' e' id sc -> from (o :: vis) o' e' -> seen vis o (length s + 1) o' e' \/ (o' = o /\ e' = o + units o /\ token_of (piece o (o + units o)) = None)) as Hsplit.
  { intros o' e' id sc He Hin. apply elem_of_cons in Hin as [->|?]; [|by left; left]. pose proof (edge_lt _ _ _ _ He). destruct He as [id _ _ Ht|_ -> Hn]; [|by right].
    left. right. split_and!; [done|lia|congruence]. }
  destruct single.
  - cbn [negb mbind outcome_bind]. exists results1. split; [done|]. destruct Hs as [Hs _]. destruct (Hs eq_refl) as [_ Hn]. refine (best_of_ext _ _ _ _ _ B1).
    + intros o' e' [?|(-> & _)]; [by right|by left].
    + intros o' e' id sc He Hin. destruct (Hsplit _ _ _ _ He Hin) as [?|(_ & _ & ?)]; [done|congruence].
  - cbn [negb]. assert (token_of (piece o (o + units o)) = None) as Hn.
    { destruct (token_of _) eqn:E; [|done]. exfalso. assert (false = true) as H; [|done]. apply Hs. split; [lia|congruence]. }
    destruct (challenge_ok _ results1 o (o + units o) (special_unk_id V) (to_double (unknown_token_score tok)) ro B1) as (results2 & -> & _ & B2).
    + intros o' e' [H%Hv|[-> _]]; lia.
    + done.
    + by apply edge_unknown.
    + done.
    + cbn [of_option mbind outcome_bind]. exists results2. split; [done|]. refine (best_of_ext _ _ _ _ _ B2).
      * intros o' e' [[?|(-> & _)]|[-> _]]; [by right|by left|by left].
      * intros o' e' id sc He Hin. destruct (Hsplit _ _ _ _ He Hin) as [?|(-> & -> & _)]; [by left|by right].
Qed.

(** [vis] are the starts of the characters before [o]. *)
Record visited (vis : list nat) (o : nat) : Prop := {
  vs_lt   : forall x, x ∈ vis -> x < o;
  vs_at   : boundary o;
  vs_zero : o = 0 \/ 0 ∈ vis;
  vs_next : forall x, x ∈ vis -> x + units x = o \/ x + units x ∈ vis;
}.

Lemma viterbi_loop_ok fuel : forall vis o results, visited vis o -> length s - o <= fuel -> best_of (from vis) results ->
  exists results' vis', viterbi_loop V tok fuel s o results = Done results' /\ visited vis' (length s) /\ best_of (from vis') results'.
Proof using O W Htok.
  induction fuel as [|fuel IH]; intros vis o results Hv Hf B; pose proof (boundary_le o (vs_at _ _ Hv)) as Hle; destruct (decide (o < length s)) as [Ho|Ho]; [lia| | |].
  2: { destruct (viterbi_step_ok vis o results (vs_lt _ _ Hv) (vs_at _ _ Hv) Ho B) as (r1 & E & B1). cbn [viterbi_loop]. rewrite bool_decide_true, E by done. cbn [mbind outcome_bind].
    destruct (units_pos o Ho) as [Hu _]. apply (IH (o :: vis)); [|lia|done]. destruct Hv as [V1 V2 V3 V4]. split.
    - intros x [->|Hx%V1]%elem_of_cons; lia.
    - by apply boundary_next.
    - right. destruct V3 as [->|?]; [by left|by right].
    - intros x [->|Hx]%elem_of_cons; [by left|]. right. destruct (V4 x Hx) as [->|?]; [by left|by right]. }
  all: exists results, vis; cbn [viterbi_loop]; rewrite bool_decide_false by done; assert (o = length s) as <- by lia; done.
Qed.

Lemma visited_all vis o : visited vis (length s) -> boundary o -> o = length s \/ o ∈ vis.
Proof using Type.
  intros [_ _ V3 V4]. induction 1 as [|o _ [->|Hin] Ho]; [destruct V3; [by left|by right]|lia|]. destruct (V4 o Hin); [by left|by right].
Qed.

(** * The way back *)

(** Runs of unknown tokens become one. *)
Fixpoint squash (prev : bool) (ids : list Z) : list Z :=
  match ids with
  | [] => []
  | id :: ids => let unk := bool_decide (id = special_unk_id V) in (if negb (prev && unk) then [id] else []) ++ squash unk ids
  end.

Definition ends_unknown (prev : bool) (ids : list Z) : bool := from_option (fun id => bool_decide (id = special_unk_id V)) prev (last ids).

Lemma squash_snoc ids : forall prev x, squash prev (ids ++ [x]) = squash prev ids ++ (if negb (ends_unknown prev ids && bool_decide (x = special_unk_id V)) then [x] else []).
Proof using Type.
  induction ids as [|y ids IH]; intros prev x; cbn [app squash]; [by rewrite app_nil_r|]. rewrite IH, <- app_assoc. do 2 f_equal.
  unfold ends_unknown. destruct ids as [|z ids]; [done|]. rewrite last_cons_cons. destruct (last (z :: ids)) eqn:E; [done|by apply last_None in E].
Qed.

Lemma squash_reverse ids : reverse (squash false (reverse ids)) = squash false ids.
Proof using Type.
  induction ids as [|x ids IH]; [done|]. rewrite reverse_cons, squash_snoc, reverse_app, IH. unfold ends_unknown. rewrite last_reverse. cbn [squash].
  destruct ids as [|y ids]; [done|]. cbn [head from_option squash andb negb app].
  case_bool_decide as Hx; case_bool_decide as Hy; try done. by subst.
Qed.

Lemma segmentation_0 ids d : segmentation 0 ids d -> ids = [].
Proof using Type. inversion 1 as [|o e ids' d' id sc _ _ He]; [done|]. apply edge_lt in He. lia. Qed.

Context (Hlow : forall p ids d, segmentation p ids d -> ids <> [] -> dlt dlowest d = true).
Context (vis : list nat) (results : list best_tokenization) (Hv : visited vis (length s)) (B : best_of (from vis) results).

Lemma boundary_visited o : boundary o -> o < length s -> o ∈ vis.
Proof using Hv. intros Hb Ho. destruct (visited_all vis o Hv Hb); [lia|done]. Qed.

Lemma backtrack_step fuel r prev out : backtrack V (S fuel) results r prev out =
  let out := out ++ squash prev [token_id r] in
  if bool_decide (input_offset r = 0) then Done out else
  next ← of_option (results !! input_offset r); backtrack V fuel results next (bool_decide (token_id r = special_unk_id V)) out.
Proof using Type. cbn [backtrack squash]. by destruct (negb _); rewrite ?app_nil_r. Qed.

Lemma squash_cons prev x ids : squash prev (x :: ids) = squash prev [x] ++ squash (bool_decide (x = special_unk_id V)) ids.
Proof using Type. cbn [squash]. by rewrite app_nil_r. Qed.

(** Every character start is reached, and the way back from there yields the
    segmentation its sum belongs to. *)
Lemma reached p : boundary p -> exists r ids, results !! p = Some r /\ segmentation p ids (score_sum r) /\
  (0 < p -> forall fuel prev out, p <= fuel -> backtrack V fuel results r prev out = Done (out ++ squash prev (reverse ids))).
Proof using Hlow Hv B.
  induction (lt_wf p) as [p _ IH]. intros Hb. inversion Hb as [|o Hbo Ho E]; [subst p|].
  { exists (mkBest (special_unk_id V) 0 dzero), []. split; [apply (bo_zero _ _ B)|]. split; [constructor|lia]. }
  destruct (units_pos o Ho) as [Hu Hul]. destruct (IH o ltac:(lia) Hbo) as (ro & idso & Hro & Hso & _). destruct (edge_char o Ho) as (id & sc & He). rewrite E in *.
  destruct (lookup_lt_is_Some_2 results p ltac:(rewrite (bo_len _ _ B); lia)) as [r Hr].
  destruct (bo_pred _ _ B p r ltac:(lia) Hr) as [->|(Hb2 & _ & sc2 & r2 & He2 & Hr2 & Hsum)].
  - pose proof (bo_best _ _ B o p id sc ro _ (boundary_visited o Hbo Ho) He Hro Hr) as Hc. cbn [score_sum unreached] in Hc.
    rewrite (Hlow p (idso ++ [id]) (dadd (score_sum ro) sc)) in Hc; [done|by eapply seg_snoc|by destruct idso].
  - destruct (edge_lt _ _ _ _ He2) as [Hlt _]. destruct (IH _ Hlt Hb2) as (r2' & ids2 & Hr2' & Hs2 & Hback). assert (r2' = r2) as -> by congruence.
    exists r, (ids2 ++ [token_id r]). split; [done|]. split; [rewrite Hsum; by eapply seg_snoc|]. intros _ [|fuel] prev out Hf; [lia|].
    rewrite backtrack_step, reverse_snoc, (squash_cons prev (token_id r) (reverse ids2)), app_assoc. cbv zeta. destruct (decide (input_offset r = 0)) as [H0|H0].
    + rewrite bool_decide_true by done. rewrite H0 in Hs2. apply segmentation_0 in Hs2 as ->. by rewrite app_nil_r.
    + rewrite bool_decide_false, Hr2 by done. cbn [of_option mbind outcome_bind]. by rewrite Hback by lia.
Qed.

Lemma table_optimal p ids d : segmentation p ids d -> forall r, results !! p = Some r -> dlt (score_sum r) d = false.
Proof using O Hv B.
  induction 1 as [|o e ids d id sc Hs IH Hbo He]; intros r Hr.
  - rewrite (bo_zero _ _ B) in Hr. injection Hr as <-. apply (so_irrefl O).
  - destruct (edge_lt _ _ _ _ He) as [H1 H2]. destruct (lookup_lt_is_Some_2 results o ltac:(rewrite (bo_len _ _ B); lia)) as [ro Hro].
    eapply (so_weak O); [|apply (so_mono O), (IH ro Hro)]. eapply (bo_best _ _ B); [|done..]. apply boundary_visited; [done|lia].
Qed.

End Search.

End Ugm.

(** C34: the UGM tokenizer answers on every text that is normalized, with a
    segmentation of the normalized text into tokens that start at characters (a
    character that is no token may be the unknown token) whose sum of scores is not
    less than that of any other; runs of unknown tokens become one. *)
Theorem ugm_tokenize_best `{DO : DoubleOps, BM : BuildMode} (V : llama_vocab) (flt_max : float) (charsmap text s : list byte) (tok : llm_tokenizer_ugm) (output : list Z) :
  vocab_ok V -> sum_order -> new_ugm V flt_max charsmap = Done tok -> normalize V tok text = Done s -> s <> [] ->
  (forall p ids d, segmentation V tok s p ids d -> ids <> [] -> dlt dlowest d = true) ->
  exists ids best, segmentation V tok s (length s) ids best /\ tokenize V tok text output = Done (output ++ squash V false ids) /\
    forall ids' d, segmentation V tok s (length s) ids' d -> dlt best d = false.
Proof.
  intros W O Htok Hn Hs Hlow. pose proof (new_ugm_matcher V W flt_max charsmap tok Htok) as Hm.
  set (init := mkBest (special_unk_id V) 0 dzero :: replicate (length s) (mkBest (special_unk_id V) 0 dlowest)).
  destruct (viterbi_loop_ok V W tok s Hm O (length s) [] 0 init) as (results & vis & Hrun & Hv & B); [split|lia|split| ].
  - intros x Hx. by apply elem_of_nil in Hx.
  - constructor.
  - by left.
  - intros x Hx. by apply elem_of_nil in Hx.
  - unfold init. cbn. by rewrite length_replicate.
  - done.
  - intros [|e] r He Hr; [lia|]. left. cbn in Hr. by apply lookup_replicate in Hr as [-> _].
  - intros o e id sc ro r Hin. by apply elem_of_nil in Hin.
  - destruct (reached V tok s Hlow vis results Hv B (length s) (vs_at _ _ _ Hv)) as (r & ids & Hr & Hseg & Hback).
    assert (0 < length s) as Hpos by (destruct s; [done|cbn; lia]). exists ids, (score_sum r). split; [done|]. split.
    + unfold tokenize. rewrite Hn. cbn [mbind outcome_bind]. rewrite bool_decide_false by lia. fold init. rewrite Hrun. cbn [mbind outcome_bind]. rewrite Hr. cbn [of_option mbind outcome_bind].
      rewrite Hback by lia. cbn [mbind outcome_bind app]. by rewrite squash_reverse.
    + intros ids' d Hd. by eapply (table_optimal V tok s O vis results Hv B).
Qed.

(** ** An example *)

(** Integers and a least element, in place of the doubles. *)
Definition demo_doubles : DoubleOps (FO := demo_floats) := {|
  double := option Z; dzero := Some 0%Z; dlowest := None;
  dadd := fun a b => match a, b with Some x, Some y => Some (x + y)%Z | _, _ => None end;
  dlt := fun a b => match a, b with Some x, Some y => Z.ltb x y | None, Some _ => true | _, None => false end;
  to_double := fun x : @float demo_floats => Some x |}.

Definition demo_words : list (list byte) := [[x61]; [x62]; [x61; x62]; [x3f]].
Definition demo_tables : load_state (FO := demo_floats) := tables (FO := demo_floats) demo_words (Some [-5; -6; -2; -9]%Z).

(** "a", "b", "ab" and "?", the unknown token. *)
Definition demo_vocab : llama_vocab (FO := demo_floats) := mkVocab (FO := demo_floats) UGM (snd demo_tables) (-1) (-1) 3 (-1) false false false false false false true false
  (fst (fst demo_tables)) (snd (fst demo_tables)) [] [] ∅.

Lemma ugm_demo_vocab_ok : vocab_ok (FO := demo_floats) demo_vocab.
Proof.
  apply (loaded_vocab_ok (FO := demo_floats) _ demo_words (Some [-5; -6; -2; -9]%Z) None); [|discriminate|reflexivity].
  apply (tables_ok (FO := demo_floats)). by_eval.
Qed.

Definition demo_ugm : llm_tokenizer_ugm (FO := demo_floats) :=
  match new_ugm (FO := demo_floats) demo_vocab 1000%Z [] with Done tok => tok | _ => mkUgm (FO := demo_floats) [] [] empty_trie 0%Z 0%Z 0%Z empty_trie end.

Lemma demo_ugm_ok : new_ugm (FO := demo_floats) demo_vocab 1000%Z [] = Done demo_ugm.
Proof.
  assert (match new_ugm (FO := demo_floats) demo_vocab 1000%Z [] with Done _ => true | _ => false end = true) as H by (vm_compute; reflexivity).
  unfold demo_ugm. by destruct (new_ugm _ _ _).
Qed.

Lemma demo_order : sum_order (DO := demo_doubles).
Proof.
  split; cbn; repeat (intros [?|]); rewrite ?Z.ltb_lt, ?Z.ltb_ge; try done; try lia.
Qed.

Lemma demo_sums p ids d : segmentation (DO := demo_doubles) demo_vocab demo_ugm [x61; x62; x63] p ids d -> is_Some d.
Proof.
  induction 1 as [|o e ids d id sc _ [x ->] _ [id' _ _ _|_ _ _]]; [by eexists| |by eexists]. cbn. unfold score_of. destruct (id_to_token _ !! _) as [t|]; [|by eexists].
  destruct (has_attr _ _); by eexists.
Qed.

(** "abc": "ab" is better than "a" and "b", and "c" is unknown. *)
Lemma ugm_tokenize_best_witness : exists ids best, segmentation (DO := demo_doubles) demo_vocab demo_ugm [x61; x62; x63] 3 ids best /\
  tokenize (DO := demo_doubles) (BM := debug_build) demo_vocab demo_ugm [x61; x62; x63] [] = Done (squash (FO := demo_floats) demo_vocab false ids).
Proof.
  destruct (ugm_tokenize_best (DO := demo_doubles) (BM := debug_build) demo_vocab 1000%Z [] [x61; x62; x63] [x61; x62; x63] demo_ugm [] ugm_demo_vocab_ok demo_order demo_ugm_ok) as (ids & best & H1 & H2 & _).
  - vm_compute. reflexivity.
  - discriminate.
  - intros p ids d Hs _. destruct (demo_sums p ids d Hs) as [x ->]. reflexivity.
  - exists ids, best. split; [exact H1|exact H2].
Defined.

Lemma ugm_demo : tokenize (DO := demo_doubles) (BM := debug_build) demo_vocab demo_ugm [x61; x62; x63] [] = Done [2; 3]%Z.
Proof. vm_compute. reflexivity. Qed.

End UgmOk.
