(* ===== verification/UgmNorm.v ===== *)
(** Normalization in the UGM tokenizer: each part of the text is a user-defined
    token, the longest key of the map of replacements, or a character; spaces are
    escaped, merged or added; and it throws only if the double array that holds the
    map leads outside of itself or of the replacements. *)

From S2P Require Import Bytes.
From S2P Require Import Utf8.
From S2P Require Import Vocab.
From S2P Require Import VocabOk.
From S2P Require Import Trie.
From S2P Require Import UgmTok.
From S2P Require Import UgmOk.
Import Utf8.Utf8 Vocab.Vocab VocabOk.VocabOk Trie.Trie UgmTok.UgmTok UgmOk.UgmOk.

Module UgmNorm.

(** [o] is a value with [P], or, if [T] holds, the exception. *)
Definition done_or (T : Prop) {A} (P : A -> Prop) (o : outcome tok_error A) : Prop :=
  match o with Done a => P a | Throw e => e = RuntimeError /\ T | Undefined => False end.

Lemma done_or_bind (T : Prop) {A B} (P : A -> Prop) (Q : B -> Prop) (o : outcome tok_error A) f : done_or T P o -> (forall a, P a -> done_or T Q (f a)) -> done_or T Q (o ≫= f).
Proof. destruct o as [a|e|]; cbn; [auto|done|done]. Qed.

Lemma done_or_mono (T T' : Prop) {A} (P Q : A -> Prop) o : (T -> T') -> (forall a, P a -> Q a) -> done_or T P o -> done_or T' Q o.
Proof. destruct o; cbn; tauto || auto. Qed.

Section Normalize.
Context `{DO : DoubleOps, BM : BuildMode} (V : llama_vocab).
Context (tok : llm_tokenizer_ugm).

(** Every replacement has its terminator. *)
Definition terminated : Prop := prefix_replacements tok = [] \/ last (prefix_replacements tok) = Some x00.

(** There is a map of replacements. *)
Definition mapped : Prop := xcda_array tok <> [].

Section Mapped.
Context (Hx : mapped).

Lemma get_node_ok i : (0 <= i)%Z -> done_or mapped (fun _ => True) (get_node tok i).
Proof using Hx.
  intros Hi. unfold get_node. case_bool_decide as H; [done|]. destruct (lookup_lt_is_Some_2 (xcda_array tok) (Z.to_nat i) ltac:(lia)) as [z ->]. done.
Qed.

Lemma get_base_ok i : (0 <= i)%Z -> done_or mapped (fun b => (0 <= b)%Z) (get_base tok i).
Proof using Hx. intros Hi. eapply done_or_bind; [by apply get_node_ok|]. intros z _. cbn. by apply Z.mod_pos_bound. Qed.

Lemma get_lcheck_ok i : (0 <= i)%Z -> done_or mapped (fun _ => True) (get_lcheck tok i).
Proof using Hx. intros Hi. by eapply done_or_bind; [apply get_node_ok|]. Qed.

Lemma get_leaf_ok i : (0 <= i)%Z -> done_or mapped (fun _ => True) (get_leaf tok i).
Proof using Hx. intros Hi. by eapply done_or_bind; [apply get_node_ok|]. Qed.

Lemma get_value_ok i : (0 <= i)%Z -> done_or mapped (fun v => (0 <= v)%Z) (get_value tok i).
Proof using Hx. intros Hi. eapply done_or_bind; [by apply get_node_ok|]. intros z _. cbn. apply Z.land_nonneg. by right. Qed.

Lemma xcda_loop_ok s : forall node i longest, (0 <= node)%Z -> fst longest <= i -> (0 <= snd longest)%Z ->
  done_or mapped (fun r => fst r <= i + length s /\ (0 <= snd r)%Z) (xcda_loop tok s node i longest).
Proof using Hx.
  induction s as [|c s IH]; intros node i longest Hn Hl Hv; cbn [xcda_loop length]; [cbn; lia|]. destruct (bool_decide (c = x00)); [cbn; lia|].
  assert (0 <= u8 c)%Z as Hc by (pose proof (u8_range c); lia). assert (0 <= Z.lxor node (u8 c))%Z as Hz by (apply Z.lxor_nonneg; lia).
  eapply done_or_bind; [by apply get_lcheck_ok|]. intros lcheck _. destruct (bool_decide (lcheck <> u8 c)); [cbn; lia|].
  eapply done_or_bind; [by apply get_leaf_ok|]. intros leaf _.
  eapply done_or_bind; [by apply get_base_ok|]. intros base Hb. assert (0 <= Z.lxor (Z.lxor node (u8 c)) base)%Z as Hy by (apply Z.lxor_nonneg; by split).
  destruct leaf.
  - eapply done_or_bind; [by apply get_value_ok|]. intros v Hv'.
    eapply (done_or_mono mapped); [done| |apply IH; cbn; (done || lia)]. cbn. intros r. lia.
  - eapply (done_or_mono mapped); [done| |apply IH; (done || lia)]. cbn. intros r. lia.
Qed.

End Mapped.

Lemma read_c_str_ok off : terminated -> off < length (prefix_replacements tok) -> done_or mapped (fun _ => True) (read_c_str (drop off (prefix_replacements tok))).
Proof using Type.
  intros [->|Hl] Ho; [cbn in Ho; lia|]. unfold read_c_str. rewrite bool_decide_true; [done|]. apply last_Some in Hl as [l Hl]. rewrite Hl in *. rewrite length_app in Ho. cbn in Ho.
  rewrite drop_app_le by lia. set_solver.
Qed.

(** A step of normalization consumes something. *)
Lemma normalize_prefix_ok input off : terminated -> off < length input ->
  done_or mapped (fun r => 0 < snd r /\ off + snd r <= length input) (normalize_prefix tok input off).
Proof using Type.
  intros HT Ho. unfold normalize_prefix. rewrite bool_decide_false by lia.
  destruct (longest_prefix_ok (drop off input) (user_defined_token_matcher tok) 0) as (n & -> & Hn & _). rewrite length_drop in Hn. cbn [Nat.add].
  destruct (decide (0 < n)) as [Hpos|Hpos]; [rewrite bool_decide_true by done; cbn; lia|rewrite bool_decide_false by done].
  eapply (done_or_bind _ (fun r => off + fst r <= length input /\ (0 <= snd r)%Z /\ (0 < fst r -> mapped))).
  { case_bool_decide as Hx; [|cbn; lia]. assert mapped as HM by (unfold mapped; destruct (xcda_array tok); [cbn in Hx; lia|done]). eapply done_or_bind; [by apply get_base_ok|]. intros b Hb.
    eapply (done_or_mono mapped); [done| |by apply xcda_loop_ok]. cbn. rewrite length_drop. intros r [? ?]. split_and!; [lia|done|done]. }
  intros [len at_off] (Hlen & Hat & HM). cbn [fst snd] in *. case_bool_decide as Hl.
  - case_bool_decide as Hb; [split; [done|by apply HM]|]. eapply done_or_bind; [apply read_c_str_ok; [done|lia]|]. intros r _. cbn. lia.
  - destruct (cpt_from_utf8_total input off Ho) as (r & -> & Hr). cbn [of_option mbind outcome_bind]. destruct r as [[cpt o]|e]; cbn; lia.
Qed.

Lemma norm_loop_ok sp pre mer input fuel : terminated -> forall off st, off <= length input -> length input - off <= fuel ->
  done_or mapped (fun _ => True) (norm_loop tok fuel sp pre mer input off st).
Proof using Type.
  intros HT. induction fuel as [|fuel IH]; intros off st Ho Hf; cbn [norm_loop]; (case_bool_decide as Hlt; [|done]); [lia|].
  eapply done_or_bind; [by apply normalize_prefix_ok|]. intros [norm n] [H1 H2]. cbn [fst snd] in *. apply IH; lia.
Qed.

Lemma normalize_ok text : terminated -> done_or mapped (fun _ => True) (normalize V tok text).
Proof using Type.
  intros HT. unfold normalize. eapply done_or_bind; [apply norm_loop_ok; [done|lia|lia]|]. by intros [[out p] q] _.
Qed.
End Normalize.

(** * Loading the map of replacements *)

Section Load.
Context `{DO : DoubleOps, BM : BuildMode} (V : llama_vocab) (W : vocab_ok V).

Lemma read_u32s_ok n : forall s, 4 * n <= length s -> is_Some (read_u32s n s).
Proof using Type.
  induction n as [|n IH]; intros s Hl; [by eexists|]. cbn [read_u32s]. destruct s as [|a [|b [|c [|d s]]]]; cbn in Hl; try lia. cbn [read_u32 mbind option_bind]. change (drop 4 (a :: b :: c :: d :: s)) with s.
  destruct (IH s ltac:(lia)) as [zs ->]. by eexists.
Qed.

(** Four bytes of a length, and a terminator at the end. *)
Definition charsmap_ok (charsmap : list byte) : Prop := 4 <= length charsmap /\ last charsmap = Some x00.

Lemma load_charsmap_ok charsmap : charsmap_ok charsmap -> done_or True (fun r => last (snd r) = Some x00) (load_charsmap charsmap).
Proof using Type.
  intros [H4 Hl]. unfold load_charsmap. rewrite bool_decide_false by (by intros ->). destruct charsmap as [|a [|b [|c [|d s]]]]; cbn in H4; try lia.
  cbn [read_u32 of_option mbind outcome_bind]. set (size := (_ + Z.shiftl (u8 d) 24)%Z).
  assert (0 <= size)%Z as Hs by (unfold size; pose proof (u8_range a); pose proof (u8_range b); pose proof (u8_range c); pose proof (u8_range d); rewrite !Z.shiftl_mul_pow2 by lia; lia).
  case_bool_decide as Hlen; [by split|]. destruct (read_u32s_ok (Z.to_nat size / 4) (drop 4 (a :: b :: c :: d :: s))) as [zs ->].
  { rewrite length_drop. pose proof (Nat.Div0.mul_div_le (Z.to_nat size) 4). lia. }
  cbn [of_option mbind outcome_bind done_or snd]. rewrite last_lookup, lookup_drop, length_drop. rewrite last_lookup in Hl. rewrite <- Hl. f_equal. lia.
Qed.

Lemma add_tokens_ok st : exists st', foldO (add_token V) (seq 0 (Z.to_nat (n_tokens V))) st = Done st'.
Proof using W.
  destruct (foldO_seq (add_token V) (fun _ _ => True) 0 (Z.to_nat (n_tokens V)) st I) as (st' & Hr & _); [|by exists st'].
  intros n s1 Hn _. rewrite n_tokens_ok in Hn by done. destruct (lookup_lt_is_Some_2 (id_to_token V) n ltac:(lia)) as [d Hd].
  destruct s1 as [[[mn mx] toks] user]. unfold add_token. rewrite (token_data_at V W n d Hd). cbn [mbind outcome_bind].
  unfold is_normal, is_user_defined, is_unused. rewrite !(attr_at V W _ n d Hd). cbn [mbind outcome_bind]. destruct (if has_attr ATTR_NORMAL (attr d) then _ else _) as [mn' mx'].
  eexists. by split.
Qed.

Lemma new_ugm_ok flt_max charsmap : charsmap_ok charsmap -> done_or True terminated (new_ugm V flt_max charsmap).
Proof using W.
  intros Hc. unfold new_ugm. eapply done_or_bind; [by apply load_charsmap_ok|]. intros [xcda repl] Hl. cbn [snd] in Hl.
  destruct (add_tokens_ok (flt_max, fsub fzero flt_max, empty_trie, empty_trie)) as ([[[mn mx] toks] user] & ->). cbn [mbind outcome_bind done_or]. by right.
Qed.

(** Without a map. *)
Lemma new_ugm_plain flt_max : exists tok, new_ugm V flt_max [] = Done tok /\ xcda_array tok = [] /\ prefix_replacements tok = [] /\
  ((forall i d, id_to_token V !! i = Some d -> has_attr ATTR_USER_DEFINED (attr d) = false) -> user_defined_token_matcher tok = empty_trie).
Proof using W.
  unfold new_ugm. cbn [load_charsmap mbind outcome_bind].
  destruct (foldO_seq (add_token V) (fun _ st => (forall i d, id_to_token V !! i = Some d -> has_attr ATTR_USER_DEFINED (attr d) = false) -> snd st = empty_trie)
    0 (Z.to_nat (n_tokens V)) (flt_max, fsub fzero flt_max, empty_trie, empty_trie)) as ([[[mn mx] toks] user] & Hr & Hu); [done| |].
  - intros n s1 Hn IH. rewrite n_tokens_ok in Hn by done. destruct (lookup_lt_is_Some_2 (id_to_token V) n ltac:(lia)) as [d Hd].
    destruct s1 as [[[mn mx] toks] user]. unfold add_token. rewrite (token_data_at V W n d Hd). cbn [mbind outcome_bind].
    unfold is_normal, is_user_defined, is_unused. rewrite !(attr_at V W _ n d Hd). cbn [mbind outcome_bind]. destruct (if has_attr ATTR_NORMAL (attr d) then _ else _) as [mn' mx'].
    eexists. split; [reflexivity|]. intros Hno. cbn [snd]. rewrite (Hno _ _ Hd). by apply IH.
  - change (bool_decide ([] = [])) with true. cbv iota. cbn [mbind outcome_bind]. rewrite Hr. cbn [mbind outcome_bind]. eexists. split; [reflexivity|]. done.
Qed.

(** In a text in UTF-8 without user-defined tokens every part is a character. *)
Lemma norm_loop_plain tok sp pp mm : xcda_array tok = [] -> user_defined_token_matcher tok = empty_trie ->
  forall cps fuel pre s st, Forall scalar cps -> unicode_cpts_to_utf8 cps = Ok s -> length s <= fuel ->
  norm_loop tok fuel sp pp mm (pre ++ s) (length pre) st = Done (foldl (fun st c => norm_char sp pp mm c st) st s).
Proof using Type.
  intros Hx Hu. induction cps as [|cpt cps IH]; intros fuel pre s st Hall Hs Hf; simpl in Hs.
  - injection Hs as <-. rewrite !app_nil_r. destruct fuel; cbn [norm_loop]; by rewrite bool_decide_false by lia.
  - apply Forall_cons in Hall as [Hc Hall]. apply result_bind_ok in Hs as (e & He & Hs). apply result_bind_ok in Hs as (r & Hr & [= <-]).
    pose proof (enc_length _ _ He) as Hel. rewrite length_app in Hf. destruct fuel as [|fuel]; [lia|].
    cbn [norm_loop]. rewrite bool_decide_true by (rewrite !length_app; lia).
    assert (normalize_prefix tok (pre ++ e ++ r) (length pre) = Done (e, length e)) as ->.
    { unfold normalize_prefix. rewrite bool_decide_false by (rewrite !length_app; lia). rewrite Hu, Hx, drop_app_length.
      assert (get_longest_prefix empty_trie (e ++ r) 0 = 0) as -> by (destruct (e ++ r); [done|]; cbn [get_longest_prefix empty_trie children]; by rewrite lookup_empty).
      repeat (rewrite (bool_decide_false (0 < 0)) by lia; cbn [length mbind outcome_bind]).
      rewrite (from_to_utf8 _ _ _ _ Hc He). cbn [of_option mbind outcome_bind]. replace (length pre + length e - length pre) with (length e) by lia. by rewrite take_app_length. }
    cbn [mbind outcome_bind]. rewrite foldl_app, app_assoc, <- length_app. apply IH; (done || lia).
Qed.

End Load.

End UgmNorm.
