(* ===== verification/UgmMap.v ===== *)
(** What normalization in the UGM tokenizer computes: the keys of the double
    array and their replacements, the parts a text is read in, and the treatment
    of spaces; the code computes that for every text when no path of the double
    array leads outside, and otherwise throws at worst. *)

From S2P Require Import Bytes.
From S2P Require Import Utf8.
From S2P Require Import Vocab.
From S2P Require Import VocabOk.
From S2P Require Import Trie.
From S2P Require Import UgmTok.
From S2P Require Import UgmOk.
From S2P Require Import UgmNorm.
Import Utf8.Utf8 Vocab.Vocab VocabOk.VocabOk Trie.Trie UgmTok.UgmTok UgmOk.UgmOk UgmNorm.UgmNorm.

Module UgmMap.

Section Map.
Context `{DO : DoubleOps} (tok : llm_tokenizer_ugm).

(** * The double array

    Each entry packs the label of a node, a flag for keys, and the base of its
    children; behind a key is an entry with the place of its replacement. *)

Definition inside (i : Z) : Prop := (0 <= i < Z.of_nat (length (xcda_array tok)))%Z.
Definition entry (i : Z) : Z := default 0%Z (xcda_array tok !! Z.to_nat i).

Definition base_of (e : Z) : Z := u32_wrap (Z.shiftl (Z.shiftr e 10) (Z.shiftr (Z.land e (Z.shiftl 1 9)) 6)).
Definition lcheck_of (e : Z) : Z := Z.land e (Z.lor (Z.shiftl 1 31) 0xff).
Definition leaf_of (e : Z) : bool := bool_decide (Z.land (Z.shiftr e 8) 1 = 1)%Z.
Definition value_of (e : Z) : Z := Z.land e (Z.shiftl 1 31 - 1).

(** The path of [k] leads to base [n]; the flag says whether [k] is a key. *)
Inductive node : list byte -> Z -> bool -> Prop :=
  | node_root : inside 0 -> node [] (base_of (entry 0)) false
  | node_step k n l c : node k n l -> c <> x00 -> inside (Z.lxor n (u8 c)) -> lcheck_of (entry (Z.lxor n (u8 c))) = u8 c ->
      node (k ++ [c]) (Z.lxor (Z.lxor n (u8 c)) (base_of (entry (Z.lxor n (u8 c))))) (leaf_of (entry (Z.lxor n (u8 c)))).

(** Key [k] has its replacement at [v]. *)
Definition replaces (k : list byte) (v : Z) : Prop := exists n, node k n true /\ v = value_of (entry n).

(** Every path stays inside: a step by any byte, the entry behind a key, and the
    place it holds. *)
Record xcda_wf : Prop := {
  wf_child : forall k n l c, node k n l -> c <> x00 -> inside (Z.lxor n (u8 c));
  wf_leaf  : forall k n, node k n true -> inside n /\ (value_of (entry n) < Z.of_nat (length (prefix_replacements tok)))%Z;
}.

Lemma node_snoc k c n l : node (k ++ [c]) n l -> exists n0 l0, node k n0 l0 /\ c <> x00 /\ inside (Z.lxor n0 (u8 c)) /\
  lcheck_of (entry (Z.lxor n0 (u8 c))) = u8 c /\ n = Z.lxor (Z.lxor n0 (u8 c)) (base_of (entry (Z.lxor n0 (u8 c)))) /\ l = leaf_of (entry (Z.lxor n0 (u8 c))).
Proof.
  intros H. inversion H as [E|k0 n0 l0 c0 Hn Hc Hi Hl E]; [by destruct k|]. apply app_inj_2 in E as [-> [= ->]]; [|done]. by exists n0, l0.
Qed.

Lemma node_fun k n l n' l' : node k n l -> node k n' l' -> n = n' /\ l = l'.
Proof.
  intros H. revert n' l'. induction H as [Hi|k n l c Hn IH Hc Hi Hl]; intros n' l' H'.
  - inversion H' as [E|k0 n0 l0 c0 ? ? ? ? E]; [done|]. by destruct k0.
  - apply node_snoc in H' as (n0 & l0 & H0 & _ & _ & _ & -> & ->). by destruct (IH _ _ H0) as [<- _].
Qed.

Lemma node_app k c t n l : node (k ++ c :: t) n l -> exists n0 l0, node k n0 l0 /\ c <> x00 /\ lcheck_of (entry (Z.lxor n0 (u8 c))) = u8 c.
Proof.
  revert n l. induction t as [|d t IH] using rev_ind; intros n l H.
  - apply node_snoc in H as (n0 & l0 & ? & ? & _ & ? & _). by exists n0, l0.
  - rewrite app_comm_cons, app_assoc in H. apply node_snoc in H as (n0 & l0 & H & _). by eapply IH.
Qed.

Lemma node_inside i : inside i -> get_node tok i = Done (entry i).
Proof.
  intros [H0 H]. unfold get_node, entry. rewrite bool_decide_false by lia. destruct (lookup_lt_is_Some_2 (xcda_array tok) (Z.to_nat i) ltac:(lia)) as [z ->]. done.
Qed.

(** The walk finds the longest key the text starts with. *)
Lemma xcda_loop_longest s : xcda_wf -> forall k n l i longest, node k n l ->
  exists r, xcda_loop tok s n i longest = Done r /\
    ((r = longest /\ forall m v, 0 < m -> m <= length s -> ~ replaces (k ++ take m s) v) \/
     exists m, 0 < m /\ m <= length s /\ fst r = i + m /\ replaces (k ++ take m s) (snd r) /\ forall m' v, m < m' -> m' <= length s -> ~ replaces (k ++ take m' s) v).
Proof.
  intros W. induction s as [|c s IH]; intros k n l i longest Hn; cbn [xcda_loop length]; [exists longest; split; [done|left; split; [done|lia]]|].
  assert (forall m v, replaces (k ++ take (S m) (c :: s)) v -> c <> x00 /\ lcheck_of (entry (Z.lxor n (u8 c))) = u8 c) as Hfst.
  { intros m v (n' & H' & _). apply node_app in H' as (n0 & l0 & H0 & Hc & Hl). destruct (node_fun _ _ _ _ _ Hn H0) as [<- _]. done. }
  destruct (decide (c = x00)) as [Ec|Ec]; [rewrite bool_decide_true by done|rewrite bool_decide_false by done].
  { exists longest. split; [done|left; split; [done|]]. intros [|m] v Hm _ Hr; [lia|]. by destruct (Hfst m v Hr). }
  pose proof (wf_child W _ _ _ _ Hn Ec) as Hi. unfold get_lcheck, get_leaf, get_base, get_value. rewrite (node_inside _ Hi). cbn [mbind outcome_bind]. fold (lcheck_of (entry (Z.lxor n (u8 c)))).
  destruct (decide (lcheck_of (entry (Z.lxor n (u8 c))) = u8 c)) as [El|El]; [rewrite bool_decide_false by (by intros ?)|rewrite bool_decide_true by done].
  2:{ exists longest. split; [done|left; split; [done|]]. intros [|m] v Hm _ Hr; [lia|]. by destruct (Hfst m v Hr). }
  fold (leaf_of (entry (Z.lxor n (u8 c)))). fold (base_of (entry (Z.lxor n (u8 c)))). pose proof (node_step _ _ _ _ Hn Ec Hi El) as Hn'.
  set (n' := Z.lxor (Z.lxor n (u8 c)) _) in *. assert (forall t, k ++ c :: t = (k ++ [c]) ++ t) as Happ by (intros t; by rewrite <- app_assoc).
  destruct (leaf_of (entry (Z.lxor n (u8 c)))).
  - rewrite (node_inside n') by apply (wf_leaf W _ _ Hn'). cbn [mbind outcome_bind]. fold (value_of (entry n')).
    destruct (IH _ _ _ (i + 1) (i + 1, value_of (entry n')) Hn') as (r & Hr & [[-> Hno]|(m & H1 & H2 & H3 & H4 & H5)]); exists r || eexists; (split; [exact Hr|right]).
    + exists 1. cbn [take fst snd]. split_and!; [lia|lia|done|by exists n'|]. intros [|m'] v Hm Hl; [lia|]. cbn [take]. rewrite Happ. apply Hno; lia.
    + exists (S m). cbn [take]. rewrite Happ. split_and!; [lia|lia|lia|done|]. intros [|m'] v Hm Hl; [lia|]. cbn [take]. rewrite Happ. apply H5; lia.
  - destruct (IH _ _ _ (i + 1) longest Hn') as (r & Hr & [[-> Hno]|(m & H1 & H2 & H3 & H4 & H5)]); eexists; (split; [exact Hr|]).
    + left. split; [done|]. intros [|[|m]] v Hm Hl; [lia|cbn [take]|cbn [take]; rewrite Happ; apply (Hno (S m)); lia].
      rewrite take_0. intros (n2 & H2 & _). by destruct (node_fun _ _ _ _ _ Hn' H2).
    + right. exists (S m). cbn [take]. rewrite Happ. split_and!; [lia|lia|lia|done|]. intros [|m'] v Hm Hl; [lia|]. cbn [take]. rewrite Happ. apply H5; lia.
Qed.

(** * The parts of a text *)

Section Parts.
Context `{BM : BuildMode} (V : llama_vocab).

(** [k] is the start of a user-defined token. *)
Definition user_start (k : list byte) : Prop :=
  exists i d ext, id_to_token V !! i = Some d /\ has_attr ATTR_USER_DEFINED (attr d) = true /\ text d = k ++ ext.

Definition no_user (s : list byte) : Prop := forall m, 0 < m -> m <= length s -> ~ user_start (take m s).
Definition no_key (s : list byte) : Prop := forall m v, 0 < m -> m <= length s -> ~ replaces (take m s) v.

(** What the part of [input] at [off] is replaced by, and its length: the longest
    start of a user-defined token stays; or else the longest key is replaced; or
    else a character stays, and a byte that starts none is replaced. *)
Inductive part (input : list byte) (off : nat) : list byte -> nat -> Prop :=
  | part_user n (s := drop off input) : 0 < n -> n <= length s -> user_start (take n s) ->
      (forall m, n < m -> m <= length s -> ~ user_start (take m s)) -> part input off (take n s) n
  | part_key n v (s := drop off input) : no_user s -> 0 < n -> n <= length s -> replaces (take n s) v ->
      (forall m v', n < m -> m <= length s -> ~ replaces (take m s) v') -> part input off (c_str (drop (Z.to_nat v) (prefix_replacements tok))) n
  | part_char cpt n (s := drop off input) : no_user s -> no_key s -> unicode_cpt_from_utf8 input off = Some (Ok (cpt, off + n)) -> part input off (take n s) n
  | part_bad e (s := drop off input) : no_user s -> no_key s -> unicode_cpt_from_utf8 input off = Some (Err e) -> part input off replacement_character 1.

(** The text from [off] on is read in parts, replaced by [out] together. *)
Inductive normal_form (input : list byte) : nat -> list byte -> Prop :=
  | normal_end : normal_form input (length input) []
  | normal_part off norm n out : off < length input -> part input off norm n -> normal_form input (off + n) out -> normal_form input off (norm ++ out).

(** The matcher holds the user-defined tokens. *)
Definition user_matcher (t : naive_trie) : Prop := trim t /\
  forall key, is_Some (find t key) <-> exists i d, id_to_token V !! i = Some d /\ has_attr ATTR_USER_DEFINED (attr d) = true /\ text d = key.

Lemma user_paths k : user_matcher (user_defined_token_matcher tok) -> k <> [] -> is_Some (walk (user_defined_token_matcher tok) k) <-> user_start k.
Proof using Type.
  intros [T Hf] Hk. split.
  - intros H. destruct (T k Hk H) as (ext & (i & d & Hd & Hu & Ht)%Hf). by exists i, d, ext.
  - intros (i & d & ext & Hd & Hu & Ht). apply path_walk. exists ext. apply Hf. by exists i, d.
Qed.

Lemma longest_user input off : user_matcher (user_defined_token_matcher tok) -> exists n, let s := drop off input in
  get_longest_prefix (user_defined_token_matcher tok) s 0 = n /\ n <= length s /\ (0 < n -> user_start (take n s)) /\
  (forall m, n < m -> m <= length s -> ~ user_start (take m s)).
Proof using Type.
  intros HU. cbn zeta. set (s := drop off input). destruct (longest_prefix_ok s (user_defined_token_matcher tok) 0) as (n & -> & Hn & Hw & Hm).
  assert (forall m, 0 < m -> m <= length s -> take m s <> []) as Hne by (intros m H1 H2 E; apply (f_equal length) in E; rewrite length_take in E; cbn in E; lia).
  exists n. split_and!; [done|done|intros Hp; apply user_paths; auto|]. intros m H1 H2 Hs. apply user_paths in Hs; [|done|apply Hne; lia]. rewrite Hm in Hs by done. by destruct Hs.
Qed.

Lemma normalize_prefix_part input off : xcda_wf -> terminated tok -> user_matcher (user_defined_token_matcher tok) -> off < length input ->
  exists norm n, normalize_prefix tok input off = Done (norm, n) /\ part input off norm n /\ 0 < n /\ off + n <= length input.
Proof using Type.
  intros W HT HU Ho. unfold normalize_prefix. rewrite bool_decide_false by lia. destruct (longest_user input off HU) as (n & -> & Hn & Hs & Hm).
  pose proof (length_drop input off) as Hlen. destruct (decide (0 < n)) as [Hpos|Hpos]; [rewrite bool_decide_true by done|rewrite bool_decide_false by done].
  { exists (take n (drop off input)), n. split_and!; [done|apply part_user; auto|done|lia]. }
  assert (no_user (drop off input)) as Hno by (intros m H1 H2; apply Hm; lia).
  assert (exists r, (if bool_decide (0 < length (xcda_array tok)) then node_index ← get_base tok 0; xcda_loop tok (drop off input) node_index 0 (0, 0%Z) else Done (0, 0%Z)) = Done r /\
    ((r = (0, 0%Z) /\ no_key (drop off input)) \/ (0 < fst r /\ fst r <= length (drop off input) /\ replaces (take (fst r) (drop off input)) (snd r) /\
      forall m v, fst r < m -> m <= length (drop off input) -> ~ replaces (take m (drop off input)) v))) as ([len v] & -> & Hr).
  { destruct (decide (0 < length (xcda_array tok))) as [Hx|Hx]; [rewrite bool_decide_true by done|rewrite bool_decide_false by done].
    - assert (inside 0) as Hi by (unfold inside; lia). unfold get_base. rewrite (node_inside 0 Hi). cbn [mbind outcome_bind]. fold (base_of (entry 0)).
      destruct (xcda_loop_longest (drop off input) W _ _ _ 0 (0, 0%Z) (node_root Hi)) as (r & -> & [[-> Hk]|(m & H1 & H2 & H3 & H4 & H5)]); [by exists (0, 0%Z); eauto|].
      exists r. split; [done|right]. cbn [Nat.add app] in *. rewrite H3. auto.
    - exists (0, 0%Z). split; [done|left; split; [done|]]. intros m v _ _ (n' & Hn' & _). clear -Hn' Hx. revert Hx.
      induction Hn' as [Hi|]; [unfold inside in Hi; lia|done]. }
  cbn [mbind outcome_bind]. destruct Hr as [[[= -> ->] Hk]|(H1 & H2 & H3 & H4)]; cbn [fst snd] in *.
  - rewrite bool_decide_false by lia. destruct (cpt_from_utf8_total input off Ho) as (r & Hr & Hb). rewrite Hr. cbn [of_option mbind outcome_bind]. destruct r as [[cpt o]|e].
    + exists (take (o - off) (drop off input)), (o - off). split_and!; [done| |lia|lia]. apply (part_char _ _ cpt); [done..|]. by replace (off + (o - off)) with o by lia.
    + exists replacement_character, 1. split_and!; [done|by apply (part_bad _ _ e)|lia|lia].
  - rewrite bool_decide_true by done. pose proof H3 as (n' & Hn' & Ev). destruct (wf_leaf W _ _ Hn') as [_ Hv]. rewrite <- Ev in Hv. rewrite bool_decide_false by lia.
    assert (0 <= v)%Z as Hv0 by (rewrite Ev; unfold value_of; apply Z.land_nonneg; by right).
    eassert (read_c_str _ = Done _) as ->.
    { unfold read_c_str. rewrite bool_decide_true; [reflexivity|]. destruct HT as [E|(l & E)%last_Some]; [rewrite E in Hv; cbn in Hv; lia|].
      rewrite E in *. rewrite length_app in Hv. cbn in Hv. rewrite drop_app_le by lia. set_solver. }
    cbn [mbind outcome_bind]. eexists _, len. split_and!; [reflexivity|by apply part_key|done|lia].
Qed.

Lemma norm_loop_form sp pp mm input fuel : xcda_wf -> terminated tok -> user_matcher (user_defined_token_matcher tok) ->
  forall off st, off <= length input -> length input - off <= fuel ->
  exists out, normal_form input off out /\ norm_loop tok fuel sp pp mm input off st = Done (foldl (fun st c => norm_char sp pp mm c st) st out).
Proof using Type.
  intros W HT HU. induction fuel as [|fuel IH]; intros off st Ho Hf; cbn [norm_loop]; (destruct (decide (off < length input)) as [Hlt|Hlt]; [rewrite bool_decide_true by done|rewrite bool_decide_false by done]).
  - lia.
  - exists []. split; [|done]. replace off with (length input) by lia. constructor.
  - destruct (normalize_prefix_part input off W HT HU Hlt) as (norm & n & -> & Hp & H1 & H2). cbn [mbind outcome_bind].
    destruct (IH (off + n) (foldl (fun st c => norm_char sp pp mm c st) st norm) ltac:(lia) ltac:(lia)) as (out & Hn & ->).
    exists (norm ++ out). split; [by apply (normal_part _ _ _ n)|by rewrite foldl_app].
  - exists []. split; [|done]. replace off with (length input) by lia. constructor.
Qed.

End Parts.
End Map.

(** * Spaces *)

Section Spaces.
Context (sp : list byte).

(** Each space replaced. *)
Definition escaped (s : list byte) : list byte := concat ((fun c => if bool_decide (c = x20) then sp else [c]) <$> s).

(** ... and one before the first character that is not a space. *)
Fixpoint prepended (s : list byte) : list byte :=
  match s with
  | [] => []
  | c :: s' => if bool_decide (c = x20) then sp ++ prepended s' else sp ++ escaped s
  end.

(** The words between spaces. *)
Fixpoint split_spaces (s : list byte) : list (list byte) :=
  match s with
  | [] => [[]]
  | c :: s =>
      if bool_decide (c = x20) then [] :: split_spaces s
      else match split_spaces s with w :: ws => (c :: w) :: ws | [] => [[c]] end
  end.
Definition nonempty (w : list byte) : Prop := w <> [].
#[local] Instance nonempty_dec w : Decision (nonempty w) := ltac:(unfold nonempty; apply _).
Definition words (s : list byte) : list (list byte) := filter nonempty (split_spaces s).

(** One space before each word. *)
Definition merged (ws : list (list byte)) : list byte := concat ((fun w => sp ++ w) <$> ws).

Definition norm_chars (pp mm : bool) (st : list byte * bool * bool) (s : list byte) := foldl (fun st c => norm_char sp pp mm c st) st s.

Lemma chars_escaped s : forall pp out p q, pp && negb p = false -> exists q', norm_chars pp false (out, p, q) s = (out ++ escaped s, p, q').
Proof using Type.
  induction s as [|c s IH]; intros pp out p q Hp; [exists q; cbn; by rewrite app_nil_r|]. unfold norm_chars. cbn [foldl]. unfold escaped. cbn [fmap list_fmap concat].
  unfold norm_char at 2. rewrite Hp, andb_false_r. cbn [negb]. fold (escaped s).
  destruct (decide (c = x20)) as [E|E]; [rewrite (bool_decide_false (c <> x20)) by (by intros ?); rewrite bool_decide_true by done|rewrite (bool_decide_true (c <> x20)), (bool_decide_false (c = x20)) by done];
    rewrite app_assoc; by apply IH.
Qed.

Lemma chars_prepended s : forall out, exists p q, norm_chars true false (out, false, false) s = (out ++ prepended s, p, q).
Proof using Type.
  induction s as [|c s IH]; intros out; [exists false, false; cbn; by rewrite app_nil_r|]. cbn [prepended]. destruct (decide (c = x20)) as [E|E].
  - rewrite bool_decide_true by done. unfold norm_chars. cbn [foldl]. unfold norm_char at 2. rewrite bool_decide_false by (by intros ?). cbn [negb]. rewrite app_assoc. apply IH.
  - rewrite bool_decide_false by done. unfold norm_chars. cbn [foldl]. unfold norm_char at 2. rewrite bool_decide_true by done. cbn [negb andb orb].
    destruct (chars_escaped s true ((out ++ sp) ++ [c]) true true eq_refl) as [q Hq]. exists true, q. unfold norm_chars in Hq. rewrite Hq.
    unfold escaped at 2. cbn [fmap list_fmap concat]. rewrite bool_decide_false by done. fold (escaped s). by rewrite <- !app_assoc.
Qed.

Lemma split_cons s : exists w ws, split_spaces s = w :: ws.
Proof using Type. destruct s as [|c s]; [by eexists _, _|]. cbn. case_bool_decide; [by eexists _, _|]. destruct (split_spaces s); by eexists _, _. Qed.

Lemma chars_merged s : forall pp out p q, exists p' q', norm_chars pp true (out, p, q) s =
  (out ++ (if q then default [] (head (split_spaces s)) ++ merged (filter nonempty (tail (split_spaces s))) else merged (words s)), p', q').
Proof using Type.
  induction s as [|c s IH]; intros pp out p q.
  { exists p, q. cbn [norm_chars foldl split_spaces head tail default]. unfold words, merged. cbn. destruct q; by rewrite app_nil_r. }
  unfold norm_chars. cbn [foldl split_spaces]. unfold norm_char at 2. destruct (decide (c = x20)) as [E|E].
  - rewrite (bool_decide_false (c <> x20)) by (by intros ?). cbn [negb]. unfold words. cbn [split_spaces]. rewrite bool_decide_true by done.
    destruct (IH pp out p false) as (p' & q' & H). unfold norm_chars in H. rewrite H. exists p', q'. f_equal. f_equal. f_equal. cbn [head tail default from_option app].
    rewrite filter_cons_False by (unfold nonempty; tauto). by destruct q.
  - rewrite (bool_decide_true (c <> x20)) by done. rewrite orb_true_r, andb_true_r. unfold words. cbn [split_spaces]. rewrite (bool_decide_false (c = x20)) by done.
    destruct (split_cons s) as (w & ws & Hs). destruct q; cbn [negb].
    + destruct (IH pp (out ++ [c]) p true) as (p' & q' & H). unfold norm_chars in H. rewrite H, Hs. exists p', q'. cbn [head tail default from_option id]. by rewrite <- !app_assoc.
    + destruct (IH pp ((out ++ sp) ++ [c]) true true) as (p' & q' & H). unfold norm_chars in H. rewrite H, Hs. exists p', q'. cbn [head tail default from_option id].
      rewrite filter_cons_True by done. unfold merged. cbn [fmap list_fmap concat]. by rewrite <- !app_assoc.
Qed.

End Spaces.

(** * Loading *)

Section Load.
Context `{DO : DoubleOps, BM : BuildMode} (V : llama_vocab) (W : vocab_ok V).

Definition user_loaded (n : nat) (st : ugm_state) : Prop := trim (snd st) /\
  forall key, is_Some (find (snd st) key) <-> exists i d, i < n /\ id_to_token V !! i = Some d /\ has_attr ATTR_USER_DEFINED (attr d) = true /\ text d = key.

Lemma add_token_user n st : n < length (id_to_token V) -> user_loaded n st -> exists st', add_token V n st = Done st' /\ user_loaded (n + 1) st'.
Proof using W.
  intros Hn [T L]. destruct (lookup_lt_is_Some_2 _ _ Hn) as [d Hd]. destruct st as [[[mn mx] toks] user]. unfold add_token. rewrite (token_data_at V W n d Hd). cbn [mbind outcome_bind].
  unfold is_normal, is_user_defined, is_unused. rewrite !(attr_at V W _ n d Hd). cbn [mbind outcome_bind].
  destruct (if has_attr ATTR_NORMAL (attr d) then _ else _) as [mn' mx']. eexists. split; [reflexivity|]. cbn [snd] in *.
  assert (forall key, (exists i e, i < n + 1 /\ id_to_token V !! i = Some e /\ has_attr ATTR_USER_DEFINED (attr e) = true /\ text e = key) <->
    (has_attr ATTR_USER_DEFINED (attr d) = true /\ text d = key) \/ (exists i e, i < n /\ id_to_token V !! i = Some e /\ has_attr ATTR_USER_DEFINED (attr e) = true /\ text e = key)) as Hsplit.
  { intros key. split.
    - intros (i & e & Hi & He & Hu & Ht). destruct (decide (i = n)) as [->|Hne]; [left; assert (e = d) as -> by congruence; done|right; exists i, e; split_and!; (done || lia)].
    - intros [[Hu Ht]|(i & e & Hi & He & Hu & Ht)]; [exists n, d; split_and!; (done || lia)|exists i, e; split_and!; (done || lia)]. }
  unfold user_loaded. cbn [snd]. setoid_rewrite Hsplit. setoid_rewrite <- L. clear Hsplit.
  destruct (has_attr ATTR_USER_DEFINED (attr d)).
  - split; [by apply trim_insert|]. intros key. rewrite find_insert. destruct (decide (key = text d)) as [->|Hne]; [split; [by left|by eexists]|]. split; [by right|intros [[_ E]|H]; [by subst|done]].
  - split; [done|]. intros key. split; [by right|by intros [[? _]|?]].
Qed.

Lemma user_loading st : snd st = empty_trie -> exists st', foldO (add_token V) (seq 0 (Z.to_nat (n_tokens V))) st = Done st' /\ user_matcher V (snd st').
Proof using W.
  intros Hst. destruct (foldO_seq (add_token V) user_loaded 0 (Z.to_nat (n_tokens V)) st) as (st' & Hr & T & L).
  - split; rewrite Hst; [apply trim_empty|]. intros key. rewrite find_empty. split; [by intros [? ?]|]. intros (i & d & ? & _). lia.
  - intros n s1 Hn. rewrite n_tokens_ok in Hn by done. apply add_token_user. lia.
  - exists st'. split; [done|]. split; [done|]. intros key. rewrite L. rewrite n_tokens_ok, Nat2Z.id by done. split.
    + intros (i & d & _ & H). by exists i, d.
    + intros (i & d & Hd & H). exists i, d. split_and!; try done; [by apply lookup_lt_Some in Hd|apply H..].
Qed.

(** The announced size of the double array. *)
Definition announced (charsmap : list byte) : Z := default 0%Z (read_u32 charsmap).

Lemma new_ugm_made flt_max charsmap : charsmap = [] \/ charsmap_ok charsmap ->
  (new_ugm V flt_max charsmap = Throw RuntimeError /\ charsmap <> [] /\ (Z.of_nat (length charsmap) <= announced charsmap + 4)%Z) \/
  ((charsmap = [] \/ announced charsmap + 4 < Z.of_nat (length charsmap))%Z /\ exists tok, new_ugm V flt_max charsmap = Done tok /\
     load_charsmap charsmap = Done (xcda_array tok, prefix_replacements tok) /\ terminated tok /\ user_matcher V (user_defined_token_matcher tok)).
Proof using W.
  intros Hc. assert ((load_charsmap charsmap = Throw RuntimeError /\ charsmap <> [] /\ (Z.of_nat (length charsmap) <= announced charsmap + 4)%Z) \/
    ((charsmap = [] \/ announced charsmap + 4 < Z.of_nat (length charsmap))%Z /\ exists xcda repl, load_charsmap charsmap = Done (xcda, repl) /\ (repl = [] \/ last repl = Some x00))) as Hload.
  { destruct Hc as [->|Hc]; [right; split; [by left|]; by exists [], []; split; [|left]|]. pose proof (load_charsmap_ok charsmap Hc) as H. pose proof Hc as [H4 _].
    assert (charsmap <> []) as Hne by (by intros ->). unfold load_charsmap in *. rewrite bool_decide_false in * by done. unfold announced.
    destruct (read_u32 charsmap) as [z|]; cbn [of_option mbind outcome_bind default from_option id] in *; [|by destruct H].
    destruct (decide (Z.of_nat (length charsmap) <= z + 4)%Z) as [Hl|Hl]; [left; by rewrite bool_decide_true|right]. rewrite bool_decide_false in * by done. split; [right; lia|].
    destruct (read_u32s _ _) as [xs|]; cbn [of_option mbind outcome_bind] in *; [|by destruct H]. eexists _, _. split; [done|]. by right. }
  destruct Hload as [(E & Hne & Hl)|(Hs & xcda & repl & E & Hr)]; [left|right; split; [done|]]; unfold new_ugm; rewrite E; cbn [mbind outcome_bind]; [done|].
  destruct (user_loading (flt_max, fsub fzero flt_max, empty_trie, empty_trie) eq_refl) as ([[[mn mx] toks] user] & -> & HU). cbn [mbind outcome_bind snd] in *.
  eexists. split; [reflexivity|]. split; [done|]. split; [by destruct Hr; [left|right]|done].
Qed.

(** The treatment of spaces a vocabulary asks for. *)
Definition spaced (s : list byte) : list byte :=
  let sp := if escape_whitespaces V then escaped_space else space in
  (if remove_extra_whitespaces V then merged sp (words s)
   else if add_space_prefix V && negb (treat_whitespace_as_suffix V) then prepended sp s else escaped sp s) ++
  (if add_space_prefix V && treat_whitespace_as_suffix V then sp else []).

Lemma spaced_ok s : let sp := if escape_whitespaces V then escaped_space else space in
  ('(out, _, _) ← Done (E := tok_error) (norm_chars sp (negb (treat_whitespace_as_suffix V) && add_space_prefix V) (remove_extra_whitespaces V) ([], false, false) s);
   Done (if treat_whitespace_as_suffix V && add_space_prefix V then out ++ sp else out)) = Done (spaced s).
Proof using Type.
  intros sp. unfold spaced. fold sp. cbn [mbind outcome_bind].
  assert (exists p q, norm_chars sp (negb (treat_whitespace_as_suffix V) && add_space_prefix V) (remove_extra_whitespaces V) ([], false, false) s =
    (if remove_extra_whitespaces V then merged sp (words s) else if add_space_prefix V && negb (treat_whitespace_as_suffix V) then prepended sp s else escaped sp s, p, q)) as (p & q & ->).
  { destruct (remove_extra_whitespaces V).
    - destruct (chars_merged sp s (negb (treat_whitespace_as_suffix V) && add_space_prefix V) [] false false) as (p & q & H). by exists p, q.
    - rewrite andb_comm. destruct (add_space_prefix V && negb (treat_whitespace_as_suffix V)).
      + destruct (chars_prepended sp s []) as (p & q & H). by exists p, q.
      + destruct (chars_escaped sp s false [] false false eq_refl) as (q & H). by exists false, q. }
  rewrite (andb_comm (treat_whitespace_as_suffix V)). destruct (add_space_prefix V && treat_whitespace_as_suffix V); by rewrite ?app_nil_r.
Qed.

Lemma normalize_form tok text : xcda_wf tok -> terminated tok -> user_matcher V (user_defined_token_matcher tok) ->
  exists out, normal_form tok V text 0 out /\ normalize V tok text = Done (spaced out).
Proof using Type.
  intros Hw HT HU. set (sp := if escape_whitespaces V then escaped_space else space).
  destruct (norm_loop_form tok V sp (negb (treat_whitespace_as_suffix V) && add_space_prefix V) (remove_extra_whitespaces V) text (length text) Hw HT HU 0 ([], false, false)) as (out & Hn & Hr); [lia..|].
  exists out. split; [done|]. unfold normalize. fold sp. rewrite Hr. apply spaced_ok.
Qed.

Lemma normalize_utf8 tok cps text : xcda_array tok = [] -> user_defined_token_matcher tok = empty_trie -> Forall scalar cps -> unicode_cpts_to_utf8 cps = Ok text ->
  normalize V tok text = Done (spaced text).
Proof using Type.
  intros Hx Hu Hc Ht. unfold normalize. set (sp := if escape_whitespaces V then escaped_space else space).
  pose proof (norm_loop_plain tok sp (negb (treat_whitespace_as_suffix V) && add_space_prefix V) (remove_extra_whitespaces V) Hx Hu cps (length text) [] text ([], false, false) Hc Ht ltac:(lia)) as H.
  cbn [app length] in H. rewrite H. apply spaced_ok.
Qed.

End Load.

(** * Double arrays that stay inside

    A test of all entries: the array has whole blocks of 256, so that a step by a
    byte stays in its block, and the base of every node, whose label is a byte,
    leads inside. *)

Definition closed_entry (xcda : list Z) (n_repl i : nat) : bool :=
  let e := default 0%Z (xcda !! i) in
  let j := Z.lxor (Z.of_nat i) (base_of e) in
  bool_decide (256 <= lcheck_of e)%Z ||
  bool_decide (0 <= j < Z.of_nat (length xcda))%Z && (negb (leaf_of e) || bool_decide (value_of (default 0%Z (xcda !! Z.to_nat j)) < Z.of_nat n_repl)%Z).

Definition closed (xcda : list Z) (n_repl : nat) : bool :=
  bool_decide (length xcda mod 256 = 0) && bool_decide (0 <= base_of (default 0%Z (xcda !! 0%nat)) < Z.of_nat (length xcda))%Z &&
  forallb (closed_entry xcda n_repl) (seq 0 (length xcda)).

Lemma block_step n c q : (0 <= n < 256 * q)%Z -> (0 <= c < 256)%Z -> (0 <= Z.lxor n c < 256 * q)%Z.
Proof.
  intros Hn Hc. assert (0 <= Z.lxor n c)%Z as H0 by (apply Z.lxor_nonneg; lia). split; [done|].
  assert (Z.shiftr (Z.lxor n c) 8 = Z.shiftr n 8) as E.
  { rewrite Z.shiftr_lxor. rewrite (Z.shiftr_div_pow2 c) by lia. change (2 ^ 8)%Z with 256%Z. rewrite (Z.div_small c) by lia. apply Z.lxor_0_r. }
  rewrite !Z.shiftr_div_pow2 in E by lia. change (2 ^ 8)%Z with 256%Z in E. pose proof (Z.div_lt_upper_bound n 256 q). pose proof (Z.mod_pos_bound (Z.lxor n c) 256).
  pose proof (Z.div_mod (Z.lxor n c) 256). nia.
Qed.

Lemma closed_wf `{FO : FloatOps} (tok : llm_tokenizer_ugm) : closed (xcda_array tok) (length (prefix_replacements tok)) = true -> xcda_wf tok.
Proof.
  unfold closed. rewrite !andb_true_iff, !bool_decide_eq_true, forallb_forall. intros ((Hm & Hb) & Hall).
  apply Nat.Lcm0.mod_divide in Hm as [q Hq]. unfold Nat.divide in *.
  assert (forall i, inside tok i -> closed_entry (xcda_array tok) (length (prefix_replacements tok)) (Z.to_nat i) = true) as Hent.
  { intros i [H0 H1]. apply Hall, in_seq. lia. }
  assert (forall n c, inside tok n -> inside tok (Z.lxor n (u8 c))) as Hstep.
  { intros n c Hn. unfold inside in *. rewrite Hq in *. pose proof (u8_range c). pose proof (block_step n (u8 c) (Z.of_nat q)). lia. }
  assert (forall k n l, node tok k n l -> inside tok n /\ (l = true -> (value_of (entry tok n) < Z.of_nat (length (prefix_replacements tok)))%Z)) as Hnode.
  { intros k n l H. induction H as [Hi|k n l c _ [IH _] _ Hi Hlc]; [by split|]. apply Hent in Hi as He. unfold closed_entry in He. rewrite Z2Nat.id in He by apply Hi.
    fold (entry tok (Z.lxor n (u8 c))) in He. rewrite Hlc, bool_decide_false in He by (pose proof (u8_range c); lia). cbn [orb] in He. apply andb_true_iff in He as [H1 H2]. apply bool_decide_eq_true in H1. split; [exact H1|]. intros Hl. rewrite Hl in H2. cbn [negb orb] in H2. by apply bool_decide_eq_true in H2. }
  split.
  - intros k n l c Hn _. by apply Hstep, (Hnode k n l).
  - intros k n Hn. destruct (Hnode _ _ _ Hn) as [? H]. auto.
Qed.

(** * Properties *)

(** C36: normalization is what the map of replacements says.  With a map that is
    empty, or has its length and ends with a terminator, the tokenizer is made
    unless the announced size of the double array does not fit.  If then no path of
    the double array leads outside of it or of the replacements, every text is
    normalized: from left to right, the longest start of a user-defined token
    stays, or else the longest key of the map is replaced, or else a UTF-8 character
    stays and a byte that starts none becomes U+FFFD; and the spaces of the result are
    replaced by the symbol, one for each space or one before each word, with one
    more at the start or the end, as the vocabulary asks.  Otherwise a text is normalized or
    [std::runtime_error] is thrown, and that only if some path leads outside;
    nothing is read out of bounds and the loop ends.  Without a map, and without
    user-defined tokens, a text in UTF-8 keeps its characters. *)
Theorem ugm_normalize_correct `{DO : DoubleOps, BM : BuildMode} (V : llama_vocab) (flt_max : float) (charsmap : list byte) :
  vocab_ok V -> charsmap = [] \/ charsmap_ok charsmap ->
  match new_ugm V flt_max charsmap with
  | Throw e => e = RuntimeError /\ charsmap <> [] /\ (Z.of_nat (length charsmap) <= announced charsmap + 4)%Z
  | Undefined => False
  | Done tok =>
      load_charsmap charsmap = Done (xcda_array tok, prefix_replacements tok) /\
      (charsmap = [] /\ xcda_wf tok \/ announced charsmap + 4 < Z.of_nat (length charsmap))%Z /\
      forall text,
        (xcda_wf tok -> exists out, normal_form tok V text 0 out /\ normalize V tok text = Done (spaced V out)) /\
        match normalize V tok text with Done _ => True | Throw e => e = RuntimeError /\ ~ xcda_wf tok | Undefined => False end /\
        (charsmap = [] -> (forall i d, id_to_token V !! i = Some d -> has_attr ATTR_USER_DEFINED (attr d) = false) ->
          forall cps, Forall scalar cps -> unicode_cpts_to_utf8 cps = Ok text -> normalize V tok text = Done (spaced V text))
  end.
Proof.
  intros W Hc. destruct (new_ugm_made V W flt_max charsmap Hc) as [(-> & Hne & Hl)|(Hs & tok & Htok & Hload & HT & HU)]; [done|]. rewrite Htok.
  assert (charsmap = [] -> xcda_array tok = []) as Hnil by (intros ->; by injection Hload). split; [done|]. split.
  { destruct Hs as [->|Hs]; [left; split; [done|]|by right]. specialize (Hnil eq_refl).
    assert (forall k n l, ~ node tok k n l) as Hno by (intros k n l Hn; induction Hn as [Hi|]; [unfold inside in Hi; rewrite Hnil in Hi; cbn in Hi; lia|done]).
    split; intros; exfalso; by eapply Hno. }
  intros text. pose proof (fun Hw => normalize_form V tok text Hw HT HU) as Hform. split; [exact Hform|]. split.
  - pose proof (normalize_ok V tok text HT) as H. destruct (normalize V tok text) as [s|e|]; cbn in H; [done|split; [apply H|]|done].
    intros Hw. by destruct (Hform Hw) as (out & _ & E).
  - intros -> Hno cps Hcps Ht. apply (normalize_utf8 V tok cps text); [auto| |done..]. destruct (new_ugm_plain V W flt_max) as (tok' & Htok' & _ & _ & H). rewrite Htok in Htok'. injection Htok' as <-. auto.
Qed.

(** * An example

    The map that replaces "a" by "b": a block of 256 entries. *)

Definition demo_entry (i : nat) : list byte :=
  if bool_decide (i = 0x61) then [x61; x05; x00; x00] else if bool_decide (i = 0x60) then [x00; x00; x00; x80] else [x00; x00; x00; x00].
Definition demo_charsmap : list byte := [x00; x04; x00; x00] ++ concat (demo_entry <$> seq 0 256) ++ [x62; x00].
Definition demo_tok : llm_tokenizer_ugm (FO := demo_floats) :=
  match new_ugm (FO := demo_floats) demo_vocab 1000%Z demo_charsmap with Done tok => tok | _ => demo_ugm end.

Example ugm_map_demo : normalize (FO := demo_floats) (BM := debug_build) demo_vocab demo_tok [x61; x20; x62; xff; x61] = Done [x62; xe2; x96; x81; x62; xef; xbf; xbd; x62].
Proof. vm_compute. reflexivity. Qed.

Lemma ugm_normalize_correct_witness : xcda_wf (FO := demo_floats) demo_tok /\ exists out, normal_form (FO := demo_floats) (BM := debug_build) demo_tok demo_vocab [x61; x20; x62] 0 out /\
  normalize (FO := demo_floats) (BM := debug_build) demo_vocab demo_tok [x61; x20; x62] = Done (spaced demo_vocab out).
Proof.
  assert (xcda_wf (FO := demo_floats) demo_tok) as Hw by (apply closed_wf; vm_compute; reflexivity). split; [exact Hw|].
  pose proof (ugm_normalize_correct (DO := demo_doubles) (BM := debug_build) demo_vocab 1000%Z demo_charsmap ugm_demo_vocab_ok) as H.
  assert (new_ugm (FO := demo_floats) demo_vocab 1000%Z demo_charsmap = Done demo_tok) as E by (vm_compute; reflexivity). rewrite E in H.
  destruct H as (_ & _ & H); [right; split; [vm_compute; lia|vm_compute; reflexivity]|]. destruct (H [x61; x20; x62]) as [Hform _]. exact (Hform Hw).
Defined.

(** Entries out of the array throw. *)
Example ugm_throw_demo : normalize (FO := demo_floats) (BM := debug_build) demo_vocab
  (mkUgm (FO := demo_floats) [x00] [0]%Z empty_trie 0%Z 0%Z 0%Z empty_trie) [x61] = Throw RuntimeError.
Proof. vm_compute. reflexivity. Qed.

End UgmMap.
