(* ===== verification/TensorAlloc.v ===== *)
(** The tensor allocators of [llama_cpp_repo/ggml/src/ggml-alloc.c]: the linear
    [ggml_tallocr] and the dynamic allocator [ggml_dyn_tallocr], which serves the
    compute graphs from chunks with lists of free blocks. *)

From S2P Require Import Prelude.

Module TensorAlloc.
Local Open Scope Z_scope.

(** * The model *)

Definition SIZE_MAX : Z := 18446744073709551615.
Definition INT64_MIN : Z := -9223372036854775808.
Definition MAX_FREE_BLOCKS : nat := 256.
Definition GGML_VBUFFER_MAX_CHUNKS : nat := 16.

(** Conversion of a [size_t] to [int64_t]. *)
Definition to_i64 (z : Z) : Z := if bool_decide (z < 9223372036854775808) then z else z - 18446744073709551616.

Section Model.
Context `{BM : BuildMode}.

Definition is_pow2 (n : Z) : bool := bool_decide (n <> 0 /\ Z.land n (n - 1) = 0).

Definition aligned_offset (buffer offset alignment : Z) : option Z :=
  ASSERT is_pow2 alignment;
  let align := u64_wrap (alignment - u64_wrap (buffer + offset) mod alignment) mod alignment in
  Some (u64_wrap (offset + align)).

(** [GGML_PAD(x, n)] on [size_t]. *)
Definition GGML_PAD (x n : Z) : Z := Z.land (u64_wrap (u64_wrap (x + n) - 1)) (u64_wrap (- 1 - u64_wrap (n - 1))).

(** ** The linear allocator *)

Record ggml_tallocr := mkTallocr { t_base : Z; t_alignment : Z; t_offset : Z }.

Definition ggml_tallocr_new (base align : Z) : option ggml_tallocr :=
  ASSERT is_pow2 align;
  offset ← aligned_offset base 0 align;
  Some (mkTallocr base align offset).

(** [alloc_size] is the backend's size of the tensor, [buffer_size] the size of
    the buffer; the result is the address of the tensor. *)
Definition ggml_tallocr_alloc (alloc_size buffer_size : Z) (t : ggml_tallocr) : option (Z * ggml_tallocr) :=
  let size := GGML_PAD alloc_size (t_alignment t) in
  if bool_decide (buffer_size < u64_wrap (t_offset t + size)) then None else
  let addr := u64_wrap (t_base t + t_offset t) in
  let t := mkTallocr (t_base t) (t_alignment t) (u64_wrap (t_offset t + size)) in
  ASSERT bool_decide (addr mod t_alignment t = 0);
  Some (addr, t).

(** ** The dynamic allocator *)

Record buffer_address := mkAddr { a_chunk : nat; a_offset : Z }.
Record free_block := mkBlock { b_offset : Z; b_size : Z }.

(** The first [n_free_blocks] of the array of blocks. *)
Record tallocr_chunk := mkChunk { free_blocks : list free_block; max_size : Z }.

(** The first [n_chunks] of the array of chunks. *)
Record ggml_dyn_tallocr := mkDyn { alignment : Z; max_chunk_size : Z; chunks : list tallocr_chunk }.

Definition with_blocks (bs : list free_block) (c : tallocr_chunk) : tallocr_chunk := mkChunk bs (max_size c).
Definition with_chunks (cs : list tallocr_chunk) (a : ggml_dyn_tallocr) : ggml_dyn_tallocr := mkDyn (alignment a) (max_chunk_size a) cs.

Fixpoint insert_sorted (b : free_block) (l : list free_block) : list free_block :=
  match l with
  | x :: l => if bool_decide (b_offset x < b_offset b) then x :: insert_sorted b l else b :: x :: l
  | [] => [b]
  end.

Definition ggml_dyn_tallocr_insert_block (offset size : Z) (c : tallocr_chunk) : option tallocr_chunk :=
  GGML_ASSERT bool_decide (length (free_blocks c) < MAX_FREE_BLOCKS)%nat;
  Some (with_blocks (insert_sorted (mkBlock offset size) (free_blocks c)) c).

(** The shift reads the element after the last block, which a full array does
    not have. *)
Definition ggml_dyn_tallocr_remove_block (idx : nat) (c : tallocr_chunk) : option tallocr_chunk :=
  if bool_decide (idx < length (free_blocks c) /\ MAX_FREE_BLOCKS <= length (free_blocks c))%nat then None
  else Some (with_blocks (delete idx (free_blocks c)) c).

(** The new chunk is the last; [None] in the pair is -1. *)
Definition ggml_dyn_tallocr_new_chunk (min_size : Z) (a : ggml_dyn_tallocr) : option nat * ggml_dyn_tallocr :=
  if bool_decide (GGML_VBUFFER_MAX_CHUNKS <= length (chunks a))%nat then (None, a) else
  let size := if bool_decide (length (chunks a) = GGML_VBUFFER_MAX_CHUNKS - 1)%nat then SIZE_MAX / 2
              else Z.max min_size (max_chunk_size a) in
  (Some (length (chunks a)), with_chunks (chunks a ++ [mkChunk [mkBlock 0 size] 0]) a).

(** The best fitting block besides the last one of each chunk: a later chunk
    replaces the choice of an earlier one. *)
Definition fit_step (size : Z) (c : nat) (ib : nat * free_block) (st : option (nat * nat) * Z) : option (nat * nat) * Z :=
  let '(i, block) := ib in
  let '(best, best_fit_size) := st in
  if bool_decide (size <= b_size block /\ b_size block <= best_fit_size) then (Some (c, i), b_size block) else st.

Definition fit_chunk (size : Z) (best : option (nat * nat)) (cc : nat * tallocr_chunk) : option (nat * nat) :=
  let bs := free_blocks cc.2 in
  (foldl (fun st ib => fit_step size cc.1 ib st) (best, SIZE_MAX) (imap pair (take (length bs - 1) bs))).1.

Definition best_fit (size : Z) (cs : list tallocr_chunk) : option (nat * nat) := foldl (fit_chunk size) None (imap pair cs).

(** The last blocks, which may grow their chunk. *)
Definition reuse_step (size : Z) (st : option (nat * nat) * Z) (cc : nat * tallocr_chunk) : option (nat * nat) * Z :=
  let '(c, chunk) := cc in
  let '(best, best_reuse) := st in
  match last (free_blocks chunk) with
  | None => st
  | Some block =>
      let reuse_factor := to_i64 (u64_wrap (u64_wrap (max_size chunk - b_offset block) - size)) in
      let better_reuse := bool_decide (best_reuse < 0 /\ best_reuse < reuse_factor) in
      let better_fit := bool_decide (0 <= reuse_factor /\ reuse_factor < best_reuse) in
      if bool_decide (size <= b_size block) && (better_reuse || better_fit)
      then (Some (c, length (free_blocks chunk) - 1)%nat, reuse_factor) else st
  end.

Definition best_last (size : Z) (cs : list tallocr_chunk) : option (nat * nat) := (foldl (reuse_step size) (None, INT64_MIN) (imap pair cs)).1.

(** Take [size] bytes from the start of a block. *)
Definition take_block (ci : nat * nat) (size : Z) (a : ggml_dyn_tallocr) : option (buffer_address * ggml_dyn_tallocr) :=
  let '(c, i) := ci in
  chunk ← chunks a !! c;
  block ← free_blocks chunk !! i;
  let addr := mkAddr c (b_offset block) in
  let block := mkBlock (u64_wrap (b_offset block + size)) (u64_wrap (b_size block - size)) in
  let chunk := with_blocks (<[i := block]> (free_blocks chunk)) chunk in
  chunk ← (if bool_decide (b_size block = 0) then ggml_dyn_tallocr_remove_block i chunk else Some chunk);
  let chunk := mkChunk (free_blocks chunk) (Z.max (max_size chunk) (u64_wrap (a_offset addr + size))) in
  Some (addr, with_chunks (<[c := chunk]> (chunks a)) a).

(** [None] is the abort "failed to reserve memory". *)
Definition ggml_dyn_tallocr_alloc (size : Z) (a : ggml_dyn_tallocr) : option (buffer_address * ggml_dyn_tallocr) :=
  size ← aligned_offset 0 size (alignment a);
  let best := match best_fit size (chunks a) with Some b => Some b | None => best_last size (chunks a) end in
  match best with
  | Some b => take_block b size a
  | None =>
      let '(c, a) := ggml_dyn_tallocr_new_chunk size a in
      c ← c;
      take_block (c, 0%nat) size a
  end.

(** Merge the range with the block at [i]: [Some None] when they do not touch. *)
Definition merge_at (offset size : Z) (i : nat) (c : tallocr_chunk) : option (option tallocr_chunk) :=
  block ← free_blocks c !! i;
  if bool_decide (u64_wrap (b_offset block + b_size block) = offset) then
    let block := mkBlock (b_offset block) (u64_wrap (b_size block + size)) in
    let c := with_blocks (<[i := block]> (free_blocks c)) c in
    match free_blocks c !! S i with
    | Some next =>
        if bool_decide (u64_wrap (b_offset block + b_size block) = b_offset next) then
          let c := with_blocks (<[i := mkBlock (b_offset block) (u64_wrap (b_size block + b_size next))]> (free_blocks c)) c in
          c ← ggml_dyn_tallocr_remove_block (S i) c;
          Some (Some c)
        else Some (Some c)
    | None => Some (Some c)
    end
  else if bool_decide (u64_wrap (offset + size) = b_offset block) then
    let block := mkBlock offset (u64_wrap (b_size block + size)) in
    let c := with_blocks (<[i := block]> (free_blocks c)) c in
    match i with
    | O => Some (Some c)
    | S j =>
        prev ← free_blocks c !! j;
        if bool_decide (u64_wrap (b_offset prev + b_size prev) = b_offset block) then
          let c := with_blocks (<[j := mkBlock (b_offset prev) (u64_wrap (b_size prev + b_size block))]> (free_blocks c)) c in
          c ← ggml_dyn_tallocr_remove_block i c;
          Some (Some c)
        else Some (Some c)
    end
  else Some None.

Fixpoint free_loop (offset size : Z) (ixs : list nat) (c : tallocr_chunk) : option tallocr_chunk :=
  match ixs with
  | [] => ggml_dyn_tallocr_insert_block offset size c
  | i :: ixs =>
      r ← merge_at offset size i c;
      match r with Some c => Some c | None => free_loop offset size ixs c end
  end.

Definition ggml_dyn_tallocr_free_bytes (addr : buffer_address) (size : Z) (a : ggml_dyn_tallocr) : option ggml_dyn_tallocr :=
  size ← aligned_offset 0 size (alignment a);
  chunk ← chunks a !! a_chunk addr;
  chunk ← free_loop (a_offset addr) size (seq 0 (length (free_blocks chunk))) chunk;
  Some (with_chunks (<[a_chunk addr := chunk]> (chunks a)) a).

Definition ggml_dyn_tallocr_reset (a : ggml_dyn_tallocr) : ggml_dyn_tallocr := with_chunks [] a.

Definition ggml_dyn_tallocr_new (align max_buffer_size : Z) : ggml_dyn_tallocr :=
  ggml_dyn_tallocr_reset (mkDyn align (Z.min max_buffer_size (SIZE_MAX / 2)) []).

Definition ggml_dyn_tallocr_max_size (a : ggml_dyn_tallocr) (chunk : nat) : Z :=
  match chunks a !! chunk with Some c => max_size c | None => 0 end.

End Model.

(** A small run: two tensors, free the first, reuse its space. *)
Example small_run : (let BM := debug_build in
  '(x, a) ← ggml_dyn_tallocr_alloc 100 (ggml_dyn_tallocr_new 32 4096);
  '(y, a) ← ggml_dyn_tallocr_alloc 64 a;
  a ← ggml_dyn_tallocr_free_bytes x 100 a;
  '(z, a) ← ggml_dyn_tallocr_alloc 32 a;
  Some (x, y, z, free_blocks <$> chunks a)) =
  Some (mkAddr 0 0, mkAddr 0 128, mkAddr 0 0, [[mkBlock 32 96; mkBlock 192 3904]]).
Proof. vm_compute. reflexivity. Qed.

End TensorAlloc.
