(* ===== verification/TensorAllocOk.v ===== *)
(** The dynamic tensor allocator is safe: the live ranges of every run are
    aligned, in bounds and disjoint, requests are served while there is room,
    and a chunk whose tensors are all freed is one free block again.  A chunk is
    viewed as a tiling of its address range by free and live segments. *)

From S2P Require Import Prelude.
From S2P Require Import TensorAlloc.
Import TensorAlloc.TensorAlloc.

Module TensorAllocOk.
Local Open Scope Z_scope.

(** * Tilings *)

(** A segment: is it live, and its size. *)
Abbreviation segment := (bool * Z)%type.

Definition total (l : list segment) : Z := foldr (fun s n => s.2 + n) 0 l.

Fixpoint tile (o : Z) (l : list segment) : list free_block :=
  match l with
  | [] => []
  | (true, s) :: l => tile (o + s) l
  | (false, s) :: l => mkBlock o s :: tile (o + s) l
  end.

Fixpoint lives (o : Z) (l : list segment) : list (Z * Z) :=
  match l with
  | [] => []
  | (true, s) :: l => (o, s) :: lives (o + s) l
  | (false, s) :: l => lives (o + s) l
  end.

(** No two free segments touch; [p]: the segment before is free. *)
Fixpoint spaced (p : bool) (l : list segment) : Prop :=
  match l with
  | [] => True
  | (b, _) :: l => (p = true -> b = true) /\ spaced (negb b) l
  end.

Fixpoint ends_free (p : bool) (l : list segment) : bool :=
  match l with [] => p | (b, _) :: l => ends_free (negb b) l end.

Definition sized (l : list segment) : Prop := Forall (fun s => 0 < s.2) l.

Lemma total_app l1 l2 : total (l1 ++ l2) = total l1 + total l2.
Proof. induction l1 as [|s l1 IH]; simpl; lia. Qed.

Lemma total_nonneg l : sized l -> 0 <= total l.
Proof. induction 1; simpl in *; lia. Qed.

Lemma tile_app l1 : forall o l2, tile o (l1 ++ l2) = tile o l1 ++ tile (o + total l1) l2.
Proof.
  induction l1 as [|[[] s] l1 IH]; intros o l2; simpl; [f_equal; lia|rewrite IH; do 2 f_equal; lia|rewrite IH; do 3 f_equal; lia].
Qed.

Lemma lives_app l1 : forall o l2, lives o (l1 ++ l2) = lives o l1 ++ lives (o + total l1) l2.
Proof.
  induction l1 as [|[[] s] l1 IH]; intros o l2; simpl; [f_equal; lia|rewrite IH; do 3 f_equal; lia|rewrite IH; do 2 f_equal; lia].
Qed.

Lemma spaced_app l1 : forall p l2, spaced p (l1 ++ l2) <-> spaced p l1 /\ spaced (ends_free p l1) l2.
Proof. induction l1 as [|[b s] l1 IH]; intros p l2; simpl; [tauto|]. rewrite IH. tauto. Qed.

Lemma ends_free_app l1 : forall p l2, ends_free p (l1 ++ l2) = ends_free (ends_free p l1) l2.
Proof. induction l1 as [|[b s] l1 IH]; intros p l2; simpl; [done|apply IH]. Qed.

Lemma spaced_weaken l : spaced true l -> spaced false l.
Proof. destruct l as [|[b s] l]; simpl; tauto. Qed.

(** The blocks of a tiling. *)
Lemma tile_bounds l : forall o b, sized l -> b ∈ tile o l -> o <= b_offset b /\ 0 < b_size b /\ b_offset b + b_size b <= o + total l.
Proof.
  induction l as [|[[] s] l IH]; intros o b Hl Hb; [by apply elem_of_nil in Hb|..]; apply Forall_cons in Hl as [Hs Hl]; simpl in *;
    pose proof (total_nonneg l Hl); [apply IH in Hb; [lia|done]|].
  apply elem_of_cons in Hb as [->|Hb]; [simpl; lia|]. apply IH in Hb; [lia|done].
Qed.

Lemma tile_before l : forall p o b, sized l -> ends_free p l = false -> b ∈ tile o l -> b_offset b + b_size b < o + total l.
Proof.
  induction l as [|[[] s] l IH]; intros p o b Hl He Hb; [by apply elem_of_nil in Hb|..]; apply Forall_cons in Hl as [Hs Hl]; simpl in *.
  - apply (IH _ _ _ Hl He) in Hb. lia.
  - apply elem_of_cons in Hb as [->|Hb]; [|apply (IH _ _ _ Hl He) in Hb; lia]. simpl.
    destruct l as [|[b' s'] l]; [done|]. apply Forall_cons in Hl as [Hs' Hl]. pose proof (total_nonneg l Hl). simpl in *. lia.
Qed.

Lemma tile_after l o b : sized l -> spaced true l -> b ∈ tile o l -> o < b_offset b.
Proof.
  destruct l as [|[[] s] l]; intros Hl Hsp Hb; simpl in *; [by apply elem_of_nil in Hb| |destruct Hsp as [Hf _]; by specialize (Hf eq_refl)].
  apply Forall_cons in Hl as [Hs Hl]. simpl in Hs. apply (tile_bounds l) in Hb; [lia|done].
Qed.

(** The free segment of a block, and the live segment of a range. *)
Lemma tile_split l : forall o i b, tile o l !! i = Some b -> exists l1 l2, l = l1 ++ (false, b_size b) :: l2 /\
  b_offset b = o + total l1 /\ length (tile o l1) = i.
Proof.
  induction l as [|[[] s] l IH]; intros o i b Hb; simpl in Hb; [done| |].
  - destruct (IH _ _ _ Hb) as (l1 & l2 & -> & Ho & Hi). exists ((true, s) :: l1), l2. simpl. split_and!; [done|lia|done].
  - destruct i as [|i]; simpl in Hb; [injection Hb as <-; exists [], l; simpl; split_and!; [done|lia|done]|].
    destruct (IH _ _ _ Hb) as (l1 & l2 & -> & Ho & Hi). exists ((false, s) :: l1), l2. simpl. split_and!; [done|lia|by rewrite Hi].
Qed.

Lemma lives_split l : forall o x s, (x, s) ∈ lives o l -> exists l1 l2, l = l1 ++ (true, s) :: l2 /\ x = o + total l1.
Proof.
  induction l as [|[[] z] l IH]; intros o x s Hx; simpl in Hx; [by apply elem_of_nil in Hx| |].
  - apply elem_of_cons in Hx as [[= -> ->]|Hx]; [exists [], l; simpl; split; [done|lia]|].
    destruct (IH _ _ _ Hx) as (l1 & l2 & -> & Ho). exists ((true, z) :: l1), l2. simpl. split; [done|lia].
  - destruct (IH _ _ _ Hx) as (l1 & l2 & -> & Ho). exists ((false, z) :: l1), l2. simpl. split; [done|lia].
Qed.

Lemma lives_bounds l : forall o x s, sized l -> (x, s) ∈ lives o l -> o <= x /\ 0 < s /\ x + s <= o + total l.
Proof.
  intros o x s Hl Hx. destruct (lives_split _ _ _ _ Hx) as (l1 & l2 & -> & ->). apply Forall_app in Hl as [H1 [H2 H3]%Forall_cons].
  rewrite total_app. simpl in *. pose proof (total_nonneg l1 H1). pose proof (total_nonneg l2 H3). lia.
Qed.

(** Two live ranges, or a live range and a free block, do not overlap. *)
Lemma lives_disjoint l : forall o x1 s1 x2 s2, sized l -> (x1, s1) ∈ lives o l -> (x2, s2) ∈ lives o l ->
  (x1 = x2 /\ s1 = s2) \/ x1 + s1 <= x2 \/ x2 + s2 <= x1.
Proof.
  induction l as [|[[] z] l IH]; intros o x1 s1 x2 s2 Hl H1 H2; simpl in *; [by apply elem_of_nil in H1| |]; apply Forall_cons in Hl as [Hz Hl]; [|by eapply IH].
  apply elem_of_cons in H1 as [[= -> ->]|H1]; apply elem_of_cons in H2 as [[= -> ->]|H2]; [by left| | |by eapply IH];
    match goal with H : _ ∈ lives _ _ |- _ => apply lives_bounds in H; [|done] end; lia.
Qed.

Lemma lives_tile_disjoint l : forall o x s b, sized l -> (x, s) ∈ lives o l -> b ∈ tile o l -> x + s <= b_offset b \/ b_offset b + b_size b <= x.
Proof.
  induction l as [|[[] z] l IH]; intros o x s b Hl H1 H2; simpl in *; [by apply elem_of_nil in H1|..]; apply Forall_cons in Hl as [Hz Hl].
  - apply elem_of_cons in H1 as [[= -> ->]|H1]; [apply tile_bounds in H2; [lia|done]|by eapply IH].
  - apply elem_of_cons in H2 as [->|H2]; [apply lives_bounds in H1; [simpl; lia|done]|by eapply IH].
Qed.

(** * One chunk *)

Definition T_MAX : Z := SIZE_MAX / 2.

Record chunk_ok (al : Z) (c : tallocr_chunk) (l : list segment) : Prop := {
  ck_blocks  : free_blocks c = tile 0 l;
  ck_sized   : sized l;
  ck_spaced  : spaced false l;
  ck_aligned : forall l1 s l2, l = l1 ++ s :: l2 -> (al | total l1);
  ck_max     : forall x s, (x, s) ∈ lives 0 l -> x + s <= max_size c;
  ck_total   : 0 < total l <= T_MAX;
  ck_max_rng : 0 <= max_size c <= T_MAX;
}.

Lemma u64_small z : 0 <= z <= SIZE_MAX -> u64_wrap z = z.
Proof. unfold u64_wrap, SIZE_MAX. intros H. apply Z.mod_small. lia. Qed.

Lemma T_MAX_le : T_MAX * 2 < SIZE_MAX.
Proof. by vm_compute. Qed.

(** The prefixes of a tiling stay aligned when a segment is split or merged. *)
Definition aligned_parts (al : Z) (l : list segment) : Prop := forall l1 s l2, l = l1 ++ s :: l2 -> (al | total l1).

Lemma aligned_app al l1 l2 : aligned_parts al (l1 ++ l2) <-> aligned_parts al l1 /\ (forall k s l3, l2 = k ++ s :: l3 -> (al | total l1 + total k)).
Proof.
  split.
  - intros H. split.
    + intros k s l3 ->. apply (H k s (l3 ++ l2)). by rewrite <- app_assoc.
    + intros k s l3 ->. rewrite <- total_app. apply (H (l1 ++ k) s l3). by rewrite <- app_assoc.
  - intros [H1 H2] k s l3 He. apply app_eq_app in He as (m & [[-> Hm]|[-> Hm]]).
    + destruct m as [|x m]; [|injection Hm as -> ->; by apply (H1 k x m)].
      rewrite app_nil_r in *. specialize (H2 [] s l3 (eq_sym Hm)). simpl in H2. by rewrite Z.add_0_r in H2.
    + rewrite total_app. by apply (H2 m s l3).
Qed.

Lemma aligned_cons al b s l1 l2 : aligned_parts al (l1 ++ (b, s) :: l2) <->
  aligned_parts al l1 /\ (al | total l1) /\ forall k x l3, l2 = k ++ x :: l3 -> (al | total l1 + s + total k).
Proof.
  rewrite aligned_app. split.
  - intros [H1 H2]. split_and!; [done|specialize (H2 [] (b, s) l2 eq_refl); simpl in H2; by rewrite Z.add_0_r in H2|].
    intros k x l3 ->. specialize (H2 ((b, s) :: k) x l3 eq_refl). simpl in H2. by rewrite Z.add_assoc in H2.
  - intros (H1 & H0 & H2). split; [done|]. intros [|y k] x l3 He; [injection He as <- <-; simpl; by rewrite Z.add_0_r|].
    injection He as <- ->. simpl. rewrite Z.add_assoc. by apply (H2 k x l3).
Qed.

(** Taking space from a free segment. *)
Definition rest_of (sz size : Z) (l2 : list segment) : list segment := if bool_decide (sz = size) then l2 else (false, sz - size) :: l2.

Lemma take_tiling l1 sz size l2 : size <= sz -> 0 < size -> sized (l1 ++ (false, sz) :: l2) -> spaced false (l1 ++ (false, sz) :: l2) ->
  let l := l1 ++ (true, size) :: rest_of sz size l2 in
  sized l /\ spaced false l /\ total l = total (l1 ++ (false, sz) :: l2) /\
  tile 0 l = tile 0 l1 ++ (if bool_decide (sz = size) then [] else [mkBlock (total l1 + size) (sz - size)]) ++ tile (total l1 + sz) l2 /\
  lives 0 l = lives 0 l1 ++ (total l1, size) :: lives (total l1 + sz) l2.
Proof.
  intros Hle Hpos Hs Hsp. unfold sized in *. apply Forall_app in Hs as [H1 [H2 H3]%Forall_cons]. simpl in H2.
  rewrite spaced_app in Hsp. destruct Hsp as [Hsp1 [_ Hsp2]]. simpl in Hsp2. unfold rest_of. case_bool_decide as Heq.
  - subst sz. simpl. rewrite tile_app, lives_app, !total_app. split_and!; [by apply Forall_app; split; [|constructor]| |done|done|done].
    rewrite spaced_app. split; [done|]. simpl. split; [done|]. by apply spaced_weaken.
  - simpl. rewrite tile_app, lives_app, !total_app. split_and!.
    + apply Forall_app; split; [done|]. constructor; [done|]. constructor; [simpl; lia|done].
    + rewrite spaced_app. split; [done|]. simpl. done.
    + simpl. lia.
    + simpl. repeat (f_equal; try lia).
    + simpl. repeat (f_equal; try lia).
Qed.

Lemma take_chunk al c l i b size : chunk_ok al c l -> free_blocks c !! i = Some b -> 0 < size <= b_size b -> (al | size) ->
  (length (free_blocks c) < MAX_FREE_BLOCKS)%nat ->
  exists c' l', (let c1 := with_blocks (<[i := mkBlock (b_offset b + size) (b_size b - size)]> (free_blocks c)) c in
    if bool_decide (b_size b - size = 0) then ggml_dyn_tallocr_remove_block i c1 else Some c1) = Some c' /\
    max_size c' = max_size c /\ chunk_ok al (mkChunk (free_blocks c') (Z.max (max_size c) (b_offset b + size))) l' /\
    forall x s, (x, s) ∈ lives 0 l' <-> (x, s) = (b_offset b, size) \/ (x, s) ∈ lives 0 l.
Proof.
  intros Hc Hb Hsz Hal Hlen. pose proof Hb as Hb'. rewrite (ck_blocks _ _ _ Hc) in Hb'. destruct (tile_split _ _ _ _ Hb') as (l1 & l2 & -> & Ho & Hi).
  destruct (take_tiling l1 (b_size b) size l2) as (Hs & Hsp & Ht & Htile & Hlv); [lia|lia|apply Hc|apply Hc|].
  set (l' := l1 ++ (true, size) :: rest_of (b_size b) size l2) in *.
  assert (tile 0 (l1 ++ (false, b_size b) :: l2) = tile 0 l1 ++ b :: tile (total l1 + b_size b) l2) as Hold.
  { rewrite tile_app. simpl. f_equal. destruct b as [bo bs]. simpl in *. by subst bo. }
  assert (lives 0 (l1 ++ (false, b_size b) :: l2) = lives 0 l1 ++ lives (total l1 + b_size b) l2) as Hlold by (by rewrite lives_app).
  set (c1 := with_blocks (<[i := mkBlock (b_offset b + size) (b_size b - size)]> (free_blocks c)) c).
  assert (free_blocks c1 = tile 0 l1 ++ mkBlock (b_offset b + size) (b_size b - size) :: tile (total l1 + b_size b) l2) as Hc1.
  { unfold c1. cbn. rewrite (ck_blocks _ _ _ Hc), Hold. subst i. by rewrite insert_app_r_alt, Nat.sub_diag by lia. }
  assert (exists c', (if bool_decide (b_size b - size = 0) then ggml_dyn_tallocr_remove_block i c1 else Some c1) = Some c' /\
    free_blocks c' = tile 0 l' /\ max_size c' = max_size c) as (c' & Hc' & Hbs & Hm).
  { unfold ggml_dyn_tallocr_remove_block. rewrite Htile. destruct (decide (b_size b - size = 0)) as [Hz|Hz].
    - rewrite (bool_decide_true (b_size b - size = 0)) by done.
      rewrite bool_decide_false by (intros [_ H]; unfold c1 in H; cbn in H; rewrite length_insert in H; lia).
      eexists. split; [done|]. cbn [free_blocks with_blocks max_size]. split; [|done]. rewrite Hc1, bool_decide_true by lia. subst i. by rewrite delete_middle.
    - rewrite (bool_decide_false (b_size b - size = 0)) by done. exists c1. split; [done|]. split; [|done]. rewrite Hc1, bool_decide_false by lia. simpl. rewrite Ho. done. }
  exists c', l'. split; [done|]. split; [done|].
  assert (forall x s, (x, s) ∈ lives 0 l' <-> (x, s) = (b_offset b, size) \/ (x, s) ∈ lives 0 (l1 ++ (false, b_size b) :: l2)) as Hmem.
  { intros x s. rewrite Hlv, Hlold, !elem_of_app, elem_of_cons, Ho. simpl. tauto. }
  split; [|done]. constructor; [done|done|done| | | |].
  - pose proof (ck_aligned _ _ _ Hc) as Ha. change (aligned_parts al (l1 ++ (false, b_size b) :: l2)) in Ha. change (aligned_parts al l').
    apply aligned_cons in Ha as (A1 & A2 & A3). apply aligned_cons. split_and!; [done|done|]. unfold rest_of.
    destruct (decide (b_size b = size)) as [Heq|Heq]; [rewrite bool_decide_true by done|rewrite bool_decide_false by done].
    + intros k x l3 ->. rewrite <- Heq. by apply (A3 k x l3).
    + intros [|y k] x l3 He; [simpl; rewrite Z.add_0_r; by apply Z.divide_add_r|]. injection He as <- ->. simpl.
      replace (total l1 + size + (b_size b - size + total k)) with (total l1 + b_size b + total k) by lia. by apply (A3 k x l3).
  - cbn. intros x s [[= -> ->]|Hx]%Hmem; [lia|]. apply (ck_max _ _ _ Hc) in Hx. lia.
  - rewrite Ht. apply Hc.
  - cbn. pose proof (ck_max_rng _ _ _ Hc). pose proof (ck_total _ _ _ Hc) as Htt. pose proof (ck_sized _ _ _ Hc) as Hsz'.
    rewrite total_app in Htt. simpl in Htt. apply Forall_app in Hsz' as [Hz1 [_ Hz2]%Forall_cons]. pose proof (total_nonneg _ Hz1). pose proof (total_nonneg _ Hz2). lia.
Qed.


(** Giving a live segment back, with the free neighbours [pre] and [post]. *)
Definition at_most_free (l : list segment) : Prop := l = [] \/ exists n, l = [(false, n)].

Lemma merge_tiling al c k1 pre size post k2 : at_most_free pre -> at_most_free post ->
  let l := k1 ++ pre ++ (true, size) :: post ++ k2 in
  let M := total pre + size + total post in
  chunk_ok al c l -> ends_free false k1 = false -> spaced true k2 ->
  forall bs, bs = tile 0 k1 ++ mkBlock (total k1) M :: tile (total k1 + M) k2 ->
  chunk_ok al (with_blocks bs c) (k1 ++ (false, M) :: k2) /\ total (k1 ++ (false, M) :: k2) = total l /\
  forall x s, (x, s) ∈ lives 0 (k1 ++ (false, M) :: k2) <-> (x, s) ∈ lives 0 l /\ (x, s) <> (total (k1 ++ pre), size).
Proof.
  intros Hpre Hpost l M Hc Hk1 Hk2 bs ->. pose proof (ck_sized _ _ _ Hc) as Hs. unfold l in Hs.
  apply Forall_app in Hs as [Hs1 Hs]. apply Forall_app in Hs as [Hsp [Hss Hs]%Forall_cons]. apply Forall_app in Hs as [Hspo Hs2]. simpl in Hss.
  pose proof (total_nonneg _ Hsp). pose proof (total_nonneg _ Hspo). pose proof (total_nonneg _ Hs1).
  assert (lives 0 pre = [] /\ forall o, lives o pre = []) as [_ Lpre] by (split; [|intros o]; by destruct Hpre as [->|[n ->]]).
  assert (forall o, lives o post = []) as Lpost by (intros o; by destruct Hpost as [->|[n ->]]).
  assert (total l = total (k1 ++ (false, M) :: k2)) as Ht by (unfold l, M; rewrite !total_app; simpl; rewrite !total_app; simpl; lia).
  assert (lives 0 (k1 ++ (false, M) :: k2) = lives 0 k1 ++ lives (total k1 + M) k2) as L1 by (by rewrite lives_app).
  assert (lives 0 l = lives 0 k1 ++ (total k1 + total pre, size) :: lives (total k1 + M) k2) as L2.
  { unfold l. rewrite lives_app, lives_app, Lpre. simpl. rewrite lives_app, Lpost. simpl. repeat (f_equal; try lia). }
  assert (forall x s, (x, s) ∈ lives 0 (k1 ++ (false, M) :: k2) <-> (x, s) ∈ lives 0 l /\ (x, s) <> (total (k1 ++ pre), size)) as Hmem.
  { intros x s. rewrite L1, L2, total_app, !elem_of_app, elem_of_cons. split.
    - intros [Hx|Hx]; (split; [tauto|intros [= -> ->]]).
      + apply lives_bounds in Hx; [lia|done].
      + apply lives_bounds in Hx; [lia|done].
    - intros [[?|[?|?]] Hne]; tauto. }
  split; [|done]. constructor.
  - cbn. rewrite tile_app. done.
  - apply Forall_app. split; [done|]. constructor; [simpl; lia|done].
  - pose proof (ck_spaced _ _ _ Hc) as Hsa. unfold l in Hsa. rewrite spaced_app in Hsa. rewrite spaced_app. split; [apply Hsa|].
    simpl. rewrite Hk1. done.
  - change (aligned_parts al (k1 ++ (false, M) :: k2)). pose proof (ck_aligned _ _ _ Hc) as Ha. apply aligned_cons. split_and!.
    + intros a s b ->. apply (Ha a s (b ++ pre ++ (true, size) :: post ++ k2)). unfold l. by rewrite <- app_assoc.
    + destruct pre as [|y pre]; [by apply (Ha k1 (true, size) (post ++ k2))|by apply (Ha k1 y (pre ++ (true, size) :: post ++ k2))].
    + intros k x l3 ->. replace (total k1 + M + total k) with (total (k1 ++ pre ++ (true, size) :: post ++ k)).
      * apply (Ha _ x l3). unfold l. rewrite <- !app_assoc. simpl. by rewrite <- !app_assoc.
      * unfold M. rewrite !total_app. simpl. rewrite total_app. lia.
  - cbn. intros x s [Hx _]%Hmem. by apply (ck_max _ _ _ Hc).
  - rewrite <- Ht. apply Hc.
  - apply Hc.
Qed.

(** ** The search for a block to merge with *)

Lemma merge_none off size i b c : free_blocks c !! i = Some b -> 0 <= b_offset b -> 0 <= b_size b -> b_offset b + b_size b <= T_MAX -> 0 <= off ->
  0 <= size -> off + size <= T_MAX -> b_offset b + b_size b <> off -> off + size <> b_offset b -> merge_at off size i c = Some None.
Proof.
  intros Hb H1 H2 H3 H4 H5 H6 N1 N2. pose proof T_MAX_le. unfold merge_at. rewrite Hb. cbn [mbind option_bind].
  rewrite (u64_small (b_offset b + b_size b)), (u64_small (off + size)) by lia.
  rewrite (bool_decide_false (b_offset b + b_size b = off)), (bool_decide_false (off + size = b_offset b)) by lia. done.
Qed.

Lemma free_loop_pass off size ixs1 : forall ixs2 c, (forall i, i ∈ ixs1 -> merge_at off size i c = Some None) ->
  free_loop off size (ixs1 ++ ixs2) c = free_loop off size ixs2 c.
Proof.
  induction ixs1 as [|i ixs1 IH]; intros ixs2 c H; [done|]. simpl. rewrite H by (by left). cbn [mbind option_bind].
  apply IH. intros j Hj. apply H. by right.
Qed.

(** Blocks away from the range, at the front of the list. *)
Lemma free_loop_skip off size A R c : free_blocks c = A ++ R -> 0 <= off -> 0 < size -> off + size <= T_MAX ->
  (forall b, b ∈ A -> 0 <= b_offset b /\ 0 < b_size b /\ b_offset b + b_size b < off) ->
  free_loop off size (seq 0 (length (free_blocks c))) c = free_loop off size (seq (length A) (length R)) c.
Proof.
  intros Hc H1 H2 H3 HA. rewrite Hc, length_app, seq_app. apply free_loop_pass. intros i [_ Hi]%elem_of_seq.
  destruct (lookup_lt_is_Some_2 A i) as [b Hb]; [lia|]. destruct (HA b) as (B1 & B2 & B3); [by eapply list_elem_of_lookup_2|].
  apply (merge_none off size i b); try lia. rewrite Hc. by apply lookup_app_l_Some.
Qed.


Lemma with_blocks_twice bs bs' c : with_blocks bs (with_blocks bs' c) = with_blocks bs c.
Proof. done. Qed.

Lemma remove_middle A x R c : free_blocks c = A ++ x :: R -> (length (free_blocks c) < MAX_FREE_BLOCKS)%nat ->
  ggml_dyn_tallocr_remove_block (length A) c = Some (with_blocks (A ++ R) c).
Proof.
  intros Hc Hlen. unfold ggml_dyn_tallocr_remove_block. rewrite bool_decide_false by lia. by rewrite Hc, delete_middle.
Qed.

Lemma insert_middle {A} (l1 l2 : list A) x y : <[length l1 := y]> (l1 ++ x :: l2) = l1 ++ y :: l2.
Proof. by rewrite insert_app_r_alt, Nat.sub_diag by lia. Qed.

(** The range follows a free block; [next] is the block after that one. *)
Lemma merge_left off size A o p R c : free_blocks c = A ++ mkBlock o p :: R -> (length (free_blocks c) < MAX_FREE_BLOCKS)%nat ->
  0 <= o -> 0 <= p -> o + p = off -> 0 <= size -> off + size <= T_MAX ->
  merge_at off size (length A) c = Some (Some (with_blocks (A ++
    match R with
    | next :: R' => if bool_decide (off + size = b_offset next) then mkBlock o (u64_wrap (p + size + b_size next)) :: R' else mkBlock o (p + size) :: R
    | [] => [mkBlock o (p + size)]
    end) c)).
Proof.
  intros Hc Hlen Ho Hp Hoff Hs Hb. pose proof T_MAX_le. unfold merge_at. rewrite Hc, list_lookup_middle by done. cbn [mbind option_bind b_offset b_size].
  rewrite (u64_small (o + p)), bool_decide_true by lia. rewrite insert_middle. cbn [free_blocks with_blocks].
  replace (S (length A)) with (length A + 1)%nat by lia. rewrite lookup_app_r by lia. replace (length A + 1 - length A)%nat with 1%nat by lia.
  rewrite (u64_small (p + size)) by lia. destruct R as [|next R]; cbn [lookup list_lookup]; [done|]. replace (o + (p + size)) with (off + size) by lia.
  rewrite (u64_small (off + size)) by lia. case_bool_decide as Hn; [|done]. rewrite with_blocks_twice, insert_middle.
  set (blk := mkBlock o (u64_wrap (p + size + b_size next))). assert ((length A + 1)%nat = length (A ++ [blk])) as -> by (rewrite length_app; done).
  rewrite (remove_middle (A ++ [blk]) next R); [|cbn; by rewrite <- app_assoc|cbn; rewrite Hc in Hlen; rewrite !length_app in *; simpl in *; lia].
  cbn [mbind option_bind]. rewrite with_blocks_twice, <- app_assoc. done.
Qed.

(** The range precedes a free block and does not follow one. *)
Lemma merge_right off size A n R c : free_blocks c = A ++ mkBlock (off + size) n :: R -> 0 <= off -> 0 < size -> 0 <= n -> off + size + n <= T_MAX ->
  (forall b, b ∈ A -> 0 <= b_offset b /\ 0 < b_size b /\ b_offset b + b_size b < off) ->
  merge_at off size (length A) c = Some (Some (with_blocks (A ++ mkBlock off (n + size) :: R) c)).
Proof.
  intros Hc H1 H2 H3 H4 HA. pose proof T_MAX_le. unfold merge_at. rewrite Hc, list_lookup_middle by done. cbn [mbind option_bind b_offset b_size].
  rewrite (u64_small (off + size + n)), bool_decide_false by lia. rewrite (u64_small (off + size)), bool_decide_true by lia. rewrite insert_middle, (u64_small (n + size)) by lia.
  destruct (length A) as [|j] eqn:Hj; [done|]. destruct (lookup_lt_is_Some_2 A j) as [b Hb]; [lia|]. cbn [free_blocks with_blocks].
  rewrite (lookup_app_l_Some _ _ _ _ Hb). cbn [mbind option_bind]. destruct (HA b) as (B1 & B2 & B3); [by eapply list_elem_of_lookup_2|].
  rewrite (u64_small (b_offset b + b_size b)), bool_decide_false by lia. done.
Qed.

(** The range touches no block. *)
Lemma insert_between off size A B c : free_blocks c = A ++ B -> (length (free_blocks c) < MAX_FREE_BLOCKS)%nat ->
  (forall b, b ∈ A -> b_offset b < off) -> (forall b, b ∈ B -> off <= b_offset b) ->
  ggml_dyn_tallocr_insert_block off size c = Some (with_blocks (A ++ mkBlock off size :: B) c).
Proof.
  intros Hc Hlen HA HB. unfold ggml_dyn_tallocr_insert_block. rewrite ggml_assert_bd by done. cbn [mbind option_bind]. rewrite Hc. do 2 f_equal.
  clear Hc Hlen. induction A as [|a A IH].
  - destruct B as [|b B]; [done|]. simpl. rewrite bool_decide_false; [done|]. specialize (HB b ltac:(by left)). lia.
  - simpl. rewrite bool_decide_true by (apply HA; by left). f_equal. apply IH. intros b Hb. apply HA. by right.
Qed.


Lemma ends_free_inv p l : ends_free p l = true -> l <> [] -> exists k n, l = k ++ [(false, n)].
Proof.
  destruct l as [|[b n] k] using rev_ind; [done|]. intros He _. rewrite ends_free_app in He. simpl in He. destruct b; [done|]. by exists k, n.
Qed.

(** The segments around a live segment. *)
Lemma neighbours l1 size l2 : spaced false (l1 ++ (true, size) :: l2) -> exists k1 pre post k2, l1 = k1 ++ pre /\ l2 = post ++ k2 /\
  at_most_free pre /\ at_most_free post /\ ends_free false k1 = false /\ spaced true k2.
Proof.
  intros Hsp. apply spaced_app in Hsp as [H1 [_ H2]]. simpl in H2.
  assert (exists k1 pre, l1 = k1 ++ pre /\ at_most_free pre /\ ends_free false k1 = false) as (k1 & pre & -> & Hp & Hk).
  { destruct (ends_free false l1) eqn:He.
    - destruct l1 as [|x l1]; [done|]. destruct (ends_free_inv false (x :: l1) He) as (k & n & Hk); [done|]. rewrite Hk in *.
      exists k, [(false, n)]. split; [done|]. split; [right; by exists n|]. apply spaced_app in H1 as [_ [H1 _]].
      destruct (ends_free false k); [by specialize (H1 eq_refl)|done].
    - exists l1, []. rewrite app_nil_r. split; [done|]. split; [by left|done]. }
  destruct l2 as [|[[] n] l2]; [exists k1, pre, [], []|exists k1, pre, [], ((true, n) :: l2)|exists k1, pre, [(false, n)], l2];
    split_and!; try done; try (by left); try (right; by eexists); simpl in *; tauto.
Qed.

Lemma free_chunk al c l off size : chunk_ok al c l -> (off, size) ∈ lives 0 l -> (length (free_blocks c) < MAX_FREE_BLOCKS)%nat ->
  exists bs l', free_loop off size (seq 0 (length (free_blocks c))) c = Some (with_blocks bs c) /\ chunk_ok al (with_blocks bs c) l' /\ total l' = total l /\
    forall x s, (x, s) ∈ lives 0 l' <-> (x, s) ∈ lives 0 l /\ (x, s) <> (off, size).
Proof.
  intros Hc Hl Hlen. destruct (lives_split _ _ _ _ Hl) as (l1 & l2 & -> & Ho).
  destruct (neighbours l1 size l2) as (k1 & pre & post & k2 & -> & -> & Hpre & Hpost & Hk1 & Hk2); [apply Hc|].
  assert ((k1 ++ pre) ++ (true, size) :: post ++ k2 = k1 ++ pre ++ (true, size) :: post ++ k2) as Heq by (by rewrite <- app_assoc). rewrite Heq in *. clear Heq Hl.
  set (M := total pre + size + total post). set (A := tile 0 k1). set (B := tile (total k1 + M) k2).
  exists (A ++ mkBlock (total k1) M :: B), (k1 ++ (false, M) :: k2).
  destruct (merge_tiling al c k1 pre size post k2 Hpre Hpost Hc Hk1 Hk2 _ eq_refl) as (Hok & Ht & Hmem).
  rewrite Z.add_0_l in Ho. rewrite <- Ho in Hmem. split; [|split_and!; done]. clear Hok Ht Hmem.
  pose proof (ck_sized _ _ _ Hc) as Hs. unfold sized in Hs. rewrite !Forall_app, Forall_cons, Forall_app in Hs. destruct Hs as (Hs1 & Hspre & Hss & Hspost & Hs2). simpl in Hss.
  pose proof (ck_total _ _ _ Hc) as Htot. rewrite !total_app in Htot. simpl in Htot. rewrite total_app in Htot. rewrite total_app in Ho.
  pose proof (total_nonneg _ Hs1). pose proof (total_nonneg _ Hspre). pose proof (total_nonneg _ Hspost). pose proof (total_nonneg _ Hs2).
  assert (forall b, b ∈ A -> 0 <= b_offset b /\ 0 < b_size b /\ b_offset b + b_size b < total k1) as HA.
  { intros b Hb. pose proof (tile_bounds _ _ _ Hs1 Hb). pose proof (tile_before _ _ _ _ Hs1 Hk1 Hb). lia. }
  assert (forall b, b ∈ B -> total k1 + M < b_offset b /\ 0 < b_size b /\ b_offset b + b_size b <= T_MAX) as HB.
  { intros b Hb. pose proof (tile_bounds _ _ _ Hs2 Hb). pose proof (tile_after k2 _ b Hs2 Hk2 Hb). unfold M in *. lia. }
  assert (free_blocks c = A ++ tile (total k1) pre ++ tile (off + size) post ++ B) as Hbs.
  { rewrite (ck_blocks _ _ _ Hc), tile_app. fold A. f_equal. rewrite tile_app. f_equal. simpl. rewrite tile_app. rewrite Ho. f_equal. unfold B, M. f_equal. lia. }
  assert (forall b, b ∈ A -> 0 <= b_offset b /\ 0 < b_size b /\ b_offset b + b_size b < off) as HA' by (intros b Hb; specialize (HA b Hb); lia).
  rewrite (free_loop_skip off size A (tile (total k1) pre ++ tile (off + size) post ++ B)) by (done || lia).
  destruct Hpre as [->|[p ->]].
  - destruct Hpost as [->|[n ->]]; cbn [tile app total foldr snd] in *.
    + replace M with size in * by (unfold M; lia). replace (total k1) with off in * by lia.
      rewrite <- (app_nil_r (seq _ _)), free_loop_pass; [by apply insert_between; [done|done|intros b Hb; specialize (HA b Hb); lia|intros b Hb; specialize (HB b Hb); lia]|].
      intros i [Hi1 Hi2]%elem_of_seq. destruct (lookup_lt_is_Some_2 B (i - length A)%nat) as [b Hb]; [lia|].
      destruct (HB b) as (B1 & B2 & B3); [by eapply list_elem_of_lookup_2|]. apply (merge_none off size i b); try lia.
      by rewrite Hbs, lookup_app_r by lia.
    + cbn [length seq free_loop]. replace M with (n + size) in * by (unfold M; lia). replace (total k1) with off in * by lia.
      rewrite (merge_right off size A n B) by (done || lia). done.
  - cbn [tile app length seq free_loop total foldr snd] in *. rewrite length_app. cbn [length seq free_loop].
    apply Forall_cons in Hspre as [Hp _]. simpl in Hp.
    rewrite (merge_left off size A (total k1) p (tile (off + size) post ++ B)) by (done || lia). cbn [mbind option_bind]. do 3 f_equal.
    destruct Hpost as [->|[n ->]]; cbn [tile app total foldr snd] in *.
    + replace (p + size) with M by (unfold M; lia). destruct B as [|b B']; [done|]. specialize (HB b ltac:(by left)). rewrite bool_decide_false by (unfold M in *; lia). done.
    + rewrite bool_decide_true by done. cbn [b_size]. rewrite u64_small by (pose proof T_MAX_le; lia). f_equal. unfold M. f_equal. lia.
Qed.


(** * The whole allocator *)

(** The size a request takes. *)
Definition padded (al s : Z) : Z := s + (al - s mod al) mod al.

Lemma padded_ok al s : 0 < al -> 0 <= s -> (al | padded al s) /\ s <= padded al s < s + al.
Proof.
  intros Hal Hs. unfold padded. pose proof (Z.mod_pos_bound s al Hal) as Hm. pose proof (Z.mod_pos_bound (al - s mod al) al Hal) as Hm2.
  split; [|lia]. apply Z.mod_divide; [lia|]. destruct (decide (s mod al = 0)) as [Hz|Hz].
  - rewrite Hz, Z.sub_0_r, Z_mod_same_full, Z.add_0_r. done.
  - rewrite (Z.mod_small (al - s mod al)) by lia. rewrite (Z.div_mod s al) at 1 by lia.
    replace (al * (s / al) + s mod al + (al - s mod al)) with ((s / al + 1) * al) by lia. apply Z_mod_mult.
Qed.

Lemma aligned_offset_ok `{BM : BuildMode} al s : is_pow2 al = true -> 0 < al -> 0 <= s -> s + al <= T_MAX -> aligned_offset 0 s al = Some (padded al s).
Proof.
  intros Hp Hal Hs Hle. pose proof T_MAX_le. pose proof (padded_ok al s Hal Hs) as [_ Hb]. unfold aligned_offset. rewrite c_assert_true by done. cbn [mbind option_bind].
  rewrite Z.add_0_l, (u64_small s) by lia. pose proof (Z.mod_pos_bound s al Hal). rewrite (u64_small (al - s mod al)) by lia.
  fold (padded al s). by rewrite u64_small by lia.
Qed.

Definition live_in (segss : list (list segment)) (x : buffer_address) (z : Z) : Prop :=
  exists l, segss !! a_chunk x = Some l /\ (a_offset x, z) ∈ lives 0 l.

Abbreviation allocation := (buffer_address * Z)%type.

(** The invariant: tilings of the chunks, whose live segments are the
    allocations [L] (addresses and requested sizes). *)
Record dyn_ok (a : ggml_dyn_tallocr) (L : list allocation) (segss : list (list segment)) : Prop := {
  dk_chunks : Forall2 (chunk_ok (alignment a)) (chunks a) segss;
  dk_nodup  : NoDup L.*1;
  dk_live   : forall x s, (x, s) ∈ L -> live_in segss x (padded (alignment a) s);
  dk_sizes  : forall x s, (x, s) ∈ L -> 0 < s /\ s + alignment a <= T_MAX;
  dk_only   : forall x z, live_in segss x z -> exists s, (x, s) ∈ L /\ padded (alignment a) s = z;
  dk_align  : is_pow2 (alignment a) = true /\ 0 < alignment a;
  dk_max    : 0 <= max_chunk_size a <= T_MAX;
  dk_count  : (length (chunks a) <= GGML_VBUFFER_MAX_CHUNKS)%nat;
}.

(** Room in the arrays of free blocks. *)
Definition has_room (a : ggml_dyn_tallocr) : Prop := Forall (fun c => length (free_blocks c) < MAX_FREE_BLOCKS)%nat (chunks a).

Lemma live_in_insert segss c l l' x z : segss !! c = Some l ->
  live_in (<[c := l']> segss) x z <-> if decide (a_chunk x = c) then (a_offset x, z) ∈ lives 0 l' else live_in segss x z.
Proof.
  intros Hc. pose proof (lookup_lt_Some _ _ _ Hc) as Hlt. unfold live_in. case_decide as Hx.
  - rewrite Hx, list_lookup_insert_eq by done. split; [by intros (? & [= <-] & ?)|by exists l'].
  - by rewrite list_lookup_insert_ne.
Qed.

Lemma live_in_chunk segss c l x z : segss !! c = Some l -> a_chunk x = c -> live_in segss x z <-> (a_offset x, z) ∈ lives 0 l.
Proof. intros Hc Hx. unfold live_in. rewrite Hx, Hc. split; [by intros (? & [= <-] & ?)|by exists l]. Qed.

Lemma addr_eq x c o : x = mkAddr c o <-> a_chunk x = c /\ a_offset x = o.
Proof. destruct x. simpl. split; [by intros [= -> ->]|by intros [-> ->]]. Qed.

Lemma take_ok a segss c i chunk b size : Forall2 (chunk_ok (alignment a)) (chunks a) segss -> chunks a !! c = Some chunk ->
  free_blocks chunk !! i = Some b -> 0 < size <= b_size b -> (alignment a | size) -> (length (free_blocks chunk) < MAX_FREE_BLOCKS)%nat ->
  let x := mkAddr c (b_offset b) in
  exists cs' segss', take_block (c, i) size a = Some (x, with_chunks cs' a) /\ length cs' = length (chunks a) /\
    Forall2 (chunk_ok (alignment a)) cs' segss' /\ (forall z, ~ live_in segss x z) /\
    forall y z, live_in segss' y z <-> (y = x /\ z = size) \/ live_in segss y z.
Proof.
  intros HF Hc Hb Hsz Hal Hlen x. destruct (Forall2_lookup_l _ _ _ _ _ HF Hc) as (l & Hl & Hok).
  destruct (take_chunk _ _ _ _ _ _ Hok Hb Hsz Hal Hlen) as (c' & l' & Hc' & Hm & Hok' & Hmem).
  exists (<[c := mkChunk (free_blocks c') (Z.max (max_size chunk) (b_offset b + size))]> (chunks a)), (<[c := l']> segss).
  pose proof Hb as Hb2. rewrite (ck_blocks _ _ _ Hok) in Hb2. apply list_elem_of_lookup_2 in Hb2.
  pose proof (tile_bounds _ _ _ (ck_sized _ _ _ Hok) Hb2) as Hbb. pose proof (ck_total _ _ _ Hok) as Ht. pose proof T_MAX_le. split_and!.
  - unfold take_block. rewrite Hc. cbn [mbind option_bind]. rewrite Hb. cbn [mbind option_bind a_offset b_size b_offset].
    rewrite !(u64_small (b_offset b + size)), (u64_small (b_size b - size)) by lia. cbn zeta in Hc'. rewrite Hc'. cbn [mbind option_bind]. by rewrite Hm.
  - apply length_insert.
  - by apply Forall2_insert.
  - intros z (l0 & Hl0 & Hz). simpl in Hl0, Hz. rewrite Hl in Hl0. injection Hl0 as <-.
    pose proof (lives_bounds _ _ _ _ (ck_sized _ _ _ Hok) Hz). pose proof (lives_tile_disjoint _ _ _ _ _ (ck_sized _ _ _ Hok) Hz Hb2). lia.
  - clear Hc'. intros y z. rewrite (live_in_insert _ _ _ _ _ _ Hl). unfold x. rewrite addr_eq. case_decide as Hy.
    + rewrite (live_in_chunk _ _ _ y z Hl Hy). rewrite (Hmem (a_offset y) z). split; [intros [[= -> ->]|?]; tauto|intros [[[_ ->] ->]|?]; tauto].
    + tauto.
Qed.


(** ** The choice of a block *)

Definition fits (cs : list tallocr_chunk) (size : Z) (ci : nat * nat) : Prop :=
  exists chunk b, cs !! ci.1 = Some chunk /\ free_blocks chunk !! ci.2 = Some b /\ size <= b_size b.

Lemma foldl_some {A S} (f : S -> A -> S) (P : S -> Prop) l : (forall s a, a ∈ l -> P s -> P (f s a)) -> forall s, P s -> P (foldl f s l).
Proof. induction l as [|a l IH]; intros Hf s Hs; [done|]. simpl. apply IH; [intros s' a' Ha; apply Hf; by right|]. apply Hf; [by left|done]. Qed.

Lemma pairs_lookup {A} (l : list A) i a : (i, a) ∈ imap pair l -> l !! i = Some a.
Proof. intros (j & x & He & Hx)%elem_of_lookup_imap. by injection He as -> ->. Qed.

Lemma best_fit_fits size cs ci : best_fit size cs = Some ci -> fits cs size ci.
Proof.
  unfold best_fit. cut (forall ci, foldl (fit_chunk size) None (imap pair cs) = Some ci -> fits cs size ci); [auto|].
  apply (foldl_some _ (fun best => forall ci, best = Some ci -> fits cs size ci)); [|done]. intros best [c chunk] Hc%pairs_lookup Hb. unfold fit_chunk. cbn [fst snd].
  apply (foldl_some _ (fun st : option (nat * nat) * Z => forall ci, st.1 = Some ci -> fits cs size ci)); [|done].
  intros [best' sz] [i b] Hi%pairs_lookup Hb'. unfold fit_step. case_bool_decide as Hsz; [|done]. intros ? [= <-]. exists chunk, b. split_and!; [done| |lia].
  cbn [snd]. apply lookup_take_Some in Hi. apply Hi.
Qed.

Lemma best_last_fits size cs ci : best_last size cs = Some ci -> fits cs size ci.
Proof.
  unfold best_last. cut (forall ci, (foldl (reuse_step size) (None, INT64_MIN) (imap pair cs)).1 = Some ci -> fits cs size ci); [auto|].
  apply (foldl_some _ (fun st : option (nat * nat) * Z => forall ci, st.1 = Some ci -> fits cs size ci)); [|done].
  intros [best r] [c chunk] Hc%pairs_lookup Hb. unfold reuse_step. destruct (last (free_blocks chunk)) as [b|] eqn:Hl; [|done].
  case_bool_decide as Hsz; [|done]. cbn [andb]. destruct (_ || _); [|done]. intros ? [= <-]. exists chunk, b. split_and!; [done| |lia].
  cbn [snd]. by rewrite last_lookup, <- Nat.sub_1_r in Hl.
Qed.

(** If neither search finds a block, no block is large enough. *)
Lemma fit_chunk_some size best cc : is_Some best -> is_Some (fit_chunk size best cc).
Proof.
  intros Hb. unfold fit_chunk. apply (foldl_some _ (fun st : option (nat * nat) * Z => is_Some st.1)); [|done].
  intros [b s] [i blk] _ H. unfold fit_step. case_bool_decide; [by eexists|done].
Qed.

Lemma fit_chunk_none size cc i b : 0 <= b_size b <= SIZE_MAX -> (i < length (free_blocks cc.2) - 1)%nat -> free_blocks cc.2 !! i = Some b -> size <= b_size b ->
  forall best, is_Some (fit_chunk size best cc).
Proof.
  intros Hsm Hi Hb Hsz best. unfold fit_chunk. set (l := imap pair (take (length (free_blocks cc.2) - 1) (free_blocks cc.2))).
  assert (exists l1 l2, l = l1 ++ (i, b) :: l2) as (l1 & l2 & ->).
  { apply list_elem_of_split. unfold l. apply (elem_of_lookup_imap_2 pair). by rewrite lookup_take_lt. }
  rewrite foldl_app. simpl. apply (foldl_some _ (fun st : option (nat * nat) * Z => is_Some st.1)).
  - intros [b' s] [j blk] _ H. unfold fit_step. case_bool_decide; [by eexists|done].
  - assert (forall st : option (nat * nat) * Z, (is_Some st.1 \/ st = (best, SIZE_MAX)) -> is_Some (fit_step size cc.1 (i, b) st).1) as Hstep.
    { intros [b' s] [H|[= -> ->]]; unfold fit_step; case_bool_decide; [by eexists|done|by eexists|lia]. }
    apply Hstep. apply (foldl_some _ (fun st : option (nat * nat) * Z => is_Some st.1 \/ st = (best, SIZE_MAX))); [|by right].
    intros [b' s] [j blk] _ H. unfold fit_step. case_bool_decide; [left; by eexists|done].
Qed.

Lemma best_fit_none size cs : best_fit size cs = None -> forall c chunk i b, cs !! c = Some chunk -> free_blocks chunk !! i = Some b ->
  0 <= b_size b <= SIZE_MAX -> (i < length (free_blocks chunk) - 1)%nat -> b_size b < size.
Proof.
  intros Hn c chunk i b Hc Hb Hsm Hi. destruct (Z_lt_le_dec (b_size b) size) as [|Hle]; [done|]. exfalso.
  assert (is_Some (best_fit size cs)) as [x Hx]; [|congruence]. unfold best_fit.
  assert (exists l1 l2, imap pair cs = l1 ++ (c, chunk) :: l2) as (l1 & l2 & ->) by (apply list_elem_of_split; by apply (elem_of_lookup_imap_2 pair)).
  rewrite foldl_app. simpl. apply (foldl_some _ is_Some); [intros s a _; apply fit_chunk_some|]. by apply (fit_chunk_none size (c, chunk) i b).
Qed.

Lemma reuse_step_cond size st c chunk b : last (free_blocks chunk) = Some b -> size <= b_size b -> 
  (st.1 = None -> st.2 = INT64_MIN) -> INT64_MIN < to_i64 (u64_wrap (u64_wrap (max_size chunk - b_offset b) - size)) ->
  is_Some (reuse_step size st (c, chunk)).1.
Proof.
  intros Hl Hsz Hst Hr. unfold reuse_step. destruct st as [best r]. rewrite Hl, bool_decide_true by done. cbn [andb fst snd] in *.
  destruct (_ || _) eqn:Hor; [by eexists|]. destruct best as [x|]; [by eexists|]. exfalso. rewrite (Hst eq_refl) in Hor.
  apply orb_false_elim in Hor as [Hor _]. apply bool_decide_eq_false in Hor. apply Hor. unfold INT64_MIN in *. lia.
Qed.

Lemma best_last_none size cs : best_last size cs = None -> forall c chunk b, cs !! c = Some chunk -> last (free_blocks chunk) = Some b ->
  INT64_MIN < to_i64 (u64_wrap (u64_wrap (max_size chunk - b_offset b) - size)) -> b_size b < size.
Proof.
  intros Hn c chunk b Hc Hb Hr. destruct (Z_lt_le_dec (b_size b) size) as [|Hle]; [done|]. exfalso.
  assert (is_Some (best_last size cs)) as [x Hx]; [|congruence]. unfold best_last.
  assert (exists l1 l2, imap pair cs = l1 ++ (c, chunk) :: l2) as (l1 & l2 & ->) by (apply list_elem_of_split; by apply (elem_of_lookup_imap_2 pair)).
  assert (forall st cc, is_Some (st.1 : option (nat * nat)) -> is_Some (reuse_step size st cc).1) as Hkeep.
  { intros [best r] [c' chunk'] H. unfold reuse_step. destruct (last (free_blocks chunk')); [|done]. cbv zeta. destruct (_ && _); [by eexists|done]. }
  rewrite foldl_app. simpl. apply (foldl_some _ (fun st : option (nat * nat) * Z => is_Some st.1)); [intros st cc _; apply Hkeep|].
  apply (reuse_step_cond size _ c chunk b); [done|done| |done].
  apply (foldl_some _ (fun st : option (nat * nat) * Z => st.1 = None -> st.2 = INT64_MIN)); [|done].
  intros [best r] [c' chunk'] _ H. unfold reuse_step. destruct (last (free_blocks chunk')); [|done]. cbv zeta. destruct (_ && _); [done|done].
Qed.


(** ** Requests *)

Lemma i64_diff m o n : - T_MAX <= m - o - n <= T_MAX -> to_i64 (u64_wrap (u64_wrap (m - o) - n)) = m - o - n.
Proof.
  change T_MAX with 9223372036854775807. intros Hr. assert (u64_wrap (u64_wrap (m - o) - n) = (m - o - n) mod 18446744073709551616) as ->.
  { unfold u64_wrap. by rewrite Zminus_mod_idemp_l. }
  unfold to_i64. destruct (Z_lt_le_dec (m - o - n) 0).
  - rewrite <- (Z_mod_plus_full _ 1), Z.mod_small, bool_decide_false by lia. lia.
  - rewrite Z.mod_small, bool_decide_true by lia. done.
Qed.

Lemma none_fits al cs segss size : Forall2 (chunk_ok al) cs segss -> 0 < size <= T_MAX -> best_fit size cs = None -> best_last size cs = None ->
  forall chunk b, chunk ∈ cs -> b ∈ free_blocks chunk -> b_size b < size.
Proof.
  intros HF Hsz Hf Hl chunk b Hc Hb. apply list_elem_of_lookup_1 in Hc as [c Hc]. destruct (Forall2_lookup_l _ _ _ _ _ HF Hc) as (l & Hll & Hok).
  assert (0 <= b_offset b /\ 0 < b_size b /\ b_offset b + b_size b <= T_MAX) as Hbb.
  { pose proof (ck_total _ _ _ Hok). rewrite (ck_blocks _ _ _ Hok) in Hb. pose proof (tile_bounds _ _ _ (ck_sized _ _ _ Hok) Hb). lia. }
  pose proof T_MAX_le. apply list_elem_of_lookup_1 in Hb as [i Hi]. pose proof (lookup_lt_Some _ _ _ Hi) as Hlt.
  destruct (decide (i < length (free_blocks chunk) - 1)%nat) as [Hlt2|Hge].
  - apply (best_fit_none size cs Hf c chunk i b Hc Hi); [lia|done].
  - destruct (Z_lt_le_dec (b_size b) size) as [|Hle]; [done|]. apply (best_last_none size cs Hl c chunk b Hc).
    + rewrite last_lookup. replace (pred (length (free_blocks chunk))) with i by lia. done.
    + pose proof (ck_max_rng _ _ _ Hok). rewrite i64_diff by lia. change INT64_MIN with (- T_MAX - 1). lia.
Qed.

Section Allocator.
Context `{BM : BuildMode}.

Lemma dyn_take a L segss ci chunk b s : dyn_ok a L segss -> has_room a -> 0 < s -> s + alignment a <= T_MAX ->
  chunks a !! ci.1 = Some chunk -> free_blocks chunk !! ci.2 = Some b -> padded (alignment a) s <= b_size b ->
  exists x a' segss', take_block ci (padded (alignment a) s) a = Some (x, a') /\ dyn_ok a' ((x, s) :: L) segss' /\ alignment a' = alignment a.
Proof.
  intros Hok Hroom Hs Hsa Hc Hb Hfit. destruct (dk_align _ _ _ Hok) as [Hp Hal]. destruct (padded_ok (alignment a) s Hal) as [Hdiv Hpad]; [lia|].
  destruct ci as [c i]. cbn [fst snd] in *. unfold has_room in Hroom. rewrite Forall_lookup in Hroom. pose proof (Hroom _ _ Hc) as Hlen.
  destruct (take_ok a segss c i chunk b (padded (alignment a) s) (dk_chunks _ _ _ Hok) Hc Hb ltac:(lia) Hdiv Hlen) as (cs' & segss' & E & Hcnt & HF & Hfresh & Hmem).
  exists (mkAddr c (b_offset b)), (with_chunks cs' a), segss'. split; [exact E|]. split; [|done]. constructor; cbn [alignment with_chunks chunks max_chunk_size]; [done| | | | |apply Hok|apply Hok|rewrite Hcnt; apply Hok].
  - simpl. constructor; [|apply Hok]. intros (y & He & Hin)%list_elem_of_fmap. destruct y as [y t]. simpl in He. subst y.
    apply (Hfresh (padded (alignment a) t)). by apply (dk_live _ _ _ Hok).
  - intros y t [[= -> ->]|Hin]%elem_of_cons; apply Hmem; [by left|right; by apply (dk_live _ _ _ Hok)].
  - intros y t [[= -> ->]|Hin]%elem_of_cons; [done|by apply (dk_sizes _ _ _ Hok) in Hin].
  - intros y z [[-> ->]|Hl]%Hmem; [exists s; split; [by left|done]|]. destruct (dk_only _ _ _ Hok _ _ Hl) as (t & Ht & He). exists t. split; [by right|done].
Qed.

(** A chunk more. *)
Lemma dyn_grow a L segss size : dyn_ok a L segss -> 0 < size <= T_MAX -> (length (chunks a) < GGML_VBUFFER_MAX_CHUNKS)%nat ->
  exists a' sz, ggml_dyn_tallocr_new_chunk size a = (Some (length (chunks a)), a') /\ alignment a' = alignment a /\
    chunks a' = chunks a ++ [mkChunk [mkBlock 0 sz] 0] /\ size <= sz /\ dyn_ok a' L (segss ++ [[(false, sz)]]).
Proof.
  intros Hok Hsz Hlen. unfold ggml_dyn_tallocr_new_chunk. rewrite bool_decide_false by lia. pose proof (dk_max _ _ _ Hok) as Hm.
  set (sz := if bool_decide (length (chunks a) = GGML_VBUFFER_MAX_CHUNKS - 1)%nat then SIZE_MAX / 2 else Z.max size (max_chunk_size a)).
  assert (size <= sz <= T_MAX) as Hs by (unfold sz; case_bool_decide; unfold T_MAX in *; lia). eexists _, sz. split; [reflexivity|]. cbn. split_and!; [done|done|lia|].
  assert (chunk_ok (alignment a) (mkChunk [mkBlock 0 sz] 0) [(false, sz)]) as Hck.
  { constructor; [done| |done| | |simpl; lia|change T_MAX with 9223372036854775807; simpl; lia].
    - constructor; [simpl; lia|constructor].
    - intros [|y l1] x l2 He; [apply Z.divide_0_r|]. injection He as _ He. by apply app_cons_not_nil in He.
    - intros x t Hx. by apply elem_of_nil in Hx. }
  assert (length segss = length (chunks a)) as Hls by (symmetry; eapply Forall2_length; apply Hok).
  assert (forall x z, live_in (segss ++ [[(false, sz)]]) x z <-> live_in segss x z) as Hlive.
  { intros x z. unfold live_in. split; intros (l & Hl & Hx); [|exists l; split; [by apply lookup_app_l_Some|done]].
    apply lookup_app_Some in Hl as [Hl|[_ Hl]]; [by exists l|]. apply list_lookup_singleton_Some in Hl as [_ <-]. by apply elem_of_nil in Hx. }
  constructor; cbn; [|apply (dk_nodup _ _ _ Hok)| |apply (dk_sizes _ _ _ Hok)| |apply (dk_align _ _ _ Hok)|apply (dk_max _ _ _ Hok)|].
  - apply Forall2_app; [apply Hok|constructor; [exact Hck|constructor]].
  - intros x t Hx. apply Hlive. by apply (dk_live _ _ _ Hok).
  - intros x z Hx%Hlive. by apply (dk_only _ _ _ Hok).
  - rewrite length_app. simpl. lia.
Qed.

(** A request is served, or the allocator is full. *)
Lemma alloc_ok a L segss s : dyn_ok a L segss -> has_room a -> 0 < s -> s + alignment a <= T_MAX ->
  (exists x a' segss', ggml_dyn_tallocr_alloc s a = Some (x, a') /\ dyn_ok a' ((x, s) :: L) segss' /\ alignment a' = alignment a) \/
  (ggml_dyn_tallocr_alloc s a = None /\ length (chunks a) = GGML_VBUFFER_MAX_CHUNKS /\
   forall chunk b, chunk ∈ chunks a -> b ∈ free_blocks chunk -> b_size b < padded (alignment a) s).
Proof.
  intros Hok Hroom Hs Hsa. destruct (dk_align _ _ _ Hok) as [Hp Hal]. destruct (padded_ok (alignment a) s Hal) as [Hdiv Hpad]; [lia|].
  unfold ggml_dyn_tallocr_alloc. rewrite aligned_offset_ok by (done || lia). cbn [mbind option_bind].
  destruct (match best_fit _ _ with Some b => Some b | None => best_last _ _ end) as [ci|] eqn:Hbest.
  - left. assert (fits (chunks a) (padded (alignment a) s) ci) as (chunk & b & Hc & Hb & Hfit).
    { destruct (best_fit _ _) eqn:Hbf; [injection Hbest as ->; by apply best_fit_fits|by apply best_last_fits]. }
    by apply (dyn_take a L segss ci chunk b).
  - destruct (best_fit _ _) eqn:Hbf; [done|]. destruct (decide (length (chunks a) < GGML_VBUFFER_MAX_CHUNKS)%nat) as [Hlt|Hge].
    + left. destruct (dyn_grow a L segss (padded (alignment a) s) Hok) as (a1 & sz & Hnew & Hal1 & Hcs & Hsz & Hok1); [lia|done|].
      rewrite Hnew. cbn [mbind option_bind]. rewrite <- Hal1. destruct (dyn_take a1 L _ (length (chunks a), 0%nat) (mkChunk [mkBlock 0 sz] 0) (mkBlock 0 sz) s Hok1)
        as (x & a' & segss' & E & Hok' & Ha'); [|done|by rewrite Hal1|cbn; rewrite Hcs; by rewrite list_lookup_middle|done|by rewrite Hal1|].
      * unfold has_room. rewrite Hcs. apply Forall_app. split; [done|]. constructor; [simpl; unfold MAX_FREE_BLOCKS; lia|constructor].
      * exists x, a', segss'. split; [exact E|]. split; [exact Hok'|exact Ha'].
    + right. pose proof (dk_count _ _ _ Hok). split_and!; [|lia|].
      * unfold ggml_dyn_tallocr_new_chunk. rewrite bool_decide_true by lia. done.
      * apply (none_fits (alignment a) _ segss); [apply Hok|lia|done|done].
Qed.


(** A live allocation can be freed. *)
Lemma free_ok a L1 x s L2 segss : dyn_ok a (L1 ++ (x, s) :: L2) segss -> has_room a ->
  exists a' segss', ggml_dyn_tallocr_free_bytes x s a = Some a' /\ dyn_ok a' (L1 ++ L2) segss' /\ alignment a' = alignment a /\
    total <$> segss' = total <$> segss.
Proof.
  intros Hok Hroom. destruct (dk_align _ _ _ Hok) as [Hp Hal].
  assert ((x, s) ∈ L1 ++ (x, s) :: L2) as Hin by set_solver. destruct (dk_sizes _ _ _ Hok _ _ Hin) as [Hs Hsa].
  destruct (dk_live _ _ _ Hok _ _ Hin) as (l & Hl & Hx). destruct (Forall2_lookup_r _ _ _ _ _ (dk_chunks _ _ _ Hok) Hl) as (c & Hc & Hck).
  unfold has_room in Hroom. rewrite Forall_lookup in Hroom. destruct (free_chunk _ _ _ _ _ Hck Hx (Hroom _ _ Hc)) as (bs & l' & Hfree & Hck' & Ht & Hmem).
  exists (with_chunks (<[a_chunk x := with_blocks bs c]> (chunks a)) a), (<[a_chunk x := l']> segss).
  assert (forall y z, live_in (<[a_chunk x := l']> segss) y z <-> live_in segss y z /\ (y, z) <> (x, padded (alignment a) s)) as Hlive.
  { intros y z. rewrite (live_in_insert _ _ _ _ _ _ Hl). case_decide as Hy.
    - rewrite (live_in_chunk _ _ _ y z Hl Hy), (Hmem (a_offset y) z). destruct x as [xc xo], y as [yc yo]. simpl in *. subst yc. split; intros [H1 H2]; (split; [done|]); congruence.
    - split; [intros H; split; [done|intros [= -> _]; done]|tauto]. }
  assert (NoDup (L1.*1 ++ x :: L2.*1)) as Hnd by (pose proof (dk_nodup _ _ _ Hok) as H; by rewrite fmap_app in H).
  split_and!.
  - unfold ggml_dyn_tallocr_free_bytes. rewrite aligned_offset_ok by (done || lia). cbn [mbind option_bind]. rewrite Hc. cbn [mbind option_bind]. by rewrite Hfree.
  - constructor; cbn; [by apply Forall2_insert; [apply Hok|]| | | | |apply (dk_align _ _ _ Hok)|apply (dk_max _ _ _ Hok)|rewrite length_insert; apply Hok].
    + rewrite fmap_app. by apply NoDup_app in Hnd as (N1 & N2 & [_ N3]%NoDup_cons); apply NoDup_app; split_and!; [done|set_solver|done].
    + intros y t Hy. apply Hlive. split; [apply (dk_live _ _ _ Hok); set_solver|]. intros [= -> _].
      assert (x ∈ L1.*1 ++ L2.*1) as Hx'; [rewrite <- fmap_app; apply list_elem_of_fmap; by exists (x, t)|].
      assert (NoDup (x :: (L1.*1 ++ L2.*1))) as Hnd2 by (rewrite Permutation_middle; exact Hnd). by apply NoDup_cons in Hnd2 as [? _].
    + intros y t Hy. apply (dk_sizes _ _ _ Hok y). set_solver.
    + intros y z [Hlv Hne]%Hlive. destruct (dk_only _ _ _ Hok _ _ Hlv) as (t & Hy & He). exists t. split; [|done].
      rewrite elem_of_app, elem_of_cons in Hy. rewrite elem_of_app. destruct Hy as [?|[[= -> ->]|?]]; [by left|by subst z|by right].
  - done.
  - rewrite list_fmap_insert, Ht. apply list_insert_id. by rewrite list_lookup_fmap, Hl.
Qed.

(** * Runs *)

(** The states a client reaches that frees only what it allocated, once, and the
    allocations it holds. *)
Inductive run (align max_buffer_size : Z) : ggml_dyn_tallocr -> list allocation -> Prop :=
  | run_new : run align max_buffer_size (ggml_dyn_tallocr_new align max_buffer_size) []
  | run_alloc a L s x a' : run align max_buffer_size a L -> has_room a -> 0 < s -> s + align <= T_MAX ->
      ggml_dyn_tallocr_alloc s a = Some (x, a') -> run align max_buffer_size a' ((x, s) :: L)
  | run_free a L1 x s L2 a' : run align max_buffer_size a (L1 ++ (x, s) :: L2) -> has_room a ->
      ggml_dyn_tallocr_free_bytes x s a = Some a' -> run align max_buffer_size a' (L1 ++ L2).

Lemma run_ok align max_buffer_size a L : is_pow2 align = true -> 0 < align -> 0 <= max_buffer_size -> run align max_buffer_size a L ->
  alignment a = align /\ exists segss, dyn_ok a L segss.
Proof.
  intros Hp Hal Hm. induction 1 as [|a L s x a' _ [<- (segss & Hok)] Hroom Hs Hsa Halloc|a L1 x s L2 a' _ [<- (segss & Hok)] Hroom Hfree].
  - split; [done|]. exists []. constructor; cbn; [constructor|constructor|intros x s Hx; by apply elem_of_nil in Hx|intros x s Hx; by apply elem_of_nil in Hx| |done| |unfold GGML_VBUFFER_MAX_CHUNKS; lia].
    + intros x z (l & Hl & _). done.
    + change (SIZE_MAX / 2) with T_MAX. assert (0 < T_MAX) by done. lia.
  - destruct (alloc_ok a L segss s Hok Hroom Hs Hsa) as [(x2 & a2 & segss' & E & Hok' & Ha)|[E _]]; rewrite Halloc in E; [|done].
    injection E as <- <-. split; [done|by exists segss'].
  - destruct (free_ok a L1 x s L2 segss Hok Hroom) as (a2 & segss' & E & Hok' & Ha & _). rewrite Hfree in E. injection E as <-. split; [done|by exists segss'].
Qed.

(** [a] and [b] bytes from [x] and [y] on do not overlap. *)
Definition apart (x : Z) (a : Z) (y : Z) (b : Z) : Prop := x + a <= y \/ y + b <= x.

(** C21: the dynamic tensor allocator is safe.  In every state a client reaches by
    allocating and by freeing what it holds, each allocation is aligned and lies in
    its chunk below the recorded maximal size, two allocations of a chunk do not
    overlap, and no free block overlaps an allocation. *)
Theorem tallocr_run_safe align max_buffer_size a L : is_pow2 align = true -> 0 < align -> 0 <= max_buffer_size -> run align max_buffer_size a L ->
  (forall x s, (x, s) ∈ L -> (align | a_offset x) /\ 0 <= a_offset x /\ a_offset x + s <= ggml_dyn_tallocr_max_size a (a_chunk x)) /\
  (forall i j x s y t, L !! i = Some (x, s) -> L !! j = Some (y, t) -> i <> j -> a_chunk x = a_chunk y -> apart (a_offset x) s (a_offset y) t) /\
  (forall x s c b, (x, s) ∈ L -> chunks a !! a_chunk x = Some c -> b ∈ free_blocks c -> 0 < b_size b /\ apart (a_offset x) s (b_offset b) (b_size b)).
Proof.
  intros Hp Hal Hm Hrun. destruct (run_ok _ _ _ _ Hp Hal Hm Hrun) as [Ha (segss & Hok)].
  assert (forall x s, (x, s) ∈ L -> exists c l z, chunks a !! a_chunk x = Some c /\ segss !! a_chunk x = Some l /\ chunk_ok align c l /\ (a_offset x, z) ∈ lives 0 l /\ s <= z) as Hlive.
  { intros x s Hx. destruct (dk_live _ _ _ Hok _ _ Hx) as (l & Hl & Hz). destruct (Forall2_lookup_r _ _ _ _ _ (dk_chunks _ _ _ Hok) Hl) as (c & Hc & Hck).
    rewrite Ha in *. destruct (dk_sizes _ _ _ Hok _ _ Hx) as [Hs _]. destruct (padded_ok align s Hal) as [_ Hpad]; [lia|]. eexists c, l, _. split_and!; [done..|lia]. }
  split_and!.
  - intros x s Hx. destruct (Hlive x s Hx) as (c & l & z & Hc & Hl & Hck & Hz & Hle). unfold ggml_dyn_tallocr_max_size. rewrite Hc.
    pose proof (lives_bounds _ _ _ _ (ck_sized _ _ _ Hck) Hz). pose proof (ck_max _ _ _ Hck _ _ Hz). split_and!; [|lia|lia].
    destruct (lives_split _ _ _ _ Hz) as (l1 & l2 & Hll & Ho). rewrite Ho, Z.add_0_l. by apply (ck_aligned _ _ _ Hck l1 (true, z) l2).
  - intros i j x s y t Hi Hj Hij Hxy. pose proof (list_elem_of_lookup_2 _ _ _ Hi) as Hx. pose proof (list_elem_of_lookup_2 _ _ _ Hj) as Hy.
    destruct (Hlive x s Hx) as (c & l & z & Hc & Hl & Hck & Hz & Hle). destruct (Hlive y t Hy) as (c2 & l2 & z2 & Hc2 & Hl2 & Hck2 & Hz2 & Hle2).
    rewrite <- Hxy, Hl in Hl2. injection Hl2 as <-. destruct (lives_disjoint _ _ _ _ _ _ (ck_sized _ _ _ Hck) Hz Hz2) as [[Heq _]|Hd]; [|unfold apart; lia].
    exfalso. apply Hij. apply (NoDup_lookup _ i j x (dk_nodup _ _ _ Hok)); rewrite list_lookup_fmap; [by rewrite Hi|]. rewrite Hj. simpl. f_equal.
    destruct x, y. simpl in *. by subst.
  - intros x s c b Hx Hc Hb. destruct (Hlive x s Hx) as (c2 & l & z & Hc2 & Hl & Hck & Hz & Hle). rewrite Hc in Hc2. injection Hc2 as <-.
    rewrite (ck_blocks _ _ _ Hck) in Hb. pose proof (tile_bounds _ _ _ (ck_sized _ _ _ Hck) Hb). pose proof (lives_tile_disjoint _ _ _ _ _ (ck_sized _ _ _ Hck) Hz Hb).
    unfold apart. split; lia.
Qed.

(** C22: the allocator makes progress.  From every such state with room in the
    arrays of free blocks, a request is served unless all chunks exist and no free
    block is large enough; everything held can be freed; and when nothing is held,
    each chunk is a single free block that starts at 0. *)
Theorem tallocr_run_progress align max_buffer_size a L : is_pow2 align = true -> 0 < align -> 0 <= max_buffer_size -> run align max_buffer_size a L -> has_room a ->
  (forall s, 0 < s -> s + align <= T_MAX -> is_Some (ggml_dyn_tallocr_alloc s a) \/
     (length (chunks a) = GGML_VBUFFER_MAX_CHUNKS /\ forall c b, c ∈ chunks a -> b ∈ free_blocks c -> b_size b < padded align s)) /\
  (forall x s, (x, s) ∈ L -> is_Some (ggml_dyn_tallocr_free_bytes x s a)) /\
  (L = [] -> forall c, c ∈ chunks a -> exists sz, free_blocks c = [mkBlock 0 sz]).
Proof.
  intros Hp Hal Hm Hrun Hroom. destruct (run_ok _ _ _ _ Hp Hal Hm Hrun) as [Ha (segss & Hok)]. split_and!.
  - intros s Hs Hsa. rewrite <- Ha in Hsa. destruct (alloc_ok a L segss s Hok Hroom Hs Hsa) as [(x & a' & ? & -> & _)|(_ & Hlen & Hno)]; [left; by eexists|right].
    rewrite Ha in Hno. done.
  - intros x s Hx. apply list_elem_of_split in Hx as (L1 & L2 & ->). destruct (free_ok a L1 x s L2 segss Hok Hroom) as (a' & ? & -> & _). by eexists.
  - intros -> c Hc. apply list_elem_of_lookup_1 in Hc as [i Hc]. destruct (Forall2_lookup_l _ _ _ _ _ (dk_chunks _ _ _ Hok) Hc) as (l & Hl & Hck).
    assert (forall o z, (o, z) ∈ lives 0 l -> False) as Hnone.
    { intros o z Hz. destruct (dk_only _ _ _ Hok (mkAddr i o) z) as (s & Hs & _); [by exists l|by apply elem_of_nil in Hs]. }
    rewrite (ck_blocks _ _ _ Hck). pose proof (ck_total _ _ _ Hck) as Ht. pose proof (ck_spaced _ _ _ Hck) as Hsp. clear -Hnone Ht Hsp.
    destruct l as [|[[] z] l]; simpl in Ht; [lia|exfalso; apply (Hnone 0 z); by left|]. destruct l as [|[[] z2] l]; [by exists z| |].
    + exfalso. apply (Hnone (0 + z) z2). by left.
    + simpl in Hsp. destruct Hsp as (_ & H & _). by specialize (H eq_refl).
Qed.
End Allocator.


(** * A run: two allocations, the first is freed *)

#[local] Existing Instance debug_build.

Definition two_tensors : ggml_dyn_tallocr := mkDyn 32 4096 [mkChunk [mkBlock 0 128; mkBlock 192 3904] 192].

Lemma two_tensors_run : run 32 4096 two_tensors [(mkAddr 0 128, 64)].
Proof.
  assert (run 32 4096 (mkDyn 32 4096 [mkChunk [mkBlock 192 3904] 192]) [(mkAddr 0 128, 64); (mkAddr 0 0, 100)]) as H.
  { apply (run_alloc _ _ (mkDyn 32 4096 [mkChunk [mkBlock 128 3968] 128])); [|apply (bool_decide_unpack _); vm_compute; exact I|lia|vm_compute; congruence|vm_compute; reflexivity].
    apply (run_alloc _ _ (ggml_dyn_tallocr_new 32 4096)); [apply run_new|apply (bool_decide_unpack _); vm_compute; exact I|lia|vm_compute; congruence|vm_compute; reflexivity]. }
  apply (run_free 32 4096 _ [(mkAddr 0 128, 64)] (mkAddr 0 0) 100 [] _ H); [apply (bool_decide_unpack _); vm_compute; exact I|vm_compute; reflexivity].
Qed.

Lemma tallocr_run_safe_witness :
  (32 | 128) /\ 0 <= 128 /\ 128 + 64 <= ggml_dyn_tallocr_max_size two_tensors 0.
Proof.
  destruct (tallocr_run_safe 32 4096 two_tensors _ eq_refl ltac:(lia) ltac:(lia) two_tensors_run) as (H & _).
  apply (H (mkAddr 0 128) 64). left.
Defined.

Lemma tallocr_run_progress_witness : is_Some (ggml_dyn_tallocr_alloc 100 two_tensors).
Proof.
  destruct (tallocr_run_progress 32 4096 two_tensors _ eq_refl ltac:(lia) ltac:(lia) two_tensors_run) as (H & _).
  - apply (bool_decide_unpack _). vm_compute. exact I.
  - destruct (H 100) as [Hok|[Hlen _]]; [lia|vm_compute; congruence|exact Hok|discriminate Hlen].
Defined.

End TensorAllocOk.
