(* ===== verification/GgmlTensor.v ===== *)
(** Tensors of ggml: the table of types, the layout queries, the memory pool of a
    context and the constructors of tensors and views of [ggml/src/ggml.c].  A
    tensor has four dimensions [ne] and four strides in bytes [nb]; quantized
    types store [blck_size] elements in [type_size] bytes. *)

From S2P Require Import Prelude.
From S2P Require Import TensorAlloc.
Import TensorAlloc.TensorAlloc.

Module GgmlTensor.
Local Open Scope Z_scope.

(** * Arithmetic

    [int64_t] overflow and division by zero have no value. *)

Definition INT64_MAX : Z := 9223372036854775807.
Definition i64_chk (z : Z) : option Z := if bool_decide (- INT64_MAX - 1 <= z <= INT64_MAX) then Some z else None.
Definition c_div (a b : Z) : option Z := if bool_decide (b = 0) then None else Some (Z.quot a b).
Definition c_rem (a b : Z) : option Z := if bool_decide (b = 0) then None else Some (Z.rem a b).

(** [(int) z]. *)
Definition to_int (z : Z) : Z := let u := z mod 4294967296 in if bool_decide (u < 2147483648) then u else u - 4294967296.

(** * Types *)

Definition GGML_MAX_DIMS : nat := 4.
Definition GGML_TYPE_COUNT : Z := 40.

Record ggml_type_traits := mkTraits { blck_size : Z; type_size : Z; is_quantized : bool }.

Definition QK_K : Z := 256.
Definition QK : Z := 32.
Definition K_SCALE_SIZE : Z := 12.
Definition sizeof_half : Z := 2.

Definition scalar (size : Z) := mkTraits 1 size false.
Definition small_block (size : Z) := mkTraits QK size true.
Definition super_block (size : Z) := mkTraits QK_K size true.
Definition removed := mkTraits 0 0 false.

(** In the order of [enum ggml_type]; the sizes of the blocks are those the
    static assertions of [ggml-common.h] state. *)
Definition type_traits : list ggml_type_traits :=
  [ scalar 4; scalar 2;
    small_block (sizeof_half + QK / 2); small_block (2 * sizeof_half + QK / 2);
    removed; removed;
    small_block (sizeof_half + 4 + QK / 2); small_block (2 * sizeof_half + 4 + QK / 2);
    small_block (sizeof_half + QK); small_block (2 * sizeof_half + QK);
    super_block (2 * sizeof_half + QK_K / 16 + QK_K / 4);
    super_block (sizeof_half + QK_K / 4 + QK_K / 8 + 12);
    super_block (2 * sizeof_half + K_SCALE_SIZE + QK_K / 2);
    super_block (2 * sizeof_half + K_SCALE_SIZE + QK_K / 2 + QK_K / 8);
    super_block (sizeof_half + QK_K / 16 + 3 * QK_K / 4);
    super_block (4 + QK_K + QK_K / 16 * 2);
    super_block (sizeof_half + QK_K / 8 * 2);
    super_block (sizeof_half + QK_K / 8 * 2 + QK_K / 32);
    super_block (sizeof_half + 3 * (QK_K / 8));
    super_block (sizeof_half + QK_K / 8 + QK_K / 16);
    small_block (sizeof_half + QK / 2);
    super_block (sizeof_half + 13 * (QK_K / 32) + QK_K / 64);
    super_block (sizeof_half + QK_K / 4 + QK_K / 16);
    super_block (sizeof_half + 2 + QK_K / 64 + QK_K / 2);
    scalar 1; scalar 2; scalar 4; scalar 8; scalar 8;
    super_block (QK_K / 8 + QK_K / 16 + QK_K / 32);
    scalar 2;
    removed; removed; removed;
    super_block (sizeof_half + QK_K / 64 + (QK_K - 4 * QK_K / 64) / 5);
    super_block (sizeof_half + QK_K / 4);
    removed; removed; removed;
    small_block (1 + QK / 2) ].

Definition ggml_get_type_traits (type : Z) : option ggml_type_traits :=
  GGML_ASSERT bool_decide (0 <= type < GGML_TYPE_COUNT);
  type_traits !! Z.to_nat type.

(** [type_traits[type].blck_size] without the assertion: out of range is
    undefined all the same. *)
Definition ggml_blck_size (type : Z) : option Z := blck_size <$> ggml_get_type_traits type.
Definition ggml_type_size (type : Z) : option Z := type_size <$> ggml_get_type_traits type.
Definition ggml_is_quantized (type : Z) : option bool := is_quantized <$> ggml_get_type_traits type.

(** * Tensors *)

Inductive ggml_op := GGML_OP_NONE | GGML_OP_CONT | GGML_OP_RESHAPE | GGML_OP_VIEW | GGML_OP_PERMUTE | GGML_OP_TRANSPOSE.

(** Pointers are addresses, NULL is [None].  [src] is [src[0]], the only source
    of the operators above. *)
Record ggml_tensor := mkT {
  t_type    : Z;
  t_ne      : list Z;
  t_nb      : list Z;
  op        : ggml_op;
  src       : option Z;
  view_src  : option Z;
  view_offs : Z;
  data      : option Z;
}.

Definition ne (t : ggml_tensor) (i : nat) : Z := nth i (t_ne t) 0.
Definition nb (t : ggml_tensor) (i : nat) : Z := nth i (t_nb t) 0.
Definition dims : list nat := seq 0 GGML_MAX_DIMS.

(** ** Queries *)

Definition ggml_nelements (t : ggml_tensor) : option Z :=
  a ← i64_chk (ne t 0 * ne t 1); b ← i64_chk (a * ne t 2); i64_chk (b * ne t 3).

Definition ggml_nrows (t : ggml_tensor) : option Z := a ← i64_chk (ne t 1 * ne t 2); i64_chk (a * ne t 3).

(** [nbytes += (tensor->ne[i] - 1)*tensor->nb[i]]. *)
Definition add_dim (t : ggml_tensor) (nbytes : Z) (i : nat) : Z := u64_wrap (nbytes + u64_wrap ((ne t i - 1) * nb t i)).

Definition ggml_nbytes (t : ggml_tensor) : option Z :=
  if existsb (fun i => bool_decide (ne t i <= 0)) dims then Some 0 else
  blck ← ggml_blck_size (t_type t);
  if bool_decide (blck = 1) then
    size ← ggml_type_size (t_type t);
    Some (foldl (add_dim t) size dims)
  else
    n ← c_div (u64_wrap (ne t 0 * nb t 0)) blck;
    Some (foldl (add_dim t) n (seq 1 3)).

Definition GGML_MEM_ALIGN : Z := 16.
Definition ggml_nbytes_pad (t : ggml_tensor) : option Z := n ← ggml_nbytes t; Some (GGML_PAD n GGML_MEM_ALIGN).

Definition ggml_row_size `{BuildMode} (type n : Z) : option Z :=
  blck ← ggml_blck_size type;
  size ← ggml_type_size type;
  r ← c_rem n blck;
  ASSERT bool_decide (r = 0);
  c_div (u64_wrap (size * n)) blck.

Definition ggml_element_size (t : ggml_tensor) : option Z := ggml_type_size (t_type t).
Definition ggml_is_scalar (t : ggml_tensor) : bool := bool_decide (ne t 0 = 1 /\ ne t 1 = 1 /\ ne t 2 = 1 /\ ne t 3 = 1).
Definition ggml_is_vector (t : ggml_tensor) : bool := bool_decide (ne t 1 = 1 /\ ne t 2 = 1 /\ ne t 3 = 1).
Definition ggml_is_matrix (t : ggml_tensor) : bool := bool_decide (ne t 2 = 1 /\ ne t 3 = 1).
Definition ggml_is_3d (t : ggml_tensor) : bool := bool_decide (ne t 3 = 1).

Fixpoint n_dims_from (i : nat) (t : ggml_tensor) : nat :=
  match i with
  | O => 1
  | S j => if bool_decide (1 < ne t i) then S i else n_dims_from j t
  end.
Definition ggml_n_dims (t : ggml_tensor) : nat := n_dims_from 3 t.

Definition ggml_is_transposed (t : ggml_tensor) : bool := bool_decide (nb t 1 < nb t 0).

(** The loop over the dimensions of [ggml_is_contiguous_n]. *)
Fixpoint contiguous_dims (t : ggml_tensor) (n : nat) (l : list nat) (next_nb : Z) : bool :=
  match l with
  | [] => true
  | i :: l =>
      if bool_decide (ne t i <> 1) then
        if bool_decide (n < i)%nat then
          if bool_decide (nb t i <> next_nb) then false
          else contiguous_dims t n l (u64_wrap (next_nb * ne t i))
        else contiguous_dims t n l (u64_wrap (ne t i * nb t i))
      else contiguous_dims t n l next_nb
  end.

Definition ggml_is_contiguous_n (t : ggml_tensor) (n : nat) : option bool :=
  next_nb ← ggml_type_size (t_type t);
  blck ← ggml_blck_size (t_type t);
  if bool_decide (ne t 0 <> blck /\ nb t 0 <> next_nb) then Some false else
  q ← c_div (ne t 0) blck;
  Some (contiguous_dims t n (seq 1 3) (u64_wrap (next_nb * q))).

Definition ggml_is_contiguous (t : ggml_tensor) : option bool := ggml_is_contiguous_n t 0.
Definition ggml_is_contiguous_1 (t : ggml_tensor) : option bool := ggml_is_contiguous_n t 1.
Definition ggml_is_contiguous_2 (t : ggml_tensor) : option bool := ggml_is_contiguous_n t 2.

Definition ggml_is_contiguously_allocated (t : ggml_tensor) : option bool :=
  a ← ggml_nbytes t;
  n ← ggml_nelements t;
  size ← ggml_type_size (t_type t);
  blck ← ggml_blck_size (t_type t);
  b ← c_div (u64_wrap (n * size)) blck;
  Some (bool_decide (a = b)).

Definition ggml_is_permuted (t : ggml_tensor) : bool :=
  bool_decide (nb t 1 < nb t 0 \/ nb t 2 < nb t 1 \/ nb t 3 < nb t 2).

Definition ggml_is_contiguous_channels (t : ggml_tensor) : option bool :=
  size ← ggml_type_size (t_type t);
  Some (bool_decide (nb t 2 < nb t 0 /\ nb t 0 < nb t 1 /\ nb t 2 = size)).

Definition ggml_is_contiguous_rows (t : ggml_tensor) : option bool :=
  blck ← ggml_blck_size (t_type t);
  size ← ggml_type_size (t_type t);
  Some (bool_decide (ne t 0 = blck \/ nb t 0 = size)).

Definition ggml_is_padded_1d (t : ggml_tensor) : option bool :=
  size ← ggml_type_size (t_type t);
  Some (bool_decide (nb t 0 = size /\ nb t 2 = u64_wrap (nb t 1 * ne t 1) /\ nb t 3 = u64_wrap (nb t 2 * ne t 2))).

Definition ggml_is_empty (t : ggml_tensor) : bool := existsb (fun i => bool_decide (ne t i = 0)) dims.

Definition ggml_are_same_shape (t0 t1 : ggml_tensor) : bool := forallb (fun i => bool_decide (ne t0 i = ne t1 i)) dims.
Definition ggml_are_same_stride (t0 t1 : ggml_tensor) : bool := forallb (fun i => bool_decide (nb t0 i = nb t1 i)) dims.

Definition ggml_can_repeat (t0 t1 : ggml_tensor) : bool :=
  if ggml_is_empty t0 then ggml_is_empty t1
  else forallb (fun i => bool_decide (Z.rem (ne t1 i) (ne t0 i) = 0)) dims.

Definition ggml_can_repeat_rows (t0 t1 : ggml_tensor) : bool := bool_decide (ne t0 0 = ne t1 0) && ggml_can_repeat t0 t1.

(** The four indices of element [i]. *)
Definition ggml_unravel_index (t : ggml_tensor) (i : Z) : option (list Z) :=
  let n2 := ne t 2 in let n1 := ne t 1 in let n0 := ne t 0 in
  n21 ← i64_chk (n2 * n1); n210 ← i64_chk (n21 * n0); n10 ← i64_chk (n1 * n0);
  i3 ← c_div i n210;
  r ← i64_chk (i - i3 * n210);
  i2 ← c_div r n10;
  r ← i64_chk (r - i2 * n10);
  i1 ← c_div r n0;
  i0 ← i64_chk (r - i1 * n0);
  Some [i0; i1; i2; i3].

(** * The memory pool of a context *)

Inductive ggml_object_type := GGML_OBJECT_TYPE_TENSOR | GGML_OBJECT_TYPE_GRAPH | GGML_OBJECT_TYPE_WORK_BUFFER.

Record ggml_object := mkObject { o_offs : Z; o_size : Z; o_type : ggml_object_type }.

(** [sizeof] on a 64-bit host. *)
Definition GGML_OBJECT_SIZE : Z := 32.
Definition GGML_TENSOR_SIZE : Z := 336.

(** The list of objects is in allocation order: the first is [objects_begin],
    the last [objects_end]. *)
Record ggml_context := mkContext {
  mem_size   : Z;
  mem_buffer : Z;
  no_alloc   : bool;
  n_objects  : Z;
  objects    : list ggml_object;
}.

Definition aligned (p : Z) : bool := bool_decide (p mod GGML_MEM_ALIGN = 0).

(** [ggml_init]: [alloc] is the address of the block [ggml_aligned_malloc]
    returns, NULL if there is none. *)
Definition ggml_init (size : Z) (buffer : option Z) (na : bool) (alloc : option Z) : option ggml_context :=
  let size := if bool_decide (size = 0) then GGML_MEM_ALIGN else size in
  let msize := match buffer with Some _ => size | None => GGML_PAD size GGML_MEM_ALIGN end in
  b ← match buffer with Some b => Some b | None => alloc end;
  GGML_ASSERT aligned b;
  Some (mkContext msize b na 0 []).

Definition ggml_reset (c : ggml_context) : ggml_context := mkContext (mem_size c) (mem_buffer c) (no_alloc c) 0 [].

Definition ggml_used_mem (c : ggml_context) : Z :=
  match last (objects c) with None => 0 | Some o => u64_wrap (o_offs o + o_size o) end.

Definition add_object (o : ggml_object) (c : ggml_context) : ggml_context :=
  mkContext (mem_size c) (mem_buffer c) (no_alloc c) (n_objects c) (objects c ++ [o]).

(** [Some None] is the NULL of a release build without space. *)
Definition ggml_new_object `{BM : BuildMode} (ty : ggml_object_type) (size : Z) (c : ggml_context)
    : option (option (ggml_object * ggml_context)) :=
  let cur_end := ggml_used_mem c in
  let size_needed := GGML_PAD size GGML_MEM_ALIGN in
  if bool_decide (mem_size c < u64_wrap (u64_wrap (cur_end + size_needed) + GGML_OBJECT_SIZE)) then
    if ndebug then Some None else None
  else
    let o := mkObject (u64_wrap (cur_end + GGML_OBJECT_SIZE)) size_needed ty in
    GGML_ASSERT aligned (mem_buffer c + o_offs o);
    Some (Some (o, add_object o c)).

Definition ggml_new_buffer `{BM : BuildMode} (nbytes : Z) (c : ggml_context) : option (Z * ggml_context) :=
  r ← ggml_new_object GGML_OBJECT_TYPE_WORK_BUFFER nbytes c;
  '(o, c) ← r;
  Some (mem_buffer c + o_offs o, c).

(** * Constructors

    The tensors are in a store, by address. *)

Abbreviation store := (gmap Z ggml_tensor) (only parsing).
Abbreviation state := (ggml_context * gmap Z ggml_tensor)%type (only parsing).

Section Constructors.
Context `{BM : BuildMode}.

(** [data_size *= ne[i]]. *)
Definition times_dim (n e : Z) : Z := u64_wrap (n * e).

(** [nb[i] = nb[i - 1]*ne[i - 1]] from the second stride on. *)
Definition strides (size blck : Z) (n : list Z) : option (list Z) :=
  q ← c_div (nth 0 n 0) blck;
  let nb1 := u64_wrap (size * q) in
  let nb2 := u64_wrap (nb1 * nth 1 n 0) in
  let nb3 := u64_wrap (nb2 * nth 2 n 0) in
  Some [size; nb1; nb2; nb3].

(** The tensor a view refers to and the offset in it. *)
Definition view_base (ts : store) (view : option Z) (offs : Z) : option (option (Z * ggml_tensor) * Z) :=
  match view with
  | None => Some (None, offs)
  | Some a =>
      t ← ts !! a;
      match view_src t with
      | Some b => t' ← ts !! b; Some (Some (b, t'), u64_wrap (offs + view_offs t))
      | None => Some (Some (a, t), offs)
      end
  end.

Definition ggml_new_tensor_impl (type : Z) (n : list Z) (view : option Z) (offs : Z) (st : state) : option (Z * state) :=
  let '(c, ts) := st in
  GGML_ASSERT bool_decide (0 <= type < GGML_TYPE_COUNT);
  GGML_ASSERT bool_decide (1 <= length n <= GGML_MAX_DIMS)%nat;
  '(base, offs) ← view_base ts view offs;
  row ← ggml_row_size type (nth 0 n 0);
  let data_size := foldl times_dim row (tail n) in
  fits ← match base with
    | None => Some true
    | Some (_, t) => m ← ggml_nbytes t; Some (bool_decide (data_size = 0 \/ u64_wrap (data_size + offs) <= m))
    end;
  GGML_ASSERT fits;
  let base_data := match base with None => None | Some (_, t) => d ← data t; Some (d + offs) end in
  let obj_alloc_size := match base with None => if no_alloc c then 0 else data_size | Some _ => 0 end in
  r ← ggml_new_object GGML_OBJECT_TYPE_TENSOR (u64_wrap (GGML_TENSOR_SIZE + obj_alloc_size)) c;
  '(o, c) ← r;
  let result := mem_buffer c + o_offs o in
  let e := n ++ replicate (GGML_MAX_DIMS - length n) 1 in
  blck ← ggml_blck_size type;
  size ← ggml_type_size type;
  strd ← strides size blck e;
  let t := mkT type e strd GGML_OP_NONE None (fst <$> base) offs
             (if bool_decide (0 < obj_alloc_size) then Some (result + GGML_TENSOR_SIZE) else base_data) in
  k ← i32_chk (n_objects c + 1);
  Some (result, (mkContext (mem_size c) (mem_buffer c) (no_alloc c) k (objects c), <[result := t]> ts)).

Definition ggml_new_tensor (type : Z) (n : list Z) (st : state) : option (Z * state) := ggml_new_tensor_impl type n None 0 st.

Definition ggml_new_tensor_1d (type ne0 : Z) := ggml_new_tensor type [ne0].
Definition ggml_new_tensor_2d (type ne0 ne1 : Z) := ggml_new_tensor type [ne0; ne1].
Definition ggml_new_tensor_3d (type ne0 ne1 ne2 : Z) := ggml_new_tensor type [ne0; ne1; ne2].
Definition ggml_new_tensor_4d (type ne0 ne1 ne2 ne3 : Z) := ggml_new_tensor type [ne0; ne1; ne2; ne3].

Definition ggml_dup_tensor (a : Z) (st : state) : option (Z * state) :=
  t ← st.2 !! a; ggml_new_tensor (t_type t) (t_ne t) st.

(** Writing fields of a tensor of the store. *)
Definition update_tensor (r : Z) (f : ggml_tensor -> ggml_tensor) (st : state) : option (Z * state) :=
  t ← st.2 !! r; Some (r, (st.1, <[r := f t]> st.2)).

Definition with_layout (n b : list Z) (t : ggml_tensor) : ggml_tensor :=
  mkT (t_type t) n b (op t) (src t) (view_src t) (view_offs t) (data t).
Definition with_op (o : ggml_op) (a : Z) (t : ggml_tensor) : ggml_tensor :=
  mkT (t_type t) (t_ne t) (t_nb t) o (Some a) (view_src t) (view_offs t) (data t).

Definition ggml_view_tensor (a : Z) (st : state) : option (Z * state) :=
  t ← st.2 !! a;
  '(r, st) ← ggml_new_tensor_impl (t_type t) (t_ne t) (Some a) 0 st;
  update_tensor r (fun u => with_layout (t_ne u) (t_nb t) u) st.

(** The product of the dimensions given, as [int64_t]. *)
Definition product (l : list Z) : option Z := foldM (fun e p => i64_chk (p * e)) (tail l) (nth 0 l 0).

Definition ggml_cont_4d (a ne0 ne1 ne2 ne3 : Z) (st : state) : option (Z * state) :=
  t ← st.2 !! a;
  k ← ggml_nelements t;
  p ← product [ne0; ne1; ne2; ne3];
  GGML_ASSERT bool_decide (k = p);
  '(r, st) ← ggml_new_tensor_4d (t_type t) ne0 ne1 ne2 ne3 st;
  update_tensor r (with_op GGML_OP_CONT a) st.

Definition ggml_reshape (a b : Z) (st : state) : option (Z * state) :=
  t ← st.2 !! a;
  u ← st.2 !! b;
  ct ← ggml_is_contiguous t;
  GGML_ASSERT ct;
  k ← ggml_nelements t;
  p ← ggml_nelements u;
  GGML_ASSERT bool_decide (k = p);
  '(r, st) ← ggml_new_tensor_impl (t_type t) (t_ne u) (Some a) 0 st;
  update_tensor r (with_op GGML_OP_RESHAPE a) st.

(** [ggml_reshape_1d] to [ggml_reshape_4d]. *)
Definition ggml_reshape_nd (a : Z) (n : list Z) (st : state) : option (Z * state) :=
  t ← st.2 !! a;
  ct ← ggml_is_contiguous t;
  GGML_ASSERT ct;
  k ← ggml_nelements t;
  p ← product n;
  GGML_ASSERT bool_decide (k = p);
  '(r, st) ← ggml_new_tensor_impl (t_type t) n (Some a) 0 st;
  update_tensor r (with_op GGML_OP_RESHAPE a) st.

Definition ggml_reshape_1d (a ne0 : Z) := ggml_reshape_nd a [ne0].
Definition ggml_reshape_2d (a ne0 ne1 : Z) := ggml_reshape_nd a [ne0; ne1].
Definition ggml_reshape_3d (a ne0 ne1 ne2 : Z) := ggml_reshape_nd a [ne0; ne1; ne2].
Definition ggml_reshape_4d (a ne0 ne1 ne2 ne3 : Z) := ggml_reshape_nd a [ne0; ne1; ne2; ne3].

Definition ggml_view_impl (a : Z) (n : list Z) (offset : Z) (st : state) : option (Z * state) :=
  t ← st.2 !! a;
  '(r, st) ← ggml_new_tensor_impl (t_type t) n (Some a) offset st;
  update_tensor r (with_op GGML_OP_VIEW a) st.

(** Overwrite the strides after the first. *)
Definition set_strides (nb1 nb2 nb3 : Z) (t : ggml_tensor) : ggml_tensor := with_layout (t_ne t) [nb t 0; nb1; nb2; nb3] t.

Definition ggml_view_1d (a ne0 offset : Z) (st : state) : option (Z * state) := ggml_view_impl a [ne0] offset st.

Definition ggml_view_2d (a ne0 ne1 nb1 offset : Z) (st : state) : option (Z * state) :=
  '(r, st) ← ggml_view_impl a [ne0; ne1] offset st;
  let nb2 := u64_wrap (nb1 * ne1) in
  update_tensor r (set_strides nb1 nb2 nb2) st.

Definition ggml_view_3d (a ne0 ne1 ne2 nb1 nb2 offset : Z) (st : state) : option (Z * state) :=
  '(r, st) ← ggml_view_impl a [ne0; ne1; ne2] offset st;
  update_tensor r (set_strides nb1 nb2 (u64_wrap (nb2 * ne2))) st.

Definition ggml_view_4d (a ne0 ne1 ne2 ne3 nb1 nb2 nb3 offset : Z) (st : state) : option (Z * state) :=
  '(r, st) ← ggml_view_impl a [ne0; ne1; ne2; ne3] offset st;
  update_tensor r (set_strides nb1 nb2 nb3) st.

(** [x[axis0] = y[0]; ... x[axis3] = y[3]] into an array of [int], read back
    into the tensor: the strides go through [size_t]. *)
Definition scatter_int (axes l : list nat) (y : list Z) : list Z :=
  foldl (fun x k => <[nth k axes 0%nat := to_int (nth k y 0)]> x) (replicate GGML_MAX_DIMS 0) l.

Definition ggml_permute (a : Z) (axes : list nat) (st : state) : option (Z * state) :=
  GGML_ASSERT bool_decide (length axes = GGML_MAX_DIMS /\ Forall (fun x => x < GGML_MAX_DIMS)%nat axes);
  GGML_ASSERT bool_decide (NoDup axes);
  t ← st.2 !! a;
  '(r, st) ← ggml_view_tensor a st;
  let n := scatter_int axes dims (t_ne t) in
  let b := u64_wrap <$> scatter_int axes dims (t_nb t) in
  '(r, st) ← update_tensor r (with_layout n b) st;
  update_tensor r (with_op GGML_OP_PERMUTE a) st.

Definition ggml_transpose (a : Z) (st : state) : option (Z * state) :=
  t ← st.2 !! a;
  '(r, st) ← ggml_view_tensor a st;
  '(r, st) ← update_tensor r (fun u => with_layout [ne t 1; ne t 0; ne u 2; ne u 3] [nb t 1; nb t 0; nb u 2; nb u 3] u) st;
  update_tensor r (with_op GGML_OP_TRANSPOSE a) st.

End Constructors.
End GgmlTensor.
