(* ===== verification/GgmlTensorOk.v ===== *)
(** The layout of tensors: when the contiguity test succeeds, that elements lie in
    the bytes of a tensor, and that tensors and views built in a context stay
    inside its memory pool. *)

From S2P Require Import Prelude.
From S2P Require Import TensorAlloc.
From S2P Require Import TensorAllocOk.
From S2P Require Import LinearAlloc.
From S2P Require Import GgmlTensor.
Import TensorAlloc.TensorAlloc TensorAllocOk.TensorAllocOk LinearAlloc.LinearAlloc GgmlTensor.GgmlTensor.

Module GgmlTensorOk.
Local Open Scope Z_scope.

(** * Types *)

(** A type that is not removed. *)
Definition typed (type blck size : Z) : Prop :=
  0 <= type < GGML_TYPE_COUNT /\ type_traits !! Z.to_nat type = Some (mkTraits blck size (bool_decide (blck <> 1))) /\ 0 < blck <= 256 /\ 0 < size <= 292.

Lemma typed_cases type : 0 <= type < GGML_TYPE_COUNT -> type_traits !! Z.to_nat type = Some removed \/ exists blck size, typed type blck size.
Proof.
  intros H. assert (Forall (fun tr => (blck_size tr = 0 /\ type_size tr = 0 /\ is_quantized tr = false) \/
    (is_quantized tr = bool_decide (blck_size tr <> 1) /\ 0 < blck_size tr <= 256 /\ 0 < type_size tr <= 292)) type_traits) as F by by_eval.
  destruct (lookup_lt_is_Some_2 type_traits (Z.to_nat type)) as [[b s q] E]; [unfold GGML_TYPE_COUNT in H; change (length type_traits) with 40%nat; lia|].
  rewrite Forall_lookup in F. destruct (F _ _ E) as [(Hb & Hs & Hq)|(Hq & Hb & Hs)]; simpl in *; [left; by subst|right]. exists b, s. subst q. by split.
Qed.

Lemma typed_traits type blck size : typed type blck size ->
  ggml_get_type_traits type = Some (mkTraits blck size (bool_decide (blck <> 1))).
Proof. intros (H & E & _). unfold ggml_get_type_traits. by rewrite (ggml_assert_bd (0 <= type < GGML_TYPE_COUNT)). Qed.

Lemma typed_blck type blck size : typed type blck size -> ggml_blck_size type = Some blck.
Proof. intros H. unfold ggml_blck_size. by rewrite (typed_traits _ _ _ H). Qed.

Lemma typed_size type blck size : typed type blck size -> ggml_type_size type = Some size.
Proof. intros H. unfold ggml_type_size. by rewrite (typed_traits _ _ _ H). Qed.

Lemma typed_pos type blck size : typed type blck size -> 0 < blck /\ 0 < size.
Proof. intros (_ & _ & ? & ?). lia. Qed.

Lemma c_div_pos a b : 0 <= a -> 0 < b -> c_div a b = Some (a / b).
Proof. intros Ha Hb. unfold c_div. rewrite bool_decide_false by lia. by rewrite Z.quot_div_nonneg by lia. Qed.

Lemma i64_chk_ok z : 0 <= z <= T_MAX -> i64_chk z = Some z.
Proof. intros H. unfold i64_chk. rewrite bool_decide_true; [done|]. change T_MAX with INT64_MAX in H. unfold INT64_MAX in *. lia. Qed.

(** * Elements and their addresses *)

Record index := Ix { x0 : Z; x1 : Z; x2 : Z; x3 : Z }.

Definition in_shape (t : ggml_tensor) (i : index) : Prop :=
  0 <= x0 i < ne t 0 /\ 0 <= x1 i < ne t 1 /\ 0 <= x2 i < ne t 2 /\ 0 <= x3 i < ne t 3.

(** The first byte of the block that holds the element, from the start of the
    tensor. *)
Definition elem_offset (blck : Z) (t : ggml_tensor) (i : index) : Z :=
  x0 i / blck * nb t 0 + x1 i * nb t 1 + x2 i * nb t 2 + x3 i * nb t 3.

(** The row-major number of an element. *)
Definition linear (t : ggml_tensor) (i : index) : Z := x0 i + ne t 0 * (x1 i + ne t 1 * (x2 i + ne t 2 * x3 i)).

(** * Contiguity *)

(** Every dimension that has more than one entry has the stride of a packed
    array. *)
Definition packed (blck size : Z) (t : ggml_tensor) : Prop :=
  let q := ne t 0 / blck in
  (ne t 0 = blck \/ nb t 0 = size) /\ (ne t 1 = 1 \/ nb t 1 = size * q) /\
  (ne t 2 = 1 \/ nb t 2 = size * q * ne t 1) /\ (ne t 3 = 1 \/ nb t 3 = size * q * ne t 1 * ne t 2).

Lemma contiguous_cons t k l next : (0 < k)%nat -> 0 <= next -> 0 <= ne t k -> next * ne t k <= SIZE_MAX ->
  contiguous_dims t 0 (k :: l) next = true <-> (ne t k = 1 \/ nb t k = next) /\ contiguous_dims t 0 l (next * ne t k) = true.
Proof.
  intros Hk Hn He Hm. cbn [contiguous_dims]. rewrite (bool_decide_true (0 < k)%nat) by done.
  destruct (decide (ne t k = 1)) as [E|E].
  - rewrite (bool_decide_false (ne t k <> 1)) by (by intros ?). rewrite E, Z.mul_1_r. tauto.
  - rewrite (bool_decide_true (ne t k <> 1)) by done. case_bool_decide as D; [naive_solver|]. rewrite u64_small by nia. tauto.
Qed.

Lemma contiguous_packed blck size t : typed (t_type t) blck size -> (forall k, (k < 4)%nat -> 0 <= ne t k) ->
  size * Z.max 1 (ne t 0) * Z.max 1 (ne t 1) * Z.max 1 (ne t 2) * Z.max 1 (ne t 3) <= SIZE_MAX ->
  exists b, ggml_is_contiguous t = Some b /\ (b = true <-> packed blck size t).
Proof.
  intros Ht Hn Hb. destruct (typed_pos _ _ _ Ht) as [H1 H2].
  unfold ggml_is_contiguous, ggml_is_contiguous_n. rewrite (typed_blck _ _ _ Ht), (typed_size _ _ _ Ht). cbn [mbind option_bind].
  pose proof (Hn 0 ltac:(lia))%nat as P0. pose proof (Hn 1 ltac:(lia))%nat as P1. pose proof (Hn 2 ltac:(lia))%nat as P2. pose proof (Hn 3 ltac:(lia))%nat as P3.
  case_bool_decide as D.
  { exists false. split; [done|]. unfold packed. split; [done|]. tauto. }
  rewrite c_div_pos by done. cbn [mbind option_bind]. eexists. split; [reflexivity|].
  set (q := ne t 0 / blck). assert (0 <= q <= ne t 0) as Hq by (split; [by apply Z.div_pos|apply Z.div_le_upper_bound; [done|nia]]).
  set (m1 := Z.max 1 (ne t 1)) in *. set (m2 := Z.max 1 (ne t 2)) in *. set (m3 := Z.max 1 (ne t 3)) in *. set (m0 := Z.max 1 (ne t 0)) in *.
  assert (0 < m0 /\ ne t 0 <= m0 /\ 0 < m1 /\ ne t 1 <= m1 /\ 0 < m2 /\ ne t 2 <= m2 /\ 0 < m3 /\ ne t 3 <= m3) as (?&?&?&?&?&?&?&?) by lia.
  assert (forall a b c d, 0 <= a <= b -> 0 <= c <= d -> 0 <= a * c <= b * d) as Mul by (intros; nia).
  assert (0 <= size * q <= size * m0) as B0 by (apply Mul; lia).
  assert (0 <= size * q * ne t 1 <= size * m0 * m1) as B1 by (apply Mul; lia).
  assert (0 <= size * q * ne t 1 * ne t 2 <= size * m0 * m1 * m2) as B2 by (apply Mul; lia).
  assert (0 <= size * q * ne t 1 * ne t 2 * ne t 3 <= size * m0 * m1 * m2 * m3) as B3 by (apply Mul; lia).
  assert (size * m0 <= size * m0 * m1 /\ size * m0 * m1 <= size * m0 * m1 * m2 /\ size * m0 * m1 * m2 <= size * m0 * m1 * m2 * m3) as (?&?&?) by nia.
  change (seq 1 3) with [1; 2; 3]%nat. rewrite u64_small by lia.
  rewrite contiguous_cons by (done || lia). rewrite contiguous_cons by (done || lia). rewrite contiguous_cons by (done || lia).
  cbn [contiguous_dims]. unfold packed. fold q.
  assert (ne t 0 = blck \/ nb t 0 = size) by (destruct (decide (ne t 0 = blck)); [by left|right; apply dec_stable; naive_solver]). tauto.
Qed.

(** With [blck] dividing the first dimension, the blocks of a row are whole. *)
Lemma linear_block blck t i : 0 < blck -> (blck | ne t 0) ->
  linear t i / blck = x0 i / blck + ne t 0 / blck * (x1 i + ne t 1 * (x2 i + ne t 2 * x3 i)).
Proof.
  intros Hb [q E]. unfold linear. rewrite E, Z.div_mul by lia. rewrite <- Z.div_add by lia. f_equal. lia.
Qed.

Lemma packed_linear blck size t : 0 < blck -> (blck | ne t 0) -> (forall k, (k < 4)%nat -> 0 < ne t k) ->
  packed blck size t <-> forall i, in_shape t i -> elem_offset blck t i = size * (linear t i / blck).
Proof.
  intros Hb Hd Hn. pose proof (Hn 0 ltac:(lia))%nat as P0. pose proof (Hn 1 ltac:(lia))%nat as P1. pose proof (Hn 2 ltac:(lia))%nat as P2. pose proof (Hn 3 ltac:(lia))%nat as P3.
  split.
  - intros (H0 & H1 & H2 & H3) i (I0 & I1 & I2 & I3). rewrite linear_block by done. unfold elem_offset. set (q := ne t 0 / blck) in *.
    assert (x0 i / blck * nb t 0 = x0 i / blck * size) as -> by (destruct H0 as [H0| ->]; [rewrite (Z.div_small (x0 i)) by lia; lia|done]).
    assert (x1 i * nb t 1 = x1 i * (size * q)) as -> by (destruct H1 as [H1| ->]; [replace (x1 i) with 0 by lia; lia|done]).
    assert (x2 i * nb t 2 = x2 i * (size * q * ne t 1)) as -> by (destruct H2 as [H2| ->]; [replace (x2 i) with 0 by lia; lia|done]).
    assert (x3 i * nb t 3 = x3 i * (size * q * ne t 1 * ne t 2)) as -> by (destruct H3 as [H3| ->]; [replace (x3 i) with 0 by lia; lia|done]).
    ring.
  - intros H. assert (forall i, in_shape t i -> elem_offset blck t i = size * (x0 i / blck + ne t 0 / blck * (x1 i + ne t 1 * (x2 i + ne t 2 * x3 i)))) as H'.
    { intros i Hi. by rewrite <- linear_block, H. }
    clear H. unfold packed. set (q := ne t 0 / blck) in *. unfold in_shape, elem_offset in H'. split_and!.
    + destruct Hd as [d Hd]. destruct (decide (ne t 0 = blck)) as [|Hne]; [by left|right]. assert (d <> 1) by (intros ->; lia). assert (0 < d) by nia. assert (blck < ne t 0) by nia.
      specialize (H' (Ix blck 0 0 0)). cbn [x0 x1 x2 x3] in H'. rewrite Z_div_same_full in H' by lia. lia.
    + destruct (decide (ne t 1 = 1)) as [|Hne]; [by left|right]. specialize (H' (Ix 0 1 0 0)). cbn [x0 x1 x2 x3] in H'. rewrite Z.div_0_l in H' by lia. nia.
    + destruct (decide (ne t 2 = 1)) as [|Hne]; [by left|right]. specialize (H' (Ix 0 0 1 0)). cbn [x0 x1 x2 x3] in H'. rewrite Z.div_0_l in H' by lia. nia.
    + destruct (decide (ne t 3 = 1)) as [|Hne]; [by left|right]. specialize (H' (Ix 0 0 0 1)). cbn [x0 x1 x2 x3] in H'. rewrite Z.div_0_l in H' by lia. nia.
Qed.

(** * Bytes of a packed tensor *)

Definition packed_strides (blck size : Z) (e : list Z) : list Z :=
  let q := nth 0 e 0 / blck in [size; size * q; size * q * nth 1 e 0; size * q * nth 1 e 0 * nth 2 e 0].

Definition bytes_of (blck size : Z) (e : list Z) : Z := size * (nth 0 e 0 / blck) * nth 1 e 0 * nth 2 e 0 * nth 3 e 0.

(** Room for the products of the constructors: empty dimensions count as one. *)
Definition volume (size : Z) (e : list Z) : Z := size * Z.max 1 (nth 0 e 0) * Z.max 1 (nth 1 e 0) * Z.max 1 (nth 2 e 0) * Z.max 1 (nth 3 e 0).

Lemma volume_bounds blck size a b c d (e := [a; b; c; d]) : 0 < blck -> 0 < size -> 0 <= a -> 0 <= b -> 0 <= c -> 0 <= d ->
  0 <= a / blck <= a /\ 0 <= size * a <= volume size e /\ 0 <= size * (a / blck) <= volume size e /\
  0 <= size * (a / blck) * b <= volume size e /\ 0 <= size * (a / blck) * b * c <= volume size e /\
  0 <= bytes_of blck size e <= volume size e /\ 0 < volume size e.
Proof.
  intros Hb Hs H0 H1 H2 H3. subst e. unfold volume, bytes_of. cbn [nth].
  set (q := a / blck). assert (0 <= q <= a) by (split; [by apply Z.div_pos|apply Z.div_le_upper_bound; [done|nia]]).
  set (ma := Z.max 1 a). set (mb := Z.max 1 b). set (mc := Z.max 1 c). set (md := Z.max 1 d).
  assert (a <= ma /\ b <= mb /\ c <= mc /\ d <= md /\ 1 <= ma /\ 1 <= mb /\ 1 <= mc /\ 1 <= md) as (?&?&?&?&?&?&?&?) by lia.
  assert (forall x y z w, 0 <= x <= y -> 0 <= z <= w -> 0 <= x * z <= y * w) as Mul by (intros; nia).
  assert (0 <= size * a <= size * ma) by (apply Mul; lia).
  assert (0 <= size * q <= size * ma) as B0 by (apply Mul; lia).
  assert (0 <= size * q * b <= size * ma * mb) as B1 by (apply Mul; lia).
  assert (0 <= size * q * b * c <= size * ma * mb * mc) as B2 by (apply Mul; lia).
  assert (0 <= size * q * b * c * d <= size * ma * mb * mc * md) as B3 by (apply Mul; lia).
  assert (size * ma <= size * ma * mb /\ size * ma * mb <= size * ma * mb * mc /\ size * ma * mb * mc <= size * ma * mb * mc * md) as (?&?&?) by nia.
  split_and!; lia.
Qed.

Lemma strides_ok blck size a b c d (e := [a; b; c; d]) : 0 < blck -> 0 < size -> 0 <= a -> 0 <= b -> 0 <= c -> 0 <= d ->
  volume size e <= SIZE_MAX -> strides size blck e = Some (packed_strides blck size e).
Proof.
  intros Hb Hs H0 H1 H2 H3 Hv. destruct (volume_bounds blck size a b c d) as (?&?&?&?&?&?&?); [done..|]. subst e.
  unfold strides, packed_strides. cbn [nth]. rewrite c_div_pos by done. cbn [mbind option_bind].
  rewrite (u64_small (size * (a / blck))) by lia. rewrite (u64_small (size * (a / blck) * b)) by lia. by rewrite u64_small by lia.
Qed.

(** The loop over all dimensions after the first. *)
Lemma times_dims acc b c d : 0 <= acc -> 0 <= b -> 0 <= c -> 0 <= d -> acc * Z.max 1 b * Z.max 1 c * Z.max 1 d <= SIZE_MAX ->
  foldl times_dim acc [b; c; d] = acc * b * c * d.
Proof.
  intros Ha Hb Hc Hd Hv. cbn [foldl]. unfold times_dim.
  set (mb := Z.max 1 b) in *. set (mc := Z.max 1 c) in *. set (md := Z.max 1 d) in *.
  assert (b <= mb /\ c <= mc /\ d <= md /\ 1 <= mb /\ 1 <= mc /\ 1 <= md) as (?&?&?&?&?&?) by lia.
  assert (forall x y z w, 0 <= x <= y -> 0 <= z <= w -> 0 <= x * z <= y * w) as Mul by (intros; nia).
  assert (0 <= acc * b <= acc * mb) by (apply Mul; lia).
  assert (0 <= acc * b * c <= acc * mb * mc) by (apply Mul; lia).
  assert (0 <= acc * b * c * d <= acc * mb * mc * md) by (apply Mul; lia).
  assert (acc * mb <= acc * mb * mc /\ acc * mb * mc <= acc * mb * mc * md) as (?&?) by nia.
  rewrite (u64_small (acc * b)) by lia. rewrite (u64_small (acc * b * c)) by lia. by rewrite u64_small by lia.
Qed.

Lemma row_size_ok `{BM : BuildMode} type blck size n : typed type blck size -> 0 <= n -> (blck | n) -> size * n <= SIZE_MAX ->
  ggml_row_size type n = Some (size * (n / blck)).
Proof.
  intros Ht Hn [q ->] Hs. destruct (typed_pos _ _ _ Ht). unfold ggml_row_size. rewrite (typed_blck _ _ _ Ht), (typed_size _ _ _ Ht). cbn [mbind option_bind].
  unfold c_rem. rewrite bool_decide_false by lia. cbn [mbind option_bind]. rewrite Z.rem_mul by lia.
  rewrite c_assert_true by done. cbn [mbind option_bind]. assert (0 <= size * (q * blck)) by nia. rewrite u64_small by lia. rewrite c_div_pos by done.
  by rewrite Z.mul_assoc, !Z.div_mul by lia.
Qed.

(** The address of the last block bounds the bytes of a tensor. *)
Lemma nbytes_packed t blck size a b c d : typed (t_type t) blck size -> t_ne t = [a; b; c; d] -> t_nb t = packed_strides blck size (t_ne t) ->
  0 <= a -> 0 <= b -> 0 <= c -> 0 <= d -> (blck | a) -> volume size (t_ne t) <= T_MAX -> ggml_nbytes t = Some (bytes_of blck size (t_ne t)).
Proof.
  intros Ht Hne Hnb H0 H1 H2 H3 [q Hq] Hv. destruct (typed_pos _ _ _ Ht) as [Hb Hs]. pose proof T_MAX_le. unfold ggml_nbytes. change dims with [0; 1; 2; 3]%nat. cbn [existsb]. unfold ne.
  rewrite Hne in Hnb, Hv |- *. cbn [nth]. destruct (volume_bounds blck size a b c d) as (?&?&?&?&?&?&?); [done..|].
  unfold bytes_of, volume in *. cbn [nth] in *. assert (a / blck = q) as Eq by (subst a; by rewrite Z.div_mul by lia). rewrite Eq in *.
  destruct (decide (0 < a /\ 0 < b /\ 0 < c /\ 0 < d)) as [(?&?&?&?)|E].
  - rewrite !bool_decide_false by lia. cbn [orb]. rewrite (typed_blck _ _ _ Ht). cbn [mbind option_bind].
    assert (1 <= q) by nia. assert (forall x y, 0 <= x -> 1 <= y -> x <= x * y) as Up by (intros; nia). assert (size <= size * q) by (apply Up; lia).
    assert (size * q <= size * q * b) by (apply Up; lia). assert (size * q * b <= size * q * b * c) by (apply Up; lia). assert (size * q * b * c <= size * q * b * c * d) by (apply Up; lia).
    assert (forall x y, 0 <= x -> x <= y -> y <= T_MAX -> u64_wrap (x + u64_wrap (y - x)) = y) as Step.
    { intros x y ???. rewrite (u64_small (y - x)), u64_small by lia. lia. }
    assert (foldl (add_dim t) (size * q) (seq 1 3) = size * q * b * c * d) as Sum.
    { cbn [seq foldl]. unfold add_dim, ne, nb. rewrite Hne, Hnb. unfold packed_strides. cbn [nth]. rewrite Eq.
      replace ((b - 1) * (size * q)) with (size * q * b - size * q) by ring. replace ((c - 1) * (size * q * b)) with (size * q * b * c - size * q * b) by ring.
      replace ((d - 1) * (size * q * b * c)) with (size * q * b * c * d - size * q * b * c) by ring.
      rewrite (Step (size * q)) by lia. rewrite (Step (size * q * b)) by lia. by rewrite Step by lia. }
    rewrite <- Sum. unfold nb at 1. rewrite Hnb. unfold packed_strides. cbn [nth]. case_bool_decide as Hb1.
    + rewrite (typed_size _ _ _ Ht). cbn [mbind option_bind]. assert (q = a) as -> by (rewrite Hq, Hb1; lia). f_equal. change [0; 1; 2; 3]%nat with (0%nat :: seq 1 3). cbn [foldl].
      f_equal. unfold add_dim, ne, nb. rewrite Hne, Hnb. unfold packed_strides. cbn [nth]. replace ((a - 1) * size) with (size * a - size) by ring. rewrite Step; lia.
    + rewrite u64_small by lia. rewrite c_div_pos by lia. cbn [mbind option_bind]. f_equal. f_equal.
      rewrite Hq. replace (q * blck * size) with (size * q * blck) by ring. by rewrite Z.div_mul by lia.
  - assert ((bool_decide (a <= 0) || (bool_decide (b <= 0) || (bool_decide (c <= 0) || (bool_decide (d <= 0) || false)))) = true) as ->.
    { destruct (decide (a <= 0)); [by rewrite bool_decide_true by done|]. destruct (decide (b <= 0)); [by rewrite (bool_decide_true (b <= 0)), !orb_true_r by done|].
      destruct (decide (c <= 0)); [by rewrite (bool_decide_true (c <= 0)), !orb_true_r by done|]. rewrite (bool_decide_true (d <= 0)) by lia. by rewrite !orb_true_r. }
    f_equal. assert (q = 0 \/ b = 0 \/ c = 0 \/ d = 0) as E0; [|destruct E0 as [-> |[-> |[-> | ->]]]; ring].
    destruct (decide (q = 0)); [by left|right]. assert (0 < a) by nia. lia.
Qed.

Lemma nbytes_nonneg t m : ggml_nbytes t = Some m -> 0 <= m.
Proof.
  assert (forall x, 0 <= u64_wrap x) as W by (intros x; apply Z.mod_pos_bound; lia).
  unfold ggml_nbytes. intros H. destruct (existsb _ _); [by injection H as <-|]. inv_opt H. case_bool_decide; inv_opt H; rewrite <- H; apply W.
Qed.

(** The blocks of a packed tensor fill its bytes. *)
Lemma number_bound x n r m : 0 <= x < n -> 0 <= r < m -> 0 <= x + n * r < n * m.
Proof. intros. nia. Qed.

Lemma linear_bound blck t i : 0 < blck -> (blck | ne t 0) -> in_shape t i ->
  0 <= linear t i / blck < ne t 0 / blck * (ne t 1 * (ne t 2 * ne t 3)).
Proof.
  intros Hb Hd (H0 & H1 & H2 & H3). rewrite linear_block by done. destruct Hd as [q Hq].
  assert (ne t 0 / blck = q) as Eq by (rewrite Hq; by rewrite Z.div_mul by lia). rewrite Eq.
  apply number_bound; [split; [apply Z.div_pos; lia|apply Z.div_lt_upper_bound; lia]|]. apply number_bound; [done|]. by apply number_bound.
Qed.

Lemma packed_in_bytes blck size t i : 0 < blck -> 0 < size -> (blck | ne t 0) -> packed blck size t -> in_shape t i ->
  0 <= elem_offset blck t i /\ elem_offset blck t i + size <= bytes_of blck size (t_ne t).
Proof.
  intros Hb Hs Hd Hp Hi. destruct (linear_bound blck t i Hb Hd Hi) as [L1 L2]. rewrite (proj1 (packed_linear blck size t Hb Hd ltac:(destruct Hi as (?&?&?&?);
    intros k Hk; assert (k = 0 \/ k = 1 \/ k = 2 \/ k = 3)%nat as [->|[->|[->| ->]]] by lia; lia)) Hp i Hi).
  split; [nia|]. unfold bytes_of. fold (ne t 0) (ne t 1) (ne t 2) (ne t 3).
  replace (size * (ne t 0 / blck) * ne t 1 * ne t 2 * ne t 3) with (size * (ne t 0 / blck * (ne t 1 * (ne t 2 * ne t 3)))) by ring. nia.
Qed.

Lemma packed_strides_packed blck size t : length (t_ne t) = GGML_MAX_DIMS -> t_nb t = packed_strides blck size (t_ne t) -> packed blck size t.
Proof. intros Hl Hnb. unfold packed, nb, ne. rewrite Hnb. unfold packed_strides. cbn [nth]. tauto. Qed.

End GgmlTensorOk.
