(* ===== verification/GgmlPool.v ===== *)
(** Tensors in the memory pool of a context: objects do not overlap, and whatever
    sequence of constructors, views, reshapes and permutations built the tensors,
    each element lies in the bytes of the tensor that owns the data. *)

From S2P Require Import Prelude.
From S2P Require Import TensorAlloc.
From S2P Require Import TensorAllocOk.
From S2P Require Import LinearAlloc.
From S2P Require Import GgmlTensor.
From S2P Require Import GgmlTensorOk.
Import TensorAlloc.TensorAlloc TensorAllocOk.TensorAllocOk LinearAlloc.LinearAlloc GgmlTensor.GgmlTensor GgmlTensorOk.GgmlTensorOk.

Module GgmlPool.
Local Open Scope Z_scope.

(** * The pool *)

(** Objects follow each other, each after its header. *)
Fixpoint chain (cur : Z) (l : list ggml_object) : Prop :=
  match l with
  | [] => True
  | o :: l => o_offs o = cur + GGML_OBJECT_SIZE /\ 0 <= o_size o /\ (16 | o_size o) /\ chain (o_offs o + o_size o) l
  end.

Fixpoint chain_end (cur : Z) (l : list ggml_object) : Z :=
  match l with [] => cur | o :: l => chain_end (o_offs o + o_size o) l end.

Record pool_ok (c : ggml_context) : Prop := {
  pk_chain : chain 0 (objects c);
  pk_end   : chain_end 0 (objects c) <= mem_size c <= T_MAX;
  pk_align : aligned (mem_buffer c) = true;
}.

Lemma chain_app l1 l2 : forall cur, chain cur (l1 ++ l2) <-> chain cur l1 /\ chain (chain_end cur l1) l2.
Proof. induction l1 as [|o l1 IH]; intros cur; simpl; [tauto|]. rewrite IH. tauto. Qed.

Lemma chain_end_app l1 l2 : forall cur, chain_end cur (l1 ++ l2) = chain_end (chain_end cur l1) l2.
Proof. induction l1 as [|o l1 IH]; intros cur; simpl; [done|]. apply IH. Qed.

Lemma chain_grows l : forall cur, chain cur l -> cur <= chain_end cur l.
Proof. induction l as [|o l IH]; intros cur; simpl; [lia|]. intros (E & H & _ & Hc). apply IH in Hc. unfold GGML_OBJECT_SIZE in *. lia. Qed.

Lemma chain_div l : forall cur, chain cur l -> (16 | cur) -> (16 | chain_end cur l).
Proof.
  induction l as [|o l IH]; intros cur; simpl; [done|]. intros (E & H & Hd & Hc) Hcur. apply IH; [done|]. rewrite E.
  apply Z.divide_add_r; [|done]. apply Z.divide_add_r; [done|]. by exists 2.
Qed.

Lemma chain_in l o : forall cur, chain cur l -> o ∈ l -> cur + GGML_OBJECT_SIZE <= o_offs o /\ 0 <= o_size o /\ o_offs o + o_size o <= chain_end cur l.
Proof.
  induction l as [|o' l IH]; intros cur; simpl; [by intros _ ?%elem_of_nil|]. intros (E & H & _ & Hc) [->|Hin]%elem_of_cons.
  - pose proof (chain_grows _ _ Hc). lia.
  - destruct (IH _ Hc Hin). unfold GGML_OBJECT_SIZE in *. lia.
Qed.

(** Two objects do not overlap, headers included. *)
Definition apart (o o' : ggml_object) : Prop :=
  o_offs o + o_size o <= o_offs o' - GGML_OBJECT_SIZE \/ o_offs o' + o_size o' <= o_offs o - GGML_OBJECT_SIZE.

Lemma chain_apart cur l i j o o' : chain cur l -> l !! i = Some o -> l !! j = Some o' -> i <> j -> apart o o'.
Proof.
  revert cur i j o o'. induction l as [|a l IH]; intros cur i j o o'; [done|]. intros (E & H & _ & Hc) Hi Hj Hne.
  destruct i as [|i], j as [|j]; [done|..]; simpl in Hi, Hj.
  - injection Hi as ->. destruct (chain_in _ _ _ Hc (list_elem_of_lookup_2 _ _ _ Hj)) as (? & ? & ?). left. lia.
  - injection Hj as ->. destruct (chain_in _ _ _ Hc (list_elem_of_lookup_2 _ _ _ Hi)) as (? & ? & ?). right. lia.
  - eapply IH; [done..|congruence].
Qed.

(** Two objects at one offset are the same. *)
Lemma chain_offs_inj cur l o o' : chain cur l -> o ∈ l -> o' ∈ l -> o_offs o = o_offs o' -> o = o'.
Proof.
  intros Hc [i Hi]%list_elem_of_lookup_1 [j Hj]%list_elem_of_lookup_1 E. destruct (decide (i = j)) as [->|Hne]; [congruence|].
  destruct (chain_in _ _ _ Hc (list_elem_of_lookup_2 _ _ _ Hi)) as (_ & ? & _). destruct (chain_in _ _ _ Hc (list_elem_of_lookup_2 _ _ _ Hj)) as (_ & ? & _).
  destruct (chain_apart _ _ _ _ _ _ Hc Hi Hj Hne); unfold GGML_OBJECT_SIZE in *; lia.
Qed.

Lemma used_mem_ok c : pool_ok c -> ggml_used_mem c = chain_end 0 (objects c).
Proof.
  intros [Hc He _]. unfold ggml_used_mem. pose proof T_MAX_le. destruct (objects c) as [|o l _] eqn:E using rev_ind; [done|].
  rewrite last_snoc. rewrite chain_end_app in *. cbn [chain_end] in *. apply chain_app in Hc as [Hc (E1 & H1 & _ & _)].
  pose proof (chain_grows _ _ Hc). unfold GGML_OBJECT_SIZE in *. rewrite u64_small; lia.
Qed.

(** A new object of [size] bytes fits. *)
Definition room (size : Z) (c : ggml_context) : Prop :=
  chain_end 0 (objects c) + padded GGML_MEM_ALIGN size + GGML_OBJECT_SIZE <= mem_size c.

Definition next_object (ty : ggml_object_type) (size : Z) (c : ggml_context) : ggml_object :=
  mkObject (chain_end 0 (objects c) + GGML_OBJECT_SIZE) (padded GGML_MEM_ALIGN size) ty.

Lemma new_object_ok `{BM : BuildMode} ty size c : pool_ok c -> 0 <= size -> room size c ->
  ggml_new_object ty size c = Some (Some (next_object ty size c, add_object (next_object ty size c) c)) /\
  pool_ok (add_object (next_object ty size c) c).
Proof.
  intros Hp Hs Hr. pose proof Hp as [Hc He Ha]. pose proof T_MAX_le. unfold room in Hr. pose proof (chain_grows _ _ Hc).
  destruct (padded_ok GGML_MEM_ALIGN size) as [Hd Hb]; [done..|]. set (p := padded GGML_MEM_ALIGN size) in *.
  assert (GGML_PAD size GGML_MEM_ALIGN = p) as Hpad by (apply pad_padded; unfold GGML_MEM_ALIGN, GGML_OBJECT_SIZE in *; first [done|lia]).
  unfold GGML_OBJECT_SIZE in *. split.
  - unfold ggml_new_object. rewrite used_mem_ok, Hpad by done. unfold GGML_OBJECT_SIZE. rewrite !u64_small by (rewrite ?u64_small by lia; lia).
    rewrite bool_decide_false by lia. rewrite (ggml_assert_true _); [done|]. unfold aligned in *. cbn [o_offs].
    apply bool_decide_eq_true in Ha. apply bool_decide_true. rewrite Zplus_mod, Ha, Z.add_0_l, Zmod_mod.
    apply Z.mod_divide; [done|]. apply Z.divide_add_r; [apply (chain_div (objects c) 0 Hc); by exists 0|by exists 2].
  - split; [|unfold add_object; cbn [objects mem_size]; rewrite chain_end_app; simpl; fold p; unfold GGML_OBJECT_SIZE; lia|done].
    simpl. apply chain_app. split; [done|]. simpl. unfold GGML_OBJECT_SIZE. split_and!; [done|lia|done|done].
Qed.

(** * Tensors of a context *)

Record shaped (t : ggml_tensor) (blck size : Z) : Prop := {
  sh_typed : typed (t_type t) blck size;
  sh_ne    : length (t_ne t) = GGML_MAX_DIMS;
  sh_nb    : length (t_nb t) = GGML_MAX_DIMS;
  sh_pos   : Forall (fun e => 0 <= e) (t_ne t);
  sh_strd  : Forall (fun e => 0 <= e <= SIZE_MAX) (t_nb t);
  sh_div   : (blck | ne t 0);
  sh_vol   : volume size (t_ne t) <= T_MAX;
}.

(** The bytes an object of a tensor holds after the header of the tensor. *)
Definition own_bytes (c : ggml_context) (t : ggml_tensor) (m : Z) : Z :=
  match view_src t with None => if no_alloc c then 0 else m | Some _ => 0 end.

(** Tensor [t] at address [a] has its elements in the [m] bytes of [root], the
    tensor at [b]. *)
Record placed (c : ggml_context) (ts : gmap Z ggml_tensor) (a : Z) (t : ggml_tensor) (blck size b : Z) (root : ggml_tensor) (m : Z) : Prop := {
  pl_shape : shaped t blck size;
  pl_obj   : exists o, o ∈ objects c /\ o_type o = GGML_OBJECT_TYPE_TENSOR /\ a = mem_buffer c + o_offs o /\ GGML_TENSOR_SIZE + own_bytes c t m <= o_size o;
  pl_base  : view_src t = Some b \/ (view_src t = None /\ b = a /\ view_offs t = 0);
  pl_root  : ts !! b = Some root;
  pl_rsrc  : view_src root = None;
  pl_rdata : data root = if bool_decide (0 < own_bytes c root m) then Some (b + GGML_TENSOR_SIZE) else None;
  pl_bytes : ggml_nbytes root = Some m;
  pl_offs  : 0 <= view_offs t <= T_MAX;
  pl_data  : data t = (d ← data root; Some (d + view_offs t));
  pl_fits  : bytes_of blck size (t_ne t) = 0 \/ view_offs t + bytes_of blck size (t_ne t) <= m;
  pl_in    : forall i, in_shape t i -> 0 <= elem_offset blck t i /\ view_offs t + elem_offset blck t i + size <= m;
}.

Definition tensor_ok (c : ggml_context) (ts : gmap Z ggml_tensor) (a : Z) (t : ggml_tensor) : Prop :=
  exists blck size b root m, placed c ts a t blck size b root m.

Definition state_ok (st : ggml_context * gmap Z ggml_tensor) : Prop :=
  pool_ok st.1 /\ (forall a t, st.2 !! a = Some t -> tensor_ok st.1 st.2 a t).

(** [c'] is [c] with one more object for a tensor, at [r]. *)
Definition grown (size : Z) (c c' : ggml_context) (r : Z) : Prop :=
  let o := next_object GGML_OBJECT_TYPE_TENSOR size c in
  c' = mkContext (mem_size c) (mem_buffer c) (no_alloc c) (n_objects c + 1) (objects c ++ [o]) /\ r = mem_buffer c + o_offs o /\ pool_ok c'.

Lemma grown_fresh size c c' r ts : state_ok (c, ts) -> grown size c c' r -> ts !! r = None.
Proof.
  intros [Hp Hts] (_ & -> & _). apply eq_None_not_Some. intros [t Ht]. destruct (Hts _ _ Ht) as (blck & sz & b & root & m & [_ (o & Ho & _ & E & _) _ _ _ _ _ _ _ _ _]).
  destruct (chain_in _ _ _ (pk_chain _ Hp) Ho) as (? & ? & ?). unfold next_object in E. cbn [o_offs] in E. simpl in *. unfold GGML_OBJECT_SIZE in *. lia.
Qed.

Lemma placed_grows size c c' r ts t' a t blck sz b root m : state_ok (c, ts) -> grown size c c' r ->
  placed c ts a t blck sz b root m -> placed c' (<[r := t']> ts) a t blck sz b root m.
Proof.
  intros Hs Hg H. pose proof (grown_fresh _ _ _ _ _ Hs Hg) as Hf. destruct Hg as (-> & _ & _). destruct H as [? (o & ? & ? & ? & ?) ? Hr ? ? ? ? ? ? ?].
  split; try done.
  - exists o. split_and!; try done. cbn [objects]. set_solver.
  - rewrite lookup_insert_ne; [done|]. intros ->. congruence.
Qed.

Lemma insert_ok size c c' r ts t : state_ok (c, ts) -> grown size c c' r -> tensor_ok c' (<[r := t]> ts) r t -> state_ok (c', <[r := t]> ts).
Proof.
  intros Hs Hg Ht. split; [apply Hg|]. cbn [fst snd]. intros a u Hu. destruct (decide (a = r)) as [->|Hne].
  - rewrite lookup_insert_eq in Hu. by simplify_eq.
  - rewrite lookup_insert_ne in Hu by done. destruct Hs as [Hp Hts]. destruct (Hts a u Hu) as (blck & sz & b & root & m & H).
    exists blck, sz, b, root, m. by eapply placed_grows.
Qed.

(** ** Shapes as lists of four *)

Definition pad_ne (n : list Z) : list Z := n ++ replicate (GGML_MAX_DIMS - length n) 1.

Lemma four {A} (l : list A) : length l = GGML_MAX_DIMS -> exists a b c d, l = [a; b; c; d].
Proof. destruct l as [|a [|b [|c [|d [|e l]]]]]; intros H; try discriminate H. by exists a, b, c, d. Qed.

Lemma times_one x e : times_dim (times_dim x e) 1 = times_dim x e.
Proof. unfold times_dim, u64_wrap. by rewrite Z.mul_1_r, Zmod_mod. Qed.

Lemma pad_four n : (1 <= length n <= GGML_MAX_DIMS)%nat -> Forall (fun e => 0 <= e) n ->
  exists a b c d, pad_ne n = [a; b; c; d] /\ nth 0 n 0 = a /\ 0 <= a /\ 0 <= b /\ 0 <= c /\ 0 <= d /\
    forall acc, 0 <= acc -> acc * Z.max 1 b * Z.max 1 c * Z.max 1 d <= SIZE_MAX -> foldl times_dim acc (tail n) = acc * b * c * d.
Proof.
  intros Hl Hf. unfold pad_ne, GGML_MAX_DIMS in *. rewrite !Forall_forall in Hf.
  destruct n as [|a [|b [|c [|d [|e l]]]]]; cbn [length] in *; try lia.
  - exists a, 1, 1, 1. split_and!; try done; [apply Hf; set_solver|]. intros acc Ha _. cbn [tail foldl]. lia.
  - exists a, b, 1, 1. split_and!; try done; [apply Hf; set_solver..|]. intros acc Ha Hv. rewrite !Z.mul_1_r. change (tail [a; b]) with [b].
    cbn [foldl]. unfold times_dim. assert (0 <= b) by (apply Hf; set_solver). apply u64_small. nia.
  - exists a, b, c, 1. split_and!; try done; [apply Hf; set_solver..|]. intros acc Ha Hv. change (tail [a; b; c]) with [b; c].
    assert (foldl times_dim acc [b; c; 1] = acc * b * c * 1) as E by (apply times_dims; first [done|apply Hf; set_solver]). cbn [foldl] in *. by rewrite times_one in E.
  - exists a, b, c, d. split_and!; try done; [apply Hf; set_solver..|]. intros acc Ha Hv. change (tail [a; b; c; d]) with [b; c; d].
    apply times_dims; first [done|apply Hf; set_solver].
Qed.

(** ** The common constructor *)

Section Create.
Context `{BM : BuildMode}.

(** What a call may ask for. *)
Record dims_ok (type blck size : Z) (n : list Z) : Prop := {
  dm_typed : typed type blck size;
  dm_len   : (1 <= length n <= GGML_MAX_DIMS)%nat;
  dm_pos   : Forall (fun e => 0 <= e) n;
  dm_div   : (blck | nth 0 n 0);
  dm_vol   : volume size (pad_ne n) <= T_MAX;
}.

Definition alloc_size (c : ggml_context) (base : option (Z * ggml_tensor)) (bytes : Z) : Z :=
  match base with None => if no_alloc c then 0 else bytes | Some _ => 0 end.

Definition can_create (size : Z) (c : ggml_context) : Prop := room size c /\ INT32_MIN <= n_objects c < INT32_MAX.

(** The size the constructor computes. *)
Lemma data_size_ok type blck size n : dims_ok type blck size n ->
  exists row, ggml_row_size type (nth 0 n 0) = Some row /\ foldl times_dim row (tail n) = bytes_of blck size (pad_ne n) /\
    0 <= bytes_of blck size (pad_ne n) <= T_MAX.
Proof.
  intros [Ht Hl Hf Hd Hv]. pose proof T_MAX_le. destruct (typed_pos _ _ _ Ht) as [Hb Hs].
  destruct (pad_four n Hl Hf) as (a & b & cc & d & E & E0 & H0 & H1 & H2 & H3 & Hfold). rewrite E in *. rewrite E0 in *.
  destruct (volume_bounds blck size a b cc d Hb Hs H0 H1 H2 H3) as (Q0 & Q1 & Q2 & Q3 & Q4 & Q5 & Q6).
  assert (size * (a / blck) * Z.max 1 b * Z.max 1 cc * Z.max 1 d <= SIZE_MAX) as Hrow.
  { destruct (volume_bounds blck size a (Z.max 1 b) (Z.max 1 cc) (Z.max 1 d)) as (_ & _ & _ & _ & _ & Q & _); [lia..|].
    unfold bytes_of, volume in *. cbn [nth] in *. rewrite (Z.max_r 1 (Z.max 1 b)), (Z.max_r 1 (Z.max 1 cc)), (Z.max_r 1 (Z.max 1 d)) in Q by lia. lia. }
  exists (size * (a / blck)). split; [apply (row_size_ok _ _ _ _ Ht); (done || lia)|]. split; [apply Hfold; lia|lia].
Qed.

(** The assertion on the size of a view: a call that returns passed it. *)
Lemma impl_fits c ts type blck size n view offs b root offs' m x : dims_ok type blck size n ->
  view_base ts view offs = Some (Some (b, root), offs') -> 0 <= offs' <= T_MAX -> ggml_nbytes root = Some m ->
  ggml_new_tensor_impl type n view offs (c, ts) = Some x ->
  bytes_of blck size (pad_ne n) = 0 \/ offs' + bytes_of blck size (pad_ne n) <= m.
Proof.
  intros Hd Hbase Ho Hm. destruct (data_size_ok _ _ _ _ Hd) as (row & Er & Ef & Hb). pose proof T_MAX_le. destruct Hd as [Ht Hl _ _ _].
  unfold ggml_new_tensor_impl. rewrite (ggml_assert_bd (0 <= type < GGML_TYPE_COUNT)) by apply Ht. cbn [mbind option_bind].
  rewrite ggml_assert_bd by done. cbn [mbind option_bind]. rewrite Hbase. cbn [mbind option_bind]. rewrite Er. cbn [mbind option_bind]. rewrite Ef, Hm. cbn [mbind option_bind].
  destruct (decide (bytes_of blck size (pad_ne n) = 0 \/ u64_wrap (bytes_of blck size (pad_ne n) + offs') <= m)) as [D|D].
  - intros _. rewrite u64_small in D by lia. lia.
  - rewrite (bool_decide_false _ D). discriminate.
Qed.

Lemma impl_ok c ts type blck size n view offs base offs' : pool_ok c -> dims_ok type blck size n ->
  view_base ts view offs = Some (base, offs') -> 0 <= offs' <= T_MAX ->
  match base with None => True | Some (_, t) => exists m, ggml_nbytes t = Some m /\ (bytes_of blck size (pad_ne n) = 0 \/ offs' + bytes_of blck size (pad_ne n) <= m) end ->
  let alloc := alloc_size c base (bytes_of blck size (pad_ne n)) in can_create (GGML_TENSOR_SIZE + alloc) c ->
  exists r c', ggml_new_tensor_impl type n view offs (c, ts) = Some (r, (c', <[r := mkT type (pad_ne n) (packed_strides blck size (pad_ne n)) GGML_OP_NONE None (fst <$> base) offs'
    (if bool_decide (0 < alloc) then Some (r + GGML_TENSOR_SIZE) else match base with None => None | Some (_, t) => d ← data t; Some (d + offs') end)]> ts)) /\
    grown (GGML_TENSOR_SIZE + alloc) c c' r.
Proof.
  intros Hp Hdm Hbase Ho Hm alloc [Hroom Hk]. destruct (data_size_ok _ _ _ _ Hdm) as (row & Er & Ef & Q5). destruct Hdm as [Ht Hl Hf Hd Hv].
  pose proof T_MAX_le. destruct (typed_pos _ _ _ Ht) as [Hb Hs].
  destruct (pad_four n Hl Hf) as (a & b & cc & d & E & _ & H0 & H1 & H2 & H3 & _). rewrite E in *.
  unfold ggml_new_tensor_impl. rewrite (ggml_assert_bd (0 <= type < GGML_TYPE_COUNT)) by apply Ht. cbn [mbind option_bind].
  rewrite ggml_assert_bd by done. cbn [mbind option_bind]. rewrite Hbase. cbn [mbind option_bind].
  rewrite Er. cbn [mbind option_bind]. rewrite Ef. set (bytes := bytes_of blck size [a; b; cc; d]) in *.
  assert (forall k : bool -> option (Z * (ggml_context * gmap Z ggml_tensor)), (match base with None => Some true | Some (_, t) => m ← ggml_nbytes t; Some (bool_decide (bytes = 0 \/ u64_wrap (bytes + offs') <= m)) end) ≫= k = k true) as ->.
  { intros k. destruct base as [[bb t]|]; [|done]. destruct Hm as (m & -> & Hm). cbn [mbind option_bind].
    rewrite bool_decide_true; [done|]. rewrite u64_small by lia. lia. }
  cbn [ggml_assert mbind option_bind]. fold (alloc_size c base bytes).
  assert (alloc = alloc_size c base bytes) as Ea by (unfold alloc; by rewrite E). clearbody alloc. rewrite <- Ea.
  assert (0 <= alloc <= T_MAX) as Ha by (rewrite Ea; unfold alloc_size; destruct base; cbv beta iota; [lia|destruct (no_alloc c); cbv beta iota; lia]).
  assert (0 <= GGML_TENSOR_SIZE <= T_MAX) as HT by (split; vm_compute; discriminate). rewrite u64_small by lia.
  destruct (new_object_ok GGML_OBJECT_TYPE_TENSOR (GGML_TENSOR_SIZE + alloc) c Hp) as [-> Hp']; [lia|done|]. cbn [mbind option_bind].
  fold (pad_ne n). rewrite E, (typed_blck _ _ _ Ht), (typed_size _ _ _ Ht). cbn [mbind option_bind].
  rewrite strides_ok by (done || lia). cbn [mbind option_bind n_objects add_object]. rewrite i32_chk_Some by lia. cbn [mbind option_bind mem_size mem_buffer no_alloc objects].
  eexists _, _. split; [reflexivity|]. split_and!; [done|done|]. destruct Hp' as [P1 P2 P3]. by split.
Qed.

Lemma base_ok c ts a t offs blck size b root m : placed c ts a t blck size b root m -> ts !! a = Some t -> 0 <= offs -> offs + view_offs t <= T_MAX ->
  view_base ts (Some a) offs = Some (Some (b, root), offs + view_offs t).
Proof.
  intros H Ht Ho Hv. pose proof T_MAX_le. pose proof (pl_offs _ _ _ _ _ _ _ _ _ H). unfold view_base. rewrite Ht. cbn [mbind option_bind].
  destruct (pl_base _ _ _ _ _ _ _ _ _ H) as [->|(-> & -> & E)].
  - rewrite (pl_root _ _ _ _ _ _ _ _ _ H). cbn [mbind option_bind]. by rewrite u64_small by lia.
  - rewrite E, Z.add_0_r. pose proof (pl_root _ _ _ _ _ _ _ _ _ H). by simplify_eq.
Qed.

(** The tensor [ggml_new_tensor] makes. *)
Lemma dims_shaped type blck size n o s v w d : dims_ok type blck size n ->
  shaped (mkT type (pad_ne n) (packed_strides blck size (pad_ne n)) o s v w d) blck size.
Proof.
  intros [Ht Hl Hf Hd Hv]. destruct (typed_pos _ _ _ Ht) as [Hb Hs]. pose proof T_MAX_le.
  destruct (pad_four n Hl Hf) as (a & b & cc & dd & E & E0 & H0 & H1 & H2 & H3 & _). rewrite E in *.
  destruct (volume_bounds blck size a b cc dd Hb Hs H0 H1 H2 H3) as (Q0 & Q1 & Q2 & Q3 & Q4 & Q5 & Q6).
  split; cbn [t_type t_ne t_nb]; try done.
  - rewrite !Forall_cons. split_and!; done || apply Forall_nil_2.
  - assert (size <= SIZE_MAX) by (destruct Ht as (_ & _ & _ & ?); assert (292 <= SIZE_MAX) by by_eval; lia).
    unfold packed_strides. cbn [nth]. rewrite !Forall_cons. split_and!; first [lia|apply Forall_nil_2].
  - unfold ne. cbn [t_ne nth]. by rewrite <- E0.
Qed.

Lemma new_root_ok c ts type blck size n : state_ok (c, ts) -> dims_ok type blck size n ->
  let bytes := bytes_of blck size (pad_ne n) in
  can_create (GGML_TENSOR_SIZE + if no_alloc c then 0 else bytes) c ->
  exists r st', ggml_new_tensor type n (c, ts) = Some (r, st') /\ state_ok st' /\ ts !! r = None /\
    exists t, st'.2 = <[r := t]> ts /\ t_type t = type /\ t_ne t = pad_ne n /\ packed blck size t /\ view_src t = None /\ ggml_nbytes t = Some bytes.
Proof.
  intros Hst Hd bytes Hroom. pose proof Hd as [Ht Hl Hf Hdv Hv]. destruct (typed_pos _ _ _ Ht) as [Hb Hs].
  destruct (impl_ok c ts type blck size n None 0 None 0 (proj1 Hst) Hd eq_refl ltac:(by vm_compute) I Hroom) as (r & c' & E & Hg).
  unfold ggml_new_tensor. rewrite E. eexists _, _. split; [reflexivity|]. pose proof (grown_fresh _ _ _ _ _ Hst Hg) as Hfr. cbn [snd].
  set (t := mkT _ _ _ _ _ _ _ _). pose proof (dims_shaped type blck size n GGML_OP_NONE None None 0 (data t) Hd) as Hsh. change (mkT _ _ _ _ _ _ _ (data t)) with t in Hsh.
  assert (packed blck size t) as Hpk by (apply packed_strides_packed; [apply Hsh|done]).
  assert (ggml_nbytes t = Some bytes) as Hn.
  { destruct (four _ (sh_ne _ _ _ Hsh)) as (x & y & z & w & Ex). pose proof (sh_pos _ _ _ Hsh) as F. rewrite Ex, !Forall_cons in F. destruct F as (?&?&?&?&_).
    eapply nbytes_packed; [done|exact Ex|done..| |done]. pose proof (sh_div _ _ _ Hsh) as D. unfold ne in D. by rewrite Ex in D. }
  assert (0 <= bytes) as Hpos.
  { destruct (pad_four n Hl Hf) as (x & y & z & w & Ex & _ & P0 & P1 & P2 & P3 & _). unfold bytes. rewrite Ex.
    apply (volume_bounds blck size x y z w Hb Hs P0 P1 P2 P3). }
  split_and!; [|done|by exists t]. eapply insert_ok; [done..|].
  exists blck, size, r, t, bytes. destruct Hg as (-> & -> & _). split; try done.
  - eexists. split; [cbn [objects]; apply elem_of_app; right; by apply list_elem_of_singleton|]. split; [done|]. split; [done|].
    cbn [next_object o_size]. unfold own_bytes, alloc_size. cbn [view_src no_alloc t fmap option_fmap option_map]. fold bytes.
    destruct (padded_ok GGML_MEM_ALIGN (GGML_TENSOR_SIZE + if no_alloc c then 0 else bytes)) as [_ ?]; [done| |lia].
    unfold GGML_TENSOR_SIZE. destruct (no_alloc c); lia.
  - by right.
  - by rewrite lookup_insert_eq.
  - cbn [t view_offs]. destruct (data t) as [x|] eqn:D; fold t; cbn [mbind option_bind]; [|done]. by rewrite Z.add_0_r.
  - right. cbn [t view_offs t_ne]. unfold bytes. lia.
  - intros i Hi. pose proof (packed_in_bytes blck size t i Hb Hs (sh_div _ _ _ Hsh) Hpk Hi) as [A B]. split; [done|]. cbn [t view_offs]. fold t. change (t_ne t) with (pad_ne n) in B. fold bytes in B. lia.
Qed.

(** The tensor a view starts as. *)
Definition fresh_view (type blck size : Z) (n : list Z) (b offs : Z) (root : ggml_tensor) : ggml_tensor :=
  mkT type (pad_ne n) (packed_strides blck size (pad_ne n)) GGML_OP_NONE None (Some b) offs (d ← data root; Some (d + offs)).

Lemma view_created c ts a t n offs blck size b root m : state_ok (c, ts) -> ts !! a = Some t -> placed c ts a t blck size b root m ->
  dims_ok (t_type t) blck size n -> 0 <= offs -> offs + view_offs t <= T_MAX ->
  bytes_of blck size (pad_ne n) = 0 \/ offs + view_offs t + bytes_of blck size (pad_ne n) <= m -> can_create GGML_TENSOR_SIZE c ->
  exists r c', ggml_new_tensor_impl (t_type t) n (Some a) offs (c, ts) = Some (r, (c', <[r := fresh_view (t_type t) blck size n b (offs + view_offs t) root]> ts)) /\
    grown GGML_TENSOR_SIZE c c' r.
Proof.
  intros Hst Ht Hp Hd Ho Hv Hfit Hroom. pose proof (pl_offs _ _ _ _ _ _ _ _ _ Hp).
  destruct (impl_ok c ts (t_type t) blck size n (Some a) offs (Some (b, root)) (offs + view_offs t) (proj1 Hst) Hd) as (r & c' & E & Hg).
  - eapply base_ok; done.
  - lia.
  - exists m. split; [apply Hp|done].
  - simpl. by rewrite Z.add_0_r.
  - exists r, c'. simpl in E, Hg. rewrite Z.add_0_r in Hg. by split.
Qed.

(** Whatever a constructor then writes into the view must keep its elements in
    the root. *)
Lemma view_final c ts a t c' r u blck size b root m : state_ok (c, ts) -> ts !! a = Some t -> placed c ts a t blck size b root m ->
  grown GGML_TENSOR_SIZE c c' r -> shaped u blck size -> view_src u = Some b -> 0 <= view_offs u <= T_MAX ->
  data u = (d ← data root; Some (d + view_offs u)) -> bytes_of blck size (t_ne u) = 0 \/ view_offs u + bytes_of blck size (t_ne u) <= m ->
  (forall i, in_shape u i -> 0 <= elem_offset blck u i /\ view_offs u + elem_offset blck u i + size <= m) ->
  state_ok (c', <[r := u]> ts).
Proof.
  intros Hst Ht Hp Hg Hsh Hb Ho Hda Hfit Hin. pose proof (grown_fresh _ _ _ _ _ Hst Hg) as Hfr. eapply insert_ok; [done..|].
  exists blck, size, b, root, m. destruct Hp. destruct Hg as (-> & -> & _). split; try done.
  - eexists. split; [cbn [objects]; apply elem_of_app; right; by apply list_elem_of_singleton|]. split; [done|]. split; [done|].
    cbn [next_object o_size]. unfold own_bytes. rewrite Hb. destruct (padded_ok GGML_MEM_ALIGN GGML_TENSOR_SIZE) as [_ ?]; [done..|lia].
  - by left.
  - rewrite lookup_insert_ne; [done|]. intros E. rewrite E in Hfr. congruence.
Qed.

Lemma update_ok c' r t f (ts : gmap Z ggml_tensor) : update_tensor r f (c', <[r := t]> ts) = Some (r, (c', <[r := f t]> ts)).
Proof. unfold update_tensor. cbn [fst snd]. rewrite lookup_insert_eq. cbn [mbind option_bind]. by rewrite insert_insert_eq. Qed.

(** Strides given by the caller. *)
Lemma view_strided c ts a t n offs nb1 nb2 nb3 blck size b root m : state_ok (c, ts) -> ts !! a = Some t -> placed c ts a t blck size b root m ->
  dims_ok (t_type t) blck size n -> 0 <= offs -> offs + view_offs t <= T_MAX ->
  bytes_of blck size (pad_ne n) = 0 \/ offs + view_offs t + bytes_of blck size (pad_ne n) <= m -> can_create GGML_TENSOR_SIZE c ->
  0 <= nb1 <= SIZE_MAX -> 0 <= nb2 <= SIZE_MAX -> 0 <= nb3 <= SIZE_MAX ->
  let v := mkT (t_type t) (pad_ne n) [size; nb1; nb2; nb3] GGML_OP_VIEW (Some a) (Some b) (offs + view_offs t) (d ← data root; Some (d + (offs + view_offs t))) in
  (forall i, in_shape v i -> offs + view_offs t + elem_offset blck v i + size <= m) ->
  exists r st1 st', ggml_view_impl a n offs (c, ts) = Some (r, st1) /\ update_tensor r (set_strides nb1 nb2 nb3) st1 = Some (r, st') /\
    state_ok st' /\ ts !! r = None /\ st'.2 = <[r := v]> ts.
Proof.
  intros Hst Ht Hp Hd Ho Hv Hfit Hroom N1 N2 N3 v Hin. pose proof (pl_offs _ _ _ _ _ _ _ _ _ Hp) as Hvo.
  destruct (view_created c ts a t n offs blck size b root m Hst Ht Hp Hd Ho Hv Hfit Hroom) as (r & c' & E & Hg).
  exists r. unfold ggml_view_impl. cbn [fst snd]. rewrite Ht. cbn [mbind option_bind]. rewrite E. cbn [mbind option_bind]. rewrite update_ok.
  eexists _, _. split; [reflexivity|]. rewrite update_ok. split; [reflexivity|]. split; [|split; [by eapply grown_fresh|done]].
  destruct (dims_shaped _ _ _ _ GGML_OP_VIEW (Some a) (Some b) (offs + view_offs t) (data v) Hd) as [S1 S2 S3 S4 S5 S6 S7].
  destruct (typed_pos _ _ _ S1). assert (shaped v blck size) as Hsh.
  { split; try done. cbn [v t_nb]. cbn [t_nb] in S5. unfold packed_strides in S5. rewrite !Forall_cons in *. destruct S5 as (? & _). split_and!; try done; try lia; apply Forall_nil_2. }
  change (state_ok (c', <[r := v]> ts)). eapply view_final; [exact Hst|done..|cbn [v view_offs]; lia|done|done|].
  intros i Hi. split; [|by apply Hin]. destruct Hi as (I0 & I1 & I2 & I3). unfold elem_offset, nb. cbn [v t_nb nth].
  assert (0 <= x0 i / blck) by (apply Z.div_pos; lia). nia.
Qed.

(** ** Views that keep the strides of a packed tensor *)

Lemma empty_bytes blck size t i m o : typed (t_type t) blck size -> (blck | ne t 0) -> packed blck size t -> in_shape t i ->
  bytes_of blck size (t_ne t) = 0 \/ o + bytes_of blck size (t_ne t) <= m -> 0 <= elem_offset blck t i /\ o + elem_offset blck t i + size <= m.
Proof. intros Ht Hd Hp Hi Hf. destruct (typed_pos _ _ _ Ht). destruct (packed_in_bytes blck size t i) as [A B]; try done. lia. Qed.

Lemma view_plain c ts a t n offs o blck size b root m : state_ok (c, ts) -> ts !! a = Some t -> placed c ts a t blck size b root m ->
  dims_ok (t_type t) blck size n -> 0 <= offs -> offs + view_offs t <= T_MAX ->
  bytes_of blck size (pad_ne n) = 0 \/ offs + view_offs t + bytes_of blck size (pad_ne n) <= m -> can_create GGML_TENSOR_SIZE c ->
  let v := with_op o a (fresh_view (t_type t) blck size n b (offs + view_offs t) root) in
  exists r st1 st', ggml_new_tensor_impl (t_type t) n (Some a) offs (c, ts) = Some (r, st1) /\ update_tensor r (with_op o a) st1 = Some (r, st') /\
    state_ok st' /\ ts !! r = None /\ st'.2 = <[r := v]> ts /\ shaped v blck size /\ packed blck size v.
Proof.
  intros Hst Ht Hp Hd Ho Hv Hfit Hroom v. pose proof (pl_offs _ _ _ _ _ _ _ _ _ Hp) as Hvo.
  destruct (view_created c ts a t n offs blck size b root m Hst Ht Hp Hd Ho Hv Hfit Hroom) as (r & c' & E & Hg).
  exists r, (c', <[r := fresh_view (t_type t) blck size n b (offs + view_offs t) root]> ts), (c', <[r := v]> ts). split; [done|]. rewrite update_ok. split; [done|].
  assert (shaped v blck size) as Hsh by (by apply dims_shaped).
  assert (packed blck size v) as Hpk by (apply packed_strides_packed; [apply Hsh|done]).
  split_and!; try done; [|by eapply grown_fresh].
  eapply view_final; [exact Hst|done..|cbn [v with_op fresh_view view_offs]; lia|done|done|].
  intros i Hi. apply empty_bytes; try done; apply Hsh.
Qed.

(** ** Numbers of elements *)

Definition elements (e : list Z) : Z := nth 0 e 0 * nth 1 e 0 * nth 2 e 0 * nth 3 e 0.

Lemma bytes_elements blck size e : 0 < blck -> (blck | nth 0 e 0) -> blck * bytes_of blck size e = size * elements e.
Proof. intros Hb [q Hq]. unfold bytes_of, elements. rewrite Hq, Z.div_mul by lia. ring. Qed.

Lemma products_ok size a b c d : 0 < size -> 0 <= a -> 0 <= b -> 0 <= c -> 0 <= d -> volume size [a; b; c; d] <= T_MAX ->
  0 <= a * b <= T_MAX /\ 0 <= a * b * c <= T_MAX /\ 0 <= a * b * c * d <= T_MAX.
Proof.
  intros Hs H0 H1 H2 H3 Hv. destruct (volume_bounds 1 1 a b c d) as (_ & _ & _ & A & B & C & _); [lia..|]. unfold bytes_of in C. cbn [nth] in *. rewrite Z.div_1_r, !Z.mul_1_l in *.
  assert (volume 1 [a; b; c; d] <= volume size [a; b; c; d]) as Hle; [|split_and!; lia].
  unfold volume. cbn [nth]. set (ma := Z.max 1 a). set (mb := Z.max 1 b). set (mc := Z.max 1 c). set (md := Z.max 1 d).
  assert (1 <= ma /\ 1 <= mb /\ 1 <= mc /\ 1 <= md) as (?&?&?&?) by lia. replace (1 * ma * mb * mc * md) with (1 * (ma * mb * mc * md)) by ring.
  replace (size * ma * mb * mc * md) with (size * (ma * mb * mc * md)) by ring. apply Z.mul_le_mono_nonneg_r; [|lia].
  assert (0 <= ma * mb) by nia. assert (0 <= ma * mb * mc) by nia. nia.
Qed.

Lemma nelements_ok t blck size : shaped t blck size -> ggml_nelements t = Some (elements (t_ne t)).
Proof.
  intros H. destruct (typed_pos _ _ _ (sh_typed _ _ _ H)) as [_ Hs]. pose proof (sh_vol _ _ _ H) as Hv. pose proof (sh_pos _ _ _ H) as Hp.
  destruct (four _ (sh_ne _ _ _ H)) as (a & b & c & d & E). unfold ggml_nelements, ne. rewrite E in *. cbn [nth]. rewrite !Forall_cons in Hp. destruct Hp as (?&?&?&?&_).
  destruct (products_ok size a b c d) as (A & B & C); try done. rewrite (i64_chk_ok _ A). cbn [mbind option_bind]. rewrite (i64_chk_ok _ B). cbn [mbind option_bind]. by rewrite (i64_chk_ok _ C).
Qed.

Lemma product_ok type blck size n : dims_ok type blck size n -> product n = Some (elements (pad_ne n)).
Proof.
  intros [Ht Hl Hf _ Hv]. destruct (typed_pos _ _ _ Ht) as [_ Hs]. unfold pad_ne, GGML_MAX_DIMS, product in *. rewrite Forall_forall in Hf.
  destruct n as [|a [|b [|c [|d [|e l]]]]]; cbn [length] in *; try lia; cbn [Nat.sub replicate app tail nth foldM] in *; unfold elements; cbn [nth].
  - by rewrite !Z.mul_1_r.
  - destruct (products_ok size a b 1 1) as (A & B & C); try done; [apply Hf; set_solver..|]. rewrite (i64_chk_ok _ A). cbn [mbind option_bind foldM]. by rewrite !Z.mul_1_r.
  - destruct (products_ok size a b c 1) as (A & B & C); try done; [apply Hf; set_solver..|]. rewrite (i64_chk_ok _ A). cbn [mbind option_bind foldM]. rewrite (i64_chk_ok _ B). cbn [mbind option_bind foldM]. by rewrite Z.mul_1_r.
  - destruct (products_ok size a b c d) as (A & B & C); try done; [apply Hf; set_solver..|]. rewrite (i64_chk_ok _ A). cbn [mbind option_bind foldM]. rewrite (i64_chk_ok _ B). cbn [mbind option_bind foldM]. by rewrite (i64_chk_ok _ C).
Qed.

Lemma shaped_pos t blck size k : shaped t blck size -> (k < 4)%nat -> 0 <= ne t k.
Proof.
  intros H Hk. pose proof (sh_pos _ _ _ H) as Hp. destruct (four _ (sh_ne _ _ _ H)) as (a & b & c & d & E). unfold ne. rewrite E in *. rewrite !Forall_cons in Hp.
  assert (k = 0 \/ k = 1 \/ k = 2 \/ k = 3)%nat as [->|[->|[->| ->]]] by lia; cbn [nth]; tauto.
Qed.

Lemma reshape_ok c ts a t n blck size b root m : state_ok (c, ts) -> ts !! a = Some t -> placed c ts a t blck size b root m ->
  dims_ok (t_type t) blck size n -> ggml_is_contiguous t = Some true -> elements (pad_ne n) = elements (t_ne t) -> can_create GGML_TENSOR_SIZE c ->
  let v := with_op GGML_OP_RESHAPE a (fresh_view (t_type t) blck size n b (view_offs t) root) in
  exists r st', ggml_reshape_nd a n (c, ts) = Some (r, st') /\ state_ok st' /\ ts !! r = None /\ st'.2 = <[r := v]> ts /\ packed blck size v /\ packed blck size t.
Proof.
  intros Hst Ht Hp Hd Hc He Hroom v. pose proof (pl_shape _ _ _ _ _ _ _ _ _ Hp) as Hsh. destruct (typed_pos _ _ _ (sh_typed _ _ _ Hsh)) as [Hb Hs].
  assert (bytes_of blck size (pad_ne n) = bytes_of blck size (t_ne t)) as Eb.
  { apply (Z.mul_reg_l _ _ blck); [lia|]. rewrite !bytes_elements by (done || (eapply sh_div; done) ||
      (pose proof (dims_shaped _ _ _ _ GGML_OP_NONE None None 0 None Hd) as D; exact (sh_div _ _ _ D))). by rewrite He. }
  pose proof (pl_offs _ _ _ _ _ _ _ _ _ Hp) as Hvo. pose proof (pl_fits _ _ _ _ _ _ _ _ _ Hp) as Hfit.
  destruct (view_plain c ts a t n 0 GGML_OP_RESHAPE blck size b root m Hst Ht Hp Hd ltac:(lia) ltac:(lia) ltac:(rewrite Eb; lia) Hroom) as (r & st1 & st' & E1 & E2 & S & F & U & Hsv & Hpv).
  rewrite Z.add_0_l in *. exists r, st'. unfold ggml_reshape_nd. cbn [snd]. rewrite Ht. cbn [mbind option_bind]. rewrite Hc. cbn [mbind option_bind ggml_assert].
  rewrite (nelements_ok _ _ _ Hsh), (product_ok _ _ _ _ Hd). cbn [mbind option_bind]. rewrite ggml_assert_bd by done. cbn [mbind option_bind]. rewrite E1. cbn [mbind option_bind].
  split_and!; try done. destruct (contiguous_packed blck size t (sh_typed _ _ _ Hsh)) as (x & Hx & Hpk).
  - intros k Hk. exact (shaped_pos _ _ _ k Hsh Hk).
  - pose proof (sh_vol _ _ _ Hsh) as Hvol. pose proof T_MAX_le. unfold volume in Hvol. fold (ne t 0) (ne t 1) (ne t 2) (ne t 3) in Hvol. lia.
  - apply Hpk. congruence.
Qed.

(** ** Permutations of the dimensions *)

Definition axes_ok (axes : list nat) : Prop := (length axes = GGML_MAX_DIMS /\ Forall (fun x => x < GGML_MAX_DIMS)%nat axes) /\ NoDup axes.

Lemma to_int_id z : 0 <= z < 2147483648 -> to_int z = z.
Proof. intros H. unfold to_int. rewrite Z.mod_small by lia. by rewrite bool_decide_true by lia. Qed.

Lemma scatter_nth axes y k : axes_ok axes -> length y = GGML_MAX_DIMS -> (k < 4)%nat ->
  length (scatter_int axes dims y) = GGML_MAX_DIMS /\ nth (nth k axes 0%nat) (scatter_int axes dims y) 0 = to_int (nth k y 0).
Proof.
  intros [[Hl Hf] Hn] Hy Hk. destruct (four _ Hl) as (a & b & c & d & ->). destruct (four _ Hy) as (y0 & y1 & y2 & y3 & ->).
  rewrite !Forall_cons in Hf. destruct Hf as (Ha & Hb & Hc & Hd & _). unfold GGML_MAX_DIMS in *.
  rewrite !NoDup_cons in Hn. destruct Hn as (N0 & N1 & N2 & _). rewrite !not_elem_of_cons in *. destruct N0 as (?&?&?&_). destruct N1 as (?&?&_). destruct N2 as (?&_).
  unfold scatter_int. change dims with [0; 1; 2; 3]%nat. cbn [foldl nth]. split; [by rewrite !length_insert|].
  assert (k = 0 \/ k = 1 \/ k = 2 \/ k = 3)%nat as [->|[->|[->| ->]]] by lia; cbn [nth]; rewrite nth_lookup;
    rewrite ?list_lookup_insert_ne by done; by rewrite list_lookup_insert_eq by (rewrite ?length_insert; done).
Qed.

Definition comp (j : index) (k : nat) : Z := nth k [x0 j; x1 j; x2 j; x3 j] 0.

(** The element of the original that element [j] of the permuted tensor is. *)
Definition original (axes : list nat) (j : index) : index :=
  Ix (comp j (nth 0 axes 0%nat)) (comp j (nth 1 axes 0%nat)) (comp j (nth 2 axes 0%nat)) (comp j (nth 3 axes 0%nat)).

Definition all_axes : list (list nat) := filter axes_ok (a ← seq 0 4; b ← seq 0 4; c ← seq 0 4; d ← seq 0 4; [[a; b; c; d]]).

Lemma axes_cases axes : axes_ok axes -> In axes all_axes.
Proof.
  intros H. apply list_elem_of_In. unfold all_axes. apply list_elem_of_filter. split; [done|]. destruct H as [[Hl Hf] _]. destruct (four _ Hl) as (a & b & c & d & ->).
  rewrite !Forall_cons in Hf. unfold GGML_MAX_DIMS in Hf. destruct Hf as (?&?&?&?&_).
  apply list_elem_of_bind. exists a. split; [|apply elem_of_seq; lia]. apply list_elem_of_bind. exists b. split; [|apply elem_of_seq; lia].
  apply list_elem_of_bind. exists c. split; [|apply elem_of_seq; lia]. apply list_elem_of_bind. exists d. split; [|apply elem_of_seq; lia]. by apply list_elem_of_singleton.
Qed.

(** [v] has dimension [axes k] of [t] as its dimension [k]. *)
Definition permuted (axes : list nat) (t v : ggml_tensor) : Prop :=
  length (t_ne v) = GGML_MAX_DIMS /\ length (t_nb v) = GGML_MAX_DIMS /\
  forall k, (k < 4)%nat -> ne v (nth k axes 0%nat) = ne t k /\ nb v (nth k axes 0%nat) = nb t k.

Lemma permuted_layout axes t v blck size : axes_ok axes -> permuted axes t v -> length (t_ne t) = GGML_MAX_DIMS -> length (t_nb t) = GGML_MAX_DIMS ->
  blck = 1 \/ nth 0 axes 0%nat = 0%nat ->
  volume size (t_ne v) = volume size (t_ne t) /\ bytes_of blck size (t_ne v) = bytes_of blck size (t_ne t) /\
  (forall P : Z -> Prop, Forall P (t_ne t) -> Forall P (t_ne v)) /\ (forall P : Z -> Prop, Forall P (t_nb t) -> Forall P (t_nb v)) /\
  (forall j, in_shape v j -> in_shape t (original axes j) /\ elem_offset blck v j = elem_offset blck t (original axes j)).
Proof.
  intros Hax (Hl1 & Hl2 & Hk) Hn Hb Hd. apply axes_cases in Hax. unfold ne, nb in Hk. unfold in_shape, elem_offset, original, comp, ne, nb.
  destruct (four _ Hl1) as (n0 & n1 & n2 & n3 & E1). destruct (four _ Hl2) as (b0 & b1 & b2 & b3 & E2).
  destruct (four _ Hn) as (m0 & m1 & m2 & m3 & E3). destruct (four _ Hb) as (c0 & c1 & c2 & c3 & E4). rewrite E1, E2, E3, E4 in *. clear E1 E2 E3 E4.
  pose proof (Hk 0%nat ltac:(lia)) as K0. pose proof (Hk 1%nat ltac:(lia)) as K1. pose proof (Hk 2%nat ltac:(lia)) as K2. pose proof (Hk 3%nat ltac:(lia)) as K3. clear Hk Hl1 Hl2 Hn Hb.
  assert (all_axes = ltac:(let l := eval vm_compute in all_axes in exact l)) as Eall by (vm_compute; reflexivity). rewrite Eall in Hax. clear Eall. cbn [In] in Hax.
  repeat match type of Hax with _ \/ _ => destruct Hax as [<-|Hax] end; [..|done]; cbn [nth] in *; destruct K0 as [-> ->], K1 as [-> ->], K2 as [-> ->], K3 as [-> ->];
    (split; [unfold volume; cbn [nth]; ring|]); (split; [unfold bytes_of; cbn [nth]; destruct Hd as [->|?]; [rewrite !Z.div_1_r; ring|first [ring|done]]|]);
    (split; [intros P; rewrite !Forall_cons; tauto|]); (split; [intros P; rewrite !Forall_cons; tauto|]);
    intros j Hj; (split; [cbn [x0 x1 x2 x3]; tauto|]); cbn [x0 x1 x2 x3]; (destruct Hd as [->|?]; [rewrite !Z.div_1_r; ring|first [ring|done]]).
Qed.

Lemma pad_full n : length n = GGML_MAX_DIMS -> pad_ne n = n.
Proof. intros H. unfold pad_ne. rewrite H. by rewrite Nat.sub_diag, app_nil_r. Qed.

Lemma shaped_dims t blck size : shaped t blck size -> dims_ok (t_type t) blck size (t_ne t).
Proof. intros []. split; try done; [rewrite sh_ne0; unfold GGML_MAX_DIMS; lia|by rewrite pad_full]. Qed.

(** [ggml_view_tensor] followed by a change of layout that permutes. *)
Lemma permuted_ok c ts a t axes o n b' blck size b root m : state_ok (c, ts) -> ts !! a = Some t -> placed c ts a t blck size b root m ->
  can_create GGML_TENSOR_SIZE c -> axes_ok axes -> blck = 1 \/ nth 0 axes 0%nat = 0%nat ->
  let v := mkT (t_type t) n b' o (Some a) (Some b) (view_offs t) (d ← data root; Some (d + view_offs t)) in permuted axes t v ->
  exists r st1, ggml_view_tensor a (c, ts) = Some (r, st1) /\
    (forall f, (forall u, t_ne u = t_ne t -> t_nb u = t_nb t -> f u = with_layout n b' u) ->
      exists st2 st', update_tensor r f st1 = Some (r, st2) /\ update_tensor r (with_op o a) st2 = Some (r, st') /\ state_ok st' /\ st'.2 = <[r := v]> ts) /\
    ts !! r = None /\ forall j, in_shape v j -> in_shape t (original axes j) /\ elem_offset blck v j = elem_offset blck t (original axes j).
Proof.
  intros Hst Ht Hp Hroom Hax Hd v Hperm. pose proof (pl_shape _ _ _ _ _ _ _ _ _ Hp) as Hsh. pose proof (pl_offs _ _ _ _ _ _ _ _ _ Hp) as Hvo.
  pose proof (pl_fits _ _ _ _ _ _ _ _ _ Hp) as Hfit. pose proof (pad_full _ (sh_ne _ _ _ Hsh)) as Hpad.
  destruct (permuted_layout axes t v blck size Hax Hperm (sh_ne _ _ _ Hsh) (sh_nb _ _ _ Hsh) Hd) as (P1 & P2 & P3 & P4 & P5).
  destruct (view_created c ts a t (t_ne t) 0 blck size b root m Hst Ht Hp (shaped_dims _ _ _ Hsh) ltac:(lia) ltac:(lia) ltac:(rewrite Hpad; lia) Hroom) as (r & c' & E & Hg).
  rewrite Z.add_0_l in E. set (w := fresh_view _ _ _ _ _ _ _) in E.
  exists r, (c', <[r := with_layout (t_ne w) (t_nb t) w]> ts). split; [|split; [|split; [by eapply grown_fresh|exact P5]]].
  - unfold ggml_view_tensor. cbn [snd]. rewrite Ht. cbn [mbind option_bind]. rewrite E. cbn [mbind option_bind]. by rewrite update_ok.
  - intros f Hf. rewrite !update_ok. eexists _, _. split; [reflexivity|]. rewrite update_ok. split; [reflexivity|]. rewrite (Hf (with_layout (t_ne w) (t_nb t) w) Hpad eq_refl).
    split; [|done]. change (state_ok (c', <[r := v]> ts)). eapply view_final; [exact Hst|done..| | | | | |].
    + destruct Hsh. destruct Hperm as (L1 & L2 & K). split; try done; [by apply P3|by apply P4| |by rewrite P1].
      destruct Hd as [->|E0]; [apply Z.divide_1_l|]. destruct (K 0%nat ltac:(lia)) as [K0 _]. rewrite E0 in K0. by rewrite K0.
    + done.
    + exact Hvo.
    + done.
    + rewrite P2. exact Hfit.
    + intros i Hi. destruct (P5 i Hi) as [Q1 ->]. by apply (pl_in _ _ _ _ _ _ _ _ _ Hp).
Qed.

Lemma nth_Forall {P : Z -> Prop} l k : Forall P l -> (k < length l)%nat -> P (nth k l 0).
Proof. intros F Hk. rewrite Forall_forall in F. apply F. apply list_elem_of_In. by apply nth_In. Qed.

Lemma nth_wrap k l : nth k (u64_wrap <$> l) 0 = u64_wrap (nth k l 0).
Proof. revert k. induction l as [|x l IH]; intros [|k]; try done. apply IH. Qed.

Lemma permute_ok c ts a t axes blck size b root m : state_ok (c, ts) -> ts !! a = Some t -> placed c ts a t blck size b root m ->
  can_create GGML_TENSOR_SIZE c -> axes_ok axes -> blck = 1 \/ nth 0 axes 0%nat = 0%nat ->
  Forall (fun e => e < 2147483648) (t_ne t) -> Forall (fun e => e < 2147483648) (t_nb t) ->
  exists r st' v, ggml_permute a axes (c, ts) = Some (r, st') /\ state_ok st' /\ ts !! r = None /\ st'.2 = <[r := v]> ts /\ permuted axes t v /\
    view_src v = Some b /\ view_offs v = view_offs t /\
    forall j, in_shape v j -> in_shape t (original axes j) /\ elem_offset blck v j = elem_offset blck t (original axes j).
Proof.
  intros Hst Ht Hp Hroom Hax Hd Hn Hb. pose proof (pl_shape _ _ _ _ _ _ _ _ _ Hp) as Hsh. pose proof (sh_ne _ _ _ Hsh) as Ln. pose proof (sh_nb _ _ _ Hsh) as Lb.
  set (n := scatter_int axes dims (t_ne t)). set (b' := u64_wrap <$> scatter_int axes dims (t_nb t)).
  set (v := mkT (t_type t) n b' GGML_OP_PERMUTE (Some a) (Some b) (view_offs t) (d ← data root; Some (d + view_offs t))).
  assert (permuted axes t v) as Hperm.
  { split_and!; cbn [v t_ne t_nb]; [apply (scatter_nth axes (t_ne t) 0 Hax Ln); lia|unfold b'; rewrite length_fmap; apply (scatter_nth axes (t_nb t) 0 Hax Lb); lia|].
    intros k Hk. assert (k < length (t_ne t) /\ k < length (t_nb t))%nat as [K1 K2] by (rewrite Ln, Lb; unfold GGML_MAX_DIMS; lia). unfold ne, nb. cbn [v t_ne t_nb]. split.
    - destruct (scatter_nth axes (t_ne t) k Hax Ln Hk) as [_ E]. unfold n. rewrite E. apply to_int_id. split; [by apply (shaped_pos t blck size)|exact (nth_Forall _ k Hn K1)].
    - destruct (scatter_nth axes (t_nb t) k Hax Lb Hk) as [_ E]. unfold b'. rewrite nth_wrap, E.
      pose proof (nth_Forall _ k (sh_strd _ _ _ Hsh) K2) as [? ?]. pose proof (nth_Forall _ k Hb K2). cbv beta in *. rewrite to_int_id by lia. by apply u64_small. }
  destruct (permuted_ok c ts a t axes GGML_OP_PERMUTE n b' blck size b root m Hst Ht Hp Hroom Hax Hd Hperm) as (r & st1 & E & Hf & Hfr & Hj).
  destruct (Hf (with_layout n b')) as (st2 & st' & E1 & E2 & S & U); [done|].
  exists r, st', v. unfold ggml_permute. destruct Hax as [Hax1 Hax2]. rewrite ggml_assert_bd by done. cbn [mbind option_bind]. rewrite ggml_assert_bd by done. cbn [mbind option_bind snd].
  rewrite Ht. cbn [mbind option_bind]. rewrite E. cbn [mbind option_bind]. fold n b'. rewrite E1. cbn [mbind option_bind]. rewrite E2. by split_and!.
Qed.

Lemma transpose_ok c ts a t size b root m : state_ok (c, ts) -> ts !! a = Some t -> placed c ts a t 1 size b root m -> can_create GGML_TENSOR_SIZE c ->
  exists r st' v, ggml_transpose a (c, ts) = Some (r, st') /\ state_ok st' /\ ts !! r = None /\ st'.2 = <[r := v]> ts /\ permuted [1; 0; 2; 3]%nat t v /\
    view_src v = Some b /\ view_offs v = view_offs t /\
    forall j, in_shape v j -> in_shape t (original [1; 0; 2; 3]%nat j) /\ elem_offset 1 v j = elem_offset 1 t (original [1; 0; 2; 3]%nat j).
Proof.
  intros Hst Ht Hp Hroom. set (n := [ne t 1; ne t 0; ne t 2; ne t 3]). set (b' := [nb t 1; nb t 0; nb t 2; nb t 3]).
  set (v := mkT (t_type t) n b' GGML_OP_TRANSPOSE (Some a) (Some b) (view_offs t) (d ← data root; Some (d + view_offs t))).
  assert (permuted [1; 0; 2; 3]%nat t v) as Hperm.
  { split_and!; [done..|]. intros k Hk. assert (k = 0 \/ k = 1 \/ k = 2 \/ k = 3)%nat as [->|[->|[->| ->]]] by lia; done. }
  assert (axes_ok [1; 0; 2; 3]%nat) as Hax by by_eval.
  destruct (permuted_ok c ts a t [1; 0; 2; 3]%nat GGML_OP_TRANSPOSE n b' 1 size b root m Hst Ht Hp Hroom Hax ltac:(by left) Hperm) as (r & st1 & E & Hf & Hfr & Hj).
  destruct (Hf (fun u => with_layout [ne t 1; ne t 0; ne u 2; ne u 3] [nb t 1; nb t 0; nb u 2; nb u 3] u)) as (st2 & st' & E1 & E2 & S & U).
  { intros u Hu1 Hu2. unfold ne, nb. by rewrite Hu1, Hu2. }
  exists r, st', v. unfold ggml_transpose. cbn [snd]. rewrite Ht. cbn [mbind option_bind]. rewrite E. cbn [mbind option_bind]. rewrite E1. cbn [mbind option_bind]. rewrite E2. by split_and!.
Qed.

End Create.
End GgmlPool.
