(* ===== verification/GgmlViews.v ===== *)
(** Programs that build tensors and views: each step succeeds when what it asks
    for is well-formed, the elements of every tensor stay inside the bytes of the
    tensor that owns them, and reshaping and permuting rename elements without
    moving them. *)

From S2P Require Import Prelude.
From S2P Require Import TensorAlloc.
From S2P Require Import TensorAllocOk.
From S2P Require Import LinearAlloc.
From S2P Require Import GgmlTensor.
From S2P Require Import GgmlTensorOk.
From S2P Require Import GgmlPool.
Import TensorAlloc.TensorAlloc TensorAllocOk.TensorAllocOk LinearAlloc.LinearAlloc GgmlTensor.GgmlTensor GgmlTensorOk.GgmlTensorOk GgmlPool.GgmlPool.

Module GgmlViews.
Local Open Scope Z_scope.

Inductive tensor_op :=
  | TNew (type : Z) (n : list Z)
  | TView1 (a ne0 offs : Z)
  | TView2 (a ne0 ne1 nb1 offs : Z)
  | TView3 (a ne0 ne1 ne2 nb1 nb2 offs : Z)
  | TView4 (a ne0 ne1 ne2 ne3 nb1 nb2 nb3 offs : Z)
  | TReshape (a : Z) (n : list Z)
  | TPermute (a : Z) (axes : list nat)
  | TTranspose (a : Z).

Abbreviation state := (ggml_context * gmap Z ggml_tensor)%type (only parsing).

Definition exec_tensor `{BM : BuildMode} (o : tensor_op) (st : state) : option (Z * state) :=
  match o with
  | TNew type n => ggml_new_tensor type n st
  | TView1 a ne0 offs => ggml_view_1d a ne0 offs st
  | TView2 a ne0 ne1 nb1 offs => ggml_view_2d a ne0 ne1 nb1 offs st
  | TView3 a ne0 ne1 ne2 nb1 nb2 offs => ggml_view_3d a ne0 ne1 ne2 nb1 nb2 offs st
  | TView4 a ne0 ne1 ne2 ne3 nb1 nb2 nb3 offs => ggml_view_4d a ne0 ne1 ne2 ne3 nb1 nb2 nb3 offs st
  | TReshape a n => ggml_reshape_nd a n st
  | TPermute a axes => ggml_permute a axes st
  | TTranspose a => ggml_transpose a st
  end.

(** The tensor that owns the data, and its bytes. *)
Definition base_of (a : Z) (t : ggml_tensor) : Z := default a (view_src t).
Definition root_bytes (ts : gmap Z ggml_tensor) (a : Z) (t : ggml_tensor) : option Z := root ← ts !! base_of a t; ggml_nbytes root.

(** A view of [a]: there is room for its header, the shape has whole blocks, and
    the offset does not overflow.  Nothing is assumed about the bytes of the tensor
    that owns the data. *)
Record view_pre (st : state) (a : Z) (n : list Z) (offs : Z) : Prop := {
  vp_room : can_create GGML_TENSOR_SIZE st.1;
  vp_view : exists t blck size, st.2 !! a = Some t /\ dims_ok (t_type t) blck size n /\ 0 <= offs /\ offs + view_offs t <= T_MAX;
}.

(** The packed size of the view passes the assertion of [ggml_new_tensor_impl]. *)
Definition view_fits (st : state) (a : Z) (n : list Z) (offs : Z) : Prop :=
  exists t blck size m, st.2 !! a = Some t /\ typed (t_type t) blck size /\ root_bytes st.2 a t = Some m /\
    (bytes_of blck size (pad_ne n) = 0 \/ offs + view_offs t + bytes_of blck size (pad_ne n) <= m).

Definition op_fits (o : tensor_op) (st : state) : Prop :=
  match o with
  | TView1 a ne0 offs => view_fits st a [ne0] offs
  | TView2 a ne0 ne1 nb1 offs => view_fits st a [ne0; ne1] offs
  | TView3 a ne0 ne1 ne2 nb1 nb2 offs => view_fits st a [ne0; ne1; ne2] offs
  | TView4 a ne0 ne1 ne2 ne3 nb1 nb2 nb3 offs => view_fits st a [ne0; ne1; ne2; ne3] offs
  | _ => True
  end.

(** The code does not check strides a caller gives.  They are those of a box of
    the tensor viewed ... *)
Definition box_of (blck : Z) (t v : ggml_tensor) (offs : Z) : Prop :=
  exists c, (blck | x0 c) /\ offs = elem_offset blck t c /\
    0 <= x0 c /\ x0 c + ne v 0 <= ne t 0 /\ 0 <= x1 c /\ x1 c + ne v 1 <= ne t 1 /\
    0 <= x2 c /\ x2 c + ne v 2 <= ne t 2 /\ 0 <= x3 c /\ x3 c + ne v 3 <= ne t 3 /\
    (ne v 0 <= blck \/ nb v 0 = nb t 0) /\ (ne v 1 <= 1 \/ nb v 1 = nb t 1) /\ (ne v 2 <= 1 \/ nb v 2 = nb t 2) /\ (ne v 3 <= 1 \/ nb v 3 = nb t 3).

(** ... or any others with which the last element of the view is in the root. *)
Definition span (blck size : Z) (v : ggml_tensor) : Z :=
  (ne v 0 / blck - 1) * nb v 0 + (ne v 1 - 1) * nb v 1 + (ne v 2 - 1) * nb v 2 + (ne v 3 - 1) * nb v 3 + size.

Definition strides_pre (st : state) (a : Z) (n : list Z) (offs : Z) (strd : Z -> list Z) : Prop :=
  forall t blck size m, st.2 !! a = Some t -> typed (t_type t) blck size -> root_bytes st.2 a t = Some m ->
    let v := with_layout (pad_ne n) (strd size) t in
    box_of blck t v offs \/ elements (pad_ne n) = 0 \/ offs + view_offs t + span blck size v <= m.

Definition size_t (z : Z) : Prop := 0 <= z <= SIZE_MAX.

(** What a caller has to respect. *)
Definition tensor_pre (o : tensor_op) (st : state) : Prop :=
  match o with
  | TNew type n => exists blck size, dims_ok type blck size n /\
      can_create (GGML_TENSOR_SIZE + if no_alloc st.1 then 0 else bytes_of blck size (pad_ne n)) st.1
  | TView1 a ne0 offs => view_pre st a [ne0] offs
  | TView2 a ne0 ne1 nb1 offs => size_t nb1 /\
      view_pre st a [ne0; ne1] offs /\ strides_pre st a [ne0; ne1] offs (fun size => [size; nb1; u64_wrap (nb1 * ne1); u64_wrap (nb1 * ne1)])
  | TView3 a ne0 ne1 ne2 nb1 nb2 offs => size_t nb1 /\ size_t nb2 /\
      view_pre st a [ne0; ne1; ne2] offs /\ strides_pre st a [ne0; ne1; ne2] offs (fun size => [size; nb1; nb2; u64_wrap (nb2 * ne2)])
  | TView4 a ne0 ne1 ne2 ne3 nb1 nb2 nb3 offs => size_t nb1 /\ size_t nb2 /\ size_t nb3 /\
      view_pre st a [ne0; ne1; ne2; ne3] offs /\ strides_pre st a [ne0; ne1; ne2; ne3] offs (fun size => [size; nb1; nb2; nb3])
  | TReshape a n => can_create GGML_TENSOR_SIZE st.1 /\ exists t blck size, st.2 !! a = Some t /\ dims_ok (t_type t) blck size n /\
      ggml_is_contiguous t = Some true /\ elements (pad_ne n) = elements (t_ne t)
  | TPermute a axes => can_create GGML_TENSOR_SIZE st.1 /\ axes_ok axes /\ exists t, st.2 !! a = Some t /\
      (ggml_blck_size (t_type t) = Some 1 \/ nth 0 axes 0%nat = 0%nat) /\
      Forall (fun e => e < 2147483648) (t_ne t) /\ Forall (fun e => e < 2147483648) (t_nb t)
  | TTranspose a => can_create GGML_TENSOR_SIZE st.1 /\ exists t, st.2 !! a = Some t /\ ggml_blck_size (t_type t) = Some 1
  end.

Section Runs.
Context `{BM : BuildMode}.

Inductive tensor_run : state -> list tensor_op -> state -> Prop :=
  | run_nil st : tensor_run st [] st
  | run_cons st o r st1 os st2 : tensor_pre o st -> exec_tensor o st = Some (r, st1) -> tensor_run st1 os st2 -> tensor_run st (o :: os) st2.

Lemma typed_fun type b1 s1 b2 s2 : typed type b1 s1 -> typed type b2 s2 -> b1 = b2 /\ s1 = s2.
Proof. intros (_ & E1 & _) (_ & E2 & _). rewrite E1 in E2. by injection E2. Qed.

Lemma placed_typed c ts a t blck size b root m blck' size' n : placed c ts a t blck size b root m -> dims_ok (t_type t) blck' size' n -> blck' = blck /\ size' = size.
Proof. intros H Hd. eapply typed_fun; [apply Hd|apply H]. Qed.

Lemma placed_root c ts a t blck size b root m : placed c ts a t blck size b root m -> base_of a t = b /\ root_bytes ts a t = Some m.
Proof.
  intros H. unfold root_bytes. assert (base_of a t = b) as -> by (unfold base_of; by destruct (pl_base _ _ _ _ _ _ _ _ _ H) as [->|(-> & -> & _)]).
  split; [done|]. rewrite (pl_root _ _ _ _ _ _ _ _ _ H). apply H.
Qed.

(** One step, with the tensor it adds. *)
Definition stepped (o : tensor_op) (st : state) : Prop :=
  exists r st' v, exec_tensor o st = Some (r, st') /\ state_ok st' /\ st.2 !! r = None /\ st'.2 = <[r := v]> st.2.

(** A view the preconditions describe, in terms of the invariant of its parent. *)
Lemma view_facts c ts a n offs : state_ok (c, ts) -> view_pre (c, ts) a n offs ->
  exists t blck size b root m, ts !! a = Some t /\ placed c ts a t blck size b root m /\ root_bytes ts a t = Some m /\ dims_ok (t_type t) blck size n /\
    0 <= offs /\ offs + view_offs t <= T_MAX /\ can_create GGML_TENSOR_SIZE c /\
    (view_fits (c, ts) a n offs <-> bytes_of blck size (pad_ne n) = 0 \/ offs + view_offs t + bytes_of blck size (pad_ne n) <= m).
Proof.
  intros Hst [Hroom (t & blck & size & Ht & Hd & Ho & Hv)]. cbn [fst snd] in *. destruct (proj2 Hst a t Ht) as (blck' & size' & b & root & m & Hp).
  destruct (placed_typed _ _ _ _ _ _ _ _ _ _ _ _ Hp Hd) as [-> ->]. destruct (placed_root _ _ _ _ _ _ _ _ _ Hp) as [_ Hm]. cbn [snd] in Hm.
  exists t, blck', size', b, root, m. split_and!; try done. split.
  - intros (t' & blck & size & m' & Ht' & Hty & Hm' & Hfit). cbn [snd] in *. assert (t' = t) as -> by congruence. assert (m' = m) as -> by congruence.
    by destruct (typed_fun _ _ _ _ _ Hty (dm_typed _ _ _ _ Hd)) as [-> ->].
  - intros Hfit. exists t, blck', size', m. split_and!; try done. apply Hd.
Qed.

Lemma box_in blck size t v offs m : 0 < blck -> box_of blck t v offs ->
  (forall i, in_shape t i -> 0 <= elem_offset blck t i /\ view_offs t + elem_offset blck t i + size <= m) ->
  forall i, in_shape v i -> offs + view_offs t + elem_offset blck v i + size <= m.
Proof.
  intros Hb (c & [q Hq] & -> & C0 & C0' & C1 & C1' & C2 & C2' & C3 & C3' & N0 & N1 & N2 & N3) Hin i (I0 & I1 & I2 & I3).
  destruct (Hin (Ix (x0 c + x0 i) (x1 c + x1 i) (x2 c + x2 i) (x3 c + x3 i))) as [_ H]; [unfold in_shape; cbn [x0 x1 x2 x3]; lia|].
  enough (elem_offset blck t (Ix (x0 c + x0 i) (x1 c + x1 i) (x2 c + x2 i) (x3 c + x3 i)) = elem_offset blck t c + elem_offset blck v i) by lia.
  unfold elem_offset. cbn [x0 x1 x2 x3]. rewrite Hq, (Z.add_comm (q * blck)), Z.div_add, Z.div_mul by lia.
  assert (x0 i / blck * nb v 0 = x0 i / blck * nb t 0) as -> by (destruct N0 as [N0| ->]; [rewrite Z.div_small by lia; lia|done]).
  assert (x1 i * nb v 1 = x1 i * nb t 1) as -> by (destruct N1 as [N1| ->]; [replace (x1 i) with 0 by lia; lia|done]).
  assert (x2 i * nb v 2 = x2 i * nb t 2) as -> by (destruct N2 as [N2| ->]; [replace (x2 i) with 0 by lia; lia|done]).
  assert (x3 i * nb v 3 = x3 i * nb t 3) as -> by (destruct N3 as [N3| ->]; [replace (x3 i) with 0 by lia; lia|done]). ring.
Qed.

Lemma span_in blck size v i : 0 < blck -> (blck | ne v 0) -> 0 <= nb v 0 -> 0 <= nb v 1 -> 0 <= nb v 2 -> 0 <= nb v 3 -> in_shape v i ->
  elem_offset blck v i + size <= span blck size v.
Proof.
  intros Hb [q Hq] B0 B1 B2 B3 (I0 & I1 & I2 & I3). unfold span, elem_offset. rewrite Hq, Z.div_mul by lia.
  assert (x0 i / blck <= q - 1) by (apply Z.lt_le_pred, Z.div_lt_upper_bound; lia).
  assert (forall x y z, x <= y -> 0 <= z -> x * z <= y * z) as Mul by (intros; nia).
  pose proof (Mul (x0 i / blck) (q - 1) (nb v 0)). pose proof (Mul (x1 i) (ne v 1 - 1) (nb v 1)). pose proof (Mul (x2 i) (ne v 2 - 1) (nb v 2)). pose proof (Mul (x3 i) (ne v 3 - 1) (nb v 3)). lia.
Qed.

Lemma strides_in c ts a t n offs nb1 nb2 nb3 blck size b root m : placed c ts a t blck size b root m -> ts !! a = Some t -> dims_ok (t_type t) blck size n ->
  strides_pre (c, ts) a n offs (fun size => [size; nb1; nb2; nb3]) -> size_t nb1 -> size_t nb2 -> size_t nb3 ->
  forall i, in_shape (with_layout (pad_ne n) [size; nb1; nb2; nb3] t) i ->
    offs + view_offs t + elem_offset blck (with_layout (pad_ne n) [size; nb1; nb2; nb3] t) i + size <= m.
Proof.
  intros Hp Ht Hd Hs H1 H2 H3 i Hi. destruct (placed_root _ _ _ _ _ _ _ _ _ Hp) as [_ Hm]. destruct (typed_pos _ _ _ (dm_typed _ _ _ _ Hd)).
  destruct (Hs t blck size m Ht (dm_typed _ _ _ _ Hd) Hm) as [Hbox|[He|Hspan]].
  - eapply (box_in blck size t); [done|exact Hbox|apply Hp|exact Hi].
  - exfalso. destruct Hi as (I0 & I1 & I2 & I3). unfold ne in *. cbn [t_ne with_layout] in *. unfold elements in He. rewrite !Z.eq_mul_0 in He. lia.
  - assert (elem_offset blck (with_layout (pad_ne n) [size; nb1; nb2; nb3] t) i + size <= span blck size (with_layout (pad_ne n) [size; nb1; nb2; nb3] t)); [|lia].
    unfold size_t in *. apply span_in; try done; unfold nb; cbn [t_nb with_layout nth]; try lia.
    destruct (dims_shaped _ _ _ _ GGML_OP_VIEW None None 0 None Hd). done.
Qed.

Lemma view_step c ts a n offs nb1 nb2 nb3 : state_ok (c, ts) -> view_pre (c, ts) a n offs -> view_fits (c, ts) a n offs ->
  strides_pre (c, ts) a n offs (fun size => [size; nb1; nb2; nb3]) -> size_t nb1 -> size_t nb2 -> size_t nb3 ->
  exists r st1 st' v, ggml_view_impl a n offs (c, ts) = Some (r, st1) /\ update_tensor r (set_strides nb1 nb2 nb3) st1 = Some (r, st') /\
    state_ok st' /\ ts !! r = None /\ st'.2 = <[r := v]> ts.
Proof.
  intros Hst Hpre Hfit Hs H1 H2 H3. destruct (view_facts _ _ _ _ _ Hst Hpre) as (t & blck & size & b & root & m & Ht & Hp & Hm & Hd & Ho & Hv & Hroom & Hf).
  pose proof (strides_in _ _ _ _ _ _ _ _ _ _ _ _ _ _ Hp Ht Hd Hs H1 H2 H3) as Hin.
  destruct (view_strided c ts a t n offs nb1 nb2 nb3 blck size b root m Hst Ht Hp Hd Ho Hv (proj1 Hf Hfit) Hroom H1 H2 H3) as (r & st1 & st' & E1 & E2 & S & F & U); [exact Hin|].
  by eexists r, st1, st', _.
Qed.

Lemma view_1d_step c ts a ne0 offs : state_ok (c, ts) -> view_pre (c, ts) a [ne0] offs -> view_fits (c, ts) a [ne0] offs -> stepped (TView1 a ne0 offs) (c, ts).
Proof.
  intros Hst Hpre Hfit. destruct (view_facts _ _ _ _ _ Hst Hpre) as (t & blck & size & b & root & m & Ht & Hp & Hm & Hd & Ho & Hv & Hroom & Hf).
  destruct (view_plain c ts a t [ne0] offs GGML_OP_VIEW blck size b root m Hst Ht Hp Hd Ho Hv (proj1 Hf Hfit) Hroom) as (r & st1 & st' & E1 & E2 & S & F & U & _).
  eexists r, st', _. split_and!; try done. unfold exec_tensor, ggml_view_1d, ggml_view_impl. cbn [snd]. rewrite Ht. cbn [mbind option_bind]. rewrite E1. exact E2.
Qed.

(** A view the code returns passed the assertion. *)
Lemma view_impl_fits c ts a n offs x : state_ok (c, ts) -> view_pre (c, ts) a n offs -> ggml_view_impl a n offs (c, ts) = Some x -> view_fits (c, ts) a n offs.
Proof.
  intros Hst Hpre. destruct (view_facts _ _ _ _ _ Hst Hpre) as (t & blck & size & b & root & m & Ht & Hp & Hm & Hd & Ho & Hv & Hroom & Hf).
  unfold ggml_view_impl. cbn [snd]. rewrite Ht. cbn [mbind option_bind]. intros H. inv_opt H. destruct p as [r st1]. apply Hf.
  pose proof (pl_offs _ _ _ _ _ _ _ _ _ Hp). eapply impl_fits; [exact Hd|by eapply base_ok|lia|apply Hp|exact E].
Qed.

Lemma exec_fits o st x : state_ok st -> tensor_pre o st -> exec_tensor o st = Some x -> op_fits o st.
Proof.
  destruct st as [c ts]. intros Hst Hpre H. destruct o; try done; cbn [op_fits exec_tensor tensor_pre] in *; unfold ggml_view_1d, ggml_view_2d, ggml_view_3d, ggml_view_4d in H.
  - by eapply view_impl_fits.
  - inv_opt H. by eapply view_impl_fits; [|apply Hpre|].
  - inv_opt H. by eapply view_impl_fits; [|apply Hpre|].
  - inv_opt H. by eapply view_impl_fits; [|apply Hpre|].
Qed.

Lemma wrap_size_t z : size_t (u64_wrap z).
Proof. unfold size_t, u64_wrap, SIZE_MAX. pose proof (Z.mod_pos_bound z 18446744073709551616 ltac:(lia)). lia. Qed.

Lemma step_ok o st : state_ok st -> tensor_pre o st -> op_fits o st -> stepped o st.
Proof.
  destruct st as [c ts]. intros Hst Hpre Hfit. cbn [op_fits] in Hfit. destruct o as [type n|a ne0 offs|a ne0 ne1 nb1 offs|a ne0 ne1 ne2 nb1 nb2 offs|a ne0 ne1 ne2 ne3 nb1 nb2 nb3 offs|a n|a axes|a].
  - destruct Hpre as (blck & size & Hd & Hroom). destruct (new_root_ok c ts type blck size n Hst Hd Hroom) as (r & st' & E & S & F & v & U & _). by exists r, st', v.
  - by apply view_1d_step.
  - destruct Hpre as (H1 & Hpre & Hs). pose proof (wrap_size_t (nb1 * ne1)).
    destruct (view_step _ _ _ _ _ nb1 (u64_wrap (nb1 * ne1)) (u64_wrap (nb1 * ne1)) Hst Hpre Hfit Hs) as (r & st1 & st' & v & E1 & E2 & S & F & U); try done.
    exists r, st', v. split_and!; try done. unfold exec_tensor, ggml_view_2d. rewrite E1. exact E2.
  - destruct Hpre as (H1 & H2 & Hpre & Hs). pose proof (wrap_size_t (nb2 * ne2)).
    destruct (view_step _ _ _ _ _ nb1 nb2 (u64_wrap (nb2 * ne2)) Hst Hpre Hfit Hs) as (r & st1 & st' & v & E1 & E2 & S & F & U); try done.
    exists r, st', v. split_and!; try done. unfold exec_tensor, ggml_view_3d. rewrite E1. exact E2.
  - destruct Hpre as (H1 & H2 & H3 & Hpre & Hs).
    destruct (view_step _ _ _ _ _ nb1 nb2 nb3 Hst Hpre Hfit Hs) as (r & st1 & st' & v & E1 & E2 & S & F & U); try done.
    exists r, st', v. split_and!; try done. unfold exec_tensor, ggml_view_4d. rewrite E1. exact E2.
  - destruct Hpre as (Hroom & t & blck & size & Ht & Hd & Hc & He). cbn [fst snd] in *. destruct (proj2 Hst a t Ht) as (blck' & size' & b & root & m & Hp).
    destruct (placed_typed _ _ _ _ _ _ _ _ _ _ _ _ Hp Hd) as [-> ->].
    destruct (reshape_ok c ts a t n blck' size' b root m Hst Ht Hp Hd Hc He Hroom) as (r & st' & E & S & F & U & _). by eexists r, st', _.
  - destruct Hpre as (Hroom & Hax & t & Ht & Hb & H1 & H2). cbn [fst snd] in *. destruct (proj2 Hst a t Ht) as (blck & size & b & root & m & Hp).
    destruct (permute_ok c ts a t axes blck size b root m Hst Ht Hp Hroom Hax) as (r & st' & v & E & S & F & U & _); try done; [|by exists r, st', v].
    destruct Hb as [Hb|Hb]; [left|by right]. rewrite (typed_blck _ _ _ (sh_typed _ _ _ (pl_shape _ _ _ _ _ _ _ _ _ Hp))) in Hb. congruence.
  - destruct Hpre as (Hroom & t & Ht & Hb). cbn [fst snd] in *. destruct (proj2 Hst a t Ht) as (blck & size & b & root & m & Hp).
    assert (blck = 1) as -> by (rewrite (typed_blck _ _ _ (sh_typed _ _ _ (pl_shape _ _ _ _ _ _ _ _ _ Hp))) in Hb; congruence).
    destruct (transpose_ok c ts a t size b root m Hst Ht Hp Hroom) as (r & st' & v & E & S & F & U & _). by exists r, st', v.
Qed.

Lemma tensor_run_ok st os st' : tensor_run st os st' -> state_ok st -> state_ok st'.
Proof.
  induction 1 as [|st o r st1 os st2 Hpre E Hrun IH]; intros Hst; [done|]. apply IH. destruct (step_ok o st Hst Hpre (exec_fits _ _ _ Hst Hpre E)) as (r' & st' & v & E' & S & _).
  rewrite E in E'. by injection E' as _ ->.
Qed.

(** A fresh context has an empty pool. *)
Lemma init_ok size buffer na alloc c : 0 <= size -> size + GGML_MEM_ALIGN <= T_MAX -> ggml_init size buffer na alloc = Some c -> state_ok (c, ∅).
Proof.
  intros Hs Hm. unfold ggml_init. intros H. inv_opt H. subst c. apply ggml_assert_inv in E0. split; [|intros a t Ht; cbn [snd] in Ht; by rewrite lookup_empty in Ht].
  cbn [fst]. set (sz := if bool_decide (size = 0) then GGML_MEM_ALIGN else size) in *. assert (0 <= sz /\ sz + GGML_MEM_ALIGN <= T_MAX) as [S1 S2].
  { unfold sz. case_bool_decide; [split; vm_compute; congruence|lia]. }
  split; cbn [objects mem_size mem_buffer chain chain_end]; [done| |done]. destruct buffer; [unfold GGML_MEM_ALIGN in *; lia|].
  rewrite pad_padded by (done || lia). destruct (padded_ok GGML_MEM_ALIGN sz); [done..|]. unfold GGML_MEM_ALIGN in *. lia.
Qed.

(** Where a tensor object ends: the header, and the data if it is in the pool. *)
Definition tensor_end (a : Z) (t : ggml_tensor) : Z :=
  a + GGML_TENSOR_SIZE + match view_src t, data t with None, Some _ => default 0 (ggml_nbytes t) | _, _ => 0 end.

Lemma placed_end c ts a t blck size b root m : ts !! a = Some t -> placed c ts a t blck size b root m ->
  exists o, o ∈ objects c /\ a = mem_buffer c + o_offs o /\ tensor_end a t <= a + o_size o.
Proof.
  intros Ht H. destruct (pl_obj _ _ _ _ _ _ _ _ _ H) as (o & Ho & _ & E & Hs). exists o. split_and!; [done..|]. unfold tensor_end, own_bytes in *.
  destruct (pl_base _ _ _ _ _ _ _ _ _ H) as [B|(B & -> & _)]; rewrite B in *; [lia|].
  pose proof (pl_root _ _ _ _ _ _ _ _ _ H) as R. assert (root = t) as -> by congruence. pose proof (pl_rdata _ _ _ _ _ _ _ _ _ H) as D. pose proof (pl_bytes _ _ _ _ _ _ _ _ _ H) as M.
  unfold own_bytes in D. rewrite B in D. rewrite D, M. pose proof (nbytes_nonneg _ _ M). clear D. destruct (no_alloc c); cbv beta iota in *; case_bool_decide; cbv [default from_option id]; lia.
Qed.

Lemma state_bounds st a t : state_ok st -> st.2 !! a = Some t ->
  exists blck size root m, typed (t_type t) blck size /\ st.2 !! base_of a t = Some root /\ view_src root = None /\ ggml_nbytes root = Some m /\
    (forall i, in_shape t i -> 0 <= view_offs t + elem_offset blck t i /\ view_offs t + elem_offset blck t i + size <= m) /\
    data t = (d ← data root; Some (d + view_offs t)) /\ (forall d, data root = Some d -> d = base_of a t + GGML_TENSOR_SIZE /\ tensor_end (base_of a t) root = d + m) /\
    mem_buffer st.1 <= a /\ tensor_end a t <= mem_buffer st.1 + mem_size st.1.
Proof.
  intros Hst Ht. destruct (proj2 Hst a t Ht) as (blck & size & b & root & m & H). destruct (placed_root _ _ _ _ _ _ _ _ _ H) as [B _]. rewrite B.
  exists blck, size, root, m. pose proof (pl_offs _ _ _ _ _ _ _ _ _ H). split_and!; try apply H.
  - intros i Hi. destruct (pl_in _ _ _ _ _ _ _ _ _ H i Hi). lia.
  - intros d Hd. pose proof (pl_rdata _ _ _ _ _ _ _ _ _ H) as D. rewrite Hd in D. case_bool_decide; [|done]. injection D as ->. split; [done|].
    unfold tensor_end. rewrite (pl_rsrc _ _ _ _ _ _ _ _ _ H), Hd, (pl_bytes _ _ _ _ _ _ _ _ _ H). cbn. lia.
  - destruct (placed_end _ _ _ _ _ _ _ _ _ Ht H) as (o & Ho & -> & _). destruct (chain_in _ _ _ (pk_chain _ (proj1 Hst)) Ho) as (? & _). unfold GGML_OBJECT_SIZE in *. lia.
  - destruct (placed_end _ _ _ _ _ _ _ _ _ Ht H) as (o & Ho & -> & Hend). destruct (chain_in _ _ _ (pk_chain _ (proj1 Hst)) Ho) as (_ & _ & ?).
    pose proof (pk_end _ (proj1 Hst)). lia.
Qed.

Lemma state_apart st a a' t t' : state_ok st -> st.2 !! a = Some t -> st.2 !! a' = Some t' -> a <> a' -> tensor_end a t <= a' \/ tensor_end a' t' <= a.
Proof.
  intros Hst Ht Ht' Hne. destruct (proj2 Hst a t Ht) as (b1 & s1 & c1 & r1 & m1 & H1). destruct (proj2 Hst a' t' Ht') as (b2 & s2 & c2 & r2 & m2 & H2).
  destruct (placed_end _ _ _ _ _ _ _ _ _ Ht H1) as (o & Ho & -> & E1). destruct (placed_end _ _ _ _ _ _ _ _ _ Ht' H2) as (o' & Ho' & -> & E2).
  apply list_elem_of_lookup_1 in Ho as [i Hi]. apply list_elem_of_lookup_1 in Ho' as [j Hj].
  destruct (chain_apart _ _ _ _ _ _ (pk_chain _ (proj1 Hst)) Hi Hj) as [A|A]; [intros ->; rewrite Hi in Hj; by injection Hj as ->|..]; unfold GGML_OBJECT_SIZE in A; lia.
Qed.

(** Where element [i] is: the owner of the data, and the byte in it. *)
Definition element_at (a : Z) (blck : Z) (t : ggml_tensor) (i : index) : Z * Z := (base_of a t, view_offs t + elem_offset blck t i).

Lemma same_elements o st st' r v a t blck size : state_ok st -> tensor_pre o st -> exec_tensor o st = Some (r, st') -> st'.2 !! r = Some v ->
  st.2 !! a = Some t -> typed (t_type t) blck size ->
  match o with
  | TReshape b n => b = a -> t_ne v = pad_ne n /\ forall i j, in_shape t i -> in_shape v j -> linear t i / blck = linear v j / blck ->
      element_at r blck v j = element_at a blck t i
  | TPermute b axes => b = a -> permuted axes t v /\ forall j, in_shape v j -> in_shape t (original axes j) /\ element_at r blck v j = element_at a blck t (original axes j)
  | TTranspose b => b = a -> permuted [1; 0; 2; 3]%nat t v /\ forall j, in_shape v j -> in_shape t (original [1; 0; 2; 3]%nat j) /\
      element_at r blck v j = element_at a blck t (original [1; 0; 2; 3]%nat j)
  | _ => True
  end.
Proof.
  destruct st as [c ts]. intros Hst Hpre Hex Hv Ha Hty. cbn [fst snd] in *. destruct (proj2 Hst a t Ha) as (blck' & size' & b & root & m & Hp).
  destruct (typed_fun _ _ _ _ _ Hty (sh_typed _ _ _ (pl_shape _ _ _ _ _ _ _ _ _ Hp))) as [<- <-]. destruct (placed_root _ _ _ _ _ _ _ _ _ Hp) as [B _].
  destruct (typed_pos _ _ _ Hty) as [P1 P2]. unfold element_at. rewrite B. destruct o as [| | | | |a' n|a' axes|a']; try done; intros ->.
  - destruct Hpre as (Hroom & t' & bl & sz & Ht & Hd & Hc & He). cbn [fst snd] in *. assert (t' = t) as -> by congruence. destruct (placed_typed _ _ _ _ _ _ _ _ _ _ _ _ Hp Hd) as [-> ->].
    destruct (reshape_ok c ts a t n blck size b root m Hst Ht Hp Hd Hc He Hroom) as (r' & st'' & E & S & F & U & K1 & K2).
    unfold exec_tensor in Hex. rewrite E in Hex. injection Hex as -> ->. rewrite U, lookup_insert_eq in Hv. injection Hv as <-. split; [done|].
    intros i j Hi Hj Hl. cbn [base_of view_src with_op fresh_view default view_offs]. f_equal. f_equal.
    assert (forall u, in_shape u i \/ in_shape u j -> forall k, (k < 4)%nat -> 0 < ne u k) as Hpos.
    { intros u Hu k Hk. unfold in_shape in Hu. assert (k = 0 \/ k = 1 \/ k = 2 \/ k = 3)%nat as [->|[->|[->| ->]]] by lia; lia. }
    set (w := with_op _ _ _) in *. assert (shaped w blck size) as Hw by (by apply dims_shaped).
    rewrite (proj1 (packed_linear blck size w P1 (sh_div _ _ _ Hw) (Hpos _ (or_intror Hj))) K1 j Hj).
    rewrite (proj1 (packed_linear blck size _ P1 (sh_div _ _ _ (pl_shape _ _ _ _ _ _ _ _ _ Hp)) (Hpos _ (or_introl Hi))) K2 i Hi). by rewrite Hl.
  - destruct Hpre as (Hroom & Hax & t' & Ht & Hb & H1 & H2). cbn [fst snd] in *. assert (t' = t) as -> by congruence.
    destruct (permute_ok c ts a t axes blck size b root m Hst Ht Hp Hroom Hax) as (r' & st'' & v' & E & S & F & U & Hpm & Hvs & Hvo & Hj); try done.
    { destruct Hb as [Hb|Hb]; [left|by right]. rewrite (typed_blck _ _ _ Hty) in Hb. congruence. }
    unfold exec_tensor in Hex. rewrite E in Hex. injection Hex as -> ->. rewrite U, lookup_insert_eq in Hv. injection Hv as <-. split; [done|].
    intros j Hjs. destruct (Hj j Hjs) as [Q1 Q2]. split; [done|]. unfold base_of. by rewrite Hvs, Hvo, Q2.
  - destruct Hpre as (Hroom & t' & Ht & Hb). cbn [fst snd] in *. assert (t' = t) as -> by congruence. assert (blck = 1) as -> by (rewrite (typed_blck _ _ _ Hty) in Hb; congruence).
    destruct (transpose_ok c ts a t size b root m Hst Ht Hp Hroom) as (r' & st'' & v' & E & S & F & U & Hpm & Hvs & Hvo & Hj).
    unfold exec_tensor in Hex. rewrite E in Hex. injection Hex as -> ->. rewrite U, lookup_insert_eq in Hv. injection Hv as <-. split; [done|].
    intros j Hjs. destruct (Hj j Hjs) as [Q1 Q2]. split; [done|]. unfold base_of. by rewrite Hvs, Hvo, Q2.
Qed.

(** * Properties *)

(** C29: the contiguity test is exact.  For a tensor without empty dimensions,
    whose rows are whole blocks and whose packed size is a 64-bit number,
    [ggml_is_contiguous] answers true exactly when element number [l] in row-major
    order is at byte [l / blck_size * type_size], for every element; strides of
    dimensions of one entry do not matter. *)
Theorem contiguous_correct (t : ggml_tensor) (blck size : Z) :
  typed (t_type t) blck size -> (forall k, (k < 4)%nat -> 0 < ne t k) -> (blck | ne t 0) ->
  size * ne t 0 * ne t 1 * ne t 2 * ne t 3 <= SIZE_MAX ->
  exists b, ggml_is_contiguous t = Some b /\
    (b = true <-> forall i, in_shape t i -> elem_offset blck t i = size * (linear t i / blck)).
Proof.
  intros Ht Hn Hd Hv. destruct (typed_pos _ _ _ Ht) as [Hb _].
  pose proof (Hn 0 ltac:(lia))%nat. pose proof (Hn 1 ltac:(lia))%nat. pose proof (Hn 2 ltac:(lia))%nat. pose proof (Hn 3 ltac:(lia))%nat.
  destruct (contiguous_packed blck size t Ht) as (b & E & Hp); [intros k Hk; pose proof (Hn k Hk); lia|by rewrite !Z.max_r by lia|].
  exists b. split; [done|]. by rewrite Hp, packed_linear.
Qed.

(** C30: tensors and views stay in the pool.  After any sequence of
    constructors, views, reshapes, permutations and transpositions on a fresh
    context: the next well-formed step returns a new address exactly when the
    packed size of the view it asks for, if it makes a view with a shape and an
    offset of its own, ends inside the tensor that owns the data - what the
    assertion of [ggml_new_tensor_impl] checks - and always otherwise; every
    element of every tensor lies within the bytes of the tensor that owns its data,
    which is not itself a view; header and data of a tensor lie in the pool; and two
    tensors do not overlap.  That elements are inside follows from that assertion
    alone for tensors, one-dimensional views, reshapes, permutations and
    transpositions.  The strides a caller gives to [ggml_view_2d], [_3d] and [_4d]
    are checked nowhere in the code: for them the caller must pass the strides of a
    box of the tensor viewed, or strides with which the last element is inside. *)
Theorem tensors_in_bounds (size : Z) (buffer : option Z) (na : bool) (alloc : option Z) (c : ggml_context) (os : list tensor_op) (st : state) :
  0 <= size -> size + GGML_MEM_ALIGN <= T_MAX -> ggml_init size buffer na alloc = Some c -> tensor_run (c, ∅) os st ->
  (forall o, tensor_pre o st -> ((exists r st', exec_tensor o st = Some (r, st') /\ st.2 !! r = None) <-> op_fits o st)) /\
  (forall a t, st.2 !! a = Some t -> exists blck esize root m, typed (t_type t) blck esize /\
     st.2 !! base_of a t = Some root /\ view_src root = None /\ ggml_nbytes root = Some m /\
     (forall i, in_shape t i -> 0 <= view_offs t + elem_offset blck t i /\ view_offs t + elem_offset blck t i + esize <= m) /\
     data t = (d ← data root; Some (d + view_offs t)) /\
     (forall d, data root = Some d -> d = base_of a t + GGML_TENSOR_SIZE /\ tensor_end (base_of a t) root = d + m) /\
     mem_buffer st.1 <= a /\ tensor_end a t <= mem_buffer st.1 + mem_size st.1) /\
  (forall a a' t t', st.2 !! a = Some t -> st.2 !! a' = Some t' -> a <> a' -> tensor_end a t <= a' \/ tensor_end a' t' <= a).
Proof.
  intros Hs Hm Hi Hrun. assert (state_ok st) as Hst by (eapply tensor_run_ok; [done|by eapply init_ok]). split_and!.
  - intros o Ho. split; [intros (r & st' & E & _); by eapply exec_fits|]. intros Hf. destruct (step_ok o st Hst Ho Hf) as (r & st' & v & E & _ & F & _). by exists r, st'.
  - intros a t. by apply state_bounds.
  - intros a a' t t'. by apply state_apart.
Qed.

(** C31: reshaping, permuting and transposing rename elements without moving
    them: element number [l] of a contiguous tensor is, after a reshape, still
    element number [l]; and element [j] of a permuted tensor is the element of the
    original whose index [k] is the index [axes k] of [j].  Permuting needs
    dimensions and strides below [2^31], because the code keeps them in [int]. *)
Theorem renaming_keeps_elements (size : Z) (buffer : option Z) (na : bool) (alloc : option Z) (c : ggml_context) (os : list tensor_op)
    (st st' : state) (o : tensor_op) (r : Z) (v : ggml_tensor) (a : Z) (t : ggml_tensor) (blck esize : Z) :
  0 <= size -> size + GGML_MEM_ALIGN <= T_MAX -> ggml_init size buffer na alloc = Some c -> tensor_run (c, ∅) os st ->
  tensor_pre o st -> exec_tensor o st = Some (r, st') -> st'.2 !! r = Some v -> st.2 !! a = Some t -> typed (t_type t) blck esize ->
  match o with
  | TReshape b n => b = a -> t_ne v = pad_ne n /\ forall i j, in_shape t i -> in_shape v j -> linear t i / blck = linear v j / blck ->
      element_at r blck v j = element_at a blck t i
  | TPermute b axes => b = a -> permuted axes t v /\ forall j, in_shape v j -> in_shape t (original axes j) /\ element_at r blck v j = element_at a blck t (original axes j)
  | TTranspose b => b = a -> permuted [1; 0; 2; 3]%nat t v /\ forall j, in_shape v j -> in_shape t (original [1; 0; 2; 3]%nat j) /\
      element_at r blck v j = element_at a blck t (original [1; 0; 2; 3]%nat j)
  | _ => True
  end.
Proof.
  intros Hs Hm Hi Hrun. intros. eapply same_elements; [eapply tensor_run_ok; [exact Hrun|by eapply init_ok]|done..].
Qed.

End Runs.

(** * A run

    A matrix of 4 columns and 3 rows, transposed. *)

Definition demo_context : ggml_context := mkContext 4096 64 false 0 [].
Definition demo_new : tensor_op := TNew 0 [4; 3].
Definition demo_state (o : tensor_op) (st : state) : state := default st (snd <$> exec_tensor (BM := debug_build) o st).
Definition demo_addr (o : tensor_op) (st : state) : Z := default 0 (fst <$> exec_tensor (BM := debug_build) o st).
Definition runs (o : tensor_op) (st : state) : bool := match exec_tensor (BM := debug_build) o st with Some _ => true | None => false end.

Lemma demo_exec o st : runs o st = true -> exec_tensor (BM := debug_build) o st = Some (demo_addr o st, demo_state o st).
Proof. unfold runs, demo_addr, demo_state. destruct (exec_tensor o st) as [[r st']|]; [done|discriminate]. Qed.

Definition demo_st1 : state := demo_state demo_new (demo_context, ∅).
Definition demo_a : Z := demo_addr demo_new (demo_context, ∅).
Definition demo_t : ggml_tensor := mkT 0 [4; 3; 1; 1] [4; 16; 48; 48] GGML_OP_NONE None None 0 (Some (demo_a + GGML_TENSOR_SIZE)).

Lemma demo_typed : typed 0 1 4.
Proof. split; [by_eval|]. split; [reflexivity|]. split; by_eval. Qed.

Lemma demo_new_pre : tensor_pre demo_new (demo_context, ∅).
Proof.
  exists 1, 4. split; [split; [apply demo_typed|cbn; unfold GGML_MAX_DIMS; lia|by_eval|apply Z.divide_1_l|by_eval]|]. split; [unfold room|]; by_eval.
Qed.

Lemma demo_lookup : demo_st1.2 !! demo_a = Some demo_t.
Proof. vm_compute. reflexivity. Qed.

Lemma demo_transpose_pre : tensor_pre (TTranspose demo_a) demo_st1.
Proof. split; [split; [unfold room|]; by_eval|]. exists demo_t. split; [apply demo_lookup|]. reflexivity. Qed.

Lemma tensor_demo_run : tensor_run (BM := debug_build) (demo_context, ∅) [demo_new; TTranspose demo_a] (demo_state (TTranspose demo_a) demo_st1).
Proof.
  eapply run_cons; [apply demo_new_pre|apply demo_exec; by vm_compute|]. eapply run_cons; [apply demo_transpose_pre|apply demo_exec; by vm_compute|]. apply run_nil.
Qed.

Lemma contiguous_correct_witness : ggml_is_contiguous demo_t = Some true /\ elem_offset 1 demo_t (Ix 2 1 0 0) = 24.
Proof.
  destruct (contiguous_correct demo_t 1 4 demo_typed) as (b & E & H).
  - intros k Hk. assert (k = 0 \/ k = 1 \/ k = 2 \/ k = 3)%nat as [->|[->|[->| ->]]] by lia; by vm_compute.
  - apply Z.divide_1_l.
  - by vm_compute.
  - assert (b = true) as -> by (assert (ggml_is_contiguous demo_t = Some true) by (by vm_compute); congruence). split; [done|].
    rewrite (proj1 H) by (done || (split_and!; vm_compute; congruence)). by vm_compute.
Defined.

Lemma demo_view_pre offs : 0 <= offs <= 4096 -> tensor_pre (TView1 demo_a 4 offs) demo_st1.
Proof.
  intros Ho. split; [split; [unfold room|]; by_eval|]. exists demo_t, 1, 4. split; [apply demo_lookup|].
  split; [split; [apply demo_typed|cbn; unfold GGML_MAX_DIMS; lia|by_eval|apply Z.divide_1_l|by_eval]|]. cbn [view_offs demo_t]. assert (4096 <= T_MAX) by by_eval. lia.
Qed.

(** The second row is a view; the assertion stops one that starts in the third
    row and ends outside. *)
Lemma tensors_in_bounds_witness : op_fits (TView1 demo_a 4 16) demo_st1 /\
  (exists r st', exec_tensor (BM := debug_build) (TView1 demo_a 4 16) demo_st1 = Some (r, st') /\ demo_st1.2 !! r = None) /\
  ~ op_fits (TView1 demo_a 4 36) demo_st1.
Proof.
  destruct (tensors_in_bounds (BM := debug_build) 4096 (Some 64) false None demo_context [demo_new] demo_st1) as [H _];
    [by vm_compute..|eapply run_cons; [apply demo_new_pre|apply demo_exec; by vm_compute|apply run_nil]|].
  assert (op_fits (TView1 demo_a 4 16) demo_st1) as Hf.
  { exists demo_t, 1, 4, 48. split; [apply demo_lookup|]. split; [apply demo_typed|]. split; [vm_compute; reflexivity|right; by vm_compute]. }
  split_and!; [done|by apply H, Hf; apply demo_view_pre|]. intros Hn. apply H in Hn as (r & st' & E & _); [|by apply demo_view_pre]. vm_compute in E. discriminate E.
Defined.

(** Two columns of two rows, with the stride of the matrix. *)
Example box_demo : strides_pre demo_st1 demo_a [2; 2] 20 (fun size => [size; 16; 32; 32]).
Proof.
  intros t blck size m Ht Hty Hm v. assert (t = demo_t) as -> by (rewrite demo_lookup in Ht; by injection Ht).
  destruct (typed_fun _ _ _ _ _ Hty demo_typed) as [-> ->]. left. exists (Ix 1 1 0 0). split; [apply Z.divide_1_l|].
  split; [by vm_compute|]. split_and!; try (by vm_compute); first [left; by vm_compute|right; by vm_compute].
Qed.

(** Strides pass unchecked: two rows at a stride of 64 bytes end outside a tensor
    of 48, and the view is made. *)
Example strides_unchecked :
  runs (TView2 demo_a 4 2 64 0) demo_st1 = true /\ bool_decide (span 1 4 (with_layout [4; 2; 1; 1] [4; 64; 128; 128] demo_t) <= 48) = false.
Proof. split; vm_compute; reflexivity. Qed.

Definition demo_transposed : ggml_tensor :=
  default demo_t ((demo_state (TTranspose demo_a) demo_st1).2 !! demo_addr (TTranspose demo_a) demo_st1).

Lemma renaming_keeps_elements_witness :
  element_at (demo_addr (TTranspose demo_a) demo_st1) 1 demo_transposed (Ix 2 1 0 0) = element_at demo_a 1 demo_t (Ix 1 2 0 0).
Proof.
  assert (tensor_run (BM := debug_build) (demo_context, ∅) [demo_new] demo_st1) as Hrun
    by (eapply run_cons; [apply demo_new_pre|apply demo_exec; by vm_compute|apply run_nil]).
  destruct (renaming_keeps_elements (BM := debug_build) 4096 (Some 64) false None demo_context [demo_new] demo_st1 (demo_state (TTranspose demo_a) demo_st1)
    (TTranspose demo_a) (demo_addr (TTranspose demo_a) demo_st1) demo_transposed demo_a demo_t 1 4) as [_ H]; [by vm_compute..| | | | | | | |].
  - apply Hrun.
  - apply demo_transpose_pre.
  - apply demo_exec. by vm_compute.
  - vm_compute. reflexivity.
  - apply demo_lookup.
  - apply demo_typed.
  - reflexivity.
  - destruct (H (Ix 2 1 0 0)) as [_ E]; [split_and!; vm_compute; congruence|exact E].
Defined.

(** [ggml_permute] keeps strides in [int]: from [2^31] bytes on, the elements of
    the permuted tensor are elsewhere. *)
Example permute_truncates_strides : u64_wrap <$> scatter_int [0; 2; 1; 3]%nat dims [2; 128; 2147483648; 4294967296] = [2; 18446744071562067968; 128; 0].
Proof. vm_compute. reflexivity. Qed.

End GgmlViews.
