(* ===== verification/KvState.v ===== *)
(** Saving and restoring the key/value cache: the byte streams of [llama-io.h]
    and [llama-context.cpp], and [state_write] and [state_read] of
    [llama-kv-cache.cpp].  A tensor of a layer is the bytes of one stream. *)

From S2P Require Import Prelude.
From S2P Require Import KvCells.
From S2P Require Import Memory.
From S2P Require Import Batch.
From S2P Require Import KvCache.
From S2P Require Import Bytes.
From S2P Require Import GgmlTensor.
Import KvCells.Cells.
Module K := KvCache.Kv.
Module B := Batch.Batch.
Module G := GgmlTensor.GgmlTensor.

Module KvState.
Local Open Scope Z_scope.

(** * Integers as bytes

    The host stores integers with the low byte first. *)

Fixpoint le_bytes (n : nat) (z : Z) : list byte :=
  match n with O => [] | S n => to_char z :: le_bytes n (z / 256) end.

Fixpoint le_value (l : list byte) : Z :=
  match l with [] => 0 | c :: l => u8 c + 256 * le_value l end.

(** The value of an [int32_t] with these bits. *)
Definition to_i32 (z : Z) : Z := if bool_decide (z < 2147483648) then z else z - 4294967296.

(** * Tensors of the cache

    [kt_type] is the type of the tensor; [kt_bytes] the [ggml_nbytes] bytes it
    has in the backend. *)

Record kv_tensor := mkKt { kt_type : Z; kt_bytes : list byte }.

Definition in_tensor (offset size : Z) (t : kv_tensor) : bool :=
  bool_decide (u64_wrap (offset + size) <= Z.of_nat (length (kt_bytes t))).

(** [ggml_backend_tensor_get] and [ggml_backend_tensor_set]. *)
Definition ggml_backend_tensor_get (t : kv_tensor) (offset size : Z) : option (list byte) :=
  if bool_decide (size = 0) then Some [] else
  GGML_ASSERT in_tensor offset size t;
  if bool_decide (Z.of_nat (length (kt_bytes t)) < offset + size) then None else
  Some (take (Z.to_nat size) (drop (Z.to_nat offset) (kt_bytes t))).

Definition ggml_backend_tensor_set (t : kv_tensor) (src : list byte) (offset size : Z) : option kv_tensor :=
  if bool_decide (size = 0) then Some t else
  GGML_ASSERT in_tensor offset size t;
  if bool_decide (Z.of_nat (length (kt_bytes t)) < offset + size) then None else
  if bool_decide (Z.of_nat (length src) < size) then None else
  Some (mkKt (kt_type t) (take (Z.to_nat offset) (kt_bytes t) ++ take (Z.to_nat size) src ++ drop (Z.to_nat offset + Z.to_nat size) (kt_bytes t))).

(** * Streams of bytes *)

Inductive io_error := End_of_buffer | N_stream_mismatch | Restore_failed.

Class llama_io_write_i (W : Type) := {
  io_write        : list byte -> W -> outcome io_error W;
  io_write_tensor : kv_tensor -> Z -> Z -> W -> outcome io_error W;
  io_n_bytes      : W -> Z;
}.

(** [llama_io_write_dummy] only counts. *)
#[global] Instance llama_io_write_dummy : llama_io_write_i Z := {
  io_write src w := Done (u64_wrap (w + Z.of_nat (length src)));
  io_write_tensor t offset size w := Done (u64_wrap (w + size));
  io_n_bytes w := w;
}.

(** [llama_io_write_buffer]: the bytes before [ptr], the space after it. *)
Record llama_io_write_buffer := mkWb { wb_out : list byte; buf_size : Z; size_written : Z }.

Definition put_bytes (src : list byte) (size : Z) (w : llama_io_write_buffer) : llama_io_write_buffer :=
  mkWb (wb_out w ++ src) (buf_size w - size) (u64_wrap (size_written w + size)).

#[global] Instance write_buffer : llama_io_write_i llama_io_write_buffer := {
  io_write src w :=
    if bool_decide (buf_size w < Z.of_nat (length src)) then Throw End_of_buffer
    else Done (put_bytes src (Z.of_nat (length src)) w);
  io_write_tensor t offset size w :=
    if bool_decide (buf_size w < size) then Throw End_of_buffer else
    b ← of_option (ggml_backend_tensor_get t offset size);
    Done (put_bytes b size w);
  io_n_bytes w := size_written w;
}.

(** [llama_io_read_buffer]: the bytes from [ptr] to the end. *)
Record llama_io_read_buffer := mkRb { rb_ptr : list byte; size_read : Z }.

Definition io_read (size : Z) (r : llama_io_read_buffer) : outcome io_error (list byte * llama_io_read_buffer) :=
  if bool_decide (Z.of_nat (length (rb_ptr r)) < size) then Throw End_of_buffer
  else Done (take (Z.to_nat size) (rb_ptr r), mkRb (drop (Z.to_nat size) (rb_ptr r)) (u64_wrap (size_read r + size))).

Definition read_uint (n : nat) (r : llama_io_read_buffer) : outcome io_error (Z * llama_io_read_buffer) :=
  '(b, r) ← io_read (Z.of_nat n) r; Done (le_value b, r).
Definition read_u32 := read_uint 4.
Definition read_u64 := read_uint 8.
Definition read_i32 (r : llama_io_read_buffer) : outcome io_error (Z * llama_io_read_buffer) :=
  '(z, r) ← read_u32 r; Done (to_i32 z, r).

(** * The cache with its tensors *)

Record kv_layer := mkLayer {
  n_embd_k_gqa : Z;
  n_embd_v_gqa : Z;
  k_stream     : list kv_tensor;
  v_stream     : list (option kv_tensor);
}.

Record kv_store := mkStore { s_kv : K.llama_kv_cache; n_seq_max : nat; layers : list kv_layer }.

Definition with_kv (c : K.llama_kv_cache) (s : kv_store) : kv_store := mkStore c (n_seq_max s) (layers s).
Definition with_layers (l : list kv_layer) (s : kv_store) : kv_store := mkStore (s_kv s) (n_seq_max s) l.

(** [ggml_backend_buffer_clear(buf, 0)]. *)
Definition zero_tensor (t : kv_tensor) : kv_tensor := mkKt (kt_type t) (replicate (length (kt_bytes t)) x00).
Definition zero_layer (l : kv_layer) : kv_layer :=
  mkLayer (n_embd_k_gqa l) (n_embd_v_gqa l) (zero_tensor <$> k_stream l) (option_map zero_tensor <$> v_stream l).
Definition clear_data (s : kv_store) : kv_store := mkStore (K.clear (s_kv s)) (n_seq_max s) (zero_layer <$> layers s).

Section State.
Context `{BM : BuildMode}.

(** ** Writing *)

Section Write.
Context `{IO : llama_io_write_i W}.

Definition write_uint (n : nat) (z : Z) (w : W) : outcome io_error W := io_write (le_bytes n z) w.
Definition write_u32 := write_uint 4.
Definition write_u64 := write_uint 8.

(** One step of the search for ranges: the cells counted, the begin of the range
    ([cells.size()] for none) and the ranges closed. *)
Definition range_step (cells : llama_kv_cells) (seq_id : Z) (i : nat) (st : nat * nat * list (nat * nat)) : option (nat * nat * list (nat * nat)) :=
  let '(count, begin, ranges) := st in
  e ← is_empty i cells;
  keep ← (if (e : bool) then Some false else if bool_decide (seq_id = -1) then Some true else seq_has i seq_id cells);
  if (keep : bool) then Some (S count, if bool_decide (begin = size cells) then i else begin, ranges)
  else if bool_decide (begin <> size cells) then Some (count, size cells, ranges ++ [(begin, i)])
  else Some (count, begin, ranges).

Definition cell_ranges (cells : llama_kv_cells) (seq_id : Z) : option (nat * list (nat * nat)) :=
  '(count, begin, ranges) ← foldM (range_step cells seq_id) (seq 0 (size cells)) (0%nat, size cells, []);
  Some (count, if bool_decide (begin <> size cells) then ranges ++ [(begin, size cells)] else ranges).

Definition range_cells (r : nat * nat) : list nat := seq r.1 (r.2 - r.1).

(** The sequences of cell [i] that are written. *)
Definition cell_seq_ids (s : kv_store) (cells : llama_kv_cells) (seq_id : Z) (i : nat) : option (list Z) :=
  foldM (fun cur ids =>
    if bool_decide (cur = seq_id \/ seq_id = -1) then h ← seq_has i cur cells; Some (if (h : bool) then ids ++ [cur] else ids)
    else Some ids) (seqZ 0 (Z.of_nat (n_seq_max s))) [].

Definition write_cell (s : kv_store) (cells : llama_kv_cells) (seq_id : Z) (i : nat) (w : W) : outcome io_error W :=
  ids ← of_option (cell_seq_ids s cells seq_id i);
  pos ← of_option (pos_get i cells);
  w ← write_u32 pos w;
  w ← write_u32 (Z.of_nat (length ids)) w;
  foldO write_u32 ids w.

Definition state_write_meta (s : kv_store) (strm : nat) (ranges : list (nat * nat)) (seq_id : Z) (w : W) : outcome io_error W :=
  cells ← of_option (K.v_cells (s_kv s) !! strm);
  foldO (fun r => foldO (write_cell s cells seq_id) (range_cells r)) ranges w.

(** Rows of [size] bytes per cell, from [base]: all the ranges. *)
Definition write_rows (t : kv_tensor) (base size : Z) (ranges : list (nat * nat)) (w : W) : outcome io_error W :=
  foldO (fun r => io_write_tensor t (u64_wrap (base + u64_wrap (Z.of_nat r.1 * size))) (u64_wrap (Z.of_nat (r.2 - r.1) * size))) ranges w.

Definition write_k (strm : nat) (ranges : list (nat * nat)) (l : kv_layer) (w : W) : outcome io_error W :=
  k ← of_option (k_stream l !! strm);
  w ← write_u32 (kt_type k) w;
  k_size_row ← of_option (G.ggml_row_size (kt_type k) (n_embd_k_gqa l));
  w ← write_u64 k_size_row w;
  write_rows k 0 k_size_row ranges w.

Definition write_v (strm : nat) (ranges : list (nat * nat)) (l : kv_layer) (w : W) : outcome io_error W :=
  v ← of_option (v_stream l !! strm);
  match v with
  | None => Done w
  | Some v =>
      w ← write_u32 (kt_type v) w;
      v_size_row ← of_option (G.ggml_row_size (kt_type v) (n_embd_v_gqa l));
      w ← write_u64 v_size_row w;
      write_rows v 0 v_size_row ranges w
  end.

(** One row of the transposed values: the offset is a 32-bit product. *)
Definition write_v_row (v : kv_tensor) (kv_size : nat) (v_size_el : Z) (ranges : list (nat * nat)) (j : Z) (w : W) : outcome io_error W :=
  foldO (fun r => io_write_tensor v (u32_wrap (u32_wrap (Z.of_nat r.1 + u32_wrap (j * Z.of_nat kv_size)) * v_size_el))
                    (u64_wrap (Z.of_nat (r.2 - r.1) * v_size_el))) ranges w.

Definition write_v_trans (strm kv_size : nat) (ranges : list (nat * nat)) (l : kv_layer) (w : W) : outcome io_error W :=
  v ← of_option (v_stream l !! strm);
  match v with
  | None => Done w
  | Some v =>
      w ← write_u32 (kt_type v) w;
      v_size_el ← of_option (G.ggml_type_size (kt_type v));
      let v_size_el := u32_wrap v_size_el in
      w ← write_u32 v_size_el w;
      w ← write_u32 (n_embd_v_gqa l) w;
      foldO (write_v_row v kv_size v_size_el ranges) (seqZ 0 (n_embd_v_gqa l)) w
  end.

Definition state_write_data (s : kv_store) (strm : nat) (ranges : list (nat * nat)) (w : W) : outcome io_error W :=
  cells ← of_option (K.v_cells (s_kv s) !! strm);
  w ← write_u32 (if K.v_trans (s_kv s) then 1 else 0) w;
  w ← write_u32 (Z.of_nat (length (layers s))) w;
  w ← foldO (write_k strm ranges) (layers s) w;
  if K.v_trans (s_kv s) then foldO (write_v_trans strm (size cells) ranges) (layers s) w
  else foldO (write_v strm ranges) (layers s) w.

Definition write_stream (s : kv_store) (seq_id : Z) (strm : nat) (w : W) : outcome io_error W :=
  cells ← of_option (K.v_cells (s_kv s) !! strm);
  '(count, ranges) ← of_option (cell_ranges cells seq_id);
  _ ← must (bool_decide (count = sum_list ((fun r => r.2 - r.1)%nat <$> ranges)));
  w ← write_u32 (Z.of_nat count) w;
  if bool_decide (count = 0%nat) then Done w else
  w ← state_write_meta s strm ranges seq_id w;
  state_write_data s strm ranges w.

Definition state_write (s : kv_store) (seq_id : Z) (w : W) : outcome io_error W :=
  w ← write_u32 (Z.of_nat (K.n_stream (s_kv s))) w;
  foldO (write_stream s seq_id) (seq 0 (K.n_stream (s_kv s))) w.

End Write.

(** ** Reading

    An exception leaves the cache as it is at that point: it carries the store. *)

Definition failure : Type := io_error * kv_store.

Definition at_store {A} (s : kv_store) (m : outcome io_error A) : outcome failure A :=
  match m with Done a => Done a | Throw e => Throw (e, s) | Undefined => Undefined end.

(** One cell of a sequence: [None] when it has not exactly one sequence. *)
Definition read_seq_cell (dest : Z) (i : nat) (st : B.llama_ubatch * llama_io_read_buffer) : outcome io_error (option (B.llama_ubatch * llama_io_read_buffer)) :=
  let '(u, r) := st in
  '(pos, r) ← read_i32 r;
  '(n_seq_id, r) ← read_u32 r;
  if bool_decide (n_seq_id <> 1) then Done None else
  '(_, r) ← read_i32 r;
  p ← of_option (set_at i pos (B.u_pos u));
  n ← of_option (set_at i n_seq_id (B.u_n_seq_id u));
  q ← of_option (set_at i [dest] (B.u_seq_id u));
  Done (Some (B.mkUbatch (B.u_equal_seqs u) (B.u_n_tokens u) (B.u_n_seq_tokens u) (B.u_n_seqs u) (B.u_n_seqs_unq u) (B.u_n_pos u)
    (B.u_token u) (B.u_embd u) p n q (B.u_seq_id_unq u) (B.u_seq_idx u) (B.u_output u), r)).

Fixpoint read_seq_cells (dest : Z) (l : list nat) (st : B.llama_ubatch * llama_io_read_buffer) : outcome io_error (option (B.llama_ubatch * llama_io_read_buffer)) :=
  match l with
  | [] => Done (Some st)
  | i :: l => o ← read_seq_cell dest i st; match o with None => Done None | Some st => read_seq_cells dest l st end
  end.

Definition check_cell (u : B.llama_ubatch) (cells : llama_kv_cells) (row : list nat) (dest : Z) (i : nat) (_ : unit) : option unit :=
  idx ← row !! i;
  p ← pos_get idx cells;
  q ← B.u_pos u !! i;
  GGML_ASSERT bool_decide (p = q);
  h ← seq_has idx dest cells;
  ggml_assert h.

(** The new cells of one sequence go wherever there is room. *)
Definition read_meta_seq (strm count : nat) (dest : Z) (s : kv_store) (r : llama_io_read_buffer)
    : outcome failure (option (K.slot_info * kv_store) * llama_io_read_buffer * kv_store) :=
  '(c, _) ← of_option (K.seq_rm dest (-1) (-1) (s_kv s));
  let s := with_kv c s in
  '(u, _) ← of_option (B.ubatch_reserve count 1 (B.new_allocr (K.n_pos c)));
  unq ← of_option (set_at 0 dest (B.u_seq_id_unq u));
  let u := B.mkUbatch (B.u_equal_seqs u) (B.u_n_tokens u) (B.u_n_seq_tokens u) (B.u_n_seqs u) (B.u_n_seqs_unq u) (B.u_n_pos u)
    (B.u_token u) (B.u_embd u) (B.u_pos u) (B.u_n_seq_id u) (B.u_seq_id u) unq (B.u_seq_idx u) (B.u_output u) in
  o ← at_store s (read_seq_cells dest (seq 0 count) (u, r));
  match o with
  | None => Done (None, r, s)
  | Some (u, r) =>
      sinfo ← of_option (K.find_slot c u false);
      if K.slot_empty sinfo then Done (None, r, s) else
      c ← of_option (K.apply_ubatch sinfo u c);
      cells ← of_option (K.v_cells c !! strm);
      _ ← must (bool_decide (K.slot_n_stream sinfo = 1%nat));
      row ← of_option (K.idxs sinfo !! 0%nat);
      _ ← must (bool_decide (length row = count));
      _ ← of_option (foldM (check_cell u cells row dest) (seq 0 count) tt);
      Done (Some (sinfo, with_kv c s), r, with_kv c s)
  end.

(** The sequences of one cell: [None] when one is out of range. *)
Fixpoint read_ids (s : kv_store) (i : nat) (n : nat) (cells : llama_kv_cells) (r : llama_io_read_buffer)
    : outcome (io_error * llama_kv_cells) (bool * llama_kv_cells * llama_io_read_buffer) :=
  match n with
  | O => Done (true, cells, r)
  | S n =>
      match read_i32 r with
      | Throw e => Throw (e, cells)
      | Undefined => Undefined
      | Done (id, r) =>
          if bool_decide (id < 0 \/ Z.of_nat (n_seq_max s) <= id) then Done (false, cells, r) else
          cells ← of_option (seq_add i id cells);
          read_ids s i n cells r
      end
  end.

Definition read_cell (s : kv_store) (i : nat) (cells : llama_kv_cells) (r : llama_io_read_buffer)
    : outcome (io_error * llama_kv_cells) (bool * llama_kv_cells * llama_io_read_buffer) :=
  match ('(pos, r) ← read_i32 r; '(n, r) ← read_u32 r; Done (pos, n, r)) with
  | Throw e => Throw (e, cells)
  | Undefined => Undefined
  | Done (pos, n, r) =>
      cells ← of_option (pos_set i pos cells);
      read_ids s i (Z.to_nat n) cells r
  end.

Fixpoint read_cells (s : kv_store) (l : list nat) (cells : llama_kv_cells) (r : llama_io_read_buffer)
    : outcome (io_error * llama_kv_cells) (bool * llama_kv_cells * llama_io_read_buffer) :=
  match l with
  | [] => Done (true, cells, r)
  | i :: l =>
      '(ok, cells, r) ← read_cell s i cells r;
      if (ok : bool) then read_cells s l cells r else Done (false, cells, r)
  end.

Definition put_cells (strm : nat) (cells : llama_kv_cells) (s : kv_store) : option kv_store :=
  c ← K.set_cells strm cells (s_kv s); Some (with_kv c s).

(** All the cells of a stream, from cell 0 on. *)
Definition read_meta_all (strm count : nat) (s : kv_store) (r : llama_io_read_buffer)
    : outcome failure (option (K.slot_info * kv_store) * llama_io_read_buffer * kv_store) :=
  cells ← of_option (K.v_cells (s_kv s) !! strm);
  if bool_decide (size cells < count)%nat then Done (None, r, s) else
  let s := clear_data s in
  cells ← of_option (K.v_cells (s_kv s) !! strm);
  match read_cells s (seq 0 count) cells r with
  | Undefined => Undefined
  | Throw (e, cells) => s ← of_option (put_cells strm cells s); Throw (e, s)
  | Done (ok, cells, r) =>
      s ← of_option (put_cells strm cells s);
      if negb ok then Done (None, r, s) else
      c ← of_option (K.set_head strm 0 (s_kv s));
      let s := with_kv c s in
      Done (Some (K.mkSlot strm strm [strm] [seq 0 count], s), r, s)
  end.

Definition state_read_meta (strm count : nat) (seq_id : Z) (s : kv_store) (r : llama_io_read_buffer)
    : outcome failure (option (K.slot_info * kv_store) * llama_io_read_buffer * kv_store) :=
  if bool_decide (seq_id <> -1) then read_meta_seq strm count seq_id s r else read_meta_all strm count s r.

(** *** Data *)

(** [count] rows of [size] bytes into the cells of the slot, from [base]: one
    copy when the cells are consecutive. *)
Definition scatter_rows (t : kv_tensor) (src : list byte) (off : nat -> Z) (size : Z) (row : list nat) : option kv_tensor :=
  foldM (fun '(i, idx) t => ggml_backend_tensor_set t (drop (i * Z.to_nat size) src) (off idx) size) (imap pair row) t.

Definition read_rows (sinfo : K.slot_info) (count : nat) (size : Z) (off : nat -> Z) (t : kv_tensor) (r : llama_io_read_buffer)
    : outcome io_error (kv_tensor * llama_io_read_buffer) :=
  '(src, r) ← io_read (u64_wrap (Z.of_nat count * size)) r;
  t ← (if K.slot_is_contiguous sinfo
       then h ← of_option (K.slot_head sinfo); of_option (ggml_backend_tensor_set t src (off h) (u64_wrap (Z.of_nat count * size)))
       else row ← of_option (K.idxs sinfo !! 0%nat); of_option (scatter_rows t src off size row));
  Done (t, r).

(** The header of a tensor: [None] when it does not match. *)
Definition read_header (type row_size : Z) (r : llama_io_read_buffer) : outcome io_error (option llama_io_read_buffer) :=
  '(ty, r) ← read_i32 r;
  if bool_decide (type <> ty) then Done None else
  '(sz, r) ← read_u64 r;
  if bool_decide (row_size <> sz) then Done None else Done (Some r).

Definition row_offset (size : Z) (idx : nat) : Z := u64_wrap (Z.of_nat idx * size).

Definition read_tensor (sinfo : K.slot_info) (count : nat) (n_embd : Z) (t : kv_tensor) (r : llama_io_read_buffer)
    : outcome io_error (option (kv_tensor * llama_io_read_buffer)) :=
  size_row ← of_option (G.ggml_row_size (kt_type t) n_embd);
  o ← read_header (kt_type t) size_row r;
  match o with
  | None => Done None
  | Some r => '(t, r) ← read_rows sinfo count size_row (row_offset size_row) t r; Done (Some (t, r))
  end.

(** [(idx + j*cells.size())*v_size_el]: the index is 32-bit, the offset 64-bit. *)
Definition el_offset (kv_size : nat) (v_size_el j : Z) (idx : nat) : Z :=
  u64_wrap (u32_wrap (Z.of_nat idx + u32_wrap (j * Z.of_nat kv_size)) * v_size_el).

(** An exception between two rows leaves the rows before it written. *)
Definition at_tensor {A} (t : kv_tensor) (m : outcome io_error A) : outcome (io_error * kv_tensor) A :=
  match m with Done a => Done a | Throw e => Throw (e, t) | Undefined => Undefined end.

Definition read_v_trans (sinfo : K.slot_info) (count kv_size : nat) (n_embd : Z) (v : kv_tensor) (r : llama_io_read_buffer)
    : outcome (io_error * kv_tensor) (option (kv_tensor * llama_io_read_buffer)) :=
  '(ty, r) ← at_tensor v (read_i32 r);
  if bool_decide (kt_type v <> ty) then Done None else
  '(el, r) ← at_tensor v (read_u32 r);
  v_size_el ← of_option (G.ggml_type_size (kt_type v));
  if bool_decide (v_size_el <> el) then Done None else
  '(n, r) ← at_tensor v (read_u32 r);
  if bool_decide (n_embd <> n) then Done None else
  '(v, r) ← foldO (fun j '(v, r) => at_tensor v (read_rows sinfo count v_size_el (el_offset kv_size v_size_el j) v r)) (seqZ 0 n_embd) (v, r);
  Done (Some (v, r)).

(** The loops over the layers, which write into the tensors of the stream. *)
Definition put_k (il strm : nat) (t : kv_tensor) (s : kv_store) : option kv_store :=
  l ← layers s !! il;
  ks ← set_at strm t (k_stream l);
  ls ← set_at il (mkLayer (n_embd_k_gqa l) (n_embd_v_gqa l) ks (v_stream l)) (layers s);
  Some (with_layers ls s).

Definition put_v (il strm : nat) (t : kv_tensor) (s : kv_store) : option kv_store :=
  l ← layers s !! il;
  vs ← set_at strm (Some t) (v_stream l);
  ls ← set_at il (mkLayer (n_embd_k_gqa l) (n_embd_v_gqa l) (k_stream l) vs) (layers s);
  Some (with_layers ls s).

Definition read_k (sinfo : K.slot_info) (strm count il : nat) (s : kv_store) (r : llama_io_read_buffer)
    : outcome failure (bool * kv_store * llama_io_read_buffer) :=
  l ← of_option (layers s !! il);
  k ← of_option (k_stream l !! strm);
  o ← at_store s (read_tensor sinfo count (n_embd_k_gqa l) k r);
  match o with None => Done (false, s, r) | Some (k, r) => s ← of_option (put_k il strm k s); Done (true, s, r) end.

Definition read_v (sinfo : K.slot_info) (strm count kv_size il : nat) (s : kv_store) (r : llama_io_read_buffer)
    : outcome failure (bool * kv_store * llama_io_read_buffer) :=
  l ← of_option (layers s !! il);
  v ← of_option (v_stream l !! strm);
  match v with
  | None => Done (true, s, r)
  | Some v =>
      match (if K.v_trans (s_kv s) then read_v_trans sinfo count kv_size (n_embd_v_gqa l) v r
             else at_tensor v (read_tensor sinfo count (n_embd_v_gqa l) v r)) with
      | Done None => Done (false, s, r)
      | Done (Some (v, r)) => s ← of_option (put_v il strm v s); Done (true, s, r)
      | Throw (e, v) => s ← of_option (put_v il strm v s); Throw (e, s)
      | Undefined => Undefined
      end
  end.

(** [return false] leaves the loop. *)
Fixpoint until_false (f : nat -> kv_store -> llama_io_read_buffer -> outcome failure (bool * kv_store * llama_io_read_buffer)) (l : list nat)
    (s : kv_store) (r : llama_io_read_buffer) : outcome failure (bool * kv_store * llama_io_read_buffer) :=
  match l with
  | [] => Done (true, s, r)
  | i :: l => '(ok, s, r) ← f i s r; if (ok : bool) then until_false f l s r else Done (false, s, r)
  end.

Definition state_read_data (strm count : nat) (sinfo : K.slot_info) (s : kv_store) (r : llama_io_read_buffer)
    : outcome failure (bool * kv_store * llama_io_read_buffer) :=
  cells ← of_option (K.v_cells (s_kv s) !! strm);
  '(trans, r) ← at_store s (read_u32 r);
  '(n_layer, r) ← at_store s (read_u32 r);
  if bool_decide (n_layer <> Z.of_nat (length (layers s))) then Done (false, s, r) else
  if bool_decide (size cells < count)%nat then Done (false, s, r) else
  if bool_decide (K.v_trans (s_kv s) <> negb (bool_decide (trans = 0))) then Done (false, s, r) else
  '(ok, s, r) ← until_false (read_k sinfo strm count) (seq 0 (length (layers s))) s r;
  if (ok : bool) then until_false (read_v sinfo strm count (size cells)) (seq 0 (length (layers s))) s r else Done (false, s, r).

(** The clean-up after a mismatch. *)
Definition restore_failed {A} (seq_id : Z) (s : kv_store) : outcome failure A :=
  if bool_decide (seq_id = -1) then Throw (Restore_failed, clear_data s)
  else '(c, _) ← of_option (K.seq_rm seq_id (-1) (-1) (s_kv s)); Throw (Restore_failed, with_kv c s).

Definition read_stream (seq_id : Z) (st : nat) (a : kv_store * llama_io_read_buffer) : outcome failure (kv_store * llama_io_read_buffer) :=
  let '(s, r) := a in
  '(count, r) ← at_store s (read_u32 r);
  if bool_decide (count = 0) then Done (s, r) else
  strm ← (if bool_decide (seq_id = -1) then Done st else of_option (K.seq_to_stream (s_kv s) !! Z.to_nat seq_id));
  '(o, r, s) ← state_read_meta strm (Z.to_nat count) seq_id s r;
  match o with
  | None => restore_failed seq_id s
  | Some (sinfo, s) =>
      '(ok, s, r) ← state_read_data strm (Z.to_nat count) sinfo s r;
      if (ok : bool) then Done (s, r) else restore_failed seq_id s
  end.

Definition state_read (seq_id : Z) (s : kv_store) (r : llama_io_read_buffer) : outcome failure (kv_store * llama_io_read_buffer) :=
  _ ← must (bool_decide (seq_id = -1 \/ (0 <= seq_id < Z.of_nat (length (K.seq_to_stream (s_kv s))))));
  '(n, r) ← at_store s (read_u32 r);
  if bool_decide (n <> Z.of_nat (K.n_stream (s_kv s))) then Throw (N_stream_mismatch, s) else
  foldO (read_stream seq_id) (seq 0 (K.n_stream (s_kv s))) (s, r).

(** ** The interface of the context

    An exception is caught: the size is then 0.  [None] stands for a buffer that
    is filled only in part. *)

Definition state_seq_write_data `{llama_io_write_i W} (s : kv_store) (seq_id : Z) (w : W) : outcome io_error (Z * W) :=
  w ← state_write s seq_id w; Done (io_n_bytes w, w).

Definition state_seq_get_size (s : kv_store) (seq_id : Z) : option Z :=
  match state_seq_write_data s seq_id 0 with
  | Done (n, _) => Some n
  | Throw _ => Some 0
  | Undefined => None
  end.

Definition state_seq_get_data (s : kv_store) (seq_id size : Z) : option (Z * option (list byte)) :=
  match state_seq_write_data s seq_id (mkWb [] size 0) with
  | Done (n, w) => Some (n, Some (wb_out w))
  | Throw _ => Some (0, None)
  | Undefined => None
  end.

Definition state_seq_read_data (seq_id : Z) (s : kv_store) (r : llama_io_read_buffer) : outcome failure (Z * kv_store) :=
  '(s, r) ← state_read seq_id s r; Done (size_read r, s).

Definition state_seq_set_data (s : kv_store) (seq_id : Z) (src : list byte) : option (Z * kv_store) :=
  match state_seq_read_data seq_id s (mkRb src 0) with
  | Done (n, s) => Some (n, s)
  | Throw (_, s) => Some (0, s)
  | Undefined => None
  end.

End State.
End KvState.
