(* ===== verification/KvSave.v ===== *)
(** Saving the cache: what [state_write] writes, for the writer that counts and
    for the writer into a buffer. *)

From S2P Require Import Prelude.
From S2P Require Import KvCells.
From S2P Require Import Memory.
From S2P Require Import Batch.
From S2P Require Import KvCache.
From S2P Require Import KvOps.
From S2P Require Import Bytes.
From S2P Require Import TensorAlloc.
From S2P Require Import TensorAllocOk.
From S2P Require Import GgmlTensor.
From S2P Require Import GgmlTensorOk.
From S2P Require Import KvState.
Import KvCells.Cells KvOps.KvOps KvState.KvState.
Import TensorAlloc.TensorAlloc TensorAllocOk.TensorAllocOk GgmlTensorOk.GgmlTensorOk.

Module KvSave.
Local Open Scope Z_scope.

(** * Integers as bytes *)

Lemma le_length n : forall z, length (le_bytes n z) = n.
Proof. induction n as [|n IH]; intros z; [done|]. cbn [le_bytes length]. by rewrite IH. Qed.

Lemma le_roundtrip n : forall z, 0 <= z < 256 ^ Z.of_nat n -> le_value (le_bytes n z) = z.
Proof.
  induction n as [|n IH]; intros z Hz; [simpl in Hz; cbn; lia|]. cbn [le_bytes le_value]. rewrite u8_to_char.
  rewrite Nat2Z.inj_succ, Z.pow_succ_r in Hz by lia. rewrite IH.
  - pose proof (Z.div_mod z 256 ltac:(lia)). lia.
  - split; [apply Z.div_pos; lia|]. apply Z.div_lt_upper_bound; lia.
Qed.

Lemma le_u32 z : 0 <= z < 4294967296 -> le_value (le_bytes 4 z) = z.
Proof. apply (le_roundtrip 4). Qed.

Lemma le_u64 z : 0 <= z <= SIZE_MAX -> le_value (le_bytes 8 z) = z.
Proof. intros H. apply (le_roundtrip 8). change (256 ^ Z.of_nat 8) with 18446744073709551616. unfold SIZE_MAX in H. lia. Qed.

(** * Emitting bytes

    A part of the writer emits [l] when it does so on both streams: the counter
    goes up by its length, and the buffer either has the room or throws. *)

Definition wb_ok (b : llama_io_write_buffer) : Prop := 0 <= size_written b <= SIZE_MAX /\ 0 <= buf_size b.

Definition len (l : list byte) : Z := Z.of_nat (length l).

Definition emits (l : list byte) (f1 : Z -> outcome io_error Z) (f2 : llama_io_write_buffer -> outcome io_error llama_io_write_buffer) : Prop :=
  (forall w, 0 <= w <= SIZE_MAX -> f1 w = Done (u64_wrap (w + len l))) /\
  (forall b, wb_ok b -> f2 b = if bool_decide (buf_size b < len l) then Throw End_of_buffer else Done (put_bytes l (len l) b)).

Lemma u64_range z : 0 <= u64_wrap z <= SIZE_MAX.
Proof. unfold u64_wrap, SIZE_MAX. pose proof (Z.mod_pos_bound z 18446744073709551616 ltac:(lia)). lia. Qed.

Lemma u64_add a b : u64_wrap (u64_wrap a + b) = u64_wrap (a + b).
Proof. unfold u64_wrap. by rewrite Zplus_mod_idemp_l. Qed.

Lemma len_app l1 l2 : len (l1 ++ l2) = len l1 + len l2.
Proof. unfold len. rewrite length_app. lia. Qed.

Lemma len_pos l : 0 <= len l.
Proof. unfold len. lia. Qed.

Lemma put_bytes_ok l b : wb_ok b -> len l <= buf_size b -> wb_ok (put_bytes l (len l) b).
Proof. intros [H1 H2] Hl. split; simpl; [apply u64_range|lia]. Qed.

Lemma emits_nil f1 f2 : (forall w, f1 w = Done w) -> (forall b, f2 b = Done b) -> emits [] f1 f2.
Proof.
  intros H1 H2. split.
  - intros w Hw. rewrite H1. change (len []) with 0. by rewrite Z.add_0_r, u64_small.
  - intros b [Hb Hc]. rewrite H2. change (len []) with 0. rewrite bool_decide_false by lia. destruct b as [o c n]. unfold put_bytes. cbn [wb_out buf_size size_written] in *.
    by rewrite app_nil_r, Z.sub_0_r, Z.add_0_r, u64_small.
Qed.

Lemma emits_app l1 l2 f1 f2 g1 g2 : emits l1 f1 f2 -> emits l2 g1 g2 -> emits (l1 ++ l2) (fun w => w ← f1 w; g1 w) (fun b => b ← f2 b; g2 b).
Proof.
  intros [F1 F2] [G1 G2]. pose proof (len_pos l1). pose proof (len_pos l2). split.
  - intros w Hw. rewrite F1 by done. cbn [mbind outcome_bind]. rewrite G1 by apply u64_range. by rewrite u64_add, len_app, Z.add_assoc.
  - intros b Hb. rewrite F2 by done. rewrite len_app. case_bool_decide as D1; cbn [mbind outcome_bind].
    + by rewrite bool_decide_true by lia.
    + rewrite G2 by (apply put_bytes_ok; [done|lia]). cbn [put_bytes buf_size]. case_bool_decide as D2.
      * by rewrite bool_decide_true by lia.
      * rewrite bool_decide_false by lia. f_equal. unfold put_bytes. cbn [wb_out buf_size size_written]. f_equal; [by rewrite app_assoc|lia|by rewrite u64_add, Z.add_assoc].
Qed.

Lemma emits_ext l f1 f2 g1 g2 : emits l f1 f2 -> (forall w, g1 w = f1 w) -> (forall b, g2 b = f2 b) -> emits l g1 g2.
Proof. intros [F1 F2] H1 H2. split; intros; [rewrite H1|rewrite H2]; auto. Qed.

Lemma emits_fold {A} (e : A -> list byte) f1 f2 (xs : list A) : (forall x, x ∈ xs -> emits (e x) (f1 x) (f2 x)) ->
  emits (concat (e <$> xs)) (foldO f1 xs) (foldO f2 xs).
Proof.
  induction xs as [|x xs IH]; intros H; [by apply emits_nil|]. cbn [fmap list_fmap concat foldO].
  apply emits_app; [apply H; set_solver|apply IH; set_solver].
Qed.

Lemma emits_write src : emits src (io_write src) (io_write src).
Proof. split; intros; reflexivity. Qed.

(** A part that first reads something the store has. *)
Lemma emits_get {A} (o : option A) x l (f1 : A -> Z -> outcome io_error Z) f2 : o = Some x -> emits l (f1 x) (f2 x) ->
  emits l (fun w => x ← of_option o; f1 x w) (fun b => x ← of_option o; f2 x b).
Proof. intros -> H. exact H. Qed.

Lemma emits_uint n z : emits (le_bytes n z) (write_uint n z) (write_uint n z).
Proof. apply emits_write. Qed.

(** * Rows of a tensor *)

(** [size] bytes from [k * size] on. *)
Definition row_at (size k : nat) (l : list byte) : list byte := take size (drop (k * size) l).

Definition rows_of (size : nat) (cells : list nat) (l : list byte) : list byte := concat ((fun k => row_at size k l) <$> cells).

Lemma row_length size k l : ((k + 1) * size <= length l)%nat -> length (row_at size k l) = size.
Proof. intros H. unfold row_at. rewrite length_take, length_drop. nia. Qed.

Lemma slice_rows size : forall m a l, ((a + m) * size <= length l)%nat -> take (m * size) (drop (a * size) l) = rows_of size (seq a m) l.
Proof.
  induction m as [|m IH]; intros a l Hl; [done|]. cbn [seq]. unfold rows_of. cbn [fmap list_fmap concat]. fold (rows_of size (seq (S a) m) l).
  rewrite <- IH by lia. unfold row_at. replace (S m * size)%nat with (size + m * size)%nat by lia. rewrite <- take_take_drop. f_equal. rewrite drop_drop. f_equal. f_equal. lia.
Qed.

(** * Ranges of cells *)

Definition kept (cells : llama_kv_cells) (seq_id : Z) (i : nat) : Prop :=
  match view cells i with None => False | Some (_, q) => seq_id = -1 \/ seq_id ∈ q end.

#[global] Instance kept_dec cells seq_id i : Decision (kept cells seq_id i).
Proof. unfold kept. destruct (view cells i) as [[p q]|]; apply _. Defined.

(** The cells that are saved, in order. *)
Definition saved (cells : llama_kv_cells) (seq_id : Z) : list nat := filter (kept cells seq_id) (seq 0 (size cells)).

Definition flat (ranges : list (nat * nat)) : list nat := concat (range_cells <$> ranges).
Definition range_ok (n : nat) (r : nat * nat) : Prop := (r.1 < r.2 <= n)%nat.

Definition seq_ok (seq_id : Z) : Prop := seq_id = -1 \/ 0 <= seq_id < LLAMA_MAX_SEQ.

Section Emit.
Context `{BM : BuildMode}.

(** After the cells before [i]. *)
Definition scan_inv (cells : llama_kv_cells) (seq_id : Z) (i : nat) (st : nat * nat * list (nat * nat)) : Prop :=
  let '(count, begin, ranges) := st in
  flat ranges ++ (if bool_decide (begin = size cells) then [] else seq begin (i - begin)) = filter (kept cells seq_id) (seq 0 i) /\
  count = length (filter (kept cells seq_id) (seq 0 i)) /\ Forall (range_ok (size cells)) ranges /\ (begin = size cells \/ (begin < i)%nat) /\ (begin <= size cells)%nat.

Lemma seq_has_or cells seq_id i : wf cells -> (i < size cells)%nat -> seq_ok seq_id ->
  (if bool_decide (seq_id = -1) then Some true else seq_has i seq_id cells) =
  if bool_decide (seq_id = -1) then Some true else Some (match view cells i with Some (_, q) => bool_decide (seq_id ∈ q) | None => false end).
Proof. intros Hw Hi [->|Hs]; [done|]. case_bool_decide; [done|]. by rewrite seq_has_spec. Qed.

Lemma keep_ok cells seq_id i : wf cells -> (i < size cells)%nat -> seq_ok seq_id ->
  (e ← is_empty i cells; if (e : bool) then Some false else if bool_decide (seq_id = -1) then Some true else seq_has i seq_id cells) =
  Some (bool_decide (kept cells seq_id i)).
Proof.
  intros Hw Hi Hs. rewrite is_empty_spec by done. cbn [mbind option_bind]. rewrite seq_has_or by done.
  destruct (decide (kept cells seq_id i)) as [Hk|Hk]; [rewrite (bool_decide_true (kept cells seq_id i)) by done|rewrite (bool_decide_false (kept cells seq_id i)) by done];
    unfold kept in Hk; destruct (view cells i) as [[p q]|]; try done.
  - rewrite (bool_decide_false (Some (p, q) = None)) by done. case_bool_decide; [done|]. rewrite bool_decide_true by naive_solver. done.
  - rewrite (bool_decide_false (Some (p, q) = None)) by done. case_bool_decide; [naive_solver|]. rewrite bool_decide_false by naive_solver. done.
Qed.

Lemma flat_snoc ranges a b : flat (ranges ++ [(a, b)]) = flat ranges ++ seq a (b - a).
Proof. unfold flat. rewrite fmap_app, concat_app. cbn [fmap list_fmap concat range_cells fst snd]. by rewrite app_nil_r. Qed.

Lemma scan_step cells seq_id i st : wf cells -> (i < size cells)%nat -> seq_ok seq_id -> scan_inv cells seq_id i st ->
  exists st', range_step cells seq_id i st = Some st' /\ scan_inv cells seq_id (i + 1) st'.
Proof.
  destruct st as [[count begin] ranges]. intros Hw Hi Hs (Hf & Hc & Hr & Hb & Hn). unfold range_step.
  pose proof (keep_ok cells seq_id i Hw Hi Hs) as K. destruct (is_empty i cells) as [e|]; [|done]. cbn [mbind option_bind] in *. rewrite K. cbn [mbind option_bind].
  assert (filter (kept cells seq_id) (seq 0 (i + 1)) = filter (kept cells seq_id) (seq 0 i) ++ if bool_decide (kept cells seq_id i) then [i] else []) as E.
  { rewrite Nat.add_1_r, <- seq_snoc, filter_app. f_equal. change (0 + i)%nat with i. rewrite filter_cons, filter_nil. destruct (decide (kept cells seq_id i)); [by rewrite (bool_decide_true (kept _ _ _))|by rewrite (bool_decide_false (kept _ _ _))]. }
  unfold scan_inv. rewrite E, length_app. clear E K.
  destruct (decide (kept cells seq_id i)) as [D|D]; [rewrite (bool_decide_true (kept _ _ _)) by done|rewrite (bool_decide_false (kept _ _ _)) by done];
    (destruct (decide (begin = size cells)) as [B|B];
      [rewrite (bool_decide_true (begin = _)) in Hf by done|rewrite (bool_decide_false (begin = _)) in Hf by done]); rewrite <- Hf.
  - rewrite (bool_decide_true (begin = _)) by done. eexists. split; [reflexivity|]. cbv beta iota. rewrite (bool_decide_false (i = size cells)), app_nil_r by lia. cbn [length].
    split_and!; [f_equal; by replace (i + 1 - i)%nat with 1%nat by lia|rewrite Hc, <- Hf, app_nil_r; lia|done|lia|lia].
  - rewrite (bool_decide_false (begin = _)) by done. eexists. split; [reflexivity|]. cbv beta iota. rewrite (bool_decide_false (begin = size cells)) by done. cbn [length].
    split_and!; [|rewrite Hc, <- Hf; lia|done|lia|lia].
    rewrite <- app_assoc. f_equal. replace (i + 1 - begin)%nat with (S (i - begin)) by lia. rewrite <- seq_snoc. f_equal. f_equal. lia.
  - rewrite (bool_decide_false (begin <> _)) by lia. eexists. split; [reflexivity|]. cbv beta iota. rewrite (bool_decide_true (begin = size cells)) by done. cbn [length].
    split_and!; [by rewrite !app_nil_r|rewrite Hc, <- Hf; lia|done|lia|lia].
  - rewrite (bool_decide_true (begin <> _)) by done. eexists. split; [reflexivity|]. cbv beta iota. rewrite (bool_decide_true (size cells = size cells)) by done. cbn [length].
    split_and!; [by rewrite flat_snoc, !app_nil_r|rewrite Hc, <- Hf; lia| |lia|lia].
    apply Forall_app. split; [done|]. apply Forall_singleton. unfold range_ok. cbn. lia.
Qed.

Lemma cell_ranges_ok cells seq_id : wf cells -> seq_ok seq_id ->
  exists ranges, cell_ranges cells seq_id = Some (length (saved cells seq_id), ranges) /\ flat ranges = saved cells seq_id /\ Forall (range_ok (size cells)) ranges.
Proof.
  intros Hw Hs. unfold cell_ranges, saved.
  destruct (foldM_seq (range_step cells seq_id) (scan_inv cells seq_id) 0 (size cells) (0%nat, size cells, [])) as (st & E & I).
  - unfold scan_inv. rewrite bool_decide_true by done. split_and!; try done. by left.
  - intros i st Hi I. apply scan_step; [done|lia|done|done].
  - rewrite E. cbn [mbind option_bind]. destruct st as [[count begin] ranges]. destruct I as (Hf & -> & Hr & Hb & Hn). cbn [mbind option_bind].
    destruct (decide (begin = size cells)) as [B|B]; [rewrite (bool_decide_false (begin <> _)) by (by intros ?)|rewrite (bool_decide_true (begin <> _)) by done].
    2: { eexists. split; [reflexivity|]. rewrite flat_snoc. rewrite bool_decide_false in Hf by done. split; [done|].
      apply Forall_app. split; [done|]. apply Forall_singleton. unfold range_ok. cbn. lia. }
    eexists. split; [reflexivity|]. rewrite bool_decide_true in Hf by done. rewrite app_nil_r in Hf. done.
Qed.

Lemma ranges_count ranges : sum_list ((fun r => r.2 - r.1)%nat <$> ranges) = length (flat ranges).
Proof.
  induction ranges as [|[a b] l IH]; [done|]. unfold flat in *. cbn [fmap list_fmap sum_list foldr concat]. rewrite length_app, <- IH. unfold range_cells. cbn [fst snd].
  by rewrite length_seq.
Qed.

(** * Tensors *)

(** Rows of [R] bytes, one for each of the [N] cells. *)
Definition rows_ok (N : nat) (n_embd : Z) (t : kv_tensor) : Prop :=
  exists blck size, typed (kt_type t) blck size /\ 0 <= n_embd /\ (blck | n_embd) /\ size * n_embd <= T_MAX /\
    length (kt_bytes t) = (N * Z.to_nat (size * (n_embd / blck)))%nat /\ len (kt_bytes t) <= T_MAX.

(** Transposed: for each of the [n_embd] rows an element of every cell.  The
    offsets are 32-bit numbers. *)
Definition cols_ok (N : nat) (n_embd : Z) (t : kv_tensor) : Prop :=
  exists blck size, typed (kt_type t) blck size /\ 0 <= n_embd < 4294967296 /\
    length (kt_bytes t) = (Z.to_nat n_embd * N * Z.to_nat size)%nat /\ len (kt_bytes t) < 4294967296.

Definition row_bytes (n_embd : Z) (t : kv_tensor) : nat := Z.to_nat (default 0 (G.ggml_row_size (kt_type t) n_embd)).
Definition el_bytes (t : kv_tensor) : nat := Z.to_nat (default 0 (G.ggml_type_size (kt_type t))).

Lemma rows_spec N n_embd t : rows_ok N n_embd t ->
  G.ggml_row_size (kt_type t) n_embd = Some (Z.of_nat (row_bytes n_embd t)) /\ length (kt_bytes t) = (N * row_bytes n_embd t)%nat /\
  len (kt_bytes t) <= T_MAX /\ 0 <= kt_type t < 40 /\ Z.of_nat (row_bytes n_embd t) <= T_MAX.
Proof.
  intros (blck & size & Ht & Hn & Hd & Hv & Hl & Hm). destruct (typed_pos _ _ _ Ht) as [Hb Hs]. pose proof T_MAX_le. unfold row_bytes.
  rewrite (row_size_ok _ _ _ _ Ht Hn Hd) by lia. cbn [default from_option]. assert (0 <= n_embd / blck <= n_embd).
  { split; [by apply Z.div_pos|apply Z.div_le_upper_bound; nia]. }
  assert (0 <= size * (n_embd / blck) <= size * n_embd) by nia. rewrite Z2Nat.id by (unfold id; lia). split_and!; try done; [by apply Ht..|unfold id; lia].
Qed.

Lemma cols_spec N n_embd t : cols_ok N n_embd t ->
  G.ggml_type_size (kt_type t) = Some (Z.of_nat (el_bytes t)) /\ length (kt_bytes t) = (Z.to_nat n_embd * N * el_bytes t)%nat /\
  len (kt_bytes t) < 4294967296 /\ 0 <= n_embd < 4294967296 /\ (0 < el_bytes t <= 292)%nat /\ 0 <= kt_type t < 40.
Proof.
  intros (blck & size & Ht & Hn & Hl & Hm). unfold el_bytes. rewrite (typed_size _ _ _ Ht). cbn [default from_option]. unfold id.
  destruct Ht as (? & _ & _ & ?). rewrite Z2Nat.id by lia. unfold G.GGML_TYPE_COUNT in *. split_and!; try done; lia.
Qed.

Lemma emits_tensor t off n b : ggml_backend_tensor_get t off (Z.of_nat n) = Some b -> length b = n ->
  emits b (io_write_tensor t off (Z.of_nat n)) (io_write_tensor t off (Z.of_nat n)).
Proof.
  intros E Hl. split; [intros w Hw|intros w Hw]; cbn [io_write_tensor llama_io_write_dummy write_buffer]; unfold len; rewrite Hl; [done|].
  case_bool_decide; [done|]. rewrite E. reflexivity.
Qed.

Lemma get_slice t a m size : ((a + m) * size <= length (kt_bytes t))%nat -> len (kt_bytes t) <= T_MAX ->
  ggml_backend_tensor_get t (Z.of_nat (a * size)) (Z.of_nat (m * size)) = Some (rows_of size (seq a m) (kt_bytes t)).
Proof.
  intros Hl Hm. pose proof T_MAX_le. unfold len in Hm. unfold ggml_backend_tensor_get. case_bool_decide as D.
  - rewrite <- slice_rows by done. by replace (m * size)%nat with 0%nat by lia.
  - unfold in_tensor. rewrite u64_small by lia. rewrite ggml_assert_bd by lia. cbn [mbind option_bind]. rewrite bool_decide_false by lia.
    rewrite !Nat2Z.id. by rewrite slice_rows.
Qed.

Lemma rows_length size cells l : Forall (fun k => (k + 1) * size <= length l)%nat cells -> length (rows_of size cells l) = (length cells * size)%nat.
Proof.
  induction 1 as [|k cells Hk _ IH]; [done|]. unfold rows_of in *. cbn [fmap list_fmap concat length]. rewrite length_app, IH, row_length by done. lia.
Qed.

Lemma rows_app size c1 c2 l : rows_of size (c1 ++ c2) l = rows_of size c1 l ++ rows_of size c2 l.
Proof. unfold rows_of. by rewrite fmap_app, concat_app. Qed.

Lemma rows_flat size ranges base l : concat ((fun r => rows_of size ((fun i => base + i)%nat <$> range_cells r) l) <$> ranges) = rows_of size ((fun i => base + i)%nat <$> flat ranges) l.
Proof.
  induction ranges as [|r ranges IH]; [done|]. unfold flat in *. cbn [fmap list_fmap concat]. rewrite IH. by rewrite fmap_app, rows_app.
Qed.

Lemma fmap_base_seq base a m : (fun i => base + i)%nat <$> seq a m = seq (base + a) m.
Proof. revert a. induction m as [|m IH]; intros a; [done|]. cbn [seq fmap list_fmap]. f_equal. rewrite <- Nat.add_succ_r. apply IH. Qed.

(** All ranges of one tensor, with offsets the code computes for cell [base]. *)
Lemma emits_rows t size base ranges N (off : nat -> Z) : Forall (range_ok N) ranges -> ((base + N) * size <= length (kt_bytes t))%nat -> len (kt_bytes t) <= T_MAX ->
  (forall a, (a < N)%nat -> off a = Z.of_nat ((base + a) * size)) ->
  emits (rows_of size ((fun i => base + i)%nat <$> flat ranges) (kt_bytes t))
    (foldO (fun r => io_write_tensor t (off r.1) (u64_wrap (Z.of_nat (r.2 - r.1) * Z.of_nat size))) ranges)
    (foldO (fun r => io_write_tensor t (off r.1) (u64_wrap (Z.of_nat (r.2 - r.1) * Z.of_nat size))) ranges).
Proof.
  intros Hr Hl Hm Ho. rewrite <- rows_flat. apply emits_fold. intros [a b] Hin. rewrite Forall_forall in Hr. destruct (Hr _ Hin) as [Hab Hb]. cbn [fst snd] in *.
  pose proof T_MAX_le. unfold len in Hm. assert ((base + a + (b - a)) * size <= (base + N) * size)%nat by (apply Nat.mul_le_mono_r; lia).
  rewrite u64_small by nia. rewrite <- Nat2Z.inj_mul, Ho by lia. unfold range_cells. cbn [fst snd]. rewrite fmap_base_seq.
  apply emits_tensor; [apply get_slice; [lia|done]|]. rewrite rows_length; [by rewrite length_seq|]. apply Forall_forall. intros k Hk%elem_of_seq.
  assert ((k + 1) * size <= (base + N) * size)%nat by (apply Nat.mul_le_mono_r; lia). lia.
Qed.

(** * The format *)

Definition le4 : Z -> list byte := le_bytes 4.

(** The sequences saved with a cell, in order. *)
Definition ids_of (nmax : nat) (seq_id : Z) (q : gset Z) : list Z :=
  filter (fun cur => (cur = seq_id \/ seq_id = -1) /\ cur ∈ q) (seqZ 0 (Z.of_nat nmax)).

Definition enc_ids (p : Z) (ids : list Z) : list byte := le4 p ++ le4 (Z.of_nat (length ids)) ++ concat (le4 <$> ids).

Definition enc_cell (nmax : nat) (seq_id : Z) (cells : llama_kv_cells) (i : nat) : list byte :=
  match view cells i with Some (p, q) => enc_ids p (ids_of nmax seq_id q) | None => [] end.

Definition enc_rows (n_embd : Z) (t : kv_tensor) (l : list nat) : list byte :=
  le4 (kt_type t) ++ le_bytes 8 (Z.of_nat (row_bytes n_embd t)) ++ rows_of (row_bytes n_embd t) l (kt_bytes t).

(** Row [j] of the transposed values. *)
Definition col_cells (N : nat) (l : list nat) (j : Z) : list nat := (fun i => Z.to_nat j * N + i)%nat <$> l.

Definition enc_cols (N : nat) (n_embd : Z) (t : kv_tensor) (l : list nat) : list byte :=
  le4 (kt_type t) ++ le4 (Z.of_nat (el_bytes t)) ++ le4 n_embd ++
  concat ((fun j => rows_of (el_bytes t) (col_cells N l j) (kt_bytes t)) <$> seqZ 0 n_embd).

Definition at_stream {A} (st : nat) (l : list A) (f : A -> list byte) : list byte := match l !! st with Some a => f a | None => [] end.

Definition enc_k (st : nat) (l : list nat) (la : kv_layer) : list byte :=
  at_stream st (k_stream la) (fun t => enc_rows (n_embd_k_gqa la) t l).
Definition enc_v (trans : bool) (N st : nat) (l : list nat) (la : kv_layer) : list byte :=
  at_stream st (v_stream la) (fun v => match v with
    | None => []
    | Some t => if trans then enc_cols N (n_embd_v_gqa la) t l else enc_rows (n_embd_v_gqa la) t l
    end).

Definition enc_data (s : kv_store) (N st : nat) (l : list nat) : list byte :=
  le4 (if K.v_trans (s_kv s) then 1 else 0) ++ le4 (Z.of_nat (length (layers s))) ++
  concat (enc_k st l <$> layers s) ++ concat (enc_v (K.v_trans (s_kv s)) N st l <$> layers s).

Definition enc_stream (s : kv_store) (N : nat) (seq_id : Z) (st : nat) : list byte :=
  at_stream st (K.v_cells (s_kv s)) (fun cells => let l := saved cells seq_id in
    le4 (Z.of_nat (length l)) ++
    if bool_decide (length l = 0%nat) then [] else concat (enc_cell (n_seq_max s) seq_id cells <$> l) ++ enc_data s N st l).

Definition encoding (s : kv_store) (N : nat) (seq_id : Z) : list byte :=
  le4 (Z.of_nat (K.n_stream (s_kv s))) ++ concat (enc_stream s N seq_id <$> seq 0 (K.n_stream (s_kv s))).

(** * The invariant of a cache with its tensors *)

Record layer_ok (ns N : nat) (trans : bool) (la : kv_layer) : Prop := {
  ly_k   : length (k_stream la) = ns;
  ly_v   : length (v_stream la) = ns;
  ly_kt  : forall t, t ∈ k_stream la -> rows_ok N (n_embd_k_gqa la) t;
  ly_vt  : forall t, Some t ∈ v_stream la -> if trans then cols_ok N (n_embd_v_gqa la) t else rows_ok N (n_embd_v_gqa la) t;
}.

Record store_ok (N : nat) (s : kv_store) : Prop := {
  so_kv     : wf_kv N (s_kv s);
  so_layers : Forall (layer_ok (K.n_stream (s_kv s)) N (K.v_trans (s_kv s))) (layers s);
  so_count  : Z.of_nat (length (layers s)) < 4294967296;
  so_nmax   : Z.of_nat (n_seq_max s) <= LLAMA_MAX_SEQ;
  so_seqs   : forall st i p q x, kv_view (s_kv s) st i = Some (p, q) -> x ∈ q -> x < Z.of_nat (n_seq_max s);
}.

(** ** Emission *)

Lemma emits_id f1 f2 : (forall w : Z, f1 w = Done w) -> (forall b : llama_io_write_buffer, f2 b = Done b) -> emits [] f1 f2.
Proof. apply emits_nil. Qed.

Lemma cell_ids_ok s cells seq_id i p q : wf cells -> view cells i = Some (p, q) -> Z.of_nat (n_seq_max s) <= LLAMA_MAX_SEQ ->
  cell_seq_ids s cells seq_id i = Some (ids_of (n_seq_max s) seq_id q).
Proof.
  intros Hw Hv Hn. unfold cell_seq_ids, ids_of. pose proof (view_size _ _ _ _ Hv) as Hi.
  assert (forall l acc, (forall x, x ∈ l -> 0 <= x < LLAMA_MAX_SEQ) -> foldM (fun cur ids =>
    if bool_decide (cur = seq_id \/ seq_id = -1) then h ← seq_has i cur cells; Some (if (h : bool) then ids ++ [cur] else ids) else Some ids) l acc =
    Some (acc ++ filter (fun cur => (cur = seq_id \/ seq_id = -1) /\ cur ∈ q) l)) as G.
  { induction l as [|x l IH]; intros acc Hl; [by rewrite app_nil_r|]. cbn [foldM]. rewrite filter_cons. case_bool_decide as D.
    - rewrite seq_has_spec, Hv by (done || (apply Hl; set_solver)). cbn [mbind option_bind]. rewrite IH by (intros y Hy; apply Hl; set_solver). f_equal.
      destruct (decide (x ∈ q)) as [Hq|Hq].
      + rewrite bool_decide_true, decide_True by done. by rewrite <- app_assoc.
      + rewrite bool_decide_false, decide_False by naive_solver. done.
    - cbn [mbind option_bind]. rewrite IH by (intros y Hy; apply Hl; set_solver). by rewrite decide_False by naive_solver. }
  rewrite G; [done|]. intros x Hx. apply elem_of_seqZ in Hx. lia.
Qed.

Lemma emits_cell s cells seq_id i p q : wf cells -> view cells i = Some (p, q) -> Z.of_nat (n_seq_max s) <= LLAMA_MAX_SEQ ->
  emits (enc_cell (n_seq_max s) seq_id cells i) (write_cell s cells seq_id i) (write_cell s cells seq_id i).
Proof.
  intros Hw Hv Hn. unfold enc_cell, enc_ids. rewrite Hv. unfold write_cell.
  eapply (emits_get _ _ _ (fun ids w => pos ← of_option (pos_get i cells); w ← write_u32 pos w; w ← write_u32 (Z.of_nat (length ids)) w; foldO write_u32 ids w)
    (fun ids w => pos ← of_option (pos_get i cells); w ← write_u32 pos w; w ← write_u32 (Z.of_nat (length ids)) w; foldO write_u32 ids w)); [exact (cell_ids_ok _ _ _ _ _ _ Hw Hv Hn)|].
  eapply (emits_get _ _ _ (fun pos w => w ← write_u32 pos w; w ← write_u32 _ w; foldO write_u32 _ w) (fun pos w => w ← write_u32 pos w; w ← write_u32 _ w; foldO write_u32 _ w)); [by eapply pos_get_spec|].
  apply emits_app; [apply emits_uint|]. apply emits_app; [apply emits_uint|]. apply emits_fold. intros x _. apply emits_uint.
Qed.

Lemma fmap_base0 (l : list nat) : (fun i => 0 + i)%nat <$> l = l.
Proof. apply list_fmap_id. Qed.

Lemma emits_tensor_rows N n_embd t ranges : rows_ok N n_embd t -> Forall (range_ok N) ranges ->
  emits (enc_rows n_embd t (flat ranges))
    (fun w => w ← write_u32 (kt_type t) w; size ← of_option (G.ggml_row_size (kt_type t) n_embd); w ← write_u64 size w; write_rows t 0 size ranges w)
    (fun w => w ← write_u32 (kt_type t) w; size ← of_option (G.ggml_row_size (kt_type t) n_embd); w ← write_u64 size w; write_rows t 0 size ranges w).
Proof.
  intros Ht Hr. destruct (rows_spec N n_embd t Ht) as (E & Hl & Hm & _ & _). unfold enc_rows. pose proof T_MAX_le. unfold len in Hm.
  apply emits_app; [apply emits_uint|].
  apply (emits_get _ _ _ (fun size w => w ← write_u64 size w; write_rows t 0 size ranges w) (fun size w => w ← write_u64 size w; write_rows t 0 size ranges w) E).
  apply emits_app; [apply emits_uint|]. rewrite <- (fmap_base0 (flat ranges)). set (R := row_bytes n_embd t) in *.
  apply (emits_rows t R 0 ranges N (fun a => u64_wrap (0 + u64_wrap (Z.of_nat a * Z.of_nat R)))); [done|lia|done|].
  intros a Ha. assert (a * R <= N * R)%nat by (apply Nat.mul_le_mono_r; lia). rewrite <- Nat2Z.inj_mul. rewrite (u64_small (Z.of_nat (a * R))) by lia.
  rewrite u64_small by lia. f_equal; lia.
Qed.

Lemma emits_k ns N trans la st ranges : layer_ok ns N trans la -> (st < ns)%nat -> Forall (range_ok N) ranges ->
  emits (enc_k st (flat ranges) la) (write_k st ranges la) (write_k st ranges la).
Proof.
  intros Hla Hst Hr. destruct (lookup_lt_is_Some_2 (k_stream la) st) as [t Ht]; [by rewrite (ly_k _ _ _ _ Hla)|].
  unfold enc_k, at_stream, write_k. rewrite Ht. cbn [of_option mbind outcome_bind]. apply (emits_tensor_rows N); [|done]. apply (ly_kt _ _ _ _ Hla). by eapply list_elem_of_lookup_2.
Qed.

Lemma u32_small z : 0 <= z < 4294967296 -> u32_wrap z = z.
Proof. intros H. unfold u32_wrap. by apply Z.mod_small. Qed.

Lemma emits_v_trans N n_embd t ranges : cols_ok N n_embd t -> Forall (range_ok N) ranges -> forall j, 0 <= j < n_embd ->
  emits (rows_of (el_bytes t) (col_cells N (flat ranges) j) (kt_bytes t))
    (write_v_row t N (u32_wrap (Z.of_nat (el_bytes t))) ranges j) (write_v_row t N (u32_wrap (Z.of_nat (el_bytes t))) ranges j).
Proof.
  intros Ht Hr j Hj. destruct (cols_spec N n_embd t Ht) as (E & Hl & Hm & Hn & He & _). unfold len in Hm. assert (4294967296 <= T_MAX) by by_eval. set (el := el_bytes t) in *.
  assert (forall a, (a <= N)%nat -> ((Z.to_nat j * N + a) * el <= Z.to_nat n_embd * N * el)%nat) as Hle.
  { intros a Ha. apply Nat.mul_le_mono_r. assert (Z.to_nat j + 1 <= Z.to_nat n_embd)%nat by lia. nia. }
  unfold write_v_row, col_cells. rewrite (u32_small (Z.of_nat el)) by lia.
  apply (emits_rows t el (Z.to_nat j * N) ranges N (fun a => u32_wrap (u32_wrap (Z.of_nat a + u32_wrap (j * Z.of_nat N)) * Z.of_nat el))); [done|rewrite Hl; by apply Hle|unfold len; lia|].
  intros a Ha. pose proof (Hle a ltac:(lia)). pose proof (Hle 0%nat ltac:(lia)) as Hz. rewrite Nat.add_0_r in Hz. assert (Z.to_nat j * N + a <= (Z.to_nat j * N + a) * el)%nat by nia.
  replace (j * Z.of_nat N) with (Z.of_nat (Z.to_nat j * N)) by lia. rewrite (u32_small (Z.of_nat (_ * N))) by lia. rewrite <- Nat2Z.inj_add, (u32_small (Z.of_nat (a + _))) by lia.
  rewrite <- Nat2Z.inj_mul, u32_small by lia. f_equal. lia.
Qed.

Lemma emits_v ns N (trans : bool) la st ranges : layer_ok ns N trans la -> (st < ns)%nat -> Forall (range_ok N) ranges ->
  emits (enc_v trans N st (flat ranges) la)
    (if trans then write_v_trans st N ranges la else write_v st ranges la) (if trans then write_v_trans st N ranges la else write_v st ranges la).
Proof.
  intros Hla Hst Hr. destruct (lookup_lt_is_Some_2 (v_stream la) st) as [o Ho]; [by rewrite (ly_v _ _ _ _ Hla)|].
  unfold enc_v, at_stream. rewrite Ho. destruct o as [t|].
  - pose proof (ly_vt _ _ _ _ Hla t (list_elem_of_lookup_2 _ _ _ Ho)) as Ht. destruct trans.
    + unfold write_v_trans. rewrite Ho. cbn [of_option mbind outcome_bind]. destruct (cols_spec _ _ _ Ht) as (E & Hl & Hm & Hn & He & _). unfold enc_cols.
      apply emits_app; [apply emits_uint|].
      apply (emits_get _ _ _ (fun el w => w ← write_u32 (u32_wrap el) w; w ← write_u32 _ w; foldO (write_v_row t N (u32_wrap el) ranges) _ w)
        (fun el w => w ← write_u32 (u32_wrap el) w; w ← write_u32 _ w; foldO (write_v_row t N (u32_wrap el) ranges) _ w) E).
      rewrite <- (u32_small (Z.of_nat (el_bytes t))) at 1 by lia. apply emits_app; [apply emits_uint|]. apply emits_app; [apply emits_uint|].
      apply emits_fold. intros j Hj%elem_of_seqZ. eapply emits_v_trans; [done|done|lia].
    + unfold write_v. rewrite Ho. cbn [of_option mbind outcome_bind]. by apply (emits_tensor_rows N).
  - destruct trans; [unfold write_v_trans|unfold write_v]; rewrite Ho; by apply emits_nil.
Qed.

Lemma emits_data N s st cells ranges : store_ok N s -> K.v_cells (s_kv s) !! st = Some cells -> Forall (range_ok N) ranges ->
  emits (enc_data s N st (flat ranges)) (state_write_data s st ranges) (state_write_data s st ranges).
Proof.
  intros Hs Hc Hr. assert (st < K.n_stream (s_kv s))%nat as Hst by (rewrite <- (kw_cells _ _ (so_kv _ _ Hs)); by eapply lookup_lt_Some).
  destruct (kw_wf _ _ (so_kv _ _ Hs) _ _ Hc) as [_ Hsz]. pose proof (so_layers _ _ Hs) as Hla. rewrite Forall_forall in Hla.
  unfold enc_data, state_write_data. rewrite Hc. cbn [of_option mbind outcome_bind]. rewrite Hsz.
  apply emits_app; [apply emits_uint|]. apply emits_app; [apply emits_uint|].
  apply emits_app; [apply emits_fold; intros la Hin; eapply emits_k; [by apply Hla|done|done]|].
  eapply emits_ext; [apply (emits_fold (enc_v (K.v_trans (s_kv s)) N st (flat ranges))
      (fun la => if K.v_trans (s_kv s) then write_v_trans st N ranges la else write_v st ranges la)
      (fun la => if K.v_trans (s_kv s) then write_v_trans st N ranges la else write_v st ranges la))| |].
  - intros la Hin. eapply emits_v; [by apply Hla|done|done].
  - intros w. by destruct (K.v_trans (s_kv s)).
  - intros w. by destruct (K.v_trans (s_kv s)).
Qed.

Lemma saved_view cells seq_id i : i ∈ saved cells seq_id -> (i < size cells)%nat /\ exists p q, view cells i = Some (p, q) /\ (seq_id = -1 \/ seq_id ∈ q).
Proof.
  intros [Hk Hi%elem_of_seq]%list_elem_of_filter. split; [lia|]. unfold kept in Hk. destruct (view cells i) as [[p q]|]; [|done]. by exists p, q.
Qed.

Lemma concat_concat {A B} (f : B -> list A) (g : nat * nat -> list B) (l : list (nat * nat)) : concat ((fun r => concat (f <$> g r)) <$> l) = concat (f <$> concat (g <$> l)).
Proof. induction l as [|r l IH]; [done|]. cbn [fmap list_fmap concat]. by rewrite IH, fmap_app, concat_app. Qed.

Lemma emits_meta N s st cells seq_id ranges : store_ok N s -> K.v_cells (s_kv s) !! st = Some cells -> flat ranges = saved cells seq_id ->
  emits (concat (enc_cell (n_seq_max s) seq_id cells <$> flat ranges)) (state_write_meta s st ranges seq_id) (state_write_meta s st ranges seq_id).
Proof.
  intros Hs Hc Hf. destruct (kw_wf _ _ (so_kv _ _ Hs) _ _ Hc) as [Hw _]. unfold state_write_meta, flat. rewrite Hc. cbn [of_option mbind outcome_bind].
  rewrite <- concat_concat. apply emits_fold. intros r Hr. apply emits_fold. intros i Hi.
  assert (i ∈ saved cells seq_id) as Hin. { rewrite <- Hf. unfold flat. apply list_elem_of_In, in_concat. exists (range_cells r). split; apply list_elem_of_In; [by apply list_elem_of_fmap_2|done]. }
  destruct (saved_view _ _ _ Hin) as (_ & p & q & Hv & _). eapply emits_cell; [done|done|apply Hs].
Qed.

Lemma emits_stream N s st seq_id : store_ok N s -> (st < K.n_stream (s_kv s))%nat -> seq_ok seq_id ->
  emits (enc_stream s N seq_id st) (write_stream s seq_id st) (write_stream s seq_id st).
Proof.
  intros Hs Hst Hq. destruct (lookup_lt_is_Some_2 (K.v_cells (s_kv s)) st) as [cells Hc]; [by rewrite (kw_cells _ _ (so_kv _ _ Hs))|].
  destruct (kw_wf _ _ (so_kv _ _ Hs) _ _ Hc) as [Hw Hsz]. destruct (cell_ranges_ok cells seq_id Hw Hq) as (ranges & E & Hf & Hr). rewrite Hsz in Hr.
  unfold enc_stream, at_stream, write_stream. rewrite Hc. cbn [of_option mbind outcome_bind]. rewrite E. cbn [of_option mbind outcome_bind].
  rewrite ranges_count, Hf, must_bd by done. cbn [mbind outcome_bind]. apply emits_app; [apply emits_uint|].
  case_bool_decide as D; [by apply emits_nil|]. rewrite <- Hf. apply emits_app; [by eapply emits_meta|by eapply emits_data].
Qed.

Lemma emits_state N s seq_id : store_ok N s -> seq_ok seq_id -> emits (encoding s N seq_id) (state_write s seq_id) (state_write s seq_id).
Proof.
  intros Hs Hq. unfold encoding, state_write. apply emits_app; [apply emits_uint|]. apply emits_fold. intros st Hst%elem_of_seq. apply emits_stream; [done|lia|done].
Qed.

End Emit.
End KvSave.
