(* ===== verification/KvConsume.v ===== *)
(** Reading a saved state counts the bytes it takes: whatever the bytes are,
    what [state_read] has read and what is left add up to the whole. *)

From S2P Require Import Prelude.
From S2P Require Import KvCells.
From S2P Require Import Memory.
From S2P Require Import Batch.
From S2P Require Import KvCache.
From S2P Require Import Bytes.
From S2P Require Import TensorAlloc.
From S2P Require Import TensorAllocOk.
From S2P Require Import GgmlTensor.
From S2P Require Import GgmlTensorOk.
From S2P Require Import KvState.
From S2P Require Import KvSave.
Import KvState.KvState KvSave.KvSave.
Import TensorAlloc.TensorAlloc TensorAllocOk.TensorAllocOk GgmlTensorOk.GgmlTensorOk.

Module KvConsume.
Local Open Scope Z_scope.

(** * Postconditions of computations that may fail *)

Definition post {E A} (P : A -> Prop) (m : outcome E A) : Prop := match m with Done a => P a | _ => True end.

Lemma post_bind {E A B} (P : A -> Prop) (Q : B -> Prop) (m : outcome E A) (f : A -> outcome E B) :
  post P m -> (forall a, P a -> post Q (f a)) -> post Q (m ≫= f).
Proof. destruct m; cbn; auto. Qed.

Lemma post_option {E A B} (Q : B -> Prop) (o : option A) (f : A -> outcome E B) : (forall a, post Q (f a)) -> post Q (of_option o ≫= f).
Proof. destruct o; cbn; auto. Qed.

Lemma post_must {E B} (Q : B -> Prop) b (f : unit -> outcome E B) : post Q (f tt) -> post Q (must b ≫= f).
Proof. destruct b; cbn; auto. Qed.

Lemma post_if {E A} (P : A -> Prop) (b : bool) (m1 m2 : outcome E A) : post P m1 -> post P m2 -> post P (if b then m1 else m2).
Proof. by destruct b. Qed.

Lemma post_fold {E A S} (P : S -> Prop) (f : A -> S -> outcome E S) l s : (forall a s, P s -> post P (f a s)) -> P s -> post P (foldO f l s).
Proof.
  intros Hf. revert s. induction l as [|a l IH]; intros s Hs; [done|]. cbn [foldO]. eapply post_bind; [by apply Hf|]. intros s' Hs'. by apply IH.
Qed.

Lemma post_store {A} s (P : A -> Prop) (m : outcome io_error A) : post P m -> post P (at_store s m).
Proof. by destruct m. Qed.

Lemma post_tensor {A} t (P : A -> Prop) (m : outcome io_error A) : post P m -> post P (at_tensor t m).
Proof. by destruct m. Qed.

(** * The bytes read *)

(** [T] bytes in all, counted modulo 2^64. *)
Definition whole (T : Z) (r : llama_io_read_buffer) : Prop := u64_wrap (size_read r + len (rb_ptr r)) = T /\ 0 <= size_read r <= SIZE_MAX.

Lemma io_read_post T n r : 0 <= n -> whole T r -> post (fun '(_, r') => whole T r') (io_read n r).
Proof.
  intros Hn [Hr _]. unfold io_read. case_bool_decide as D; [done|]. cbn. split; [|apply u64_range]. cbn [size_read rb_ptr]. rewrite <- Hr, u64_add. f_equal.
  unfold len. rewrite length_drop. lia.
Qed.

Lemma read_uint_post T n r : whole T r -> post (fun '(_, r') => whole T r') (read_uint n r).
Proof. intros H. unfold read_uint. eapply post_bind; [apply io_read_post; [lia|done]|]. by intros [b r'] H'. Qed.

Lemma read_i32_post T r : whole T r -> post (fun '(_, r') => whole T r') (read_i32 r).
Proof. intros H. unfold read_i32. eapply post_bind; [by apply read_uint_post|]. by intros [b r'] H'. Qed.

Section Consume.
Context `{BM : BuildMode} (T : Z).

(** ** Cells *)

Lemma read_seq_cells_post dest l st : whole T st.2 -> post (fun o => match o with Some st' => whole T st'.2 | None => True end) (read_seq_cells dest l st).
Proof.
  revert st. induction l as [|i l IH]; intros [u r] H; [done|]. cbn [read_seq_cells]. eapply (post_bind (fun o => match o with Some st' => whole T st'.2 | None => True end)).
  - unfold read_seq_cell. eapply post_bind; [by apply read_i32_post|]. intros [p r1] H1. eapply post_bind; [by apply read_uint_post|]. intros [n r2] H2. apply post_if; [done|].
    eapply post_bind; [by apply read_i32_post|]. intros [x r3] H3. do 3 (apply post_option; intros ?). done.
  - intros [st'|] H'; [by apply IH|done].
Qed.

Lemma read_ids_post s i n cells r : whole T r -> post (fun '(_, _, r') => whole T r') (read_ids s i n cells r).
Proof.
  revert cells r. induction n as [|n IH]; intros cells r H; [done|]. cbn [read_ids]. pose proof (read_i32_post T r H) as P. destruct (read_i32 r) as [[id r1]|e|]; [|done..]. cbn in P.
  apply post_if; [done|]. apply post_option. intros cells'. by apply IH.
Qed.

Lemma read_cells_post s l cells r : whole T r -> post (fun '(_, _, r') => whole T r') (read_cells s l cells r).
Proof.
  revert cells r. induction l as [|i l IH]; intros cells r H; [done|]. cbn [read_cells]. eapply (post_bind (fun '(_, _, r') => whole T r')).
  - unfold read_cell. assert (post (fun '(_, _, r') => whole T r') ('(pos, r) ← read_i32 r; '(n, r) ← read_u32 r; Done (pos, n, r))) as P.
    { eapply post_bind; [by apply read_i32_post|]. intros [p r1] H1. eapply post_bind; [by apply read_uint_post|]. by intros [n r2] H2. }
    destruct (_ ≫= _) as [[[p n] r1]|e|]; [|done..]. cbn in P. apply post_option. intros cells'. by apply read_ids_post.
  - intros [[[] c'] r'] H'; [by apply IH|done].
Qed.

Lemma state_read_meta_post strm count seq_id s r : whole T r -> post (fun '(_, r', _) => whole T r') (state_read_meta strm count seq_id s r).
Proof.
  intros H. unfold state_read_meta. apply post_if.
  - unfold read_meta_seq. apply post_option. intros [c b]. apply post_option. intros [u a]. apply post_option. intros unq.
    eapply post_bind; [apply post_store, read_seq_cells_post; exact H|]. intros [[u' r']|] H'; [|exact H]. cbn in H'. apply post_option. intros si. apply post_if; [done|].
    apply post_option. intros c'. apply post_option. intros cells. apply post_must, post_option. intros row. apply post_must, post_option. intros []. done.
  - unfold read_meta_all. apply post_option. intros cells. apply post_if; [done|]. apply post_option. intros cells'. pose proof (read_cells_post (clear_data s) (seq 0 count) cells' r H) as P.
    destruct (read_cells _ _ _ _) as [[[ok c'] r']|[e c']|]; [|by destruct (put_cells _ _ _)|done]. cbn in P. apply post_option. intros s'. apply post_if; [done|]. apply post_option. by intros c2.
Qed.

(** ** Data *)

Lemma read_rows_post sinfo count size off t r : whole T r -> post (fun '(_, r') => whole T r') (read_rows sinfo count size off t r).
Proof.
  intros H. unfold read_rows. eapply post_bind; [apply io_read_post; [apply u64_range|done]|]. intros [src r'] H'. destruct (K.slot_is_contiguous sinfo).
  - destruct (K.slot_head sinfo) as [h|]; [|done]. cbn [of_option mbind outcome_bind]. by apply post_option.
  - destruct (K.idxs sinfo !! 0%nat) as [row|]; [|done]. cbn [of_option mbind outcome_bind]. by apply post_option.
Qed.

Lemma read_tensor_post sinfo count n_embd t r : whole T r -> post (fun o => match o with Some (_, r') => whole T r' | None => True end) (read_tensor sinfo count n_embd t r).
Proof.
  intros H. unfold read_tensor. apply post_option. intros size. eapply (post_bind (fun o => match o with Some r' => whole T r' | None => True end)).
  - unfold read_header. eapply post_bind; [by apply read_i32_post|]. intros [ty r1] H1. apply post_if; [done|]. eapply post_bind; [by apply read_uint_post|]. intros [sz r2] H2. by apply post_if.
  - intros [r'|] H'; [|done]. eapply post_bind; [by apply read_rows_post|]. by intros [t' r''] H''.
Qed.

Lemma read_v_trans_post sinfo count kv_size n_embd v r : whole T r -> post (fun o => match o with Some (_, r') => whole T r' | None => True end) (read_v_trans sinfo count kv_size n_embd v r).
Proof.
  intros H. unfold read_v_trans. eapply post_bind; [by apply post_tensor, read_i32_post|]. intros [ty r1] H1. apply post_if; [done|]. eapply post_bind; [by apply post_tensor, read_uint_post|]. intros [el r2] H2.
  apply post_option. intros size. apply post_if; [done|]. eapply post_bind; [by apply post_tensor, read_uint_post|]. intros [n r3] H3. apply post_if; [done|].
  eapply (post_bind (fun '(_, r') => whole T r')); [|by intros [v' r'] H']. apply post_fold; [|done]. intros j [v' r'] H'. by apply post_tensor, read_rows_post.
Qed.

Lemma read_k_post sinfo strm count il s r : whole T r -> post (fun '(_, _, r') => whole T r') (read_k sinfo strm count il s r).
Proof.
  intros H. unfold read_k. apply post_option. intros l. apply post_option. intros k. eapply post_bind; [by apply post_store, read_tensor_post|].
  intros [[k' r']|] H'; [|done]. by apply post_option.
Qed.

Lemma read_v_post sinfo strm count kv_size il s r : whole T r -> post (fun '(_, _, r') => whole T r') (read_v sinfo strm count kv_size il s r).
Proof.
  intros H. unfold read_v. apply post_option. intros l. apply post_option. intros [v|]; [|done].
  assert (post (fun o => match o with Some (_, r') => whole T r' | None => True end) (if K.v_trans (s_kv s) then read_v_trans sinfo count kv_size (n_embd_v_gqa l) v r else at_tensor v (read_tensor sinfo count (n_embd_v_gqa l) v r))) as P.
  { apply post_if; [by apply read_v_trans_post|by apply post_tensor, read_tensor_post]. }
  destruct (if K.v_trans (s_kv s) then _ else _) as [[[v' r']|]|[e v']|]; [by apply post_option|done|by destruct (put_v _ _ _ _)|done].
Qed.

Lemma until_false_post f l s r : (forall i s r, whole T r -> post (fun '(_, _, r') => whole T r') (f i s r)) -> whole T r -> post (fun '(_, _, r') => whole T r') (until_false f l s r).
Proof.
  intros Hf. revert s r. induction l as [|i l IH]; intros s r H; [done|]. cbn [until_false]. eapply post_bind; [by apply Hf|]. intros [[[] s'] r'] H'; [by apply IH|done].
Qed.

Lemma state_read_data_post strm count sinfo s r : whole T r -> post (fun '(_, _, r') => whole T r') (state_read_data strm count sinfo s r).
Proof.
  intros H. unfold state_read_data. apply post_option. intros cells. eapply post_bind; [by apply post_store, read_uint_post|]. intros [trans r1] H1. eapply post_bind; [by apply post_store, read_uint_post|]. intros [n r2] H2.
  do 3 (apply post_if; [done|]). eapply post_bind; [apply until_false_post; [intros; by apply read_k_post|done]|]. intros [[[] s'] r'] H'; [|done]. apply until_false_post; [intros; by apply read_v_post|done].
Qed.

(** What [state_read] has read and what is left are the whole. *)
Lemma state_read_whole seq_id s r : whole T r -> post (fun '(_, r') => whole T r') (state_read seq_id s r).
Proof.
  intros H. unfold state_read. apply post_must. eapply post_bind; [by apply post_store, read_uint_post|]. intros [n r1] H1. apply post_if; [done|]. apply post_fold; [|done]. clear. intros st [s r] H.
  unfold read_stream. eapply post_bind; [by apply post_store, read_uint_post|]. intros [count r1] H1. apply post_if; [done|].
  eapply (post_bind (fun _ => True)); [by destruct (if bool_decide _ then _ else _)|]. intros strm _. eapply post_bind; [by apply state_read_meta_post|]. intros [[[[si s']|] r'] s''] H'.
  - eapply post_bind; [by apply state_read_data_post|]. intros [[[] s3] r3] H3; [done|]. unfold restore_failed. apply post_if; [done|]. apply post_option. by intros [c b].
  - unfold restore_failed. apply post_if; [done|]. apply post_option. by intros [c b].
Qed.

End Consume.
End KvConsume.
