(* ===== verification/KvRestore.v ===== *)
(** Restoring the cache: [state_read] reads back what [state_write] writes. *)

From S2P Require Import Prelude.
From S2P Require Import KvCells.
From S2P Require Import Memory.
From S2P Require Import Batch.
From S2P Require Import KvCache.
From S2P Require Import KvOps.
From S2P Require Import Bytes.
From S2P Require Import TensorAlloc.
From S2P Require Import TensorAllocOk.
From S2P Require Import GgmlTensor.
From S2P Require Import GgmlTensorOk.
From S2P Require Import KvState.
From S2P Require Import KvSave.
Import KvCells.Cells KvOps.KvOps KvState.KvState KvSave.KvSave.
Import TensorAlloc.TensorAlloc TensorAllocOk.TensorAllocOk GgmlTensorOk.GgmlTensorOk.

Module KvRestore.
Local Open Scope Z_scope.

(** * Reading integers *)

Lemma io_read_ok n x rest k : n = Z.of_nat (length x) -> exists k', io_read n (mkRb (x ++ rest) k) = Done (x, mkRb rest k').
Proof.
  intros ->. unfold io_read. cbn [rb_ptr size_read]. rewrite bool_decide_false by (rewrite length_app; lia).
  rewrite Nat2Z.id, take_app_length, drop_app_length. by eexists.
Qed.

Lemma read_uint_ok n z rest k : 0 <= z < 256 ^ Z.of_nat n -> exists k', read_uint n (mkRb (le_bytes n z ++ rest) k) = Done (z, mkRb rest k').
Proof.
  intros Hz. unfold read_uint. destruct (io_read_ok (Z.of_nat n) (le_bytes n z) rest k) as [k' ->]; [by rewrite le_length|]. cbn [mbind outcome_bind].
  rewrite le_roundtrip by done. by eexists.
Qed.

Lemma read_u32_ok z rest k : 0 <= z < 4294967296 -> exists k', read_u32 (mkRb (le4 z ++ rest) k) = Done (z, mkRb rest k').
Proof. apply (read_uint_ok 4). Qed.

Lemma read_u64_ok z rest k : 0 <= z <= SIZE_MAX -> exists k', read_u64 (mkRb (le_bytes 8 z ++ rest) k) = Done (z, mkRb rest k').
Proof. intros Hz. apply (read_uint_ok 8). change (256 ^ Z.of_nat 8) with 18446744073709551616. unfold SIZE_MAX in Hz. lia. Qed.

Lemma read_i32_ok z rest k : 0 <= z <= INT32_MAX -> exists k', read_i32 (mkRb (le4 z ++ rest) k) = Done (z, mkRb rest k').
Proof.
  unfold INT32_MAX. intros Hz. unfold read_i32. destruct (read_u32_ok z rest k) as [k' ->]; [lia|]. cbn [mbind outcome_bind].
  unfold to_i32. rewrite bool_decide_true by lia. by eexists.
Qed.

(** * Rows *)

(** [src] over the bytes from [a] on. *)
Definition splice (a : nat) (src l : list byte) : list byte := take a l ++ src ++ drop (a + length src) l.

Lemma splice_length a src l : (a + length src <= length l)%nat -> length (splice a src l) = length l.
Proof. intros H. unfold splice. rewrite !length_app, length_take, length_drop. lia. Qed.

Lemma splice_lookup a src l p : (a + length src <= length l)%nat ->
  splice a src l !! p = if decide (a <= p < a + length src)%nat then src !! (p - a)%nat else l !! p.
Proof.
  intros H. unfold splice. case_decide as D.
  - rewrite lookup_app_r by (rewrite length_take; lia). rewrite length_take, Nat.min_l by lia. by rewrite lookup_app_l by lia.
  - destruct (decide (p < a)%nat) as [Hp|Hp].
    + rewrite lookup_app_l by (rewrite length_take; lia). by rewrite lookup_take_lt.
    + rewrite lookup_app_r by (rewrite length_take; lia). rewrite length_take, Nat.min_l by lia. rewrite lookup_app_r by lia. rewrite lookup_drop. f_equal. lia.
Qed.

Lemma row_lookup R k l j : row_at R k l !! j = if decide (j < R)%nat then l !! (k * R + j)%nat else None.
Proof.
  unfold row_at. case_decide as D; [by rewrite lookup_take_lt, lookup_drop by lia|]. apply lookup_ge_None. rewrite length_take. lia.
Qed.

(** [m] rows written from row [a] on. *)
Lemma splice_rows R a m src l : length src = (m * R)%nat -> ((a + m) * R <= length l)%nat ->
  (forall i, (i < m)%nat -> row_at R (a + i) (splice (a * R) src l) = row_at R i src) /\
  (forall k, (k < a \/ a + m <= k)%nat -> row_at R k (splice (a * R) src l) = row_at R k l).
Proof.
  intros Hs Hl. split.
  - intros i Hi. apply list_eq. intros j. rewrite !row_lookup. case_decide as D; [|done]. rewrite splice_lookup by lia.
    assert (i * R + R <= m * R)%nat by nia. rewrite decide_True by lia. f_equal. lia.
  - intros k Hk. apply list_eq. intros j. rewrite !row_lookup. case_decide as D; [|done]. rewrite splice_lookup by lia.
    rewrite decide_False; [done|]. intros [H1 H2]. destruct Hk as [Hk|Hk]; nia.
Qed.

Lemma set_rows t src R a m : length src = (m * R)%nat -> ((a + m) * R <= length (kt_bytes t))%nat -> len (kt_bytes t) <= T_MAX ->
  forall off n, off = Z.of_nat (a * R) -> n = Z.of_nat (m * R) -> forall extra,
  ggml_backend_tensor_set t (src ++ extra) off n = Some (mkKt (kt_type t) (splice (a * R) src (kt_bytes t))).
Proof.
  intros Hs Hl Hm off n -> -> extra. pose proof T_MAX_le. unfold len in Hm. unfold ggml_backend_tensor_set. case_bool_decide as D.
  - assert (src = []) as -> by (apply length_zero_iff_nil; lia). destruct t as [ty l]. unfold splice. cbn [kt_type kt_bytes length app]. by rewrite Nat.add_0_r, take_drop.
  - unfold in_tensor. rewrite u64_small by lia. rewrite ggml_assert_bd by lia. cbn [mbind option_bind]. rewrite bool_decide_false by lia.
    rewrite bool_decide_false by (rewrite length_app; lia). rewrite !Nat2Z.id. rewrite <- Hs, take_app_length. done.
Qed.

(** ** One tensor *)

(** [t'] is [t] with the rows [cells] (counted from [base]) replaced by [src]. *)
Record wrote (R base : nat) (cells : list nat) (src : list byte) (t t' : kv_tensor) : Prop := {
  wr_type : kt_type t' = kt_type t;
  wr_len  : length (kt_bytes t') = length (kt_bytes t);
  wr_rows : rows_of R ((fun i => base + i)%nat <$> cells) (kt_bytes t') = src;
  wr_rest : forall k, k ∉ (fun i => base + i)%nat <$> cells -> row_at R k (kt_bytes t') = row_at R k (kt_bytes t);
}.

Lemma rows_split R m src : length src = (m * R)%nat -> rows_of R (seq 0 m) src = src.
Proof. intros H. rewrite <- slice_rows by lia. change (0 * R)%nat with 0%nat. by rewrite drop_0, <- H, firstn_all. Qed.

Lemma rows_ext R (c1 c2 : list nat) l1 l2 : Forall2 (fun i j => row_at R i l1 = row_at R j l2) c1 c2 -> rows_of R c1 l1 = rows_of R c2 l2.
Proof. unfold rows_of. induction 1 as [|i j c1 c2 E _ IH]; [done|]. cbn [fmap list_fmap concat]. by rewrite E, IH. Qed.

Lemma wrote_range R base a m src t : length src = (m * R)%nat -> ((base + a + m) * R <= length (kt_bytes t))%nat ->
  wrote R base (seq a m) src t (mkKt (kt_type t) (splice ((base + a) * R) src (kt_bytes t))).
Proof.
  intros Hs Hl. destruct (splice_rows R (base + a) m src (kt_bytes t) Hs Hl) as [H1 H2]. split; cbn [kt_type kt_bytes]; [done|apply splice_length; lia| |].
  - rewrite fmap_base_seq. rewrite <- (rows_split R m src Hs) at 2. apply rows_ext. apply Forall2_same_length_lookup_2; [by rewrite !length_seq|].
    intros k i j Hi Hj. apply lookup_seq in Hi as [-> Hi]. apply lookup_seq in Hj as [-> _]. by apply H1.
  - intros k Hk. rewrite fmap_base_seq in Hk. apply H2. rewrite elem_of_seq in Hk. lia.
Qed.

Lemma rows_cons R k cells l : rows_of R (k :: cells) l = row_at R k l ++ rows_of R cells l.
Proof. done. Qed.

(** The copies one by one. *)
Lemma scatter_ok R base off : forall row i0 src t, length src = (length row * R)%nat -> NoDup row ->
  (forall i, i ∈ row -> off i = Z.of_nat ((base + i) * R) /\ ((base + i + 1) * R <= length (kt_bytes t))%nat) -> len (kt_bytes t) <= T_MAX ->
  forall pre, length pre = (i0 * R)%nat ->
  exists t', foldM (fun '(i, idx) t => ggml_backend_tensor_set t (drop (i * R) (pre ++ src)) (off idx) (Z.of_nat R)) (zip (seq i0 (length row)) row) t = Some t' /\
    wrote R base row src t t'.
Proof.
  induction row as [|x row IH]; intros i0 src t Hs Hnd Ho Hm pre Hp.
  { exists t. split; [done|]. assert (src = []) as -> by (by apply length_zero_iff_nil). by split. }
  apply NoDup_cons in Hnd as [Hx Hnd]. cbn [length seq zip foldM zip_with].
  destruct (Ho x ltac:(set_solver)) as [Ho1 Ho2]. cbn [length] in Hs.
  assert (src = take R src ++ drop R src) as Es by (by rewrite take_drop). set (s1 := take R src) in *. set (s2 := drop R src) in *.
  assert (length s1 = R) as L1 by (unfold s1; rewrite length_take; lia). assert (length s2 = (length row * R)%nat) as L2 by (unfold s2; rewrite length_drop; lia).
  rewrite (drop_app_length' pre) by done. rewrite Es.
  rewrite (set_rows t s1 R (base + x) 1) by (rewrite ?Nat.mul_1_l; first [done|lia]). cbn [mbind option_bind].
  set (t1 := mkKt (kt_type t) (splice ((base + x) * R) s1 (kt_bytes t))).
  destruct (splice_rows R (base + x) 1 s1 (kt_bytes t)) as [W1 W2]; [lia|lia|].
  assert (length (kt_bytes t1) = length (kt_bytes t)) as Lt by (cbn [t1 kt_bytes]; apply splice_length; lia).
  destruct (IH (S i0) s2 t1 L2 Hnd) with (pre := pre ++ s1) as (t' & E & [T1 T2 T3 T4]).
  - intros i Hi. rewrite Lt. apply Ho. set_solver.
  - unfold len. by rewrite Lt.
  - rewrite length_app. lia.
  - exists t'. rewrite <- app_assoc in E. split; [exact E|]. split.
    + done.
    + congruence.
    + cbn [fmap list_fmap]. rewrite rows_cons, T3. f_equal. rewrite T4; cbn [t1 kt_bytes].
      * rewrite <- (Nat.add_0_r (base + x)) at 1. rewrite W1 by lia. unfold row_at. change (0 * R)%nat with 0%nat. rewrite drop_0. by rewrite take_ge by lia.
      * intros (y & Hy & Hyr)%list_elem_of_fmap. assert (x = y) by lia. congruence.
    + intros k Hk. cbn [fmap list_fmap] in Hk. apply not_elem_of_cons in Hk as [Hk1 Hk2]. rewrite T4 by done. cbn [t1 kt_bytes]. apply W2. lia.
Qed.

Lemma zip_imap (row : list nat) : imap pair row = zip (seq 0 (length row)) row.
Proof.
  assert (forall m, imap (fun i x => (m + i, x)%nat) row = zip (seq m (length row)) row) as G.
  { induction row as [|x row IH]; intros m; [done|]. rewrite imap_cons. cbn [length seq zip zip_with]. f_equal; [by rewrite Nat.add_0_r|].
    rewrite <- (IH (S m)). apply imap_ext. intros i y _. cbn. f_equal. lia. }
  exact (G 0%nat).
Qed.

(** A slot with one stream. *)
Lemma contiguous_row sinfo row : K.idxs sinfo = [row] -> row <> [] -> K.slot_is_contiguous sinfo = true ->
  exists h, row = seq h (length row) /\ K.slot_head sinfo = Some h.
Proof.
  intros Hr Hne. unfold K.slot_is_contiguous, K.slot_head. rewrite Hr. destruct row as [|h row]; [done|]. intros Hf. exists h. split; [|done].
  apply list_eq. intros i. destruct ((h :: row) !! i) as [x|] eqn:E.
  - rewrite forallb_forall in Hf. assert (In (i, x) (imap pair (h :: row))) as Hin by (apply list_elem_of_In, elem_of_lookup_imap; by exists i, x).
    specialize (Hf _ Hin). apply bool_decide_eq_true in Hf as ->. symmetry. apply lookup_seq. split; [done|]. by eapply lookup_lt_Some.
  - symmetry. apply lookup_ge_None. rewrite length_seq. by apply lookup_ge_None.
Qed.

Lemma read_rows_ok R base sinfo row off src t rest k : K.idxs sinfo = [row] -> row <> [] -> NoDup row -> length src = (length row * R)%nat ->
  (forall i, i ∈ row -> off i = Z.of_nat ((base + i) * R) /\ ((base + i + 1) * R <= length (kt_bytes t))%nat) ->
  len (kt_bytes t) <= T_MAX -> len src <= T_MAX ->
  exists t' k', read_rows sinfo (length row) (Z.of_nat R) off t (mkRb (src ++ rest) k) = Done (t', mkRb rest k') /\ wrote R base row src t t'.
Proof.
  intros Hr Hne Hnd Hs Ho Hm Hl. pose proof T_MAX_le. unfold len in Hl. unfold read_rows. rewrite <- Nat2Z.inj_mul, <- Hs, u64_small by lia.
  destruct (io_read_ok (Z.of_nat (length src)) src rest k eq_refl) as [k' ->]. cbn [mbind outcome_bind].
  destruct (K.slot_is_contiguous sinfo) eqn:Ec.
  - destruct (contiguous_row sinfo row Hr Hne Ec) as (h & Er & ->). cbn [of_option mbind outcome_bind].
    set (m := length row) in *. destruct m as [|m'] eqn:Em.
    { by apply length_zero_iff_nil in Em. }
    assert (h ∈ row) as Hh by (rewrite Er; apply elem_of_seq; lia). assert ((h + m')%nat ∈ row) as Hh' by (rewrite Er; apply elem_of_seq; lia).
    destruct (Ho _ Hh) as [-> _]. destruct (Ho _ Hh') as [_ Hb]. replace (base + (h + m') + 1)%nat with (base + h + S m')%nat in Hb by lia.
    pose proof (set_rows t src R (base + h) (S m') Hs Hb Hm _ _ eq_refl eq_refl []) as E. rewrite app_nil_r in E. rewrite Hs, E. cbn [of_option mbind outcome_bind].
    exists (mkKt (kt_type t) (splice ((base + h) * R) src (kt_bytes t))), k'. split; [done|]. rewrite Er. by apply wrote_range.
  - rewrite Hr. cbn [lookup list_lookup of_option mbind outcome_bind]. unfold scatter_rows. rewrite Nat2Z.id, zip_imap.
    destruct (scatter_ok R base off row 0 src t Hs Hnd Ho Hm [] eq_refl) as (t' & E & W). cbn [app] in E. rewrite E. by exists t', k'.
Qed.

(** The header of rows. *)
Lemma read_header_ok ty sz rest k : 0 <= ty <= INT32_MAX -> 0 <= sz <= SIZE_MAX ->
  exists k', read_header ty sz (mkRb (le4 ty ++ le_bytes 8 sz ++ rest) k) = Done (Some (mkRb rest k')).
Proof.
  intros Ht Hs. unfold read_header. destruct (read_i32_ok ty (le_bytes 8 sz ++ rest) k Ht) as [k1 ->]. cbn [mbind outcome_bind].
  rewrite bool_decide_false by auto. destruct (read_u64_ok sz rest k1 Hs) as [k2 ->]. cbn [mbind outcome_bind]. rewrite bool_decide_false by auto. by exists k2.
Qed.

(** A slot takes the cells [l] of a cache with [N] cells to the cells [row] of one with [N']. *)
Record slot_ok (N N' : nat) (l row : list nat) (sinfo : K.slot_info) : Prop := {
  sl_row  : K.idxs sinfo = [row];
  sl_ne   : row <> [];
  sl_nd   : NoDup row;
  sl_len  : length l = length row;
  sl_src  : Forall (fun i => i < N)%nat l;
  sl_dst  : Forall (fun i => i < N')%nat row;
  sl_ndl  : NoDup l;
}.

Lemma rows_fit R N base l (b : list byte) : Forall (fun i => i < N)%nat l -> NoDup l -> ((base + N) * R <= length b)%nat -> len b <= T_MAX ->
  length (rows_of R ((fun i => base + i)%nat <$> l) b) = (length l * R)%nat /\ len (rows_of R ((fun i => base + i)%nat <$> l) b) <= T_MAX.
Proof.
  intros Hl Hnd Hb Hm. rewrite Forall_forall in Hl. assert (length (rows_of R ((fun i => base + i)%nat <$> l) b) = (length l * R)%nat) as E.
  { rewrite rows_length; [by rewrite length_fmap|]. apply Forall_forall. intros k (i & -> & Hi)%list_elem_of_fmap. specialize (Hl i Hi).
    assert ((base + i + 1) * R <= (base + N) * R)%nat by (apply Nat.mul_le_mono_r; lia). lia. }
  split; [done|]. unfold len in *. rewrite E. assert (length l <= N)%nat.
  { rewrite <- (length_seq N 0). apply submseteq_length, NoDup_submseteq; [done|]. intros i Hi. apply elem_of_seq. specialize (Hl i Hi). lia. }
  assert (length l * R <= N * R)%nat by (apply Nat.mul_le_mono_r; lia). lia.
Qed.

Section Restore.
Context `{BM : BuildMode}.

Lemma read_tensor_ok N N' n_embd l row sinfo ts t rest k : slot_ok N N' l row sinfo -> rows_ok N n_embd ts -> rows_ok N' n_embd t -> kt_type t = kt_type ts ->
  exists t' k', read_tensor sinfo (length row) n_embd t (mkRb (enc_rows n_embd ts l ++ rest) k) = Done (Some (t', mkRb rest k')) /\
    wrote (row_bytes n_embd t) 0 row (rows_of (row_bytes n_embd t) l (kt_bytes ts)) t t'.
Proof.
  intros [Hr Hne Hnd Hlen Hsrc Hdst Hndl] Hts Ht Hty. destruct (rows_spec _ _ _ Hts) as (_ & Ls & Ms & _ & _). destruct (rows_spec _ _ _ Ht) as (E & L & M & T & RM).
  assert (row_bytes n_embd ts = row_bytes n_embd t) as ER by (unfold row_bytes; by rewrite Hty). unfold enc_rows. rewrite <- Hty, ER in *. set (R := row_bytes n_embd t) in *.
  pose proof T_MAX_le. unfold read_tensor. rewrite E. cbn [of_option mbind outcome_bind]. rewrite <- !app_assoc.
  destruct (read_header_ok (kt_type t) (Z.of_nat R) (rows_of R l (kt_bytes ts) ++ rest) k) as [k1 ->]; [unfold INT32_MAX; lia|lia|]. cbn [mbind outcome_bind].
  destruct (rows_fit R N 0 l (kt_bytes ts) Hsrc Hndl) as [S1 S2]; [lia|done|]. rewrite fmap_base0 in S1, S2. rewrite Forall_forall in Hdst.
  destruct (read_rows_ok R 0 sinfo row (row_offset (Z.of_nat R)) (rows_of R l (kt_bytes ts)) t rest k1) as (t' & k2 & -> & W); [done|done|done|congruence| |done|done|].
  - intros i Hi. specialize (Hdst i Hi). assert ((i + 1) * R <= N' * R)%nat by (apply Nat.mul_le_mono_r; lia). unfold len in M. unfold row_offset.
    rewrite <- Nat2Z.inj_mul, u64_small by lia. split; [f_equal; lia|lia].
  - cbn [mbind outcome_bind]. by exists t', k2.
Qed.

(** ** Transposed values *)

(** The elements of row [j] at the cells [l]. *)
Definition col_at (t : kv_tensor) (N : nat) (l : list nat) (j : nat) : list byte := rows_of (el_bytes t) (col_cells N l (Z.of_nat j)) (kt_bytes t).

(** The rows before [m] have been read into [t'], the elements of the other
    cells and the rows from [m] on are as in [t]. *)
Record cols_read (N N' : nat) (l row : list nat) (ts t : kv_tensor) (m : nat) (t' : kv_tensor) : Prop := {
  cr_type : kt_type t' = kt_type t;
  cr_len  : length (kt_bytes t') = length (kt_bytes t);
  cr_cols : forall j, (j < m)%nat -> col_at t' N' row j = col_at ts N l j;
  cr_rest : forall k, (forall j, (j < m)%nat -> k ∉ col_cells N' row (Z.of_nat j)) -> row_at (el_bytes t) k (kt_bytes t') = row_at (el_bytes t) k (kt_bytes t);
}.

Lemma col_cells_base N l j : col_cells N l (Z.of_nat j) = (fun i => (j * N + i)%nat) <$> l.
Proof. unfold col_cells. by rewrite Nat2Z.id. Qed.

Lemma cols_disjoint N row j j' k : Forall (fun i => i < N)%nat row -> j <> j' -> k ∈ col_cells N row (Z.of_nat j) -> k ∉ col_cells N row (Z.of_nat j').
Proof.
  rewrite !col_cells_base, Forall_forall. intros Hr Hne (x & -> & Hx)%list_elem_of_fmap (y & E & Hy)%list_elem_of_fmap.
  specialize (Hr _ Hx) as Hx'. specialize (Hr _ Hy). apply Hne. destruct (Nat.lt_trichotomy j j') as [H|[H|H]]; [|done|]; nia.
Qed.

Lemma col_ext t t' N row j : kt_type t' = kt_type t -> (forall k, k ∈ col_cells N row (Z.of_nat j) -> row_at (el_bytes t) k (kt_bytes t') = row_at (el_bytes t) k (kt_bytes t)) ->
  col_at t' N row j = col_at t N row j.
Proof.
  intros Ht H. unfold col_at. assert (el_bytes t' = el_bytes t) as -> by (unfold el_bytes; by rewrite Ht). apply rows_ext.
  apply Forall2_same_length_lookup_2; [done|]. intros i x y Hx Hy. assert (x = y) as -> by congruence. apply H. by eapply list_elem_of_lookup_2.
Qed.

Lemma cols_fit N n_embd ts l j : cols_ok N n_embd ts -> Forall (fun i => i < N)%nat l -> NoDup l -> (Z.of_nat j < n_embd) ->
  length (col_at ts N l j) = (length l * el_bytes ts)%nat /\ len (col_at ts N l j) <= T_MAX.
Proof.
  intros Hts Hl Hnd Hj. destruct (cols_spec _ _ _ Hts) as (_ & Ls & Ms & _ & _ & _). assert (4294967296 <= T_MAX) by by_eval.
  unfold col_at. rewrite col_cells_base. apply rows_fit with (N := N); [done|done| |lia]. rewrite Ls. apply Nat.mul_le_mono_r.
  assert ((j + 1) * N <= Z.to_nat n_embd * N)%nat by (apply Nat.mul_le_mono_r; lia). lia.
Qed.

Lemma read_col_ok N N' n_embd l row sinfo ts t j t1 rest k : slot_ok N N' l row sinfo -> cols_ok N n_embd ts -> cols_ok N' n_embd t -> kt_type t = kt_type ts ->
  Z.of_nat j < n_embd -> cols_read N N' l row ts t j t1 ->
  exists t2 k', read_rows sinfo (length row) (Z.of_nat (el_bytes t)) (el_offset N' (Z.of_nat (el_bytes t)) (Z.of_nat j)) t1 (mkRb (col_at ts N l j ++ rest) k) =
    Done (t2, mkRb rest k') /\ cols_read N N' l row ts t (j + 1) t2.
Proof.
  intros [Hr Hne Hnd Hlen Hsrc Hdst Hndl] Hts Ht Hty Hj [C1 C2 C3 C4]. destruct (cols_fit _ _ _ _ _ Hts Hsrc Hndl Hj) as [S1 S2].
  destruct (cols_spec _ _ _ Ht) as (_ & L & M & Hn & He & _). assert (4294967296 <= T_MAX) by by_eval. assert (el_bytes ts = el_bytes t) as Ee by (unfold el_bytes; by rewrite Hty). rewrite Ee, Hlen in S1.
  pose proof Hdst as Hd'. rewrite Forall_forall in Hd'. unfold len in M.
  destruct (read_rows_ok (el_bytes t) (j * N') sinfo row (el_offset N' (Z.of_nat (el_bytes t)) (Z.of_nat j)) (col_at ts N l j) t1 rest k Hr Hne Hnd S1) as (t2 & k' & E & [W1 W2 W3 W4]); [|unfold len; lia|done|].
  - intros i Hi. specialize (Hd' i Hi). rewrite C2, L. assert ((j + 1) * N' <= Z.to_nat n_embd * N')%nat by (apply Nat.mul_le_mono_r; lia).
    assert ((j * N' + i + 1) * el_bytes t <= Z.to_nat n_embd * N' * el_bytes t)%nat by (apply Nat.mul_le_mono_r; lia). split; [|done].
    assert (j * N' + i <= (j * N' + i + 1) * el_bytes t)%nat by nia. pose proof T_MAX_le. unfold el_offset. rewrite <- Nat2Z.inj_mul, (u32_small (Z.of_nat (_ * _))) by lia. rewrite <- Nat2Z.inj_add, u32_small by lia.
    rewrite <- Nat2Z.inj_mul, u64_small by lia. f_equal. lia.
  - exists t2, k'. split; [exact E|]. split; [congruence|congruence| |].
    + intros j' Hj'. destruct (decide (j' = j)) as [->|Hjj].
      * unfold col_at at 1. assert (el_bytes t2 = el_bytes t) as -> by (unfold el_bytes; by rewrite W1, C1). by rewrite col_cells_base.
      * rewrite <- C3 by lia. apply col_ext; [done|]. intros q Hq. assert (el_bytes t1 = el_bytes t) as -> by (unfold el_bytes; by rewrite C1). apply W4.
        rewrite <- col_cells_base. by eapply cols_disjoint.
    + intros q Hq. rewrite W4 by (rewrite <- col_cells_base; apply Hq; lia). apply C4. intros j' Hj'. apply Hq. lia.
Qed.

Lemma read_v_trans_ok N N' n_embd l row sinfo ts t rest k : slot_ok N N' l row sinfo -> cols_ok N n_embd ts -> cols_ok N' n_embd t -> kt_type t = kt_type ts ->
  exists t' k', read_v_trans sinfo (length row) N' n_embd t (mkRb (enc_cols N n_embd ts l ++ rest) k) = Done (Some (t', mkRb rest k')) /\
    cols_read N N' l row ts t (Z.to_nat n_embd) t'.
Proof.
  intros Hsl Hts Ht Hty. destruct (cols_spec _ _ _ Ht) as (E & L & M & Hn & He & T). assert (el_bytes ts = el_bytes t) as Ee by (unfold el_bytes; by rewrite Hty).
  unfold enc_cols, read_v_trans. rewrite <- Hty, Ee, <- !app_assoc. destruct (read_i32_ok (kt_type t) (le4 (Z.of_nat (el_bytes t)) ++ le4 n_embd ++
    concat ((fun j => rows_of (el_bytes t) (col_cells N l j) (kt_bytes ts)) <$> seqZ 0 n_embd) ++ rest) k) as [k1 ->]; [unfold INT32_MAX; lia|]. cbn [at_tensor mbind outcome_bind].
  rewrite bool_decide_false by auto. match goal with |- context [read_u32 (mkRb (le4 _ ++ ?r) k1)] => destruct (read_u32_ok (Z.of_nat (el_bytes t)) r k1) as [k2 ->]; [lia|] end.
  cbn [at_tensor mbind outcome_bind]. rewrite E. cbn [of_option mbind outcome_bind]. rewrite bool_decide_false by auto.
  match goal with |- context [read_u32 (mkRb (le4 _ ++ ?r) k2)] => destruct (read_u32_ok n_embd r k2) as [k3 ->]; [lia|] end. cbn [at_tensor mbind outcome_bind]. rewrite bool_decide_false by auto.
  assert (forall m j t1 k, (j + m = Z.to_nat n_embd)%nat -> cols_read N N' l row ts t j t1 -> exists t2 k', foldO (fun j '(v, r) => at_tensor v (read_rows sinfo (length row) (Z.of_nat (el_bytes t)) (el_offset N' (Z.of_nat (el_bytes t)) j) v r)) (seqZ (Z.of_nat j) (Z.of_nat m))
    (t1, mkRb (concat ((fun j => rows_of (el_bytes t) (col_cells N l j) (kt_bytes ts)) <$> seqZ (Z.of_nat j) (Z.of_nat m)) ++ rest) k) = Done (t2, mkRb rest k') /\ cols_read N N' l row ts t (j + m) t2) as G.
  { induction m as [|m IH]; intros j t1 kk Hj C; [exists t1, kk; by rewrite Nat.add_0_r|]. rewrite seqZ_cons by lia. replace (Z.succ (Z.of_nat j)) with (Z.of_nat (j + 1)) by lia.
    replace (Z.pred (Z.of_nat (S m))) with (Z.of_nat m) by lia. cbn [fmap list_fmap concat foldO]. rewrite <- app_assoc.
    destruct (read_col_ok N N' n_embd l row sinfo ts t j t1 (concat ((fun j => rows_of (el_bytes t) (col_cells N l j) (kt_bytes ts)) <$> seqZ (Z.of_nat (j + 1)) (Z.of_nat m)) ++ rest) kk Hsl Hts Ht Hty ltac:(lia) C) as (t2 & k' & R & C2).
    unfold col_at in R. rewrite Ee in R. rewrite R. cbn [at_tensor mbind outcome_bind]. destruct (IH (j + 1)%nat t2 k' ltac:(lia) C2) as (t3 & k'' & R3 & C3).
    exists t3, k''. split; [exact R3|]. by replace (j + S m)%nat with (j + 1 + m)%nat by lia. }
  destruct (G (Z.to_nat n_embd) 0%nat t k3 eq_refl) as (t2 & k' & R & C).
  { split; [done|done|lia|done]. }
  rewrite Z2Nat.id in R by lia. change (Z.of_nat 0) with 0 in R. rewrite R. cbn [mbind outcome_bind]. by exists t2, k'.
Qed.

End Restore.
End KvRestore.
