(* ===== verification/KvReload.v ===== *)
(** Restoring a saved cache: the cells, the layers and the whole state. *)

From S2P Require Import Prelude.
From S2P Require Import KvCells.
From S2P Require Import Memory.
From S2P Require Import Batch.
From S2P Require Import KvCache.
From S2P Require Import KvOps.
From S2P Require Import Bytes.
From S2P Require Import TensorAlloc.
From S2P Require Import TensorAllocOk.
From S2P Require Import GgmlTensor.
From S2P Require Import GgmlTensorOk.
From S2P Require Import KvState.
From S2P Require Import KvSave.
From S2P Require Import KvRestore.
Import KvCells.Cells KvOps.KvOps KvState.KvState KvSave.KvSave KvRestore.KvRestore.
Import TensorAlloc.TensorAlloc TensorAllocOk.TensorAllocOk GgmlTensorOk.GgmlTensorOk.

Module KvReload.
Local Open Scope Z_scope.
Section Reload.
Context `{BM : BuildMode}.

(** * Cells *)

Definition ids_fit (s : kv_store) (ids : list Z) : Prop := NoDup ids /\ forall x, x ∈ ids -> 0 <= x < Z.of_nat (n_seq_max s).

Lemma read_ids_ok s i rest : Z.of_nat (n_seq_max s) <= LLAMA_MAX_SEQ -> forall ids cells p q k, wf cells -> view cells i = Some (p, q) -> ids_fit s ids -> (forall x, x ∈ ids -> x ∉ q) ->
  exists cells' k', read_ids s i (length ids) cells (mkRb (concat (le4 <$> ids) ++ rest) k) = Done (true, cells', mkRb rest k') /\
    updated cells i (Some (p, list_to_set ids ∪ q)) cells'.
Proof.
  intros Hm. induction ids as [|x ids IH]; intros cells p q k Hw Hv [Hnd Hr] Hq.
  - exists cells, k. split; [done|]. cbn [list_to_set]. rewrite union_empty_l_L, <- Hv. by apply updated_same.
  - cbn [length read_ids fmap list_fmap concat]. rewrite <- app_assoc. apply NoDup_cons in Hnd as [Hx Hnd]. pose proof (Hr x ltac:(set_solver)) as Hrx.
    destruct (read_i32_ok x (concat (le4 <$> ids) ++ rest) k) as [k1 ->]; [unfold LLAMA_MAX_SEQ, INT32_MAX in *; lia|].
    rewrite bool_decide_false by lia. destruct (seq_add_spec cells i x p q Hw Hv) as (c1 & -> & U1); [apply Hq; set_solver|lia|]. cbn [of_option mbind outcome_bind].
    pose proof (upd_view _ _ _ _ U1 i) as V1. rewrite decide_True in V1 by done.
    destruct (IH c1 p ({[x]} ∪ q) k1) as (c2 & k2 & -> & U2); [apply U1|done|split; [done|intros y Hy; apply Hr; set_solver]|intros y Hy; specialize (Hq y ltac:(set_solver)); set_solver|].
    exists c2, k2. split; [done|]. cbn [list_to_set]. replace ({[x]} ∪ list_to_set ids ∪ q) with (list_to_set ids ∪ ({[x]} ∪ q)) by set_solver. by eapply updated_trans.
Qed.

Lemma read_cell_ok s i p ids cells rest k : Z.of_nat (n_seq_max s) <= LLAMA_MAX_SEQ -> wf cells -> (i < size cells)%nat -> view cells i = None ->
  0 <= p <= INT32_MAX -> ids_fit s ids -> Z.of_nat (length ids) < 4294967296 ->
  exists cells' k', read_cell s i cells (mkRb (enc_ids p ids ++ rest) k) = Done (true, cells', mkRb rest k') /\ updated cells i (Some (p, list_to_set ids)) cells'.
Proof.
  intros Hm Hw Hi Hv Hp Hids Hn. unfold read_cell, enc_ids. rewrite <- !app_assoc.
  destruct (read_i32_ok p (le4 (Z.of_nat (length ids)) ++ concat (le4 <$> ids) ++ rest) k Hp) as [k1 ->]. cbn [mbind outcome_bind].
  destruct (read_u32_ok (Z.of_nat (length ids)) (concat (le4 <$> ids) ++ rest) k1) as [k2 ->]; [lia|]. cbn [mbind outcome_bind].
  destruct (pos_set_spec cells i p Hw Hi Hv Hp) as (c1 & -> & U1). cbn [of_option mbind outcome_bind]. rewrite Nat2Z.id.
  pose proof (upd_view _ _ _ _ U1 i) as V1. rewrite decide_True in V1 by done.
  destruct (read_ids_ok s i rest Hm ids c1 p ∅ k2) as (c2 & k3 & -> & U2); [apply U1|done|done|set_solver|]. rewrite union_empty_r_L in U2.
  exists c2, k3. split; [done|]. by eapply updated_trans.
Qed.

(** Consecutive cells from [a] on, as positions with sequences. *)
Lemma read_cells_ok s rest : Z.of_nat (n_seq_max s) <= LLAMA_MAX_SEQ -> forall ps a cells k, wf cells -> (a + length ps <= size cells)%nat ->
  (forall i, (a <= i)%nat -> view cells i = None) ->
  Forall (fun x : Z * list Z => 0 <= x.1 <= INT32_MAX /\ ids_fit s x.2 /\ Z.of_nat (length x.2) < 4294967296) ps ->
  exists cells' k', read_cells s (seq a (length ps)) cells (mkRb (concat ((fun x : Z * list Z => enc_ids x.1 x.2) <$> ps) ++ rest) k) = Done (true, cells', mkRb rest k') /\
    wf cells' /\ size cells' = size cells /\ (forall i, (i < a)%nat -> view cells' i = view cells i) /\
    (forall i, (a <= i)%nat -> view cells' i = (fun x : Z * list Z => (x.1, list_to_set x.2 : gset Z)) <$> ps !! (i - a)%nat).
Proof.
  intros Hm. induction ps as [|[p ids] ps IH]; intros a cells k Hw Ha Hv Hps.
  - exists cells, k. split_and!; [done|done|done|done|]. intros i Hi. by rewrite Hv, lookup_nil.
  - apply Forall_cons in Hps as [(Hp & Hids & Hn) Hps]. cbn [fst snd length] in *. cbn [seq read_cells fmap list_fmap concat fst snd]. rewrite <- app_assoc.
    destruct (read_cell_ok s a p ids cells (concat ((fun x : Z * list Z => enc_ids x.1 x.2) <$> ps) ++ rest) k) as (c1 & k1 & -> & U1); [done|done|lia|by apply Hv|done|done|done|].
    cbn [mbind outcome_bind]. pose proof (upd_size _ _ _ _ U1) as S1.
    destruct (IH (S a) c1 k1) as (c2 & k2 & -> & W2 & S2 & L2 & V2); [apply U1|lia| |done|].
    + intros i Hi. rewrite (upd_view _ _ _ _ U1), decide_False by lia. apply Hv. lia.
    + exists c2, k2. split_and!; [done|done|congruence| |].
      * intros i Hi. rewrite L2, (upd_view _ _ _ _ U1), decide_False by lia. done.
      * intros i Hi. destruct (decide (i = a)) as [->|Hne].
        -- rewrite L2, (upd_view _ _ _ _ U1), decide_True by lia. by rewrite Nat.sub_diag.
        -- rewrite V2 by lia. by replace (i - a)%nat with (S (i - S a)) by lia.
Qed.

(** ** The cells of the saved state *)

(** A saved cell, as the reader sees it. *)
Definition saved_cell (nmax : nat) (seq_id : Z) (cells : llama_kv_cells) (i : nat) : Z * list Z :=
  match view cells i with Some (p, q) => (p, ids_of nmax seq_id q) | None => (0, []) end.

Lemma enc_saved nmax seq_id cells l : Forall (fun i => view cells i <> None) l ->
  concat (enc_cell nmax seq_id cells <$> l) = concat ((fun x : Z * list Z => enc_ids x.1 x.2) <$> (saved_cell nmax seq_id cells <$> l)).
Proof.
  induction 1 as [|i l Hi _ IH]; [done|]. cbn [fmap list_fmap concat]. f_equal; [|exact IH]. unfold enc_cell, saved_cell. by destruct (view cells i) as [[p q]|].
Qed.

Lemma ids_of_all nmax q : (forall x, x ∈ q -> 0 <= x < Z.of_nat nmax) -> list_to_set (ids_of nmax (-1) q) = (q : gset Z).
Proof.
  intros Hq. unfold ids_of. apply set_eq. intros x. rewrite elem_of_list_to_set, list_elem_of_filter, elem_of_seqZ. split; [by intros [[_ ?] _]|].
  intros Hx. specialize (Hq x Hx). split; [split; [by right|done]|lia].
Qed.

Lemma ids_of_nodup nmax seq_id q : NoDup (ids_of nmax seq_id q).
Proof. apply NoDup_filter, NoDup_seqZ. Qed.

Lemma ids_of_length nmax seq_id q : Z.of_nat nmax <= LLAMA_MAX_SEQ -> Z.of_nat (length (ids_of nmax seq_id q)) < 4294967296.
Proof.
  intros H. unfold LLAMA_MAX_SEQ in H. pose proof (length_filter (fun cur => (cur = seq_id \/ seq_id = -1) /\ cur ∈ q) (seqZ 0 (Z.of_nat nmax))) as L.
  rewrite length_seqZ in L. unfold ids_of. lia.
Qed.

(** * Layers *)

(** The same types and sizes: stream [a] of a layer can be restored into stream [b] of another. *)
Record layer_match (a b : nat) (ls ld : kv_layer) : Prop := {
  lm_k  : n_embd_k_gqa ls = n_embd_k_gqa ld;
  lm_v  : n_embd_v_gqa ls = n_embd_v_gqa ld;
  lm_kt : exists ts t, k_stream ls !! a = Some ts /\ k_stream ld !! b = Some t /\ kt_type t = kt_type ts;
  lm_vt : match v_stream ls !! a, v_stream ld !! b with
          | Some None, Some None => True
          | Some (Some ts), Some (Some t) => kt_type t = kt_type ts
          | _, _ => False
          end;
}.

(** The keys at the cells [l] of stream [a] of [ls] are now at the cells [row] of stream [b]. *)
Definition k_moved (l row : list nat) (a b : nat) (ls ld ld' : kv_layer) : Prop :=
  exists ts t t', k_stream ls !! a = Some ts /\ k_stream ld !! b = Some t /\
    wrote (row_bytes (n_embd_k_gqa ld) t) 0 row (rows_of (row_bytes (n_embd_k_gqa ld) t) l (kt_bytes ts)) t t' /\
    ld' = mkLayer (n_embd_k_gqa ld) (n_embd_v_gqa ld) (<[b:=t']> (k_stream ld)) (v_stream ld).

Definition v_moved (trans : bool) (N N' : nat) (l row : list nat) (a b : nat) (ls ld ld' : kv_layer) : Prop :=
  match v_stream ls !! a, v_stream ld !! b with
  | Some (Some ts), Some (Some t) => exists t',
      (if trans then cols_read N N' l row ts t (Z.to_nat (n_embd_v_gqa ld)) t'
       else wrote (row_bytes (n_embd_v_gqa ld) t) 0 row (rows_of (row_bytes (n_embd_v_gqa ld) t) l (kt_bytes ts)) t t') /\
      ld' = mkLayer (n_embd_k_gqa ld) (n_embd_v_gqa ld) (k_stream ld) (<[b:=Some t']> (v_stream ld))
  | _, _ => ld' = ld
  end.

Lemma with_layers_same s : with_layers (layers s) s = s.
Proof. by destruct s. Qed.

Lemma set_layer s il ld x : layers s !! il = Some ld -> set_at il x (layers s) = Some (<[il:=x]> (layers s)).
Proof. intros H. apply set_at_ok. by eapply lookup_lt_Some. Qed.

Lemma read_k_ok N N' n a n' b trans sinfo l row il s ls ld rest k : slot_ok N N' l row sinfo -> layer_ok n N trans ls -> layer_ok n' N' trans ld -> layer_match a b ls ld ->
  layers s !! il = Some ld ->
  exists ld' k', read_k sinfo b (length row) il s (mkRb (enc_k a l ls ++ rest) k) = Done (true, with_layers (<[il:=ld']> (layers s)) s, mkRb rest k') /\ k_moved l row a b ls ld ld'.
Proof.
  intros Hsl Hls Hld Hm Hil. destruct (lm_kt _ _ _ _ Hm) as (ts & t & Hts & Ht & Hty). unfold read_k, enc_k, at_stream. rewrite Hil, Hts. cbn [of_option mbind outcome_bind]. rewrite Ht. cbn [of_option mbind outcome_bind].
  rewrite (lm_k _ _ _ _ Hm). destruct (read_tensor_ok N N' (n_embd_k_gqa ld) l row sinfo ts t rest k Hsl) as (t' & k' & -> & W); [|by apply (ly_kt _ _ _ _ Hld), (list_elem_of_lookup_2 _ b)|done|].
  { rewrite <- (lm_k _ _ _ _ Hm). by apply (ly_kt _ _ _ _ Hls), (list_elem_of_lookup_2 _ a). }
  cbn [at_store mbind outcome_bind]. unfold put_k. rewrite Hil. cbn [mbind option_bind]. rewrite set_at_ok by (by eapply lookup_lt_Some). cbn [mbind option_bind].
  rewrite (set_layer _ _ _ _ Hil). cbn [mbind option_bind of_option outcome_bind]. eexists _, k'. split; [reflexivity|]. by exists ts, t, t'.
Qed.

Lemma read_v_ok N N' n a n' b sinfo l row il s ls ld rest k : slot_ok N N' l row sinfo -> layer_ok n N (K.v_trans (s_kv s)) ls -> layer_ok n' N' (K.v_trans (s_kv s)) ld -> layer_match a b ls ld ->
  layers s !! il = Some ld ->
  exists ld' k', read_v sinfo b (length row) N' il s (mkRb (enc_v (K.v_trans (s_kv s)) N a l ls ++ rest) k) = Done (true, with_layers (<[il:=ld']> (layers s)) s, mkRb rest k') /\
    v_moved (K.v_trans (s_kv s)) N N' l row a b ls ld ld'.
Proof.
  intros Hsl Hls Hld Hm Hil. pose proof (lm_vt _ _ _ _ Hm) as Hvt. unfold read_v, enc_v, at_stream, v_moved. rewrite Hil. cbn [of_option mbind outcome_bind].
  destruct (v_stream ls !! a) as [[ts|]|] eqn:Es; destruct (v_stream ld !! b) as [[t|]|] eqn:Ed; try done; cbn [of_option mbind outcome_bind].
  2: { exists ld, k. split; [|done]. cbn [app]. by rewrite list_insert_id, with_layers_same. }
  pose proof (ly_vt _ _ _ _ Hls ts (list_elem_of_lookup_2 _ _ _ Es)) as Hts. pose proof (ly_vt _ _ _ _ Hld t (list_elem_of_lookup_2 _ _ _ Ed)) as Ht.
  rewrite (lm_v _ _ _ _ Hm) in *. destruct (K.v_trans (s_kv s)).
  - destruct (read_v_trans_ok N N' _ l row sinfo ts t rest k Hsl Hts Ht Hvt) as (t' & k' & -> & W). unfold put_v. rewrite Hil. cbn [mbind option_bind]. rewrite set_at_ok by (by eapply lookup_lt_Some). cbn [mbind option_bind].
    rewrite (set_layer _ _ _ _ Hil). cbn [mbind option_bind of_option outcome_bind]. eexists _, k'. split; [reflexivity|]. by exists t'.
  - destruct (read_tensor_ok N N' _ l row sinfo ts t rest k Hsl Hts Ht Hvt) as (t' & k' & -> & W). cbn [at_tensor]. unfold put_v. rewrite Hil. cbn [mbind option_bind]. rewrite set_at_ok by (by eapply lookup_lt_Some). cbn [mbind option_bind].
    rewrite (set_layer _ _ _ _ Hil). cbn [mbind option_bind of_option outcome_bind]. eexists _, k'. split; [reflexivity|]. by exists t'.
Qed.

(** The loops over the layers. *)
Lemma until_layers (f : nat -> kv_store -> llama_io_read_buffer -> outcome failure (bool * kv_store * llama_io_read_buffer)) (enc : kv_layer -> list byte)
    (M : kv_layer -> kv_layer -> Prop) (D : kv_layer -> kv_layer -> kv_layer -> Prop) (c : K.llama_kv_cache) rest :
  (forall il s ls ld rest k, s_kv s = c -> M ls ld -> layers s !! il = Some ld ->
    exists ld' k', f il s (mkRb (enc ls ++ rest) k) = Done (true, with_layers (<[il:=ld']> (layers s)) s, mkRb rest k') /\ D ls ld ld') ->
  forall src cur pre s k, s_kv s = c -> layers s = pre ++ cur -> Forall2 M src cur ->
  exists cur' k', until_false f (seq (length pre) (length cur)) s (mkRb (concat (enc <$> src) ++ rest) k) = Done (true, with_layers (pre ++ cur') s, mkRb rest k') /\ Forall3 D src cur cur'.
Proof.
  intros Hf. induction src as [|ls src IH]; intros cur pre s k Hc Hl Hm.
  - apply Forall2_nil_inv_l in Hm as ->. exists [], k. split; [|constructor]. rewrite <- Hl, with_layers_same. done.
  - apply Forall2_cons_inv_l in Hm as (ld & cur' & Hm & Hms & ->). cbn [length seq until_false fmap list_fmap concat]. rewrite <- app_assoc.
    destruct (Hf (length pre) s ls ld (concat (enc <$> src) ++ rest) k) as (ld' & k1 & -> & Hd); [done|done|by rewrite Hl, list_lookup_middle|]. cbn [mbind outcome_bind].
    destruct (IH cur' (pre ++ [ld']) (with_layers (<[length pre:=ld']> (layers s)) s) k1) as (cur'' & k2 & E & Hds); [done| |done|].
    { cbn [layers with_layers]. rewrite Hl. replace (length pre) with (length pre + 0)%nat by lia. rewrite insert_app_r. by rewrite <- app_assoc. }
    rewrite length_app, Nat.add_1_r in E. rewrite E. exists (ld' :: cur''), k2. split; [|by constructor]. do 3 f_equal. unfold with_layers. cbn [s_kv n_seq_max]. by rewrite <- app_assoc.
Qed.

(** ** What a layer holds for a cell *)

Definition k_row (st i : nat) (la : kv_layer) : list byte :=
  match k_stream la !! st with Some t => row_at (row_bytes (n_embd_k_gqa la) t) i (kt_bytes t) | None => [] end.

Definition v_row (trans : bool) (N st i : nat) (la : kv_layer) : list byte :=
  match v_stream la !! st with
  | Some (Some t) => if trans then rows_of (el_bytes t) ((fun j => j * N + i)%nat <$> seq 0 (Z.to_nat (n_embd_v_gqa la))) (kt_bytes t)
                     else row_at (row_bytes (n_embd_v_gqa la) t) i (kt_bytes t)
  | _ => []
  end.

Lemma rows_inj R b1 b2 : forall l1 l2, Forall (fun k => (k + 1) * R <= length b1)%nat l1 -> Forall (fun k => (k + 1) * R <= length b2)%nat l2 -> length l1 = length l2 ->
  rows_of R l1 b1 = rows_of R l2 b2 -> Forall2 (fun i j => row_at R i b1 = row_at R j b2) l1 l2.
Proof.
  induction l1 as [|i l1 IH]; intros [|j l2] H1 H2 Hl E; try done. apply Forall_cons in H1 as [Hi H1]. apply Forall_cons in H2 as [Hj H2].
  rewrite !rows_cons in E. apply app_inj_1 in E as [E1 E2]; [|by rewrite !row_length]. constructor; [done|]. apply IH; auto.
Qed.

Lemma wrote_rows N N' R l row sinfo ts t t' : slot_ok N N' l row sinfo -> (N * R <= length (kt_bytes ts))%nat -> (N' * R <= length (kt_bytes t))%nat ->
  wrote R 0 row (rows_of R l (kt_bytes ts)) t t' -> Forall2 (fun i i' => row_at R i' (kt_bytes t') = row_at R i (kt_bytes ts)) l row.
Proof.
  intros [_ _ _ Hlen Hsrc Hdst _] L L' [_ W2 W3 _]. rewrite fmap_base0 in W3. apply Forall2_flip. unfold flip. apply rows_inj; [| |done|done].
  - eapply Forall_impl; [exact Hdst|]. cbn beta. intros i Hi. rewrite W2. assert ((i + 1) * R <= N' * R)%nat by (apply Nat.mul_le_mono_r; lia). lia.
  - eapply Forall_impl; [exact Hsrc|]. cbn beta. intros i Hi. assert ((i + 1) * R <= N * R)%nat by (apply Nat.mul_le_mono_r; lia). lia.
Qed.

Lemma cols_rows N N' n_embd l row sinfo ts t t' : slot_ok N N' l row sinfo -> cols_ok N n_embd ts -> cols_ok N' n_embd t -> kt_type t = kt_type ts ->
  cols_read N N' l row ts t (Z.to_nat n_embd) t' -> forall j, (j < Z.to_nat n_embd)%nat ->
  Forall2 (fun i i' => row_at (el_bytes t) (j * N' + i') (kt_bytes t') = row_at (el_bytes t) (j * N + i) (kt_bytes ts)) l row.
Proof.
  intros [_ _ _ Hlen Hsrc Hdst _] Hts Ht Hty [C1 C2 C3 _] j Hj. specialize (C3 j Hj). destruct (cols_spec _ _ _ Hts) as (_ & Ls & _). destruct (cols_spec _ _ _ Ht) as (_ & L & _).
  unfold col_at in C3. assert (el_bytes ts = el_bytes t) as E by (unfold el_bytes; by rewrite Hty). assert (el_bytes t' = el_bytes t) as E' by (unfold el_bytes; by rewrite C1).
  rewrite E' in C3. rewrite E in C3, Ls. rewrite !col_cells_base in C3. apply rows_inj in C3; [|apply Forall_fmap, (Forall_impl _ _ _ Hdst)|apply Forall_fmap, (Forall_impl _ _ _ Hsrc)|by rewrite !length_fmap].
  - rewrite Forall2_fmap in C3. by apply Forall2_flip.
  - cbn. intros i Hi. rewrite C2, L. apply Nat.mul_le_mono_r. assert ((j + 1) * N' <= Z.to_nat n_embd * N')%nat by (apply Nat.mul_le_mono_r; lia). lia.
  - cbn. intros i Hi. rewrite Ls. apply Nat.mul_le_mono_r. assert ((j + 1) * N <= Z.to_nat n_embd * N)%nat by (apply Nat.mul_le_mono_r; lia). lia.
Qed.

Lemma rows_ok_same N n_embd t t' : kt_type t' = kt_type t -> length (kt_bytes t') = length (kt_bytes t) -> rows_ok N n_embd t -> rows_ok N n_embd t'.
Proof. intros Ht Hl. unfold rows_ok, len. by rewrite Ht, Hl. Qed.

Lemma cols_ok_same N n_embd t t' : kt_type t' = kt_type t -> length (kt_bytes t') = length (kt_bytes t) -> cols_ok N n_embd t -> cols_ok N n_embd t'.
Proof. intros Ht Hl. unfold cols_ok, len. by rewrite Ht, Hl. Qed.

(** *** Keys *)

Lemma k_moved_ok n N N' l row sinfo a b trans m ls ld ld' : slot_ok N N' l row sinfo -> layer_ok m N trans ls -> layer_ok n N' trans ld -> layer_match a b ls ld ->
  k_moved l row a b ls ld ld' ->
  layer_ok n N' trans ld' /\ layer_match a b ls ld' /\ v_stream ld' = v_stream ld /\ n_embd_v_gqa ld' = n_embd_v_gqa ld /\
  Forall2 (fun i i' => k_row b i' ld' = k_row a i ls) l row /\ forall st i, ~ (st = b /\ i ∈ row) -> k_row st i ld' = k_row st i ld.
Proof.
  intros Hsl Hls Hld Hm (ts & t & t' & Hts & Ht & W & ->). pose proof (ly_kt _ _ _ _ Hls ts (list_elem_of_lookup_2 _ _ _ Hts)) as Rs. pose proof (ly_kt _ _ _ _ Hld t (list_elem_of_lookup_2 _ _ _ Ht)) as R.
  pose proof W as [W1 W2 W3 W4]. destruct (lm_kt _ _ _ _ Hm) as (? & ? & ? & ? & Hty). simplify_eq. pose proof (lookup_lt_Some _ _ _ Ht) as Hb.
  assert (row_bytes (n_embd_k_gqa ld) t' = row_bytes (n_embd_k_gqa ld) t) as Er by (unfold row_bytes; by rewrite W1). split_and!; [| |done|done| |].
  - destruct Hld as [L1 L2 L3 L4]. split; cbn; [by rewrite length_insert|done| |done]. intros x (j & [[-> ->]|[_ Hx]]%list_lookup_insert_dec)%list_elem_of_lookup.
    all: idtac.
    1: by apply (rows_ok_same _ _ t). by apply L3, (list_elem_of_lookup_2 _ j).
  - destruct Hm as [M1 M2 M3 M4]. split; [done|done| |done]. exists ts, t'. split_and!; [done|cbn; by rewrite list_lookup_insert_eq|congruence].
  - unfold k_row. cbn [k_stream n_embd_k_gqa]. rewrite Hts, list_lookup_insert_eq by done. rewrite Er. rewrite (lm_k _ _ _ _ Hm).
    assert (row_bytes (n_embd_k_gqa ld) ts = row_bytes (n_embd_k_gqa ld) t) as -> by (unfold row_bytes; by rewrite Hty).
    rewrite (lm_k _ _ _ _ Hm) in Rs. apply (wrote_rows N N' _ l row sinfo ts t t' Hsl); [| |done].
    + destruct (rows_spec _ _ _ Rs) as (_ & -> & _). unfold row_bytes. by rewrite Hty.
    + destruct (rows_spec _ _ _ R) as (_ & -> & _). done.
  - intros st i Hsi. unfold k_row. cbn [k_stream n_embd_k_gqa]. destruct (decide (st = b)) as [->|Hne]; [|by rewrite list_lookup_insert_ne].
    rewrite list_lookup_insert_eq by done. rewrite Ht, Er. apply W4. rewrite fmap_base0. naive_solver.
Qed.

(** *** Values *)

Lemma v_row_put (trans : bool) N st i ld b t' : (b < length (v_stream ld))%nat ->
  v_row trans N st i (mkLayer (n_embd_k_gqa ld) (n_embd_v_gqa ld) (k_stream ld) (<[b:=Some t']> (v_stream ld))) =
  if decide (st = b) then if trans then rows_of (el_bytes t') ((fun j => j * N + i)%nat <$> seq 0 (Z.to_nat (n_embd_v_gqa ld))) (kt_bytes t') else row_at (row_bytes (n_embd_v_gqa ld) t') i (kt_bytes t')
  else v_row trans N st i ld.
Proof.
  intros Hb. unfold v_row at 1. cbn [v_stream n_embd_v_gqa]. case_decide as D; [subst; by rewrite list_lookup_insert_eq|]. by rewrite list_lookup_insert_ne.
Qed.

Lemma v_trans_rows N N' n_embd l row sinfo ts t t' : slot_ok N N' l row sinfo -> cols_ok N n_embd ts -> cols_ok N' n_embd t -> kt_type t = kt_type ts ->
  cols_read N N' l row ts t (Z.to_nat n_embd) t' ->
  Forall2 (fun i i' => rows_of (el_bytes t') ((fun j => j * N' + i')%nat <$> seq 0 (Z.to_nat n_embd)) (kt_bytes t') = rows_of (el_bytes ts) ((fun j => j * N + i)%nat <$> seq 0 (Z.to_nat n_embd)) (kt_bytes ts)) l row.
Proof.
  intros Hsl Hts Ht Hty C. apply Forall2_same_length_lookup_2; [apply Hsl|]. intros n i i' Hi Hi'.
  assert (el_bytes t' = el_bytes t) as -> by (unfold el_bytes; by rewrite (cr_type _ _ _ _ _ _ _ _ C)). assert (el_bytes ts = el_bytes t) as -> by (unfold el_bytes; by rewrite Hty).
  apply rows_ext. rewrite Forall2_fmap. apply Forall_Forall2_diag, Forall_forall. intros j Hj%elem_of_seq.
  pose proof (cols_rows _ _ _ _ _ _ _ _ _ Hsl Hts Ht Hty C j ltac:(lia)) as F. by apply (Forall2_lookup_lr _ _ _ _ _ _ F Hi Hi').
Qed.

Lemma v_trans_rest N N' n_embd l row sinfo ts t t' i : slot_ok N N' l row sinfo -> cols_read N N' l row ts t (Z.to_nat n_embd) t' -> i ∉ row -> (i < N')%nat ->
  rows_of (el_bytes t') ((fun j => j * N' + i)%nat <$> seq 0 (Z.to_nat n_embd)) (kt_bytes t') = rows_of (el_bytes t) ((fun j => j * N' + i)%nat <$> seq 0 (Z.to_nat n_embd)) (kt_bytes t).
Proof.
  intros Hsl [C1 _ _ C4] Hi Hn. assert (el_bytes t' = el_bytes t) as -> by (unfold el_bytes; by rewrite C1). apply rows_ext. rewrite Forall2_fmap. apply Forall_Forall2_diag, Forall_forall. intros j _. apply C4.
  intros j' _. rewrite col_cells_base. intros (x & E & Hx)%list_elem_of_fmap. pose proof (sl_dst _ _ _ _ _ Hsl) as Hd. rewrite Forall_forall in Hd. specialize (Hd x Hx). cbn beta in Hd.
  destruct (Nat.lt_trichotomy j j') as [H|[->|H]].
  - assert ((j + 1) * N' <= j' * N')%nat by (apply Nat.mul_le_mono_r; lia). lia.
  - assert (i = x) by lia. by subst.
  - assert ((j' + 1) * N' <= j * N')%nat by (apply Nat.mul_le_mono_r; lia). lia.
Qed.

Lemma v_moved_ok n N N' l row sinfo a b (trans : bool) m ls ld ld' : slot_ok N N' l row sinfo -> layer_ok m N trans ls -> layer_ok n N' trans ld -> layer_match a b ls ld ->
  v_moved trans N N' l row a b ls ld ld' ->
  layer_ok n N' trans ld' /\ (forall st i, k_row st i ld' = k_row st i ld) /\
  Forall2 (fun i i' => v_row trans N' b i' ld' = v_row trans N a i ls) l row /\
  forall st i, (i < N')%nat -> ~ (st = b /\ i ∈ row) -> v_row trans N' st i ld' = v_row trans N' st i ld.
Proof.
  intros Hsl Hls Hld Hm Hv. pose proof (lm_vt _ _ _ _ Hm) as Hty. unfold v_moved in Hv. destruct (v_stream ls !! a) as [[ts|]|] eqn:Es; destruct (v_stream ld !! b) as [[t|]|] eqn:Ed; try done.
  2: { subst ld'. split_and!; [done|done| |done]. apply Forall2_same_length_lookup_2; [apply Hsl|]. intros ? ? ? _ _. unfold v_row. by rewrite Es, Ed. }
  pose proof (lookup_lt_Some _ _ _ Ed) as Hb. destruct Hv as (t' & W & ->).
  pose proof (ly_vt _ _ _ _ Hls ts (list_elem_of_lookup_2 _ _ _ Es)) as Hts. pose proof (ly_vt _ _ _ _ Hld t (list_elem_of_lookup_2 _ _ _ Ed)) as Ht. rewrite (lm_v _ _ _ _ Hm) in Hts.
  assert (kt_type t' = kt_type t /\ length (kt_bytes t') = length (kt_bytes t)) as [W1 W2] by (destruct trans; by destruct W). split_and!; [|done| |].
  - destruct Hld as [L1 L2 L3 L4]. split; cbn; [done|by rewrite length_insert|done|]. intros x (j & [[-> Hx]|[_ Hx]]%list_lookup_insert_dec)%list_elem_of_lookup; [|by apply L4, (list_elem_of_lookup_2 _ j)].
    injection Hx as ->. destruct trans; [by apply (cols_ok_same _ _ t)|by apply (rows_ok_same _ _ t)].
  - apply Forall2_same_length_lookup_2; [apply Hsl|]. intros k i i' Hi Hi'. rewrite v_row_put by done. rewrite decide_True by done. unfold v_row. rewrite Es, (lm_v _ _ _ _ Hm). destruct trans.
    + pose proof (v_trans_rows _ _ _ _ _ _ _ _ _ Hsl Hts Ht Hty W) as F. by apply (Forall2_lookup_lr _ _ _ _ _ _ F Hi Hi').
    + destruct (rows_spec _ _ _ Hts) as (_ & Ls & _). destruct (rows_spec _ _ _ Ht) as (_ & L & _).
      assert (row_bytes (n_embd_v_gqa ld) t' = row_bytes (n_embd_v_gqa ld) t) as -> by (unfold row_bytes; by rewrite W1).
      assert (row_bytes (n_embd_v_gqa ld) ts = row_bytes (n_embd_v_gqa ld) t) as E by (unfold row_bytes; by rewrite Hty). rewrite E in Ls |- *.
      pose proof (wrote_rows N N' (row_bytes (n_embd_v_gqa ld) t) l row sinfo ts t t' Hsl ltac:(lia) ltac:(lia) W) as F. by apply (Forall2_lookup_lr _ _ _ _ _ _ F Hi Hi').
  - intros st i Hn Hsi. rewrite v_row_put by done. case_decide as D; [|done]. unfold v_row. rewrite D, Ed. destruct trans.
    + eapply v_trans_rest; [done|exact W|naive_solver|done].
    + assert (row_bytes (n_embd_v_gqa ld) t' = row_bytes (n_embd_v_gqa ld) t) as -> by (unfold row_bytes; by rewrite W1). destruct W as [_ _ _ W4]. apply W4. rewrite fmap_base0. naive_solver.
Qed.

(** ** All the layers *)

(** The data of the cells [l] of stream [a] is now at the cells [row] of stream [b]. *)
Record layer_moved (n N N' : nat) (trans : bool) (l row : list nat) (a b : nat) (ls ld ld' : kv_layer) : Prop := {
  mv_ok   : layer_ok n N' trans ld';
  mv_k    : Forall2 (fun i i' => k_row b i' ld' = k_row a i ls) l row;
  mv_v    : Forall2 (fun i i' => v_row trans N' b i' ld' = v_row trans N a i ls) l row;
  mv_rest : forall st i, (i < N')%nat -> ~ (st = b /\ i ∈ row) -> k_row st i ld' = k_row st i ld /\ v_row trans N' st i ld' = v_row trans N' st i ld;
}.

Lemma moved_ok n N N' l row sinfo a b trans m ls ld ld1 ld' : slot_ok N N' l row sinfo -> layer_ok m N trans ls -> layer_ok n N' trans ld -> layer_match a b ls ld ->
  k_moved l row a b ls ld ld1 -> v_moved trans N N' l row a b ls ld1 ld' -> layer_moved n N N' trans l row a b ls ld ld'.
Proof.
  intros Hsl Hls Hld Hm Hk Hv. destruct (k_moved_ok _ _ _ _ _ _ _ _ _ _ _ _ _ Hsl Hls Hld Hm Hk) as (O1 & M1 & S1 & E1 & K1 & R1).
  destruct (v_moved_ok _ _ _ _ _ _ _ _ _ _ _ _ _ Hsl Hls O1 M1 Hv) as (O2 & K2 & V2 & R2). split; [done| |done|].
  - eapply Forall2_impl; [exact K1|]. cbn. intros i i'. by rewrite K2.
  - intros st i Hi Hsi. rewrite K2, R1, R2 by done. split; [done|]. unfold v_row. by rewrite S1, E1.
Qed.

Lemma moved_all n N N' l row sinfo a b trans m : slot_ok N N' l row sinfo -> forall src cur cur1 cur2,
  Forall (layer_ok m N trans) src -> Forall (layer_ok n N' trans) cur -> Forall2 (layer_match a b) src cur ->
  Forall3 (k_moved l row a b) src cur cur1 -> Forall3 (v_moved trans N N' l row a b) src cur1 cur2 -> Forall3 (layer_moved n N N' trans l row a b) src cur cur2.
Proof.
  intros Hsl. induction src as [|ls src IH]; intros cur cur1 cur2 Hs Hc Hm H1 H2.
  - inversion H1; subst. inversion H2; subst. constructor.
  - inversion H1 as [|? ld ld1 ? cur' cur1' K1 K2]; subst. inversion H2 as [|? ? ld2 ? ? cur2' V1 V2]; subst.
    apply Forall_cons in Hs as [Hs1 Hs2]. apply Forall_cons in Hc as [Hc1 Hc2]. apply Forall2_cons in Hm as [Hm1 Hm2].
    constructor; [by eapply moved_ok|by eapply IH].
Qed.

Lemma k_moved_match n N N' l row sinfo a b trans m : slot_ok N N' l row sinfo -> forall src cur cur1,
  Forall (layer_ok m N trans) src -> Forall (layer_ok n N' trans) cur -> Forall2 (layer_match a b) src cur -> Forall3 (k_moved l row a b) src cur cur1 ->
  Forall2 (fun ls ld => layer_ok m N trans ls /\ layer_ok n N' trans ld /\ layer_match a b ls ld) src cur1 /\ length cur1 = length cur.
Proof.
  intros Hsl src cur cur1 Hs Hc Hm H1. induction H1 as [|ls ld ld1 src cur cur1 K1 K2 IH]; [done|].
  apply Forall_cons in Hs as [Hs1 Hs2]. apply Forall_cons in Hc as [Hc1 Hc2]. apply Forall2_cons in Hm as [Hm1 Hm2]. destruct (IH Hs2 Hc2 Hm2) as [F L].
  destruct (k_moved_ok _ _ _ _ _ _ _ _ _ _ _ _ _ Hsl Hs1 Hc1 Hm1 K1) as (O1 & M1 & _). split; [by constructor|]. cbn [length]. lia.
Qed.

Lemma row_count N N' l row sinfo : slot_ok N N' l row sinfo -> (length row <= N')%nat.
Proof.
  intros [_ _ Hnd _ _ Hdst _]. rewrite <- (length_seq N' 0). apply submseteq_length, NoDup_submseteq; [done|]. intros i Hi. apply elem_of_seq.
  rewrite Forall_forall in Hdst. specialize (Hdst i Hi). lia.
Qed.

Lemma state_read_data_ok N N' n src s cells a b sinfo l row rest k : slot_ok N N' l row sinfo -> store_ok N src -> Forall (layer_ok n N' (K.v_trans (s_kv s))) (layers s) ->
  K.v_trans (s_kv src) = K.v_trans (s_kv s) -> Forall2 (layer_match a b) (layers src) (layers s) -> K.v_cells (s_kv s) !! b = Some cells -> size cells = N' ->
  exists ls' k', state_read_data b (length row) sinfo s (mkRb (enc_data src N a l ++ rest) k) = Done (true, with_layers ls' s, mkRb rest k') /\
    Forall3 (layer_moved n N N' (K.v_trans (s_kv s)) l row a b) (layers src) (layers s) ls'.
Proof.
  intros Hsl Hsrc Hls Htr Hm Hc Hsz. pose proof (Forall2_length _ _ _ Hm) as Hlen. pose proof (so_count _ _ Hsrc) as Hcnt. pose proof (so_layers _ _ Hsrc) as Hso. rewrite Htr in Hso.
  unfold state_read_data, enc_data. rewrite Hc. cbn [of_option mbind outcome_bind]. rewrite <- !app_assoc, Htr.
  match goal with |- context [read_u32 (mkRb (le4 ?z ++ ?r) k)] => destruct (read_u32_ok z r k) as [k1 ->]; [by destruct (K.v_trans (s_kv s))|] end. cbn [at_store mbind outcome_bind].
  match goal with |- context [read_u32 (mkRb (le4 ?z ++ ?r) k1)] => destruct (read_u32_ok z r k1) as [k2 ->]; [lia|] end. cbn [at_store mbind outcome_bind].
  rewrite bool_decide_false by (rewrite Hlen; auto). pose proof (row_count _ _ _ _ _ Hsl). rewrite bool_decide_false by lia.
  rewrite bool_decide_false by (intros E; apply E; by destruct (K.v_trans (s_kv s))). pose proof Hls as Hls'. rewrite Forall_forall in Hls', Hso.
  destruct (until_layers (read_k sinfo b (length row)) (enc_k a l) (fun ls ld => layer_ok (K.n_stream (s_kv src)) N (K.v_trans (s_kv s)) ls /\ layer_ok n N' (K.v_trans (s_kv s)) ld /\ layer_match a b ls ld)
    (k_moved l row a b) (s_kv s) (concat (enc_v (K.v_trans (s_kv s)) N a l <$> layers src) ++ rest)) with (src := layers src) (cur := layers s) (pre := @nil kv_layer) (s := s) (k := k2) as (cur1 & k3 & E1 & M1).
  - intros il s' ls ld r kk _ (O1 & O2 & O3) Hil. by eapply read_k_ok.
  - done.
  - done.
  - apply Forall2_same_length_lookup_2; [done|]. intros i ls ld Hi Hi'. pose proof (Forall2_lookup_lr _ _ _ _ _ _ Hm Hi Hi').
    split_and!; [by apply Hso, (list_elem_of_lookup_2 _ i)|by apply Hls', (list_elem_of_lookup_2 _ i)|done].
  - cbn [length app] in E1. rewrite E1. cbn [mbind outcome_bind]. rewrite <- Forall_forall in Hso. destruct (k_moved_match _ _ _ _ _ _ _ _ _ _ Hsl _ _ _ Hso Hls Hm M1) as [M2 L2].
    destruct (until_layers (read_v sinfo b (length row) (size cells)) (enc_v (K.v_trans (s_kv s)) N a l) (fun ls ld => layer_ok (K.n_stream (s_kv src)) N (K.v_trans (s_kv s)) ls /\ layer_ok n N' (K.v_trans (s_kv s)) ld /\ layer_match a b ls ld)
      (v_moved (K.v_trans (s_kv s)) N N' l row a b) (s_kv s) rest) with (src := layers src) (cur := cur1) (pre := @nil kv_layer) (s := with_layers cur1 s) (k := k3) as (cur2 & k4 & E2 & M3); [|done|done|done|].
    + intros il s' ls ld r kk Hs' (O1 & O2 & O3) Hil. rewrite Hsz. rewrite <- Hs' in *. by eapply read_v_ok.
    + cbn [length app layers with_layers] in E2 |- *. rewrite L2 in E2 |- *. rewrite E2. exists cur2, k4. split; [done|]. by eapply moved_all.
Qed.

End Reload.
End KvReload.
