(* ===== verification/KvRoundtrip.v ===== *)
(** Saving and restoring a cache: what the buffer of a saved state holds, and
    that restoring it gives back the cells with their keys and values. *)

From S2P Require Import Prelude.
From S2P Require Import KvCells.
From S2P Require Import Memory.
From S2P Require Import Batch.
From S2P Require Import KvCache.
From S2P Require Import KvOps.
From S2P Require Import Bytes.
From S2P Require Import TensorAlloc.
From S2P Require Import TensorAllocOk.
From S2P Require Import GgmlTensor.
From S2P Require Import GgmlTensorOk.
From S2P Require Import KvState.
From S2P Require Import KvSave.
From S2P Require Import KvRestore.
From S2P Require Import KvReload.
Import KvCells.Cells KvOps.KvOps KvState.KvState KvSave.KvSave KvRestore.KvRestore KvReload.KvReload.
Import TensorAlloc.TensorAlloc TensorAllocOk.TensorAllocOk GgmlTensorOk.GgmlTensorOk.

Module KvRoundtrip.
Local Open Scope Z_scope.
Section Whole.
Context `{BM : BuildMode}.

(** * Clearing the data *)

Lemma zero_layer_ok n N trans la : layer_ok n N trans la -> layer_ok n N trans (zero_layer la).
Proof.
  intros [L1 L2 L3 L4]. assert (forall t, length (kt_bytes (zero_tensor t)) = length (kt_bytes t)) as E by (intros t; cbn; by rewrite length_replicate).
  split; cbn [k_stream v_stream zero_layer n_embd_k_gqa n_embd_v_gqa]; [by rewrite length_fmap|by rewrite length_fmap| |].
  - intros ? (t & -> & Ht)%list_elem_of_fmap. by apply (rows_ok_same _ _ t), L3.
  - intros t' (o & Eo & Ho)%list_elem_of_fmap. destruct o as [t|]; [|done]. injection Eo as ->. specialize (L4 t Ho). destruct trans; [by apply (cols_ok_same _ _ t)|by apply (rows_ok_same _ _ t)].
Qed.

Lemma zero_layer_match a b ls ld : layer_match a b ls ld -> layer_match a b ls (zero_layer ld).
Proof.
  intros [M1 M2 (ts & t & Hs & Ht & Hty) M4]. split; [done|done| |].
  - exists ts, (zero_tensor t). split_and!; [done|cbn; by rewrite list_lookup_fmap, Ht|done].
  - cbn [v_stream zero_layer]. rewrite list_lookup_fmap. destruct (v_stream ls !! a) as [[?|]|]; destruct (v_stream ld !! b) as [[?|]|]; done.
Qed.

(** [clear(true)]: no cell is used, every tensor is zero. *)
Lemma clear_data_ok N s : store_ok N s -> store_ok N (clear_data s) /\ same_config (s_kv s) (s_kv (clear_data s)) /\ forall st i, kv_view (s_kv (clear_data s)) st i = None.
Proof.
  intros [H1 H2 H3 H4 H5]. destruct (kv_clear_ok _ _ H1) as (W & C & V). split; [|done]. split; cbn [s_kv layers n_seq_max clear_data]; [done| |by rewrite length_fmap|done|].
  - rewrite Forall_fmap. eapply Forall_impl; [exact H2|]. intros la. apply zero_layer_ok.
  - intros st i p q x Hv. by rewrite V in Hv.
Qed.

(** * The cells of a stream *)

(** Where the cells of a whole stream go. *)
Definition whole_slot (b count : nat) : K.slot_info := K.mkSlot b b [b] [seq 0 count].

Definition used_cells (s : kv_store) (a : nat) : list nat := match K.v_cells (s_kv s) !! a with Some cells => saved cells (-1) | None => [] end.

Lemma saved_nodup cells seq_id : NoDup (saved cells seq_id).
Proof. apply NoDup_filter, NoDup_seq. Qed.

Lemma saved_slot N N' b cells l : size cells = N -> saved cells (-1) = l -> l <> [] -> (length l <= N')%nat -> slot_ok N N' l (seq 0 (length l)) (whole_slot b (length l)).
Proof.
  intros Hs <- Hne Hc. split.
  - done.
  - destruct (saved cells (-1)); done.
  - apply NoDup_seq.
  - by rewrite length_seq.
  - apply Forall_forall. intros i [Hi _]%saved_view. lia.
  - apply Forall_forall. intros i Hi%elem_of_seq. lia.
  - apply saved_nodup.
Qed.

(** The saved cells of a stream, for the reader. *)
Lemma saved_fit N s a cells nmax : store_ok N s -> K.v_cells (s_kv s) !! a = Some cells -> (n_seq_max s <= nmax)%nat -> Z.of_nat nmax <= LLAMA_MAX_SEQ ->
  Forall (fun x : Z * list Z => 0 <= x.1 <= INT32_MAX /\ (NoDup x.2 /\ forall y, y ∈ x.2 -> 0 <= y < Z.of_nat nmax) /\ Z.of_nat (length x.2) < 4294967296) (saved_cell (n_seq_max s) (-1) cells <$> saved cells (-1)).
Proof.
  intros Hs Hc Hn Hm. destruct (kw_wf _ _ (so_kv _ _ Hs) _ _ Hc) as [Hw _]. apply Forall_fmap, Forall_forall. intros i (Hi & p & q & Hv & _)%saved_view.
  cbn. unfold saved_cell. rewrite Hv. cbn [fst snd]. split; [pose proof (view_range _ _ _ _ Hw Hv); lia|]. split; [|apply ids_of_length; lia].
  split; [apply ids_of_nodup|]. intros y [_ Hy%elem_of_seqZ]%list_elem_of_filter. lia.
Qed.

Lemma read_meta_all_ok N N' src s a b cells rest k : store_ok N src -> K.v_cells (s_kv src) !! a = Some cells -> store_ok N' s -> (b < K.n_stream (s_kv s))%nat ->
  (forall x, 0 <= x < Z.of_nat (n_seq_max s) -> home (s_kv s) x = Some b) -> (n_seq_max src <= n_seq_max s)%nat -> (length (saved cells (-1)) <= N')%nat ->
  exists c k', read_meta_all b (length (saved cells (-1))) s (mkRb (concat (enc_cell (n_seq_max src) (-1) cells <$> saved cells (-1)) ++ rest) k) =
    Done (Some (whole_slot b (length (saved cells (-1))), with_kv c (clear_data s)), mkRb rest k', with_kv c (clear_data s)) /\
    wf_kv N' c /\ same_config (s_kv s) c /\
    (forall st i, kv_view c st i = if decide (st = b) then i ← saved cells (-1) !! i; view cells i else None).
Proof.
  intros Hsrc Hca Hs Hb Hhome Hnm Hcnt. set (l := saved cells (-1)) in *. pose proof (so_nmax _ _ Hs) as Hmax.
  destruct (clear_data_ok _ _ Hs) as (Hs0 & C0 & V0). assert (K.n_stream (s_kv (clear_data s)) = K.n_stream (s_kv s)) as Hns by done.
  destruct (stream_cells (so_kv _ _ Hs) b Hb) as (cd & h & Hcd & Hh & Wd & Sd & _). destruct (stream_cells (so_kv _ _ Hs0) b) as (c0 & h0 & Hc0 & Hh0 & W0 & S0 & _); [by rewrite Hns|].
  unfold read_meta_all. rewrite Hcd. cbn [of_option mbind outcome_bind]. rewrite bool_decide_false by lia. rewrite Hc0. cbn [of_option mbind outcome_bind].
  rewrite enc_saved. 2: { apply Forall_forall. intros i (_ & p & q & Hv & _)%saved_view. by rewrite Hv. }
  pose proof (saved_fit N src a cells (n_seq_max s) Hsrc Hca Hnm Hmax) as Hfit. fold l in Hfit. fold l. set (ps := saved_cell (n_seq_max src) (-1) cells <$> l) in *.
  assert (length ps = length l) as Lp by (unfold ps; by rewrite length_fmap).
  destruct (read_cells_ok (clear_data s) rest Hmax ps 0 c0 k W0) as (c1 & k1 & E & W1 & S1 & _ & V1); [lia| |exact Hfit|].
  { intros i _. rewrite <- (view_kv b c0 i Hc0). apply V0. }
  rewrite Lp in E. rewrite E. unfold put_cells. assert (forall i, view c1 i = (i ← l !! i; view cells i)) as V1'.
  { intros i. rewrite V1, Nat.sub_0_r by lia. unfold ps. rewrite list_lookup_fmap. destruct (l !! i) as [j|] eqn:Ej; [|done]. cbn.
    apply list_elem_of_lookup_2, saved_view in Ej as (_ & p & q & Hv & _). unfold saved_cell. rewrite Hv. cbn. do 2 f_equal. apply ids_of_all. intros x Hx.
    rewrite <- (view_kv a cells j Hca) in Hv. split; [|by eapply so_seqs]. destruct (kw_own _ _ (so_kv _ _ Hsrc) a j p q Hv) as [_ Ho]. destruct (home_range (so_kv _ _ Hsrc) x a (Ho x Hx)) as ((? & _) & _). done. }
  destruct (KvOps.KvOps.put_cells (so_kv _ _ Hs0) b c1) as (c2 & E2 & W2 & C2 & Hh2 & _ & V2); [done|done|lia| |].
  { intros i p q Hv. rewrite V1' in Hv. destruct (l !! i) as [j|] eqn:Ej; [|done]. cbn in Hv. rewrite <- (view_kv a cells j Hca) in Hv.
    destruct (kw_own _ _ (so_kv _ _ Hsrc) a j p q Hv) as [Hq Ho]. split; [done|]. intros x Hx. change (home (s_kv s) x = Some b). apply Hhome.
    pose proof (so_seqs _ _ Hsrc _ _ _ _ _ Hv Hx). destruct (home_range (so_kv _ _ Hsrc) x a (Ho x Hx)) as ((? & _) & _). lia. }
  cbn [s_kv clear_data] in E2. cbn [s_kv clear_data]. rewrite E2. cbn [mbind option_bind of_option outcome_bind negb s_kv with_kv].
  destruct (put_head W2 b 0) as (c3 & E3 & W3 & C3 & _ & Hc3); [|lia|].
  { destruct C2 as (? & ? & ? & ->). done. }
  rewrite E3. cbn [mbind option_bind of_option outcome_bind]. exists c3, k1. split; [done|]. split; [done|]. split.
  - eapply same_config_trans; [exact C0|]. by eapply same_config_trans.
  - intros st i. unfold kv_view. rewrite Hc3. fold (kv_view c2 st i). rewrite V2. case_decide; [apply V1'|apply V0].
Qed.

(** * The content of a stream *)

(** Position, sequences, and the keys and values of every layer. *)
Definition cell_content (N : nat) (s : kv_store) (a i : nat) : option (Z * gset Z * list (list byte) * list (list byte)) :=
  '(p, q) ← kv_view (s_kv s) a i;
  Some (p, q, k_row a i <$> layers s, v_row (K.v_trans (s_kv s)) N a i <$> layers s).

(** The cells in use, in order. *)
Definition state_content (N : nat) (s : kv_store) (a : nat) : list (Z * gset Z * list (list byte) * list (list byte)) :=
  omap (cell_content N s a) (seq 0 N).

Lemma omap_pairs {A B C} (f : A -> option C) (g : B -> option C) l1 l2 : Forall2 (fun x y => f x = g y) l1 l2 -> omap f l1 = omap g l2.
Proof. induction 1 as [|x y l1 l2 E _ IH]; [done|]. cbn. by rewrite E, IH. Qed.

Lemma omap_none {A B} (f : A -> option B) l : Forall (fun x => f x = None) l -> omap f l = [].
Proof. induction 1 as [|x l E _ IH]; [done|]. cbn. by rewrite E. Qed.

Lemma omap_filter {A B} (f : A -> option B) (P : A -> Prop) `{forall x, Decision (P x)} (l : list A) : (forall x, ~ P x -> f x = None) -> omap f (filter P l) = omap f l.
Proof.
  intros HP. induction l as [|x l IH]; [done|]. rewrite filter_cons. case_decide as D; cbn; [by rewrite IH|]. by rewrite (HP x D), IH.
Qed.

Lemma content_saved N s a cells : K.v_cells (s_kv s) !! a = Some cells -> size cells = N -> state_content N s a = omap (cell_content N s a) (saved cells (-1)).
Proof.
  intros Hc Hs. unfold state_content, saved. rewrite Hs, omap_filter; [done|]. intros i Hk. unfold cell_content, kv_view. rewrite Hc. cbn.
  unfold kept in Hk. destruct (view cells i) as [[p q]|]; [|done]. destruct Hk. by left.
Qed.

(** The layers of a restored cell. *)
Lemma moved_content n N N' trans l row a b src cur cur' : length l = length row -> Forall3 (layer_moved n N N' trans l row a b) src cur cur' ->
  Forall2 (fun i i' => k_row b i' <$> cur' = k_row a i <$> src /\ v_row trans N' b i' <$> cur' = v_row trans N a i <$> src) l row.
Proof.
  intros Hl. induction 1 as [|ls ld ld' src cur cur' M _ IH]; [by apply Forall2_same_length_lookup_2|]. pose proof (mv_k _ _ _ _ _ _ _ _ _ _ _ M) as K1. pose proof (mv_v _ _ _ _ _ _ _ _ _ _ _ M) as V1.
  apply Forall2_same_length_lookup_2; [done|]. intros j i i' Hi Hi'. destruct (Forall2_lookup_lr _ _ _ _ _ _ IH Hi Hi') as [E1 E2].
  rewrite !fmap_cons, E1, E2. by rewrite (Forall2_lookup_lr _ _ _ _ _ _ K1 Hi Hi'), (Forall2_lookup_lr _ _ _ _ _ _ V1 Hi Hi').
Qed.

Lemma moved_layers n N N' trans l row a b src cur cur' : Forall3 (layer_moved n N N' trans l row a b) src cur cur' -> Forall (layer_ok n N' trans) cur' /\ length cur' = length cur.
Proof. induction 1 as [|ls ld ld' src cur cur' M _ [IH L]]; [done|]. split; [constructor; [apply M|done]|]. cbn. by rewrite L. Qed.

(** * The whole state of one stream *)

(** [d] takes the states of [s]: one stream each, tensors of the same types and widths. *)
Record compatible (s d : kv_store) : Prop := {
  cp_s      : K.n_stream (s_kv s) = 1%nat;
  cp_d      : K.n_stream (s_kv d) = 1%nat;
  cp_trans  : K.v_trans (s_kv s) = K.v_trans (s_kv d);
  cp_layers : Forall2 (layer_match 0 0) (layers s) (layers d);
  cp_nmax   : (n_seq_max s <= n_seq_max d)%nat;
}.

Lemma one_stream_home n c x : wf_kv n c -> K.n_stream c = 1%nat -> 0 <= x < LLAMA_MAX_SEQ -> home c x = Some 0%nat.
Proof.
  intros Hw Hn Hx. unfold home. rewrite bool_decide_true by lia. destruct (kw_map _ _ Hw) as [[_ ->]|[? _]]; [|lia]. apply lookup_replicate_2. lia.
Qed.

(** The state after the cells and the data of stream 0 are read. *)
Lemma restored_ok N N' s d cells c ls' n : store_ok N s -> store_ok N' d -> compatible s d -> K.v_cells (s_kv s) !! 0%nat = Some cells -> (length (saved cells (-1)) <= N')%nat ->
  wf_kv N' c -> same_config (s_kv d) c -> (forall st i, kv_view c st i = if decide (st = 0%nat) then i ← saved cells (-1) !! i; view cells i else None) -> n = K.n_stream (s_kv d) ->
  Forall3 (layer_moved n N N' (K.v_trans (s_kv d)) (saved cells (-1)) (seq 0 (length (saved cells (-1)))) 0 0) (layers s) (zero_layer <$> layers d) ls' ->
  store_ok N' (mkStore c (n_seq_max d) ls') /\ state_content N' (mkStore c (n_seq_max d) ls') 0 = state_content N s 0.
Proof.
  intros Hs Hd Hc Hcells Hcnt Hw Hcfg Hv -> Hmv. destruct (kw_wf _ _ (so_kv _ _ Hs) _ _ Hcells) as [Hwc Hsz]. destruct (moved_layers _ _ _ _ _ _ _ _ _ _ _ Hmv) as [Hlok Hll]. rewrite length_fmap in Hll.
  assert (K.n_stream c = K.n_stream (s_kv d) /\ K.v_trans c = K.v_trans (s_kv d)) as [En Et] by (by destruct Hcfg as (? & ? & ? & ->)). split.
  - split; cbn [s_kv n_seq_max layers]; [done|by rewrite En, Et|rewrite Hll; apply Hd|apply Hd|].
    intros st i p q x Hx Hin. rewrite Hv in Hx. case_decide as D; [|done]. destruct (saved cells (-1) !! i) as [j|]; [|done]. cbn in Hx. rewrite <- (view_kv 0 cells j Hcells) in Hx.
    pose proof (so_seqs _ _ Hs _ _ _ _ _ Hx Hin). pose proof (cp_nmax _ _ Hc). lia.
  - rewrite (content_saved N s 0 cells Hcells Hsz). unfold state_content. set (l := saved cells (-1)) in *. replace N' with (length l + (N' - length l))%nat by lia. rewrite seq_app, omap_app.
    rewrite (omap_none _ (seq (0 + length l) _)), app_nil_r.
    2: { apply Forall_forall. intros i Hi%elem_of_seq. unfold cell_content. cbn [s_kv]. rewrite Hv. cbn. by rewrite lookup_ge_None_2 by lia. }
    symmetry. replace (length l + (N' - length l))%nat with N' by lia. apply omap_pairs.
    apply Forall2_same_length_lookup_2; [by rewrite length_seq|]. intros j i i' Hi Hi'.
    assert (length l = length (seq 0 (length l))) as Hlen by (by rewrite length_seq). pose proof (moved_content _ _ _ _ _ _ _ _ _ _ _ Hlen Hmv) as F. destruct (Forall2_lookup_lr _ _ _ _ _ _ F Hi Hi') as [E1 E2].
    apply lookup_seq in Hi' as [-> _]. cbn [Nat.add] in *. unfold cell_content. cbn [s_kv layers]. rewrite Hv, (view_kv 0 cells i Hcells). rewrite Hi, decide_True by done. cbn [mbind option_bind].
    destruct (view cells i) as [[p q]|]; [|done]. cbn. rewrite Et, (cp_trans _ _ Hc). by rewrite E1, E2.
Qed.

(** Reading the saved bytes of stream 0. *)
Lemma read_whole_ok N N' s d cells rest k : store_ok N s -> store_ok N' d -> compatible s d -> K.v_cells (s_kv s) !! 0%nat = Some cells ->
  (0 < length (saved cells (-1)) <= N')%nat ->
  exists d' k', state_read (-1) d (mkRb (encoding s N (-1) ++ rest) k) = Done (d', mkRb rest k') /\ store_ok N' d' /\ state_content N' d' 0 = state_content N s 0.
Proof.
  intros Hs Hd Hc Hcells [Hpos Hcnt]. destruct (kw_wf _ _ (so_kv _ _ Hs) _ _ Hcells) as [Hwc Hsz]. pose proof (wf_size _ Hwc) as Hint. set (l := saved cells (-1)) in *.
  destruct (stream_cells (so_kv _ _ Hd) 0) as (cd & h & Hcd & _ & Wd & Sd & _); [rewrite (cp_d _ _ Hc); lia|]. pose proof (wf_size _ Wd) as Hint'. unfold INT32_MAX, size in *.
  unfold state_read, encoding. rewrite must_bd by (by left). cbn [mbind outcome_bind]. rewrite (cp_s _ _ Hc), (cp_d _ _ Hc). cbn [seq fmap list_fmap concat]. rewrite app_nil_r, <- app_assoc.
  destruct (read_u32_ok (Z.of_nat 1) (enc_stream s N (-1) 0 ++ rest) k) as [k1 ->]; [lia|]. cbn [at_store mbind outcome_bind]. rewrite bool_decide_false by lia. cbn [foldO].
  unfold enc_stream, at_stream. rewrite Hcells. fold l. rewrite bool_decide_false by lia. unfold read_stream. rewrite <- !app_assoc.
  match goal with |- context [read_u32 (mkRb (le4 ?z ++ ?r) k1)] => destruct (read_u32_ok z r k1) as [k2 ->]; [lia|] end. cbn [at_store mbind outcome_bind]. rewrite bool_decide_false by lia.
  rewrite bool_decide_true by done. cbn [mbind outcome_bind]. rewrite Nat2Z.id. unfold state_read_meta. rewrite bool_decide_false by (by intros ?).
  destruct (read_meta_all_ok N N' s d 0 0 cells (enc_data s N 0 l ++ rest) k2 Hs Hcells Hd) as (c & k3 & E & Wc & Cc & Vc); [rewrite (cp_d _ _ Hc); lia| |apply Hc|done|].
  { intros x Hx. apply (one_stream_home N'); [apply Hd|apply Hc|]. pose proof (so_nmax _ _ Hd). lia. }
  fold l in E. rewrite E. cbn [mbind outcome_bind]. clear E.
  assert (K.n_stream c = K.n_stream (s_kv d) /\ K.v_trans c = K.v_trans (s_kv d)) as [En Et] by (by destruct Cc as (? & ? & ? & ->)).
  destruct (stream_cells Wc 0) as (c1 & h1 & Hc1 & _ & W1 & S1 & _); [rewrite En, (cp_d _ _ Hc); lia|]. destruct (clear_data_ok _ _ Hd) as (Hd0 & _ & _).
  destruct (state_read_data_ok N N' (K.n_stream (s_kv d)) s (with_kv c (clear_data d)) c1 0 0 (whole_slot 0 (length l)) l (seq 0 (length l)) rest k3) as (ls' & k4 & E & Mv); [| | | | | | |].
  - apply (saved_slot N N' 0 cells l); [done|done|intros El; rewrite El in Hpos; cbn in Hpos; lia|done].
  - done.
  - cbn [s_kv layers with_kv]. rewrite Et. exact (so_layers _ _ Hd0).
  - cbn [s_kv with_kv]. rewrite Et. apply Hc.
  - cbn [layers with_kv clear_data]. rewrite Forall2_fmap_r. eapply Forall2_impl; [apply Hc|]. apply zero_layer_match.
  - exact Hc1.
  - exact S1.
  - rewrite length_seq in E. rewrite E. cbn [mbind outcome_bind]. eexists _, k4. split; [reflexivity|]. cbn [s_kv with_kv layers clear_data] in Mv. rewrite Et in Mv.
    apply (restored_ok N N' s d cells c ls' (K.n_stream (s_kv d))); try done.
Qed.

(** With no cell in use. *)
Lemma read_empty_ok N N' s d cells rest k : store_ok N s -> store_ok N' d -> compatible s d -> K.v_cells (s_kv s) !! 0%nat = Some cells -> saved cells (-1) = [] ->
  exists k', state_read (-1) d (mkRb (encoding s N (-1) ++ rest) k) = Done (d, mkRb rest k').
Proof.
  intros Hs Hd Hc Hcells Hl. unfold state_read, encoding. rewrite must_bd by (by left). cbn [mbind outcome_bind]. rewrite (cp_s _ _ Hc), (cp_d _ _ Hc). cbn [seq fmap list_fmap concat]. rewrite app_nil_r, <- app_assoc.
  destruct (read_u32_ok (Z.of_nat 1) (enc_stream s N (-1) 0 ++ rest) k) as [k1 ->]; [lia|]. cbn [at_store mbind outcome_bind]. rewrite bool_decide_false by lia. cbn [foldO].
  unfold enc_stream, at_stream. rewrite Hcells, Hl. rewrite bool_decide_true by done. rewrite app_nil_r. unfold read_stream.
  destruct (read_u32_ok (Z.of_nat (length (@nil nat))) rest k1) as [k2 ->]; [cbn; lia|]. cbn [at_store mbind outcome_bind]. rewrite bool_decide_true by done. by exists k2.
Qed.

(** * Properties *)

(** C13: the size that is computed is the size that is written. Whatever the
    sequence (or all of them), the counting writer returns the length of one
    byte string, and the writer into a buffer writes exactly that string when it
    has the room and fails otherwise: no offset or size of the state is
    computed differently by the two. *)
Theorem state_size_exact (N : nat) (s : kv_store) (seq_id : Z) : store_ok N s -> seq_ok seq_id ->
  let out := encoding s N seq_id in
  (forall w, 0 <= w <= SIZE_MAX -> state_write s seq_id w = Done (u64_wrap (w + len out))) /\
  (forall b, wb_ok b -> state_write s seq_id b = if bool_decide (buf_size b < len out) then Throw End_of_buffer else Done (put_bytes out (len out) b)).
Proof. intros Hs Hq. exact (emits_state N s seq_id Hs Hq). Qed.

(** C12: a saved state can be restored. For caches of one stream with tensors of
    the same types and widths, and enough cells in the destination, reading the
    bytes that were written consumes all of them and gives a well-formed cache
    with the saved cells, in order: the positions, the sequences, and the key
    and value of every layer, whether the values are transposed or not. (With no
    cell in use nothing is restored: the destination keeps what it has.) *)
Theorem state_roundtrip (N N' : nat) (s d : kv_store) (size : Z) (w : llama_io_write_buffer) (rest : list byte) :
  store_ok N s -> store_ok N' d -> compatible s d -> (length (used_cells s 0) <= N')%nat -> 0 <= size ->
  state_write s (-1) (mkWb [] size 0) = Done w ->
  exists d' k, state_read (-1) d (mkRb (wb_out w ++ rest) 0) = Done (d', mkRb rest k) /\
    if bool_decide (used_cells s 0 = []) then d' = d else store_ok N' d' /\ state_content N' d' 0 = state_content N s 0.
Proof.
  intros Hs Hd Hc Hu Hz E. destruct (emits_state N s (-1) Hs) as [_ Hb]; [by left|]. rewrite Hb in E by (split; cbn; unfold SIZE_MAX; lia). case_bool_decide; [done|].
  injection E as <-. unfold put_bytes. cbn [wb_out app]. destruct (stream_cells (so_kv _ _ Hs) 0) as (cells & h & Hcells & _); [rewrite (cp_s _ _ Hc); lia|].
  unfold used_cells in *. rewrite Hcells in *. case_bool_decide as D.
  - destruct (read_empty_ok N N' s d cells rest 0 Hs Hd Hc Hcells D) as [k E]. by exists d, k.
  - destruct (read_whole_ok N N' s d cells rest 0 Hs Hd Hc Hcells) as (d' & k & E & H'); [|by exists d', k].
    split; [|done]. destruct (saved cells (-1)); [done|cbn; lia].
Qed.

End Whole.

(** * A concrete state *)

(** Two used cells of four: a 32-bit float per key, two per value, transposed. *)
Definition demo_kv_trans : K.llama_kv_cache :=
  K.mkKv 1 1 0 K.LLAMA_SWA_TYPE_NONE 1 true false true 8 [2%nat] [demo_cells] (replicate (Z.to_nat LLAMA_MAX_SEQ) 0%nat) (K.mkCopyInfo [] []).

Definition demo_bytes (n : nat) : list byte := (fun i => to_char (Z.of_nat i)) <$> seq 1 n.

Definition demo_layer : kv_layer := mkLayer 1 2 [mkKt 0 (demo_bytes 16)] [Some (mkKt 0 (demo_bytes 32))].
Definition demo_store : kv_store := mkStore demo_kv_trans 3 [demo_layer].

(** An empty cache of three cells. *)
Definition empty_layer : kv_layer := mkLayer 1 2 [mkKt 0 (replicate 12 x00)] [Some (mkKt 0 (replicate 24 x00))].
Definition demo_target_kv : K.llama_kv_cache :=
  K.mkKv 1 1 0 K.LLAMA_SWA_TYPE_NONE 1 true false true 8 [0%nat] [resize 3 cells_new] (replicate (Z.to_nat LLAMA_MAX_SEQ) 0%nat) (K.mkCopyInfo [] []).
Definition demo_target : kv_store := mkStore demo_target_kv 4 [empty_layer].

Lemma demo_kv_trans_ok : wf_kv 4 demo_kv_trans.
Proof. destruct demo_kv_wf. by split. Qed.

Lemma demo_target_kv_ok : wf_kv 3 demo_target_kv /\ forall st i, kv_view demo_target_kv st i = None.
Proof.
  apply (new_cache_wf true 3 4 1 0 K.LLAMA_SWA_TYPE_NONE 1 true false true 8); [reflexivity|unfold INT32_MAX; lia|unfold LLAMA_MAX_SEQ; lia].
Qed.

Lemma f32_typed : typed 0 1 4.
Proof. split; [unfold G.GGML_TYPE_COUNT; lia|]. split; [reflexivity|lia]. Qed.

Lemma demo_layer_ok n ks vs : length ks = (n * 4)%nat -> length vs = (2 * n * 4)%nat -> (n < 1000)%nat ->
  layer_ok 1 n true (mkLayer 1 2 [mkKt 0 ks] [Some (mkKt 0 vs)]).
Proof.
  intros Hk Hv Hn. pose proof f32_typed as F. assert (4294967296 <= T_MAX) by by_eval. split; [done|done| |].
  - intros t ->%list_elem_of_singleton. exists 1, 4. unfold len. cbn [kt_type kt_bytes n_embd_k_gqa]. split_and!; [done|lia|by exists 1|lia|done|lia].
  - intros t [= ->]%list_elem_of_singleton. exists 1, 4. unfold len. cbn [kt_type kt_bytes n_embd_v_gqa]. split_and!; [done|lia|lia|done|lia].
Qed.

Lemma demo_store_ok : store_ok 4 demo_store.
Proof.
  split; cbn [s_kv layers n_seq_max demo_store].
  - exact demo_kv_trans_ok.
  - apply Forall_singleton. by apply demo_layer_ok; [vm_compute..|lia].
  - cbn. lia.
  - unfold LLAMA_MAX_SEQ. lia.
  - intros st i p q x Hv Hx. change (kv_view demo_kv_trans st i) with (kv_view demo_kv st i) in Hv. rewrite demo_kv_view in Hv. destruct st; [|done]. rewrite demo_view in Hv.
    destruct i as [|[|i]]; [| |done]; injection Hv as <- <-; apply elem_of_singleton in Hx; lia.
Qed.

Lemma demo_target_ok : store_ok 3 demo_target.
Proof.
  destruct demo_target_kv_ok as [H V]. split; cbn [s_kv layers n_seq_max demo_target].
  - exact H.
  - apply Forall_singleton. by apply demo_layer_ok; [vm_compute..|lia].
  - cbn. lia.
  - unfold LLAMA_MAX_SEQ. lia.
  - intros st i p q x Hv. by rewrite V in Hv.
Qed.

Lemma demo_compatible : compatible demo_store demo_target.
Proof.
  split; [done|done|done| |cbn; lia]. constructor; [|constructor]. split; [done|done| |done]. by exists (mkKt 0 (demo_bytes 16)), (mkKt 0 (replicate 12 x00)).
Qed.

Lemma state_size_exact_witness :
  state_write (BM := debug_build) demo_store (-1) 0 = Done 88 /\
  state_write (BM := debug_build) demo_store (-1) (mkWb [] 87 0) = Throw End_of_buffer.
Proof.
  destruct (state_size_exact (BM := debug_build) 4 demo_store (-1) demo_store_ok (or_introl eq_refl)) as [H1 H2]. split.
  - rewrite H1 by (unfold SIZE_MAX; lia). by vm_compute.
  - rewrite H2 by (split; cbn; unfold SIZE_MAX; lia). by vm_compute.
Defined.

Lemma state_roundtrip_witness :
  exists w d' k, state_write (BM := debug_build) demo_store (-1) (mkWb [] 200 0) = Done w /\
    state_read (BM := debug_build) (-1) demo_target (mkRb (wb_out w) 0) = Done (d', mkRb [] k) /\
    state_content (BM := debug_build) 3 d' 0 = state_content (BM := debug_build) 4 demo_store 0 /\ length (state_content (BM := debug_build) 4 demo_store 0) = 2%nat.
Proof.
  destruct (state_write (BM := debug_build) demo_store (-1) (mkWb [] 200 0)) as [w|e|] eqn:E; [|by vm_compute in E..].
  assert (length (used_cells demo_store 0) = 2%nat) as Hu by (vm_compute; reflexivity).
  destruct (state_roundtrip (BM := debug_build) 4 3 demo_store demo_target 200 w [] demo_store_ok demo_target_ok demo_compatible) as (d' & k & R & C); [lia|lia|exact E|].
  rewrite app_nil_r in R. rewrite bool_decide_false in C by (intros Z0; by rewrite Z0 in Hu). exists w, d', k. split_and!; [reflexivity|exact R|apply C|vm_compute; reflexivity].
Defined.

(** Two streams, each with a sequence at position 7. *)
Definition stream_cells_of (q : Z) : llama_kv_cells := default cells_new (c ← pos_set (BM := debug_build) 0 7 (resize 2 cells_new); KvCells.Cells.seq_add (BM := debug_build) 0 q c).
Definition two_streams : kv_store :=
  mkStore (K.mkKv 2 1 0 K.LLAMA_SWA_TYPE_NONE 1 true false false 8 [0%nat; 0%nat] [stream_cells_of 0; stream_cells_of 1] [0%nat; 1%nat] (K.mkCopyInfo [] [])) 2 [].

Definition in_use (s : kv_store) (st : nat) : bool := match kv_view (s_kv s) st 0 with Some _ => true | None => false end.

(** Restoring a whole cache of two streams clears the first when it restores
    the second. *)
Example whole_restore_loses_streams :
  match state_write (BM := debug_build) two_streams (-1) (mkWb [] 200 0) with
  | Done w => match state_read (BM := debug_build) (-1) two_streams (mkRb (wb_out w) 0) with
              | Done (d, r) => Some (in_use two_streams 0, in_use two_streams 1, in_use d 0, in_use d 1, length (rb_ptr r))
              | _ => None
              end
  | _ => None
  end = Some (true, true, false, true, 0%nat).
Proof. by vm_compute. Qed.

(** Restoring the file of an empty cache keeps what the destination has. *)
Example empty_restore_keeps :
  match state_write (BM := debug_build) demo_target (-1) (mkWb [] 200 0) with
  | Done w => match state_read (BM := debug_build) (-1) demo_store (mkRb (wb_out w) 0) with
              | Done (d, r) => Some (in_use d 0)
              | _ => None
              end
  | _ => None
  end = Some true.
Proof. by vm_compute. Qed.

End KvRoundtrip.
