(* ===== verification/KvSeqState.v ===== *)
(** Saving one sequence and restoring it as another: the cells go wherever the
    destination has room. *)

From S2P Require Import Prelude.
From S2P Require Import KvCells.
From S2P Require Import Memory.
From S2P Require Import Batch.
From S2P Require Import KvCache.
From S2P Require Import KvOps.
From S2P Require Import KvSlot.
From S2P Require Import KvPrepare.
From S2P Require Import Bytes.
From S2P Require Import TensorAlloc.
From S2P Require Import TensorAllocOk.
From S2P Require Import GgmlTensor.
From S2P Require Import GgmlTensorOk.
From S2P Require Import KvState.
From S2P Require Import KvSave.
From S2P Require Import KvRestore.
From S2P Require Import KvReload.
From S2P Require Import KvRoundtrip.
From S2P Require Import KvConsume.
Import KvCells.Cells KvOps.KvOps KvState.KvState KvSave.KvSave KvRestore.KvRestore KvReload.KvReload KvRoundtrip.KvRoundtrip KvConsume.KvConsume.
Import TensorAlloc.TensorAlloc TensorAllocOk.TensorAllocOk GgmlTensorOk.GgmlTensorOk.
Module S := KvSlot.KvSlot.
Module P := KvPrepare.KvPrepare.

Module KvSeqState.
Local Open Scope Z_scope.
Section SeqState.
Context `{BM : BuildMode}.

(** * The cells of one sequence *)

Definition pos_of (cells : llama_kv_cells) (i : nat) : Z := match view cells i with Some (p, _) => p | None => 0 end.

Lemma ids_of_one nmax q ids : 0 <= q < Z.of_nat nmax -> q ∈ ids -> ids_of nmax q ids = [q].
Proof.
  intros Hq Hin. unfold ids_of. apply Permutation_singleton_r, NoDup_Permutation; [apply NoDup_filter, NoDup_seqZ|apply NoDup_singleton|].
  intros x. rewrite list_elem_of_filter, elem_of_seqZ, list_elem_of_singleton. split; [intros [[[?|?] _] _]; [done|lia]|intros ->; split; [by split; [left|]|lia]].
Qed.

Lemma enc_seq nmax q cells : 0 <= q < Z.of_nat nmax ->
  concat (enc_cell nmax q cells <$> saved cells q) = concat ((fun p => enc_ids p [q]) <$> (pos_of cells <$> saved cells q)).
Proof.
  intros Hq. assert (Forall (fun i => i ∈ saved cells q) (saved cells q)) as F by (by apply Forall_forall). revert F. generalize (saved cells q) at 2 3 4. intros l0 F.
  induction F as [|i l Hi _ IH]; [done|]. rewrite !fmap_cons. cbn [concat]. rewrite IH. f_equal. apply saved_view in Hi as (_ & p & ids & Hv & [?|Hin]); [lia|].
  unfold enc_cell, pos_of. by rewrite Hv, ids_of_one.
Qed.

(** ** The ubatch that is built from them *)

(** [ps] are the positions read so far, of [count]. *)
Definition seq_ubatch (np count : nat) (dest : Z) (idx : list Z) (ps : list Z) : B.llama_ubatch :=
  B.mkUbatch true count count 1 1 np (Some (replicate count 0)) None
    (ps ++ replicate (count - length ps) 0) (replicate (length ps) 1 ++ replicate (count - length ps) 0)
    (replicate (length ps) [dest] ++ replicate (count - length ps) []) [dest] idx (replicate count 0).

Lemma set_at_middle {A} i (x y : A) l1 l2 : i = length l1 -> set_at i y (l1 ++ x :: l2) = Some (l1 ++ y :: l2).
Proof.
  intros ->. rewrite set_at_ok by (rewrite length_app; cbn; lia). f_equal. replace (length l1) with (length l1 + 0)%nat by lia. by rewrite insert_app_r.
Qed.

Lemma replicate_snoc {A} n (x : A) l : replicate n x ++ x :: l = replicate (S n) x ++ l.
Proof. change (x :: l) with ([x] ++ l). by rewrite app_assoc, <- replicate_cons_app. Qed.

Lemma read_seq_cells_ok np count dest idx q rest : 0 <= q <= INT32_MAX -> forall qs ps k, (length ps + length qs = count)%nat -> Forall (fun p => 0 <= p <= INT32_MAX) qs ->
  exists k', read_seq_cells dest (seq (length ps) (length qs)) (seq_ubatch np count dest idx ps, mkRb (concat ((fun p => enc_ids p [q]) <$> qs) ++ rest) k) =
    Done (Some (seq_ubatch np count dest idx (ps ++ qs), mkRb rest k')).
Proof.
  intros Hq. induction qs as [|p qs IH]; intros ps k Hl Hqs; [exists k; by rewrite app_nil_r|]. cbn [length] in Hl. apply Forall_cons in Hqs as [Hp Hqs].
  cbn [length seq read_seq_cells fmap list_fmap concat]. unfold read_seq_cell, enc_ids. cbn [length fmap list_fmap concat]. rewrite <- !app_assoc, app_nil_l.
  match goal with |- context [read_i32 (mkRb (le4 p ++ ?r) k)] => destruct (read_i32_ok p r k Hp) as [k1 ->] end. cbn [mbind outcome_bind].
  match goal with |- context [read_u32 (mkRb (le4 ?z ++ ?r) k1)] => destruct (read_u32_ok z r k1) as [k2 ->]; [lia|] end. cbn [mbind outcome_bind]. rewrite bool_decide_false by lia.
  match goal with |- context [read_i32 (mkRb (le4 q ++ ?r) k2)] => destruct (read_i32_ok q r k2 Hq) as [k3 ->] end. cbn [mbind outcome_bind].
  cbn [seq_ubatch B.u_pos B.u_n_seq_id B.u_seq_id]. replace (count - length ps)%nat with (S (length qs)) by lia. cbn [replicate].
  do 3 (rewrite (set_at_middle (length ps)) by (by rewrite ?length_replicate); cbn [of_option mbind outcome_bind]).
  destruct (IH (ps ++ [p]) k3) as [k4 E]; [rewrite length_app; cbn; lia|done|]. exists k4. rewrite length_app, Nat.add_1_r in E. rewrite <- app_assoc in E. cbn [app] in E. rewrite <- E.
  unfold seq_ubatch. rewrite !length_app. cbn [length]. replace (count - (length ps + 1))%nat with (length qs) by lia. rewrite Nat.add_1_r, <- app_assoc. cbn [app].
  change (Z.of_nat 1) with 1. by rewrite !replicate_snoc.
Qed.

Lemma reserve_ok np count : exists idx a, B.ubatch_reserve count 1 (B.new_allocr np) =
  Some (B.mkUbatch true count count 1 1 np (Some (replicate count 0)) None (replicate count 0) (replicate count 0) (replicate count []) [0] idx (replicate count 0), a).
Proof.
  unfold B.ubatch_reserve. cbn [seq foldM]. rewrite set_at_ok by (rewrite B.length_seq_idx0; unfold LLAMA_MAX_SEQ; lia). cbn [mbind option_bind]. rewrite Nat.mul_1_r. by eexists _, _.
Qed.

(** The ubatch is one the cache can place. *)
Lemma seq_placeable c dest b idx ps : home c dest = Some b -> ps <> [] -> Forall (fun p => 0 <= p < INT32_MAX) ps -> K.n_pos c = 1%nat ->
  P.placeable c (seq_ubatch (K.n_pos c) (length ps) dest idx ps) 1 (length ps).
Proof.
  intros Hh Hne Hps Hnp. assert (0 < length ps)%nat as Hlen by (destruct ps; [done|cbn; lia]).
  assert (forall t, (t < length ps)%nat -> (replicate (length ps) [dest] ++ replicate (length ps - length ps) []) !! t = Some [dest]) as Hs.
  { intros t Ht. rewrite lookup_app_l by (by rewrite length_replicate). by apply lookup_replicate_2. }
  assert (forall t, (t < length ps)%nat -> (replicate (length ps) 1 ++ replicate (length ps - length ps) 0) !! t = Some 1) as Hn.
  { intros t Ht. rewrite lookup_app_l by (by rewrite length_replicate). by apply lookup_replicate_2. }
  split; [split|]; cbn [seq_ubatch B.u_n_tokens B.u_n_seqs_unq B.u_seq_id_unq B.u_n_seq_id B.u_seq_id].
  - lia.
  - lia.
  - done.
  - intros _. split; [done|]. intros [|s] id Hs' Hid; [|lia]. injection Hid as <-. rewrite Hn, Hs by lia. split; [done|by exists []].
  - intros [|s] Hs'; [|lia]. by exists dest, b.
  - apply NoDup_singleton.
  - intros [|s] j id st Hs' Hj Hid Hst; [|lia]. injection Hid as <-. assert (st = b) as -> by congruence. cbn [Nat.mul Nat.add].
    destruct (lookup_lt_is_Some_2 ps j Hj) as [p Hp]. exists p, [dest]. cbn [seq_ubatch B.u_pos B.u_seq_id B.u_n_seq_id].
    split_and!; [by rewrite lookup_app_l| | |by apply Hs|by apply Hn|done|apply NoDup_singleton|by intros ? ->%list_elem_of_singleton|].
    1,2: rewrite Forall_forall in Hps; apply (Hps p); by eapply list_elem_of_lookup_2.
    unfold B.is_pos_2d. cbn [seq_ubatch B.u_n_pos]. rewrite Hnp. by rewrite bool_decide_false by lia.
Qed.

(** * Finding room *)

(** The sequence without its cells. *)
Lemma plain_rm N c dest b : P.plain N c -> home c dest = Some b ->
  exists c1, K.seq_rm dest (-1) (-1) c = Some (c1, true) /\ P.plain N c1 /\ same_config c c1 /\
    forall st i, kv_view c1 st i = if decide (st = b) then cell_rm dest 0 INT32_MAX (kv_view c st i) else kv_view c st i.
Proof.
  intros Hp Hh. destruct (kv_seq_rm_ok N c dest (-1) (-1) b (P.pn_wf _ _ Hp) Hh) as (c1 & E & W & C & V). exists c1. split; [done|]. split; [|done].
  destruct (P.same_config_fields c c1 C) as (_ & Hn & Hty & _). split; [done|by rewrite Hn, Hty; apply Hp|apply Hp| |].
  - intros st i p q Hv. rewrite V in Hv. case_decide as D; [|by apply (P.pn_room _ _ Hp st i p q)]. destruct (kv_view c st i) as [[p' q']|] eqn:E'; [|done].
    pose proof (P.pn_room _ _ Hp st i p' q' E'). unfold cell_rm in Hv. cbn [mbind option_bind] in Hv. repeat case_decide; simplify_eq; done.
  - eapply S.seq_rm_kv_unshifted; [apply Hp|done|done|apply Hp].
Qed.

(** The check after the cells are placed. *)
Lemma check_cells_ok u cells row dest : wf cells -> 0 <= dest < LLAMA_MAX_SEQ ->
  (forall j, (j < length row)%nat -> exists i p, row !! j = Some i /\ B.u_pos u !! j = Some p /\ view cells i = Some (p, {[dest]})) ->
  foldM (check_cell u cells row dest) (seq 0 (length row)) tt = Some tt.
Proof.
  intros Hw Hd H. assert (forall m a, (a + m <= length row)%nat -> foldM (check_cell u cells row dest) (seq a m) tt = Some tt) as G; [|by apply G].
  induction m as [|m IH]; intros a Ha; [done|]. cbn [seq foldM]. assert (check_cell u cells row dest a tt = Some tt) as ->; [|cbn [mbind option_bind]; apply IH; lia].
  destruct (H a) as (i & p & Hr & Hp & Hv); [lia|]. unfold check_cell. rewrite Hr. cbn [mbind option_bind].
  rewrite (pos_get_spec _ _ _ _ Hv), Hp. cbn [mbind option_bind]. rewrite ggml_assert_bd by done. cbn [mbind option_bind].
  rewrite seq_has_spec, Hv by (done || by eapply view_size). cbn [mbind option_bind]. apply ggml_assert_bd. set_solver.
Qed.

(** The cells that hold the sequence now. *)
Record placed_at (N : nat) (c1 c2 : K.llama_kv_cache) (b : nat) (dest : Z) (qs : list Z) (si : K.slot_info) (row : list nat) : Prop := {
  pa_row   : K.idxs si = [row];
  pa_len   : length row = length qs;
  pa_nd    : NoDup row;
  pa_free  : forall i, i ∈ row -> (i < N)%nat /\ kv_view c1 b i = None;
  pa_plain : P.plain N c2;
  pa_cfg   : same_config c1 c2;
  pa_new   : forall j i p, row !! j = Some i -> qs !! j = Some p -> kv_view c2 b i = Some (p, {[dest]});
  pa_old   : forall st i, ~ (st = b /\ i ∈ row) -> kv_view c2 st i = kv_view c1 st i;
}.

Lemma place_seq_ok N c1 dest b idx qs : P.plain N c1 -> home c1 dest = Some b -> K.n_pos c1 = 1%nat -> qs <> [] -> Forall (fun p => 0 <= p < INT32_MAX) qs ->
  exists si, K.find_slot c1 (seq_ubatch (K.n_pos c1) (length qs) dest idx qs) false = Some si /\
    if decide (length qs <= length (P.free_cells N c1 b))%nat
    then K.slot_empty si = false /\ K.slot_n_stream si = 1%nat /\ exists row c2, K.apply_ubatch si (seq_ubatch (K.n_pos c1) (length qs) dest idx qs) c1 = Some c2 /\ placed_at N c1 c2 b dest qs si row
    else K.slot_empty si = true.
Proof.
  intros Hp Hh Hnp Hne Hqs. set (u := seq_ubatch (K.n_pos c1) (length qs) dest idx qs). pose proof (seq_placeable c1 dest b idx qs Hh Hne Hqs Hnp) as Hpl. fold u in Hpl.
  destruct (S.find_slot_ok N c1 u false 1 (length qs) (P.pn_wf _ _ Hp) (P.pl_fits _ _ _ _ Hpl) (P.plain_search N c1 Hp)) as (si & E & R). exists si. split; [done|].
  destruct R as [(He & _ & j & id & st & cells & Hj & Hid & Hst & Hc & Hno)|(He & Hsf & Hids & _)].
  - assert (j = 0%nat) as -> by lia. injection Hid as <-. assert (st = b) as -> by congruence. pose proof (P.no_cells_free N c1 b cells _ Hp Hc Hno). by rewrite decide_False by lia.
  - destruct (lookup_lt_is_Some_2 (K.strm si) 0) as [st Hst]; [rewrite (S.sf_strm _ _ _ _ _ Hsf); lia|]. destruct (lookup_lt_is_Some_2 (K.idxs si) 0) as [row Hrow]; [rewrite (S.sf_idxs _ _ _ _ _ Hsf); lia|].
    destruct (Hids 0%nat st Hst) as (id & Hid & Hst'). injection Hid as <-. assert (st = b) as -> by congruence. destruct (S.sf_row _ _ _ _ _ Hsf 0%nat b row Hst Hrow) as (_ & Hlen & Hnd & Hin).
    assert (forall i, i ∈ row -> (i < N)%nat /\ kv_view c1 b i = None) as Hfree.
    { intros i Hi. destruct (Hin i Hi) as (? & cells & Hc & Hu). split; [done|]. rewrite (view_kv b cells) by done. by apply (P.plain_usable N c1). }
    rewrite decide_True. 2: { rewrite <- Hlen. apply submseteq_length, NoDup_submseteq; [done|]. intros i Hi. by apply P.elem_of_free, Hfree. }
    split; [done|]. split; [exact (S.sf_strm _ _ _ _ _ Hsf)|]. destruct (P.apply_fills N c1 u si 1 (length qs) Hp Hpl Hsf Hids) as (c2 & E2 & P2 & C2 & F1 & F2). exists row, c2. split; [done|].
    pose proof (S.sf_strm _ _ _ _ _ Hsf) as Ls. pose proof (S.sf_idxs _ _ _ _ _ Hsf) as Li.
    assert (K.idxs si = [row]) as Hrows by (destruct (K.idxs si) as [|? []]; simplify_eq/=; done).
    split; try done.
    + intros j i p Hj Hq. destruct (F1 0%nat j b i) as [_ ->]; [split; [done|by exists row]|]. unfold S.tok_cell. cbn [Nat.mul Nat.add u seq_ubatch B.u_pos B.u_seq_id].
      pose proof (lookup_lt_Some _ _ _ Hq). rewrite (lookup_app_l qs) by done. rewrite Hq. cbn [mbind option_bind]. rewrite lookup_app_l by (by rewrite length_replicate). rewrite lookup_replicate_2 by done. cbn [mbind option_bind list_to_set].
      by rewrite union_empty_r_L.
    + intros st i Hsi. apply F2. intros s j (Hs & row' & Hr & Hj). rewrite Hrows in Hr. apply list_lookup_singleton_Some in Hr as [-> <-]. apply Hsi. split; [congruence|by eapply list_elem_of_lookup_2].
Qed.

Lemma read_meta_seq_ok N d b dest q qs rest k : P.plain N (s_kv d) -> home (s_kv d) dest = Some b -> K.n_pos (s_kv d) = 1%nat -> qs <> [] -> Forall (fun p => 0 <= p < INT32_MAX) qs -> 0 <= q <= INT32_MAX ->
  exists c1, K.seq_rm dest (-1) (-1) (s_kv d) = Some (c1, true) /\ P.plain N c1 /\ same_config (s_kv d) c1 /\
    (forall st i, kv_view c1 st i = if decide (st = b) then cell_rm dest 0 INT32_MAX (kv_view (s_kv d) st i) else kv_view (s_kv d) st i) /\
    if decide (length qs <= length (P.free_cells N c1 b))%nat
    then exists si row c2 k', read_meta_seq b (length qs) dest d (mkRb (concat ((fun p => enc_ids p [q]) <$> qs) ++ rest) k) = Done (Some (si, with_kv c2 d), mkRb rest k', with_kv c2 d) /\
           placed_at N c1 c2 b dest qs si row
    else exists k', read_meta_seq b (length qs) dest d (mkRb (concat ((fun p => enc_ids p [q]) <$> qs) ++ rest) k) = Done (None, mkRb rest k', with_kv c1 d).
Proof.
  intros Hp Hh Hnp Hne Hqs Hq. destruct (plain_rm N (s_kv d) dest b Hp Hh) as (c1 & E & P1 & C1 & V1). exists c1. do 4 (split; [done|]).
  assert (K.n_pos c1 = 1%nat) as Hnp1 by (by destruct C1 as (? & ? & ? & ->)). assert (home c1 dest = Some b) as Hh1 by (by rewrite (home_config _ _ _ C1)).
  unfold read_meta_seq. rewrite E. cbn [of_option mbind outcome_bind s_kv with_kv]. destruct (reserve_ok (K.n_pos c1) (length qs)) as (idx & a & ->). cbn [of_option mbind outcome_bind B.u_seq_id_unq]. rewrite set_at_ok by (cbn; lia).
  cbn [of_option mbind outcome_bind B.u_equal_seqs B.u_n_tokens B.u_n_seq_tokens B.u_n_seqs B.u_n_seqs_unq B.u_n_pos B.u_token B.u_embd B.u_pos B.u_n_seq_id B.u_seq_id B.u_seq_idx B.u_output].
  destruct (read_seq_cells_ok (K.n_pos c1) (length qs) dest idx q rest Hq qs [] k) as [k1 R]; [done|eapply Forall_impl; [exact Hqs|]; cbn; lia|]. cbn [length] in R. unfold seq_ubatch in R at 1. cbn [length app] in R. rewrite Nat.sub_0_r in R.
  change (<[0%nat:=dest]> [0]) with [dest]. cbn [replicate app] in R. rewrite R. cbn [at_store mbind outcome_bind]. destruct (place_seq_ok N c1 dest b idx qs P1 Hh1 Hnp1 Hne Hqs) as (si & -> & F). cbn [of_option mbind outcome_bind].
  case_decide as D.
  - destruct F as (-> & Hns & row & c2 & -> & Hpa). cbn [of_option mbind outcome_bind]. exists si, row, c2, k1. split; [|done]. pose proof (pa_row _ _ _ _ _ _ _ _ Hpa) as Hrow. pose proof (pa_len _ _ _ _ _ _ _ _ Hpa) as Hlen.
    assert (K.n_stream c2 = K.n_stream (s_kv d)) as Hn2 by (destruct (pa_cfg _ _ _ _ _ _ _ _ Hpa) as (? & ? & ? & ->); by destruct C1 as (? & ? & ? & ->)).
    destruct (home_range (P.pn_wf _ _ Hp) _ _ Hh) as (Hd & Hb & _). destruct (stream_cells (P.pn_wf _ _ (pa_plain _ _ _ _ _ _ _ _ Hpa)) b) as (cells & h & Hc & _ & Hw & _); [by rewrite Hn2|].
    rewrite Hc. cbn [of_option mbind outcome_bind]. rewrite must_bd by done. cbn [mbind outcome_bind]. rewrite Hrow. cbn [lookup list_lookup of_option mbind outcome_bind]. rewrite must_bd by done. cbn [mbind outcome_bind].
    rewrite <- Hlen, check_cells_ok; [done|done|done|]. intros j Hj. destruct (lookup_lt_is_Some_2 row j Hj) as [i Hi]. destruct (lookup_lt_is_Some_2 qs j) as [p Hpj]; [lia|]. exists i, p. split_and!; [done| |].
    + cbn [seq_ubatch B.u_pos app]. by rewrite lookup_app_l by lia.
    + rewrite <- (view_kv b cells) by done. by apply (pa_new _ _ _ _ _ _ _ _ Hpa j).
  - rewrite F. by exists k1.
Qed.

(** * The streams of the file *)

Lemma saved_other N s a q st cells : store_ok N s -> home (s_kv s) q = Some a -> K.v_cells (s_kv s) !! st = Some cells -> st <> a -> saved cells q = [].
Proof.
  intros Hs Hh Hc Hst. destruct (home_range (so_kv _ _ Hs) _ _ Hh) as (Hq & _ & _). destruct (saved cells q) as [|i l] eqn:E; [done|]. exfalso. apply Hst.
  destruct (saved_view cells q i) as (_ & p & ids & Hv & [?|Hin]); [rewrite E; set_solver|lia|]. rewrite <- (view_kv st cells i Hc) in Hv.
  destruct (kw_own _ _ (so_kv _ _ Hs) st i p ids Hv) as [_ Ho]. specialize (Ho q Hin). congruence.
Qed.

Lemma skip_stream N s q st cells dest d rest k : K.v_cells (s_kv s) !! st = Some cells -> saved cells q = [] ->
  exists k', read_stream dest st (d, mkRb (enc_stream s N q st ++ rest) k) = Done (d, mkRb rest k').
Proof.
  intros Hc Hl. unfold enc_stream, at_stream. rewrite Hc, Hl. rewrite bool_decide_true by done. rewrite app_nil_r. unfold read_stream.
  destruct (read_u32_ok (Z.of_nat (length (@nil nat))) rest k) as [k1 ->]; [cbn; lia|]. cbn [at_store mbind outcome_bind]. rewrite bool_decide_true by done. by exists k1.
Qed.

Lemma skip_streams N s a q dest d rest : store_ok N s -> home (s_kv s) q = Some a -> forall l k, a ∉ l -> Forall (fun st => st < K.n_stream (s_kv s))%nat l ->
  exists k', foldO (read_stream dest) l (d, mkRb (concat (enc_stream s N q <$> l) ++ rest) k) = Done (d, mkRb rest k').
Proof.
  intros Hs Hh. induction l as [|st l IH]; intros k Ha Hl; [by exists k|]. apply Forall_cons in Hl as [Hst Hl]. apply not_elem_of_cons in Ha as [Hne Ha]. rewrite fmap_cons. cbn [concat foldO]. rewrite <- app_assoc.
  destruct (stream_cells (so_kv _ _ Hs) st Hst) as (cells & h & Hc & _).
  destruct (skip_stream N s q st cells dest d (concat (enc_stream s N q <$> l) ++ rest) k Hc) as [k1 ->]; [by eapply saved_other; eauto|]. by apply IH.
Qed.

(** * The content of a sequence *)

(** Position, keys and values of a cell of sequence [q]. *)
Definition seq_cell (N : nat) (s : kv_store) (a : nat) (q : Z) (i : nat) : option (Z * list (list byte) * list (list byte)) :=
  '(p, ids) ← kv_view (s_kv s) a i;
  if decide (q ∈ ids) then Some (p, k_row a i <$> layers s, v_row (K.v_trans (s_kv s)) N a i <$> layers s) else None.

Definition seq_content (N : nat) (s : kv_store) (a : nat) (q : Z) : list (Z * list (list byte) * list (list byte)) :=
  omap (seq_cell N s a q) (seq 0 N).

Lemma seq_content_saved N s a q cells : K.v_cells (s_kv s) !! a = Some cells -> size cells = N -> 0 <= q -> seq_content N s a q = omap (seq_cell N s a q) (saved cells q).
Proof.
  intros Hc Hs Hq. unfold seq_content, saved. rewrite Hs, omap_filter; [done|]. intros i Hk. unfold seq_cell, kv_view. rewrite Hc. cbn [mbind option_bind].
  unfold kept in Hk. destruct (view cells i) as [[p ids]|]; [|done]. cbn [mbind option_bind]. rewrite decide_False by tauto. done.
Qed.

(** [d'] is [d] with the content of sequence [q] of stream [a] of [s] as sequence
    [dest] in stream [b]; nothing else has changed. *)
Record restored (N N' : nat) (s d : kv_store) (a b : nat) (q dest : Z) (d' : kv_store) : Prop := {
  rs_ok      : store_ok N' d';
  rs_content : seq_content N' d' b dest ≡ₚ seq_content N s a q;
  rs_others  : forall st i t p, t <> dest -> has (kv_view (s_kv d') st i) t p <-> has (kv_view (s_kv d) st i) t p;
  rs_data    : forall st i t p, t <> dest -> has (kv_view (s_kv d) st i) t p ->
                 k_row st i <$> layers d' = k_row st i <$> layers d /\ v_row (K.v_trans (s_kv d)) N' st i <$> layers d' = v_row (K.v_trans (s_kv d)) N' st i <$> layers d;
}.

(** The file of one sequence can be read into [d]. *)
Record seq_compatible (N' : nat) (s d : kv_store) (a b : nat) (q dest : Z) : Prop := {
  sc_src    : home (s_kv s) q = Some a;
  sc_dst    : home (s_kv d) dest = Some b;
  sc_stream : K.n_stream (s_kv s) = K.n_stream (s_kv d);
  sc_trans  : K.v_trans (s_kv s) = K.v_trans (s_kv d);
  sc_layers : Forall2 (layer_match a b) (layers s) (layers d);
  sc_nmax   : q < Z.of_nat (n_seq_max s) /\ dest < Z.of_nat (n_seq_max d);
  sc_plain  : P.plain N' (s_kv d);
  sc_npos   : K.n_pos (s_kv d) = 1%nat;
  sc_room   : forall st i p ids, kv_view (s_kv s) st i = Some (p, ids) -> p < INT32_MAX;
}.

(** Removing a sequence from a cell. *)
Lemma has_removed o dest t p : (forall p ids, o = Some (p, ids) -> 0 <= p < INT32_MAX) -> has (cell_rm dest 0 INT32_MAX o) t p <-> has o t p /\ t <> dest.
Proof.
  intros Hp. rewrite has_rm. split; intros [H1 H2]; (split; [done|]); [|by intros [-> _]]. intros ->. apply H2. split; [done|]. destruct H1 as (ids & -> & _). exact (Hp _ _ eq_refl).
Qed.

Lemma others_rm N d dest b c1 st i t p : P.plain N (s_kv d) -> home (s_kv d) dest = Some b ->
  (forall st i, kv_view c1 st i = if decide (st = b) then cell_rm dest 0 INT32_MAX (kv_view (s_kv d) st i) else kv_view (s_kv d) st i) ->
  has (kv_view c1 st i) t p <-> has (kv_view (s_kv d) st i) t p /\ t <> dest.
Proof.
  intros Hp Hh V. rewrite V. case_decide as D.
  - apply has_removed. intros p' ids Hv. pose proof (S.kv_view_pos _ _ _ _ _ _ (P.pn_wf _ _ Hp) Hv). pose proof (P.pn_room _ _ Hp _ _ _ _ Hv). lia.
  - split; [|by intros [? _]]. intros H. split; [done|]. intros ->. destruct H as (ids & Hv & Hin). destruct (kw_own _ _ (P.pn_wf _ _ Hp) st i p ids Hv) as [_ Ho]. specialize (Ho dest Hin). congruence.
Qed.

Lemma elem_of_saved N s a cells q i : store_ok N s -> 0 <= q -> K.v_cells (s_kv s) !! a = Some cells -> i ∈ saved cells q -> (i < N)%nat /\ has (kv_view (s_kv s) a i) q (pos_of cells i).
Proof.
  intros Hs Hq Hc (Hi & p & ids & Hv & [?|Hin])%saved_view; [lia|]. destruct (kw_wf _ _ (so_kv _ _ Hs) _ _ Hc) as [_ Hsz]. split; [lia|].
  exists ids. unfold pos_of. rewrite Hv. by rewrite (view_kv a cells).
Qed.

(** After the cells are placed and the data is read. *)
Lemma seq_restored_ok N N' s d a b q dest cells c1 c2 si row ls' : store_ok N s -> store_ok N' d -> seq_compatible N' s d a b q dest -> K.v_cells (s_kv s) !! a = Some cells ->
  same_config (s_kv d) c1 -> (forall st i, kv_view c1 st i = if decide (st = b) then cell_rm dest 0 INT32_MAX (kv_view (s_kv d) st i) else kv_view (s_kv d) st i) ->
  placed_at N' c1 c2 b dest (pos_of cells <$> saved cells q) si row ->
  Forall3 (layer_moved (K.n_stream (s_kv d)) N N' (K.v_trans (s_kv d)) (saved cells q) row a b) (layers s) (layers d) ls' ->
  restored N N' s d a b q dest (mkStore c2 (n_seq_max d) ls').
Proof.
  intros Hs Hd Hc Hcells C1 V1 Hpa Hmv. destruct (kw_wf _ _ (so_kv _ _ Hs) _ _ Hcells) as [_ Hsz]. destruct (home_range (so_kv _ _ Hs) _ _ (sc_src _ _ _ _ _ _ _ Hc)) as (Hq & _ & _).
  pose proof (same_config_trans _ _ _ C1 (pa_cfg _ _ _ _ _ _ _ _ Hpa)) as C2. assert (K.n_stream c2 = K.n_stream (s_kv d) /\ K.v_trans c2 = K.v_trans (s_kv d)) as [En Et] by (by destruct C2 as (? & ? & ? & ->)).
  destruct (moved_layers _ _ _ _ _ _ _ _ _ _ _ Hmv) as [Hlok Hll]. pose proof (others_rm N' d dest b c1) as Hrm. pose proof (pa_len _ _ _ _ _ _ _ _ Hpa) as Hlen. rewrite length_fmap in Hlen.
  assert (forall st i t p, has (kv_view (s_kv d) st i) t p -> t <> dest -> ~ (st = b /\ i ∈ row)) as Hfree.
  { intros st i t p Hhas Ht [-> Hi]. destruct (pa_free _ _ _ _ _ _ _ _ Hpa i Hi) as [_ Hnone]. assert (has (kv_view c1 b i) t p) as (? & Hv & _); [|by rewrite Hnone in Hv]. apply Hrm; [apply Hc|apply Hc|done|done]. }
  split.
  - split; cbn [s_kv n_seq_max layers]; [apply (pa_plain _ _ _ _ _ _ _ _ Hpa)|by rewrite En, Et|rewrite Hll; apply Hd|apply Hd|].
    intros st i p ids x Hv Hx. destruct (decide (st = b /\ i ∈ row)) as [[-> Hi]|Hn].
    + apply list_elem_of_lookup in Hi as [j Hj]. destruct (lookup_lt_is_Some_2 (pos_of cells <$> saved cells q) j) as [p' Hp']; [rewrite length_fmap, <- Hlen; by eapply lookup_lt_Some|].
      rewrite (pa_new _ _ _ _ _ _ _ _ Hpa j i p' Hj Hp') in Hv. simplify_eq. apply elem_of_singleton in Hx as ->. apply Hc.
    + rewrite (pa_old _ _ _ _ _ _ _ _ Hpa) in Hv by done. assert (has (kv_view c1 st i) x p) as Hhas by (by exists ids). apply Hrm in Hhas as [(ids' & Hv' & Hx') _]; [|apply Hc|apply Hc|done]. by eapply (so_seqs _ _ Hd).
  - unfold seq_content. rewrite <- (omap_filter _ (fun i => i ∈ row)). 2: { intros i Hi. unfold seq_cell. cbn [s_kv]. rewrite (pa_old _ _ _ _ _ _ _ _ Hpa) by tauto.
      destruct (kv_view c1 b i) as [[p ids]|] eqn:Hv; [|done]. cbn [mbind option_bind]. rewrite decide_False; [done|]. intros Hin. assert (has (kv_view c1 b i) dest p) as Hhas by (by exists ids).
      apply Hrm in Hhas as [_ ?]; [done|apply Hc|apply Hc|done]. }
    fold (seq_content N s a q). rewrite (seq_content_saved N s a q cells) by (done || lia). rewrite (omap_pairs (seq_cell N s a q) (seq_cell N' (mkStore c2 (n_seq_max d) ls') b dest) (saved cells q) row).
    { apply omap_Permutation, NoDup_Permutation; [apply NoDup_filter, NoDup_seq|apply (pa_nd _ _ _ _ _ _ _ _ Hpa)|]. intros i. rewrite list_elem_of_filter, elem_of_seq. split; [tauto|]. intros Hi. destruct (pa_free _ _ _ _ _ _ _ _ Hpa i Hi). split; [done|lia]. }
    apply Forall2_same_length_lookup_2; [done|]. intros j i i' Hi Hi'. pose proof (moved_content _ _ _ _ _ _ _ _ _ _ _ (eq_sym Hlen) Hmv) as F. destruct (Forall2_lookup_lr _ _ _ _ _ _ F Hi Hi') as [E1 E2].
    destruct (elem_of_saved N s a cells q i Hs ltac:(lia) Hcells) as (_ & ids & Hv & Hin); [by eapply list_elem_of_lookup_2|]. unfold seq_cell. cbn [s_kv layers]. rewrite Hv. cbn [mbind option_bind]. rewrite decide_True by done.
    rewrite (pa_new _ _ _ _ _ _ _ _ Hpa j i' (pos_of cells i) Hi') by (by rewrite list_lookup_fmap, Hi). cbn [mbind option_bind]. rewrite decide_True by set_solver. by rewrite Et, (sc_trans _ _ _ _ _ _ _ Hc), E1, E2.
  - intros st i t p Ht. cbn [s_kv]. destruct (decide (st = b /\ i ∈ row)) as [[-> Hi]|Hn].
    + split; intros Hhas; [|by destruct (Hfree b i t p Hhas Ht)]. apply list_elem_of_lookup in Hi as [j Hj]. destruct (lookup_lt_is_Some_2 (pos_of cells <$> saved cells q) j) as [p' Hp']; [rewrite length_fmap, <- Hlen; by eapply lookup_lt_Some|].
      destruct Hhas as (ids & Hv & Hin). rewrite (pa_new _ _ _ _ _ _ _ _ Hpa j i p' Hj Hp') in Hv. simplify_eq. by apply elem_of_singleton in Hin.
    + rewrite (pa_old _ _ _ _ _ _ _ _ Hpa) by done. rewrite Hrm; [|apply Hc|apply Hc|done]. tauto.
  - intros st i t p Ht Hhas. cbn [layers]. pose proof (Hfree st i t p Hhas Ht) as Hn. assert (i < N')%nat as Hi.
    { destruct Hhas as (ids & Hv & _). unfold kv_view in Hv. destruct (K.v_cells (s_kv d) !! st) as [cs|] eqn:Ecs; [|done]. destruct (kw_wf _ _ (so_kv _ _ Hd) _ _ Ecs) as [_ <-]. by eapply view_size. }
    clear - Hmv Hn Hi. induction Hmv as [|ls ld ld' src cur cur' M _ IH]; [done|]. destruct (mv_rest _ _ _ _ _ _ _ _ _ _ _ M st i Hi Hn) as [E1 E2]. destruct IH as [IH1 IH2]. by rewrite !fmap_cons, E1, E2, IH1, IH2.
Qed.

(** * Reading the file of one sequence *)

(** The cells of stream [b] that no sequence but [dest] uses. *)
Definition room (N : nat) (d : kv_store) (b : nat) (dest : Z) : nat :=
  length (filter (fun i => cell_rm dest 0 INT32_MAX (kv_view (s_kv d) b i) = None) (seq 0 N)).

Lemma room_free N d b dest c1 : (forall st i, kv_view c1 st i = if decide (st = b) then cell_rm dest 0 INT32_MAX (kv_view (s_kv d) st i) else kv_view (s_kv d) st i) ->
  length (P.free_cells N c1 b) = room N d b dest.
Proof. intros V. unfold P.free_cells, room. f_equal. apply list_filter_iff. intros i. rewrite V. by rewrite decide_True. Qed.

(** [d'] is [d] without the sequence. *)
Definition removed (N : nat) (d : kv_store) (dest : Z) (d' : kv_store) : Prop :=
  store_ok N d' /\ layers d' = layers d /\ forall st i t p, has (kv_view (s_kv d') st i) t p <-> has (kv_view (s_kv d) st i) t p /\ t <> dest.

Lemma removed_ok N d dest b c1 : store_ok N d -> P.plain N (s_kv d) -> home (s_kv d) dest = Some b -> P.plain N c1 -> same_config (s_kv d) c1 ->
  (forall st i, kv_view c1 st i = if decide (st = b) then cell_rm dest 0 INT32_MAX (kv_view (s_kv d) st i) else kv_view (s_kv d) st i) -> removed N d dest (with_kv c1 d).
Proof.
  intros Hd Hp Hh P1 C1 V1. assert (K.n_stream c1 = K.n_stream (s_kv d) /\ K.v_trans c1 = K.v_trans (s_kv d)) as [En Et] by (by destruct C1 as (? & ? & ? & ->)).
  split_and!; [|done|intros; by eapply others_rm]. split; cbn [s_kv layers n_seq_max with_kv]; [apply P1|rewrite En, Et; apply Hd|apply Hd|apply Hd|].
  intros st i p q x Hv Hx. assert (has (kv_view c1 st i) x p) as Hhas by (by exists q). eapply others_rm in Hhas as [(ids & Hv' & Hx') _]; [|done..]. by eapply (so_seqs _ _ Hd).
Qed.

(** One stream: the sequence lands, or there is no room. *)
Lemma read_seq_stream N N' s d a b q dest cells rest k : store_ok N s -> store_ok N' d -> seq_compatible N' s d a b q dest -> K.v_cells (s_kv s) !! a = Some cells -> saved cells q <> [] ->
  if decide (length (saved cells q) <= room N' d b dest)%nat
  then exists d' k', read_stream dest a (d, mkRb (enc_stream s N q a ++ rest) k) = Done (d', mkRb rest k') /\ restored N N' s d a b q dest d'
  else exists d', read_stream dest a (d, mkRb (enc_stream s N q a ++ rest) k) = Throw (Restore_failed, d') /\ removed N' d dest d'.
Proof.
  intros Hs Hd Hc Hcells Hne. destruct (kw_wf _ _ (so_kv _ _ Hs) _ _ Hcells) as [Hw Hsz]. pose proof (wf_size _ Hw) as Hint. destruct (home_range (so_kv _ _ Hs) _ _ (sc_src _ _ _ _ _ _ _ Hc)) as (Hq & _ & _).
  pose proof (sc_dst _ _ _ _ _ _ _ Hc) as Hh. destruct (home_range (so_kv _ _ Hd) _ _ Hh) as (Hdest & Hb & _). set (l := saved cells q) in *. assert (length l <= N)%nat as Hl.
  { pose proof (length_filter (kept cells q) (seq 0 (size cells))) as L. rewrite length_seq in L. unfold l, saved. lia. }
  assert (length l <> 0%nat) as Hl0 by (by intros ?%length_zero_iff_nil). unfold enc_stream, at_stream. rewrite Hcells. fold l. rewrite bool_decide_false by done. unfold read_stream. unfold INT32_MAX, size in *.
  rewrite <- !app_assoc. match goal with |- context [read_u32 (mkRb (le4 ?z ++ ?r) k)] => destruct (read_u32_ok z r k) as [k1 ->]; [lia|] end. cbn [at_store mbind outcome_bind]. rewrite bool_decide_false by lia.
  rewrite bool_decide_false by lia. assert (K.seq_to_stream (s_kv d) !! Z.to_nat dest = Some b) as -> by (unfold home in Hh; by case_bool_decide). cbn [of_option mbind outcome_bind]. rewrite Nat2Z.id.
  unfold state_read_meta. rewrite bool_decide_true by lia. unfold l at 2 4. rewrite enc_seq by (split; [lia|apply Hc]). fold l. set (qs := pos_of cells <$> l).
  assert (length qs = length l) as Lq by (unfold qs; by rewrite length_fmap). rewrite <- Lq.
  assert (Forall (fun p => 0 <= p < INT32_MAX) qs) as Hqs.
  { apply Forall_fmap, Forall_forall. intros i Hi. destruct (elem_of_saved N s a cells q i Hs ltac:(lia) Hcells Hi) as (_ & ids & Hv & _). cbn. split.
    - pose proof (S.kv_view_pos _ _ _ _ _ _ (so_kv _ _ Hs) Hv). lia.
    - exact (sc_room _ _ _ _ _ _ _ Hc _ _ _ _ Hv). }
  destruct (read_meta_seq_ok N' d b dest q qs (enc_data s N a l ++ rest) k1 (sc_plain _ _ _ _ _ _ _ Hc) Hh (sc_npos _ _ _ _ _ _ _ Hc)) as (c1 & E1 & P1 & C1 & V1 & R);
    [intros Hz; by rewrite Hz in Lq|done|unfold LLAMA_MAX_SEQ, INT32_MAX in *; lia|]. rewrite <- (room_free N' d b dest c1 V1). case_decide as D.
  - destruct R as (si & row & c2 & k2 & -> & Hpa). cbn [mbind outcome_bind]. pose proof (pa_len _ _ _ _ _ _ _ _ Hpa) as Hlen.
    pose proof (same_config_trans _ _ _ C1 (pa_cfg _ _ _ _ _ _ _ _ Hpa)) as C2. assert (K.n_stream c2 = K.n_stream (s_kv d) /\ K.v_trans c2 = K.v_trans (s_kv d)) as [En Et] by (by destruct C2 as (? & ? & ? & ->)).
    destruct (stream_cells (P.pn_wf _ _ (pa_plain _ _ _ _ _ _ _ _ Hpa)) b) as (cd & hd & Hcd & _ & Wd & Sd & _); [by rewrite En|].
    assert (slot_ok N N' l row si) as Hsl.
    { split; [apply Hpa|intros ->; by rewrite <- Hlen in Lq|apply Hpa|congruence| | |apply saved_nodup].
      - apply Forall_forall. intros i Hi. by destruct (elem_of_saved N s a cells q i Hs ltac:(lia) Hcells Hi).
      - apply Forall_forall. intros i Hi. by destruct (pa_free _ _ _ _ _ _ _ _ Hpa i Hi). }
    destruct (state_read_data_ok N N' (K.n_stream (s_kv d)) s (with_kv c2 d) cd a b si l row rest k2) as (ls' & k3 & E & Mv);
      [done|done|cbn [s_kv layers with_kv]; rewrite Et; apply Hd|cbn [s_kv with_kv]; rewrite Et; apply Hc|apply Hc|done|done|].
    rewrite <- Hlen, E. cbn [mbind outcome_bind]. eexists _, k3. split; [reflexivity|]. cbn [s_kv with_kv layers] in Mv. rewrite Et in Mv.
    by apply (seq_restored_ok N N' s d a b q dest cells c1 c2 si row ls').
  - destruct R as (k2 & ->). cbn [mbind outcome_bind]. unfold restore_failed. rewrite bool_decide_false by lia. cbn [s_kv with_kv].
    destruct (plain_rm N' c1 dest b P1) as (c3 & -> & P3 & C3 & V3); [by rewrite (home_config _ _ _ C1)|]. cbn [of_option mbind outcome_bind]. eexists. split; [reflexivity|].
    destruct (removed_ok N' d dest b c1 Hd (sc_plain _ _ _ _ _ _ _ Hc) Hh P1 C1 V1) as (O1 & _ & H1).
    destruct (removed_ok N' (with_kv c1 d) dest b c3 O1 P1) as (O3 & _ & H3); [cbn [s_kv with_kv]; by rewrite (home_config _ _ _ C1)|done|done|done|]. split; [exact O3|]. split; [done|].
    intros st i t p. change (s_kv (with_kv c3 (with_kv c1 d))) with c3 in H3 |- *. cbn [s_kv with_kv] in H1, H3 |- *. rewrite H3, H1. tauto.
Qed.

Lemma content_length N s a q cells : store_ok N s -> K.v_cells (s_kv s) !! a = Some cells -> 0 <= q -> length (seq_content N s a q) = length (saved cells q).
Proof.
  intros Hs Hc Hq. destruct (kw_wf _ _ (so_kv _ _ Hs) _ _ Hc) as [_ Hsz]. rewrite (seq_content_saved N s a q cells Hc Hsz Hq).
  assert (Forall (fun i => i ∈ saved cells q) (saved cells q)) as F by (by apply Forall_forall). revert F. generalize (saved cells q) at 2 3 4. intros l0 F.
  induction F as [|i l0 Hi _ IH]; [done|]. destruct (elem_of_saved N s a cells q i Hs Hq Hc Hi) as (_ & ids & Hv & Hin). cbn. unfold seq_cell at 1. rewrite Hv. cbn. rewrite decide_True by done. cbn. by rewrite IH.
Qed.

(** All the streams of the file. *)
Lemma read_seq_file N N' s d a b q dest rest k : store_ok N s -> store_ok N' d -> seq_compatible N' s d a b q dest ->
  if decide (seq_content N s a q = []) then exists k', state_read dest d (mkRb (encoding s N q ++ rest) k) = Done (d, mkRb rest k')
  else if decide (length (seq_content N s a q) <= room N' d b dest)%nat
  then exists d' k', state_read dest d (mkRb (encoding s N q ++ rest) k) = Done (d', mkRb rest k') /\ restored N N' s d a b q dest d'
  else exists d', state_read dest d (mkRb (encoding s N q ++ rest) k) = Throw (Restore_failed, d') /\ removed N' d dest d'.
Proof.
  intros Hs Hd Hc. destruct (home_range (so_kv _ _ Hs) _ _ (sc_src _ _ _ _ _ _ _ Hc)) as (Hq & Ha & _). destruct (home_range (so_kv _ _ Hd) _ _ (sc_dst _ _ _ _ _ _ _ Hc)) as (Hdest & _ & Hlen).
  destruct (stream_cells (so_kv _ _ Hs) a Ha) as (cells & h & Hcells & _). pose proof (content_length N s a q cells Hs Hcells ltac:(lia)) as Hcl.
  assert (K.n_stream (s_kv s) <= 256)%nat as Hn by (destruct (kw_map _ _ (so_kv _ _ Hs)) as [[-> _]|[[_ ?] _]]; unfold LLAMA_MAX_SEQ in *; lia).
  set (n := K.n_stream (s_kv s)) in *. assert (seq 0 n = seq 0 a ++ a :: seq (S a) (n - a - 1)) as Hseq by (replace n with (a + S (n - a - 1))%nat at 1 by lia; by rewrite seq_app).
  assert (Forall (fun st => st < n)%nat (seq 0 a) /\ Forall (fun st => st < n)%nat (seq (S a) (n - a - 1))) as [F1 F2] by (split; apply Forall_forall; intros i Hi%elem_of_seq; lia).
  assert (a ∉ seq 0 a /\ a ∉ seq (S a) (n - a - 1)) as [A1 A2] by (split; intros Hi%elem_of_seq; lia).
  unfold state_read, encoding. rewrite must_bd by lia. cbn [mbind outcome_bind]. rewrite <- (sc_stream _ _ _ _ _ _ _ Hc), <- app_assoc. fold n.
  destruct (read_u32_ok (Z.of_nat n) (concat (enc_stream s N q <$> seq 0 n) ++ rest) k) as [k1 ->]; [lia|]. cbn [at_store mbind outcome_bind]. rewrite bool_decide_false by auto.
  rewrite Hseq, fmap_app, fmap_cons, concat_app. cbn [concat]. rewrite <- !app_assoc, foldO_app.
  destruct (skip_streams N s a q dest d (enc_stream s N q a ++ concat (enc_stream s N q <$> seq (S a) (n - a - 1)) ++ rest) Hs (sc_src _ _ _ _ _ _ _ Hc) (seq 0 a) k1 A1 F1) as [k2 ->]. cbn [mbind outcome_bind].
  case_decide as D0.
  - rewrite D0 in Hcl. assert (saved cells q = []) as E0 by (by apply length_zero_iff_nil). cbn [foldO].
    destruct (skip_stream N s q a cells dest d (concat (enc_stream s N q <$> seq (S a) (n - a - 1)) ++ rest) k2 Hcells E0) as [k3 ->]. cbn [mbind outcome_bind].
    exact (skip_streams N s a q dest d rest Hs (sc_src _ _ _ _ _ _ _ Hc) _ k3 A2 F2).
  - assert (saved cells q <> []) as Hne by (intros E0; rewrite E0 in Hcl; by apply length_zero_iff_nil in Hcl).
    pose proof (read_seq_stream N N' s d a b q dest cells (concat (enc_stream s N q <$> seq (S a) (n - a - 1)) ++ rest) k2 Hs Hd Hc Hcells Hne) as R. rewrite <- Hcl in R. cbn [foldO]. case_decide as D.
    + destruct R as (d' & k3 & -> & R). cbn [mbind outcome_bind]. destruct (skip_streams N s a q dest d' rest Hs (sc_src _ _ _ _ _ _ _ Hc) _ k3 A2 F2) as [k4 E]. exists d', k4. by split.
    + destruct R as (d' & -> & R). by exists d'.
Qed.

(** * Property *)

(** C11: the state of a sequence survives saving and restoring. The buffer filled
    by [state_seq_get_data], given to [state_seq_set_data] with any sequence of a
    compatible cache, is consumed to the last byte and puts exactly the saved
    positions, keys and values (in cells that were free) into that sequence: the
    other sequences keep their cells and their data. When the cells that nobody
    else uses are too few, 0 is returned and the sequence is removed, the others
    being kept. A file without cells changes nothing. *)
Theorem seq_state_roundtrip (N N' : nat) (s d : kv_store) (a b : nat) (q dest size n : Z) (out : list byte) :
  store_ok N s -> store_ok N' d -> seq_compatible N' s d a b q dest -> 0 <= size <= SIZE_MAX -> state_seq_get_data s q size = Some (n, Some out) ->
  exists n' d', state_seq_set_data d dest out = Some (n', d') /\
    if decide (seq_content N s a q = []) then n' = n /\ d' = d
    else if decide (length (seq_content N s a q) <= room N' d b dest)%nat then n' = n /\ restored N N' s d a b q dest d'
    else n' = 0 /\ removed N' d dest d'.
Proof.
  intros Hs Hd Hc Hz E. destruct (home_range (so_kv _ _ Hs) _ _ (sc_src _ _ _ _ _ _ _ Hc)) as (Hq & _ & _). destruct (emits_state N s q Hs) as [_ Hb]; [by right|].
  unfold state_seq_get_data, state_seq_write_data in E. rewrite Hb in E by (split; cbn; lia). case_bool_decide as Hlen; [done|]. cbn [mbind outcome_bind put_bytes wb_out size_written buf_size app io_n_bytes write_buffer] in E. injection E as En <-. cbn [buf_size] in Hlen.
  pose proof (len_pos (encoding s N q)) as Hpos. rewrite u64_small in En by lia.
  pose proof (read_seq_file N N' s d a b q dest [] 0 Hs Hd Hc) as R. rewrite app_nil_r in R.
  assert (whole n (mkRb (encoding s N q) 0)) as W. { split; cbn [size_read rb_ptr]; [|unfold SIZE_MAX; lia]. rewrite Z.add_0_l, u64_small by lia. lia. }
  pose proof (state_read_whole n dest d _ W) as PW. unfold state_seq_set_data, state_seq_read_data. assert (forall k, whole n (mkRb [] k) -> k = n) as Hk.
  { intros k [H1 H2]. cbn [size_read rb_ptr] in *. change (len []) with 0 in H1. rewrite Z.add_0_r, u64_small in H1 by lia. done. }
  repeat case_decide.
  - destruct R as (k & R). rewrite R in PW |- *. cbn [mbind outcome_bind post] in *. exists k, d. by rewrite (Hk k PW).
  - destruct R as (d' & k & R & H'). rewrite R in PW |- *. cbn [mbind outcome_bind post] in *. exists k, d'. by rewrite (Hk k PW).
  - destruct R as (d' & -> & H'). cbn [mbind outcome_bind]. by exists 0, d'.
Qed.

End SeqState.

(** Sequence 2 of the concrete state becomes sequence 3 of an empty cache. *)
Lemma demo_target_plain : P.plain 3 demo_target_kv.
Proof.
  destruct demo_target_kv_ok as [H V]. split; [exact H|split; [done|cbn; unfold INT32_MAX; lia]|lia| |].
  - intros st i p q Hv. by rewrite V in Hv.
  - intros [|st] cells Hc i h Hh; [|by destruct st]. injection Hc as <-. do 3 (destruct i as [|i]; [by injection Hh as <-|]). done.
Qed.

Lemma demo_seq_compatible : seq_compatible 3 demo_store demo_target 0 0 2 3.
Proof.
  split; try done.
  - apply demo_compatible.
  - exact demo_target_plain.
  - intros st i p ids Hv. change (kv_view (s_kv demo_store) st i) with (kv_view demo_kv st i) in Hv. rewrite demo_kv_view in Hv. destruct st; [|done]. rewrite demo_view in Hv.
    destruct i as [|[|i]]; [| |done]; injection Hv as <- _; unfold INT32_MAX; lia.
Qed.

Lemma seq_state_roundtrip_witness :
  exists n out d', state_seq_get_data (BM := debug_build) demo_store 2 100 = Some (n, Some out) /\ state_seq_set_data (BM := debug_build) demo_target 3 out = Some (n, d') /\
    restored (BM := debug_build) 4 3 demo_store demo_target 0 0 2 3 d' /\ length (seq_content (BM := debug_build) 4 demo_store 0 2) = 1%nat.
Proof.
  destruct (state_seq_get_data (BM := debug_build) demo_store 2 100) as [[n [out|]]|] eqn:E; [|by vm_compute in E..].
  destruct (seq_state_roundtrip (BM := debug_build) 4 3 demo_store demo_target 0 0 2 3 100 n out demo_store_ok demo_target_ok demo_seq_compatible) as (n' & d' & R & C); [unfold SIZE_MAX; lia|exact E|].
  assert (length (seq_content (BM := debug_build) 4 demo_store 0 2) = 1%nat) as Hl by (vm_compute; reflexivity).
  rewrite decide_False in C by (intros Hz; by rewrite Hz in Hl). rewrite decide_True in C by (rewrite Hl; vm_compute; lia). destruct C as [-> C].
  exists n, out, d'. split_and!; [reflexivity|exact R|exact C|exact Hl].
Defined.

End KvSeqState.
