(* ===== verification/KvIswaState.v ===== *)
(** Saving and restoring the cache with interleaved windows: [state_write] and
    [state_read] of [llama-kv-cache-iswa.cpp].  A partial state is that of the
    window cache alone; restoring one can give the window cache positions that the
    base cache does not have. *)

From S2P Require Import Prelude.
From S2P Require Import KvCells.
From S2P Require Import Memory.
From S2P Require Import KvCache.
From S2P Require Import KvOps.
From S2P Require Import KvIswa.
From S2P Require Import Bytes.
From S2P Require Import KvState.
From S2P Require Import KvRoundtrip.
Import KvOps.KvOps KvState.KvState KvRoundtrip.KvRoundtrip.

Module KvIswaState.
Local Open Scope Z_scope.

Definition LLAMA_STATE_SEQ_FLAGS_PARTIAL_ONLY : Z := 1.

(** The two caches with their tensors. *)
Record iswa_store := mkIswaStore { is_unified : bool; is_base : kv_store; is_swa : kv_store }.

(** The caches without their tensors. *)
Definition iswa_of (s : iswa_store) : KvIswa.Iswa.llama_kv_cache_iswa :=
  KvIswa.Iswa.mkIswa (is_unified s) (s_kv (is_base s)) (s_kv (is_swa s)).

Section State.
Context `{BM : BuildMode}.

Definition is_partial (flags : Z) : bool := negb (bool_decide (Z.land flags LLAMA_STATE_SEQ_FLAGS_PARTIAL_ONLY = 0)).

Definition iswa_state_write `{IO : llama_io_write_i W} (s : iswa_store) (seq_id flags : Z) (w : W) : outcome io_error W :=
  w ← (if is_partial flags then Done w else state_write (is_base s) seq_id w);
  state_write (is_swa s) seq_id w.

(** An exception leaves the caches as they are at that point. *)
Definition iswa_state_read (seq_id flags : Z) (s : iswa_store) (r : llama_io_read_buffer)
    : outcome (io_error * iswa_store) (iswa_store * llama_io_read_buffer) :=
  '(s, r) ← (if is_partial flags then Done (s, r) else
    match state_read seq_id (is_base s) r with
    | Done (b, r) => Done (mkIswaStore (is_unified s) b (is_swa s), r)
    | Throw (e, b) => Throw (e, mkIswaStore (is_unified s) b (is_swa s))
    | Undefined => Undefined
    end);
  match state_read seq_id (is_swa s) r with
  | Done (x, r) => Done (mkIswaStore (is_unified s) (is_base s) x, r)
  | Throw (e, x) => Throw (e, mkIswaStore (is_unified s) (is_base s) x)
  | Undefined => Undefined
  end.

(** A partial state is written and read by the window cache alone. *)
Lemma partial_writes_swa `{IO : llama_io_write_i W} s seq_id flags (w : W) : is_partial flags = true -> iswa_state_write s seq_id flags w = state_write (is_swa s) seq_id w.
Proof using Type. unfold iswa_state_write. by intros ->. Qed.

Lemma partial_keeps_base seq_id flags s r s' r' : is_partial flags = true -> iswa_state_read seq_id flags s r = Done (s', r') -> is_base s' = is_base s.
Proof using Type.
  unfold iswa_state_read. intros ->. cbn [mbind outcome_bind]. destruct (state_read seq_id (is_swa s) r) as [[x r1]|[e x]|]; [|done..]. by intros [= <- _].
Qed.

End State.

(** Sequence 2 is at position 5 in a cache; its partial state, restored as sequence
    3 of an empty cache, is in the window cache only, so the cache reports that the
    sequence ends at position 5, which the base cache does not hold. *)
Definition demo_iswa_store : iswa_store := mkIswaStore true demo_store demo_store.
Definition demo_iswa_target : iswa_store := mkIswaStore true demo_target demo_target.

Definition partial_restore : option iswa_store :=
  match iswa_state_write (BM := debug_build) demo_iswa_store 2 LLAMA_STATE_SEQ_FLAGS_PARTIAL_ONLY (mkWb [] 100 0) with
  | Done w => match iswa_state_read (BM := debug_build) 3 LLAMA_STATE_SEQ_FLAGS_PARTIAL_ONLY demo_iswa_target (mkRb (wb_out w) 0) with Done (s, _) => Some s | _ => None end
  | _ => None
  end.

Example partial_restore_not_superset :
  (s ← partial_restore;
   p ← KvIswa.Iswa.seq_pos_max (BM := debug_build) 3 (iswa_of s);
   b ← KvCache.Kv.seq_pos_max (BM := debug_build) 3 (s_kv (is_base s));
   Some (p, b)) = Some (5, -1).
Proof. vm_compute. reflexivity. Qed.

End KvIswaState.
